(* ===== verification/_CoqProject ===== *)
-Q . S2P
Prelude.v
Net.v
RustStr.v
IpText.v
Rotation.v
Cellular.v
Readiness.v
EgressProbe.v
Lifecycle.v
Transport.v
MangleAudit.v
RootPolicy.v
ProxyAuth.v
Stream.v
Socks5.v
HttpConnect.v
ProxySession.v
Relay.v
Proto.v
Credentials.v
TemporaryCredential.v
Configuration.v
ReadinessProbe.v
Control.v
RootSession.v
Interaction.v
Threads.v
RootPolicyRuntime.v
RootPolicyTransaction.v
MobileData.v
RotationRuntime.v
RotationTasks.v
RotationTiming.v
ControlTransport.v
ControlRuntime.v
ControlSession.v
CellularConnector.v
CellularRuntime.v
PolicyCoordinator.v
PolicyTasks.v
MeshComposition.v
ReadinessRuntime.v
ReadinessTasks.v
Pools.v
MeshServing.v
ProxyCoordinator.v
ProxyTasks.v
ProxyServing.v
ServingComposition.v
ProductFacts.v
ProductRuntime.v
ProductTasks.v
CredentialsBoundary.v
ProductDiagnostics.v
DnsTracker.v
BoundaryViews.v
ControlTiming.v
AndroidNetwork.v
ProductBoundary.v
GenerationComposition.v
