(* ===== verification/Prelude.v ===== *)
(** * MISH: a verification library for the mobile proxy

    MISH turns a rooted Android phone into an authenticated proxy whose traffic
    leaves through the cellular network only.  The Rust crates under
    [src/crates] each own one decision of that product; this library models
    those owners and proves what the others rely on.

    ** The parts and how they interact

    A client reaches the phone over a Mesh VPN.  Transport admits the one local
    Mesh address inside the configured range and hands out a bounded number of
    sessions per admission; each session is given to the proxy, which detects
    SOCKS5 or HTTP CONNECT, authenticates the client against the primary and the
    temporary credential and asks a connector to dial the target.  The connector
    may only use the cellular network that the cellular owner has admitted, kept
    apart by packet-filter and routing rules that the root policy contract
    installs, verifies and audits.  Readiness projects the state of all of them,
    together with an authenticated probe through the product's own proxy.
    Rotation changes the public address by switching mobile data off and on.
    Credentials owns the secrets' versions and their stored form; Control is the
    protocol by which a server asks for a rotation.

    Around these owners runs the Tokio runtime crate.  A root session sends
    commands to one privileged shell; the root policy runtime drives it through a
    transaction that installs and verifies the rules; the cellular policy
    coordinator runs that transaction for every admission and then opens the gate
    through which connections and address observations pass; the rotation runtime
    drives the rotation machine with mobile-data commands, timers and the
    coordinator's publications; the control runtime keeps the session to the
    server and starts rotations on its request.  The proxy coordinator launches one
    serving generation after the other and restarts it when it fails; the mesh
    composition opens the ingress while a healthy proxy serves and readiness allows
    it; the readiness runtime probes whenever what it rests on changes.  The product
    runtime is the one handle Android has: it installs a generation of all these
    owners, starts and drains it, and brings a fresh one up to date.

    ** Files

    Shared:
    - [Prelude]: results and the [?] operator, machine integers, [run] for
      components that are stepped by calls (with induction, monotonicity and
      simulation), the tactics, lists.
    - [Net], [RustStr]: the standard library as the crates use it: addresses,
      UTF-8 strings as byte lists (trimming, splitting, parsing, formatting).
    - [IpText]: printing an address and parsing it back, IPv6 included.
    - [Stream]: [Read + Write] with interruptions, failures, end of file and a
      peer that accepts a limited number of bytes; the equivalence of streams a
      reader cannot tell apart.
    - [Proto]: [crates/credentials/src/proto.rs], with the round trip of whole
      messages that the credential codecs use.

    Owners (file: source):
    - [Rotation]: [crates/rotation/src/lib.rs], one definition per method.
    - [Cellular]: [crates/cellular/src/lib.rs].
    - [Readiness]: [crates/readiness/src/lib.rs].
    - [EgressProbe]: [crates/application/src/lib.rs].
    - [Lifecycle]: [crates/runtime/src/lifecycle.rs].
    - [Transport]: [crates/transport/src/lib.rs] and [runtime_owner.rs]; the
      lock-free session owner is a set of threads that interleave at its atomic
      accesses, the ingress coordinator keeps a store of shared session owners.
    - [MangleAudit], [RootPolicy]: [crates/cellular/src/root_policy.rs].
    - [ProxyAuth]: [crates/proxy/src/lib.rs], [auth.rs], [target.rs]; the trait
      [ProxyAuthenticator] is a class, and [AuthenticatorLaws] is what both
      implementations promise to the protocol parsers.
    - [Socks5]: [crates/proxy/src/socks5.rs]; [HttpConnect]:
      [http_connect.rs] and the header reader of [mixed.rs]; [ProxySession]:
      [mixed.rs] and the session set-up of [session.rs]; [Relay]: the relay behind it,
      two threads that interleave at each call of a socket.
    - [Credentials]: [crates/credentials/src/lib.rs], [persistence.rs],
      [provisioning.rs]; [TemporaryCredential]: [temporary.rs].
    - [Configuration]: [crates/configuration/src/lib.rs].
    - [ReadinessProbe]: [crates/runtime/src/readiness_network.rs].
    - [Control]: [crates/control/src/lib.rs].
    - [AndroidNetwork]: [crates/android-network/src/lib.rs], with the platform's lookup as
      a parameter.

    Runtimes:
    - [Interaction]: programs as trees of typed requests, their traces, and
      reasoning over all answers; [Threads]: programs interleaved over a shared
      state, with a rely/guarantee theorem from thread bodies to all runs.
    - [RootSession]: [crates/runtime/src/root_session.rs]; [RootPolicyRuntime]:
      [root_policy_effect.rs] and [root_policy_runtime.rs];
      [RootPolicyTransaction]: what holds of its traces.
    - [MobileData]: [mobile_data_effect.rs]; [RotationRuntime]:
      [rotation_runtime.rs]; [RotationTasks]: its interleavings; [RotationTiming]: the
      timing evidence it collects.
    - [ControlTransport]: [control_transport.rs] and [tls_client.rs];
      [ControlRuntime]: [control_runtime.rs]; [ControlSession]: what holds of a
      session and of its composition with the rotation runtime; [ControlTiming]: its
      snapshot, which joins the evidence of both, and the views of it.
    - [CellularConnector]: [cellular_connector.rs]; [DnsTracker]: its counters, one atomic
      access at a time; [CellularRuntime]:
      [cellular_runtime.rs], [public_ip.rs] and [public_ip_network.rs];
      [PolicyCoordinator]: [cellular_policy_coordinator.rs]; [PolicyTasks]: its
      interleavings, with the root policy runtime and the cellular runtime inside.
    - [MeshComposition]: [mesh_composition.rs], over the ingress coordinator of
      [Transport]; [ReadinessRuntime]: [readiness_runtime.rs], over the mesh;
      [ReadinessTasks]: its interleavings.
    - [ProxyCoordinator]: [proxy_coordinator.rs] and [proxy_recovery.rs], over
      readiness and mesh; [ProxyTasks]: its interleavings.
    - [Pools]: counted tasks and permits; [MeshServing]: [mesh_serving.rs];
      [ProxyServing]: [proxy_runtime.rs].  Their acceptors, sessions and callers
      are state machines whose events are single accesses to what they share;
      [ServingComposition] runs the two side by side, the one executing the other.
    - [ProductFacts]: what [product_runtime.rs] remembers of Android's
      observations; [ProductRuntime]: the rest of that file,
      [product_generation.rs] and [execution.rs]; [ProductTasks]: the
      interleavings of the handle; [ProductDiagnostics]: [product_diagnostics.rs],
      whose reads are answered from the moments of such a run.
    - [GenerationComposition]: the policy side and the readiness side of a generation as
      [ProductGeneration::new] wires them, with the observers between them.

    Boundary ([crates/android-ffi/src]):
    - [CredentialsBoundary]: [credentials_ffi.rs]; [BoundaryViews]:
      [runtime_boundary.rs], [transport_ffi.rs], [runtime_lifecycle_ffi.rs],
      [readiness_ffi.rs] and the projections of [product_runtime_ffi.rs];
      [ProductBoundary]: the methods of that file and the diagnostic view.

    A method or task of the runtimes is a program: a critical section of a mutex,
    a look at the clock, a command, a socket call or a call of another owner is
    one request, and everything between two requests is one atomic step.

    A method on [&mut self] becomes a function from the state to its answer and
    the new state, also when it answers an error after a partial update; errors
    are the source's variants in a [result].  Integers are [Z] with the checks of
    the source written out.

    ** What the theorems show

    - No traffic without a grant ([ProxyAuth], [Socks5], [HttpConnect],
      [ProxySession]): a target is dialled only for a client that presented a
      granted pair in exactly the bytes consumed; well-formed clients are always
      served; protocol detection loses no byte; readers are bounded; the
      readiness probe reports what the proxy decided ([ReadinessProbe]).  Behind the
      grant a session is a tunnel: both ways in order, nothing added or lost, and it ends
      ([Relay]).  A lookup answers exactly the addresses the platform listed
      ([AndroidNetwork]).
    - No traffic outside the admitted network ([Cellular], [MangleAudit],
      [RootPolicy]): an admitted network is justified by the last observation,
      authority tokens die with the next applied event, an audit that reports
      [Clean] has visited every reachable rule, the installed policy verifies,
      and an identity is resolved only to what is really there.
    - One admission at a time ([Transport], [Configuration]): the session owner
      refines an abstract budget under every interleaving, and the ingress serves
      only the current admission epoch.
    - Rotation: success is reported only with evidence for every step in order;
      the duty to switch data back on refines a ledger; the machine only moves
      forward, and completes when its effects do.
    - Readiness and lifecycles: exactly when the product is ready; superseded
      probes never count; generations never repeat.
    - Secrets ([Credentials], [TemporaryCredential]): revoked versions are never
      derived again, stored state converges and round-trips, a temporary grant is
      honoured exactly within its day and across restarts.
    - Control: the signature conversion accepts exactly canonical DER, and a
      device can answer every challenge it accepts.
    - The root policy transaction ([RootPolicyTransaction]): it sends only the
      product's own commands, none after it is superseded; the way past the guard
      is opened only above a verified base; enforcement is reported only with
      evidence; a successful clean-up is verified.
    - The gate ([CellularRuntime], [PolicyTasks]): it is open only while the last
      word was an authorisation of the admission that still holds; that word is
      given only on the evidence of a transaction for that admission, behind
      drained effects; once the gate is closed and drained, nothing leaves the
      device.  A connection is dialled and handed out under one authority
      ([CellularConnector]), and an observed public address belongs to the
      generation it names.
    - Rotation at run time ([RotationTasks]): in every interleaving mobile data is
      switched only under the compensation discipline, and what the runtime does
      is a run of the machine.
    - Control at run time ([ControlSession], [ControlTransport]): a rotation is
      activated only after its acceptance was sent, a prepared one is always
      resolved, a session is ready only after the challenge, the proxy is offered
      only when it serves the current generation, and connecting keeps its budget.
    - Readiness and mesh at run time ([MeshComposition], [ReadinessTasks]): READY is
      published only on a probe of what is there now, and ingress is opened only on
      that word and over a running proxy.
    - The proxy at run time ([ProxyTasks], [ProxyServing], [MeshServing],
      [ServingComposition]): no
      runtime that was launched is lost, a generation is announced only when it is
      composed, sessions keep to their budget, a revoked temporary credential is
      honoured by nobody, a stop comes to an end, and one that ends cleanly answers for
      the ingress too.
    - The product ([ProductFacts], [ProductTasks]): a fresh generation is told enough
      to admit what the old one had admitted; no generation is taken up before the
      ones before it are drained, each exactly once; a running product was brought
      up; nobody hears of a generation that was replaced; the executor goes last.
    - A generation as a whole ([GenerationComposition]): READY, and every start of the
      ingress, rest on a root policy that was published as enforced, by a thread that
      held the evidence and the authorisation for the generation it named.
    - Diagnostics ([DnsTracker], [RotationTiming], [ControlTiming]): the counters of
      lookups are exact under every interleaving and stale load, and timing evidence is
      of the operation at hand, the first or the newest of its kind, and in order.
    - What Android sees ([ProductDiagnostics], [BoundaryViews], [ProductBoundary],
      [CredentialsBoundary]): a diagnostic snapshot is of one generation, and a
      consistent view held at one moment unless something changed and changed back;
      malformed observations do nothing; a temporary credential is restored only where
      it belongs; publications are told apart by their views; the stored credential is
      the owner's.
    - Nineteen theorems show where the code falls short of its intent: a mark rule
      that the audit takes for clean, a dying shell that is taken for a refusal,
      late output of a dropped command, a deadline that races a switch-off, an
      undelivered acceptance, a gate that stays open over a fail-closed policy, a
      generation that is left behind, a stale READY, a failed proxy that is reported
      started, a recovery that stops its own runtime, a session that is never
      uncounted, a set-up that outlives a clean stop, acceptors of a failed start, a
      restart under a platform mutation, a replay that is overtaken, a consistent
      snapshot that is torn, an enforcement of a lost network, a relay that outlives
      its caller, and an ingress that outlives a clean stop.

    ** Bounds and fuel

    - The chain search of [MangleAudit] gets two turns more than there are
      chains; a visit goes one level deeper only through a chain that is not on
      the path, which a theorem there shows to be enough.
    - The HTTP header reader gets 16385 turns, one per byte: the parser refuses
      longer headers, and a theorem shows that it always returns.  The probe's
      header reader gets 8193, since each turn adds a byte below its limit.
    - A decoder of [Proto] gets as many turns as there are bytes, since a tag
      takes at least one ([decode_fields_loop]); a varint of a [u64] takes at
      most ten bytes.
    - Decimal formatting holds 20 digits, as a [u64] needs.
    - The removal of duplicate jumps in [RootPolicyRuntime], the loops of a control
      session ([read_timed], [session_loop], [run_loop]), the quiescence wait and the
      drain of [PolicyCoordinator] go on as long as their surroundings let them.
      They take fuel and answer [None] when it runs out; the theorems about them
      hold for every fuel and speak of each step, not only of the end.
    - [usize] is 64 bits wide, as on the [arm64-v8a] target.

    ** What is not modelled

    The Android code, and of the UniFFI layer the observers that only project and the
    generated scaffolding.  The asynchronous relays of the serving side are a library
    call there and one step here, and the options of sockets are left out.  The proxy,
    rotation and control owners have files of their own but are not joined to
    [GenerationComposition], and what the owners of a generation answer to the product
    runtime is not tied to their own files.  Of the modelled files, text formatting for
    people ([Debug], [Display]), read-only accessors, poisoned locks and the release of
    platform memory are left out.  The orderings of atomic accesses are taken as
    sequentially consistent, but for the counters of [DnsTracker], whose loads may be
    stale.  SHA-256, JSON and the platform's lookup are parameters; sockets, TLS, the
    shell and the resolver are answers to requests, about which nothing is assumed. *)

From Stdlib Require Export ZArith Lia.
From stdpp Require Export base decidable list option numbers.

#[global] Open Scope Z_scope.

(** ** Results

    Rust's [Result<T, E>].  The error type comes first so that [result E] is
    the functor. *)

Inductive result (E A : Type) : Type :=
| Ok (a : A)
| Err (e : E).
Arguments Ok {E A} _.
Arguments Err {E A} _.

Declare Scope rust_scope.
Delimit Scope rust_scope with rust.
#[global] Open Scope rust_scope.

Definition result_bind {E A B} (m : result E A) (k : A -> result E B) : result E B :=
  match m with Ok a => k a | Err e => Err e end.

(** [let? x := c in k] is the [?] operator. *)
Notation "'let?' x ':=' c 'in' k" := (result_bind c (fun x => k))
  (at level 10, x pattern, c at level 100, k at level 200) : rust_scope.

Definition ok_or {E A} (o : option A) (e : E) : result E A :=
  match o with Some a => Ok a | None => Err e end.

Definition map_err {E F A} (f : E -> F) (m : result E A) : result F A :=
  match m with Ok a => Ok a | Err e => Err (f e) end.

Definition result_ok {E A} (m : result E A) : option A :=
  match m with Ok a => Some a | Err _ => None end.

Definition is_ok {E A} (m : result E A) : bool :=
  match m with Ok _ => true | Err _ => false end.

(** [Option::is_some_and], [Option::is_none_or]. *)
Definition is_some_and {A} (o : option A) (f : A -> bool) : bool :=
  match o with Some a => f a | None => false end.

Definition is_none_or {A} (o : option A) (f : A -> bool) : bool :=
  match o with Some a => f a | None => true end.

Definition is_some {A} (o : option A) : bool :=
  match o with Some _ => true | None => false end.

Definition is_none {A} (o : option A) : bool := negb (is_some o).

(** ** Machine integers

    A [uN] is a [Z] in range; [usize] is 64 bits wide, as on the [arm64-v8a]
    target the Android build selects. *)

Definition u8_max : Z := 255.
Definition u16_max : Z := 65535.
Definition u32_max : Z := 4294967295.
Definition u64_max : Z := 18446744073709551615.
Definition usize_max : Z := u64_max.

Definition in_width (m x : Z) : Prop := 0 <= x <= m.
Abbreviation is_u8 := (in_width u8_max).
Abbreviation is_u16 := (in_width u16_max).
Abbreviation is_u32 := (in_width u32_max).
Abbreviation is_u64 := (in_width u64_max).

#[export] Instance in_width_dec m x : Decision (in_width m x).
Proof. unfold in_width. apply _. Defined.

(** [checked_add] / [checked_mul] at the width whose maximum is [m]. *)
Definition checked_add (m a b : Z) : option Z :=
  if a + b <=? m then Some (a + b) else None.

Definition checked_mul (m a b : Z) : option Z :=
  if a * b <=? m then Some (a * b) else None.

Lemma checked_add_Some m a b c :
  checked_add m a b = Some c <-> c = a + b /\ a + b <= m.
Proof.
  unfold checked_add. destruct (Z.leb_spec (a + b) m).
  - split; [intros [= <-]; lia|intros [-> _]; done].
  - split; [done|lia].
Qed.

Lemma checked_add_None m a b : checked_add m a b = None <-> m < a + b.
Proof. unfold checked_add. destruct (Z.leb_spec (a + b) m); naive_solver lia. Qed.

(** Masks and shifts as arithmetic. *)
Lemma land_mod x n : 0 <= n -> Z.land x (2 ^ n - 1) = x mod 2 ^ n.
Proof. intros. replace (2 ^ n - 1) with (Z.ones n) by (rewrite Z.ones_equiv; lia). by apply Z.land_ones. Qed.

Lemma lor_shift_add x y n : 0 <= n -> 0 <= y < 2 ^ n -> Z.lor (Z.shiftl x n) y = x * 2 ^ n + y.
Proof.
  intros Hn Hy. rewrite Z.shiftl_mul_pow2 by done. rewrite <- Z.add_lor_land.
  replace (Z.land (x * 2 ^ n) y) with 0; [lia|]. symmetry. apply Z.bits_inj'. intros i Hi.
  rewrite Z.land_spec, Z.bits_0. destruct (Z.ltb_spec i n).
  - by rewrite Z.mul_pow2_bits_low.
  - replace y with (y mod 2 ^ n) by (by apply Z.mod_small). rewrite Z.mod_pow2_bits_high by lia. apply andb_false_r.
Qed.

(** A property of bytes is decided by evaluating it on all of them. *)
Lemma byte_ind (f : Z -> bool) : forallb f (Z.of_nat <$> seq 0 256) = true -> forall b, is_u8 b -> f b = true.
Proof.
  intros H b [H0 H1]. unfold u8_max in H1. rewrite forallb_forall in H. apply H.
  apply in_map_iff. exists (Z.to_nat b). split; [lia|]. apply in_seq. lia.
Qed.

Lemma high_bit b : is_u8 b -> (Z.land b 128 =? 0) = (b <? 128).
Proof.
  intros Hb. apply (byte_ind (fun b => bool_decide ((Z.land b 128 =? 0) = (b <? 128)))) in Hb;
    [by apply bool_decide_eq_true in Hb|vm_compute; reflexivity].
Qed.

(** Equality tests on decidable types, as the booleans the source branches on. *)
Notation "x =b? y" := (bool_decide (x = y)) (at level 70, no associativity) : rust_scope.
Notation "x <>b? y" := (negb (bool_decide (x = y))) (at level 70, no associativity) : rust_scope.

(** ** Machines

    A component with [&mut self] methods is a step function from a state and a
    call to a state and the call's answer.  [run] folds a sequence of calls. *)

Section machine.
Context {St Ev Out : Type} (step : St -> Ev -> Out * St).

Fixpoint run (s : St) (es : list Ev) : St :=
  match es with
  | [] => s
  | e :: es => run (step s e).2 es
  end.

Lemma run_app s es1 es2 : run s (es1 ++ es2) = run (run s es1) es2.
Proof. revert s. induction es1; intros; simpl; auto. Qed.

(** Invariants by induction on the calls. *)
Lemma run_invariant (I : St -> Prop) s es :
  (forall s e, I s -> I (step s e).2) -> I s -> I (run s es).
Proof. intros Hstep. revert s. induction es; simpl; auto. Qed.

(** Invariants that need the arguments of a call to be in range. *)
Lemma run_invariant_guarded (I : St -> Prop) (G : Ev -> Prop) s es :
  (forall s e, G e -> I s -> I (step s e).2) -> Forall G es -> I s -> I (run s es).
Proof.
  intros Hstep HG. revert s. induction HG; simpl; auto.
Qed.

(** A preorder every call respects, under an invariant, is respected by every run. *)
Lemma run_monotone (I : St -> Prop) (R : St -> St -> Prop) s es :
  Reflexive R -> Transitive R ->
  (forall s e, I s -> I (step s e).2) ->
  (forall s e, I s -> R s (step s e).2) ->
  I s -> R s (run s es).
Proof.
  intros Hrefl Htrans HI HR. revert s. induction es; intros s Hs; simpl.
  - reflexivity.
  - etransitivity; [apply HR; done|]. auto.
Qed.
End machine.

(** A step function simulated by another one through [R]: the functional
    refinement used for the abstract specifications. *)
Lemma run_simulation {St1 St2 Ev Out1 Out2}
    (step1 : St1 -> Ev -> Out1 * St1) (step2 : St2 -> Ev -> Out2 * St2)
    (R : St1 -> St2 -> Prop) s1 s2 es :
  (forall s1 s2 e, R s1 s2 -> R (step1 s1 e).2 (step2 s2 e).2) ->
  R s1 s2 -> R (run step1 s1 es) (run step2 s2 es).
Proof. intros Hstep. revert s1 s2. induction es; simpl; auto. Qed.

(** ** Automation *)

Create HintDb mish.

(** Case analysis on every test and match in the goal or in the hypotheses,
    turning boolean tests into propositions. *)
Ltac rust_bool :=
  repeat match goal with
  | H : _ && _ = true |- _ => apply andb_true_iff in H; destruct H
  | H : _ || _ = false |- _ => apply orb_false_iff in H; destruct H
  | H : negb _ = true |- _ => apply negb_true_iff in H
  | H : negb _ = false |- _ => apply negb_false_iff in H
  | H : bool_decide _ = true |- _ => apply bool_decide_eq_true in H
  | H : bool_decide _ = false |- _ => apply bool_decide_eq_false in H
  | H : (_ <? _) = true |- _ => apply Z.ltb_lt in H
  | H : (_ <? _) = false |- _ => apply Z.ltb_ge in H
  | H : (_ <=? _) = true |- _ => apply Z.leb_le in H
  | H : (_ <=? _) = false |- _ => apply Z.leb_gt in H
  | H : (_ =? _) = true |- _ => apply Z.eqb_eq in H
  | H : (_ =? _) = false |- _ => apply Z.eqb_neq in H
  end.

(** One split of a test or match the goal branches on. *)
Ltac rust_case :=
  match goal with
  | |- context [if ?b then _ else _] => destruct b eqn:?
  | |- context [match ?x with _ => _ end] => destruct x eqn:?
  end.

Ltac rust_case_in H :=
  match type of H with
  | context [if ?b then _ else _] => destruct b eqn:?
  | context [match ?x with _ => _ end] => destruct x eqn:?
  end.

Tactic Notation "rust_cases" := repeat (rust_case; simplify_eq/=; rust_bool).
Tactic Notation "rust_cases" "in" ident(H) :=
  repeat (rust_case_in H; simplify_eq/=; rust_bool).

(** ** Lists *)

(** [Vec::contains], [Iterator::any], [Iterator::all] on decidable tests. *)
Definition list_contains `{EqDecision A} (l : list A) (x : A) : bool :=
  existsb (fun y => y =b? x) l.

Lemma list_contains_true `{EqDecision A} (l : list A) x :
  list_contains l x = true <-> x ∈ l.
Proof.
  unfold list_contains. rewrite existsb_exists. setoid_rewrite bool_decide_eq_true.
  rewrite list_elem_of_In. naive_solver.
Qed.

(** [Iterator::position] *)
Fixpoint position {A} (f : A -> bool) (l : list A) : option nat :=
  match l with
  | [] => None
  | x :: l => if f x then Some 0%nat else S <$> position f l
  end.

Lemma forallb_Forall {A} (f : A -> bool) l :
  forallb f l = true <-> Forall (fun x => f x = true) l.
Proof.
  induction l; simpl; [by split|].
  rewrite andb_true_iff, Forall_cons_iff. naive_solver.
Qed.

Lemma existsb_false {A} (f : A -> bool) l :
  existsb f l = false <-> Forall (fun x => f x = false) l.
Proof.
  induction l; simpl; [naive_solver|].
  rewrite orb_false_iff, Forall_cons_iff. naive_solver.
Qed.
