(* ===== verification/Net.v ===== *)
(** * [std::net] addresses

    The address types of the standard library the crates exchange:
    [Ipv4Addr] and [Ipv6Addr] are their 32-bit and 128-bit big-endian values,
    [IpAddr] their sum, [SocketAddr] an address with a port. *)

From S2P Require Import Prelude.

Definition Ipv4Addr := Z.
Definition Ipv6Addr := Z.

Definition is_ipv4 (a : Ipv4Addr) : Prop := 0 <= a < 2 ^ 32.
Definition is_ipv6 (a : Ipv6Addr) : Prop := 0 <= a < 2 ^ 128.

Inductive IpAddr : Type :=
| IpV4 (a : Ipv4Addr)
| IpV6 (a : Ipv6Addr).

#[export] Instance IpAddr_eq_dec : EqDecision IpAddr.
Proof. intros [x|x] [y|y]; unfold Decision, Ipv4Addr, Ipv6Addr in *; decide equality; apply Z.eq_dec. Defined.

Record SocketAddr := { sa_ip : IpAddr; sa_port : Z }.

(** Network-order bytes, [n] of them: [Ipv4Addr::octets] at 4,
    [Ipv6Addr::octets] at 16, [u16::to_be_bytes] at 2, [u64::to_be_bytes] at 8. *)
Fixpoint be_bytes (n : nat) (z : Z) : list Z :=
  match n with
  | O => []
  | S n => be_bytes n (Z.shiftr z 8) ++ [Z.land z 255]
  end.

(** [u16::from_be_bytes], [Ipv4Addr::from(\[u8; 4\])], [Ipv6Addr::from(\[u8; 16\])]. *)
Definition of_be_bytes (bs : list Z) : Z :=
  fold_left (fun acc b => Z.lor (Z.shiftl acc 8) b) bs 0.

Definition ipv4_unspecified : Ipv4Addr := 0.
Definition ipv4_broadcast : Ipv4Addr := 4294967295.

(** [Ipv4Addr::is_unspecified], [Ipv4Addr::is_multicast] (224.0.0.0/4). *)
Definition ipv4_is_unspecified (a : Ipv4Addr) : bool := a =? 0.
Definition ipv4_is_multicast (a : Ipv4Addr) : bool :=
  (224 <=? Z.shiftr a 24) && (Z.shiftr a 24 <=? 239).

Definition ip_is_unspecified (a : IpAddr) : bool :=
  match a with IpV4 a => a =? 0 | IpV6 a => a =? 0 end.

(** ** Lemmas *)

Lemma be_bytes_length n z : length (be_bytes n z) = n.
Proof. revert z. induction n; intros; simpl; [done|]. rewrite length_app, IHn. simpl. lia. Qed.

Lemma land_255 z : Z.land z 255 = z mod 256.
Proof. change 255 with (Z.ones 8). rewrite Z.land_ones by lia. done. Qed.

Lemma be_bytes_u8 n z : Forall is_u8 (be_bytes n z).
Proof.
  revert z. induction n; intros; simpl; [constructor|].
  apply Forall_app; split; [done|]. repeat constructor; rewrite land_255.
  all: unfold u8_max; pose proof (Z.mod_pos_bound z 256); lia.
Qed.

Lemma lor_shiftl_byte a b : is_u8 b -> Z.lor (Z.shiftl a 8) b = a * 256 + b.
Proof.
  intros [Hb0 Hb1]. rewrite Z.shiftl_mul_pow2 by lia. change (2 ^ 8) with 256.
  rewrite <- Z.add_lor_land.
  replace (Z.land (a * 256) b) with 0; [lia|].
  symmetry. apply Z.bits_inj'. intros i Hi.
  rewrite Z.land_spec, Z.bits_0. change 256 with (2 ^ 8).
  destruct (Z.ltb_spec i 8).
  - rewrite Z.mul_pow2_bits_low by lia. done.
  - replace b with (b mod 2 ^ 8) by (rewrite Z.mod_small; unfold u8_max in *; lia).
    rewrite Z.mod_pow2_bits_high by lia. apply andb_false_r.
Qed.

Lemma of_be_bytes_app l b :
  is_u8 b -> of_be_bytes (l ++ [b]) = of_be_bytes l * 256 + b.
Proof. intros. unfold of_be_bytes. rewrite fold_left_app. simpl. by rewrite lor_shiftl_byte. Qed.

(** Encoding to [n] big-endian bytes and back is the identity in range. *)
Lemma of_be_bytes_be_bytes n z :
  0 <= z < 256 ^ Z.of_nat n -> of_be_bytes (be_bytes n z) = z.
Proof.
  revert z. induction n as [|n IH]; intros z Hz.
  - change (256 ^ Z.of_nat 0) with 1 in Hz. simpl. unfold of_be_bytes. simpl. lia.
  - simpl. rewrite of_be_bytes_app.
    2: { rewrite land_255. unfold in_width, u8_max. pose proof (Z.mod_pos_bound z 256). lia. }
    rewrite Z.shiftr_div_pow2 by lia. change (2 ^ 8) with 256.
    rewrite IH, land_255.
    + pose proof (Z.div_mod z 256). lia.
    + rewrite Nat2Z.inj_succ, Z.pow_succ_r in Hz by lia.
      split; [apply Z.div_pos; lia|]. apply Z.div_lt_upper_bound; lia.
Qed.

Lemma of_be_bytes_bound l :
  Forall is_u8 l -> 0 <= of_be_bytes l < 256 ^ Z.of_nat (length l).
Proof.
  induction l as [|b l IH] using rev_ind; intros Hl.
  - unfold of_be_bytes. simpl. lia.
  - apply Forall_app in Hl as [Hl Hb]. apply Forall_cons_iff in Hb as [Hb _].
    rewrite of_be_bytes_app by done. specialize (IH Hl).
    rewrite length_app. simpl. rewrite Nat2Z.inj_add, Z.pow_add_r by lia.
    change (256 ^ Z.of_nat 1) with 256. unfold in_width, u8_max in Hb. nia.
Qed.

Lemma be_bytes_of_be_bytes l :
  Forall is_u8 l -> be_bytes (length l) (of_be_bytes l) = l.
Proof.
  induction l as [|b l IH] using rev_ind; intros Hl; [done|].
  apply Forall_app in Hl as [Hl Hb]. apply Forall_cons_iff in Hb as [Hb _].
  rewrite of_be_bytes_app by done. rewrite length_app, Nat.add_comm. simpl.
  unfold in_width, u8_max in Hb.
  rewrite Z.shiftr_div_pow2, land_255 by lia. change (2 ^ 8) with 256.
  rewrite Z.div_add_l, Z.div_small, Z.add_0_r by lia.
  rewrite IH by done. f_equal. f_equal.
  rewrite Z.add_comm, Z.mod_add, Z.mod_small by lia. done.
Qed.
