(* ===== verification/RustStr.v ===== *)
(** * [str], [String] and byte slices

    A string is the list of its UTF-8 bytes, a byte a [Z] below 256.  The file
    models the operations of the Rust standard library that the crates call on
    strings: whitespace handling (Unicode-aware, as [str::trim] and
    [str::split_whitespace] are), splitting, searching, UTF-8 validation,
    integer parsing and formatting, and the address parsers of [core::net]. *)

From Stdlib Require Import String Ascii.
From stdpp Require Import gmap.
From S2P Require Import Prelude Net.

Abbreviation str := (list Z).

(** A literal of the source. *)
Fixpoint lit (s : String.string) : str :=
  match s with
  | String.EmptyString => []
  | String.String c s => Z.of_N (Ascii.N_of_ascii c) :: lit s
  end.

Arguments lit s%_string_scope : simpl never.

Definition crlf : str := [13; 10].

(** ** Byte classes *)

Definition between (lo hi b : Z) : bool := (lo <=? b) && (b <=? hi).
Definition is_ascii_digit (b : Z) : bool := between 48 57 b.
Definition is_ascii_lowercase (b : Z) : bool := between 97 122 b.
Definition is_ascii_uppercase (b : Z) : bool := between 65 90 b.
Definition is_ascii_alphabetic (b : Z) : bool := is_ascii_lowercase b || is_ascii_uppercase b.
Definition is_ascii_alphanumeric (b : Z) : bool := is_ascii_alphabetic b || is_ascii_digit b.
Definition is_ascii_control (b : Z) : bool := between 0 31 b || (b =? 127).
(** [u8::is_ascii_whitespace]: tab, line feed, form feed, carriage return, space. *)
Definition is_ascii_whitespace (b : Z) : bool :=
  (b =? 9) || (b =? 10) || (b =? 12) || (b =? 13) || (b =? 32).
Definition is_ascii_graphic (b : Z) : bool := between 33 126 b.
Definition to_ascii_lowercase (b : Z) : Z := if is_ascii_uppercase b then b + 32 else b.

Definition eq_ignore_ascii_case (a b : str) : bool :=
  (to_ascii_lowercase <$> a) =b? (to_ascii_lowercase <$> b).

(** ** Unicode whitespace, in its UTF-8 encoding of one, two or three bytes *)

Definition ws1 (b : Z) : bool := between 9 13 b || (b =? 32).
Definition ws2 (b1 b2 : Z) : bool := (b1 =? 194) && ((b2 =? 133) || (b2 =? 160)).
Definition ws3 (b1 b2 b3 : Z) : bool :=
  ((b1 =? 225) && (b2 =? 154) && (b3 =? 128))
  || ((b1 =? 226) && (b2 =? 128) &&
      (between 128 138 b3 || (b3 =? 168) || (b3 =? 169) || (b3 =? 175)))
  || ((b1 =? 226) && (b2 =? 129) && (b3 =? 159))
  || ((b1 =? 227) && (b2 =? 128) && (b3 =? 128)).

Fixpoint trim_start (s : str) : str :=
  match s with
  | [] => []
  | b1 :: r1 =>
      if ws1 b1 then trim_start r1
      else match r1 with
           | b2 :: r2 =>
               if ws2 b1 b2 then trim_start r2
               else match r2 with
                    | b3 :: r3 => if ws3 b1 b2 b3 then trim_start r3 else s
                    | [] => s
                    end
           | [] => s
           end
  end.

Definition all_whitespace (s : str) : bool :=
  match trim_start s with [] => true | _ => false end.

Fixpoint trim_end (s : str) : str :=
  match s with
  | [] => []
  | b :: r => if all_whitespace s then [] else b :: trim_end r
  end.

Definition trim (s : str) : str := trim_end (trim_start s).

(** The words of [s] between whitespace; [word] is the word being read. *)
Definition flush_word (word : str) : list str :=
  match word with [] => [] | _ => [word] end.

Fixpoint split_whitespace_from (word s : str) : list str :=
  match s with
  | [] => flush_word word
  | b1 :: r1 =>
      if ws1 b1 then flush_word word ++ split_whitespace_from [] r1
      else match r1 with
           | b2 :: r2 =>
               if ws2 b1 b2 then flush_word word ++ split_whitespace_from [] r2
               else match r2 with
                    | b3 :: r3 =>
                        if ws3 b1 b2 b3 then flush_word word ++ split_whitespace_from [] r3
                        else split_whitespace_from (word ++ [b1]) r1
                    | [] => split_whitespace_from (word ++ [b1]) r1
                    end
           | [] => split_whitespace_from (word ++ [b1]) r1
           end
  end.

Definition split_whitespace (s : str) : list str := split_whitespace_from [] s.

Fixpoint split_ascii_whitespace_from (word s : str) : list str :=
  match s with
  | [] => flush_word word
  | b :: r =>
      if is_ascii_whitespace b then flush_word word ++ split_ascii_whitespace_from [] r
      else split_ascii_whitespace_from (word ++ [b]) r
  end.

Definition split_ascii_whitespace (s : str) : list str := split_ascii_whitespace_from [] s.

(** ** Searching and splitting *)

Fixpoint strip_prefix (p s : str) : option str :=
  match p, s with
  | [], _ => Some s
  | a :: p, b :: s => if a =? b then strip_prefix p s else None
  | _ :: _, [] => None
  end.

Definition starts_with (p s : str) : bool := is_some (strip_prefix p s).
Definition ends_with (p s : str) : bool := is_some (strip_prefix (rev p) (rev s)).

Fixpoint contains (p s : str) : bool :=
  starts_with p s || match s with [] => false | _ :: r => contains p r end.

Definition contains_byte (c : Z) (s : str) : bool := existsb (fun b => b =? c) s.

(** [split] on a one-byte separator: always at least one piece. *)
Fixpoint split_byte (c : Z) (s : str) : list str :=
  match s with
  | [] => [[]]
  | b :: r =>
      if b =? c then [] :: split_byte c r
      else match split_byte c r with
           | [] => [[b]]
           | p :: ps => (b :: p) :: ps
           end
  end.

(** [split] on a two-byte separator. *)
Fixpoint split_pair (c d : Z) (s : str) : list str :=
  match s with
  | [] => [[]]
  | b :: r =>
      let keep := match split_pair c d r with [] => [[b]] | p :: ps => (b :: p) :: ps end in
      match r with
      | b' :: r' => if (b =? c) && (b' =? d) then [] :: split_pair c d r' else keep
      | [] => keep
      end
  end.

Fixpoint split_once (c : Z) (s : str) : option (str * str) :=
  match s with
  | [] => None
  | b :: r =>
      if b =? c then Some ([], r)
      else match split_once c r with
           | Some (x, y) => Some (b :: x, y)
           | None => None
           end
  end.

Definition rsplit_once (c : Z) (s : str) : option (str * str) :=
  match split_once c (rev s) with
  | Some (x, y) => Some (rev y, rev x)
  | None => None
  end.

(** [str::lines]: pieces between line feeds, a final carriage return of each
    piece dropped, no piece after a final line feed. *)
Definition strip_cr (s : str) : str :=
  match rev s with 13 :: r => rev r | _ => s end.

Definition lines (s : str) : list str :=
  let pieces := split_byte 10 s in
  match rev pieces with
  | [] :: front => strip_cr <$> rev front
  | last :: front => (strip_cr <$> rev front) ++ [last]
  | [] => []
  end.

Definition join (sep : str) (ps : list str) : str :=
  match ps with
  | [] => []
  | p :: ps => p ++ concat ((fun q => sep ++ q) <$> ps)
  end.

(** ** UTF-8 *)

Definition cont (b : Z) : bool := between 128 191 b.

(** [std::str::from_utf8] accepts exactly these byte strings. *)
Fixpoint utf8_valid (s : str) : bool :=
  match s with
  | [] => true
  | b1 :: r1 =>
      if between 0 127 b1 then utf8_valid r1
      else match r1 with
      | b2 :: r2 =>
          if between 194 223 b1 && cont b2 then utf8_valid r2
          else match r2 with
          | b3 :: r3 =>
              if ((b1 =? 224) && between 160 191 b2 && cont b3)
                 || (between 225 236 b1 && cont b2 && cont b3)
                 || ((b1 =? 237) && between 128 159 b2 && cont b3)
                 || (between 238 239 b1 && cont b2 && cont b3)
              then utf8_valid r3
              else match r3 with
              | b4 :: r4 =>
                  if ((b1 =? 240) && between 144 191 b2 && cont b3 && cont b4)
                     || (between 241 243 b1 && cont b2 && cont b3 && cont b4)
                     || ((b1 =? 244) && between 128 143 b2 && cont b3 && cont b4)
                  then utf8_valid r4 else false
              | [] => false
              end
          | [] => false
          end
      | [] => false
      end
  end.

(** ** Integers *)

(** [char::to_digit]. *)
Definition to_digit (radix b : Z) : option Z :=
  let d := if is_ascii_digit b then Some (b - 48)
           else if between 97 122 b then Some (b - 87)
           else if between 65 90 b then Some (b - 55)
           else None in
  match d with
  | Some d => if d <? radix then Some d else None
  | None => None
  end.

Fixpoint digits_value (radix m acc : Z) (s : str) : option Z :=
  match s with
  | [] => Some acc
  | b :: r =>
      match to_digit radix b with
      | None => None
      | Some d => if acc * radix + d <=? m then digits_value radix m (acc * radix + d) r else None
      end
  end.

(** [uN::from_str_radix]; [str::parse::<uN>] is radix 10.  A leading plus sign
    is accepted when digits follow. *)
Definition from_str_radix (radix m : Z) (s : str) : option Z :=
  match s with
  | [] => None
  | 43 :: [] => None
  | 43 :: r => digits_value radix m 0 r
  | _ => digits_value radix m 0 s
  end.

Definition parse_u8 (s : str) : option Z := from_str_radix 10 u8_max s.
Definition parse_u16 (s : str) : option Z := from_str_radix 10 u16_max s.
Definition parse_u32 (s : str) : option Z := from_str_radix 10 u32_max s.
Definition parse_u64 (s : str) : option Z := from_str_radix 10 u64_max s.

(** Decimal formatting of an unsigned integer ([{}]); 20 digits hold a u64. *)
Fixpoint decimal_digits (fuel : nat) (n : Z) (acc : str) : str :=
  match fuel with
  | O => acc
  | S fuel =>
      let acc' := (48 + n mod 10) :: acc in
      if n / 10 =? 0 then acc' else decimal_digits fuel (n / 10) acc'
  end.

Definition to_decimal (n : Z) : str := decimal_digits 20 n [].

(** ** Address parsers *)

Definition read_given_char (c : Z) (s : str) : option str :=
  match s with b :: r => if b =? c then Some r else None | [] => None end.

(** The digits at the front: their value, their number, what follows. *)
Fixpoint read_digits (radix acc : Z) (count : nat) (s : str) : Z * nat * str :=
  match s with
  | b :: r =>
      match to_digit radix b with
      | Some d => read_digits radix (acc * radix + d) (S count) r
      | None => (acc, count, s)
      end
  | [] => (acc, count, [])
  end.

(** [Parser::read_number] with a digit limit. *)
Definition read_number (radix m : Z) (max_digits : nat) (allow_zero_prefix : bool) (s : str)
    : option (Z * str) :=
  let '(v, count, r) := read_digits radix 0 0 s in
  let has_leading_zero := match s with 48 :: _ => true | _ => false end in
  if (max_digits <? count)%nat then None
  else if (count =? 0)%nat then None
  else if negb allow_zero_prefix && has_leading_zero && (1 <? count)%nat then None
  else if v <=? m then Some (v, r) else None.

Definition read_separator {A} (sep : Z) (index : nat) (inner : str -> option (A * str)) (s : str)
    : option (A * str) :=
  match index with
  | O => inner s
  | S _ => match read_given_char sep s with Some r => inner r | None => None end
  end.

Fixpoint read_octets (n index : nat) (acc : Z) (s : str) : option (Z * str) :=
  match n with
  | O => Some (acc, s)
  | S n =>
      match read_separator 46 index (read_number 10 u8_max 3 false) s with
      | Some (o, r) => read_octets n (S index) (acc * 256 + o) r
      | None => None
      end
  end.

Definition read_ipv4_addr (s : str) : option (Ipv4Addr * str) := read_octets 4 0 0 s.

(** [read_groups]: at most [remaining] more groups, [index] already read (most
    recent last); the flag tells that an embedded IPv4 address ended it. *)
Fixpoint read_groups (remaining index : nat) (groups : list Z) (s : str) : list Z * bool * str :=
  match remaining with
  | O => (groups, false, s)
  | S remaining' =>
      let embedded :=
        if (1 <? remaining)%nat then read_separator 58 index read_ipv4_addr s else None in
      match embedded with
      | Some (v4, r) => (groups ++ [Z.shiftr v4 16; Z.land v4 65535], true, r)
      | None =>
          match read_separator 58 index (read_number 16 u16_max 4 true) s with
          | Some (g, r) => read_groups remaining' (S index) (groups ++ [g]) r
          | None => (groups, false, s)
          end
      end
  end.

Definition of_groups (gs : list Z) : Ipv6Addr := fold_left (fun acc g => acc * 65536 + g) gs 0.

Definition read_ipv6_addr (s : str) : option (Ipv6Addr * str) :=
  let '(head, head_ipv4, r) := read_groups 8 0 [] s in
  if (length head =? 8)%nat then Some (of_groups head, r)
  else if head_ipv4 then None
  else match read_given_char 58 r with
       | None => None
       | Some r1 =>
           match read_given_char 58 r1 with
           | None => None
           | Some r2 =>
               let '(tail, _, r3) := read_groups (8 - (length head + 1)) 0 [] r2 in
               Some (of_groups (head ++ replicate (8 - length head - length tail) 0 ++ tail), r3)
           end
       end.

(** The whole input must be consumed. *)
Definition parse_with {A} (p : str -> option (A * str)) (s : str) : option A :=
  match p s with Some (a, []) => Some a | _ => None end.

Definition parse_ipv4 (s : str) : option Ipv4Addr :=
  if (15 <? length s)%nat then None else parse_with read_ipv4_addr s.

Definition parse_ipv6 (s : str) : option Ipv6Addr := parse_with read_ipv6_addr s.

Definition read_ip_addr (s : str) : option (IpAddr * str) :=
  match read_ipv4_addr s with
  | Some (a, r) => Some (IpV4 a, r)
  | None => match read_ipv6_addr s with Some (a, r) => Some (IpV6 a, r) | None => None end
  end.

Definition parse_ip (s : str) : option IpAddr := parse_with read_ip_addr s.

(** ** Address formatting *)

Definition ipv4_octet (a : Ipv4Addr) (n : Z) : Z := Z.land (Z.shiftr a n) 255.

Definition ipv4_display (a : Ipv4Addr) : str :=
  to_decimal (ipv4_octet a 24) ++ 46 :: to_decimal (ipv4_octet a 16) ++ 46 ::
  to_decimal (ipv4_octet a 8) ++ 46 :: to_decimal (ipv4_octet a 0).

(** [{:x}] of a group; four digits hold a u16. *)
Fixpoint hex_digits (fuel : nat) (n : Z) (acc : str) : str :=
  match fuel with
  | O => acc
  | S fuel =>
      let d := n mod 16 in
      let acc' := (if d <? 10 then 48 + d else 87 + d) :: acc in
      if n / 16 =? 0 then acc' else hex_digits fuel (n / 16) acc'
  end.

Definition ipv6_segments (a : Ipv6Addr) : list Z :=
  (fun i => Z.land (Z.shiftr a (16 * (7 - Z.of_nat i))) 65535) <$> seq 0 8.

(** The first longest run of zeros: its start and its length. *)
Fixpoint longest_zeros (i : nat) (gs : list Z) (longest current : nat * nat) : nat * nat :=
  match gs with
  | [] => longest
  | g :: gs =>
      if g =? 0 then
        let current := (if (current.2 =? 0)%nat then i else current.1, S current.2) in
        longest_zeros (S i) gs (if (longest.2 <? current.2)%nat then current else longest) current
      else longest_zeros (S i) gs longest (0%nat, 0%nat)
  end.

Definition join_groups (gs : list Z) : str :=
  match gs with
  | [] => []
  | g :: gs => hex_digits 4 g [] ++ concat ((fun g => 58 :: hex_digits 4 g []) <$> gs)
  end.

Definition ipv6_display (a : Ipv6Addr) : str :=
  let gs := ipv6_segments a in
  if Z.shiftr a 32 =? 65535 then lit "::ffff:" ++ ipv4_display (Z.land a u32_max)
  else
    let '(start, len) := longest_zeros 0 gs (0%nat, 0%nat) (0%nat, 0%nat) in
    if (1 <? len)%nat then join_groups (take start gs) ++ [58; 58] ++ join_groups (drop (start + len) gs)
    else join_groups gs.

Definition ip_display (a : IpAddr) : str :=
  match a with IpV4 a => ipv4_display a | IpV6 a => ipv6_display a end.

(** ** Lemmas *)

Lemma between_true lo hi b : between lo hi b = true <-> lo <= b <= hi.
Proof. unfold between. rewrite andb_true_iff, !Z.leb_le. done. Qed.

Lemma strip_prefix_Some p s r : strip_prefix p s = Some r <-> s = p ++ r.
Proof.
  revert s. induction p as [|a p IH]; intros [|b s]; simpl; try naive_solver.
  destruct (Z.eqb_spec a b) as [->|Hne]; [|naive_solver]. rewrite IH. naive_solver.
Qed.

Lemma strip_prefix_app p s : strip_prefix p (p ++ s) = Some s.
Proof. by apply strip_prefix_Some. Qed.

Lemma starts_with_true p s : starts_with p s = true <-> exists r, s = p ++ r.
Proof.
  unfold starts_with. destruct (strip_prefix p s) as [r|] eqn:E; simpl.
  - apply strip_prefix_Some in E. naive_solver.
  - split; [done|]. intros [r Hr]. apply strip_prefix_Some in Hr. congruence.
Qed.

Lemma ends_with_true p s : ends_with p s = true <-> exists r, s = r ++ p.
Proof.
  unfold ends_with. change (is_some (strip_prefix (rev p) (rev s))) with (starts_with (rev p) (rev s)).
  rewrite starts_with_true. split; intros [r Hr].
  - exists (rev r). apply (f_equal (@rev Z)) in Hr. by rewrite rev_involutive, rev_app_distr, rev_involutive in Hr.
  - exists (rev r). by rewrite Hr, rev_app_distr.
Qed.

Lemma contains_app p a b : contains p (a ++ p ++ b) = true.
Proof.
  induction a as [|x a IH]; simpl.
  - assert (starts_with p (p ++ b) = true) as H by (apply starts_with_true; eauto).
    destruct (p ++ b) eqn:E; cbn [contains]; rewrite H; done.
  - rewrite IH. apply orb_true_r.
Qed.

Lemma contains_byte_false c s : contains_byte c s = false <-> Forall (fun b => b <> c) s.
Proof. unfold contains_byte. rewrite existsb_false. setoid_rewrite Z.eqb_neq. done. Qed.

Lemma split_once_Some c s x y :
  split_once c s = Some (x, y) <-> s = x ++ c :: y /\ contains_byte c x = false.
Proof.
  revert x y. induction s as [|b s IH]; intros x y; simpl.
  - split; [done|]. intros [H _]. by destruct x.
  - destruct (Z.eqb_spec b c) as [->|Hne].
    + split; [intros [= <- <-]; done|]. intros [H Hc]. destruct x as [|a x]; simplify_eq/=; [done|].
      by rewrite Z.eqb_refl in Hc.
    + destruct (split_once c s) as [[x' y']|] eqn:E.
      * split; [intros [= <- <-]|intros [H Hc]].
        -- destruct (proj1 (IH x' y') eq_refl) as [-> H]. simpl. rewrite (proj2 (Z.eqb_neq b c)) by done. done.
        -- destruct x as [|a x]; simplify_eq/=. apply orb_false_iff in Hc as [_ Hc].
           assert (Some (x', y') = Some (x, y)) as [= -> ->] by (by apply IH). done.
      * split; [done|]. intros [H Hc]. destruct x as [|a x]; simplify_eq/=.
        apply orb_false_iff in Hc as [_ Hc]. assert (None = Some (x, y)) by (by apply IH). done.
Qed.

Lemma split_once_None c s : split_once c s = None <-> contains_byte c s = false.
Proof.
  induction s as [|b s IH]; simpl; [done|]. destruct (Z.eqb_spec b c); simpl; [done|].
  rewrite <- IH. destruct (split_once c s) as [[]|]; done.
Qed.

Lemma contains_byte_rev c s : contains_byte c (rev s) = contains_byte c s.
Proof.
  apply eq_bool_prop_intro. unfold contains_byte. split; intros H%Is_true_true%existsb_exists; apply Is_true_true, existsb_exists.
  all: destruct H as (x & Hx & He); exists x; split; [|done]; by apply in_rev in Hx || by apply in_rev.
Qed.

Lemma rsplit_once_Some c s x y :
  rsplit_once c s = Some (x, y) <-> s = x ++ c :: y /\ contains_byte c y = false.
Proof.
  unfold rsplit_once. split.
  - destruct (split_once c (rev s)) as [[a b]|] eqn:E; intros [= <- <-].
    apply split_once_Some in E as [E Hc]. rewrite contains_byte_rev. split; [|done].
    apply (f_equal (@rev Z)) in E. rewrite rev_involutive, rev_app_distr in E. simpl in E.
    by rewrite <- app_assoc in E.
  - intros [-> Hc]. rewrite (proj2 (split_once_Some c (rev (x ++ c :: y)) (rev y) (rev x))).
    + by rewrite !rev_involutive.
    + split; [rewrite rev_app_distr; simpl; by rewrite <- app_assoc|by rewrite contains_byte_rev].
Qed.

(** *** Decimal round trip *)

Lemma to_digit_10 d : 0 <= d <= 9 -> to_digit 10 (48 + d) = Some d.
Proof.
  intros Hd. unfold to_digit, is_ascii_digit. rewrite (proj2 (between_true _ _ _)) by lia.
  replace (48 + d - 48) with d by lia. rewrite (proj2 (Z.ltb_lt d 10)) by lia. done.
Qed.

(** Reading the digits of [n] in front of [acc] first builds [n]. *)
Lemma to_digit_nonneg radix b d : to_digit radix b = Some d -> 0 <= d.
Proof.
  unfold to_digit, is_ascii_digit, between.
  intros H. repeat (rust_case_in H; simplify_eq; rust_bool); lia.
Qed.

Lemma digits_value_range radix m acc s v :
  0 <= radix -> 0 <= acc <= m -> digits_value radix m acc s = Some v -> 0 <= v <= m.
Proof.
  intros Hr. revert acc. induction s as [|b s IH]; intros acc Ha H; simpl in H; [by simplify_eq|].
  destruct (to_digit radix b) as [d|] eqn:Hd; [|done]. apply to_digit_nonneg in Hd.
  destruct (Z.leb_spec (acc * radix + d) m); [|done]. eapply IH; [|done]. nia.
Qed.

Lemma from_str_radix_range radix m s v :
  0 <= radix -> 0 <= m -> from_str_radix radix m s = Some v -> in_width m v.
Proof.
  intros Hr Hm H. unfold from_str_radix in H. unfold in_width.
  repeat case_match; simplify_eq; (eapply digits_value_range; [exact Hr| |eassumption]); lia.
Qed.

Lemma decimal_digits_value fuel n acc m :
  0 <= n < 10 ^ Z.of_nat fuel -> (0 < fuel)%nat -> n <= m ->
  digits_value 10 m 0 (decimal_digits fuel n acc) = digits_value 10 m n acc.
Proof.
  revert n acc. induction fuel as [|fuel IH]; intros n acc Hn Hf Hm; [lia|].
  cbn [decimal_digits].
  assert (forall k rest, 0 <= k -> k * 10 + n mod 10 = n ->
    digits_value 10 m k ((48 + n mod 10) :: rest) = digits_value 10 m n rest) as Hd.
  { intros k rest Hk He. cbn [digits_value].
    rewrite to_digit_10 by (pose proof (Z.mod_pos_bound n 10); lia). rewrite He.
    by rewrite (proj2 (Z.leb_le _ _)) by lia. }
  pose proof (Z.div_mod n 10 ltac:(lia)) as Hdm. pose proof (Z.div_pos n 10 ltac:(lia) ltac:(lia)).
  destruct (Z.eqb_spec (n / 10) 0) as [E|E].
  - apply Hd; lia.
  - rewrite IH.
    + apply Hd; lia.
    + rewrite Nat2Z.inj_succ, Z.pow_succ_r in Hn by lia. split; [lia|]. apply Z.div_lt_upper_bound; lia.
    + destruct fuel; [|lia]. change (10 ^ Z.of_nat 1) with 10 in Hn. rewrite Z.div_small in E; lia.
    + pose proof (Z.mod_pos_bound n 10 ltac:(lia)). lia.
Qed.

(** The digits of a number: at least one, none of them a sign. *)
Lemma decimal_digits_shape fuel n acc :
  (0 < fuel)%nat -> exists b r, decimal_digits fuel n acc = b :: r /\ 48 <= b <= 57.
Proof.
  revert n acc. induction fuel as [|fuel IH]; intros n acc Hf; [lia|]. cbn [decimal_digits].
  pose proof (Z.mod_pos_bound n 10). destruct (n / 10 =? 0); [eexists _, _; split; [done|lia]|].
  destruct fuel; [eexists _, _; split; [done|lia]|]. apply IH. lia.
Qed.

Lemma to_decimal_digits n : Forall (fun b => is_ascii_digit b = true) (to_decimal n).
Proof.
  unfold to_decimal. assert (Forall (fun b => is_ascii_digit b = true) []) as H by constructor.
  revert H. generalize (@nil Z). generalize n. generalize 20%nat. intros f. induction f as [|f IH]; intros k acc H; cbn [decimal_digits]; [done|].
  assert (Forall (fun b => is_ascii_digit b = true) ((48 + k mod 10) :: acc)).
  { constructor; [|done]. apply between_true. pose proof (Z.mod_pos_bound k 10). lia. }
  destruct (k / 10 =? 0); auto.
Qed.

(** Formatting a number and parsing it back is the identity at any width that
    holds it. *)
Lemma parse_to_decimal m n : 0 <= n <= m -> m <= u64_max -> from_str_radix 10 m (to_decimal n) = Some n.
Proof.
  intros Hn Hm. unfold to_decimal. destruct (decimal_digits_shape 20 n [] ltac:(lia)) as (b & r & E & Hb).
  unfold from_str_radix. rewrite E.
  replace (match b with 43 => _ | _ => digits_value 10 m 0 (b :: r) end) with (digits_value 10 m 0 (b :: r)).
  - rewrite <- E. rewrite decimal_digits_value; [done| |lia|lia].
    change (10 ^ Z.of_nat 20) with 100000000000000000000. unfold u64_max in *. lia.
  - destruct b as [|p|p]; try done; repeat (destruct p as [p|p|]; try done); lia.
Qed.

(** *** Words of printable ASCII *)

Definition printable (s : str) : Prop := Forall (fun b => is_ascii_graphic b = true) s.

Lemma printable_dec_intro s : forallb is_ascii_graphic s = true -> printable s.
Proof. apply forallb_Forall. Qed.

Lemma digits_printable s : Forall (fun b => is_ascii_digit b = true) s -> printable s.
Proof.
  apply Forall_impl. intros b Hb%between_true. apply between_true. lia.
Qed.

Lemma graphic_ws1 b : is_ascii_graphic b = true -> ws1 b = false.
Proof. intros Hb%between_true. unfold ws1, between. destruct (Z.leb_spec 9 b), (Z.leb_spec b 13), (Z.eqb_spec b 32); simpl; lia. Qed.

Lemma graphic_not_lead b : is_ascii_graphic b = true -> 33 <= b <= 126.
Proof. apply between_true. Qed.

Lemma graphic_ws2 b b2 : is_ascii_graphic b = true -> ws2 b b2 = false.
Proof. intros Hb%graphic_not_lead. unfold ws2. destruct (Z.eqb_spec b 194); [lia|done]. Qed.

Lemma graphic_ws3 b b2 b3 : is_ascii_graphic b = true -> ws3 b b2 b3 = false.
Proof.
  intros Hb%graphic_not_lead. unfold ws3.
  by rewrite (proj2 (Z.eqb_neq b 225)), (proj2 (Z.eqb_neq b 226)), (proj2 (Z.eqb_neq b 227)) by lia.
Qed.

Lemma split_whitespace_word w word rest :
  printable w -> split_whitespace_from word (w ++ rest) = split_whitespace_from (word ++ w) rest.
Proof.
  intros Hw. revert word. induction Hw as [|b w Hb Hw IH]; intros word; simpl; [by rewrite app_nil_r|].
  rewrite graphic_ws1 by done. rewrite IH, <- app_assoc.
  destruct (w ++ rest) as [|b2 [|b3 r]] eqn:E; rewrite ?graphic_ws2, ?graphic_ws3 by done; done.
Qed.

Lemma trim_start_graphic b s : is_ascii_graphic b = true -> trim_start (b :: s) = b :: s.
Proof.
  intros Hb. simpl. rewrite graphic_ws1 by done. destruct s as [|b2 [|b3 s]]; [done| |].
  - by rewrite graphic_ws2.
  - by rewrite graphic_ws2, graphic_ws3.
Qed.

Lemma trim_start_last s b : is_ascii_graphic b = true -> trim_start (s ++ [b]) <> [].
Proof.
  intros Hb. pose proof (graphic_not_lead _ Hb) as Hr.
  remember (length s) as n eqn:Hn. revert s Hn.
  induction (Nat.lt_wf_0 n) as [n _ IH]. intros s ->.
  destruct s as [|b1 s]; [simpl app; by rewrite trim_start_graphic|]. simpl.
  destruct (ws1 b1); [eapply IH; [|done]; simpl; lia|].
  destruct s as [|b2 s]; simpl.
  { assert (ws2 b1 b = false) as ->; [|done]. unfold ws2. rewrite (proj2 (Z.eqb_neq b 133)), (proj2 (Z.eqb_neq b 160)) by lia. apply andb_false_r. }
  destruct (ws2 b1 b2); [eapply IH; [|done]; simpl; lia|].
  destruct s as [|b3 s]; simpl.
  { assert (ws3 b1 b2 b = false) as ->; [|done].
    unfold ws3, between. rewrite (proj2 (Z.eqb_neq b 128)), (proj2 (Z.eqb_neq b 168)), (proj2 (Z.eqb_neq b 169)),
      (proj2 (Z.eqb_neq b 175)), (proj2 (Z.eqb_neq b 159)), (proj2 (Z.leb_gt 128 b)) by lia.
    simpl. by rewrite !andb_false_r. }
  destruct (ws3 b1 b2 b3); [eapply IH; [|done]; simpl; lia|]. done.
Qed.

(** A string that starts and ends with printable characters is its own trim. *)
Lemma trim_printable_ends a s b :
  is_ascii_graphic a = true -> is_ascii_graphic b = true -> trim (a :: s ++ [b]) = a :: s ++ [b].
Proof.
  intros Ha Hb. unfold trim. rewrite trim_start_graphic by done.
  change (a :: s ++ [b]) with ((a :: s) ++ [b]). generalize (a :: s) as l. intros l.
  induction l as [|x l IH]; cbn [app trim_end]; unfold all_whitespace.
  - by rewrite trim_start_graphic.
  - pose proof (trim_start_last (x :: l) b Hb) as Hne. simpl app in *.
    destruct (trim_start (x :: l ++ [b])) eqn:E; [done|]. by rewrite IH.
Qed.

Lemma split_whitespace_cons w rest :
  printable w -> w <> [] -> split_whitespace (w ++ 32 :: rest) = w :: split_whitespace rest.
Proof.
  intros Hw Hne. unfold split_whitespace. rewrite split_whitespace_word by done.
  destruct w; done.
Qed.

Lemma split_whitespace_last w : printable w -> w <> [] -> split_whitespace w = [w].
Proof.
  intros Hw Hne. unfold split_whitespace. rewrite <- (app_nil_r w) at 1.
  rewrite split_whitespace_word by done. destruct w; done.
Qed.

(** *** Lines separated by a two-byte separator *)

Lemma split_pair_nonempty c d s : split_pair c d s <> [].
Proof.
  destruct s as [|b s]; [done|]. simpl. destruct s as [|b' s'].
  - by destruct (split_pair c d []).
  - destruct (_ && _); [done|]. by destruct (split_pair c d (b' :: s')).
Qed.

Lemma split_pair_single c d s : contains_byte c s = false -> split_pair c d s = [s].
Proof.
  induction s as [|b s IH]; intros H; [done|]. simpl in H. apply orb_false_iff in H as [Hb Hs].
  specialize (IH Hs). cbn [split_pair]. rewrite IH, Hb. by destruct s.
Qed.

(** Splitting distributes over a separator. *)
Lemma split_pair_app c d r x :
  c <> d -> split_pair c d (r ++ c :: d :: x) = split_pair c d r ++ split_pair c d x.
Proof.
  intros Hcd. remember (length r) as n eqn:Hn. revert r Hn.
  induction (Nat.lt_wf_0 n) as [n _ IH]. intros r ->.
  destruct r as [|b [|b' r]].
  - cbn [app split_pair]. by rewrite !Z.eqb_refl.
  - pose proof (IH 0%nat ltac:(simpl; lia) [] eq_refl) as H0. cbn [app] in *.
    change (split_pair c d (b :: c :: d :: x)) with
      (if (b =? c) && (c =? d) then [] :: split_pair c d (d :: x)
       else match split_pair c d (c :: d :: x) with [] => [[b]] | p :: ps => (b :: p) :: ps end).
    rewrite (proj2 (Z.eqb_neq c d)) by done. rewrite andb_false_r, H0. done.
  - pose proof (IH (length (b' :: r)) ltac:(simpl; lia) (b' :: r) eq_refl) as H1.
    pose proof (IH (length r) ltac:(simpl; lia) r eq_refl) as H2. cbn [app] in *.
    change (split_pair c d (b :: b' :: r ++ c :: d :: x)) with
      (if (b =? c) && (b' =? d) then [] :: split_pair c d (r ++ c :: d :: x)
       else match split_pair c d (b' :: r ++ c :: d :: x) with [] => [[b]] | p :: ps => (b :: p) :: ps end).
    change (split_pair c d (b :: b' :: r)) with
      (if (b =? c) && (b' =? d) then [] :: split_pair c d r
       else match split_pair c d (b' :: r) with [] => [[b]] | p :: ps => (b :: p) :: ps end).
    destruct ((b =? c) && (b' =? d)); [by rewrite H2|]. rewrite H1.
    pose proof (split_pair_nonempty c d (b' :: r)). by destruct (split_pair c d (b' :: r)).
Qed.

Lemma split_pair_nil c d s : split_pair c d s = [[]] -> s = [].
Proof.
  destruct s as [|b s]; [done|]. intros H. exfalso. cbn [split_pair] in H.
  destruct s as [|b' s]; [by destruct (split_pair c d [])|].
  destruct (_ && _); [|by destruct (split_pair c d (b' :: s))].
  injection H as H. by apply split_pair_nonempty in H.
Qed.

(** *** ASCII *)

Lemma utf8_valid_ascii s : Forall (fun b => 0 <= b <= 127) s -> utf8_valid s = true.
Proof.
  induction 1 as [|b s Hb Hs IH]; [done|]. cbn [utf8_valid].
  by rewrite (proj2 (between_true 0 127 b)) by done.
Qed.

Lemma split_ascii_word w word rest :
  printable w -> split_ascii_whitespace_from word (w ++ rest) = split_ascii_whitespace_from (word ++ w) rest.
Proof.
  intros Hw. revert word. induction Hw as [|b w Hb Hw IH]; intros word; cbn [app split_ascii_whitespace_from];
    [by rewrite app_nil_r|].
  assert (is_ascii_whitespace b = false) as ->.
  { apply graphic_not_lead in Hb. unfold is_ascii_whitespace.
    by rewrite (proj2 (Z.eqb_neq b 9)), (proj2 (Z.eqb_neq b 10)), (proj2 (Z.eqb_neq b 12)),
      (proj2 (Z.eqb_neq b 13)), (proj2 (Z.eqb_neq b 32)) by lia. }
  by rewrite IH, <- app_assoc.
Qed.

Lemma split_ascii_cons w rest :
  printable w -> w <> [] ->
  split_ascii_whitespace (w ++ 32 :: rest) = w :: split_ascii_whitespace rest.
Proof. intros Hw Hne. unfold split_ascii_whitespace. rewrite split_ascii_word by done. by destruct w. Qed.

Lemma split_ascii_last w : printable w -> w <> [] -> split_ascii_whitespace w = [w].
Proof.
  intros Hw Hne. unfold split_ascii_whitespace. rewrite <- (app_nil_r w) at 1. rewrite split_ascii_word by done.
  by destruct w.
Qed.

Lemma printable_no c s : printable s -> c <= 32 -> contains_byte c s = false.
Proof.
  intros H Hc. apply contains_byte_false. eapply Forall_impl; [|exact H].
  intros b Hb%graphic_not_lead. lia.
Qed.

Lemma contains_byte_app c a b : contains_byte c (a ++ b) = contains_byte c a || contains_byte c b.
Proof. apply existsb_app. Qed.

(** ** Addresses through their text *)

Lemma read_digits_app ds acc count rest :
  Forall (fun b => between 48 57 b = true) ds ->
  match rest with b :: _ => to_digit 10 b = None | [] => True end ->
  read_digits 10 acc count (ds ++ rest) =
  (fold_left (fun acc b => acc * 10 + (b - 48)) ds acc, (count + length ds)%nat, rest).
Proof.
  intros Hds Hrest. revert acc count. induction Hds as [|b ds Hb _ IH]; intros acc count; cbn [app read_digits fold_left length].
  - rewrite Nat.add_0_r. destruct rest as [|b r]; [done|]. cbn [read_digits]. by rewrite Hrest.
  - assert (to_digit 10 b = Some (b - 48)) as ->.
    { unfold to_digit. unfold is_ascii_digit. rewrite Hb. apply between_true in Hb. by rewrite (proj2 (Z.ltb_lt _ _)) by lia. }
    rewrite IH. f_equal. f_equal. lia.
Qed.

(** The decimal text of a byte: its digits, their value, no leading zero. *)
Definition octet_text_ok (o : Z) : bool :=
  let ds := to_decimal o in
  forallb (between 48 57) ds && (fold_left (fun acc b => acc * 10 + (b - 48)) ds 0 =? o) &&
  (length ds <=? 3)%nat && negb (length ds =? 0)%nat &&
  negb ((match ds with 48 :: _ => true | _ => false end) && (1 <? length ds)%nat).

Lemma octet_texts_ok o : 0 <= o <= 255 -> octet_text_ok o = true.
Proof.
  intros Ho. assert (forallb octet_text_ok (Z.of_nat <$> seq 0 256) = true) as H by (vm_compute; reflexivity).
  rewrite forallb_forall in H. apply H. apply list_elem_of_In, list_elem_of_fmap. exists (Z.to_nat o).
  split; [lia|]. apply elem_of_seq. lia.
Qed.

Lemma read_octet o rest :
  0 <= o <= 255 -> match rest with b :: _ => to_digit 10 b = None | [] => True end ->
  read_number 10 u8_max 3 false (to_decimal o ++ rest) = Some (o, rest).
Proof.
  intros Ho Hr. pose proof (octet_texts_ok o Ho) as Hok. unfold octet_text_ok in Hok.
  rewrite !andb_true_iff, Nat.leb_le, Z.eqb_eq, !negb_true_iff in Hok. destruct Hok as ((((Hd & Hv) & Hl) & Hn) & Hz).
  unfold read_number. rewrite read_digits_app; [|by rewrite Forall_forall; rewrite forallb_forall in Hd|done].
  rewrite Nat.add_0_l, Hv. rewrite (proj2 (Nat.ltb_ge _ _)) by done. rewrite Hn.
  assert (match to_decimal o ++ rest with 48 :: _ => true | _ => false end =
          match to_decimal o with 48 :: _ => true | _ => false end) as -> by (by destruct (to_decimal o)).
  cbn [negb andb]. rewrite Hz. rewrite (proj2 (Z.leb_le _ _)) by (unfold u8_max; lia). done.
Qed.

Lemma ipv4_octet_range a n : 0 <= ipv4_octet a n <= 255.
Proof.
  unfold ipv4_octet. change 255 with (Z.ones 8) at 1 2. rewrite Z.land_ones by lia.
  pose proof (Z.mod_pos_bound (Z.shiftr a n) (2 ^ 8)). lia.
Qed.

Lemma ipv4_of_octets a : 0 <= a <= u32_max ->
  ((((0 * 256 + ipv4_octet a 24) * 256 + ipv4_octet a 16) * 256 + ipv4_octet a 8) * 256 + ipv4_octet a 0) = a.
Proof.
  intros Ha. unfold ipv4_octet, u32_max in *. change 255 with (Z.ones 8).
  rewrite !Z.land_ones, !Z.shiftr_div_pow2 by lia. change (2 ^ 8) with 256.
  change (2 ^ 24) with (256 * 256 * 256). change (2 ^ 16) with (256 * 256). change (2 ^ 0) with 1.
  rewrite Z.div_1_r, <- !Z.div_div by lia.
  pose proof (Z.div_mod a 256). pose proof (Z.div_mod (a / 256) 256). pose proof (Z.div_mod (a / 256 / 256) 256).
  rewrite (Z.mod_small (a / 256 / 256 / 256)); [lia|]. split; [|]; repeat (apply Z.div_pos || apply Z.div_lt_upper_bound); lia.
Qed.

(** [Display] and [FromStr] of an IPv4 address. *)
Lemma parse_ip_display a : 0 <= a <= u32_max -> parse_ip (ipv4_display a) = Some (IpV4 a).
Proof.
  intros Ha. unfold parse_ip, parse_with, read_ip_addr, read_ipv4_addr, ipv4_display.
  cbn [read_octets read_separator]. rewrite read_octet by (apply ipv4_octet_range || done).
  do 2 (cbn [read_octets read_separator read_given_char]; rewrite Z.eqb_refl, read_octet by (apply ipv4_octet_range || done)).
  cbn [read_octets read_separator read_given_char]. rewrite Z.eqb_refl.
  rewrite <- (app_nil_r (to_decimal (ipv4_octet a 0))). rewrite read_octet by (apply ipv4_octet_range || done).
  by rewrite ipv4_of_octets.
Qed.
