(* ===== verification/IpText.v ===== *)
(** * Addresses through their text

    [Display] and [FromStr] of the standard library's addresses, as [RustStr] has
    them, are inverse to each other: for IPv4 this is [parse_ip_display] of
    [RustStr], here it is shown for IPv6, with its compressed run of zeros and its
    embedded IPv4 form, and so for every address. *)

From Stdlib Require Import String.
From S2P Require Import Prelude Net RustStr.

(** ** Groups *)

Definition hex_value (acc b : Z) : Z := acc * 16 + default 0 (to_digit 16 b).

Lemma read_digits_hex ds acc count rest :
  Forall (fun b => is_some (to_digit 16 b) = true) ds ->
  match rest with b :: _ => to_digit 16 b = None | [] => True end ->
  read_digits 16 acc count (ds ++ rest) = (fold_left hex_value ds acc, (count + length ds)%nat, rest).
Proof.
  intros Hds Hrest. revert acc count. induction Hds as [|b ds Hb _ IH]; intros acc count; cbn [app read_digits fold_left length].
  - rewrite Nat.add_0_r. destruct rest as [|b r]; [done|]. cbn [read_digits]. by rewrite Hrest.
  - unfold hex_value at 2. destruct (to_digit 16 b) as [d|]; [|done]. rewrite IH. f_equal. f_equal. lia.
Qed.

(** The digit written for a remainder. *)
Definition hex_digit (d : Z) : Z := if d <? 10 then 48 + d else 87 + d.

Lemma hex_digit_ok d : 0 <= d < 16 -> to_digit 16 (hex_digit d) = Some d /\ hex_digit d <> 46.
Proof.
  intros Hd. assert (forallb (fun d => bool_decide (to_digit 16 (hex_digit d) = Some d /\ hex_digit d <> 46))
    (Z.of_nat <$> seq 0 16) = true) as H by (vm_compute; reflexivity).
  rewrite forallb_forall in H. specialize (H d). rewrite bool_decide_eq_true in H. apply H.
  apply list_elem_of_In, list_elem_of_fmap. exists (Z.to_nat d). split; [lia|]. apply elem_of_seq. lia.
Qed.

(** The hexadecimal text of a group: its digits, their value, no dot among them. *)
Record hex_text (n : Z) (ds : str) : Prop := {
  ht_digits : Forall (fun b => is_some (to_digit 16 b) = true) ds;
  ht_value acc : fold_left hex_value ds acc = acc * 16 ^ Z.of_nat (length ds) + n;
  ht_nonempty : ds <> [];
  ht_dotless : contains_byte 46 ds = false }.

Lemma hex_digits_text fuel n acc : 0 <= n < 16 ^ (Z.of_nat fuel + 1) ->
  exists ds, hex_digits (S fuel) n acc = ds ++ acc /\ hex_text n ds /\ (length ds <= S fuel)%nat.
Proof.
  revert n acc. induction fuel as [|fuel IH]; intros n acc Hn.
  - change (16 ^ (Z.of_nat 0 + 1)) with 16 in Hn. exists [hex_digit (n mod 16)]. destruct (hex_digit_ok (n mod 16)) as [H1 H2].
    { apply Z.mod_pos_bound. lia. }
    split; [|split; [|cbn; lia]].
    + cbn [hex_digits]. by destruct (_ =? 0).
    + split; [by repeat constructor; rewrite H1| |done|cbn; by rewrite (proj2 (Z.eqb_neq _ _)) by done].
      intros a. cbn [fold_left length]. unfold hex_value. rewrite H1. cbn [default]. unfold id. rewrite Z.mod_small by lia. lia.
  - assert (0 <= n / 16 < 16 ^ (Z.of_nat fuel + 1)) as Hq.
    { split; [apply Z.div_pos; lia|]. apply Z.div_lt_upper_bound; [lia|]. rewrite <- Z.pow_succ_r by lia.
      replace (Z.succ (Z.of_nat fuel + 1)) with (Z.of_nat (S fuel) + 1) by lia. apply Hn. }
    destruct (hex_digit_ok (n mod 16)) as [H1 H2]; [apply Z.mod_pos_bound; lia|].
    change (hex_digits (S (S fuel)) n acc) with
      (if n / 16 =? 0 then hex_digit (n mod 16) :: acc else hex_digits (S fuel) (n / 16) (hex_digit (n mod 16) :: acc)).
    pose proof (Z.div_mod n 16) as Hdm. destruct (Z.eqb_spec (n / 16) 0) as [E|E].
    + exists [hex_digit (n mod 16)]. split; [done|]. split; [|cbn; lia].
      split; [by repeat constructor; rewrite H1| |done|cbn; by rewrite (proj2 (Z.eqb_neq _ _)) by done].
      intros a. cbn [fold_left length]. unfold hex_value. rewrite H1. cbn [default]. unfold id. lia.
    + destruct (IH (n / 16) (hex_digit (n mod 16) :: acc) Hq) as (ds & -> & [T1 T2 T3 T4] & Hl).
      exists (ds ++ [hex_digit (n mod 16)]). rewrite <- app_assoc. split; [done|]. rewrite length_app. split; [|cbn; lia]. split.
      * apply Forall_app. split; [done|]. by repeat constructor; rewrite H1.
      * intros a. rewrite fold_left_app, T2. cbn [fold_left]. unfold hex_value. rewrite H1. cbn [default]. unfold id.
        rewrite length_app. cbn [length]. rewrite Nat2Z.inj_add, Z.pow_add_r by lia. change (16 ^ Z.of_nat 1) with 16. lia.
      * by destruct ds.
      * rewrite contains_byte_app, T4. cbn. by rewrite (proj2 (Z.eqb_neq _ _)) by done.
Qed.

Lemma group_text g : 0 <= g <= 65535 -> hex_text g (hex_digits 4 g []) /\ (length (hex_digits 4 g []) <= 4)%nat.
Proof.
  intros Hg. destruct (hex_digits_text 3 g []) as (ds & -> & H & Hl); [change (16 ^ (Z.of_nat 3 + 1)) with 65536; lia|].
  by rewrite app_nil_r.
Qed.

Lemma read_group g rest :
  0 <= g <= 65535 -> match rest with b :: _ => to_digit 16 b = None | [] => True end ->
  read_number 16 u16_max 4 true (hex_digits 4 g [] ++ rest) = Some (g, rest).
Proof.
  intros Hg Hr. destruct (group_text g Hg) as [[H1 H2 H4 _] H3]. unfold read_number. rewrite read_digits_hex by done.
  rewrite Nat.add_0_l, H2, Z.mul_0_l, Z.add_0_l. rewrite (proj2 (Nat.ltb_ge _ _)) by done.
  destruct (length (hex_digits 4 g []) =? 0)%nat eqn:E; [apply Nat.eqb_eq, nil_length_inv in E; done|]. cbn [negb andb].
  rewrite (proj2 (Z.leb_le _ _)) by (unfold u16_max; lia). done.
Qed.

(** ** A text without a dot holds no IPv4 address *)

Lemma read_digits_suffix radix acc count s : exists p, s = p ++ (read_digits radix acc count s).2.
Proof.
  revert acc count. induction s as [|b s IH]; intros acc count; cbn [read_digits]; [by exists []|].
  destruct (to_digit radix b) as [d|]; [|by exists []]. destruct (IH (acc * radix + d) (S count)) as [p Hp].
  exists (b :: p). cbn [app]. by f_equal.
Qed.

Lemma read_number_suffix radix m n z s v r : read_number radix m n z s = Some (v, r) -> exists p, s = p ++ r.
Proof.
  unfold read_number. destruct (read_digits_suffix radix 0 0 s) as [p Hp]. destruct (read_digits radix 0 0 s) as [[v' c] r'].
  destruct (_ <? _)%nat; [done|]. destruct (_ =? _)%nat; [done|]. destruct (_ && _); [done|]. destruct (_ <=? _); [|done].
  intros [= <- <-]. by exists p.
Qed.

Lemma read_ipv4_dotless s : contains_byte 46 s = false -> read_ipv4_addr s = None.
Proof.
  intros Hs. unfold read_ipv4_addr. cbn [read_octets read_separator].
  destruct (read_number 10 u8_max 3 false s) as [[o r]|] eqn:E; [|done].
  apply read_number_suffix in E as [p ->]. rewrite contains_byte_app, orb_false_iff in Hs. destruct Hs as [_ Hr].
  destruct r as [|b r]; cbn; [done|]. destruct (Z.eqb_spec b 46) as [->|]; [|done]. done.
Qed.

(** ** Runs of groups *)

Definition is_group (g : Z) : Prop := 0 <= g <= 65535.

(** The text of groups that follow [index] others. *)
Definition groups_text (index : nat) (gs : list Z) : str :=
  match index with O => join_groups gs | S _ => concat ((fun g => 58 :: hex_digits 4 g []) <$> gs) end.

Lemma groups_text_cons index g gs :
  groups_text index (g :: gs) = match index with O => [] | S _ => [58] end ++ hex_digits 4 g [] ++ groups_text (S index) gs.
Proof. by destruct index. Qed.

Lemma groups_text_dotless index gs : Forall is_group gs -> contains_byte 46 (groups_text index gs) = false.
Proof.
  intros Hgs. revert index. induction Hgs as [|g gs Hg _ IH]; intros index; [by destruct index|].
  rewrite groups_text_cons, !contains_byte_app, IH. destruct (group_text g Hg) as [[_ _ _ ->] _]. by destruct index.
Qed.

(** Nothing, or two colons: no further group. *)
Definition stops (rest : str) : Prop := rest = [] \/ exists r, rest = 58 :: 58 :: r.

Lemma read_separator_stops {A} index (inner : str -> option (A * str)) rest :
  stops rest -> inner [] = None -> (forall r, inner (58 :: r) = None) -> read_separator 58 index inner rest = None.
Proof. intros [->|[r ->]] H0 H1; destruct index; cbn; done || apply H1. Qed.

Lemma read_ipv4_colon r : read_ipv4_addr (58 :: r) = None.
Proof. done. Qed.

Lemma read_ipv4_separated index s : contains_byte 46 s = false -> read_separator 58 index read_ipv4_addr s = None.
Proof.
  intros Hs. destruct index; cbn [read_separator]; [by apply read_ipv4_dotless|]. destruct s as [|b s]; [done|].
  cbn [read_given_char]. destruct (b =? 58); [|done]. apply read_ipv4_dotless.
  change (b :: s) with ([b] ++ s) in Hs. rewrite contains_byte_app in Hs. by apply orb_false_iff in Hs as [_ ?].
Qed.

Lemma read_groups_text remaining index acc gs rest :
  Forall is_group gs -> (length gs <= remaining)%nat -> contains_byte 46 rest = false -> stops rest ->
  read_groups remaining index acc (groups_text index gs ++ rest) = (acc ++ gs, false, rest).
Proof.
  intros Hgs. revert remaining index acc. induction Hgs as [|g gs Hg Hgs IH]; intros remaining index acc Hl Hd Hst.
  - assert (groups_text index [] = []) as -> by by destruct index. cbn [app]. rewrite app_nil_r. destruct remaining; [done|].
    cbn [read_groups]. rewrite read_ipv4_separated by done.
    assert (read_separator 58 index (read_number 16 u16_max 4 true) rest = None) as ->.
    { apply read_separator_stops; [done|reflexivity|]. intros r. reflexivity. }
    by destruct (1 <? S remaining)%nat.
  - destruct remaining as [|remaining]; cbn [length] in Hl; [lia|]. cbn [read_groups].
    rewrite read_ipv4_separated.
    2: { rewrite contains_byte_app, groups_text_dotless by by constructor. done. }
    assert (read_separator 58 index (read_number 16 u16_max 4 true) (groups_text index (g :: gs) ++ rest) =
      Some (g, groups_text (S index) gs ++ rest)) as ->.
    { assert (match groups_text (S index) gs ++ rest with b :: _ => to_digit 16 b = None | [] => True end) as Hn.
      { destruct gs; [|done]. cbn. by destruct Hst as [->|[r ->]]. }
      rewrite groups_text_cons. destruct index; rewrite <- !app_assoc; cbn [app read_separator read_given_char].
      - by apply read_group.
      - rewrite Z.eqb_refl. by apply read_group. }
    replace (if (1 <? S remaining)%nat then None else None) with (@None (Ipv4Addr * str)) by by destruct (_ <? _)%nat.
    rewrite IH by (done || lia). by rewrite <- app_assoc.
Qed.

(** ** Runs of zeros *)

(** [n] zeros from [s] on. *)
Definition zero_run (l : list Z) (run : nat * nat) : Prop :=
  exists pre post, l = pre ++ replicate run.2 0 ++ post /\ (run.2 = 0%nat \/ length pre = run.1).

Lemma longest_zeros_run pre gs longest current :
  zero_run (pre ++ gs) longest ->
  (exists p, pre = p ++ replicate current.2 0 /\ (current.2 = 0%nat \/ length p = current.1)) ->
  zero_run (pre ++ gs) (longest_zeros (length pre) gs longest current).
Proof.
  revert pre longest current. induction gs as [|g gs IH]; intros pre longest current Hl (p & Hp & Hc); cbn [longest_zeros]; [done|].
  replace (S (length pre)) with (length (pre ++ [g])) by (rewrite length_app; cbn; lia).
  replace (pre ++ g :: gs) with ((pre ++ [g]) ++ gs) in * by by rewrite <- app_assoc.
  destruct (Z.eqb_spec g 0) as [->|Hg]; [|apply IH; [done|]; exists (pre ++ [g]); split; [by rewrite app_nil_r|by left]].
  set (cur := (if (current.2 =? 0)%nat then length pre else current.1, S current.2)).
  assert (pre ++ [0] = p ++ replicate cur.2 0 /\ length p = cur.1) as [Hp' Hc'].
  { subst cur. cbn [fst snd]. split.
    - rewrite Hp, <- app_assoc. by rewrite replicate_S_end.
    - destruct (Nat.eqb_spec current.2 0) as [E|E]; [|by destruct Hc]. rewrite Hp, E, app_nil_r. done. }
  apply IH; [|exists p; auto]. destruct (_ <? _)%nat; [|done]. exists p, gs. rewrite Hp', <- app_assoc. auto.
Qed.

Lemma longest_zeros_split gs start len :
  longest_zeros 0 gs (0%nat, 0%nat) (0%nat, 0%nat) = (start, len) -> (1 < len)%nat ->
  gs = take start gs ++ replicate len 0 ++ drop (start + len) gs /\ (start + len <= length gs)%nat.
Proof.
  intros E Hlen. assert (zero_run gs (start, len)) as (pre & post & H & Hs).
  { rewrite <- E. apply (longest_zeros_run []); [by exists [], gs; auto|by exists []; auto]. }
  cbn [fst snd] in *. destruct Hs as [->|Hs]; [lia|]. rewrite H at 2 3 4. rewrite <- Hs.
  split; [|rewrite !length_app, length_replicate; lia].
  rewrite take_app_length. rewrite <- drop_drop, drop_app_length.
  rewrite <- (length_replicate len 0) at 2. by rewrite drop_app_length.
Qed.

(** ** Segments *)

Lemma ipv6_segments_groups a : Forall is_group (ipv6_segments a) /\ length (ipv6_segments a) = 8%nat.
Proof.
  split; [|done]. unfold ipv6_segments. apply Forall_fmap, Forall_forall. intros i _. unfold compose, is_group.
  change 65535 with (Z.ones 16). rewrite Z.land_ones by lia. pose proof (Z.mod_pos_bound (Z.shiftr a (16 * (7 - Z.of_nat i))) (2 ^ 16)).
  change (Z.ones 16) with 65535. change (2 ^ 16) with 65536 in *. lia.
Qed.

Lemma of_groups_snoc gs g : of_groups (gs ++ [g]) = of_groups gs * 65536 + g.
Proof. unfold of_groups. by rewrite fold_left_app. Qed.

(** The groups above the lowest [16 * k] bits. *)
Lemma of_segments a : 0 <= a < 2 ^ 128 -> of_groups (ipv6_segments a) = a.
Proof.
  intros Ha. cut (forall n, (n <= 8)%nat ->
    of_groups (take n (ipv6_segments a)) = a / 2 ^ (16 * (8 - Z.of_nat n))).
  { intros H. specialize (H 8%nat (le_n _)). change (16 * (8 - Z.of_nat 8)) with 0 in H. by rewrite Z.div_1_r in H. }
  intros n. induction n as [|n IH]; intros Hn; [change (take 0 (ipv6_segments a)) with (@nil Z); symmetry; by apply Z.div_small|].
  assert (ipv6_segments a !! n = Some (Z.land (Z.shiftr a (16 * (7 - Z.of_nat n))) 65535)) as Hl.
  { unfold ipv6_segments. rewrite list_lookup_fmap, (lookup_seq_lt 0 8 n) by lia. done. }
  rewrite (take_S_r _ _ _ Hl), of_groups_snoc, IH by lia. change 65535 with (Z.ones 16). rewrite Z.land_ones, Z.shiftr_div_pow2 by lia.
  replace (16 * (8 - Z.of_nat (S n))) with (16 * (7 - Z.of_nat n)) by lia.
  replace (16 * (8 - Z.of_nat n)) with (16 * (7 - Z.of_nat n) + 16) by lia. rewrite Z.pow_add_r, <- Z.div_div by lia.
  change (2 ^ 16) with 65536. pose proof (Z.div_mod (a / 2 ^ (16 * (7 - Z.of_nat n))) 65536). lia.
Qed.

(** ** Round trips *)

(** The groups, or the groups around a run of zeros. *)
Lemma parse_groups gs : Forall is_group gs -> length gs = 8%nat -> parse_ip (join_groups gs) = Some (IpV6 (of_groups gs)).
Proof.
  intros Hgs Hl. unfold parse_ip, parse_with, read_ip_addr.
  rewrite read_ipv4_dotless by apply (groups_text_dotless 0 gs Hgs).
  unfold read_ipv6_addr. pose proof (read_groups_text 8 0 [] gs [] Hgs) as H. rewrite app_nil_r in H.
  change (groups_text 0 gs) with (join_groups gs) in H. rewrite H; [|lia|done|by left]. cbn [app]. by rewrite Hl.
Qed.

Lemma parse_compressed head tail : Forall is_group head -> Forall is_group tail -> (length head + length tail <= 6)%nat ->
  parse_ip (join_groups head ++ [58; 58] ++ join_groups tail) =
  Some (IpV6 (of_groups (head ++ replicate (8 - length head - length tail) 0 ++ tail))).
Proof.
  intros Hh Ht Hl. pose proof (groups_text_dotless 0 head Hh) as Dh. pose proof (groups_text_dotless 0 tail Ht) as Dt. cbn [groups_text] in Dh, Dt.
  unfold parse_ip, parse_with, read_ip_addr. rewrite read_ipv4_dotless.
  2: { by rewrite !contains_byte_app, Dh, Dt. }
  unfold read_ipv6_addr. pose proof (read_groups_text 8 0 [] head ([58; 58] ++ join_groups tail) Hh) as H0.
  change (groups_text 0 head) with (join_groups head) in H0. rewrite H0; [|lia|by rewrite contains_byte_app, Dt|right; by eexists].
  cbn [app]. rewrite (proj2 (Nat.eqb_neq _ _)) by lia. do 2 (cbn [read_given_char]; rewrite Z.eqb_refl).
  pose proof (read_groups_text (8 - (length head + 1)) 0 [] tail [] Ht) as H. rewrite app_nil_r in H.
  change (groups_text 0 tail) with (join_groups tail) in H. rewrite H; [done|lia|done|by left].
Qed.

Lemma read_ipv4_display a : 0 <= a <= u32_max -> read_ipv4_addr (ipv4_display a) = Some (a, []).
Proof.
  intros Ha. pose proof (parse_ip_display a Ha) as H. unfold parse_ip, parse_with, read_ip_addr in H.
  destruct (read_ipv4_addr (ipv4_display a)) as [[x r]|]; [destruct r; by simplify_eq|].
  destruct (read_ipv6_addr _) as [[x [|]]|]; by simplify_eq.
Qed.

Lemma parse_mapped a : 0 <= a <= u32_max ->
  parse_ip (lit "::ffff:" ++ ipv4_display a) = Some (IpV6 (65535 * 2 ^ 32 + a)).
Proof.
  intros Ha. change (lit "::ffff:") with ([58; 58] ++ hex_digits 4 65535 [] ++ [58]). rewrite <- !app_assoc.
  unfold parse_ip, parse_with, read_ip_addr. cbn [app]. rewrite read_ipv4_colon. unfold read_ipv6_addr.
  assert (read_groups 8 0 [] (58 :: 58 :: hex_digits 4 65535 [] ++ 58 :: ipv4_display a) =
    ([], false, 58 :: 58 :: hex_digits 4 65535 [] ++ 58 :: ipv4_display a)) as -> by reflexivity.
  cbn [length Nat.eqb]. do 2 (cbn [read_given_char]; rewrite Z.eqb_refl). change (8 - (0 + 1))%nat with 7%nat.
  assert (read_groups 7 0 [] (hex_digits 4 65535 [] ++ 58 :: ipv4_display a) =
    ([65535; Z.shiftr a 16; Z.land a 65535], true, [])) as ->.
  { cbn [read_groups Nat.ltb Nat.leb read_separator].
    assert (read_ipv4_addr (hex_digits 4 65535 [] ++ 58 :: ipv4_display a) = None) as -> by reflexivity.
    rewrite read_group by (unfold u16_max; done || lia). cbn [read_groups Nat.ltb Nat.leb read_separator read_given_char].
    rewrite Z.eqb_refl, read_ipv4_display by done. done. }
  cbn [length app Nat.sub replicate]. unfold of_groups. cbn [fold_left]. f_equal. f_equal.
  change 65535 with (Z.ones 16) at 2. rewrite Z.land_ones, Z.shiftr_div_pow2 by lia. change (2 ^ 16) with 65536.
  pose proof (Z.div_mod a 65536). change (2 ^ 32) with 4294967296. lia.
Qed.

Lemma parse_ipv6_display a : is_ipv6 a -> parse_ip (ipv6_display a) = Some (IpV6 a).
Proof.
  intros Ha. unfold is_ipv6 in Ha. unfold ipv6_display. destruct (ipv6_segments_groups a) as [Hg Hl].
  destruct (Z.eqb_spec (Z.shiftr a 32) 65535) as [E|_].
  - rewrite Z.shiftr_div_pow2 in E by lia. change u32_max with (Z.ones 32). rewrite Z.land_ones by lia.
    pose proof (Z.mod_pos_bound a (2 ^ 32)). pose proof (Z.div_mod a (2 ^ 32)).
    rewrite parse_mapped by (unfold u32_max; lia). f_equal. f_equal. lia.
  - destruct (longest_zeros _ _ _ _) as [start len] eqn:Ez. destruct (Nat.ltb_spec 1 len) as [Hlen|_].
    + destruct (longest_zeros_split _ _ _ Ez Hlen) as [Hs Hb]. rewrite Hl in Hb.
      rewrite parse_compressed; [|by apply Forall_take|by apply Forall_drop|rewrite length_take, length_drop; lia].
      rewrite length_take, length_drop, Hl. replace (8 - start `min` 8 - (8 - (start + len)))%nat with len by lia.
      rewrite <- Hs. by rewrite of_segments.
    + rewrite parse_groups by done. by rewrite of_segments.
Qed.

(** An address of either kind. *)
Definition is_ip (a : IpAddr) : Prop := match a with IpV4 a => 0 <= a <= u32_max | IpV6 a => is_ipv6 a end.

Lemma parse_ip_text a : is_ip a -> parse_ip (ip_display a) = Some a.
Proof. destruct a; [apply parse_ip_display|apply parse_ipv6_display]. Qed.

Lemma ip_display_inj a b : is_ip a -> is_ip b -> ip_display a = ip_display b -> a = b.
Proof. intros Ha Hb E. apply (f_equal parse_ip) in E. rewrite !parse_ip_text in E by done. by injection E. Qed.
