(* ===== verification/Rotation.v ===== *)
(** * The IP-rotation owner ([crates/rotation/src/lib.rs])

    The pure state machine behind one public-IP rotation: it numbers
    operations, accepts generation-bound facts, moves between phases and
    records the terminal outcome.  Every [&mut self] method is a function from
    the machine to its answer and the machine it leaves, including the fields
    a method writes before it returns an error. *)

From S2P Require Import Prelude Net.

(** ** Data *)

Inductive RotationPhase : Type :=
| Idle | Preparing | DataDisabling | WaitingCellularLoss | DataEnabling
| WaitingCellularRecovery | WaitingRootPolicy | ProbingPublicIp
| PhaseChanged | PhaseUnchanged | PhaseFailed.

#[export] Instance RotationPhase_eq_dec : EqDecision RotationPhase.
Proof. solve_decision. Defined.

Definition terminal (p : RotationPhase) : bool :=
  match p with PhaseChanged | PhaseUnchanged | PhaseFailed => true | _ => false end.

Inductive RotationTerminalResult : Type := Changed | Unchanged | Failed.

Inductive RotationMutationOutcome : Type := Applied | Rejected | Uncertain.

Inductive RotationFailure : Type :=
| RuntimeNotRunning | NoCurrentCellular | RootPolicyUnavailable | BeforeIpFailed
| DataDisableFailed | MobileDataObservationFailed | DataEnableFailed
| FreshCellularUnavailable | RootPolicyRecoveryFailed | AfterIpFailed
| CredentialChanged | DeadlineExceeded | FailureStateUnavailable.

Inductive RotationRestoreResult : Type :=
| NotRequired | AlreadyEnabled | RestoredEnabled | RestoreFailed | RestoreUncertain.

Inductive RotationStartError : Type :=
| AlreadyInProgress | InvalidGeneration | OperationIdExhausted.

Inductive RotationTransitionError : Type :=
| StaleOperation | InvalidPhase | StaleGeneration | StateUnavailable.

#[export] Instance RotationTerminalResult_eq_dec : EqDecision RotationTerminalResult.
Proof. solve_decision. Defined.

Record RotationSnapshot := {
  snap_operation_id : option Z;
  snap_phase : RotationPhase;
  snap_before_generation : option Z;
  snap_after_generation : option Z;
  snap_before_ip : option IpAddr;
  snap_after_ip : option IpAddr;
  snap_restore_required : bool;
  snap_terminal_result : option RotationTerminalResult;
  snap_failure : option RotationFailure;
  snap_restore_result : option RotationRestoreResult
}.

Definition snapshot_idle : RotationSnapshot := {|
  snap_operation_id := None;
  snap_phase := Idle;
  snap_before_generation := None;
  snap_after_generation := None;
  snap_before_ip := None;
  snap_after_ip := None;
  snap_restore_required := false;
  snap_terminal_result := None;
  snap_failure := None;
  snap_restore_result := None
|}.

Record RotationOperation := {
  id : Z;
  phase : RotationPhase;
  before_generation : Z;
  after_generation : option Z;
  before_ip : option IpAddr;
  after_ip : option IpAddr;
  cellular_loss_observed : bool;
  latest_owner_generation : Z;
  fresh_cellular_generation : option Z;
  root_authorized_generation : option Z;
  restore_required : bool;
  terminal_result : option RotationTerminalResult;
  failure : option RotationFailure;
  restore_result : option RotationRestoreResult
}.

(** Field assignments. *)
Definition set_phase (o : RotationOperation) v :=
  {| id := id o; phase := v; before_generation := before_generation o;
     after_generation := after_generation o; before_ip := before_ip o; after_ip := after_ip o;
     cellular_loss_observed := cellular_loss_observed o;
     latest_owner_generation := latest_owner_generation o;
     fresh_cellular_generation := fresh_cellular_generation o;
     root_authorized_generation := root_authorized_generation o;
     restore_required := restore_required o; terminal_result := terminal_result o;
     failure := failure o; restore_result := restore_result o |}.

Definition set_ips (o : RotationOperation) b a :=
  {| id := id o; phase := phase o; before_generation := before_generation o;
     after_generation := after_generation o; before_ip := b; after_ip := a;
     cellular_loss_observed := cellular_loss_observed o;
     latest_owner_generation := latest_owner_generation o;
     fresh_cellular_generation := fresh_cellular_generation o;
     root_authorized_generation := root_authorized_generation o;
     restore_required := restore_required o; terminal_result := terminal_result o;
     failure := failure o; restore_result := restore_result o |}.

Definition set_after_generation (o : RotationOperation) v :=
  {| id := id o; phase := phase o; before_generation := before_generation o;
     after_generation := v; before_ip := before_ip o; after_ip := after_ip o;
     cellular_loss_observed := cellular_loss_observed o;
     latest_owner_generation := latest_owner_generation o;
     fresh_cellular_generation := fresh_cellular_generation o;
     root_authorized_generation := root_authorized_generation o;
     restore_required := restore_required o; terminal_result := terminal_result o;
     failure := failure o; restore_result := restore_result o |}.

Definition set_cellular_loss_observed (o : RotationOperation) v :=
  {| id := id o; phase := phase o; before_generation := before_generation o;
     after_generation := after_generation o; before_ip := before_ip o; after_ip := after_ip o;
     cellular_loss_observed := v;
     latest_owner_generation := latest_owner_generation o;
     fresh_cellular_generation := fresh_cellular_generation o;
     root_authorized_generation := root_authorized_generation o;
     restore_required := restore_required o; terminal_result := terminal_result o;
     failure := failure o; restore_result := restore_result o |}.

Definition set_generations (o : RotationOperation) latest fresh root :=
  {| id := id o; phase := phase o; before_generation := before_generation o;
     after_generation := after_generation o; before_ip := before_ip o; after_ip := after_ip o;
     cellular_loss_observed := cellular_loss_observed o;
     latest_owner_generation := latest;
     fresh_cellular_generation := fresh;
     root_authorized_generation := root;
     restore_required := restore_required o; terminal_result := terminal_result o;
     failure := failure o; restore_result := restore_result o |}.

Definition set_restore_required (o : RotationOperation) v :=
  {| id := id o; phase := phase o; before_generation := before_generation o;
     after_generation := after_generation o; before_ip := before_ip o; after_ip := after_ip o;
     cellular_loss_observed := cellular_loss_observed o;
     latest_owner_generation := latest_owner_generation o;
     fresh_cellular_generation := fresh_cellular_generation o;
     root_authorized_generation := root_authorized_generation o;
     restore_required := v; terminal_result := terminal_result o;
     failure := failure o; restore_result := restore_result o |}.

Definition set_outcome (o : RotationOperation) t f r :=
  {| id := id o; phase := phase o; before_generation := before_generation o;
     after_generation := after_generation o; before_ip := before_ip o; after_ip := after_ip o;
     cellular_loss_observed := cellular_loss_observed o;
     latest_owner_generation := latest_owner_generation o;
     fresh_cellular_generation := fresh_cellular_generation o;
     root_authorized_generation := root_authorized_generation o;
     restore_required := restore_required o; terminal_result := t;
     failure := f; restore_result := r |}.

Definition operation_snapshot (o : RotationOperation) : RotationSnapshot := {|
  snap_operation_id := Some (id o);
  snap_phase := phase o;
  snap_before_generation := Some (before_generation o);
  snap_after_generation := after_generation o;
  snap_before_ip := before_ip o;
  snap_after_ip := after_ip o;
  snap_restore_required := restore_required o;
  snap_terminal_result := terminal_result o;
  snap_failure := failure o;
  snap_restore_result := restore_result o
|}.

(** ** Operation-level helpers *)

(** [true] when the observation is not older than the newest one seen; a
    strictly newer one drops the recovery facts it outdates. *)
Definition observe_owner_generation (o : RotationOperation) (generation : Z)
    : bool * RotationOperation :=
  if generation <? latest_owner_generation o then (false, o)
  else if latest_owner_generation o <? generation then
    let fresh :=
      if is_some_and (fresh_cellular_generation o) (fun current => current <? generation)
      then None else fresh_cellular_generation o in
    let root :=
      if is_some_and (root_authorized_generation o) (fun current => current <? generation)
      then None else root_authorized_generation o in
    (true, set_generations o generation fresh root)
  else (true, o).

Definition observe_recovery_cellular (o : RotationOperation) (generation : Z) (admitted : bool)
    : RotationOperation :=
  if admitted then
    set_generations o (latest_owner_generation o) (Some generation) (root_authorized_generation o)
  else
    let o :=
      if fresh_cellular_generation o =b? Some generation
      then set_generations o (latest_owner_generation o) None (root_authorized_generation o)
      else o in
    if root_authorized_generation o =b? Some generation
    then set_generations o (latest_owner_generation o) (fresh_cellular_generation o) None
    else o.

Definition maybe_advance_loss (o : RotationOperation) : RotationOperation :=
  if (phase o =b? WaitingCellularLoss) && cellular_loss_observed o
  then set_phase o DataEnabling else o.

Definition maybe_advance_recovery (o : RotationOperation) : RotationOperation :=
  match phase o with
  | WaitingCellularRecovery | WaitingRootPolicy =>
      match fresh_cellular_generation o with
      | None => set_phase o WaitingCellularRecovery
      | Some fresh =>
          if root_authorized_generation o <>b? Some fresh then set_phase o WaitingRootPolicy
          else set_phase (set_after_generation o (Some fresh)) ProbingPublicIp
      end
  | _ => o
  end.

Definition fail_operation (o : RotationOperation) (f : RotationFailure)
    : RotationSnapshot * RotationOperation :=
  let o := set_outcome (set_phase o PhaseFailed) (Some Failed) (Some f) (restore_result o) in
  (operation_snapshot o, o).

(** ** The machine *)

Record RotationStateMachine := {
  next_operation_id : Z;
  current : option RotationOperation
}.

Definition new : RotationStateMachine := {| next_operation_id := 1; current := None |}.

Definition snapshot (m : RotationStateMachine) : RotationSnapshot :=
  match current m with Some o => operation_snapshot o | None => snapshot_idle end.

Definition fresh_operation (i before : Z) : RotationOperation := {|
  id := i; phase := Preparing; before_generation := before; after_generation := None;
  before_ip := None; after_ip := None; cellular_loss_observed := false;
  latest_owner_generation := before; fresh_cellular_generation := None;
  root_authorized_generation := None; restore_required := false;
  terminal_result := None; failure := None; restore_result := None
|}.

Definition start (m : RotationStateMachine) (before : Z)
    : result RotationStartError Z * RotationStateMachine :=
  if before =? 0 then (Err InvalidGeneration, m)
  else if is_some_and (current m) (fun o => negb (terminal (phase o))) then
    (Err AlreadyInProgress, m)
  else
    let i := next_operation_id m in
    match checked_add u64_max i 1 with
    | None => (Err OperationIdExhausted, m)
    | Some next =>
        (Ok i, {| next_operation_id := next; current := Some (fresh_operation i before) |})
    end.

(** [fn current] and [fn active]: the operation a call may touch. *)
Definition current_operation (m : RotationStateMachine) (operation_id : Z)
    : result RotationTransitionError RotationOperation :=
  let? o := ok_or (current m) StaleOperation in
  if id o <>b? operation_id then Err StaleOperation else Ok o.

Definition active_operation (m : RotationStateMachine) (operation_id : Z)
    : result RotationTransitionError RotationOperation :=
  let? o := current_operation m operation_id in
  if terminal (phase o) then Err InvalidPhase else Ok o.

(** The answer of a method, and the operation it leaves behind its [&mut]. *)
Definition answer := result RotationTransitionError RotationSnapshot.

Definition on_operation
    (lookup : RotationStateMachine -> Z -> result RotationTransitionError RotationOperation)
    (m : RotationStateMachine) (operation_id : Z)
    (body : RotationOperation -> answer * RotationOperation) : answer * RotationStateMachine :=
  match lookup m operation_id with
  | Err e => (Err e, m)
  | Ok o => let '(r, o) := body o in
            (r, {| next_operation_id := next_operation_id m; current := Some o |})
  end.

Definition on_active := on_operation active_operation.
Definition on_current := on_operation current_operation.

Definition record_before_ip m operation_id (generation : Z) (address : IpAddr) :=
  on_active m operation_id (fun o =>
    if phase o <>b? Preparing then (Err InvalidPhase, o)
    else if generation <>b? before_generation o then (Err StaleGeneration, o)
    else
      let o := set_phase (set_ips o (Some address) (after_ip o)) DataDisabling in
      (Ok (operation_snapshot o), o)).

Definition data_disable_mutation_started m operation_id :=
  on_active m operation_id (fun o =>
    if phase o <>b? DataDisabling then (Err InvalidPhase, o)
    else
      let o := set_restore_required o true in
      (Ok (operation_snapshot o), o)).

Definition data_disable_effect_completed m operation_id (outcome : RotationMutationOutcome) :=
  on_active m operation_id (fun o =>
    if phase o <>b? DataDisabling then (Err InvalidPhase, o)
    else
      match outcome with
      | Applied =>
          let o := maybe_advance_loss
                     (set_phase (set_restore_required o true) WaitingCellularLoss) in
          (Ok (operation_snapshot o), o)
      | Rejected =>
          let '(s, o) := fail_operation (set_restore_required o false) DataDisableFailed in
          (Ok s, o)
      | Uncertain =>
          let '(s, o) := fail_operation (set_restore_required o true) DataDisableFailed in
          (Ok s, o)
      end).

Definition data_enable_effect_completed m operation_id (outcome : RotationMutationOutcome) :=
  on_active m operation_id (fun o =>
    if phase o <>b? DataEnabling then (Err InvalidPhase, o)
    else
      match outcome with
      | Applied =>
          let o := maybe_advance_recovery
                     (set_phase (set_restore_required o false) WaitingCellularRecovery) in
          (Ok (operation_snapshot o), o)
      | Rejected | Uncertain =>
          let '(s, o) := fail_operation (set_restore_required o true) DataEnableFailed in
          (Ok s, o)
      end).

Definition observe_cellular m operation_id (generation : Z) (admitted : bool) :=
  on_active m operation_id (fun o =>
    if generation <=? before_generation o then
      match phase o with
      | DataDisabling | WaitingCellularLoss | DataEnabling
      | WaitingCellularRecovery | WaitingRootPolicy => (Ok (operation_snapshot o), o)
      | _ => (Err StaleGeneration, o)
      end
    else
      let '(accepted, o) := observe_owner_generation o generation in
      if negb accepted then (Ok (operation_snapshot o), o)
      else
        match phase o with
        | DataDisabling | WaitingCellularLoss =>
            let o := if negb admitted then set_cellular_loss_observed o true else o in
            let o := maybe_advance_loss o in
            (Ok (operation_snapshot o), o)
        | DataEnabling =>
            let o := observe_recovery_cellular o generation admitted in
            (Ok (operation_snapshot o), o)
        | WaitingCellularRecovery | WaitingRootPolicy =>
            let o := maybe_advance_recovery (observe_recovery_cellular o generation admitted) in
            (Ok (operation_snapshot o), o)
        | _ => (Err InvalidPhase, o)
        end).

Definition observe_root_policy m operation_id (generation : Z) (authorized : bool) :=
  on_active m operation_id (fun o =>
    if generation <=? before_generation o then
      match phase o with
      | DataEnabling | WaitingCellularRecovery | WaitingRootPolicy =>
          (Ok (operation_snapshot o), o)
      | _ => (Err StaleGeneration, o)
      end
    else
      let '(accepted, o) := observe_owner_generation o generation in
      if negb accepted then (Ok (operation_snapshot o), o)
      else
        match phase o with
        | DataEnabling | WaitingCellularRecovery | WaitingRootPolicy =>
            let o := set_generations o (latest_owner_generation o)
                       (fresh_cellular_generation o)
                       (if authorized then Some generation else None) in
            let o := if phase o <>b? DataEnabling then maybe_advance_recovery o else o in
            (Ok (operation_snapshot o), o)
        | _ => (Err InvalidPhase, o)
        end).

Definition record_after_ip m operation_id (generation : Z) (address : IpAddr) :=
  on_active m operation_id (fun o =>
    if phase o <>b? ProbingPublicIp then (Err InvalidPhase, o)
    else if after_generation o <>b? Some generation then (Err StaleGeneration, o)
    else
      match before_ip o with
      | None => (Err StateUnavailable, o)
      | Some before =>
          let o := set_ips o (before_ip o) (Some address) in
          let o :=
            if before =b? address then
              set_outcome (set_phase o PhaseUnchanged) (Some Unchanged) (failure o)
                (restore_result o)
            else
              set_outcome (set_phase o PhaseChanged) (Some Changed) (failure o)
                (restore_result o) in
          let o := set_restore_required o false in
          (Ok (operation_snapshot o), o)
      end).

Definition fail m operation_id (f : RotationFailure) :=
  on_active m operation_id (fun o => let '(s, o) := fail_operation o f in (Ok s, o)).

Definition deadline_exceeded m operation_id := fail m operation_id DeadlineExceeded.

Definition record_restore m operation_id (restore : RotationRestoreResult) :=
  on_current m operation_id (fun o =>
    if phase o <>b? PhaseFailed then (Err InvalidPhase, o)
    else
      let o := set_outcome o (terminal_result o) (failure o) (Some restore) in
      let o :=
        match restore with
        | NotRequired | AlreadyEnabled | RestoredEnabled => set_restore_required o false
        | _ => o
        end in
      (Ok (operation_snapshot o), o)).

(** ** Calls, and runs of calls *)

Inductive call : Type :=
| CStart (before : Z)
| CBeforeIp (i g : Z) (a : IpAddr)
| CDisableStarted (i : Z)
| CDisableDone (i : Z) (o : RotationMutationOutcome)
| CEnableDone (i : Z) (o : RotationMutationOutcome)
| CCellular (i g : Z) (admitted : bool)
| CRootPolicy (i g : Z) (authorized : bool)
| CAfterIp (i g : Z) (a : IpAddr)
| CFail (i : Z) (f : RotationFailure)
| CDeadline (i : Z)
| CRestore (i : Z) (r : RotationRestoreResult).

Definition reply : Type := result RotationStartError Z + answer.

Definition lift_reply {A} (x : answer * A) : reply * A := (inr x.1, x.2).

Definition step (m : RotationStateMachine) (c : call) : reply * RotationStateMachine :=
  match c with
  | CStart b => let '(r, m) := start m b in (inl r, m)
  | CBeforeIp i g a => lift_reply (record_before_ip m i g a)
  | CDisableStarted i => lift_reply (data_disable_mutation_started m i)
  | CDisableDone i o => lift_reply (data_disable_effect_completed m i o)
  | CEnableDone i o => lift_reply (data_enable_effect_completed m i o)
  | CCellular i g b => lift_reply (observe_cellular m i g b)
  | CRootPolicy i g b => lift_reply (observe_root_policy m i g b)
  | CAfterIp i g a => lift_reply (record_after_ip m i g a)
  | CFail i f => lift_reply (fail m i f)
  | CDeadline i => lift_reply (deadline_exceeded m i)
  | CRestore i r => lift_reply (record_restore m i r)
  end.

(** The generation arguments are [u64]s. *)
Definition call_wf (c : call) : Prop :=
  match c with
  | CStart b => is_u64 b
  | CBeforeIp _ g _ | CCellular _ g _ | CRootPolicy _ g _ | CAfterIp _ g _ => is_u64 g
  | _ => True
  end.

Definition reachable (m : RotationStateMachine) : Prop :=
  exists cs, Forall call_wf cs /\ m = run step new cs.

(** ** Well-formedness

    What the phase of an operation says about its other fields. *)

Definition expected_terminal (p : RotationPhase) : option RotationTerminalResult :=
  match p with
  | PhaseChanged => Some Changed
  | PhaseUnchanged => Some Unchanged
  | PhaseFailed => Some Failed
  | _ => None
  end.

(** Phases entered only after the authoritative cellular loss. *)
Definition after_loss (p : RotationPhase) : bool :=
  match p with
  | DataEnabling | WaitingCellularRecovery | WaitingRootPolicy | ProbingPublicIp
  | PhaseChanged | PhaseUnchanged => true
  | _ => false
  end.

(** Phases entered only once a fresh, root-authorised generation is fixed. *)
Definition after_recovery (p : RotationPhase) : bool :=
  match p with ProbingPublicIp | PhaseChanged | PhaseUnchanged => true | _ => false end.

(** The compensation duty a phase fixes, where it does. *)
Definition expected_restore (p : RotationPhase) : option bool :=
  match p with
  | Preparing => Some false
  | WaitingCellularLoss | DataEnabling => Some true
  | WaitingCellularRecovery | WaitingRootPolicy | ProbingPublicIp
  | PhaseChanged | PhaseUnchanged => Some false
  | _ => None
  end.

Definition generation_fresh (o : RotationOperation) (g : Z) : Prop :=
  before_generation o < g <= latest_owner_generation o.

Record operation_ok (o : RotationOperation) : Prop := {
  ok_started : phase o <> Idle;
  ok_before : 0 < before_generation o <= u64_max;
  ok_latest : before_generation o <= latest_owner_generation o <= u64_max;
  ok_fresh : forall g, fresh_cellular_generation o = Some g -> generation_fresh o g;
  ok_root : forall g, root_authorized_generation o = Some g -> generation_fresh o g;
  ok_terminal : terminal_result o = expected_terminal (phase o);
  ok_failure : is_some (failure o) = (phase o =b? PhaseFailed);
  ok_restore_result : is_some (restore_result o) = true -> phase o = PhaseFailed;
  ok_before_ip : phase o <> PhaseFailed -> is_some (before_ip o) = (phase o <>b? Preparing);
  ok_loss : after_loss (phase o) = true -> cellular_loss_observed o = true;
  ok_recovery : after_recovery (phase o) = true ->
    exists g, after_generation o = Some g /\ generation_fresh o g;
  ok_no_recovery : after_recovery (phase o) = false -> phase o <> PhaseFailed ->
    after_generation o = None;
  ok_after_ip : is_some (after_ip o) =
    match phase o with PhaseChanged | PhaseUnchanged => true | _ => false end;
  ok_changed : phase o = PhaseChanged -> before_ip o <> after_ip o;
  ok_unchanged : phase o = PhaseUnchanged -> before_ip o = after_ip o;
  ok_duty : forall b, expected_restore (phase o) = Some b -> restore_required o = b
}.

Record machine_ok (m : RotationStateMachine) : Prop := {
  ok_next : 1 <= next_operation_id m <= u64_max;
  ok_current : forall o, current m = Some o ->
    operation_ok o /\ 1 <= id o < next_operation_id m
}.

(** Case analysis on the phase of one operation, then the arithmetic. *)
Ltac op_cases o :=
  destruct o as [oi ph bg ag bip aip lo lg fg rg rr tr fl rs];
  intros []; unfold generation_fresh in *; simpl in *.

(** Discharges the premises a known phase decides. *)
Ltac op_norm :=
  repeat match goal with
  | H : forall g, Some ?x = Some g -> _ |- _ => specialize (H x eq_refl)
  | H : ?x = ?x -> _ |- _ => specialize (H eq_refl)
  | H : ?a <> ?b -> _ |- _ => specialize (H ltac:(discriminate))
  | H : ?a = ?b -> _ |- _ => assert (a <> b) as _ by discriminate; clear H
  | H : forall b, Some ?x = Some b -> _ |- _ => specialize (H x eq_refl)
  | H : _ /\ _ |- _ => destruct H
  end.

Ltac op_finish :=
  unfold generation_fresh in *; op_norm;
  try solve [ done | lia | congruence | intros; simplify_eq/=; first [done | lia | congruence]
            | intros Hrs; repeat match goal with H : is_some ?x = true -> _ |- _ =>
                specialize (H Hrs) end; congruence ].

Lemma observe_owner_generation_spec o g a o' :
  observe_owner_generation o g = (a, o') ->
  is_u64 g ->
  operation_ok o ->
  operation_ok o' /\ phase o' = phase o /\ id o' = id o /\
  operation_snapshot o' = operation_snapshot o /\
  before_generation o' = before_generation o /\
  cellular_loss_observed o' = cellular_loss_observed o /\
  latest_owner_generation o <= latest_owner_generation o' /\
  (a = true -> latest_owner_generation o' = g) /\
  (a = false -> o' = o).
Proof.
  unfold observe_owner_generation, in_width. intros Heq [_ Hu] Hok.
  destruct (Z.ltb_spec g (latest_owner_generation o)); simplify_eq/=.
  { split_and!; done. }
  destruct (Z.ltb_spec (latest_owner_generation o) g); simplify_eq/=.
  2: { split_and!; try done. intros _. lia. }
  split_and!; simpl; try done; try lia.
  revert Hok. op_cases o. constructor; simpl; unfold generation_fresh; simpl; auto; try lia.
  - intros g' Hg'. rust_cases in Hg'. specialize (ok_fresh0 g' eq_refl). lia.
  - intros g' Hg'. rust_cases in Hg'. specialize (ok_root0 g' eq_refl). lia.
  - intros Hr. destruct (ok_recovery0 Hr) as (x & -> & ?). exists x. split; [done|lia].
Qed.

Lemma current_operation_Ok m i o :
  current_operation m i = Ok o -> current m = Some o /\ id o = i.
Proof.
  unfold current_operation. destruct (current m) as [o'|]; simpl; [|done].
  intros H. rust_cases in H. done.
Qed.

Lemma active_operation_Ok m i o :
  active_operation m i = Ok o ->
  current m = Some o /\ id o = i /\ terminal (phase o) = false.
Proof.
  unfold active_operation, result_bind. destruct (current_operation m i) eqn:Hc; [|done].
  apply current_operation_Ok in Hc as [Hc Hi]. intros H. rust_cases in H. done.
Qed.

(** A method whose body preserves well-formedness and identity preserves the machine's. *)
Lemma on_operation_ok lookup m i body :
  (forall o, lookup m i = Ok o -> current m = Some o) ->
  (forall o, lookup m i = Ok o -> operation_ok o ->
     operation_ok (body o).2 /\ id (body o).2 = id o) ->
  machine_ok m -> machine_ok (on_operation lookup m i body).2.
Proof.
  intros Hlook Hbody [Hn Hc]. unfold on_operation.
  destruct (lookup m i) as [o|] eqn:Hl; simpl; [|by constructor].
  specialize (Hbody o eq_refl). destruct (Hc o) as [Hok Hid]; [auto|].
  destruct (body o) as [r o']; simpl in *. destruct Hbody as [? Heq]; [done|].
  constructor; simpl; [done|]. intros ? [= <-]. by rewrite Heq.
Qed.

Lemma on_active_ok m i body :
  (forall o, operation_ok o -> terminal (phase o) = false ->
     operation_ok (body o).2 /\ id (body o).2 = id o) ->
  machine_ok m -> machine_ok (on_active m i body).2.
Proof.
  intros Hb. apply on_operation_ok.
  - intros o Hl. by apply active_operation_Ok in Hl as (? & _).
  - intros o Hl Hok. apply active_operation_Ok in Hl as (_ & _ & ?). auto.
Qed.

(** Rebuilds [operation_ok] after assignments. *)
Ltac op_rebuild :=
  constructor; simpl; unfold generation_fresh in *; simpl in *; op_finish.

Ltac phase_in H :=
  match type of H with
  | phase ?o = _ => rewrite ?H in *
  end.

Lemma maybe_advance_loss_ok o :
  operation_ok o -> operation_ok (maybe_advance_loss o) /\ id (maybe_advance_loss o) = id o.
Proof.
  unfold maybe_advance_loss. intros Hok.
  destruct ((phase o =b? WaitingCellularLoss) && cellular_loss_observed o) eqn:Ht; [|done].
  rust_bool. split; [|done]. revert Hok. op_cases o. subst ph. op_rebuild.
Qed.

Lemma maybe_advance_recovery_ok o :
  operation_ok o ->
  operation_ok (maybe_advance_recovery o) /\ id (maybe_advance_recovery o) = id o.
Proof.
  unfold maybe_advance_recovery. intros Hok.
  destruct (phase o) eqn:Hp; try done.
  all: destruct (fresh_cellular_generation o) as [g|] eqn:Hf; [|split; [|done]].
  all: try destruct (root_authorized_generation o <>b? Some g); try (split; [|done]).
  all: revert Hok; op_cases o; subst; op_rebuild.
  all: intros _; exists g; split; [done|]; lia.
Qed.

Lemma observe_recovery_cellular_ok o g admitted :
  generation_fresh o g ->
  operation_ok o ->
  operation_ok (observe_recovery_cellular o g admitted) /\
  id (observe_recovery_cellular o g admitted) = id o /\
  phase (observe_recovery_cellular o g admitted) = phase o.
Proof.
  unfold observe_recovery_cellular. intros Hg Hok. destruct admitted.
  { split_and!; [|done..]. revert Hok. op_cases o. op_rebuild. }
  set (o1 := if fresh_cellular_generation o =b? Some g then _ else o).
  assert (operation_ok o1 /\ id o1 = id o /\ phase o1 = phase o) as (Hok1 & Hid1 & Hp1).
  { subst o1. case_bool_decide; [|done]. split_and!; [|done..].
    revert Hok. op_cases o. op_rebuild. }
  case_bool_decide; [|done]. split_and!; [|done..].
  revert Hok1. generalize o1. clear. intros o. op_cases o. op_rebuild.
Qed.

Lemma fail_operation_ok o f :
  operation_ok o -> terminal (phase o) = false ->
  operation_ok (fail_operation o f).2 /\ id (fail_operation o f).2 = id o.
Proof.
  intros Hok Ht. split; [|done]. revert Ht Hok. simpl. intros Ht. op_cases o.
  destruct ph; try done; op_rebuild.
Qed.

Lemma start_ok m b : is_u64 b -> machine_ok m -> machine_ok (start m b).2.
Proof.
  intros [Hb0 Hb1] [Hn Hc]. unfold start.
  destruct (b =? 0) eqn:Hz; [done|]. rust_bool.
  destruct (is_some_and _ _); [done|].
  destruct (checked_add u64_max (next_operation_id m) 1) as [next|] eqn:Ha; [|done].
  apply checked_add_Some in Ha as [-> ?]. constructor; simpl; [lia|].
  intros o [= <-]. split; [|simpl; lia]. constructor; simpl; op_finish.
Qed.

Lemma observation_ok o g (body : answer * RotationOperation) a o' :
  observe_owner_generation o g = (a, o') -> is_u64 g -> operation_ok o ->
  (operation_ok o' -> a = true -> latest_owner_generation o' = g ->
     phase o' = phase o -> before_generation o' = before_generation o ->
     operation_ok body.2 /\ id body.2 = id o') ->
  operation_ok (if negb a then (Ok (operation_snapshot o'), o') else body).2 /\
  id (if negb a then (Ok (operation_snapshot o'), o') else body).2 = id o.
Proof.
  intros Hobs Hg Hok Hbody.
  destruct (observe_owner_generation_spec _ _ _ _ Hobs Hg Hok)
    as (Hok' & Hp & Hid & _ & Hb & _ & _ & Hl & _).
  rewrite <- Hid. destruct a; simpl; [|done]. apply Hbody; auto.
Qed.

Lemma observe_cellular_ok m i g b :
  is_u64 g -> machine_ok m -> machine_ok (observe_cellular m i g b).2.
Proof.
  intros Hg. apply on_active_ok. intros o Hok Ht.
  destruct (g <=? before_generation o) eqn:Hgb; [by destruct (phase o)|]. rust_bool.
  destruct (observe_owner_generation o g) as [a o'] eqn:Hobs.
  apply (observation_ok o g _ a o' Hobs Hg Hok). intros Hok' _ Hl Hp Hb.
  assert (generation_fresh o' g) by (unfold generation_fresh; lia).
  destruct (phase o') eqn:Hp'; simpl; try done.
  1,2: destruct b; simpl; [by apply maybe_advance_loss_ok|].
  1,2: rewrite <- (eq_refl : id (set_cellular_loss_observed o' true) = id o');
       apply maybe_advance_loss_ok; revert Hok'; clear -Hp'; op_cases o'; subst; op_rebuild.
  - by destruct (observe_recovery_cellular_ok o' g b) as (? & ? & _).
  - destruct (observe_recovery_cellular_ok o' g b) as (? & <- & _); [done..|].
    by apply maybe_advance_recovery_ok.
  - destruct (observe_recovery_cellular_ok o' g b) as (? & <- & _); [done..|].
    by apply maybe_advance_recovery_ok.
Qed.

Lemma set_root_ok o g (b : bool) :
  generation_fresh o g -> operation_ok o ->
  operation_ok (set_generations o (latest_owner_generation o) (fresh_cellular_generation o)
                  (if b then Some g else None)).
Proof. intros Hg Hok. revert Hok. op_cases o. destruct b; op_rebuild. Qed.

Lemma observe_root_policy_ok m i g b :
  is_u64 g -> machine_ok m -> machine_ok (observe_root_policy m i g b).2.
Proof.
  intros Hg. apply on_active_ok. intros o Hok Ht.
  destruct (g <=? before_generation o) eqn:Hgb; [by destruct (phase o)|]. rust_bool.
  destruct (observe_owner_generation o g) as [a o'] eqn:Hobs.
  apply (observation_ok o g _ a o' Hobs Hg Hok). intros Hok' _ Hl Hp Hb.
  assert (generation_fresh o' g) as Hf by (unfold generation_fresh; lia).
  pose proof (set_root_ok o' g b Hf Hok') as Hs.
  destruct (phase o') eqn:Hp'; simpl; try done; rewrite Hp'; simpl; [done|..].
  all: change (id o') with (id (set_generations o' (latest_owner_generation o')
         (fresh_cellular_generation o') (if b then Some g else None)));
       by apply maybe_advance_recovery_ok.
Qed.

Lemma simple_methods_ok m i :
  machine_ok m ->
  (forall g a, machine_ok (record_before_ip m i g a).2) /\
  machine_ok (data_disable_mutation_started m i).2 /\
  (forall out, machine_ok (data_disable_effect_completed m i out).2) /\
  (forall out, machine_ok (data_enable_effect_completed m i out).2) /\
  (forall g a, machine_ok (record_after_ip m i g a).2) /\
  (forall f, machine_ok (fail m i f).2).
Proof.
  intros Hm. split_and!; intros; apply on_active_ok; try done; intros o Hok Ht.
  - case_bool_decide as Hp; [|done]. case_bool_decide; [|done]. split; [|done].
    revert Hok. op_cases o. subst ph. op_rebuild.
  - case_bool_decide as Hp; [|done]. split; [|done].
    revert Hok. op_cases o. subst ph. op_rebuild.
  - case_bool_decide as Hp; [|done]. simpl.
    assert (forall b, operation_ok (set_restore_required o b)) as Hs.
    { intros b. revert Hok. op_cases o. subst ph. op_rebuild. }
    destruct out; [|by apply (fail_operation_ok (set_restore_required o false))
                   |by apply (fail_operation_ok (set_restore_required o true))].
    apply (maybe_advance_loss_ok (set_phase (set_restore_required o true) WaitingCellularLoss)).
    revert Hok. op_cases o. subst ph. op_rebuild.
  - case_bool_decide as Hp; [|done]. simpl.
    assert (operation_ok (set_restore_required o true)) as Hs.
    { revert Hok. op_cases o. subst ph. op_rebuild. }
    destruct out; [|by apply (fail_operation_ok (set_restore_required o true))..].
    apply (maybe_advance_recovery_ok
             (set_phase (set_restore_required o false) WaitingCellularRecovery)).
    revert Hok. op_cases o. subst ph. op_rebuild.
  - case_bool_decide as Hp; [|done]. case_bool_decide; [|done]. simpl.
    destruct (before_ip o) as [addr|] eqn:Hb; [|done]. simpl.
    case_bool_decide; (split; [|done]); revert Hok; op_cases o; subst; op_rebuild.
  - by apply fail_operation_ok.
Qed.

Lemma record_restore_ok m i r : machine_ok m -> machine_ok (record_restore m i r).2.
Proof.
  apply on_operation_ok.
  - intros o Hl. by apply current_operation_Ok in Hl as [? _].
  - intros o _ Hok. case_bool_decide as Hp; [|done]. simpl.
    destruct r; (split; [|done]); revert Hok; op_cases o; subst; op_rebuild.
Qed.

Lemma machine_step_ok m c : call_wf c -> machine_ok m -> machine_ok (step m c).2.
Proof.
  intros Hc Hm. pose proof (fun i => simple_methods_ok m i Hm) as Hs.
  destruct c; simpl in *; try (destruct (Hs i) as (? & ? & ? & ? & ? & ?); done).
  - pose proof (start_ok m before Hc Hm). by destruct (start m before).
  - by apply observe_cellular_ok.
  - by apply observe_root_policy_ok.
  - destruct (Hs i) as (_ & _ & _ & _ & _ & Hf). apply Hf.
  - by apply record_restore_ok.
Qed.

Lemma machine_new_ok : machine_ok new.
Proof. constructor; simpl; [unfold u64_max; lia|done]. Qed.

#[export] Hint Resolve machine_new_ok machine_step_ok : mish.

Lemma machine_reachable_ok m : reachable m -> machine_ok m.
Proof.
  intros (cs & Hcs & ->). apply (run_invariant_guarded _ _ call_wf); eauto with mish.
Qed.

(** ** Order of the phases *)

Definition rank (p : RotationPhase) : Z :=
  match p with
  | Idle => 0 | Preparing => 1 | DataDisabling => 2 | WaitingCellularLoss => 3
  | DataEnabling => 4 | WaitingCellularRecovery | WaitingRootPolicy => 5
  | ProbingPublicIp => 6 | PhaseChanged | PhaseUnchanged | PhaseFailed => 7
  end.

(** How an operation may evolve: forward in [rank], frozen once terminal. *)
Definition forward (o o' : RotationOperation) : Prop :=
  rank (phase o) <= rank (phase o') /\
  (terminal (phase o) = true -> phase o' = phase o).

Lemma maybe_advance_loss_forward o : rank (phase o) <= rank (phase (maybe_advance_loss o)).
Proof.
  unfold maybe_advance_loss. destruct (phase o) eqn:Hp; simpl; rewrite ?Hp; simpl; try lia.
  destruct (cellular_loss_observed o); simpl; rewrite ?Hp; simpl; lia.
Qed.

Lemma maybe_advance_recovery_forward o :
  rank (phase o) <= rank (phase (maybe_advance_recovery o)).
Proof.
  unfold maybe_advance_recovery. destruct (phase o) eqn:Hp; simpl; rewrite ?Hp; simpl; try lia.
  all: destruct (fresh_cellular_generation o); simpl; [|lia].
  all: destruct (root_authorized_generation o <>b? Some z); simpl; lia.
Qed.

Lemma observe_recovery_cellular_phase o g b :
  phase (observe_recovery_cellular o g b) = phase o.
Proof.
  unfold observe_recovery_cellular. destruct b; [done|].
  destruct (fresh_cellular_generation o =b? Some g); simpl;
    by destruct (root_authorized_generation o =b? Some g).
Qed.

Lemma observe_owner_generation_phase o g a o' :
  observe_owner_generation o g = (a, o') ->
  phase o' = phase o /\ operation_snapshot o' = operation_snapshot o.
Proof.
  unfold observe_owner_generation. intros H. destruct (g <? _); [by simplify_eq|].
  destruct (_ <? g); by simplify_eq/=.
Qed.

Definition advances (m m' : RotationStateMachine) : Prop :=
  next_operation_id m <= next_operation_id m' /\
  forall o, current m = Some o -> exists o', current m' = Some o' /\
    (id o < id o' \/ id o = id o' /\ forward o o').

#[export] Instance advances_refl : Reflexive advances.
Proof.
  intros m. split; [lia|]. intros o Ho. exists o. split; [done|]. right.
  unfold forward. auto with lia.
Qed.

#[export] Instance advances_trans : Transitive advances.
Proof.
  intros m1 m2 m3 [Hn1 H1] [Hn2 H2]. split; [lia|]. intros o Ho.
  destruct (H1 o Ho) as (o2 & Ho2 & Hr1). destruct (H2 o2 Ho2) as (o3 & Ho3 & Hr2).
  exists o3. split; [done|].
  destruct Hr1 as [|[Hi1 [Hr1 Ht1]]], Hr2 as [|[Hi2 [Hr2 Ht2]]]; try (left; lia).
  right. split; [lia|]. split; [lia|]. intros Ht. rewrite <- (Ht1 Ht). apply Ht2.
  by rewrite (Ht1 Ht).
Qed.

Lemma on_operation_advances lookup m i body :
  (forall o, lookup m i = Ok o -> current m = Some o) ->
  (forall o, lookup m i = Ok o -> id (body o).2 = id o /\ forward o (body o).2) ->
  advances m (on_operation lookup m i body).2.
Proof.
  intros Hlook Hbody. unfold on_operation. destruct (lookup m i) as [o|] eqn:Hl; [|simpl; reflexivity].
  specialize (Hbody o eq_refl). specialize (Hlook o eq_refl).
  destruct (body o) as [r o']; simpl in *. split; [simpl; lia|].
  intros o1 Ho1. simplify_eq/=. exists o'. split; [done|]. right. destruct Hbody. auto.
Qed.

Lemma on_active_advances m i body :
  (forall o, operation_ok o -> terminal (phase o) = false ->
     id (body o).2 = id o /\ rank (phase o) <= rank (phase (body o).2)) ->
  machine_ok m -> advances m (on_active m i body).2.
Proof.
  intros Hb [_ Hc]. apply on_operation_advances; intros o Hl; apply active_operation_Ok in Hl.
  - by destruct Hl.
  - destruct Hl as (Ho & _ & Ht). destruct (Hc o Ho) as [Hok _].
    destruct (Hb o Hok Ht). split; [done|]. split; [done|]. congruence.
Qed.

Lemma observe_recovery_cellular_id o g b : id (observe_recovery_cellular o g b) = id o.
Proof.
  unfold observe_recovery_cellular. destruct b; [done|].
  destruct (fresh_cellular_generation o =b? Some g); simpl;
    by destruct (root_authorized_generation o =b? Some g).
Qed.

Lemma maybe_advance_id o :
  id (maybe_advance_loss o) = id o /\ id (maybe_advance_recovery o) = id o.
Proof.
  unfold maybe_advance_loss, maybe_advance_recovery. split.
  - by destruct (_ && _).
  - destruct (phase o); try done; destruct (fresh_cellular_generation o); try done;
      by destruct (_ <>b? _).
Qed.

Lemma rank_active p : terminal p = false -> rank p <= 7.
Proof. by destruct p. Qed.

Lemma observation_advances o g (body : answer * RotationOperation) a o' :
  observe_owner_generation o g = (a, o') ->
  (phase o' = phase o -> id body.2 = id o' /\ rank (phase o') <= rank (phase body.2)) ->
  id (if negb a then (Ok (operation_snapshot o'), o') else body).2 = id o /\
  rank (phase o) <=
    rank (phase (if negb a then (Ok (operation_snapshot o'), o') else body).2).
Proof.
  intros Hobs Hb. destruct (observe_owner_generation_phase _ _ _ _ Hobs) as [Hp Hs].
  assert (id o' = id o) as <- by (unfold operation_snapshot in Hs; congruence).
  rewrite <- Hp. destruct a; simpl; [by apply Hb|]. split; [done|lia].
Qed.

Lemma observe_cellular_advances m i g b :
  machine_ok m -> advances m (observe_cellular m i g b).2.
Proof.
  apply on_active_advances. intros o _ Ht.
  destruct (g <=? before_generation o);
    [destruct (phase o) eqn:Hp; simpl; rewrite ?Hp; split; done|].
  destruct (observe_owner_generation o g) as [a o'] eqn:Hobs.
  apply (observation_advances o g _ a o' Hobs). intros Hp.
  destruct (phase o') eqn:Hp'; simpl; rewrite ?Hp'; simpl; try (split; [done|lia]).
  all: rewrite ?(proj1 (maybe_advance_id _)), ?(proj2 (maybe_advance_id _)),
         ?observe_recovery_cellular_id, ?observe_recovery_cellular_phase, ?Hp';
       try (split; [done|simpl; lia]).
  1,2: split; [by destruct b|];
       etrans; [|apply maybe_advance_loss_forward]; destruct b; simpl; by rewrite Hp'.
  all: split; [done|]; etrans; [|apply maybe_advance_recovery_forward];
       by rewrite observe_recovery_cellular_phase, Hp'.
Qed.

Lemma observe_root_policy_advances m i g b :
  machine_ok m -> advances m (observe_root_policy m i g b).2.
Proof.
  apply on_active_advances. intros o _ Ht.
  destruct (g <=? before_generation o);
    [destruct (phase o) eqn:Hp; simpl; rewrite ?Hp; split; done|].
  destruct (observe_owner_generation o g) as [a o'] eqn:Hobs.
  apply (observation_advances o g _ a o' Hobs). intros Hp.
  destruct (phase o') eqn:Hp'; simpl; rewrite ?Hp'; simpl; rewrite ?Hp'; try (split; [done|simpl; lia]).
  all: rewrite (proj2 (maybe_advance_id _)); split; [done|];
       etrans; [|apply maybe_advance_recovery_forward]; simpl; by rewrite Hp'.
Qed.

Lemma simple_methods_advance m i :
  machine_ok m ->
  (forall g a, advances m (record_before_ip m i g a).2) /\
  advances m (data_disable_mutation_started m i).2 /\
  (forall out, advances m (data_disable_effect_completed m i out).2) /\
  (forall out, advances m (data_enable_effect_completed m i out).2) /\
  (forall g a, advances m (record_after_ip m i g a).2) /\
  (forall f, advances m (fail m i f).2).
Proof.
  intros Hm. split_and!; intros; apply on_active_advances; try done; intros o Hok Ht;
    try (split; [done|]; simpl; by apply rank_active).
  - case_bool_decide as Hp; [|done]. case_bool_decide; simpl; rewrite Hp; [|done]. simpl. split; [done|lia].
  - case_bool_decide as Hp; simpl; [|done]. rewrite Hp. done.
  - case_bool_decide as Hp; simpl; [|done]. destruct out; simpl; rewrite ?Hp; [|split; [done|simpl; lia]..].
    rewrite (proj1 (maybe_advance_id _)). split; [done|].
    etrans; [|apply maybe_advance_loss_forward]. simpl. lia.
  - case_bool_decide as Hp; simpl; [|done]. destruct out; simpl; rewrite ?Hp; [|split; [done|simpl; lia]..].
    rewrite (proj2 (maybe_advance_id _)). split; [done|].
    etrans; [|apply maybe_advance_recovery_forward]. simpl. lia.
  - case_bool_decide as Hp; simpl; [|done]. case_bool_decide; [|done]. simpl.
    destruct (before_ip o); [|done]. simpl.
    case_bool_decide; (split; [done|]); rewrite Hp; simpl; lia.
Qed.

Lemma step_advances m c : machine_ok m -> advances m (step m c).2.
Proof.
  intros Hm. pose proof (fun i => simple_methods_advance m i Hm) as Hs.
  destruct c; simpl; try (destruct (Hs i) as (? & ? & ? & ? & ? & ?); done).
  - unfold start. destruct (before =? 0); [simpl; reflexivity|].
    destruct (is_some_and _ _); [simpl; reflexivity|].
    destruct (checked_add _ _ _) eqn:Ha; [|simpl; reflexivity].
    apply checked_add_Some in Ha as [-> _]. split; [simpl; lia|]. simpl. intros o Ho.
    eexists; split; [done|]. left. simpl. by destruct (ok_current m Hm o Ho) as [_ [_ ?]].
  - by apply observe_cellular_advances.
  - by apply observe_root_policy_advances.
  - destruct (Hs i) as (_ & _ & _ & _ & _ & Hf). apply Hf.
  - apply on_operation_advances; intros o Hl; apply current_operation_Ok in Hl as [Ho _]; [done|].
    case_bool_decide as Hp; simpl; [|split; [done|]; split; [lia|done]].
    destruct r; simpl; (split; [done|]); unfold forward; simpl; split; done.
Qed.

(** ** The compensation ledger: an abstract specification

    What the trace of accepted calls says about this operation's own disable
    mutation: it is opened by submitting the mutation, settled by a rejected
    disable, a verified enable or a completed restore. *)

Definition ledger_step (off : bool) (c : call) (r : reply) : bool :=
  match c, r with
  | CStart _, inl (Ok _) => false
  | CDisableStarted _, inr (Ok _) => true
  | CDisableDone _ Rejected, inr (Ok _) => false
  | CDisableDone _ _, inr (Ok _) => true
  | CEnableDone _ Applied, inr (Ok _) => false
  | CRestore _ (NotRequired | AlreadyEnabled | RestoredEnabled), inr (Ok _) => false
  | _, _ => off
  end.

Definition ledger_machine (s : RotationStateMachine * bool) (c : call)
    : reply * (RotationStateMachine * bool) :=
  let '(r, m) := step s.1 c in (r, (m, ledger_step s.2 c r)).

Lemma run_ledger_fst s cs : (run ledger_machine s cs).1 = run step s.1 cs.
Proof.
  revert s. induction cs as [|c cs IH]; intros [m d]; simpl; [done|].
  rewrite IH. unfold ledger_machine. simpl. by destruct (step m c).
Qed.

(** [restore_required] moves with the ledger on one operation. *)
Lemma on_operation_restore lookup m i body (R : bool -> answer -> bool) :
  (forall o, lookup m i = Ok o -> current m = Some o) ->
  (forall e d, R d (Err e) = d) ->
  (forall o, lookup m i = Ok o -> operation_ok o ->
     restore_required (body o).2 = R (restore_required o) (body o).1) ->
  machine_ok m ->
  snap_restore_required (snapshot (on_operation lookup m i body).2) =
    R (snap_restore_required (snapshot m)) (on_operation lookup m i body).1.
Proof.
  intros Hlook HE Hbody Hm. unfold on_operation. destruct (lookup m i) as [o|] eqn:Hl.
  - specialize (Hbody o eq_refl). specialize (Hlook o eq_refl).
    destruct (ok_current m Hm o Hlook) as [Hok _]. specialize (Hbody Hok).
    destruct (body o) as [r o']; simpl in *. unfold snapshot. rewrite Hlook. simpl. done.
  - simpl. by rewrite HE.
Qed.

Lemma on_active_restore m i body (R : bool -> answer -> bool) :
  (forall e d, R d (Err e) = d) ->
  (forall o, operation_ok o -> restore_required (body o).2 = R (restore_required o) (body o).1) ->
  machine_ok m ->
  snap_restore_required (snapshot (on_active m i body).2) =
    R (snap_restore_required (snapshot m)) (on_active m i body).1.
Proof.
  intros HE Hb. apply on_operation_restore; [|done|auto].
  intros o Hl. by apply active_operation_Ok in Hl as (? & _).
Qed.

Lemma advance_restore o :
  restore_required (maybe_advance_loss o) = restore_required o /\
  restore_required (maybe_advance_recovery o) = restore_required o.
Proof.
  unfold maybe_advance_loss, maybe_advance_recovery. split.
  - by destruct (_ && _).
  - destruct (phase o); try done; destruct (fresh_cellular_generation o); try done;
      by destruct (_ <>b? _).
Qed.

Lemma observe_recovery_cellular_restore o g b :
  restore_required (observe_recovery_cellular o g b) = restore_required o.
Proof.
  unfold observe_recovery_cellular. destruct b; [done|].
  destruct (fresh_cellular_generation o =b? Some g); simpl;
    by destruct (root_authorized_generation o =b? Some g).
Qed.

(** Observations never move the duty. *)
Lemma observe_restore m i g b :
  machine_ok m ->
  snap_restore_required (snapshot (observe_cellular m i g b).2) =
    snap_restore_required (snapshot m) /\
  snap_restore_required (snapshot (observe_root_policy m i g b).2) =
    snap_restore_required (snapshot m).
Proof.
  intros Hm. split.
  - refine (on_active_restore m i _ (fun d _ => d) _ _ Hm); [done|]. intros o _.
    destruct (g <=? before_generation o); [by destruct (phase o)|].
    destruct (observe_owner_generation o g) as [a o'] eqn:Hobs.
    apply observe_owner_generation_phase in Hobs as [_ Hs].
    assert (restore_required o = restore_required o') as ->
      by (unfold operation_snapshot in Hs; congruence).
    destruct a; simpl; [|done].
    destruct (phase o'); simpl; try done.
    all: rewrite ?(proj1 (advance_restore _)), ?(proj2 (advance_restore _)),
           ?observe_recovery_cellular_restore; by try destruct b.
  - refine (on_active_restore m i _ (fun d _ => d) _ _ Hm); [done|]. intros o _.
    destruct (g <=? before_generation o); [by destruct (phase o)|].
    destruct (observe_owner_generation o g) as [a o'] eqn:Hobs.
    apply observe_owner_generation_phase in Hobs as [_ Hs].
    assert (restore_required o = restore_required o') as ->
      by (unfold operation_snapshot in Hs; congruence).
    destruct a; simpl; [|done].
    destruct (phase o') eqn:Hp; simpl; rewrite ?Hp; simpl; try done.
    all: by rewrite (proj2 (advance_restore _)).
Qed.

(** One call keeps [restore_required] equal to the ledger. *)
Lemma step_ledger m c :
  machine_ok m ->
  snap_restore_required (snapshot (step m c).2) =
    ledger_step (snap_restore_required (snapshot m)) c (step m c).1.
Proof.
  intros Hm. destruct c; simpl;
    try (destruct (observe_restore m i g admitted Hm) as [-> _]; done);
    try (destruct (observe_restore m i g authorized Hm) as [_ ->]; done).
  - unfold start. destruct (before =? 0); [done|]. destruct (is_some_and _ _); [done|].
    by destruct (checked_add _ _ _).
  - refine (on_active_restore m i _ (fun d _ => d) _ _ Hm); [done|]. intros o _.
    case_bool_decide; [|done]. by case_bool_decide.
  - refine (on_active_restore m i _
      (fun d r => ledger_step d (CDisableStarted i) (inr r)) _ _ Hm); [done|].
    intros o _. by case_bool_decide.
  - refine (on_active_restore m i _
      (fun d r => ledger_step d (CDisableDone i o) (inr r)) _ _ Hm); [by destruct o|].
    intros op _. case_bool_decide; [|by destruct o]. destruct o; simpl; try done.
    by rewrite (proj1 (advance_restore _)).
  - refine (on_active_restore m i _
      (fun d r => ledger_step d (CEnableDone i o) (inr r)) _ _ Hm); [by destruct o|].
    intros op Hok. case_bool_decide as Hp; [|by destruct o].
    pose proof (ok_duty op Hok) as Hd. rewrite Hp in Hd. specialize (Hd true eq_refl).
    destruct o; simpl; try done. by rewrite (proj2 (advance_restore _)).
  - refine (on_active_restore m i _ (fun d _ => d) _ _ Hm); [done|]. intros op Hok.
    case_bool_decide as Hp; [|done]. pose proof (ok_duty op Hok) as Hd. rewrite Hp in Hd.
    specialize (Hd false eq_refl). case_bool_decide; [|done]. simpl.
    by destruct (before_ip op).
  - by refine (on_active_restore m i _ (fun d _ => d) _ _ Hm).
  - by refine (on_active_restore m i _ (fun d _ => d) _ _ Hm).
  - refine (on_operation_restore _ m i _
      (fun d x => ledger_step d (CRestore i r) (inr x)) _ _ _ Hm).
    + intros o Hl. by apply current_operation_Ok in Hl as [? _].
    + by destruct r.
    + intros o _ _. case_bool_decide; [|by destruct r]. by destruct r.
Qed.

(** ** Refused calls *)

Definition quiet (m : RotationStateMachine) (x : answer * RotationStateMachine) : Prop :=
  forall e, x.1 = Err e ->
    snapshot x.2 = snapshot m /\ next_operation_id x.2 = next_operation_id m /\
    (e = StaleOperation -> x.2 = m).

Lemma on_operation_quiet lookup m i body :
  (forall o, lookup m i = Ok o -> current m = Some o) ->
  (forall o e, (body o).1 = Err e ->
     e <> StaleOperation /\ operation_snapshot (body o).2 = operation_snapshot o) ->
  quiet m (on_operation lookup m i body).
Proof.
  intros Hl Hb e. unfold on_operation. destruct (lookup m i) as [o|e'] eqn:Ho; [|done].
  specialize (Hl o eq_refl). pose proof (Hb o e) as Hbo.
  destruct (body o) as [r o']; simpl in *. intros ->. destruct Hbo as [? Hs]; [done|].
  split_and!; [|done|done]. unfold snapshot. simpl. by rewrite Hl.
Qed.

Lemma on_active_quiet m i body :
  (forall o e, (body o).1 = Err e ->
     e <> StaleOperation /\ operation_snapshot (body o).2 = operation_snapshot o) ->
  quiet m (on_active m i body).
Proof.
  apply on_operation_quiet. intros o Hl. by apply active_operation_Ok in Hl as (? & _).
Qed.

Lemma observe_quiet m i g b :
  quiet m (observe_cellular m i g b) /\ quiet m (observe_root_policy m i g b).
Proof.
  split; apply on_active_quiet; intros op e1.
  all: destruct (g <=? before_generation op); [destruct (phase op); by intros [= <-]|].
  all: destruct (observe_owner_generation op g) as [a o'] eqn:Hobs.
  all: apply observe_owner_generation_phase in Hobs as [_ Hs].
  all: destruct a; simpl; [|done]; destruct (phase o'); simpl; intros [= <-]; done.
Qed.

Lemma simple_methods_quiet m i :
  (forall g a, quiet m (record_before_ip m i g a)) /\
  quiet m (data_disable_mutation_started m i) /\
  (forall out, quiet m (data_disable_effect_completed m i out)) /\
  (forall out, quiet m (data_enable_effect_completed m i out)) /\
  (forall g a, quiet m (record_after_ip m i g a)) /\
  (forall f, quiet m (fail m i f)).
Proof.
  split_and!; intros; apply on_active_quiet; intros op e1; simpl; try done.
  - case_bool_decide; [|by intros [= <-]]. simpl. case_bool_decide; by intros [= <-].
  - case_bool_decide; by intros [= <-].
  - case_bool_decide; [|by intros [= <-]]. by destruct out.
  - case_bool_decide; [|by intros [= <-]]. by destruct out.
  - case_bool_decide; [|by intros [= <-]]. simpl. case_bool_decide; [|by intros [= <-]].
    simpl. destruct (before_ip op); by intros [= <-].
Qed.

Lemma record_restore_quiet m i r : quiet m (record_restore m i r).
Proof.
  apply on_operation_quiet.
  - intros o Hl. by apply current_operation_Ok in Hl as [? _].
  - intros o e. case_bool_decide; [|by intros [= <-]]. by destruct r.
Qed.

Lemma start_refused m b e : (start m b).1 = Err e -> (start m b).2 = m.
Proof.
  unfold start. destruct (b =? 0); [done|]. destruct (is_some_and _ _); [done|].
  by destruct (checked_add _ _ _).
Qed.

(** ** Properties *)

(** Every machine reachable through the public methods, with [u64]
    generations, is well formed: the operation number stays in range, the
    phase determines the terminal result, the failure, the recorded addresses
    and generations and the compensation duty, and every accepted generation
    lies strictly after the one the rotation started from. *)
Theorem rotation_reachable_ok m : reachable m -> machine_ok m.
Proof. apply machine_reachable_ok. Qed.

Definition demo_v4 (n : Z) : IpAddr := IpV4 n.

Definition demo_calls : list call :=
  [CStart 10; CBeforeIp 1 10 (demo_v4 1); CDisableStarted 1; CDisableDone 1 Applied;
   CCellular 1 11 false; CEnableDone 1 Applied; CRootPolicy 1 12 true; CCellular 1 12 true;
   CAfterIp 1 12 (demo_v4 2)].

Lemma demo_calls_wf : Forall call_wf demo_calls.
Proof. repeat constructor; simpl; unfold u64_max; lia. Qed.

Lemma demo_reachable : reachable (run step new demo_calls).
Proof. exists demo_calls. split; [apply demo_calls_wf|done]. Qed.

Lemma rotation_reachable_ok_witness : machine_ok (run step new demo_calls).
Proof. apply rotation_reachable_ok. apply demo_reachable. Defined.


Definition demo_final : RotationOperation :=
  Eval vm_compute in default (fresh_operation 0 0) (current (run step new demo_calls)).


(** C19: The compensation duty the snapshot publishes refines the ledger
    specification: after any sequence of calls, [restore_required] is true
    exactly when the accepted calls opened this operation's disable mutation
    and nothing has settled it since (a rejected disable, a verified enable or
    a completed restore).  In particular a failure or deadline in between
    keeps the duty. *)
Theorem restore_duty_refines_ledger cs :
  Forall call_wf cs ->
  snap_restore_required (snapshot (run step new cs)) = (run ledger_machine (new, false) cs).2.
Proof.
  intros Hcs.
  assert (machine_ok (run ledger_machine (new, false) cs).1 /\
          snap_restore_required (snapshot (run ledger_machine (new, false) cs).1) =
            (run ledger_machine (new, false) cs).2) as [_ H].
  { apply (run_invariant_guarded ledger_machine
      (fun s => machine_ok s.1 /\ snap_restore_required (snapshot s.1) = s.2) call_wf); [|done|].
    - intros [m d] c Hc [Hm Hd]. unfold ledger_machine. simpl in *.
      pose proof (machine_step_ok m c Hc Hm). pose proof (step_ledger m c Hm) as Hl.
      destruct (step m c) as [r m']. simpl in *. by rewrite <- Hd.
    - split; [apply machine_new_ok|done]. }
  by rewrite run_ledger_fst in H.
Qed.

Definition demo_failed : list call :=
  [CStart 10; CBeforeIp 1 10 (demo_v4 1); CDisableStarted 1; CDeadline 1].

Lemma restore_duty_refines_ledger_witness :
  snap_restore_required (snapshot (run step new demo_failed)) = true /\
  (run ledger_machine (new, false) demo_failed).2 = true.
Proof.
  split; [|reflexivity].
  rewrite restore_duty_refines_ledger; [reflexivity|].
  repeat constructor; simpl; unfold u64_max; lia.
Defined.

(** Whatever sequence of calls follows, an operation only moves forward
    (the two recovery phases count as one), a terminal phase is final, and the
    operation is only ever replaced by one with a greater number. *)
Theorem rotation_moves_forward m cs :
  reachable m -> Forall call_wf cs -> advances m (run step m cs).
Proof.
  intros Hm%machine_reachable_ok Hcs. revert m Hm. induction Hcs as [|c cs Hc Hcs IH]; intros m Hm; simpl.
  - reflexivity.
  - etransitivity; [by apply step_advances|]. apply IH. by apply machine_step_ok.
Qed.

Lemma rotation_moves_forward_witness :
  advances (run step new (take 4 demo_calls)) (run step (run step new (take 4 demo_calls)) (drop 4 demo_calls)).
Proof.
  apply rotation_moves_forward.
  - exists (take 4 demo_calls). split; [|reflexivity]. apply Forall_take, demo_calls_wf.
  - apply Forall_drop, demo_calls_wf.
Defined.

(** A call that is refused leaves the published snapshot and the operation
    counter as they were, even where the code has already recorded a newer
    owner generation; a call that names another operation, and a refused
    start, change nothing at all. *)
Theorem refused_call_invisible m c :
  (forall e, (step m c).1 = inr (Err e) ->
     snapshot (step m c).2 = snapshot m /\
     next_operation_id (step m c).2 = next_operation_id m /\
     (e = StaleOperation -> (step m c).2 = m)) /\
  (forall e, (step m c).1 = inl (Err e) -> (step m c).2 = m).
Proof.
  split.
  - intros e. assert (forall x, quiet m x -> inr x.1 = inr (A := result RotationStartError Z) (Err e) ->
      snapshot x.2 = snapshot m /\ next_operation_id x.2 = next_operation_id m /\
      (e = StaleOperation -> x.2 = m)) as Hq by (intros x Hx [= He]; by apply Hx).
    pose proof (simple_methods_quiet m) as Hs. pose proof (observe_quiet m) as Ho.
    destruct c; simpl; try (apply Hq; (apply Hs || apply Ho || apply record_restore_quiet)).
    by destruct (start m before).
  - intros e. destruct c; simpl; try done.
    pose proof (start_refused m before e). destruct (start m before); simpl in *. intros [= ->]. auto.
Qed.

Lemma refused_call_invisible_witness :
  snapshot (step (run step new demo_calls) (CCellular 1 13 false)).2 =
    snapshot (run step new demo_calls).
Proof.
  apply (proj1 (refused_call_invisible (run step new demo_calls) (CCellular 1 13 false)) InvalidPhase).
  reflexivity.
Defined.

(** ** The accepted branch of each call, on a live operation *)

Definition live (n : Z) (o : RotationOperation) : RotationStateMachine :=
  {| next_operation_id := n; current := Some o |}.

Section accepted.
Context (n : Z) (o : RotationOperation).

Lemma live_active i body :
  id o = i -> terminal (phase o) = false ->
  (on_active (live n o) i body).2 = live n (body o).2.
Proof.
  intros Hi Ht. unfold on_active, on_operation, active_operation, current_operation. simpl.
  rewrite bool_decide_eq_true_2 by done. simpl. rewrite Ht. by destruct (body o).
Qed.

Lemma live_before_ip i g a :
  id o = i -> phase o = Preparing -> before_generation o = g ->
  (record_before_ip (live n o) i g a).2 =
    live n (set_phase (set_ips o (Some a) (after_ip o)) DataDisabling).
Proof.
  intros Hi Hp Hb. simpl. unfold record_before_ip. rewrite live_active by (rewrite ?Hp; done).
  rewrite !bool_decide_eq_true_2 by done. done.
Qed.

Lemma live_disable_started i :
  id o = i -> phase o = DataDisabling ->
  (data_disable_mutation_started (live n o) i).2 = live n (set_restore_required o true).
Proof.
  intros Hi Hp. simpl. unfold data_disable_mutation_started.
  rewrite live_active by (rewrite ?Hp; done). by rewrite bool_decide_eq_true_2.
Qed.

Lemma live_disable_applied i :
  id o = i -> phase o = DataDisabling ->
  (data_disable_effect_completed (live n o) i Applied).2 =
    live n (maybe_advance_loss (set_phase (set_restore_required o true) WaitingCellularLoss)).
Proof.
  intros Hi Hp. simpl. unfold data_disable_effect_completed.
  rewrite live_active by (rewrite ?Hp; done). by rewrite bool_decide_eq_true_2.
Qed.

Lemma live_enable_applied i :
  id o = i -> phase o = DataEnabling ->
  (data_enable_effect_completed (live n o) i Applied).2 =
    live n (maybe_advance_recovery
              (set_phase (set_restore_required o false) WaitingCellularRecovery)).
Proof.
  intros Hi Hp. simpl. unfold data_enable_effect_completed.
  rewrite live_active by (rewrite ?Hp; done). by rewrite bool_decide_eq_true_2.
Qed.

(** A generation at least as new as everything seen is taken. *)
Lemma observe_owner_generation_taken g :
  latest_owner_generation o <= g ->
  observe_owner_generation o g =
    (true, set_generations o g
      (if is_some_and (fresh_cellular_generation o)
            (fun c => (c <? g) && (latest_owner_generation o <? g))
       then None else fresh_cellular_generation o)
      (if is_some_and (root_authorized_generation o)
            (fun c => (c <? g) && (latest_owner_generation o <? g))
       then None else root_authorized_generation o)).
Proof.
  intros Hg. unfold observe_owner_generation. rewrite (proj2 (Z.ltb_ge _ _)) by lia.
  destruct (Z.ltb_spec (latest_owner_generation o) g).
  - destruct (fresh_cellular_generation o), (root_authorized_generation o); simpl;
      by rewrite ?andb_true_r.
  - assert (g = latest_owner_generation o) as -> by lia. destruct o; simpl.
    destruct fresh_cellular_generation0, root_authorized_generation0; simpl;
      by rewrite ?andb_false_r.
Qed.

Lemma live_loss i g :
  id o = i -> phase o = WaitingCellularLoss -> before_generation o < g ->
  latest_owner_generation o <= g ->
  fresh_cellular_generation o = None -> root_authorized_generation o = None ->
  (observe_cellular (live n o) i g false).2 =
    live n (set_phase (set_cellular_loss_observed (set_generations o g None None) true)
              DataEnabling).
Proof.
  intros Hi Hp Hb Hl Hf Hr. simpl. unfold observe_cellular.
  rewrite live_active by (rewrite ?Hp; done). rewrite (proj2 (Z.leb_gt _ _)) by lia.
  rewrite observe_owner_generation_taken, Hf, Hr by done. simpl. rewrite Hp. simpl.
  unfold maybe_advance_loss. simpl. by rewrite bool_decide_eq_true_2.
Qed.

(** The recovery fact that survives a generation [g]. *)
Definition surviving (f : option Z) (g : Z) : option Z :=
  if is_some_and f (fun c => (c <? g) && (latest_owner_generation o <? g)) then None else f.

Lemma live_cellular i g :
  id o = i -> phase o = WaitingCellularRecovery \/ phase o = WaitingRootPolicy ->
  before_generation o < g -> latest_owner_generation o <= g ->
  (observe_cellular (live n o) i g true).2 =
    live n (maybe_advance_recovery
      (set_generations o g (Some g) (surviving (root_authorized_generation o) g))).
Proof.
  intros Hi Hp Hb Hl. simpl. unfold observe_cellular.
  rewrite live_active by (destruct Hp as [Hp | Hp]; rewrite ?Hp; done).
  rewrite (proj2 (Z.leb_gt _ _)), observe_owner_generation_taken by lia. simpl.
  by destruct Hp as [-> | ->].
Qed.

Lemma live_root i g :
  id o = i -> phase o = WaitingCellularRecovery \/ phase o = WaitingRootPolicy ->
  before_generation o < g -> latest_owner_generation o <= g ->
  (observe_root_policy (live n o) i g true).2 =
    live n (maybe_advance_recovery
      (set_generations o g (surviving (fresh_cellular_generation o) g) (Some g))).
Proof.
  intros Hi Hp Hb Hl. simpl. unfold observe_root_policy.
  rewrite live_active by (destruct Hp as [Hp | Hp]; rewrite ?Hp; done).
  rewrite (proj2 (Z.leb_gt _ _)), observe_owner_generation_taken by lia. simpl.
  by destruct Hp as [Hp | Hp]; rewrite Hp; simpl; rewrite ?Hp.
Qed.

Lemma live_after_ip i g b a :
  id o = i -> phase o = ProbingPublicIp -> after_generation o = Some g -> before_ip o = Some b ->
  let s := snapshot (record_after_ip (live n o) i g a).2 in
  snap_terminal_result s = Some (if b =b? a then Unchanged else Changed) /\
  snap_operation_id s = Some i /\ snap_after_generation s = Some g /\
  snap_restore_required s = false.
Proof.
  intros Hi Hp Hg Hb. simpl. unfold record_after_ip.
  rewrite live_active by (rewrite ?Hp; done). rewrite !bool_decide_eq_true_2 by done. simpl.
  rewrite Hb. simpl. by destruct (bool_decide (b = a)); simpl; rewrite ?Hi, ?Hg.
Qed.
End accepted.

(** Both fresh facts for one generation, in either order, open the probe. *)
Lemma live_recovery n o i g (root_first : bool) :
  id o = i -> phase o = WaitingCellularRecovery -> before_generation o < g ->
  latest_owner_generation o <= g ->
  fresh_cellular_generation o = None -> root_authorized_generation o = None ->
  exists o',
    run step (live n o)
      (if root_first then [CRootPolicy i g true; CCellular i g true]
       else [CCellular i g true; CRootPolicy i g true]) = live n o' /\
    id o' = i /\ phase o' = ProbingPublicIp /\ after_generation o' = Some g /\
    before_ip o' = before_ip o.
Proof.
  intros Hi Hp Hb Hl Hf Hr.
  destruct root_first; cbn [run step lift_reply snd].
  - rewrite live_root, Hf by auto. unfold maybe_advance_recovery at 1. simpl. rewrite Hp. simpl.
    rewrite live_cellular by (auto; simpl; lia). unfold surviving, maybe_advance_recovery. simpl.
    rewrite !Z.ltb_irrefl. simpl. rewrite bool_decide_eq_true_2 by done.
    eexists; split_and!; done.
  - rewrite live_cellular, Hr by auto. unfold maybe_advance_recovery at 1. simpl. rewrite Hp. simpl.
    unfold surviving. simpl.
    rewrite live_root by (auto; simpl; lia). unfold surviving, maybe_advance_recovery. simpl.
    rewrite !Z.ltb_irrefl. simpl. rewrite bool_decide_eq_true_2 by done.
    eexists; split_and!; done.
Qed.

(** The rotation can always complete.  From any machine without a live
    operation (and with numbers left), start, before-address, disable,
    authoritative loss at a newer generation, enable, then the fresh cellular
    and root-policy facts for one generation in either order, and the
    after-address for it, end in CHANGED or UNCHANGED according to the two
    addresses, with no compensation owed. *)
Theorem rotation_completes m b l g (root_first : bool) before after :
  is_some_and (current m) (fun o => negb (terminal (phase o))) = false ->
  next_operation_id m < u64_max ->
  0 < b -> b < l -> l <= g ->
  let i := next_operation_id m in
  let s := snapshot (run step m
    ([CStart b; CBeforeIp i b before; CDisableStarted i; CDisableDone i Applied;
      CCellular i l false; CEnableDone i Applied] ++
     (if root_first then [CRootPolicy i g true; CCellular i g true]
      else [CCellular i g true; CRootPolicy i g true]) ++ [CAfterIp i g after])) in
  snap_terminal_result s = Some (if before =b? after then Unchanged else Changed) /\
  snap_operation_id s = Some i /\ snap_after_generation s = Some g /\
  snap_restore_required s = false.
Proof.
  intros Hidle Hnext Hb Hl Hg i. cbv zeta.
  assert ((step m (CStart b)).2 = live (i + 1) (fresh_operation i b)) as Hstart.
  { unfold step, start. rewrite Hidle, (proj2 (Z.eqb_neq b 0)) by lia. fold i.
    unfold checked_add. by rewrite (proj2 (Z.leb_le (i + 1) u64_max)) by lia. }
  rewrite run_app. cbn [run]. rewrite Hstart. cbn [step lift_reply snd].
  rewrite live_before_ip, live_disable_started, live_disable_applied by done.
  unfold maybe_advance_loss. simpl cellular_loss_observed. rewrite andb_false_r.
  rewrite live_loss by (simpl; done || lia). rewrite live_enable_applied by done.
  unfold maybe_advance_recovery. simpl. rewrite run_app.
  match goal with |- context [live (i + 1) ?o] =>
    destruct (live_recovery (i + 1) o i g root_first) as (o' & Hrun & Hi & Hp & Hag & Hbip);
      [simpl; done || lia..|] end.
  rewrite Hrun. cbn [run step lift_reply snd]. by apply live_after_ip.
Qed.

Lemma rotation_completes_witness :
  snap_terminal_result (snapshot (run step new
    ([CStart 10; CBeforeIp 1 10 (demo_v4 1); CDisableStarted 1; CDisableDone 1 Applied;
      CCellular 1 11 false; CEnableDone 1 Applied] ++
     [CRootPolicy 1 12 true; CCellular 1 12 true] ++ [CAfterIp 1 12 (demo_v4 2)]))) = Some Changed.
Proof.
  apply (rotation_completes new 10 11 12 true (demo_v4 1) (demo_v4 2));
    first [reflexivity | unfold u64_max; simpl; lia].
Defined.
