(* ===== verification/Cellular.v ===== *)
(** * Cellular Egress network admission ([crates/cellular/src/lib.rs])

    The owner of the one fact "which Android network may carry public egress":
    it applies ordered platform observations, admits only validated direct
    cellular networks, and issues authority tokens bound to one exact
    observation. *)

From S2P Require Import Prelude.

(** ** Data *)

(** Opaque non-zero [u64] keys: [NetworkHandle] and [ObservationSequence]. *)
Definition NetworkHandle := Z.
Definition ObservationSequence := Z.

Definition NetworkHandle_new (raw : Z) : option NetworkHandle :=
  if raw =? 0 then None else Some raw.

Definition ObservationSequence_new (raw : Z) : option ObservationSequence :=
  if raw =? 0 then None else Some raw.

Record CellularNetworkAuthority := {
  network : NetworkHandle;
  sequence : ObservationSequence
}.

Definition network_handle (a : CellularNetworkAuthority) := network a.
Definition observation_sequence (a : CellularNetworkAuthority) := sequence a.

Inductive CellularNetworkAuthorityError : Type := NoAdmittedNetwork | NetworkChanged.

Inductive CellularAdmissionReason : Type :=
| NoObservation | NotCellular | MissingInternetCapability | VpnDerivedNetwork
| NotValidated | NetworkLost.

Record NetworkObservation := {
  obs_sequence : ObservationSequence;
  obs_handle : NetworkHandle;
  is_cellular : bool;
  has_internet : bool;
  is_validated : bool;
  is_not_vpn : bool
}.

Definition rejection_reason (o : NetworkObservation) : option CellularAdmissionReason :=
  if negb (is_cellular o) then Some NotCellular
  else if negb (has_internet o) then Some MissingInternetCapability
  else if negb (is_not_vpn o) then Some VpnDerivedNetwork
  else if negb (is_validated o) then Some NotValidated
  else None.

Inductive CellularAdmissionState : Type := Unknown | NotAdmitted | IsAdmitted.

#[export] Instance CellularAdmissionState_eq_dec : EqDecision CellularAdmissionState.
Proof. solve_decision. Defined.

Record CellularAdmissionSnapshot := {
  adm_state : CellularAdmissionState;
  adm_reason : option CellularAdmissionReason;
  admitted_network : option NetworkHandle;
  last_sequence : option ObservationSequence
}.

Inductive ApplyResult : Type :=
| ApplyApplied (s : CellularAdmissionSnapshot)
| IgnoredStale (s : CellularAdmissionSnapshot).

Record CellularEgress := {
  admission : CellularAdmissionSnapshot;
  last_observed_network : option NetworkHandle
}.

(** ** Operations *)

Definition new : CellularEgress := {|
  admission := {| adm_state := Unknown; adm_reason := Some NoObservation;
                  admitted_network := None; last_sequence := None |};
  last_observed_network := None
|}.

Definition is_stale (e : CellularEgress) (s : ObservationSequence) : bool :=
  match last_sequence (admission e) with
  | Some last => s <=? last
  | None => false
  end.

Definition admitted_network_authority (e : CellularEgress)
    : result CellularNetworkAuthorityError CellularNetworkAuthority :=
  if adm_state (admission e) <>b? IsAdmitted then Err NoAdmittedNetwork
  else
    let? n := ok_or (admitted_network (admission e)) NoAdmittedNetwork in
    let? s := ok_or (last_sequence (admission e)) NoAdmittedNetwork in
    Ok {| network := n; sequence := s |}.

Definition validate_network_authority (e : CellularEgress) (a : CellularNetworkAuthority)
    : result CellularNetworkAuthorityError () :=
  let unchanged :=
    (adm_state (admission e) =b? IsAdmitted) &&
    (admitted_network (admission e) =b? Some (network a)) &&
    (last_sequence (admission e) =b? Some (sequence a)) in
  if unchanged then Ok () else Err NetworkChanged.

Definition with_sequence (s : CellularAdmissionSnapshot) (q : ObservationSequence) := {|
  adm_state := adm_state s; adm_reason := adm_reason s;
  admitted_network := admitted_network s; last_sequence := Some q |}.

Definition observe (e : CellularEgress) (o : NetworkObservation) : ApplyResult * CellularEgress :=
  if is_stale e (obs_sequence o) then (IgnoredStale (admission e), e)
  else
    let adm := with_sequence (admission e) (obs_sequence o) in
    let e' :=
      match rejection_reason o with
      | Some reason =>
          let invalidates_current :=
            is_none (admitted_network adm) ||
            (admitted_network adm =b? Some (obs_handle o)) in
          if invalidates_current then
            {| admission := {| adm_state := NotAdmitted; adm_reason := Some reason;
                               admitted_network := None; last_sequence := last_sequence adm |};
               last_observed_network := Some (obs_handle o) |}
          else {| admission := adm; last_observed_network := last_observed_network e |}
      | None =>
          {| admission := {| adm_state := IsAdmitted; adm_reason := None;
                             admitted_network := Some (obs_handle o);
                             last_sequence := last_sequence adm |};
             last_observed_network := Some (obs_handle o) |}
      end in
    (ApplyApplied (admission e'), e').

Definition lost (e : CellularEgress) (s : ObservationSequence) (h : NetworkHandle)
    : ApplyResult * CellularEgress :=
  if is_stale e s then (IgnoredStale (admission e), e)
  else
    let adm := with_sequence (admission e) s in
    let e' :=
      if (admitted_network adm =b? Some h) || (last_observed_network e =b? Some h)
         || (adm_state adm =b? Unknown) then
        {| admission := {| adm_state := NotAdmitted; adm_reason := Some NetworkLost;
                           admitted_network := None; last_sequence := last_sequence adm |};
           last_observed_network :=
             if last_observed_network e =b? Some h then None else last_observed_network e |}
      else {| admission := adm; last_observed_network := last_observed_network e |} in
    (ApplyApplied (admission e'), e').

(** ** Platform events *)

Inductive event : Type :=
| EObserve (o : NetworkObservation)
| ELost (s : ObservationSequence) (h : NetworkHandle).

Definition step (e : CellularEgress) (ev : event) : ApplyResult * CellularEgress :=
  match ev with EObserve o => observe e o | ELost s h => lost e s h end.

Definition event_sequence (ev : event) : ObservationSequence :=
  match ev with EObserve o => obs_sequence o | ELost s _ => s end.

Definition event_handle (ev : event) : NetworkHandle :=
  match ev with EObserve o => obs_handle o | ELost _ h => h end.

(** A validated direct cellular network with Internet capability. *)
Definition admissible (o : NetworkObservation) : Prop :=
  is_cellular o = true /\ has_internet o = true /\ is_validated o = true /\ is_not_vpn o = true.

Lemma rejection_reason_None o : rejection_reason o = None <-> admissible o.
Proof.
  unfold rejection_reason, admissible.
  destruct (is_cellular o), (has_internet o), (is_validated o), (is_not_vpn o); simpl;
    split; try done; by intros (? & ? & ? & ?).
Qed.

(** ** Invariant *)

Record egress_ok (e : CellularEgress) : Prop := {
  egress_admitted : adm_state (admission e) = IsAdmitted <->
    is_some (admitted_network (admission e)) = true;
  egress_reason : adm_reason (admission e) = None <-> adm_state (admission e) = IsAdmitted;
  egress_unknown : adm_state (admission e) = Unknown <-> last_sequence (admission e) = None;
  egress_observed : forall h, admitted_network (admission e) = Some h ->
    last_observed_network e = Some h
}.

Lemma egress_new_ok : egress_ok new.
Proof. constructor; simpl; try done; split; done. Qed.

Lemma egress_observe_ok e o : egress_ok e -> egress_ok (observe e o).2.
Proof.
  intros He. unfold observe. destruct (is_stale e (obs_sequence o)); [done|].
  destruct (rejection_reason o) as [r|]; simpl.
  2: { constructor; simpl; try done; split; done. }
  destruct (is_none _ || _) eqn:Hi; simpl.
  - constructor; simpl; try done; split; done.
  - destruct He as [Ha Hr Hu Hl]. apply orb_false_iff in Hi as [Hn _].
    unfold is_none in Hn. apply negb_false_iff in Hn. apply Ha in Hn.
    constructor; simpl; try done. split; [congruence|done].
Qed.

Lemma lost_ok e s h : egress_ok e -> egress_ok (lost e s h).2.
Proof.
  intros He. unfold lost. destruct (is_stale e s); [done|]. simpl.
  destruct (_ || _ || _) eqn:Hi; simpl.
  - constructor; simpl; try done; split; done.
  - destruct He as [Ha Hr Hu Hl]. apply orb_false_iff in Hi as [_ Hu']. rust_bool.
    constructor; simpl; try done.
Qed.

Lemma egress_step_ok e ev : egress_ok e -> egress_ok (step e ev).2.
Proof. destruct ev; [apply egress_observe_ok|apply lost_ok]. Qed.

#[export] Hint Resolve egress_new_ok egress_step_ok : mish.

(** An applied event moves the sequence to its own; a stale one changes nothing. *)
Lemma step_stale e ev :
  is_stale e (event_sequence ev) = true -> step e ev = (IgnoredStale (admission e), e).
Proof. destruct ev; simpl; unfold observe, lost; by intros ->. Qed.

Lemma step_applied e ev :
  is_stale e (event_sequence ev) = false ->
  last_sequence (admission (step e ev).2) = Some (event_sequence ev).
Proof.
  destruct ev; simpl; unfold observe, lost; intros ->; simpl.
  - destruct (rejection_reason o); [|done]. by destruct (is_none _ || _).
  - by destruct (_ || _ || _).
Qed.

Lemma is_stale_spec e q :
  is_stale e q = true <-> exists l, last_sequence (admission e) = Some l /\ q <= l.
Proof.
  unfold is_stale. destruct (last_sequence (admission e)) as [l|]; split; try done.
  - intros ?%Z.leb_le. eauto.
  - intros (l' & [= <-] & ?). by apply Z.leb_le.
  - by intros (l' & ? & ?).
Qed.

(** Sequences never go back. *)
Definition sequence_le (e e' : CellularEgress) : Prop :=
  forall l, last_sequence (admission e) = Some l ->
    exists l', last_sequence (admission e') = Some l' /\ l <= l'.

#[export] Instance sequence_le_refl : Reflexive sequence_le.
Proof. intros e l Hl. exists l. split; [done|lia]. Qed.

#[export] Instance sequence_le_trans : Transitive sequence_le.
Proof.
  intros e1 e2 e3 H12 H23 l (l2 & H2 & ?)%H12. destruct (H23 _ H2) as (l3 & ? & ?).
  exists l3. split; [done|lia].
Qed.

Lemma step_sequence_le e ev : sequence_le e (step e ev).2.
Proof.
  destruct (is_stale e (event_sequence ev)) eqn:Hs.
  - rewrite step_stale by done. reflexivity.
  - intros l Hl. rewrite step_applied by done. eexists. split; [done|].
    unfold is_stale in Hs. rewrite Hl in Hs. rust_bool. lia.
Qed.

Lemma run_sequence_le e evs : sequence_le e (run step e evs).
Proof.
  apply (run_monotone step (fun _ => True) sequence_le);
    [apply _|apply _|done|intros; apply step_sequence_le|done].
Qed.

(** ** Provenance of the admitted network *)

(** The events that were applied, newest first. *)
Fixpoint applied (e : CellularEgress) (evs log : list event) : list event :=
  match evs with
  | [] => log
  | ev :: evs =>
      applied (step e ev).2 evs
        (if is_stale e (event_sequence ev) then log else ev :: log)
  end.

Definition valid_observation (ev : event) : Prop :=
  match ev with EObserve o => admissible o | ELost _ _ => False end.

(** [h] was observed admissible, and no applied event since concerns [h] or
    observes another admissible network. *)
Definition justified (log : list event) (h : NetworkHandle) : Prop :=
  exists newer o older,
    log = newer ++ EObserve o :: older /\ obs_handle o = h /\ admissible o /\
    Forall (fun ev => event_handle ev <> h /\ ~ valid_observation ev) newer.

Lemma justified_cons ev log h :
  justified log h -> event_handle ev <> h -> ~ valid_observation ev -> justified (ev :: log) h.
Proof.
  intros (newer & o & older & -> & ? & ? & ?) ??. exists (ev :: newer), o, older.
  split_and!; try done. by constructor.
Qed.

Lemma step_justified e ev log :
  egress_ok e ->
  (forall h, admitted_network (admission e) = Some h -> justified log h) ->
  forall h, admitted_network (admission (step e ev).2) = Some h ->
    justified (if is_stale e (event_sequence ev) then log else ev :: log) h.
Proof.
  intros He Hj h. destruct (is_stale e (event_sequence ev)) eqn:Hs.
  { rewrite step_stale by done. apply Hj. }
  destruct ev as [o|s h']; simpl in *.
  - unfold observe. rewrite Hs. destruct (rejection_reason o) eqn:Hr; simpl.
    + destruct (is_none _ || _) eqn:Hi; simpl; [done|]. intros Ha.
      apply orb_false_iff in Hi as [_ Hi]. rust_bool.
      apply justified_cons; simpl; [auto|congruence|].
      intros Hv%rejection_reason_None. congruence.
    + intros [= <-]. exists [], o, log. split_and!; try done.
      by apply rejection_reason_None.
  - unfold lost. rewrite Hs. simpl. destruct (_ || _ || _) eqn:Hi; simpl; [done|]. intros Ha.
    rewrite !orb_false_iff in Hi. destruct Hi as [[Hi _] _]. rust_bool.
    apply justified_cons; simpl; auto. congruence.
Qed.

Lemma run_justified evs : forall e log,
  egress_ok e ->
  (forall h, admitted_network (admission e) = Some h -> justified log h) ->
  forall h, admitted_network (admission (run step e evs)) = Some h ->
    justified (applied e evs log) h.
Proof.
  induction evs as [|ev evs IH]; intros e log He Hj; simpl; [done|].
  apply IH; [by apply egress_step_ok|]. by apply step_justified.
Qed.

(** ** Properties *)

Definition demo_obs (q h : Z) (validated : bool) : NetworkObservation := {|
  obs_sequence := q; obs_handle := h; is_cellular := true; has_internet := true;
  is_validated := validated; is_not_vpn := true |}.

(** Fail-closed admission.  After any sequence of platform events, if a
    network is admitted then an applied event observed exactly that network as
    a validated direct cellular network with Internet, and no event applied
    since then concerned that network or observed another admissible one. *)
Theorem admitted_network_justified evs h :
  admitted_network (admission (run step new evs)) = Some h ->
  justified (applied new evs []) h.
Proof. apply run_justified; [apply egress_new_ok|done]. Qed.

Lemma admitted_network_justified_witness :
  justified (applied new [EObserve (demo_obs 1 11 true); ELost 2 22] []) 11.
Proof. apply admitted_network_justified. reflexivity. Defined.

(** The admission fact is coherent after any sequence of events: a network
    is exposed exactly in the ADMITTED state, a reason exactly outside it, the
    UNKNOWN state lasts exactly until the first applied event, and the
    admitted network is the last one observed. *)
Theorem admission_coherent evs : egress_ok (run step new evs).
Proof. apply run_invariant; eauto with mish. Qed.

(** Currentness of an issued authority is exact.  Whatever events follow,
    the token validates exactly when every one of them was ignored as stale,
    so any applied event (even one that re-observes the same network) revokes
    every authority issued before it. *)
Theorem authority_revoked_by_any_applied_event e a evs :
  admitted_network_authority e = Ok a ->
  validate_network_authority (run step e evs) a = Ok () <->
  Forall (fun ev => is_stale e (event_sequence ev) = true) evs.
Proof.
  intros Ha.
  assert (validate_network_authority e a = Ok () /\
          last_sequence (admission e) = Some (sequence a)) as [Hv Hq].
  { revert Ha. unfold admitted_network_authority, validate_network_authority, result_bind.
    case_bool_decide as Hs; simpl; [|done].
    destruct (admitted_network (admission e)) as [n|]; [|done].
    destruct (last_sequence (admission e)) as [q|]; [|done].
    intros [= <-]. simpl. rewrite !bool_decide_eq_true_2 by done. done. }
  split.
  - induction evs as [|ev evs IH]; simpl; [constructor|]. intros Hval.
    destruct (is_stale e (event_sequence ev)) eqn:Hs.
    + constructor; [done|]. apply IH. by rewrite step_stale in Hval.
    + exfalso. destruct (run_sequence_le (step e ev).2 evs (event_sequence ev))
        as (q & Hq' & Hle); [by apply step_applied|].
      revert Hval. unfold validate_network_authority. rewrite Hq'.
      unfold is_stale in Hs. rewrite Hq in Hs. rust_bool.
      rewrite (bool_decide_eq_false_2 (Some q = Some (sequence a))) by naive_solver lia.
      by rewrite andb_false_r.
  - induction 1 as [|ev evs Hs _ IH]; simpl; [done|]. by rewrite step_stale.
Qed.

Lemma authority_revoked_by_any_applied_event_witness :
  let e := run step new [EObserve (demo_obs 1 11 true)] in
  admitted_network_authority e = Ok {| network := 11; sequence := 1 |} /\
  validate_network_authority (run step e [EObserve (demo_obs 2 11 true)])
    {| network := 11; sequence := 1 |} <> Ok ().
Proof.
  intros e. split; [reflexivity|]. intros H.
  apply (authority_revoked_by_any_applied_event e _ [EObserve (demo_obs 2 11 true)]) in H;
    [|reflexivity].
  apply Forall_inv in H. vm_compute in H. congruence.
Defined.
