(* ===== verification/Readiness.v ===== *)
(** * The readiness projection ([crates/readiness/src/lib.rs])

    A pure projection of five leaf facts and one generation-bound probe
    observation to READY / NOT_READY / DEGRADED / UNKNOWN. *)

From S2P Require Import Prelude.

(** ** Data *)

(** The six [generation_key!] newtypes: a non-zero [u64]. *)
Definition generation_key := Z.

Definition generation_key_new (raw : Z) : option generation_key :=
  if raw =? 0 then None else Some raw.

Inductive Readiness : Type := Ready | NotReady | Degraded | Unknown.

Inductive ProbeOutcome : Type :=
| Succeeded | DnsFailed | TlsFailed | AuthenticationFailed | TransportFailed | Timeout.

#[export] Instance ProbeOutcome_eq_dec : EqDecision ProbeOutcome.
Proof. solve_decision. Defined.

Record ProbeBinding := {
  pb_cellular_owner_generation : generation_key;
  pb_runtime_generation : generation_key;
  pb_proxy_serving_generation : generation_key;
  pb_mesh_admission_epoch : generation_key;
  pb_credential_version : generation_key
}.

#[export] Instance ProbeBinding_eq_dec : EqDecision ProbeBinding.
Proof. unfold EqDecision, Decision. decide equality; apply Z.eq_dec. Defined.

Record EgressProbeObservation := {
  obs_outcome : ProbeOutcome;
  obs_binding : ProbeBinding;
  obs_freshness : generation_key
}.

Record CellularReadinessFact := {
  cf_owner_generation : generation_key;
  cf_admitted : bool;
  cf_root_policy_verified : bool
}.

Record RuntimeReadinessFact := { rf_generation : generation_key }.

Record ProxyReadinessFact := {
  pf_runtime_generation : generation_key;
  pf_serving_generation : option generation_key;
  pf_credential_version : option generation_key;
  pf_healthy : bool
}.

Record CredentialReadinessFact := { cr_version : generation_key; cr_active : bool }.

Record MeshReadinessFact := {
  mf_runtime_generation : generation_key;
  mf_admission_epoch : option generation_key;
  mf_admitted : bool;
  mf_ingress_running : bool
}.

Record ProductReadinessInput := {
  in_cellular : option CellularReadinessFact;
  in_runtime : option RuntimeReadinessFact;
  in_proxy : option ProxyReadinessFact;
  in_credential : option CredentialReadinessFact;
  in_mesh : option MeshReadinessFact;
  in_expected_freshness : option generation_key;
  in_probe : option EgressProbeObservation
}.

Inductive ProbeEligibility : Type :=
| Eligible (b : ProbeBinding)
| EligibilityNotReady
| EligibilityUnknown.

(** ** Operations *)

Definition probe_eligibility (i : ProductReadinessInput) : ProbeEligibility :=
  match in_cellular i, in_runtime i, in_proxy i, in_credential i, in_mesh i with
  | Some cellular, Some runtime, Some proxy, Some credential, Some mesh =>
      if negb (cf_admitted cellular)
         || negb (cf_root_policy_verified cellular)
         || negb (pf_healthy proxy)
         || negb (cr_active credential)
         || negb (mf_admitted mesh) then EligibilityNotReady
      else if (pf_runtime_generation proxy <>b? rf_generation runtime)
              || (mf_runtime_generation mesh <>b? rf_generation runtime) then EligibilityUnknown
      else
        match pf_serving_generation proxy, pf_credential_version proxy, mf_admission_epoch mesh with
        | Some serving, Some proxy_credential_version, Some epoch =>
            if proxy_credential_version <>b? cr_version credential then EligibilityUnknown
            else Eligible {|
              pb_cellular_owner_generation := cf_owner_generation cellular;
              pb_runtime_generation := rf_generation runtime;
              pb_proxy_serving_generation := serving;
              pb_mesh_admission_epoch := epoch;
              pb_credential_version := cr_version credential |}
        | _, _, _ => EligibilityUnknown
        end
  | _, _, _, _, _ => EligibilityUnknown
  end.

Definition project (i : ProductReadinessInput) : Readiness :=
  match probe_eligibility i with
  | EligibilityNotReady => NotReady
  | EligibilityUnknown => Unknown
  | Eligible current_binding =>
      match in_expected_freshness i with
      | None => Unknown
      | Some expected_freshness =>
          match in_probe i with
          | None => Unknown
          | Some probe =>
              if (obs_binding probe <>b? current_binding)
                 || (obs_freshness probe <>b? expected_freshness) then Unknown
              else
                match obs_outcome probe with
                | Succeeded => Ready
                | DnsFailed | TlsFailed | AuthenticationFailed | TransportFailed | Timeout =>
                    Degraded
                end
          end
      end
  end.

(** ** Specification *)

(** The five leaf facts are present, positive and about one runtime
    generation, and bind the probe to [b]. *)
Record coherent (i : ProductReadinessInput) (b : ProbeBinding) : Prop := {
  coh_cellular : in_cellular i = Some {|
    cf_owner_generation := pb_cellular_owner_generation b;
    cf_admitted := true; cf_root_policy_verified := true |};
  coh_runtime : in_runtime i = Some {| rf_generation := pb_runtime_generation b |};
  coh_proxy : in_proxy i = Some {|
    pf_runtime_generation := pb_runtime_generation b;
    pf_serving_generation := Some (pb_proxy_serving_generation b);
    pf_credential_version := Some (pb_credential_version b);
    pf_healthy := true |};
  coh_credential : in_credential i = Some {|
    cr_version := pb_credential_version b; cr_active := true |};
  coh_mesh : exists running, in_mesh i = Some {|
    mf_runtime_generation := pb_runtime_generation b;
    mf_admission_epoch := Some (pb_mesh_admission_epoch b);
    mf_admitted := true; mf_ingress_running := running |}
}.

(** Every leaf fact is present and at least one reports failure. *)
Definition leaf_failure (i : ProductReadinessInput) : Prop :=
  exists c r p k m,
    in_cellular i = Some c /\ in_runtime i = Some r /\ in_proxy i = Some p /\
    in_credential i = Some k /\ in_mesh i = Some m /\
    ~ (cf_admitted c = true /\ cf_root_policy_verified c = true /\ pf_healthy p = true /\
       cr_active k = true /\ mf_admitted m = true).

Lemma probe_eligibility_Eligible i b :
  probe_eligibility i = Eligible b <-> coherent i b.
Proof.
  split.
  - unfold probe_eligibility. intros H. rust_cases in H.
    repeat match goal with
    | c : CellularReadinessFact |- _ => destruct c
    | c : RuntimeReadinessFact |- _ => destruct c
    | c : ProxyReadinessFact |- _ => destruct c
    | c : CredentialReadinessFact |- _ => destruct c
    | c : MeshReadinessFact |- _ => destruct c
    end; simplify_eq/=. constructor; simpl; subst; eauto.
  - intros [Hc Hr Hp Hk [running Hm]]. unfold probe_eligibility.
    rewrite Hc, Hr, Hp, Hk, Hm. simpl. rewrite !bool_decide_eq_true_2 by done. simpl.
    by destruct b.
Qed.

Lemma probe_eligibility_NotReady i :
  probe_eligibility i = EligibilityNotReady <-> leaf_failure i.
Proof.
  unfold probe_eligibility, leaf_failure. split.
  - intros H. rust_cases in H. do 5 eexists. split_and!; try done.
    intros (? & ? & ? & ? & ?). rewrite !orb_true_iff, !negb_true_iff in *. intuition congruence.
  - intros (c & r & p & k & m & -> & -> & -> & -> & -> & Hn).
    destruct (cf_admitted c), (cf_root_policy_verified c), (pf_healthy p), (cr_active k),
      (mf_admitted m); simpl; try done. exfalso. apply Hn. done.
Qed.

(** ** Properties *)

(** READY means exactly this: the cellular, runtime, proxy, credential and
    mesh facts are all present and positive, agree on one runtime generation
    and credential version, and the probe observation succeeded for precisely
    that binding with the expected freshness marker.  No listener-liveness
    fact enters. *)
Theorem project_ready_iff i :
  project i = Ready <->
  exists b f, coherent i b /\ in_expected_freshness i = Some f /\
    in_probe i = Some {| obs_outcome := Succeeded; obs_binding := b; obs_freshness := f |}.
Proof.
  unfold project. split.
  - intros H. destruct (probe_eligibility i) as [b| |] eqn:He; try done.
    apply probe_eligibility_Eligible in He. rust_cases in H.
    destruct (in_probe i) as [[]|]; simplify_eq/=. eauto 6.
  - intros (b & f & Hc & Hf & Hp). apply probe_eligibility_Eligible in Hc.
    rewrite Hc, Hf, Hp. simpl. by rewrite !bool_decide_eq_true_2.
Qed.

(** NOT_READY is reported exactly when every leaf fact is present and at
    least one of them explicitly reports a failure; a missing or incoherent
    fact can only give UNKNOWN. *)
Theorem project_not_ready_iff i : project i = NotReady <-> leaf_failure i.
Proof.
  rewrite <- probe_eligibility_NotReady. unfold project.
  destruct (probe_eligibility i); split; try done. intros H. rust_cases in H.
Qed.
