(* ===== verification/EgressProbe.v ===== *)
(** * The egress-probe use-case ([crates/application/src/lib.rs])

    The coordinator that issues one probe ticket at a time, numbers them with a
    monotone freshness marker, and turns a completion into an observation only
    for the ticket that is still current.  [Duration] and [Instant] are
    nanosecond counts; the two clock readings and the injected probe effect are
    arguments. *)

From S2P Require Import Prelude Readiness.

Definition Duration := Z.
Definition Instant := Z.

Definition from_secs (s : Z) : Duration := s * 1000000000.

Definition DEFAULT_EGRESS_PROBE_BUDGET : Duration := from_secs 20.
Definition DEFAULT_EGRESS_PROBE_REFRESH_DELAY : Duration := from_secs 60.

Inductive EgressProbeError : Type := ZeroBudget | DeadlineOverflow | FreshnessExhausted.

Record ProbeTicket := {
  ticket_binding : ProbeBinding;
  ticket_freshness : generation_key
}.

#[export] Instance ProbeTicket_eq_dec : EqDecision ProbeTicket.
Proof.
  unfold EqDecision, Decision. decide equality; [apply Z.eq_dec|].
  decide equality; apply Z.eq_dec.
Defined.

Record EgressProbeCoordinator := {
  last_freshness : Z;
  current : option ProbeTicket
}.

Definition new : EgressProbeCoordinator := {| last_freshness := 0; current := None |}.

Definition next_freshness (c : EgressProbeCoordinator)
    : result EgressProbeError generation_key * EgressProbeCoordinator :=
  match checked_add u64_max (last_freshness c) 1 with
  | None => (Err FreshnessExhausted, c)
  | Some raw =>
      match generation_key_new raw with
      | None => (Err FreshnessExhausted, c)
      | Some freshness => (Ok freshness, {| last_freshness := raw; current := current c |})
      end
  end.

Definition begin (c : EgressProbeCoordinator) (binding : ProbeBinding)
    : result EgressProbeError ProbeTicket * EgressProbeCoordinator :=
  match next_freshness c with
  | (Err e, c) => (Err e, c)
  | (Ok freshness, c) =>
      let ticket := {| ticket_binding := binding; ticket_freshness := freshness |} in
      (Ok ticket, {| last_freshness := last_freshness c; current := Some ticket |})
  end.

Definition invalidate (c : EgressProbeCoordinator)
    : result EgressProbeError generation_key * EgressProbeCoordinator :=
  match next_freshness c with
  | (Err e, c) => (Err e, c)
  | (Ok freshness, c) => (Ok freshness, {| last_freshness := last_freshness c; current := None |})
  end.

Definition expected_freshness (c : EgressProbeCoordinator) : option generation_key :=
  generation_key_new (last_freshness c).

Definition classify_outcome (reported : ProbeOutcome) (timed_out : bool) : ProbeOutcome :=
  if timed_out then Timeout else reported.

Definition complete_bounded (c : EgressProbeCoordinator) (ticket : ProbeTicket)
    (reported : ProbeOutcome) (elapsed budget : Duration)
    : option EgressProbeObservation * EgressProbeCoordinator :=
  if current c <>b? Some ticket then (None, c)
  else
    (Some {| obs_outcome := classify_outcome reported (budget <=? elapsed);
             obs_binding := ticket_binding ticket;
             obs_freshness := ticket_freshness ticket |},
     {| last_freshness := last_freshness c; current := None |}).

(** [instant_max] is the platform's last representable instant; [started] and
    [finished] are the clock before and after the effect. *)
Definition run_authenticated_egress_probe (instant_max : Instant) (started finished : Instant)
    (binding : ProbeBinding) (freshness : generation_key) (budget : Duration)
    (effect : Instant -> ProbeOutcome) : result EgressProbeError EgressProbeObservation :=
  if budget =? 0 then Err ZeroBudget
  else
    let? deadline := ok_or (checked_add instant_max started budget) DeadlineOverflow in
    let reported := effect deadline in
    (* [Instant::duration_since] saturates at zero *)
    let outcome := classify_outcome reported (budget <=? Z.max 0 (finished - started)) in
    Ok {| obs_outcome := outcome; obs_binding := binding; obs_freshness := freshness |}.

(** ** Calls *)

Inductive call : Type :=
| CBegin (b : ProbeBinding)
| CInvalidate
| CComplete (t : ProbeTicket) (reported : ProbeOutcome) (elapsed budget : Duration).

Inductive reply : Type :=
| RTicket (r : result EgressProbeError ProbeTicket)
| RMarker (r : result EgressProbeError generation_key)
| RObservation (o : option EgressProbeObservation).

Definition step (c : EgressProbeCoordinator) (k : call) : reply * EgressProbeCoordinator :=
  match k with
  | CBegin b => let '(r, c) := begin c b in (RTicket r, c)
  | CInvalidate => let '(r, c) := invalidate c in (RMarker r, c)
  | CComplete t r el bu => let '(o, c) := complete_bounded c t r el bu in (RObservation o, c)
  end.

(** ** Invariant: the current ticket carries the newest marker. *)

Record coordinator_ok (c : EgressProbeCoordinator) : Prop := {
  co_range : is_u64 (last_freshness c);
  co_current : forall t, current c = Some t -> ticket_freshness t = last_freshness c /\
    0 < last_freshness c
}.

Lemma probe_new_ok : coordinator_ok new.
Proof. constructor; simpl; [unfold in_width, u64_max; lia|done]. Qed.

Lemma next_freshness_spec c r c' :
  next_freshness c = (r, c') -> is_u64 (last_freshness c) ->
  match r with
  | Ok f => f = last_freshness c + 1 /\ c' = {| last_freshness := f; current := current c |} /\
            is_u64 f
  | Err e => e = FreshnessExhausted /\ c' = c /\ last_freshness c = u64_max
  end.
Proof.
  unfold next_freshness, generation_key_new, in_width. intros H Hr.
  destruct (checked_add u64_max (last_freshness c) 1) as [raw|] eqn:Ha.
  - apply checked_add_Some in Ha as [-> ?].
    rewrite (proj2 (Z.eqb_neq _ 0)) in H by lia. simplify_eq. split_and!; done || lia.
  - apply checked_add_None in Ha. simplify_eq. split_and!; done || lia.
Qed.

Lemma probe_step_ok c k : coordinator_ok c -> coordinator_ok (step c k).2.
Proof.
  intros [Hr Hc]. destruct k as [b| |t r el bu]; simpl.
  - unfold begin. destruct (next_freshness c) as [x c'] eqn:Hn.
    apply next_freshness_spec in Hn; [|done]. destruct x; simpl.
    + destruct Hn as (-> & -> & Hu). constructor; simpl; [done|].
      intros t [= <-]. simpl. unfold in_width in Hr. lia.
    + destruct Hn as (-> & -> & _). by constructor.
  - unfold invalidate. destruct (next_freshness c) as [x c'] eqn:Hn.
    apply next_freshness_spec in Hn; [|done]. destruct x; simpl.
    + destruct Hn as (-> & -> & Hu). constructor; simpl; done.
    + destruct Hn as (-> & -> & _). by constructor.
  - unfold complete_bounded. destruct (_ <>b? _); simpl; by constructor.
Qed.

#[export] Hint Resolve probe_new_ok probe_step_ok : mish.

(** Markers only grow; while the marker stays put, no new ticket appears. *)
Definition marker_le (c c' : EgressProbeCoordinator) : Prop :=
  last_freshness c <= last_freshness c' /\
  (last_freshness c = last_freshness c' -> current c' = current c \/ current c' = None).

#[export] Instance marker_le_refl : Reflexive marker_le.
Proof. intros c. split; [lia|auto]. Qed.

#[export] Instance marker_le_trans : Transitive marker_le.
Proof.
  intros c1 c2 c3 [? H12] [? H23]. split; [lia|]. intros He.
  destruct H12 as [H12|H12]; [lia|..]; (destruct H23 as [H23|H23]; [lia|..]);
    rewrite H23, ?H12; auto.
Qed.

Lemma step_marker_le c k : coordinator_ok c -> marker_le c (step c k).2.
Proof.
  intros [Hr Hc]. destruct k as [b| |t r el bu]; simpl.
  - unfold begin. destruct (next_freshness c) as [x c'] eqn:Hn.
    apply next_freshness_spec in Hn; [|done]. destruct x; simpl.
    + destruct Hn as (-> & -> & Hu). split; simpl; lia.
    + destruct Hn as (-> & -> & _). reflexivity.
  - unfold invalidate. destruct (next_freshness c) as [x c'] eqn:Hn.
    apply next_freshness_spec in Hn; [|done]. destruct x; simpl.
    + destruct Hn as (-> & -> & Hu). split; simpl; lia.
    + destruct Hn as (-> & -> & _). reflexivity.
  - unfold complete_bounded. destruct (_ <>b? _); simpl; [reflexivity|].
    split; simpl; [lia|auto].
Qed.

Lemma run_marker_le c ks : coordinator_ok c -> marker_le c (run step c ks).
Proof.
  apply run_monotone; [apply _|apply _|intros; by apply probe_step_ok|intros; by apply step_marker_le].
Qed.

(** ** Properties *)

(** A ticket is consumed at most once.  Once a completion has produced an
    observation, no later completion of the same ticket produces another one,
    whatever calls come in between. *)
Theorem ticket_consumed_once c t r el bu o c' ks :
  coordinator_ok c ->
  complete_bounded c t r el bu = (Some o, c') ->
  forall r' el' bu', (complete_bounded (run step c' ks) t r' el' bu').1 = None.
Proof.
  intros Hok. unfold complete_bounded at 1. case_bool_decide as Hcur; simpl; [|done].
  intros [= <- <-] r' el' bu'.
  set (c1 := {| last_freshness := last_freshness c; current := None |}).
  assert (coordinator_ok c1) as Hok1 by (destruct Hok; by constructor).
  destruct (co_current c Hok t Hcur) as [Hf _].
  pose proof (run_marker_le c1 ks Hok1) as [Hle Heq].
  assert (coordinator_ok (run step c1 ks)) as Hok2 by (apply run_invariant; eauto with mish).
  unfold complete_bounded. case_bool_decide as Hcur'; simpl; [|done].
  destruct (co_current _ Hok2 _ Hcur') as [Hf' _]. simpl in Hle, Heq.
  destruct Heq as [Heq|Heq]; [lia|congruence..].
Qed.

Definition demo_binding : ProbeBinding := {|
  pb_cellular_owner_generation := 11; pb_runtime_generation := 21;
  pb_proxy_serving_generation := 31; pb_mesh_admission_epoch := 41;
  pb_credential_version := 51 |}.

Definition demo_ticket : ProbeTicket := {|
  ticket_binding := demo_binding; ticket_freshness := 1 |}.

Lemma ticket_consumed_once_witness :
  (complete_bounded (run step (step (run step new [CBegin demo_binding])
      (CComplete demo_ticket Succeeded 1 2)).2 [CBegin demo_binding])
    demo_ticket Succeeded 1 2).1 = None.
Proof.
  eapply (ticket_consumed_once (run step new [CBegin demo_binding]) demo_ticket Succeeded 1 2).
  - constructor; simpl; [unfold in_width, u64_max; lia|]. intros t [= <-]. simpl. lia.
  - vm_compute. reflexivity.
Defined.

(** A superseded probe can never make the product READY.  Once a probe has
    been started or invalidated after the one an observation belongs to, the
    readiness projection with the coordinator's expected marker is not READY
    on that observation, whatever the other facts are. *)
Theorem superseded_probe_never_ready c t r el bu o c' k x c'' ks i :
  coordinator_ok c ->
  complete_bounded c t r el bu = (Some o, c') ->
  (k = CInvalidate \/ exists b, k = CBegin b) ->
  step c' k = (x, c'') ->
  last_freshness c' < u64_max ->
  in_probe i = Some o ->
  in_expected_freshness i = expected_freshness (run step c'' ks) ->
  project i <> Ready.
Proof.
  intros Hok Hcb Hk Hstep Hmax Hprobe Hexp (b & f & _ & Hf & Hp)%project_ready_iff.
  revert Hcb. unfold complete_bounded. case_bool_decide as Hcur; simpl; [|done].
  intros [= <- <-]. destruct (co_current c Hok t Hcur) as [Hfr Hpos].
  set (c1 := {| last_freshness := last_freshness c; current := None |}) in *.
  assert (coordinator_ok c1) as Hok1 by (destruct Hok; by constructor).
  assert (last_freshness c'' = last_freshness c + 1) as Hlf.
  { destruct Hk as [-> | [b' ->]]; simpl in Hstep; unfold invalidate, begin in Hstep;
      destruct (next_freshness c1) as [y c2] eqn:Hn; apply next_freshness_spec in Hn;
      try apply Hok1; destruct y; destruct Hn as (? & -> & Hu); simplify_eq/=; done || lia. }
  assert (coordinator_ok c'') as Hok2.
  { pose proof (probe_step_ok c1 k Hok1). by rewrite Hstep in *. }
  pose proof (run_marker_le c'' ks Hok2) as [Hle _].
  rewrite Hprobe in Hp. simplify_eq/=. rewrite Hexp in Hf.
  unfold expected_freshness, generation_key_new in Hf. destruct (_ =? 0); simplify_eq. lia.
Qed.

Definition demo_input : ProductReadinessInput := {|
  in_cellular := Some {| cf_owner_generation := 11; cf_admitted := true;
                         cf_root_policy_verified := true |};
  in_runtime := Some {| rf_generation := 21 |};
  in_proxy := Some {| pf_runtime_generation := 21; pf_serving_generation := Some 31;
                      pf_credential_version := Some 51; pf_healthy := true |};
  in_credential := Some {| cr_version := 51; cr_active := true |};
  in_mesh := Some {| mf_runtime_generation := 21; mf_admission_epoch := Some 41;
                     mf_admitted := true; mf_ingress_running := true |};
  in_expected_freshness := Some 2;
  in_probe := Some {| obs_outcome := Succeeded; obs_binding := demo_binding;
                      obs_freshness := 1 |} |}.

Lemma superseded_probe_never_ready_witness : project demo_input <> Ready.
Proof.
  eapply (superseded_probe_never_ready (run step new [CBegin demo_binding]) demo_ticket
           Succeeded 1 2 _ _ CInvalidate _ _ [] demo_input).
  - constructor; simpl; [unfold in_width, u64_max; lia|]. intros t [= <-]. simpl. lia.
  - vm_compute. reflexivity.
  - left. reflexivity.
  - vm_compute. reflexivity.
  - vm_compute. reflexivity.
  - reflexivity.
  - vm_compute. reflexivity.
Defined.
