(* ===== verification/Lifecycle.v ===== *)
(** * Runtime and proxy-serving lifecycles ([crates/runtime/src/lifecycle.rs])

    The owner of the foreground runtime generation (start, stop, queued
    restart, replacement of an unclean generation) and the state machine of
    one in-process Proxy Serving generation. *)

From S2P Require Import Prelude.
From Stdlib Require Import Sorted.

(** ** Runtime lifecycle: data *)

Inductive RuntimeLifecycleState : Type := Stopped | Starting | Running | Stopping.

#[export] Instance RuntimeLifecycleState_eq_dec : EqDecision RuntimeLifecycleState.
Proof. solve_decision. Defined.

Inductive RuntimeStartAction : Type := StartNow | AlreadyActive | QueuedAfterStop.
Inductive RuntimeStopAction : Type := StopNow | AlreadyStopped | AlreadyStopping.

Record RuntimeStartCompletion := { sc_install_fresh_generation_now : bool }.

Record RuntimeCleanupDisposition := {
  install_fresh_generation_now : bool;
  require_fresh_generation_before_next_explicit_start : bool;
  restart_now : bool
}.

Record RuntimeLifecycle := {
  state : RuntimeLifecycleState;
  restart_after_stop : bool;
  generation_requires_replacement : bool;
  generation : Z
}.

Definition new : RuntimeLifecycle := {|
  state := Stopped; restart_after_stop := false;
  generation_requires_replacement := false; generation := 1 |}.

(** Field assignments. *)
Definition set_state (l : RuntimeLifecycle) v := {|
  state := v; restart_after_stop := restart_after_stop l;
  generation_requires_replacement := generation_requires_replacement l;
  generation := generation l |}.

Definition set_restart (l : RuntimeLifecycle) v := {|
  state := state l; restart_after_stop := v;
  generation_requires_replacement := generation_requires_replacement l;
  generation := generation l |}.

Definition set_replacement (l : RuntimeLifecycle) v := {|
  state := state l; restart_after_stop := restart_after_stop l;
  generation_requires_replacement := v; generation := generation l |}.

Definition set_generation (l : RuntimeLifecycle) v := {|
  state := state l; restart_after_stop := restart_after_stop l;
  generation_requires_replacement := generation_requires_replacement l; generation := v |}.

(** ** Runtime lifecycle: operations *)

Definition advance_generation (l : RuntimeLifecycle) : bool * RuntimeLifecycle :=
  match checked_add u64_max (generation l) 1 with
  | None => (false, l)
  | Some next => (true, set_generation l next)
  end.

Definition request_start (l : RuntimeLifecycle) : RuntimeStartAction * RuntimeLifecycle :=
  match state l with
  | Stopped => (StartNow, set_state l Starting)
  | Starting | Running => (AlreadyActive, l)
  | Stopping => (QueuedAfterStop, set_restart l true)
  end.

Definition take_generation_replacement_for_start (l : RuntimeLifecycle)
    : bool * RuntimeLifecycle :=
  if (state l <>b? Starting) || negb (generation_requires_replacement l) then (false, l)
  else
    let '(advanced, l) := advance_generation l in
    if negb advanced then (false, l) else (true, set_replacement l false).

Definition advance_stopped_generation (l : RuntimeLifecycle) : bool * RuntimeLifecycle :=
  if (state l <>b? Stopped) || generation_requires_replacement l then (false, l)
  else advance_generation l.

Definition start_submission_failed (l : RuntimeLifecycle) : RuntimeLifecycle :=
  if state l =b? Starting then set_state l Stopped else l.

Definition complete_start (l : RuntimeLifecycle) (started clean_after_failed_start : bool)
    : RuntimeStartCompletion * RuntimeLifecycle :=
  if state l <>b? Starting then ({| sc_install_fresh_generation_now := false |}, l)
  else if started then ({| sc_install_fresh_generation_now := false |}, set_state l Running)
  else
    let l := set_state l Stopped in
    let '(install, l) := if clean_after_failed_start then advance_generation l else (false, l) in
    ({| sc_install_fresh_generation_now := install |}, set_replacement l (negb install)).

Definition request_stop (l : RuntimeLifecycle) : RuntimeStopAction * RuntimeLifecycle :=
  match state l with
  | Stopped => (AlreadyStopped, l)
  | Stopping => (AlreadyStopping, set_restart l false)
  | Starting | Running => (StopNow, set_state l Stopping)
  end.

Definition stop_submission_failed (l : RuntimeLifecycle) : RuntimeLifecycle :=
  if state l =b? Stopping then set_restart l false else l.

Definition complete_stop (l : RuntimeLifecycle) (clean : bool)
    : RuntimeCleanupDisposition * RuntimeLifecycle :=
  let restart_requested := restart_after_stop l in
  let l := set_state (set_restart l false) Stopped in
  let '(replacement_advanced, l) := if clean then advance_generation l else (false, l) in
  let disposition :=
    if replacement_advanced then
      {| install_fresh_generation_now := true;
         require_fresh_generation_before_next_explicit_start := false;
         restart_now := restart_requested |}
    else
      {| install_fresh_generation_now := false;
         require_fresh_generation_before_next_explicit_start := true;
         restart_now := false |} in
  (disposition,
   set_replacement l (require_fresh_generation_before_next_explicit_start disposition)).

Definition can_mutate_stopped_generation (l : RuntimeLifecycle) : bool :=
  (state l =b? Stopped) && negb (generation_requires_replacement l).

Definition mark_stopped_generation_dirty (l : RuntimeLifecycle) : bool * RuntimeLifecycle :=
  if state l <>b? Stopped then (false, l) else (true, set_replacement l true).

(** ** Proxy-serving lifecycle *)

Inductive ProxyServingState : Type :=
| ServingStopped | ServingStarting | ServingRunning | ServingFailed.

#[export] Instance ProxyServingState_eq_dec : EqDecision ProxyServingState.
Proof. solve_decision. Defined.

Inductive ProxyServingFailure : Type :=
| NativeRuntimeMissing | ExternalCredentialUnavailable | CellularConnectorUnavailable
| ProxyConfigurationRejected | MixedListenerUnavailable | Socks5ListenerUnavailable
| HttpConnectListenerUnavailable | ExecutorUnavailable | RuntimeStateUnavailable
| ServingUnhealthy | ShutdownFailed.

Record ProxyServingSnapshot := {
  serving_state : ProxyServingState;
  serving_failure : option ProxyServingFailure
}.

Definition serving_new : ProxyServingSnapshot :=
  {| serving_state := ServingStopped; serving_failure := None |}.

Definition serving_request_start (s : ProxyServingSnapshot) : bool * ProxyServingSnapshot :=
  match serving_state s with
  | ServingStarting | ServingRunning => (false, s)
  | ServingStopped | ServingFailed =>
      (true, {| serving_state := ServingStarting; serving_failure := None |})
  end.

Definition mark_running (s : ProxyServingSnapshot) : bool * ProxyServingSnapshot :=
  if serving_state s <>b? ServingStarting then (false, s)
  else (true, {| serving_state := ServingRunning; serving_failure := None |}).

Definition mark_failed (s : ProxyServingSnapshot) (f : ProxyServingFailure)
    : ProxyServingSnapshot :=
  {| serving_state := ServingFailed; serving_failure := Some f |}.

Definition mark_stopped (s : ProxyServingSnapshot) : ProxyServingSnapshot :=
  {| serving_state := ServingStopped; serving_failure := None |}.

(** ** Calls on the runtime lifecycle *)

Inductive call : Type :=
| CRequestStart
| CTakeReplacement
| CAdvanceStopped
| CStartSubmissionFailed
| CCompleteStart (started clean : bool)
| CRequestStop
| CStopSubmissionFailed
| CCompleteStop (clean : bool)
| CMarkDirty.

(** The boolean is the announcement that a fresh generation is installed. *)
Definition step (l : RuntimeLifecycle) (c : call) : bool * RuntimeLifecycle :=
  match c with
  | CRequestStart => (false, (request_start l).2)
  | CTakeReplacement => take_generation_replacement_for_start l
  | CAdvanceStopped => advance_stopped_generation l
  | CStartSubmissionFailed => (false, start_submission_failed l)
  | CCompleteStart s c =>
      let '(r, l) := complete_start l s c in (sc_install_fresh_generation_now r, l)
  | CRequestStop => (false, (request_stop l).2)
  | CStopSubmissionFailed => (false, stop_submission_failed l)
  | CCompleteStop c => let '(r, l) := complete_stop l c in (install_fresh_generation_now r, l)
  | CMarkDirty => (false, (mark_stopped_generation_dirty l).2)
  end.

Record lifecycle_ok (l : RuntimeLifecycle) : Prop := {
  lc_range : 1 <= generation l <= u64_max;
  lc_restart : restart_after_stop l = true -> state l = Stopping
}.

Lemma lifecycle_new_ok : lifecycle_ok new.
Proof. constructor; simpl; [unfold u64_max; lia|done]. Qed.

Lemma advance_generation_spec l b l' :
  advance_generation l = (b, l') ->
  (b = true /\ generation l < u64_max /\ l' = set_generation l (generation l + 1)) \/
  (b = false /\ u64_max <= generation l /\ l' = l).
Proof.
  unfold advance_generation. intros H.
  destruct (checked_add u64_max (generation l) 1) eqn:Ha; simplify_eq.
  - apply checked_add_Some in Ha as [-> ?]. left. split_and!; done || lia.
  - apply checked_add_None in Ha. right. split_and!; done || lia.
Qed.

(** What one call does to the generation and to the replacement flag. *)
Lemma step_effect l c b l' :
  step l c = (b, l') ->
  (generation l' = if b then generation l + 1 else generation l) /\
  (b = true -> generation l < u64_max) /\
  (b = false -> generation_requires_replacement l = true ->
     generation_requires_replacement l' = true).
Proof.
  intros H. destruct c; simpl in H.
  - unfold request_start in H. by destruct (state l); simplify_eq/=.
  - unfold take_generation_replacement_for_start in H.
    destruct (_ || _); [by simplify_eq|].
    destruct (advance_generation l) as [a l1] eqn:Ha.
    apply advance_generation_spec in Ha as [(-> & ? & ->)|(-> & ? & ->)]; by simplify_eq/=.
  - unfold advance_stopped_generation in H. destruct (_ || _); [by simplify_eq|].
    apply advance_generation_spec in H as [(-> & ? & ->)|(-> & ? & ->)]; done.
  - unfold start_submission_failed in H. by destruct (_ =b? _); simplify_eq/=.
  - unfold complete_start in H. destruct (_ <>b? _); [by simplify_eq|].
    destruct started; [by simplify_eq|]. destruct clean; [|by simplify_eq/=].
    destruct (advance_generation _) as [a l1] eqn:Ha.
    apply advance_generation_spec in Ha as [(-> & ? & ->)|(-> & ? & ->)]; by simplify_eq/=.
  - unfold request_stop in H. by destruct (state l); simplify_eq/=.
  - unfold stop_submission_failed in H. by destruct (_ =b? _); simplify_eq/=.
  - unfold complete_stop in H. destruct clean; [|by simplify_eq/=].
    destruct (advance_generation _) as [a l1] eqn:Ha.
    apply advance_generation_spec in Ha as [(-> & ? & ->)|(-> & ? & ->)]; by simplify_eq/=.
  - unfold mark_stopped_generation_dirty in H. by destruct (_ <>b? _); simplify_eq/=.
Qed.

Lemma step_restart l c :
  (restart_after_stop l = true -> state l = Stopping) ->
  restart_after_stop (step l c).2 = true -> state (step l c).2 = Stopping.
Proof.
  intros Hr. destruct c; simpl.
  - unfold request_start. destruct (state l) eqn:Hs; simpl; rewrite ?Hs; try done; intros H%Hr; congruence.
  - unfold take_generation_replacement_for_start. destruct (_ || _); [done|].
    destruct (advance_generation l) as [a l1] eqn:Ha.
    by apply advance_generation_spec in Ha as [(-> & ? & ->)|(-> & ? & ->)].
  - unfold advance_stopped_generation. destruct (_ || _); [done|].
    destruct (advance_generation l) as [a l1] eqn:Ha.
    by apply advance_generation_spec in Ha as [(-> & ? & ->)|(-> & ? & ->)].
  - unfold start_submission_failed. case_bool_decide as Hs; [|done]. simpl.
    intros H%Hr. congruence.
  - unfold complete_start. case_bool_decide as Hs; [|done]. simpl.
    assert (restart_after_stop l = true -> False) as Hn by (intros H%Hr; congruence).
    destruct started; [done|]. destruct clean; [|done].
    destruct (advance_generation _) as [a l1] eqn:Ha.
    by apply advance_generation_spec in Ha as [(-> & ? & ->)|(-> & ? & ->)].
  - unfold request_stop. destruct (state l) eqn:Hs; simpl; rewrite ?Hs; try done; intros H%Hr; congruence.
  - unfold stop_submission_failed. case_bool_decide as Hs; done.
  - unfold complete_stop. destruct clean; [|done].
    destruct (advance_generation _) as [a l1] eqn:Ha.
    by apply advance_generation_spec in Ha as [(-> & ? & ->)|(-> & ? & ->)].
  - unfold mark_stopped_generation_dirty. case_bool_decide as Hs; done.
Qed.

Lemma lifecycle_step_ok l c : lifecycle_ok l -> lifecycle_ok (step l c).2.
Proof.
  intros [Hg Hr]. constructor; [|by apply step_restart].
  destruct (step l c) as [b l'] eqn:Hs. apply step_effect in Hs as (Hg' & Hb & _). simpl.
  destruct b; [specialize (Hb eq_refl)|]; lia.
Qed.

#[export] Hint Resolve lifecycle_new_ok lifecycle_step_ok : mish.

(** The generation numbers announced as freshly installed, in order. *)
Fixpoint announced (l : RuntimeLifecycle) (cs : list call) : list Z :=
  match cs with
  | [] => []
  | c :: cs =>
      let '(b, l') := step l c in
      if b then generation l' :: announced l' cs else announced l' cs
  end.

Lemma announced_above l cs :
  Forall (fun g => generation l < g) (announced l cs) /\ StronglySorted Z.lt (announced l cs).
Proof.
  revert l. induction cs as [|c cs IH]; intros l; simpl; [split; constructor|].
  destruct (step l c) as [b l'] eqn:Hs. apply step_effect in Hs as (Hg & _ & _).
  destruct (IH l') as [Ha Hss]. destruct b.
  - split; [|by constructor]. constructor; [lia|].
    eapply Forall_impl; [|exact Ha]. simpl. intros; lia.
  - rewrite <- Hg. by split.
Qed.

(** ** Properties *)

(** Generation numbers are never reused: along any sequence of calls the
    numbers announced as freshly installed are strictly increasing and above
    the current one, the lifecycle stays in range, and a restart is queued
    only while stopping. *)
Theorem generations_strictly_increase cs :
  StronglySorted Z.lt (announced new cs) /\ Forall (fun g => 1 < g) (announced new cs) /\
  lifecycle_ok (run step new cs).
Proof.
  destruct (announced_above new cs) as [Ha Hs]. split_and!; [done|done|].
  apply run_invariant; eauto with mish.
Qed.

(** An unclean generation is never reused.  Once cleanup failed, the flag
    that forces replacement can only be cleared by a call that also moves the
    runtime to a new generation number, whatever the calls in between. *)
Theorem dirty_generation_not_reused l cs :
  generation_requires_replacement l = true ->
  generation (run step l cs) = generation l ->
  generation_requires_replacement (run step l cs) = true.
Proof.
  assert (forall l cs, generation l <= generation (run step l cs)) as Hmono.
  { intros l0 cs0. apply (run_monotone step (fun _ => True)
      (fun a b => generation a <= generation b)); try done.
    - intros a. lia.
    - intros a b c. lia.
    - intros s c _. destruct (step s c) as [b s'] eqn:Hs.
      apply step_effect in Hs as (Hg & _). simpl. destruct b; lia. }
  revert l. induction cs as [|c cs IH]; intros l Hd Hg; simpl in *; [done|].
  destruct (step l c) as [b l'] eqn:Hs. apply step_effect in Hs as (Hg' & _ & Hk). simpl in *.
  pose proof (Hmono l' cs). destruct b; [lia|]. apply IH; [auto|lia].
Qed.

Lemma dirty_generation_not_reused_witness :
  generation_requires_replacement
    (run step (run step new [CRequestStart; CCompleteStart true true; CRequestStop; CCompleteStop false])
       [CRequestStart; CCompleteStart true true]) = true.
Proof. apply dirty_generation_not_reused; reflexivity. Defined.

(** A start or stop request, with whether it asks for a start. *)
Definition is_request (c : call) : bool :=
  match c with CRequestStart | CRequestStop => true | _ => false end.

Definition wants_start (queued : bool) (c : call) : bool :=
  match c with CRequestStart => true | CRequestStop => false | _ => queued end.

(** While the runtime is stopping, the last explicit request wins.  After
    any sequence of start and stop requests, a clean completion restarts the
    runtime exactly when the last request was a start; an unclean completion
    never restarts and marks the generation for replacement. *)
Theorem last_request_wins l cs :
  state l = Stopping -> generation l < u64_max -> forallb is_request cs = true ->
  let l' := run step l cs in
  restart_now (complete_stop l' true).1 = fold_left wants_start cs (restart_after_stop l) /\
  state (complete_stop l' true).2 = Stopped /\
  restart_now (complete_stop l' false).1 = false /\
  generation_requires_replacement (complete_stop l' false).2 = true.
Proof.
  intros Hs Hg Hcs. cbv zeta.
  assert (generation (run step l cs) = generation l /\ state (run step l cs) = Stopping /\
    restart_after_stop (run step l cs) = fold_left wants_start cs (restart_after_stop l))
    as (Hg' & Hs' & Hr').
  { revert l Hs Hg Hcs. induction cs as [|c cs IH]; intros l Hs Hg Hcs; simpl in *; [done|].
    rust_bool. destruct c; try done; simpl.
    all: unfold request_start, request_stop; rewrite Hs; simpl.
    all: match goal with |- context [run step ?x _] => destruct (IH x) as (? & ? & ?) end; done. }
  unfold complete_stop, advance_generation. simpl. unfold checked_add.
  rewrite Hg'. rewrite (proj2 (Z.leb_le _ _)) by lia. simpl. done.
Qed.

Lemma last_request_wins_witness :
  restart_now (complete_stop (run step
    (run step new [CRequestStart; CCompleteStart true true; CRequestStop])
    [CRequestStart; CRequestStop; CRequestStart]) true).1 = true.
Proof.
  apply (last_request_wins
    (run step new [CRequestStart; CCompleteStart true true; CRequestStop])
    [CRequestStart; CRequestStop; CRequestStart]); reflexivity.
Defined.
