(* ===== verification/Transport.v ===== *)
(** * Mesh transport: admitted endpoint, session budget, ingress coordinator

    Models [src/crates/transport/src/lib.rs] and
    [src/crates/transport/src/runtime_owner.rs].

    - the endpoint owner is a state machine over local-address observations;
    - the session owner is shared by concurrent callers: [try_admit] is cut
      into its atomic accesses, so that every interleaving of admissions,
      lease drops and the revocation is a sequence of [session_event]s;
    - the coordinator holds the owners by reference ([Arc]), so the owners of
      all generations live in a store and their callers keep running while the
      coordinator works, in particular during the executor's [stop_ingress].

    The executor is the trait object the runtime supplies; what it answers is
    an argument of each call.  A poisoned mutex is not modelled. *)

From stdpp Require Import relations.
From S2P Require Import Prelude Net.

(** ** The admitted endpoint *)

Definition EXTERNAL_TCP_SESSION_BUDGET : Z := 512.
Definition MAX_MESH_SESSIONS : Z := EXTERNAL_TCP_SESSION_BUDGET.
Definition MIN_ACCEPTED_PREFIX : Z := 8.

Inductive MeshAdmissionState := NotAdmitted | IsAdmitted.
Inductive MeshAdmissionReason := NoObservation | NoAcceptedAddress | MultipleAcceptedAddresses.

#[export] Instance MeshAdmissionState_eq_dec : EqDecision MeshAdmissionState.
Proof. solve_decision. Defined.

Record MeshAdmissionSnapshot := {
  state : MeshAdmissionState;
  reason : option MeshAdmissionReason;
  admitted_endpoint : option Ipv4Addr;
  admission_epoch : option Z;
  last_sequence : option Z }.

Inductive MeshOwnerError :=
| InvalidAcceptedCidr | InvalidObservationSequence | StaleObservation | AdmissionEpochExhausted.

Record Ipv4Cidr := { network : Z; mask : Z }.

Definition cidr_new (net : Ipv4Addr) (prefix : Z) : result MeshOwnerError Ipv4Cidr :=
  if negb ((MIN_ACCEPTED_PREFIX <=? prefix) && (prefix <=? 32)) then Err InvalidAcceptedCidr
  else
    let m := Z.land (Z.shiftl u32_max (32 - prefix)) u32_max in
    if negb (Z.land net m =? net) then Err InvalidAcceptedCidr
    else Ok {| network := net; mask := m |}.

Definition cidr_contains (c : Ipv4Cidr) (address : Ipv4Addr) : bool :=
  negb (ipv4_is_unspecified address)
  && negb (ipv4_is_multicast address)
  && negb (address =? ipv4_broadcast)
  && (Z.land address (mask c) =? network c).

Record MeshEndpointOwner := {
  accepted : Ipv4Cidr;
  snapshot : MeshAdmissionSnapshot;
  next_epoch : Z }.

Definition endpoint_owner_new (net : Ipv4Addr) (prefix : Z) : result MeshOwnerError MeshEndpointOwner :=
  let? c := cidr_new net prefix in
  Ok {| accepted := c;
        snapshot := {| state := NotAdmitted; reason := Some NoObservation;
                       admitted_endpoint := None; admission_epoch := None; last_sequence := None |};
        next_epoch := 0 |}.

(** The distinct accepted addresses: the [BTreeSet] of the source, of which
    only the size and, at size one, the element are used. *)
Definition candidates (o : MeshEndpointOwner) (addresses : list Ipv4Addr) : list Z :=
  remove_dups (List.filter (cidr_contains (accepted o)) addresses).

Definition classify_candidates (cs : list Z)
    : MeshAdmissionState * option MeshAdmissionReason * option Ipv4Addr :=
  match cs with
  | [] => (NotAdmitted, Some NoAcceptedAddress, None)
  | [a] => (IsAdmitted, None, Some a)
  | _ => (NotAdmitted, Some MultipleAcceptedAddresses, None)
  end.

Definition observe_local_ipv4 (o : MeshEndpointOwner) (sequence : Z) (addresses : list Ipv4Addr)
    : result MeshOwnerError MeshAdmissionSnapshot * MeshEndpointOwner :=
  if sequence =? 0 then (Err InvalidObservationSequence, o)
  else if is_some_and (last_sequence (snapshot o)) (fun last => sequence <=? last)
  then (Err StaleObservation, o)
  else
    let '(st, why, endpoint) := classify_candidates (candidates o addresses) in
    let install epoch next :=
      let s := {| state := st; reason := why; admitted_endpoint := endpoint;
                  admission_epoch := epoch; last_sequence := Some sequence |} in
      (Ok s, {| accepted := accepted o; snapshot := s; next_epoch := next |}) in
    match endpoint with
    | None => install None (next_epoch o)
    | Some e =>
        if admitted_endpoint (snapshot o) =b? Some e
        then install (admission_epoch (snapshot o)) (next_epoch o)
        else match checked_add u64_max (next_epoch o) 1 with
             | None => (Err AdmissionEpochExhausted, o)
             | Some n => install (Some n) n
             end
    end.

(** One observation, as a step of the machine. *)
Record observation := { obs_sequence : Z; obs_addresses : list Ipv4Addr }.

Definition owner_step (o : MeshEndpointOwner) (ob : observation) :=
  observe_local_ipv4 o (obs_sequence ob) (obs_addresses ob).

(** *** Well-formedness *)

Record snapshot_ok (s : MeshAdmissionSnapshot) (next : Z) : Prop := {
  so_admitted : state s = IsAdmitted <-> is_Some (admitted_endpoint s);
  so_epoch : is_Some (admitted_endpoint s) <-> is_Some (admission_epoch s);
  so_reason : is_Some (reason s) <-> state s = NotAdmitted;
  so_bound : forall e, admission_epoch s = Some e -> 1 <= e <= next }.

Record owner_ok (o : MeshEndpointOwner) : Prop := {
  oo_next : 0 <= next_epoch o <= u64_max;
  oo_snapshot : snapshot_ok (snapshot o) (next_epoch o);
  oo_endpoint : forall a, admitted_endpoint (snapshot o) = Some a -> cidr_contains (accepted o) a = true }.

Lemma endpoint_owner_new_ok net prefix o : endpoint_owner_new net prefix = Ok o -> owner_ok o.
Proof.
  unfold endpoint_owner_new. destruct (cidr_new net prefix); intros [= <-].
  split; simpl; [unfold u64_max; lia| |done].
  split; simpl; split; try done; intros []; done.
Qed.

Lemma elem_of_candidates o addrs a :
  a ∈ candidates o addrs <-> a ∈ addrs /\ cidr_contains (accepted o) a = true.
Proof.
  unfold candidates. rewrite elem_of_remove_dups, !list_elem_of_In. apply filter_In.
Qed.

Lemma candidates_NoDup o addrs : NoDup (candidates o addrs).
Proof. apply NoDup_remove_dups. Qed.

(** What an accepted observation installs. *)
Lemma observe_effect o sequence addrs r o' :
  owner_ok o -> observe_local_ipv4 o sequence addrs = (r, o') ->
  (exists e, r = Err e /\ o' = o) \/
  (r = Ok (snapshot o') /\ accepted o' = accepted o /\ next_epoch o <= next_epoch o' <= u64_max /\
   last_sequence (snapshot o') = Some sequence /\
   classify_candidates (candidates o addrs) =
     (state (snapshot o'), reason (snapshot o'), admitted_endpoint (snapshot o')) /\
   match admitted_endpoint (snapshot o') with
   | None => admission_epoch (snapshot o') = None
   | Some a =>
       (admitted_endpoint (snapshot o) = Some a /\
        admission_epoch (snapshot o') = admission_epoch (snapshot o)) \/
       (admitted_endpoint (snapshot o) <> Some a /\
        admission_epoch (snapshot o') = Some (next_epoch o') /\ next_epoch o < next_epoch o' <= u64_max)
   end).
Proof.
  intros [Hb _ _]. unfold observe_local_ipv4.
  destruct (sequence =? 0); [intros [= <- <-]; eauto|].
  destruct (is_some_and _ _); [intros [= <- <-]; eauto|].
  destruct (classify_candidates _) as [[st why] endpoint] eqn:Hc.
  destruct endpoint as [a|].
  - case_bool_decide as He.
    + intros [= <- <-]. right. simpl. split_and!; try done; try lia. by left.
    + destruct (checked_add u64_max (next_epoch o) 1) eqn:Ha; intros [= <- <-]; [|eauto].
      apply checked_add_Some in Ha as [-> Hm].
      right; simpl; split_and!; try done; try lia. right; split_and!; try done; lia.
  - intros [= <- <-]. right; simpl; split_and!; try done; lia.
Qed.

Lemma classify_ok cs st why e :
  classify_candidates cs = (st, why, e) ->
  (st = IsAdmitted <-> is_Some e) /\ (is_Some why <-> st = NotAdmitted) /\
  (forall a, e = Some a <-> cs = [a]).
Proof.
  destruct cs as [|x [|y cs]]; intros [= <- <- <-]; (split_and!; [| |intros a]); split;
    try done; try (by intros []); naive_solver.
Qed.

Lemma owner_step_ok o ob : owner_ok o -> owner_ok (owner_step o ob).2.
Proof.
  intros Ho. unfold owner_step.
  destruct (observe_local_ipv4 o _ _) as [r o'] eqn:Hs.
  destruct (observe_effect _ _ _ _ _ Ho Hs) as [(e & -> & ->)|(-> & Hacc & Hn & _ & Hc & He)]; [done|].
  destruct Ho as [Hb [Ha1 Ha2 Ha3 Ha4] Hep]. apply classify_ok in Hc as (Hst & Hwhy & Hone). simpl.
  split; [| split|].
  - lia.
  - done.
  - destruct (admitted_endpoint (snapshot o')) eqn:E; [destruct He as [[H1 H2]|(? & -> & ?)]|].
    + rewrite H2, <- Ha2, H1. done.
    + done.
    + rewrite He. done.
  - done.
  - intros e Hee. destruct (admitted_endpoint (snapshot o')); [|congruence].
    destruct He as [[H1 H2]|(? & H2 & ?)]; [rewrite H2 in Hee; specialize (Ha4 _ Hee); lia|].
    rewrite H2 in Hee. simplify_eq. lia.
  - intros a Ha. apply Hone in Ha. rewrite Hacc.
    apply (elem_of_candidates o (obs_addresses ob)). rewrite Ha. by apply list_elem_of_singleton.
Qed.

#[export] Hint Resolve owner_step_ok : mish.

(** Every owner a deployment can reach. *)
Definition owner_reachable (o : MeshEndpointOwner) : Prop :=
  exists net prefix o0 obs, endpoint_owner_new net prefix = Ok o0 /\ o = run owner_step o0 obs.

Lemma owner_reachable_ok o : owner_reachable o -> owner_ok o.
Proof.
  intros (net & prefix & o0 & obs & Hn & ->). apply run_invariant; eauto using endpoint_owner_new_ok with mish.
Qed.

(** A step keeps the epoch, or moves to one never used, or to none. *)
Lemma step_epoch o ob :
  owner_ok o -> let o' := (owner_step o ob).2 in
  next_epoch o <= next_epoch o' /\ (forall e, admission_epoch (snapshot o') = Some e -> next_epoch o < e \/
     (admission_epoch (snapshot o) = Some e /\
      admitted_endpoint (snapshot o') = admitted_endpoint (snapshot o))).
Proof.
  intros Ho. simpl. unfold owner_step. destruct (observe_local_ipv4 o _ _) as [r o'] eqn:Hs.
  destruct (observe_effect _ _ _ _ _ Ho Hs) as [(e & -> & ->)|(-> & Hacc & Hn & _ & Hc & He)].
  { simpl. split; [lia|]. eauto. }
  simpl. split; [lia|]. intros e Hee.
  destruct (admitted_endpoint (snapshot o')) as [a|]; [|congruence].
  destruct He as [[H1 H2]|(? & H2 & ?)]; [right; rewrite <- H2; split; congruence|].
  left. rewrite H2 in Hee. simplify_eq. lia.
Qed.

Lemma epoch_not_revived o obs e :
  owner_ok o -> admission_epoch (snapshot o) <> Some e -> e <= next_epoch o ->
  admission_epoch (snapshot (run owner_step o obs)) <> Some e.
Proof.
  revert o. induction obs as [|ob obs IH]; intros o Ho He Hn; simpl; [done|].
  destruct (step_epoch o ob Ho) as [Hle Hk]. apply IH; [auto with mish| |lia].
  intros Hc. destruct (Hk _ Hc) as [|[? _]]; [lia|done].
Qed.

(** ** Session budget *)

(** The shared atomics of one Mesh generation, the callers inside
    [try_admit], and the leases handed out and not yet dropped (what the
    [MeshSessionLease] values alive represent). *)
Inductive admit_pc :=
| FirstCheck                    (* accepting.load *)
| LoadActive                    (* active.load *)
| Loop (current : Z)            (* the capacity test and compare_exchange_weak *)
| CountReject                   (* capacity_rejects.fetch_update *)
| SecondCheck                   (* accepting.load after the increment *)
| Undo                          (* active.fetch_sub *)
| Returned (admitted : bool).

#[export] Instance admit_pc_eq_dec : EqDecision admit_pc.
Proof. solve_decision. Defined.

Record MeshSessionOwner := {
  accepting : bool;
  active : Z;
  capacity_rejects : Z;
  callers : list admit_pc;
  leases : Z }.

Definition product_generation : MeshSessionOwner :=
  {| accepting := true; active := 0; capacity_rejects := 0; callers := []; leases := 0 |}.

(** [AtomicUsize::fetch_sub] wraps. *)
Definition fetch_sub1 (x : Z) : Z := (x - 1) mod (usize_max + 1).

Definition set_active (o : MeshSessionOwner) (a : Z) : MeshSessionOwner :=
  {| accepting := accepting o; active := a; capacity_rejects := capacity_rejects o;
     callers := callers o; leases := leases o |}.
Definition set_rejects (o : MeshSessionOwner) (r : Z) : MeshSessionOwner :=
  {| accepting := accepting o; active := active o; capacity_rejects := r;
     callers := callers o; leases := leases o |}.
Definition set_callers (o : MeshSessionOwner) (cs : list admit_pc) : MeshSessionOwner :=
  {| accepting := accepting o; active := active o; capacity_rejects := capacity_rejects o;
     callers := cs; leases := leases o |}.
Definition set_leases (o : MeshSessionOwner) (n : Z) : MeshSessionOwner :=
  {| accepting := accepting o; active := active o; capacity_rejects := capacity_rejects o;
     callers := callers o; leases := n |}.

(** One atomic access of a caller inside [try_admit]; [spurious] makes the weak
    compare-exchange fail although the value matched. *)
Definition try_admit_step (o : MeshSessionOwner) (pc : admit_pc) (spurious : bool)
    : admit_pc * MeshSessionOwner :=
  match pc with
  | FirstCheck => (if accepting o then LoadActive else Returned false, o)
  | LoadActive => (Loop (active o), o)
  | Loop current =>
      if MAX_MESH_SESSIONS <=? current then (CountReject, o)
      else if (active o =? current) && negb spurious
      then (SecondCheck, set_active o (current + 1))
      else (Loop (active o), o)
  | CountReject =>
      (Returned false,
       match checked_add usize_max (capacity_rejects o) 1 with
       | Some r => set_rejects o r
       | None => o
       end)
  | SecondCheck => if accepting o then (Returned true, set_leases o (leases o + 1)) else (Undo, o)
  | Undo => (Returned false, set_active o (fetch_sub1 (active o)))
  | Returned b => (Returned b, o)
  end.

Definition revoke (o : MeshSessionOwner) : MeshSessionOwner :=
  {| accepting := false; active := active o; capacity_rejects := capacity_rejects o;
     callers := callers o; leases := leases o |}.

(** [Drop for MeshSessionLease]: there is a lease to drop. *)
Definition lease_drop (o : MeshSessionOwner) : MeshSessionOwner :=
  if 0 <? leases o
  then set_leases (set_active o (fetch_sub1 (active o))) (leases o - 1)
  else o.

Definition is_accepting (o : MeshSessionOwner) : bool := accepting o.
Definition active_sessions (o : MeshSessionOwner) : Z := active o.
Definition lease_is_current (o : MeshSessionOwner) : bool := is_accepting o.

Inductive session_event :=
| Enter                                   (* a task calls try_admit *)
| Advance (caller : nat) (spurious : bool) (* one atomic access of it *)
| Revoke
| DropLease.

Definition session_step (o : MeshSessionOwner) (e : session_event) : unit * MeshSessionOwner :=
  (tt,
   match e with
   | Enter => set_callers o (callers o ++ [FirstCheck])
   | Advance i spurious =>
       match callers o !! i with
       | None => o
       | Some pc =>
           let '(pc', o') := try_admit_step o pc spurious in
           set_callers o' (<[i := pc']> (callers o'))
       end
   | Revoke => revoke o
   | DropLease => lease_drop o
   end).

(** A caller that has incremented [active] and not yet returned. *)
Definition holds_slot (pc : admit_pc) : bool :=
  match pc with SecondCheck | Undo => true | _ => false end.

Definition slots (pcs : list admit_pc) : Z :=
  fold_right (fun pc n => (if holds_slot pc then 1 else 0) + n) 0 pcs.

Lemma slots_app l1 l2 : slots (l1 ++ l2) = slots l1 + slots l2.
Proof. induction l1 as [|pc l1 IH]; simpl; [done|]. unfold slots in *. rewrite IH. lia. Qed.

Lemma slots_nonneg l : 0 <= slots l.
Proof. induction l as [|pc l IH]; simpl; [done|]. fold (slots l). destruct (holds_slot pc); lia. Qed.

Lemma slots_insert l i pc pc' :
  l !! i = Some pc ->
  slots (<[i := pc']> l) =
  slots l - (if holds_slot pc then 1 else 0) + (if holds_slot pc' then 1 else 0).
Proof.
  intros Hi. rewrite <- (take_drop_middle l i pc Hi) at 2.
  rewrite insert_take_drop by (by eapply lookup_lt_Some).
  rewrite !slots_app. simpl. fold (slots (drop (S i) l)). lia.
Qed.

Record sessions_ok (o : MeshSessionOwner) : Prop := {
  sn_count : active o = leases o + slots (callers o);
  sn_leases : 0 <= leases o;
  sn_budget : active o <= MAX_MESH_SESSIONS;
  sn_rejects : 0 <= capacity_rejects o <= usize_max }.

Lemma fetch_sub1_pos x : 1 <= x <= MAX_MESH_SESSIONS -> fetch_sub1 x = x - 1.
Proof. unfold fetch_sub1, usize_max, u64_max, MAX_MESH_SESSIONS, EXTERNAL_TCP_SESSION_BUDGET. intros. apply Z.mod_small. lia. Qed.

Lemma slots_lookup l i pc : l !! i = Some pc -> (if holds_slot pc then 1 else 0) <= slots l.
Proof.
  intros Hi. rewrite <- (take_drop_middle l i pc Hi). rewrite slots_app. simpl.
  fold (slots (drop (S i) l)). pose proof (slots_nonneg (take i l)). pose proof (slots_nonneg (drop (S i) l)). lia.
Qed.

Lemma product_generation_ok : sessions_ok product_generation.
Proof. by split. Qed.

Lemma session_step_ok o e : sessions_ok o -> sessions_ok (session_step o e).2.
Proof.
  intros [Hc Hl Hb Hr]. destruct e as [|i sp| |]; simpl.
  - split; simpl; rewrite ?slots_app; simpl; lia.
  - destruct (callers o !! i) as [pc|] eqn:Hi; [|by split].
    pose proof (slots_lookup _ _ _ Hi) as Hs. pose proof (slots_nonneg (callers o)).
    destruct pc; simpl in *; unfold set_active, set_leases, set_rejects in *; rust_cases; split; simpl;
      rewrite ?(slots_insert _ _ _ _ Hi); simpl; try rewrite fetch_sub1_pos by lia; try lia.
    all: try (apply checked_add_Some in Heqo0; lia).
  - by split.
  - unfold lease_drop, set_leases, set_active. pose proof (slots_nonneg (callers o)).
    destruct (Z.ltb_spec 0 (leases o)); split; simpl; rewrite ?fetch_sub1_pos by lia; lia.
Qed.

#[export] Hint Resolve product_generation_ok session_step_ok : mish.

(** A caller that runs alone returns within six accesses, granting a lease
    exactly when the generation accepts and has a free slot. *)
Fixpoint solo (n : nat) (o : MeshSessionOwner) (pc : admit_pc) : admit_pc * MeshSessionOwner :=
  match n with
  | O => (pc, o)
  | S n => let '(pc', o') := try_admit_step o pc false in solo n o' pc'
  end.

(** *** Specification: a revocable counted budget *)

Record budget := { open : bool; granted : Z }.

Inductive budget_step : budget -> budget -> Prop :=
| Grant n : n < MAX_MESH_SESSIONS ->
    budget_step {| open := true; granted := n |} {| open := true; granted := n + 1 |}
| Release b n : 0 < n ->
    budget_step {| open := b; granted := n |} {| open := b; granted := n - 1 |}
| Close b n : budget_step {| open := b; granted := n |} {| open := false; granted := n |}.

Definition budget_of (o : MeshSessionOwner) : budget :=
  {| open := accepting o; granted := leases o |}.

(** Every atomic access is a stutter or one step of the budget. *)
Lemma session_step_refines o e :
  sessions_ok o ->
  budget_of (session_step o e).2 = budget_of o \/
  budget_step (budget_of o) (budget_of (session_step o e).2).
Proof.
  intros [Hc Hl Hb Hr]. destruct e as [|i sp| |]; simpl.
  - by left.
  - destruct (callers o !! i) as [pc|] eqn:Hi; [|by left].
    pose proof (slots_lookup _ _ _ Hi) as Hs. unfold budget_of.
    destruct pc; simpl in *; rust_cases; try (left; done).
    + rewrite Heqb. right. constructor. lia.
    + rewrite Heqb. by left.
  - right. constructor.
  - unfold lease_drop. destruct (Z.ltb_spec 0 (leases o)); [|by left].
    right. unfold budget_of. simpl. by constructor.
Qed.

Lemma session_run_refines o es :
  sessions_ok o -> rtc budget_step (budget_of o) (budget_of (run session_step o es)).
Proof.
  revert o. induction es as [|e es IH]; intros o Ho; [done|]. cbn [run].
  pose proof (session_step_ok o e Ho) as Ho'.
  destruct (session_step_refines o e Ho) as [He|He]; [rewrite <- He; auto|].
  eapply rtc_l; eauto.
Qed.

Lemma accepting_antitone o es : accepting o = false -> accepting (run session_step o es) = false.
Proof.
  intros Ho. apply run_invariant; [|done]. intros s [|i sp| |] Hs; simpl; try done.
  - destruct (callers s !! i) as [[]|]; simpl; rust_cases; done.
  - unfold lease_drop. by destruct (_ <? _).
Qed.

Lemma closed_budget_antitone b b' :
  rtc budget_step b b' -> open b = false -> granted b' <= granted b /\ open b' = false.
Proof.
  induction 1 as [|b b1 b' Hs _ IH]; intros Hb; [split; [lia|done]|].
  inversion Hs; subst; simpl in *; try done; destruct IH; simpl in *; try done; split; try lia; done.
Qed.

(** ** Ingress coordinator *)

Inductive MeshVpnObservation := Absent | UniqueVpn (local_ipv4 : list Ipv4Addr) | AmbiguousVpn.

Inductive MeshIngressError :=
| InvalidEndpoint | InvalidPortMapping | BindFailed | ListenerConfigurationFailed
| ExecutorUnavailable | ShutdownTimedOut.

Inductive MeshTransportError :=
| Owner (e : MeshOwnerError) | StateUnavailable | IngressUnavailable
| Ingress (e : MeshIngressError) | CleanupFailed.

Record MeshPortForward := { ingress_port : Z; backend_port : Z }.
Definition port_forward_same (port : Z) : MeshPortForward :=
  {| ingress_port := port; backend_port := port |}.

Record MeshTransportSnapshot := {
  ts_admission : MeshAdmissionSnapshot;
  ts_ingress_running : bool;
  ts_active_sessions : Z;
  ts_capacity_rejects : Z }.

(** An executor is a trait object: its identity. *)
Definition executor_id := Z.

Record MeshTransportState := {
  owner : MeshEndpointOwner;
  executor : option executor_id;
  sessions : option nat;          (* which owner of the store *)
  ingress_epoch : option Z;
  cleanup_failed : bool }.

(** The session owner a start created, and whether that start succeeded.  An
    owner whose start the executor refused is dropped by the coordinator. *)
Record generation := { gen_owner : MeshSessionOwner; gen_started : bool }.

Record world := { coordinator : MeshTransportState; store : list generation }.

Definition coordinator_new (net : Ipv4Addr) (prefix : Z) : result MeshOwnerError world :=
  let? o := endpoint_owner_new net prefix in
  Ok {| coordinator := {| owner := o; executor := None; sessions := None;
                          ingress_epoch := None; cleanup_failed := false |};
        store := [] |}.

(** A session event on the owner [i] of the store. *)
Definition on_generation (i : nat) (f : MeshSessionOwner -> MeshSessionOwner) (w : list generation) :=
  alter (fun g => {| gen_owner := f (gen_owner g); gen_started := gen_started g |}) i w.

Definition sessions_event (w : list generation) (ie : nat * session_event) : unit * list generation :=
  (tt, on_generation ie.1 (fun o => (session_step o ie.2).2) w).

Definition lookup_owner (w : list generation) (i : option nat) : option MeshSessionOwner :=
  match i with
  | None => None
  | Some i => gen_owner <$> w !! i
  end.

(** What the executor does when asked to stop: its answer, and the accesses
    the session tasks make before it answers. *)
Record stop_effect := {
  stop_result : result MeshIngressError unit;
  stop_events : list (nat * session_event) }.

(** The executor's stop, if there is one. *)
Definition stop_executor (ex : option executor_id) (fx : stop_effect) (w : list generation)
    : result MeshIngressError unit * list generation :=
  match ex with
  | None => (Ok tt, w)
  | Some _ => (stop_result fx, run sessions_event w (stop_events fx))
  end.

Definition revoke_current (i : option nat) (w : list generation) : list generation :=
  match i with
  | Some i => on_generation i revoke w
  | None => w
  end.

Definition stop_ingress_locked (w : world) (fx : stop_effect)
    : result MeshTransportError unit * world :=
  let st := coordinator w in
  let '(execution_result, store2) :=
    stop_executor (executor st) fx (revoke_current (sessions st) (store w)) in
  let active_now :=
    match lookup_owner store2 (sessions st) with
    | None => 0
    | Some o => active_sessions o
    end in
  if negb (is_ok execution_result) || negb (active_now =? 0)
  then (Err CleanupFailed,
        {| coordinator := {| owner := owner st; executor := None; sessions := sessions st;
                             ingress_epoch := None; cleanup_failed := true |};
           store := store2 |})
  else
    (if cleanup_failed st then Err CleanupFailed else Ok tt,
     {| coordinator := {| owner := owner st; executor := None; sessions := None;
                          ingress_epoch := None; cleanup_failed := cleanup_failed st |};
        store := store2 |}).

Definition snapshot_locked (w : world) (healthy : bool) : MeshTransportSnapshot :=
  let st := coordinator w in
  {| ts_admission := snapshot (owner st);
     ts_ingress_running := negb (cleanup_failed st) && is_some_and (executor st) (fun _ => healthy);
     ts_active_sessions :=
       match lookup_owner (store w) (sessions st) with Some o => active_sessions o | None => 0 end;
     ts_capacity_rejects :=
       match lookup_owner (store w) (sessions st) with Some o => capacity_rejects o | None => 0 end |}.

Definition set_owner (w : world) (o : MeshEndpointOwner) : world :=
  let st := coordinator w in
  {| coordinator := {| owner := o; executor := executor st; sessions := sessions st;
                       ingress_epoch := ingress_epoch st; cleanup_failed := cleanup_failed st |};
     store := store w |}.

Definition observe_vpn (w : world) (sequence : Z) (ob : MeshVpnObservation)
    (healthy : bool) (fx : stop_effect) : result MeshTransportError MeshTransportSnapshot * world :=
  let addresses := match ob with Absent | AmbiguousVpn => [] | UniqueVpn l => l end in
  match observe_local_ipv4 (owner (coordinator w)) sequence addresses with
  | (Err e, o) => (Err (Owner e), set_owner w o)
  | (Ok admission, o) =>
      let w1 := set_owner w o in
      if is_some (ingress_epoch (coordinator w1)) &&
         (ingress_epoch (coordinator w1) <>b? admission_epoch admission)
      then match stop_ingress_locked w1 fx with
           | (Err e, w2) => (Err e, w2)
           | (Ok _, w2) => (Ok (snapshot_locked w2 healthy), w2)
           end
      else (Ok (snapshot_locked w1 healthy), w1)
  end.

(** The new generation: a fresh session owner shared with the executor. *)
Definition start_generation (w : world) (epoch : Z) (ex : executor_id)
    (started : result MeshIngressError unit) : result MeshTransportError bool * world :=
  match admitted_endpoint (snapshot (owner (coordinator w))) with
  | None => (Err IngressUnavailable, w)
  | Some _ =>
      let fresh := length (store w) in
      let store' := store w ++ [{| gen_owner := product_generation; gen_started := is_ok started |}] in
      match started with
      | Err e => (Err (Ingress e), {| coordinator := coordinator w; store := store' |})
      | Ok _ =>
          (Ok true,
           {| coordinator := {| owner := owner (coordinator w); executor := Some ex;
                                sessions := Some fresh; ingress_epoch := Some epoch;
                                cleanup_failed := cleanup_failed (coordinator w) |};
              store := store' |})
      end
  end.

Definition start_ingress (w : world) (epoch : Z) (ex : executor_id) (healthy : bool)
    (fx : stop_effect) (started : result MeshIngressError unit)
    : result MeshTransportError bool * world :=
  let st := coordinator w in
  if cleanup_failed st then (Err CleanupFailed, w)
  else
    let admission := snapshot (owner st) in
    if (state admission <>b? IsAdmitted) || (admission_epoch admission <>b? Some epoch)
    then (Ok false, w)
    else
      if ingress_epoch st =b? Some epoch then
        if is_some_and (executor st) (fun _ => healthy) then (Ok true, w)
        else match stop_ingress_locked w fx with
             | (Err e, w1) => (Err e, w1)
             | (Ok _, w1) => start_generation w1 epoch ex started
             end
      else if is_some (executor st) || is_some (sessions st) then
        match stop_ingress_locked w fx with
        | (Err e, w1) => (Err e, w1)
        | (Ok _, w1) => start_generation w1 epoch ex started
        end
      else start_generation w epoch ex started.

Definition stop_ingress (w : world) (fx : stop_effect) := stop_ingress_locked w fx.

Definition ingress_healthy (w : world) (healthy : bool) : bool :=
  ts_ingress_running (snapshot_locked w healthy).

(** Calls of the coordinator, and session tasks running between them. *)
Inductive event :=
| ObserveVpn (sequence : Z) (ob : MeshVpnObservation) (healthy : bool) (fx : stop_effect)
| StartIngress (epoch : Z) (ex : executor_id) (healthy : bool) (fx : stop_effect)
    (started : result MeshIngressError unit)
| StopIngress (fx : stop_effect)
| Session (i : nat) (e : session_event).

Definition step (w : world) (e : event) : unit * world :=
  (tt,
   match e with
   | ObserveVpn s ob h fx => (observe_vpn w s ob h fx).2
   | StartIngress ep ex h fx st => (start_ingress w ep ex h fx st).2
   | StopIngress fx => (stop_ingress w fx).2
   | Session i e => {| coordinator := coordinator w; store := (sessions_event (store w) (i, e)).2 |}
   end).

(** *** Invariant *)

(** Whether generation [i] is the one being served. *)
Definition serving (st : MeshTransportState) (i : nat) : Prop :=
  is_Some (ingress_epoch st) /\ sessions st = Some i.

Record world_ok (w : world) : Prop := {
  wo_owner : owner_ok (owner (coordinator w));
  wo_store : Forall (fun g => sessions_ok (gen_owner g)) (store w);
  wo_epoch : forall e, ingress_epoch (coordinator w) = Some e ->
    admission_epoch (snapshot (owner (coordinator w))) = Some e /\
    is_Some (executor (coordinator w)) /\ is_Some (sessions (coordinator w));
  wo_executor : is_Some (executor (coordinator w)) -> is_Some (ingress_epoch (coordinator w));
  wo_failed : cleanup_failed (coordinator w) = true -> ingress_epoch (coordinator w) = None;
  wo_idle : cleanup_failed (coordinator w) = false -> ingress_epoch (coordinator w) = None ->
    sessions (coordinator w) = None;
  wo_bound : forall i, sessions (coordinator w) = Some i -> (i < length (store w))%nat;
  wo_revoked : forall i g, store w !! i = Some g -> gen_started g = true ->
    ~ serving (coordinator w) i -> accepting (gen_owner g) = false }.

(** The store under the session tasks: sizes and start flags stay, no owner
    starts accepting, every owner stays well-formed. *)
Definition store_evolves (w w' : list generation) : Prop :=
  length w' = length w /\
  (Forall (fun g => sessions_ok (gen_owner g)) w -> Forall (fun g => sessions_ok (gen_owner g)) w') /\
  (forall i g', w' !! i = Some g' -> exists g, w !! i = Some g /\ gen_started g' = gen_started g /\
     (accepting (gen_owner g) = false -> accepting (gen_owner g') = false)).

#[export] Instance store_evolves_refl : Reflexive store_evolves.
Proof. intros w. split_and!; [done|done|]. eauto. Qed.

#[export] Instance store_evolves_trans : Transitive store_evolves.
Proof.
  intros a b c (L1 & O1 & E1) (L2 & O2 & E2). split_and!; [congruence|auto|].
  intros i g Hg. destruct (E2 i g Hg) as (g' & Hg' & S2 & A2).
  destruct (E1 i g' Hg') as (g'' & Hg'' & S1 & A1). exists g''. split_and!; [done|congruence|auto].
Qed.

Lemma on_generation_evolves i f w :
  (forall o, sessions_ok o -> sessions_ok (f o)) ->
  (forall o, accepting o = false -> accepting (f o) = false) ->
  store_evolves w (on_generation i f w).
Proof.
  intros Hf Ha. unfold on_generation. split_and!.
  - apply length_alter.
  - intros Hw. apply Forall_alter; [done|]. simpl. auto.
  - intros j g Hj. destruct (decide (i = j)) as [->|Hne].
    + rewrite list_lookup_alter_eq in Hj. destruct (w !! j) as [g0|]; simplify_eq/=. eauto.
    + rewrite list_lookup_alter_ne in Hj by done. eauto.
Qed.

Lemma sessions_event_evolves w ie : store_evolves w (sessions_event w ie).2.
Proof.
  apply on_generation_evolves; [auto with mish|].
  intros o Ho. exact (accepting_antitone o [ie.2] Ho).
Qed.

Lemma sessions_run_evolves w es : store_evolves w (run sessions_event w es).
Proof.
  revert w. induction es as [|e es IH]; intros w; [reflexivity|]. cbn [run].
  etransitivity; [apply sessions_event_evolves|apply IH].
Qed.

Lemma revoke_evolves i w : store_evolves w (on_generation i revoke w).
Proof. apply on_generation_evolves; [|done]. intros o [? ? ? ?]. by split. Qed.

Lemma stop_executor_evolves ex fx w : store_evolves w (stop_executor ex fx w).2.
Proof. destruct ex; simpl; [apply sessions_run_evolves|reflexivity]. Qed.

Lemma revoke_current_evolves i w : store_evolves w (revoke_current i w).
Proof. destruct i; simpl; [apply revoke_evolves|reflexivity]. Qed.

(** No started generation of the store accepts. *)
Definition all_revoked (w : list generation) : Prop :=
  forall i g, w !! i = Some g -> gen_started g = true -> accepting (gen_owner g) = false.

Lemma all_revoked_evolves w w' : store_evolves w w' -> all_revoked w -> all_revoked w'.
Proof.
  intros (_ & _ & Hk) Hall i g Hg Hst. destruct (Hk i g Hg) as (g0 & Hg0 & Hs0 & Ha0).
  apply Ha0, (Hall i); [done|congruence].
Qed.

Lemma revoke_current_all w :
  world_ok w -> all_revoked (revoke_current (sessions (coordinator w)) (store w)).
Proof.
  intros Hw i g Hg Hst.
  destruct (revoke_current_evolves (sessions (coordinator w)) (store w)) as (_ & _ & Hk).
  destruct (Hk i g Hg) as (g0 & Hg0 & Hs0 & Ha0).
  destruct (decide (sessions (coordinator w) = Some i)) as [Hc|Hc].
  - unfold revoke_current in Hg. rewrite Hc in Hg. unfold on_generation in Hg.
    rewrite list_lookup_alter_eq, Hg0 in Hg. by simplify_eq/=.
  - apply Ha0. apply (wo_revoked _ Hw i g0); [done|congruence|]. by intros [_ ?].
Qed.

(** What stopping leaves: nothing serves, whatever the executor answered. *)
Lemma stop_ingress_locked_effect w fx r w' :
  world_ok w -> stop_ingress_locked w fx = (r, w') ->
  world_ok w' /\ owner (coordinator w') = owner (coordinator w) /\
  ingress_epoch (coordinator w') = None /\
  (r = Ok tt <-> cleanup_failed (coordinator w') = false) /\
  (cleanup_failed (coordinator w) = true -> cleanup_failed (coordinator w') = true).
Proof.
  intros Hw Hstop. unfold stop_ingress_locked in Hstop.
  pose proof (revoke_current_all w Hw) as Hall.
  pose proof (revoke_current_evolves (sessions (coordinator w)) (store w)) as Hev1.
  pose proof (stop_executor_evolves (executor (coordinator w)) fx
    (revoke_current (sessions (coordinator w)) (store w))) as Hev2.
  destruct (stop_executor _ _ _) as [x store2]. simpl in Hev2.
  pose proof (all_revoked_evolves _ _ Hev2 Hall) as Hall2.
  assert (store_evolves (store w) store2) as (Hlen & Hok & _) by (by etransitivity).
  destruct Hw as [Ho Hs He Hx Hf Hi Hb Hr].
  destruct (_ || _) eqn:Hfail; simplify_eq/=.
  - split; [|by split_and!].
    split; simpl; try done; [auto|by intros j Hj; rewrite Hlen; apply Hb|eauto].
  - split; [|split_and!; try done; by destruct (cleanup_failed _)].
    split; simpl; try done; [auto|eauto].
Qed.

Lemma start_generation_ok w epoch ex started :
  world_ok w -> ingress_epoch (coordinator w) = None -> cleanup_failed (coordinator w) = false ->
  admission_epoch (snapshot (owner (coordinator w))) = Some epoch ->
  world_ok (start_generation w epoch ex started).2.
Proof.
  intros [Ho Hs He Hx Hf Hi Hb Hr] Hn Hc Hep. specialize (Hi Hc Hn). unfold start_generation.
  destruct (admitted_endpoint _) as [a|]; [|by split].
  assert (Forall (fun g => sessions_ok (gen_owner g))
    (store w ++ [{| gen_owner := product_generation; gen_started := is_ok started |}])).
  { apply Forall_app; split; [done|]. constructor; [apply product_generation_ok|done]. }
  assert (forall i g, (store w ++ [{| gen_owner := product_generation; gen_started := is_ok started |}]) !! i = Some g ->
    (i <> length (store w) /\ store w !! i = Some g) \/ (i = length (store w) /\ gen_started g = is_ok started)) as Hl.
  { intros i g Hg. apply lookup_app_Some in Hg as [Hg|[Hg1 Hg2]].
    - left. split; [|done]. apply lookup_lt_Some in Hg. lia.
    - right. destruct (i - length (store w))%nat eqn:Hm; [|by destruct n].
      simpl in Hg2. simplify_eq/=. split; [lia|done]. }
  destruct started as [u|x]; split; simpl; try done.
  - intros e [= <-]. done.
  - by rewrite Hc.
  - intros i [= <-]. rewrite length_app. simpl. lia.
  - intros i g Hg Hst Hns. destruct (Hl i g Hg) as [[Hne Hg']|[-> _]].
    + apply (Hr i); [done|done|]. intros [[? ?] ?]. congruence.
    + exfalso. apply Hns. by split.
  - intros i Hsi. congruence.
  - intros i g Hg Hst Hns. destruct (Hl i g Hg) as [[Hne Hg']|[-> Hff]]; [by apply (Hr i)|].
    by rewrite Hff in Hst.
Qed.

Lemma set_owner_ok w o :
  world_ok w -> owner_ok o ->
  (ingress_epoch (coordinator w) = None \/
   ingress_epoch (coordinator w) = admission_epoch (snapshot o)) ->
  world_ok (set_owner w o).
Proof.
  intros [Ho Hs He Hx Hf Hi Hb Hr] Hoo Hep. split; simpl; try done.
  intros e Hee. destruct (He e Hee) as (_ & ? & ?). split_and!; try done.
  destruct Hep; congruence.
Qed.

(** The coordinator between the observation and the stop it triggers. *)
Lemma stop_after_observe w o fx :
  world_ok w -> owner_ok o ->
  stop_ingress_locked (set_owner w o) fx =
  ((stop_ingress_locked w fx).1, set_owner (stop_ingress_locked w fx).2 o).
Proof.
  intros Hw Ho. unfold stop_ingress_locked, set_owner. simpl.
  destruct (stop_executor _ _ _) as [x s2]. by destruct (_ || _).
Qed.

Lemma observe_vpn_ok w sequence ob healthy fx :
  world_ok w -> world_ok (observe_vpn w sequence ob healthy fx).2.
Proof.
  intros Hw. unfold observe_vpn.
  set (addrs := match ob with UniqueVpn l => l | _ => [] end).
  pose proof (owner_step_ok (owner (coordinator w)) {| obs_sequence := sequence; obs_addresses := addrs |}
    (wo_owner _ Hw)) as Hok. unfold owner_step in Hok. simpl in Hok.
  destruct (observe_local_ipv4 _ _ _) as [r o] eqn:Hobs. simpl in Hok.
  destruct (observe_effect _ _ _ _ _ (wo_owner _ Hw) Hobs)
    as [(e & -> & ->)|(-> & _)]; simpl.
  { apply set_owner_ok; [done|done|].
    destruct (ingress_epoch _) eqn:E; [|by left]. right. by destruct (wo_epoch _ Hw _ E). }
  destruct (is_some _ && _) eqn:Hstop.
  - rewrite stop_after_observe by done.
    destruct (stop_ingress_locked w fx) as [r' w'] eqn:Hs.
    destruct (stop_ingress_locked_effect _ _ _ _ Hw Hs) as (Hw' & _ & Hn & _).
    destruct r'; simpl; (apply set_owner_ok; [done|done|by left]).
  - apply set_owner_ok; [done|done|]. apply andb_false_iff in Hstop as [Hn|Hn]; [|rust_bool; by right].
    left. by destruct (ingress_epoch _).
Qed.

Lemma start_after_stop w epoch ex fx started :
  world_ok w -> admission_epoch (snapshot (owner (coordinator w))) = Some epoch ->
  world_ok (match stop_ingress_locked w fx with
            | (Err e, w1) => (Err e, w1)
            | (Ok _, w1) => start_generation w1 epoch ex started
            end).2.
Proof.
  intros Hw Hep. destruct (stop_ingress_locked w fx) as [r w1] eqn:Hs.
  destruct (stop_ingress_locked_effect _ _ _ _ Hw Hs) as (Hw1 & Ho & Hn & Hc & _).
  destruct r as [[]|]; [|done]. apply start_generation_ok; [done|done|by apply Hc|congruence].
Qed.

Lemma start_ingress_ok w epoch ex healthy fx started :
  world_ok w -> world_ok (start_ingress w epoch ex healthy fx started).2.
Proof.
  intros Hw. unfold start_ingress. destruct (cleanup_failed _) eqn:Hc; [done|].
  destruct (_ || _) eqn:Hadm; [done|]. rust_bool.
  case_bool_decide as Hi; [destruct (is_some_and _ _); [done|]; by apply start_after_stop|].
  destruct (is_some _ || is_some _) eqn:Hp; [by apply start_after_stop|].
  apply start_generation_ok; try done. rust_bool.
  destruct (ingress_epoch _) eqn:E; [|done].
  destruct (wo_epoch _ Hw _ E) as (_ & [x Hx] & _). by rewrite Hx in *.
Qed.

Lemma world_step_ok w e : world_ok w -> world_ok (step w e).2.
Proof.
  intros Hw. destruct e as [s ob h fx|ep ex h fx st|fx|i e]; simpl.
  - by apply observe_vpn_ok.
  - by apply start_ingress_ok.
  - unfold stop_ingress. destruct (stop_ingress_locked w fx) eqn:Hs.
    by apply stop_ingress_locked_effect in Hs as [? _].
  - destruct (sessions_event_evolves (store w) (i, e)) as (Hl & Hok & Hk). simpl in *.
    destruct Hw as [Ho Hs He Hx Hf Hi Hb Hr]. split; simpl; try done; [auto|by rewrite Hl|].
    intros j g Hg Hst Hns. destruct (Hk j g Hg) as (g0 & Hg0 & Hs0 & Ha0).
    apply Ha0, (Hr j); [done|congruence|done].
Qed.

Lemma coordinator_new_ok net prefix w : coordinator_new net prefix = Ok w -> world_ok w.
Proof.
  unfold coordinator_new. destruct (endpoint_owner_new net prefix) as [o|] eqn:Ho; intros [= <-].
  split; simpl; try done. by eapply endpoint_owner_new_ok.
Qed.

#[export] Hint Resolve coordinator_new_ok world_step_ok : mish.

Definition reachable (w : world) : Prop :=
  exists net prefix w0 es, coordinator_new net prefix = Ok w0 /\ w = run step w0 es.

Lemma world_reachable_ok w : reachable w -> world_ok w.
Proof. intros (net & prefix & w0 & es & Hn & ->). apply run_invariant; eauto with mish. Qed.

(** ** Properties *)

(** Admission is exact.  An accepted observation admits an address exactly
    when it is the only distinct observed address inside the configured network
    (and not unspecified, multicast or broadcast); with none or several it
    reports precisely which of the two happened. *)
Theorem mesh_admission_exact o sequence addrs s o' :
  owner_reachable o -> observe_local_ipv4 o sequence addrs = (Ok s, o') ->
  let ok b := b ∈ addrs /\ cidr_contains (accepted o) b = true in
  (forall a, admitted_endpoint s = Some a <-> (forall b, ok b <-> b = a)) /\
  (reason s = Some NoAcceptedAddress <-> (forall b, ~ ok b)) /\
  (reason s = Some MultipleAcceptedAddresses <-> exists a b, a <> b /\ ok a /\ ok b).
Proof.
  intros Ho%owner_reachable_ok Hs. cbv zeta.
  destruct (observe_effect _ _ _ _ _ Ho Hs) as [(? & ? & ?)|([= ->] & _ & _ & _ & Hc & _)]; [done|].
  setoid_rewrite <- (elem_of_candidates o addrs). pose proof (candidates_NoDup o addrs) as Hnd.
  destruct (candidates o addrs) as [|x [|y cs]]; simpl in Hc; simplify_eq;
    repeat match goal with H : _ = _ (snapshot o') |- _ => rewrite <- H; clear H end.
  - setoid_rewrite elem_of_nil. split; [|split].
    + intros a. split; [done|]. intros Hb. by destruct (proj2 (Hb a) eq_refl).
    + naive_solver.
    + naive_solver.
  - setoid_rewrite list_elem_of_singleton. split; [|split].
    + intros a. split; [by intros [= ->]|]. intros Hb. f_equal. by apply Hb.
    + split; [done|]. intros Hb. by destruct (Hb x).
    + split; [done|]. intros (a & b & Hne & -> & ->). done.
  - inversion_clear Hnd as [|? ? Hx _]. split; [|split].
    + intros a. split; [done|]. intros Hb. exfalso. apply Hx.
      rewrite (proj1 (Hb x)) by left. rewrite <- (proj1 (Hb y)) by (right; left). left.
    + split; [done|]. intros Hb. destruct (Hb x). left.
    + split; [|done]. intros _. exists x, y. split; [|split; [left|right; left]].
      intros ->. apply Hx. left.
Qed.

Definition mesh_net : Ipv4Addr := Z.shiftl 100 24.
Definition mesh_addr (host : Z) : Ipv4Addr := mesh_net + host.

Definition demo_owner : MeshEndpointOwner :=
  match endpoint_owner_new mesh_net 8 with
  | Ok o => o
  | Err _ => {| accepted := {| network := 0; mask := 0 |};
                snapshot := {| state := NotAdmitted; reason := None; admitted_endpoint := None;
                               admission_epoch := None; last_sequence := None |};
                next_epoch := 0 |}
  end.

Lemma mesh_admission_exact_witness :
  let o' := (observe_local_ipv4 demo_owner 1 [mesh_addr 7; 5; mesh_addr 7]).2 in
  admitted_endpoint (snapshot o') = Some (mesh_addr 7) /\
  (forall b, (b ∈ [mesh_addr 7; 5; mesh_addr 7] /\ cidr_contains (accepted demo_owner) b = true) <-> b = mesh_addr 7).
Proof.
  cbv zeta. split; [reflexivity|].
  refine (proj1 (proj1 (mesh_admission_exact demo_owner 1 [mesh_addr 7; 5; mesh_addr 7]
    (snapshot (observe_local_ipv4 demo_owner 1 [mesh_addr 7; 5; mesh_addr 7]).2)
    (observe_local_ipv4 demo_owner 1 [mesh_addr 7; 5; mesh_addr 7]).2 _ _) (mesh_addr 7)) _).
  - exists mesh_net, 8, demo_owner, []. split; reflexivity.
  - reflexivity.
  - reflexivity.
Defined.

(** An admission epoch names one uninterrupted admission of one address:
    if a later state still carries the epoch, every state in between carried
    it, with the same endpoint.  Losing the address or changing it can never
    come back under an old epoch. *)
Theorem epoch_is_one_admission o obs1 obs2 e :
  owner_reachable o -> admission_epoch (snapshot o) = Some e ->
  admission_epoch (snapshot (run owner_step o (obs1 ++ obs2))) = Some e ->
  let mid := run owner_step o obs1 in
  admission_epoch (snapshot mid) = Some e /\
  admitted_endpoint (snapshot mid) = admitted_endpoint (snapshot o).
Proof.
  intros Ho%owner_reachable_ok. revert o Ho. induction obs1 as [|ob obs1 IH]; intros o Ho He Hlast; [done|].
  cbn [run app] in *. destruct (step_epoch o ob Ho) as [Hle Hk].
  pose proof (owner_step_ok o ob Ho) as Ho'.
  assert (admission_epoch (snapshot (owner_step o ob).2) = Some e) as He'.
  { destruct (decide (admission_epoch (snapshot (owner_step o ob).2) = Some e)) as [|Hne]; [done|].
    apply (epoch_not_revived _ (obs1 ++ obs2)) in Hne; [done|done|].
    pose proof (so_bound _ _ (oo_snapshot _ Ho) e He). lia. }
  destruct (Hk e He') as [Hlt|[_ Hsame]].
  { pose proof (so_bound _ _ (oo_snapshot _ Ho) e He). lia. }
  destruct (IH _ Ho' He' Hlast) as [H1 H2]. split; [done|]. congruence.
Qed.

Lemma epoch_is_one_admission_witness :
  let o := run owner_step demo_owner [{| obs_sequence := 1; obs_addresses := [mesh_addr 7] |}] in
  admitted_endpoint (snapshot (run owner_step o [{| obs_sequence := 2; obs_addresses := [mesh_addr 7; 9] |}]))
  = admitted_endpoint (snapshot o).
Proof.
  cbv zeta.
  apply (epoch_is_one_admission
    (run owner_step demo_owner [{| obs_sequence := 1; obs_addresses := [mesh_addr 7] |}])
    [{| obs_sequence := 2; obs_addresses := [mesh_addr 7; 9] |}]
    [{| obs_sequence := 3; obs_addresses := [mesh_addr 7] |}] 1).
  - exists mesh_net, 8, demo_owner, [{| obs_sequence := 1; obs_addresses := [mesh_addr 7] |}].
    split; reflexivity.
  - reflexivity.
  - reflexivity.
Defined.

(** C21: The session owner implements a revocable budget of 512, under every
    interleaving of the atomic accesses of concurrent callers, spurious
    compare-exchange failures included.  Leases are only granted while open
    and below the budget; [active] is exactly the leases alive plus the callers
    between their increment and their return, and never wraps; and after the
    revocation no further lease is ever granted. *)
Theorem session_owner_refines_budget es1 es2 :
  let o := run session_step product_generation es1 in
  let o' := run session_step o es2 in
  rtc budget_step (budget_of product_generation) (budget_of o) /\
  active o = leases o + slots (callers o) /\
  0 <= leases o <= active o /\ active o <= MAX_MESH_SESSIONS /\
  (accepting o = false -> leases o' <= leases o /\ accepting o' = false).
Proof.
  cbv zeta.
  assert (sessions_ok (run session_step product_generation es1)) as [Hc Hl Hb Hr]
    by (apply run_invariant; auto with mish).
  pose proof (slots_nonneg (callers (run session_step product_generation es1))).
  split_and!; [by apply session_run_refines; auto with mish|done|lia|lia|lia|].
  intros Ha. pose proof (session_run_refines (run session_step product_generation es1) es2) as Hrt.
  apply closed_budget_antitone in Hrt; [done|by split|done].
Qed.

(** Admission never gets stuck: a caller of [try_admit] that is not
    interfered with returns within six atomic accesses, with a lease exactly
    when the generation is open and below its budget; a refusal for capacity is
    counted and leaves [active] unchanged. *)
Theorem lone_admission_returns o :
  sessions_ok o ->
  exists b o', solo 6 o FirstCheck = (Returned b, o') /\
  (b = true <-> accepting o = true /\ active o < MAX_MESH_SESSIONS) /\
  active o' = active o + (if b then 1 else 0) /\
  leases o' = leases o + (if b then 1 else 0).
Proof.
  intros [Hc Hl Hb Hr]. pose proof (slots_nonneg (callers o)).
  unfold solo, try_admit_step. destruct (accepting o) eqn:Ha; [|eexists _, _; split_and!; simpl; try done; naive_solver lia].
  destruct (Z.leb_spec MAX_MESH_SESSIONS (active o)).
  - eexists false, _. split; [reflexivity|]. destruct (checked_add _ _ _); simpl; split_and!; try lia; naive_solver lia.
  - rewrite Z.eqb_refl. simpl. rewrite Ha. eexists true, _. split; [reflexivity|]. simpl. split_and!; try lia; naive_solver lia.
Qed.

Lemma lone_admission_returns_witness :
  exists b o', solo 6 product_generation FirstCheck = (Returned b, o') /\
  (b = true <-> accepting product_generation = true /\ active product_generation < MAX_MESH_SESSIONS) /\
  active o' = active product_generation + (if b then 1 else 0) /\
  leases o' = leases product_generation + (if b then 1 else 0).
Proof. apply (lone_admission_returns product_generation), product_generation_ok. Defined.


Definition demo_start : world :=
  match coordinator_new mesh_net 8 with
  | Ok w => w
  | Err _ => {| coordinator := {| owner := demo_owner; executor := None; sessions := None;
                                  ingress_epoch := None; cleanup_failed := false |}; store := [] |}
  end.

Definition clean_stop : stop_effect := {| stop_result := Ok tt; stop_events := [] |}.

(** One admission served by one session, then the address changes while the
    session is alive and a second generation starts. *)
Definition demo_events : list event :=
  [ObserveVpn 1 (UniqueVpn [mesh_addr 7]) true clean_stop;
   StartIngress 1 10 true clean_stop (Ok tt);
   Session 0 Enter; Session 0 (Advance 0 false); Session 0 (Advance 0 false);
   Session 0 (Advance 0 false); Session 0 (Advance 0 false);
   ObserveVpn 2 (UniqueVpn [mesh_addr 8]) true {| stop_result := Ok tt; stop_events := [(0%nat, DropLease)] |};
   StartIngress 2 11 true clean_stop (Ok tt)].


(** A failed cleanup is final.  If stopping a generation failed, or left
    one of its sessions alive, then after any further events the coordinator
    refuses every start with [CleanupFailed], serves no ingress, and reports
    the failure again on every stop. *)
Theorem cleanup_failure_is_final w es :
  reachable w -> cleanup_failed (coordinator w) = true ->
  let w' := run step w es in
  ingress_epoch (coordinator w') = None /\
  (forall ep ex h fx st, start_ingress w' ep ex h fx st = (Err CleanupFailed, w')) /\
  (forall healthy, ingress_healthy w' healthy = false) /\
  (forall fx, (stop_ingress w' fx).1 = Err CleanupFailed).
Proof.
  intros Hw%world_reachable_ok Hc. cbv zeta.
  assert (world_ok (run step w es) /\ cleanup_failed (coordinator (run step w es)) = true) as [Hw' Hc'].
  { apply (run_invariant step (fun w => world_ok w /\ cleanup_failed (coordinator w) = true)); [|done].
    intros s e [Hs Hf]. split; [auto with mish|]. destruct e as [sq ob h fx|ep ex h fx st|fx|i e]; simpl.
    - unfold observe_vpn. destruct (observe_local_ipv4 _ _ _) as [[] o]; simpl; [|done].
      rewrite (wo_failed _ Hs Hf). simpl. done.
    - unfold start_ingress. by rewrite Hf.
    - unfold stop_ingress. destruct (stop_ingress_locked s fx) eqn:Hst.
      apply stop_ingress_locked_effect in Hst as (_ & _ & _ & _ & Hk); auto.
    - done. }
  split_and!; [by apply wo_failed| | |].
  - intros. unfold start_ingress. by rewrite Hc'.
  - intros. unfold ingress_healthy, snapshot_locked. simpl. by rewrite Hc'.
  - intros. unfold stop_ingress, stop_ingress_locked. destruct (stop_executor _ _ _).
    destruct (_ || _); [done|]. simpl. by rewrite Hc'.
Qed.

(** The session is still alive when the executor answers. *)
Definition leaked_events : list event :=
  take 7 demo_events ++ [ObserveVpn 2 Absent true clean_stop].

Lemma cleanup_failure_is_final_witness :
  ingress_epoch (coordinator (run step (run step demo_start leaked_events)
    [Session 0 DropLease; ObserveVpn 3 (UniqueVpn [mesh_addr 8]) true clean_stop])) = None.
Proof.
  apply (cleanup_failure_is_final (run step demo_start leaked_events)
    [Session 0 DropLease; ObserveVpn 3 (UniqueVpn [mesh_addr 8]) true clean_stop]).
  - exists mesh_net, 8, demo_start, leaked_events. split; reflexivity.
  - vm_compute. reflexivity.
Defined.
