(* ===== verification/MangleAudit.v ===== *)
(** * Audit of the mangle table

    The free functions of [src/crates/cellular/src/root_policy.rs]: tokens of
    rule listings, mark specifications, and [audit_mangle_output], the search
    through every chain reachable from [OUTPUT] for a foreign rule that could
    touch the reserved mark.

    The recursion of [visit] is bounded by the chains not yet seen; the fuel
    [2 + number of user chains] is enough ([visit_total]). *)

From Stdlib Require Import String.
From stdpp Require Import gmap.
From S2P Require Import Prelude Net RustStr.

Definition IPV4_FULL_MASK : Z := 4294967295.

Inductive MangleAuditResult := Clean | Collision | Ambiguous.

#[export] Instance MangleAuditResult_eq_dec : EqDecision MangleAuditResult.
Proof. solve_decision. Defined.

(** ** Tokens *)

Definition is_safe_byte (b : Z) : bool :=
  is_ascii_alphanumeric b || (b =? 95) || (b =? 46) || (b =? 45).

Definition is_safe_interface_name (value : str) : bool :=
  negb (value =b? []) && (length value <=? 15)%nat && forallb is_safe_byte value.

Definition is_safe_table_token (value : str) : bool :=
  negb (value =b? []) && (length value <=? 32)%nat && forallb is_safe_byte value.

Definition is_safe_chain_name (value : str) : bool :=
  negb (value =b? []) && (length value <=? 28)%nat &&
  forallb (fun b => is_ascii_alphanumeric b || (b =? 95) || (b =? 46) || (b =? 58) || (b =? 43) || (b =? 45)) value.

(** The token right after the first occurrence of [keyword]. *)
Fixpoint token_after (tokens : list str) (keyword : str) : option str :=
  match tokens with
  | [] => None
  | t :: ts => if t =b? keyword then head ts else token_after ts keyword
  end.

Definition parse_unsigned (raw : str) : option Z :=
  let hex :=
    match strip_prefix (lit "0x") raw with
    | Some h => Some h
    | None => strip_prefix (lit "0X") raw
    end in
  match hex with
  | Some h => if negb (h =b? []) then from_str_radix 16 u64_max h else None
  | None => parse_u64 raw
  end.

(** The value and mask of [value\[/mask\]], when well-formed. *)
Definition mark_spec_parts (spec : str) : option (Z * Z) :=
  match split_byte 47 spec with
  | [] => None
  | raw_value :: rest =>
      match parse_unsigned raw_value with
      | None => None
      | Some value =>
          match (match rest with [] => Some IPV4_FULL_MASK | raw :: _ => parse_unsigned raw end) with
          | None => None
          | Some mask =>
              if is_some (head (tail rest)) || (IPV4_FULL_MASK <? value) || (IPV4_FULL_MASK <? mask)
              then None else Some (value, mask)
          end
      end
  end.

Definition mark_spec_touches (spec : str) (reserved_mark : Z) : option bool :=
  match mark_spec_parts spec with
  | None => None
  | Some (_, mask) => Some (negb (Z.land mask reserved_mark =? 0))
  end.

Definition rpdb_priority (line : str) : option Z :=
  match split_once 58 (trim line) with
  | Some (raw, _) => parse_u32 raw
  | None => None
  end.

Definition rpdb_line_touches_reserved_mark (line : str) (reserved_mark : Z) : bool :=
  match token_after (split_whitespace line) (lit "fwmark") with
  | None => false
  | Some spec => default true (mark_spec_touches spec reserved_mark)
  end.

Definition push_table (tables : list str) (table : option str) : list str :=
  match table with
  | Some t => if is_safe_table_token t && negb (list_contains tables t) then tables ++ [t] else tables
  | None => tables
  end.

Definition referenced_tables (ls : list str) : list str :=
  fold_left (fun tables line =>
    let tokens := split_whitespace line in
    push_table (push_table tables (token_after tokens (lit "lookup"))) (token_after tokens (lit "table")))
    ls [].

Definition route_has_default_on_interface (ls : list str) (interface : str) : bool :=
  is_safe_interface_name interface &&
  existsb (fun line =>
    let tokens := split_whitespace line in
    (head tokens =b? Some (lit "default")) && (token_after tokens (lit "dev") =b? Some interface)) ls.

Definition route_get_uses_interface (output interface : str) : bool :=
  is_safe_interface_name interface &&
  existsb (fun line => token_after (split_whitespace line) (lit "dev") =b? Some interface) (lines output).

Definition option_mask (tokens : list str) (name : str) : option Z :=
  match token_after tokens name with
  | None => None
  | Some raw =>
      match parse_unsigned raw with
      | Some value => if value <=? IPV4_FULL_MASK then Some value else None
      | None => None
      end
  end.

(** ** One rule *)

Definition is_jump (t : str) : bool :=
  (t =b? lit "-j") || (t =b? lit "--jump") || (t =b? lit "-g") || (t =b? lit "--goto").
Definition is_set_mark (t : str) : bool :=
  (t =b? lit "--mark") || (t =b? lit "--set-xmark") || (t =b? lit "--set-mark").
Definition is_mask_option (t : str) : bool := (t =b? lit "--nfmask") || (t =b? lit "--ctmask").
Definition is_transfer (t : str) : bool := (t =b? lit "--restore-mark") || (t =b? lit "--save-mark").
Definition is_bit_op (t : str) : bool :=
  (t =b? lit "--and-mark") || (t =b? lit "--or-mark") || (t =b? lit "--xor-mark").

(** The loop of [audit_mark_semantics] over the tokens from the current index
    on, with its three flags. *)
Fixpoint audit_tokens (tokens : list str) (candidate_mark : Z) (rest : list str)
    (saw mark_target connmark_target : bool) : MangleAuditResult :=
  match rest with
  | [] => if (mark_target || connmark_target) && negb saw then Ambiguous else Clean
  | token :: rest =>
      if is_jump token then
        match head rest with
        | None => Ambiguous
        | Some target =>
            audit_tokens tokens candidate_mark rest saw
              (mark_target || (target =b? lit "MARK")) (connmark_target || (target =b? lit "CONNMARK"))
        end
      else if is_set_mark token then
        match head rest with
        | None => Ambiguous
        | Some spec =>
            match mark_spec_touches spec candidate_mark with
            | Some true => Collision
            | Some false => audit_tokens tokens candidate_mark rest true mark_target connmark_target
            | None => Ambiguous
            end
        end
      else if is_mask_option token then
        match (match head rest with Some raw => parse_unsigned raw | None => None end) with
        | None => Ambiguous
        | Some mask =>
            if IPV4_FULL_MASK <? mask then Ambiguous
            else if negb (Z.land mask candidate_mark =? 0) then Collision
            else audit_tokens tokens candidate_mark rest true mark_target connmark_target
        end
      else if is_transfer token then
        let nfmask := default IPV4_FULL_MASK (option_mask tokens (lit "--nfmask")) in
        let ctmask := default IPV4_FULL_MASK (option_mask tokens (lit "--ctmask")) in
        if negb (Z.land nfmask candidate_mark =? 0) || negb (Z.land ctmask candidate_mark =? 0)
        then Collision
        else audit_tokens tokens candidate_mark rest true mark_target connmark_target
      else if is_bit_op token then Collision
      else audit_tokens tokens candidate_mark rest saw mark_target connmark_target
  end.

Definition audit_mark_semantics (tokens : list str) (candidate_mark : Z) : MangleAuditResult :=
  audit_tokens tokens candidate_mark tokens false false false.

Inductive ChainTarget := NoTarget | Malformed | Named (target : str).

Fixpoint chain_target_from (rest : list str) (target : option str) : ChainTarget :=
  match rest with
  | [] => match target with Some t => Named t | None => NoTarget end
  | token :: rest =>
      if negb (is_jump token) then chain_target_from rest target
      else match head rest with
           | None => Malformed
           | Some candidate =>
               if starts_with [45] candidate then Malformed
               else if is_some_and target (fun existing => existing <>b? candidate) then Malformed
               else chain_target_from rest (Some candidate)
           end
  end.

Definition chain_target (tokens : list str) : ChainTarget := chain_target_from tokens None.

(** ** The table *)

(** The first pass: declared chains and the rules of each chain, or nothing
    when a declaration is not understood. *)
Fixpoint collect (ls : list str) (user_chains : gset str) (rules : gmap str (list (list str)))
    : option (gset str * gmap str (list (list str))) :=
  match ls with
  | [] => Some (user_chains, rules)
  | line :: ls =>
      let tokens := split_whitespace line in
      if head tokens =b? Some (lit "-N") then
        match tokens with
        | [_; name] =>
            if negb (is_safe_chain_name name) || bool_decide (name ∈ user_chains) then None
            else collect ls ({[name]} ∪ user_chains) rules
        | _ => None
        end
      else if head tokens =b? Some (lit "-A") then
        match tokens with
        | _ :: name :: _ :: _ =>
            if negb (is_safe_chain_name name) then None
            else collect ls user_chains (<[name := default [] (rules !! name) ++ [tokens]]> rules)
        | _ => None
        end
      else collect ls user_chains rules
  end.

Section visit.
Context (rules_by_chain : gmap str (list (list str))) (user_chains : gset str)
        (allowed : list str) (candidate_mark : Z).

Abbreviation states := (gmap str Z).

(** The body of the loop over the rules of [chain], with [visit] for nested
    chains; [None] means that the nested call ran out of fuel. *)
Fixpoint visit_rules (visit : str -> states -> option (MangleAuditResult * states))
    (chain : str) (rules : list (list str)) (st : states) : option (MangleAuditResult * states) :=
  match rules with
  | [] => Some (Clean, <[chain := 2]> st)
  | tokens :: rules =>
      let verdict :=
        if list_contains allowed (join (lit " ") tokens) then Clean
        else audit_mark_semantics tokens candidate_mark in
      match verdict with
      | Clean =>
          match chain_target tokens with
          | Malformed => Some (Ambiguous, st)
          | NoTarget => visit_rules visit chain rules st
          | Named target =>
              if bool_decide (target ∈ user_chains) then
                match visit target st with
                | None => None
                | Some (Clean, st) => visit_rules visit chain rules st
                | Some (other, st) => Some (other, st)
                end
              else if is_some (rules_by_chain !! target) then Some (Ambiguous, st)
              else visit_rules visit chain rules st
          end
      | other => Some (other, st)
      end
  end.

Fixpoint visit (fuel : nat) (chain : str) (st : states) : option (MangleAuditResult * states) :=
  match fuel with
  | O => None
  | S fuel =>
      match st !! chain with
      | Some 1 => Some (Ambiguous, st)
      | Some 2 => Some (Clean, st)
      | _ => visit_rules (visit fuel) chain (default [] (rules_by_chain !! chain)) (<[chain := 1]> st)
      end
  end.

End visit.

Definition OUTPUT : str := lit "OUTPUT".

Definition visit_fuel (user_chains : gset str) : nat := 2 + size user_chains.

Definition normalized (ls : list str) : list str :=
  List.filter (fun line => negb (line =b? [])) (trim <$> ls).

Definition audit_mangle_output (ls : list str) (allowed_product_lines : list str) (mish_chain : str)
    (candidate_mark : Z) : MangleAuditResult :=
  if candidate_mark =? 0 then Ambiguous
  else if existsb (fun line => contains mish_chain line && negb (list_contains allowed_product_lines line))
            (normalized ls)
  then Collision
  else match collect (normalized ls) ∅ ∅ with
       | None => Ambiguous
       | Some (user_chains, rules_by_chain) =>
           match visit rules_by_chain user_chains allowed_product_lines candidate_mark
                   (visit_fuel user_chains) OUTPUT ∅ with
           | Some (r, _) => r
           | None => Ambiguous
           end
       end.

(** ** Termination *)

Section visit_lemmas.
Context (rules_by_chain : gmap str (list (list str))) (user_chains : gset str)
        (allowed : list str) (candidate_mark : Z).

Abbreviation states := (gmap str Z).
Abbreviation visit_ := (visit rules_by_chain user_chains allowed candidate_mark).
Abbreviation visit_rules_ := (visit_rules rules_by_chain user_chains allowed candidate_mark).

(** The chains still to be entered. *)
Definition unseen (st : states) : nat := size (user_chains ∖ dom st).

(** Chains are marked in progress (1) or done (2), and marks are never lost. *)
Definition marks_ok (st : states) : Prop := map_Forall (fun _ s => s = 1 \/ s = 2) st.

Definition extends (st st' : states) : Prop := dom st ⊆ dom st' /\ marks_ok st'.

Lemma unseen_extends st st' : extends st st' -> (unseen st' <= unseen st)%nat.
Proof. intros [H _]. unfold unseen. apply subseteq_size. set_solver. Qed.

Lemma unseen_enter chain st :
  chain ∈ user_chains -> chain ∉ dom st -> (unseen (<[chain := 1%Z]> st) < unseen st)%nat.
Proof.
  intros H1 H2. unfold unseen. apply subset_size. rewrite dom_insert. set_solver.
Qed.

Lemma marks_ok_insert chain s st : s = 1 \/ s = 2 -> marks_ok st -> marks_ok (<[chain := s]> st).
Proof. intros. by apply map_Forall_insert_2. Qed.

Lemma extends_insert chain s st :
  s = 1 \/ s = 2 -> marks_ok st -> extends st (<[chain := s]> st).
Proof. intros Hs Hm. split; [rewrite dom_insert; set_solver|by apply marks_ok_insert]. Qed.

#[local] Hint Resolve extends_insert marks_ok_insert : core.

Lemma extends_refl st : marks_ok st -> extends st st.
Proof. by split. Qed.

Lemma extends_trans st1 st2 st3 : extends st1 st2 -> extends st2 st3 -> extends st1 st3.
Proof. intros [H1 _] [H2 H3]. split; [set_solver|done]. Qed.

(** A visitor that answers whenever fewer than [n] chains are unseen. *)
Definition answers (v : str -> states -> option (MangleAuditResult * states)) (n : nat) : Prop :=
  forall target st, target ∈ user_chains -> marks_ok st -> (unseen st < n)%nat ->
    exists r st', v target st = Some (r, st') /\ extends st st'.

Lemma visit_rules_total v n chain rules st :
  answers v n -> marks_ok st -> (rules <> [] -> unseen st < n)%nat ->
  exists r st', visit_rules_ v chain rules st = Some (r, st') /\ extends st st'.
Proof.
  intros Hv. revert st. induction rules as [|tokens rules IH]; intros st Hm Hn; cbn [visit_rules].
  { eexists _, _. split; [done|]. auto. }
  specialize (Hn ltac:(done)).
  destruct (if list_contains _ _ then _ else _); [|eauto using extends_refl..].
  destruct (chain_target tokens) as [| |target]; [by apply IH|eauto using extends_refl|].
  case_bool_decide as Ht; [|destruct (is_some _); [eauto using extends_refl|by apply IH]].
  destruct (Hv target st Ht Hm Hn) as (r & st' & -> & He).
  destruct r; [|eauto..].
  destruct (IH st') as (r' & st'' & Hr & He'); [apply He|pose proof (unseen_extends _ _ He); lia|].
  exists r', st''. eauto using extends_trans.
Qed.

(** Entering a chain with a visitor that answers for the rest. *)
Lemma visit_enters fuel chain st :
  marks_ok st -> answers (visit_ fuel) fuel ->
  (chain ∉ dom st -> unseen (<[chain := 1%Z]> st) < fuel)%nat ->
  exists r st', visit_ (S fuel) chain st = Some (r, st') /\ extends st st'.
Proof.
  intros Hm Hv Hn. cbn [visit]. destruct (st !! chain) as [s|] eqn:Hs.
  - destruct (Hm _ _ Hs) as [-> | ->]; eauto using extends_refl.
  - assert (chain ∉ dom st) as Hd by (by apply not_elem_of_dom).
    destruct (visit_rules_total (visit_ fuel) fuel chain (default [] (rules_by_chain !! chain))
      (<[chain := 1]> st)) as (r & st' & Hr & He); [done|auto|auto|].
    exists r, st'. split; [done|]. eapply extends_trans; [|exact He]. auto.
Qed.

Lemma visit_answers fuel : answers (visit_ fuel) fuel.
Proof.
  induction fuel as [|fuel IH]; intros chain st Hc Hm Hn; [lia|].
  apply visit_enters; [done|done|]. intros Hd. pose proof (unseen_enter _ _ Hc Hd). lia.
Qed.

Lemma visit_total :
  exists r st', visit_ (visit_fuel user_chains) OUTPUT ∅ = Some (r, st').
Proof.
  destruct (visit_enters (S (size user_chains)) OUTPUT ∅) as (r & st' & Hr & _); eauto.
  - apply map_Forall_empty.
  - apply visit_answers.
  - intros _. unfold unseen. apply Nat.lt_succ_r, subseteq_size. set_solver.
Qed.

(** ** Soundness *)

(** A rule the audit has accepted. *)
Definition rule_accepted (tokens : list str) : Prop :=
  (list_contains allowed (join (lit " ") tokens) = true \/
   audit_mark_semantics tokens candidate_mark = Clean) /\
  match chain_target tokens with
  | Malformed => False
  | NoTarget => True
  | Named target => target ∈ user_chains \/ rules_by_chain !! target = None
  end.

(** The rules of the finished chains are accepted, and jump to finished chains. *)
Definition finished (st : states) (chain : str) : Prop := st !! chain = Some 2.

Definition rule_closed (st : states) (tokens : list str) : Prop :=
  rule_accepted tokens /\
  forall target, chain_target tokens = Named target -> target ∈ user_chains -> finished st target.

Definition closed (st : states) : Prop :=
  forall chain, finished st chain ->
    Forall (rule_closed st) (default [] (rules_by_chain !! chain)).

(** What a clean visit preserves: marks in progress stay, finished stay
    finished, and the finished chains stay closed. *)
Definition sound_visitor (v : str -> states -> option (MangleAuditResult * states)) : Prop :=
  forall chain st st', closed st -> v chain st = Some (Clean, st') ->
    closed st' /\ finished st' chain /\
    (forall c, finished st c -> finished st' c) /\
    (forall c, st' !! c = Some 1 <-> st !! c = Some 1).

Lemma rule_closed_mono st st' tokens :
  (forall c, finished st c -> finished st' c) -> rule_closed st tokens -> rule_closed st' tokens.
Proof. intros Hf [Ha Ht]. split; eauto. Qed.

Lemma visit_rules_sound v chain before rules st st' :
  sound_visitor v -> closed st -> st !! chain = Some 1 ->
  default [] (rules_by_chain !! chain) = before ++ rules -> Forall (rule_closed st) before ->
  visit_rules_ v chain rules st = Some (Clean, st') ->
  closed st' /\ finished st' chain /\ (forall c, finished st c -> finished st' c) /\
  (forall c, c <> chain -> st' !! c = Some 1 <-> st !! c = Some 1).
Proof.
  intros Hv. revert before st. induction rules as [|tokens rules IH]; intros before st Hc Hp Hr Hb Hs.
  - cbn [visit_rules] in Hs. injection Hs as <-.
    assert (forall c, finished st c -> finished (<[chain := 2]> st) c) as Hf.
    { intros c Hfc. unfold finished in *. rewrite lookup_insert_ne; [done|congruence]. }
    rewrite app_nil_r in Hr. split_and!; [|by apply lookup_insert_eq|done|].
    + intros c Hfc. destruct (decide (c = chain)) as [->|Hne].
      * rewrite Hr. eauto using Forall_impl, rule_closed_mono.
      * unfold finished in Hfc. rewrite lookup_insert_ne in Hfc by done.
        specialize (Hc c Hfc). eauto using Forall_impl, rule_closed_mono.
    + intros c Hne. by rewrite lookup_insert_ne by done.
  - cbn [visit_rules] in Hs.
    destruct (if list_contains _ _ then _ else _) eqn:Hverdict; simplify_eq.
    assert (list_contains allowed (join (lit " ") tokens) = true \/
      audit_mark_semantics tokens candidate_mark = Clean) as Hok
      by (destruct (list_contains _ _); auto).
    assert (forall st2, closed st2 -> st2 !! chain = Some 1 -> (forall c, finished st c -> finished st2 c) ->
      rule_closed st2 tokens -> visit_rules_ v chain rules st2 = Some (Clean, st') ->
      closed st' /\ finished st' chain /\ (forall c, finished st2 c -> finished st' c) /\
      (forall c, c <> chain -> st' !! c = Some 1 <-> st2 !! c = Some 1)) as Hnext.
    { intros st2 Hc2 Hp2 Hf2 Hrc Hs2. apply (IH (before ++ [tokens]) st2); try done.
      - by rewrite <- app_assoc.
      - apply Forall_app. split; [|by constructor].
        eauto using Forall_impl, rule_closed_mono. }
    destruct (chain_target tokens) as [| |target] eqn:Ht; [|done|].
    + apply (Hnext st); try done. split; [split; [done|by rewrite Ht]|congruence].
    + case_bool_decide as Hu.
      * destruct (v target st) as [[[] st2]|] eqn:Hvt; try done.
        destruct (Hv _ _ _ Hc Hvt) as (Hc2 & Hft & Hf2 & Hp2).
        destruct (Hnext st2) as (H1 & H2 & H3 & H4); try done; [by apply Hp2| |].
        { split; [split; [done|rewrite Ht; by left]|]. intros t' Ht' _. rewrite Ht in Ht'. by simplify_eq. }
        split_and!; [done|done|auto|]. intros c Hne. by rewrite H4, Hp2.
      * destruct (is_some _) eqn:Hr2; [done|]. apply (Hnext st); try done.
        split; [split; [done|rewrite Ht; right; by destruct (rules_by_chain !! target)]|].
        intros t' Ht' Hu'. rewrite Ht in Ht'. by simplify_eq.
Qed.

Lemma visit_sound fuel : sound_visitor (visit_ fuel).
Proof.
  induction fuel as [|fuel IH]; intros chain st st' Hc Hs; cbn [visit] in Hs; [done|].
  assert (st !! chain = Some 2 \/ (st !! chain <> Some 1 /\ st !! chain <> Some 2)) as [H2|[H1 H2]].
  { destruct (st !! chain) as [s|] eqn:E; [|by right].
    destruct (decide (s = 2)) as [->|]; [by left|]. right. split; [|congruence].
    intros [= ->]. done. }
  - rewrite H2 in Hs. simplify_eq. done.
  - assert (visit_rules_ (visit_ fuel) chain (default [] (rules_by_chain !! chain)) (<[chain := 1]> st)
      = Some (Clean, st')) as Hs'.
    { destruct (st !! chain) as [s|]; [|done]. destruct s as [|p|p]; try done.
      repeat (destruct p as [p|p|]; try done). }
    assert (forall c, finished (<[chain := 1]> st) c <-> finished st c) as Hf.
    { intros c. unfold finished. destruct (decide (c = chain)) as [->|Hne];
        [rewrite lookup_insert_eq|by rewrite lookup_insert_ne]. split; [done|congruence]. }
    destruct (visit_rules_sound (visit_ fuel) chain [] (default [] (rules_by_chain !! chain))
      (<[chain := 1]> st) st') as (G1 & G2 & G3 & G4); try done.
    + intros c Hfc. apply Hf in Hfc. specialize (Hc c Hfc). eapply Forall_impl; [|exact Hc].
      intros tokens. apply rule_closed_mono. intros. by apply Hf.
    + by rewrite lookup_insert_eq.
    + split_and!; [done|done|intros c Hfc; by apply G3, Hf|].
      intros c. destruct (decide (c = chain)) as [->|Hne].
      * unfold finished in G2. rewrite G2. split; congruence.
      * rewrite G4 by done. by rewrite lookup_insert_ne.
Qed.

(** Chains the kernel can enter from [OUTPUT]. *)
Inductive enters : str -> Prop :=
| enters_output : enters OUTPUT
| enters_jump chain tokens target :
    enters chain -> tokens ∈ default [] (rules_by_chain !! chain) ->
    chain_target tokens = Named target -> target ∈ user_chains -> enters target.

Lemma visit_clean_accepts fuel st chain tokens :
  visit_ fuel OUTPUT ∅ = Some (Clean, st) -> enters chain ->
  tokens ∈ default [] (rules_by_chain !! chain) -> rule_accepted tokens.
Proof.
  intros Hv He Ht.
  destruct (visit_sound fuel OUTPUT ∅ st) as (Hc & Hf & _); [|done|].
  { intros c Hc. unfold finished in Hc. by rewrite lookup_empty in Hc. }
  assert (finished st chain) as Hfin.
  { clear Ht. induction He as [|chain tokens' target He IH Hin Htg Hu]; [done|].
    apply list_elem_of_In in Hin.
    pose proof (proj1 (List.Forall_forall _ _) (Hc _ IH) tokens' Hin) as [_ H]. eauto. }
  apply list_elem_of_In in Ht. by apply (proj1 (List.Forall_forall _ _) (Hc _ Hfin) tokens Ht).
Qed.

End visit_lemmas.

(** Every appended rule is in the map [collect] builds. *)
Lemma collect_keeps ls user rules user' rules' chain tokens :
  collect ls user rules = Some (user', rules') ->
  tokens ∈ default [] (rules !! chain) -> tokens ∈ default [] (rules' !! chain).
Proof.
  revert user rules. induction ls as [|line ls IH]; intros user rules Hc Ht; simpl in Hc; [by simplify_eq|].
  rust_cases in Hc; eauto. eapply IH; [done|].
  match goal with |- _ ∈ default [] (<[?n := _]> _ !! _) => destruct (decide (chain = n)) as [->|] end.
  - rewrite lookup_insert_eq. simpl. apply elem_of_app. by left.
  - by rewrite lookup_insert_ne by done.
Qed.

Lemma collect_rules ls user rules user' rules' line chain a rest :
  collect ls user rules = Some (user', rules') -> line ∈ ls ->
  split_whitespace line = lit "-A" :: chain :: a :: rest ->
  split_whitespace line ∈ default [] (rules' !! chain).
Proof.
  revert user rules. induction ls as [|l ls IH]; intros user rules Hc Hl Hs; [by apply elem_of_nil in Hl|].
  apply elem_of_cons in Hl as [<-|Hl].
  - simpl in Hc. rewrite Hs in Hc. simpl in Hc. destruct (negb _); [done|].
    rewrite Hs. eapply collect_keeps; [done|]. rewrite lookup_insert_eq. simpl.
    apply elem_of_app. right. by apply list_elem_of_singleton.
  - simpl in Hc. rust_cases in Hc; eauto.
Qed.

(** ** The mark operations of iptables *)

(** [MARK --set-xmark value/mask] and [--set-mark value/mask]; the transfers of
    [CONNMARK --restore-mark]/[--save-mark] between packet and connection
    mark.  These are the documented effects of the iptables targets. *)
Definition set_xmark (value mask mark : Z) : Z := Z.lxor (Z.ldiff mark mask) value.
Definition set_mark (value mask mark : Z) : Z := Z.lor (Z.ldiff mark mask) value.
Definition transfer_mark (to_mask from_mask to from : Z) : Z :=
  Z.lxor (Z.ldiff to to_mask) (Z.land from from_mask).

Lemma land_0_testbit a b i : Z.land a b = 0 -> Z.testbit a i && Z.testbit b i = false.
Proof. intros H. by rewrite <- Z.land_spec, H, Z.bits_0. Qed.

Lemma ldiff_0_testbit a b i : Z.ldiff a b = 0 -> Z.testbit a i = true -> Z.testbit b i = true.
Proof.
  intros H Ha. assert (Z.testbit (Z.ldiff a b) i = false) as Hd by (by rewrite H, Z.bits_0).
  rewrite Z.ldiff_spec, Ha in Hd. by destruct (Z.testbit b i).
Qed.

Ltac reserved_bits :=
  apply Z.bits_inj'; intros i Hi; unfold set_xmark, set_mark, transfer_mark;
  repeat (rewrite ?Z.land_spec, ?Z.lxor_spec, ?Z.lor_spec, ?Z.ldiff_spec);
  repeat match goal with
  | H : Z.land ?a ?b = 0 |- _ => pose proof (land_0_testbit a b i H); clear H
  | H : Z.ldiff ?a ?b = 0 |- _ => pose proof (ldiff_0_testbit a b i H); clear H
  end;
  repeat match goal with |- context [Z.testbit ?a i] => destruct (Z.testbit a i) end;
  simpl in *; naive_solver.

Lemma set_xmark_keeps value mask mark reserved :
  Z.land mask reserved = 0 -> Z.ldiff value mask = 0 ->
  Z.land (set_xmark value mask mark) reserved = Z.land mark reserved.
Proof. intros. reserved_bits. Qed.

Lemma set_mark_keeps value mask mark reserved :
  Z.land mask reserved = 0 -> Z.ldiff value mask = 0 ->
  Z.land (set_mark value mask mark) reserved = Z.land mark reserved.
Proof. intros. reserved_bits. Qed.

Lemma transfer_mark_keeps to_mask from_mask to from reserved :
  Z.land to_mask reserved = 0 -> Z.land from_mask reserved = 0 ->
  Z.land (transfer_mark to_mask from_mask to from) reserved = Z.land to reserved.
Proof. intros. reserved_bits. Qed.

(** What the clean verdict says of the tokens from index [i] on. *)
Lemma audit_tokens_clean tokens cand rest saw mt ct i op :
  audit_tokens tokens cand rest saw mt ct = Clean -> rest !! i = Some op ->
  (is_set_mark op = true -> exists spec v m, rest !! S i = Some spec /\
     mark_spec_parts spec = Some (v, m) /\ Z.land m cand = 0) /\
  (is_transfer op = true ->
     Z.land (default IPV4_FULL_MASK (option_mask tokens (lit "--nfmask"))) cand = 0 /\
     Z.land (default IPV4_FULL_MASK (option_mask tokens (lit "--ctmask"))) cand = 0) /\
  is_bit_op op = false.
Proof.
  revert saw mt ct i. induction rest as [|t rest IH]; intros saw mt ct i Hc Hi; [done|].
  destruct i as [|i].
  - simpl in Hi. injection Hi as ->. cbn [audit_tokens] in Hc.
    destruct (is_jump op) eqn:Hj.
    { unfold is_jump in Hj. repeat (apply orb_true_iff in Hj as [Hj|Hj]); rust_bool; subst op; done. }
    destruct (is_set_mark op) eqn:Hm.
    { unfold mark_spec_touches in Hc. destruct rest as [|spec rest]; simpl in Hc; [done|].
      destruct (mark_spec_parts spec) as [[v m]|] eqn:Hp; [|done].
      destruct (Z.eqb_spec (Z.land m cand) 0); [|done]. split_and!.
      - intros _. eexists _, _, _. split_and!; [done|done|done].
      - intros H. unfold is_set_mark in Hm. repeat (apply orb_true_iff in Hm as [Hm|Hm]); rust_bool; subst op; done.
      - unfold is_set_mark in Hm. repeat (apply orb_true_iff in Hm as [Hm|Hm]); rust_bool; subst op; done. }
    destruct (is_mask_option op) eqn:Hk.
    { unfold is_mask_option in Hk. repeat (apply orb_true_iff in Hk as [Hk|Hk]); rust_bool; subst op; done. }
    destruct (is_transfer op) eqn:Htr.
    { cbv zeta in Hc. destruct (_ || _) eqn:Hmask; [done|]. rust_bool. split_and!; [done|done|].
      unfold is_transfer in Htr. repeat (apply orb_true_iff in Htr as [Htr|Htr]); rust_bool; subst op; done. }
    destruct (is_bit_op op); [done|]. done.
  - simpl in Hi. cbn [audit_tokens] in Hc. unfold mark_spec_touches in Hc.
    rust_cases in Hc; eauto.
Qed.

(** ** Properties *)


(** A table with the product chain attached and a foreign chain that marks
    another bit. *)
Definition demo_table : list str :=
  [lit "-P OUTPUT ACCEPT"; lit "-N foreign"; lit "-A OUTPUT -j foreign";
   lit "-A foreign -j MARK --set-xmark 0x1/0x1"].


(** The audit always finishes its search: whatever the table, the recursion
    through nested chains returns a verdict within one level per declared chain
    and two more, cyclic jumps included, so the verdict is never the fallback of
    an exhausted bound. *)
Theorem audit_search_terminates rules user allowed mark :
  exists r st, visit rules user allowed mark (visit_fuel user) OUTPUT ∅ = Some (r, st).
Proof. apply visit_total. Qed.

(** A rule with a clean verdict leaves the reserved bits of the mark alone.
    Each value it sets is well-formed with a mask outside the reserved bits, so
    setting it (when the value stays within its mask) keeps them; its transfers
    between packet and connection mark keep them; and it uses none of the
    bitwise mark options. *)
Theorem clean_rule_keeps_reserved tokens reserved :
  audit_mark_semantics tokens reserved = Clean ->
  forall i op, tokens !! i = Some op ->
  (is_set_mark op = true -> exists spec v m,
     tokens !! S i = Some spec /\ mark_spec_parts spec = Some (v, m) /\
     (Z.ldiff v m = 0 -> forall mark,
        Z.land (set_xmark v m mark) reserved = Z.land mark reserved /\
        Z.land (set_mark v m mark) reserved = Z.land mark reserved)) /\
  (is_transfer op = true ->
     let nfmask := default IPV4_FULL_MASK (option_mask tokens (lit "--nfmask")) in
     let ctmask := default IPV4_FULL_MASK (option_mask tokens (lit "--ctmask")) in
     forall mark ct,
        Z.land (transfer_mark nfmask ctmask mark ct) reserved = Z.land mark reserved /\
        Z.land (transfer_mark ctmask nfmask ct mark) reserved = Z.land ct reserved) /\
  is_bit_op op = false.
Proof.
  intros Hc i op Hi. destruct (audit_tokens_clean _ _ _ _ _ _ _ _ Hc Hi) as (H1 & H2 & H3).
  split_and!; [|intros Ht; destruct (H2 Ht) as [Hn Hk]; split; by apply transfer_mark_keeps|done].
  intros Hm. destruct (H1 Hm) as (spec & v & m & Hs & Hp & Hz). exists spec, v, m. split_and!; [done|done|].
  intros Hv mark. split; [by apply set_xmark_keeps|by apply set_mark_keeps].
Qed.

Lemma clean_rule_keeps_reserved_witness :
  is_bit_op (lit "--set-xmark") = false.
Proof.
  apply (clean_rule_keeps_reserved (split_whitespace (lit "-A foreign -j MARK --set-xmark 0x1/0x1")) 2097152
    ltac:(vm_compute; reflexivity) 4%nat (lit "--set-xmark") ltac:(vm_compute; reflexivity)).
Defined.

Definition xor_table : list str :=
  [lit "-P OUTPUT ACCEPT"; lit "-A OUTPUT -j MARK --set-xmark 0x200000/0x0"].

(** The audit looks at masks only, and that is not enough: a value bit
    outside its mask is flipped.  A foreign table whose OUTPUT chain holds the
    rule iptables prints for [MARK --xor-mark 0x200000] passes the audit as clean
    for the reserved mark [0x200000], although the rule inverts that bit of every
    packet mark. *)
Theorem xor_rule_passes_audit :
  audit_mangle_output xor_table [] (lit "MISH_EGRESS_V1") 2097152 = Clean /\
  forall mark, Z.testbit (set_xmark 2097152 0 mark) 21 = negb (Z.testbit mark 21).
Proof.
  split; [vm_compute; reflexivity|]. intros mark. unfold set_xmark. rewrite Z.ldiff_0_r, Z.lxor_spec.
  change (Z.testbit 2097152 21) with true. apply xorb_true_r.
Qed.
