(* ===== verification/RootPolicy.v ===== *)
(** * Root policy contract

    [RootPolicyContract] of [src/crates/cellular/src/root_policy.rs]: the
    policy identity and its selection, the exact shape of the product's
    firewall lines and rules, and the structural verifications.  The commands
    are the strings the root session is given. *)

From Stdlib Require Import String.
From stdpp Require Import gmap.
From S2P Require Import Prelude Net RustStr MangleAudit.

Definition IPV4_RULE_SHOW : str := lit "ip -4 rule show".
Definition IPV6_RULE_SHOW : str := lit "ip -6 rule show".
Definition IPTABLES : str := lit "iptables".
Definition IP6TABLES : str := lit "ip6tables".
Definition RELEASE_MISH_CHAIN : str := lit "MISH_EGRESS_V1".
Definition DEBUG_MISH_CHAIN : str := lit "MISH_DEBUG_EGRESS_V1".

Inductive RootPolicyNamespace := Release | Debug.

Record PolicyIdentity := {
  mark_hex : str;
  mark_value : Z;
  lookup_priority : Z;
  guard_priority : Z }.

#[export] Instance PolicyIdentity_eq_dec : EqDecision PolicyIdentity.
Proof. solve_decision. Defined.

Definition identity (hex : str) (value lookup guard : Z) : PolicyIdentity :=
  {| mark_hex := hex; mark_value := value; lookup_priority := lookup; guard_priority := guard |}.

Definition RELEASE_POLICY_CANDIDATES : list PolicyIdentity :=
  [identity (lit "0x200000") 0x200000 9500 9501;
   identity (lit "0x400000") 0x400000 9520 9521;
   identity (lit "0x800000") 0x800000 9540 9541;
   identity (lit "0x1000000") 0x1000000 9560 9561].

Definition DEBUG_POLICY_CANDIDATES : list PolicyIdentity :=
  [identity (lit "0x2000000") 0x2000000 9580 9581;
   identity (lit "0x4000000") 0x4000000 9600 9601;
   identity (lit "0x8000000") 0x8000000 9620 9621;
   identity (lit "0x10000000") 0x10000000 9640 9641].

Record RootPolicySnapshot := {
  ipv4_rules : list str;
  ipv6_rules : list str;
  ipv4_mangle : list str;
  ipv6_mangle : list str }.

Inductive PolicyIdentityResolution := Selected (i : PolicyIdentity) | ResolutionCollision.

Inductive MangleFamilyState :=
| Missing | DetachedExact | DetachedMismatch | AttachedExact | AttachedDuplicateExact | InvalidReferenced.

#[export] Instance MangleFamilyState_eq_dec : EqDecision MangleFamilyState.
Proof. solve_decision. Defined.

Inductive RootPolicyStructuralFailure :=
| IdentityUnavailable | ReservedPolicyCollision | MangleMismatch | GuardMismatch | LookupStillPresent.

Record RootPolicyContract := {
  product_uid : Z;
  namespace : RootPolicyNamespace;
  active_identity : option PolicyIdentity }.

Definition contract_new (uid : Z) (ns : RootPolicyNamespace) : option RootPolicyContract :=
  if uid =? 0 then None else Some {| product_uid := uid; namespace := ns; active_identity := None |}.

Definition set_active (c : RootPolicyContract) (i : option PolicyIdentity) : RootPolicyContract :=
  {| product_uid := product_uid c; namespace := namespace c; active_identity := i |}.

Definition clear_active_identity (c : RootPolicyContract) : RootPolicyContract := set_active c None.

Definition chain_name (c : RootPolicyContract) : str :=
  match namespace c with Release => RELEASE_MISH_CHAIN | Debug => DEBUG_MISH_CHAIN end.

Definition candidates (c : RootPolicyContract) : list PolicyIdentity :=
  match namespace c with Release => RELEASE_POLICY_CANDIDATES | Debug => DEBUG_POLICY_CANDIDATES end.

Definition legacy_mark_hex (c : RootPolicyContract) : str :=
  match candidates c with i :: _ => mark_hex i | [] => [] end.

(** ** Lines and commands *)

Definition output_jump (c : RootPolicyContract) : str :=
  lit "-A OUTPUT -m owner --uid-owner " ++ to_decimal (product_uid c) ++ lit " -j " ++ chain_name c.

Definition output_jump_delete (c : RootPolicyContract) (binary : str) : str :=
  binary ++ lit " -t mangle -D OUTPUT -m owner --uid-owner " ++ to_decimal (product_uid c)
  ++ lit " -j " ++ chain_name c.

Definition stale_owner_jump_delete (c : RootPolicyContract) (binary : str) (stale_uid : Z) : str :=
  binary ++ lit " -t mangle -D OUTPUT -m owner --uid-owner " ++ to_decimal stale_uid
  ++ lit " -j " ++ chain_name c.

Definition create_chain_command (c : RootPolicyContract) (binary : str) : str :=
  binary ++ lit " -t mangle -N " ++ chain_name c.
Definition flush_chain_command (c : RootPolicyContract) (binary : str) : str :=
  binary ++ lit " -t mangle -F " ++ chain_name c.
Definition delete_chain_command (c : RootPolicyContract) (binary : str) : str :=
  binary ++ lit " -t mangle -X " ++ chain_name c.
Definition output_jump_add (c : RootPolicyContract) (binary : str) : str :=
  binary ++ lit " -t mangle " ++ output_jump c.

Definition legacy_tail (c : RootPolicyContract) : str :=
  to_decimal (product_uid c) ++ lit " -m conntrack --ctstate NEW -j MARK --set-xmark "
  ++ legacy_mark_hex c ++ lit "/" ++ legacy_mark_hex c.

Definition legacy_selector_line (c : RootPolicyContract) : str :=
  lit "-A OUTPUT -m owner --uid-owner " ++ legacy_tail c.
Definition legacy_selector_check (c : RootPolicyContract) (binary : str) : str :=
  binary ++ lit " -t mangle -C OUTPUT -m owner --uid-owner " ++ legacy_tail c.
Definition legacy_selector_delete (c : RootPolicyContract) (binary : str) : str :=
  binary ++ lit " -t mangle -D OUTPUT -m owner --uid-owner " ++ legacy_tail c.

(** All accepted identities use mark == mask. *)
Definition mark_spec (i : PolicyIdentity) : str := mark_hex i ++ lit "/" ++ mark_hex i.

Definition guard_command (verb : str) (i : PolicyIdentity) : str :=
  verb ++ to_decimal (guard_priority i) ++ lit " fwmark " ++ mark_hex i ++ lit "/" ++ mark_hex i
  ++ lit " unreachable".

Definition ipv4_guard_add (c : RootPolicyContract) : option str :=
  guard_command (lit "ip -4 rule add pref ") <$> active_identity c.
Definition ipv6_guard_add (c : RootPolicyContract) : option str :=
  guard_command (lit "ip -6 rule add pref ") <$> active_identity c.
Definition ipv4_guard_delete (c : RootPolicyContract) : option str :=
  guard_command (lit "ip -4 rule del pref ") <$> active_identity c.
Definition ipv6_guard_delete (c : RootPolicyContract) : option str :=
  guard_command (lit "ip -6 rule del pref ") <$> active_identity c.

Definition lookup_command (verb : str) (table : str) (i : PolicyIdentity) : str :=
  verb ++ to_decimal (lookup_priority i) ++ lit " fwmark " ++ mark_hex i ++ lit "/" ++ mark_hex i
  ++ lit " lookup " ++ table.

Definition ipv4_lookup_add (c : RootPolicyContract) (table : str) : option str :=
  if negb (is_safe_table_token table) then None
  else lookup_command (lit "ip -4 rule add pref ") table <$> active_identity c.
Definition ipv4_lookup_delete (c : RootPolicyContract) (table : str) : option str :=
  if negb (is_safe_table_token table) then None
  else lookup_command (lit "ip -4 rule del pref ") table <$> active_identity c.

(** The four rules of the product chain after its loopback exemption. *)
Definition owned_chain_lines (c : RootPolicyContract) (loopback : str) (i : PolicyIdentity) : list str :=
  let chain := chain_name c in
  let mark := mark_hex i in
  [lit "-A " ++ chain ++ lit " -d " ++ loopback ++ lit " -j RETURN";
   lit "-A " ++ chain ++ lit " -j CONNMARK --restore-mark --nfmask " ++ mark ++ lit " --ctmask " ++ mark;
   lit "-A " ++ chain ++ lit " -m conntrack --ctstate NEW -j MARK --set-xmark " ++ mark ++ lit "/" ++ mark;
   lit "-A " ++ chain ++ lit " -m conntrack --ctstate NEW -m mark --mark " ++ mark ++ lit "/" ++ mark
     ++ lit " -j CONNMARK --save-mark --nfmask " ++ mark ++ lit " --ctmask " ++ mark].

Definition ipv4_owned_chain_lines_for (c : RootPolicyContract) (i : PolicyIdentity) : list str :=
  owned_chain_lines c (lit "127.0.0.0/8") i.
Definition ipv6_owned_chain_lines_for (c : RootPolicyContract) (i : PolicyIdentity) : list str :=
  owned_chain_lines c (lit "::1/128") i.
Definition ipv4_owned_chain_lines (c : RootPolicyContract) : option (list str) :=
  ipv4_owned_chain_lines_for c <$> active_identity c.
Definition ipv6_owned_chain_lines (c : RootPolicyContract) : option (list str) :=
  ipv6_owned_chain_lines_for c <$> active_identity c.

Definition chain_definition (c : RootPolicyContract) : str := lit "-N " ++ chain_name c.

Definition ipv4_allowed_mangle_lines_for (c : RootPolicyContract) (i : PolicyIdentity) : list str :=
  [chain_definition c; output_jump c] ++ ipv4_owned_chain_lines_for c i ++ [legacy_selector_line c].
Definition ipv6_allowed_mangle_lines_for (c : RootPolicyContract) (i : PolicyIdentity) : list str :=
  [chain_definition c; output_jump c] ++ ipv6_owned_chain_lines_for c i ++ [legacy_selector_line c].

(** ** Recognising lines *)

Definition prefix_matches (actual expected : list str) : bool :=
  (length actual <=? length expected)%nat && (actual =b? take (length actual) expected).

Definition chain_lines (ls : list str) (chain : str) : list str :=
  List.filter (starts_with (lit "-A " ++ chain ++ lit " ")) ls.

Definition count_line (ls : list str) (line : str) : nat :=
  length (List.filter (fun l => l =b? line) ls).

Definition output_jump_count (c : RootPolicyContract) (ls : list str) : nat := count_line ls (output_jump c).

Definition exact_owner_jump_uid (c : RootPolicyContract) (line : str) : option Z :=
  match split_whitespace line with
  | [t0; t1; t2; t3; t4; t5; t6; t7] =>
      if (t0 =b? lit "-A") && (t1 =b? lit "OUTPUT") && (t2 =b? lit "-m") && (t3 =b? lit "owner")
         && (t4 =b? lit "--uid-owner") && (t6 =b? lit "-j") && (t7 =b? chain_name c)
      then match parse_u32 t5 with
           | Some uid => if uid =? 0 then None else Some uid
           | None => None
           end
      else None
  | _ => None
  end.

Definition stale_owner_jump_uids (c : RootPolicyContract) (ls : list str) : list Z :=
  fold_left (fun acc line =>
    match exact_owner_jump_uid c line with
    | None => acc
    | Some uid => if negb (uid =? product_uid c) && negb (list_contains acc uid) then acc ++ [uid] else acc
    end) ls [].

Definition line_is_owned_lookup_for (line : str) (i : PolicyIdentity) : bool :=
  if rpdb_priority line <>b? Some (lookup_priority i) then false
  else
    let tokens := split_whitespace line in
    (token_after tokens (lit "fwmark") =b? Some (mark_spec i))
    && is_some_and (token_after tokens (lit "lookup")) is_safe_table_token.

Definition line_is_owned_guard_for (line : str) (i : PolicyIdentity) : bool :=
  if rpdb_priority line <>b? Some (guard_priority i) then false
  else
    let tokens := split_whitespace line in
    (token_after tokens (lit "fwmark") =b? Some (mark_spec i))
    && list_contains tokens (lit "unreachable").

Definition owned_ipv4_lookup_tables (c : RootPolicyContract) (ls : list str) : list str :=
  match active_identity c with
  | None => []
  | Some i =>
      fold_left (fun acc line =>
        if rpdb_priority line <>b? Some (lookup_priority i) then acc
        else
          let tokens := split_whitespace line in
          if token_after tokens (lit "fwmark") =b? Some (mark_spec i)
          then push_table acc (token_after tokens (lit "lookup"))
          else acc) ls []
  end.

Definition is_owned_guard (c : RootPolicyContract) (line : str) : bool :=
  match active_identity c with
  | None => false
  | Some i => line_is_owned_guard_for line i
  end.

Definition is_owned_ipv4_guard (c : RootPolicyContract) (line : str) : bool := is_owned_guard c line.
Definition is_owned_ipv6_guard (c : RootPolicyContract) (line : str) : bool := is_owned_guard c line.

Definition is_owned_ipv4_lookup (c : RootPolicyContract) (line : str) : bool :=
  negb (owned_ipv4_lookup_tables c [line] =b? []).

Definition touches_reserved (line : str) (i : PolicyIdentity) : bool :=
  (rpdb_priority line =b? Some (lookup_priority i))
  || (rpdb_priority line =b? Some (guard_priority i))
  || rpdb_line_touches_reserved_mark line (mark_value i).

Definition is_foreign_reserved_ipv4_line (line : str) (i : PolicyIdentity) : bool :=
  if line_is_owned_lookup_for line i || line_is_owned_guard_for line i then false
  else touches_reserved line i.

Definition is_foreign_reserved_ipv6_line (line : str) (i : PolicyIdentity) : bool :=
  if line_is_owned_guard_for line i then false else touches_reserved line i.

(** ** Verification *)

Definition audit_reserved_policy_space (c : RootPolicyContract) (s : RootPolicySnapshot)
    (i : PolicyIdentity) : MangleAuditResult :=
  if existsb (fun line => is_foreign_reserved_ipv4_line line i) (ipv4_rules s)
     || existsb (fun line => is_foreign_reserved_ipv6_line line i) (ipv6_rules s)
  then Collision
  else
    match audit_mangle_output (ipv4_mangle s) (ipv4_allowed_mangle_lines_for c i) (chain_name c) (mark_value i) with
    | Clean =>
        audit_mangle_output (ipv6_mangle s) (ipv6_allowed_mangle_lines_for c i) (chain_name c) (mark_value i)
    | other => other
    end.

Definition mangle_family_state (c : RootPolicyContract) (ls : list str) (ipv4 : bool)
    : option MangleFamilyState :=
  match active_identity c with
  | None => None
  | Some i =>
      let definition_count := count_line ls (chain_definition c) in
      let jump_count := count_line ls (output_jump c) in
      let actual := chain_lines ls (chain_name c) in
      let expected := if ipv4 then ipv4_owned_chain_lines_for c i else ipv6_owned_chain_lines_for c i in
      Some (if (definition_count =? 0)%nat then
              if (jump_count =? 0)%nat then Missing else InvalidReferenced
            else if negb (definition_count =? 1)%nat then InvalidReferenced
            else if negb (jump_count =? 0)%nat && (actual <>b? expected) then InvalidReferenced
            else if (1 <? jump_count)%nat then AttachedDuplicateExact
            else if (jump_count =? 1)%nat then AttachedExact
            else if actual =b? expected then DetachedExact
            else DetachedMismatch)
  end.

Definition verify_fail_closed_base (c : RootPolicyContract) (s : RootPolicySnapshot)
    : result RootPolicyStructuralFailure unit :=
  let? i := ok_or (active_identity c) IdentityUnavailable in
  if audit_reserved_policy_space c s i <>b? Clean then Err ReservedPolicyCollision
  else if (mangle_family_state c (ipv4_mangle s) true <>b? Some AttachedExact)
          || (mangle_family_state c (ipv6_mangle s) false <>b? Some AttachedExact)
  then Err MangleMismatch
  else if negb (existsb (is_owned_ipv4_guard c) (ipv4_rules s))
          || negb (existsb (is_owned_ipv6_guard c) (ipv6_rules s))
  then Err GuardMismatch
  else if owned_ipv4_lookup_tables c (ipv4_rules s) <>b? [] then Err LookupStillPresent
  else Ok tt.

(** A mangle line that is the product's own: its chain or its old selector. *)
Definition product_mangle_line (c : RootPolicyContract) (line : str) : bool :=
  contains (chain_name c) line || (line =b? legacy_selector_line c).

Definition verify_exact_cleanup (c : RootPolicyContract) (s : RootPolicySnapshot) : bool :=
  (owned_ipv4_lookup_tables c (ipv4_rules s) =b? [])
  && negb (existsb (is_owned_ipv4_guard c) (ipv4_rules s))
  && negb (existsb (is_owned_ipv6_guard c) (ipv6_rules s))
  && negb (existsb (product_mangle_line c) (ipv4_mangle s))
  && negb (existsb (product_mangle_line c) (ipv6_mangle s)).

Fixpoint any_candidate_signature (c : RootPolicyContract) (s : RootPolicySnapshot)
    (cs : list PolicyIdentity) : bool * RootPolicyContract :=
  match cs with
  | [] => (false, c)
  | i :: cs =>
      let c := set_active c (Some i) in
      if existsb (fun line => is_owned_ipv4_lookup c line || is_owned_ipv4_guard c line) (ipv4_rules s)
         || existsb (is_owned_ipv6_guard c) (ipv6_rules s)
      then (true, c)
      else any_candidate_signature c s cs
  end.

(** The active identity is tried on each candidate and put back. *)
Definition has_any_product_signature (c : RootPolicyContract) (s : RootPolicySnapshot)
    : bool * RootPolicyContract :=
  if existsb (product_mangle_line c) (ipv4_mangle s) || existsb (product_mangle_line c) (ipv6_mangle s)
  then (true, c)
  else
    let previous := active_identity c in
    let '(found, c') := any_candidate_signature c s (candidates c) in
    (found, set_active c' previous).

Definition is_exact_known_product_state (c : RootPolicyContract) (ls : list str) (ipv4 : bool) : bool :=
  if negb (count_line ls (chain_definition c) =? 1)%nat then false
  else
    let actual_chain := chain_lines ls (chain_name c) in
    let matching := length (List.filter (fun i =>
      actual_chain =b? (if ipv4 then ipv4_owned_chain_lines_for c i else ipv6_owned_chain_lines_for c i))
      (candidates c)) in
    if negb (matching =? 1)%nat then false
    else
      forallb (fun line => (line =b? chain_definition c) || list_contains actual_chain line
                           || is_some (exact_owner_jump_uid c line))
        (List.filter (contains (chain_name c)) ls).

(** ** Identity resolution *)

Fixpoint first_clean (c : RootPolicyContract) (s : RootPolicySnapshot) (cs : list PolicyIdentity)
    : PolicyIdentityResolution * RootPolicyContract :=
  match cs with
  | [] => (ResolutionCollision, set_active c None)
  | i :: cs =>
      let c := set_active c (Some i) in
      if audit_reserved_policy_space c s i =b? Clean then (Selected i, c) else first_clean c s cs
  end.

Definition resolve_identity (c : RootPolicyContract) (s : RootPolicySnapshot)
    : PolicyIdentityResolution * RootPolicyContract :=
  let chain := chain_name c in
  let ipv4_chain_exists := existsb (fun l => l =b? chain_definition c) (ipv4_mangle s) in
  let ipv6_chain_exists := existsb (fun l => l =b? chain_definition c) (ipv6_mangle s) in
  let ipv4_chain := chain_lines (ipv4_mangle s) chain in
  let ipv6_chain := chain_lines (ipv6_mangle s) chain in
  let jumps4 := negb (output_jump_count c (ipv4_mangle s) =? 0)%nat in
  let jumps6 := negb (output_jump_count c (ipv6_mangle s) =? 0)%nat in
  if (negb ipv4_chain_exists && jumps4) || (negb ipv6_chain_exists && jumps6)
     || (jumps4 && (ipv4_chain =b? [])) || (jumps6 && (ipv6_chain =b? []))
  then (ResolutionCollision, c)
  else
    let has_chain_state := (ipv4_chain <>b? []) || (ipv6_chain <>b? []) in
    let compatible := List.filter (fun i =>
      prefix_matches ipv4_chain (ipv4_owned_chain_lines_for c i)
      && prefix_matches ipv6_chain (ipv6_owned_chain_lines_for c i)) (candidates c) in
    if has_chain_state && (compatible =b? []) then (ResolutionCollision, c)
    else
      let cs := if has_chain_state then compatible else candidates c in
      match active_identity c with
      | Some active =>
          if negb (list_contains cs active) then (ResolutionCollision, c)
          else if audit_reserved_policy_space c s active =b? Clean then (Selected active, c)
          else (ResolutionCollision, c)
      | None => first_clean c s cs
      end.

(** ** Lemmas *)

Lemma audit_set_active c s i j :
  audit_reserved_policy_space (set_active c j) s i = audit_reserved_policy_space c s i.
Proof. done. Qed.

Lemma first_clean_spec c s cs r c' :
  first_clean c s cs = (r, c') ->
  match r with
  | Selected i => c' = set_active c (Some i) /\ i ∈ cs /\ audit_reserved_policy_space c s i = Clean
  | ResolutionCollision => c' = set_active c None
  end.
Proof.
  revert c. induction cs as [|i cs IH]; intros c; cbn [first_clean]; [by intros [= <- <-]|].
  rewrite audit_set_active. case_bool_decide as Ha.
  - intros [= <- <-]. split_and!; [done|left|done].
  - intros H%IH. destruct r; [|done]. destruct H as (-> & H1 & H2). split_and!; [done|by right|done].
Qed.

(** The owned lookup tables are none exactly when no line is an owned lookup. *)
Lemma owned_tables_empty c i ls :
  active_identity c = Some i ->
  owned_ipv4_lookup_tables c ls = [] <-> Forall (fun line => line_is_owned_lookup_for line i = false) ls.
Proof.
  intros Hi. unfold owned_ipv4_lookup_tables. rewrite Hi.
  induction ls as [|line ls IH] using rev_ind; [by split; [constructor|]|].
  rewrite fold_left_app, Forall_app, <- IH. cbn [fold_left].
  generalize (fold_left (fun acc line =>
        if rpdb_priority line <>b? Some (lookup_priority i) then acc
        else if token_after (split_whitespace line) (lit "fwmark") =b? Some (mark_spec i)
          then push_table acc (token_after (split_whitespace line) (lit "lookup"))
          else acc) ls []). intros acc. clear IH.
  assert (Forall (fun line => line_is_owned_lookup_for line i = false) [line] <->
    line_is_owned_lookup_for line i = false) as ->.
  { rewrite Forall_cons_iff. split; [by intros [? _]|done]. }
  unfold line_is_owned_lookup_for, push_table.
  destruct (rpdb_priority line <>b? _) eqn:Hp; [split; [done|by intros []]|].
  destruct (token_after (split_whitespace line) (lit "fwmark") =b? Some (mark_spec i));
    simpl; [|split; [done|by intros []]].
  destruct (token_after (split_whitespace line) (lit "lookup")) as [t|]; simpl; [|split; [done|by intros []]].
  destruct (is_safe_table_token t); simpl; [|split; [done|by intros []]].
  split; [|by intros []]. destruct (list_contains acc t) eqn:Hc; simpl; [|by intros [? ?]%app_nil].
  intros ->. done.
Qed.

Lemma owned_lookup_line c i line :
  active_identity c = Some i -> is_owned_ipv4_lookup c line = line_is_owned_lookup_for line i.
Proof.
  intros Hi. unfold is_owned_ipv4_lookup. pose proof (owned_tables_empty c i [line] Hi) as H.
  destruct (line_is_owned_lookup_for line i) eqn:E.
  - apply negb_true_iff, bool_decide_eq_false_2. intros H'%H. apply Forall_cons_iff in H' as [H' _]. congruence.
  - apply negb_false_iff, bool_decide_eq_true_2. apply H. by constructor.
Qed.

(** Whether the listing shows rules of the identity [i]. *)
Definition shows_identity (s : RootPolicySnapshot) (i : PolicyIdentity) : bool :=
  existsb (fun line => line_is_owned_lookup_for line i || line_is_owned_guard_for line i) (ipv4_rules s)
  || existsb (fun line => line_is_owned_guard_for line i) (ipv6_rules s).

Lemma any_candidate_signature_spec c s cs b c' :
  any_candidate_signature c s cs = (b, c') ->
  b = existsb (shows_identity s) cs /\ set_active c' (active_identity c) = set_active c (active_identity c).
Proof.
  revert c. induction cs as [|i cs IH]; intros c; cbn [any_candidate_signature existsb]; [by intros [= <- <-]|].
  assert (existsb (fun line => is_owned_ipv4_lookup (set_active c (Some i)) line
      || is_owned_ipv4_guard (set_active c (Some i)) line) (ipv4_rules s)
    || existsb (is_owned_ipv6_guard (set_active c (Some i))) (ipv6_rules s) = shows_identity s i) as ->.
  { unfold shows_identity. f_equal. induction (ipv4_rules s) as [|l ls IHl]; [done|]. cbn [existsb].
    rewrite IHl. by rewrite (owned_lookup_line (set_active c (Some i)) i). }
  destruct (shows_identity s i) eqn:E; [intros [= <- <-]; by split|].
  intros H. destruct (IH _ H) as [-> Hs]. split; [done|]. apply (f_equal (fun x => set_active x (active_identity c))) in Hs.
  done.
Qed.

Lemma cleanup_iff c s i :
  verify_exact_cleanup (set_active c (Some i)) s = true <->
  shows_identity s i = false /\
  existsb (product_mangle_line c) (ipv4_mangle s) = false /\
  existsb (product_mangle_line c) (ipv6_mangle s) = false.
Proof.
  unfold verify_exact_cleanup, shows_identity. rewrite !andb_true_iff, !negb_true_iff, bool_decide_eq_true.
  rewrite (owned_tables_empty (set_active c (Some i)) i) by done.
  assert (existsb (fun line => line_is_owned_lookup_for line i || line_is_owned_guard_for line i) (ipv4_rules s) = false
    <-> Forall (fun line => line_is_owned_lookup_for line i = false) (ipv4_rules s) /\
        existsb (fun line => line_is_owned_guard_for line i) (ipv4_rules s) = false) as H.
  { rewrite !existsb_false. induction (ipv4_rules s) as [|l ls IH]; [done|].
    rewrite !Forall_cons_iff, IH, orb_false_iff. tauto. }
  rewrite orb_false_iff, H. tauto.
Qed.

(** *** The installed policy *)

(** The listings after the product's own commands on an otherwise empty table. *)
Definition installed_mangle (c : RootPolicyContract) (owned : list str) : list str :=
  (chain_definition c :: owned) ++ [output_jump c].

Definition guard_line (i : PolicyIdentity) : str :=
  to_decimal (guard_priority i) ++ [58; 9] ++ lit "from all fwmark " ++ mark_spec i ++ lit " unreachable".

Definition installed (c : RootPolicyContract) (i : PolicyIdentity) : RootPolicySnapshot :=
  {| ipv4_rules := [guard_line i];
     ipv6_rules := [guard_line i];
     ipv4_mangle := installed_mangle c (ipv4_owned_chain_lines_for c i);
     ipv6_mangle := installed_mangle c (ipv6_owned_chain_lines_for c i) |}.

Definition jump_tokens (uid chain : str) : list str :=
  [lit "-A"; lit "OUTPUT"; lit "-m"; lit "owner"; lit "--uid-owner"; uid; lit "-j"; chain].

Definition jump_line (uid chain : str) : str :=
  lit "-A OUTPUT -m owner --uid-owner " ++ uid ++ lit " -j " ++ chain.

Lemma jump_line_tokens uid chain :
  printable uid -> uid <> [] -> printable chain -> chain <> [] ->
  split_whitespace (jump_line uid chain) = jump_tokens uid chain.
Proof.
  intros Hu Hu0 Hc Hc0. unfold jump_line, jump_tokens.
  change (lit "-A OUTPUT -m owner --uid-owner " ++ uid ++ lit " -j " ++ chain)
    with (lit "-A" ++ 32 :: lit "OUTPUT" ++ 32 :: lit "-m" ++ 32 :: lit "owner" ++ 32 ::
          lit "--uid-owner" ++ 32 :: uid ++ 32 :: lit "-j" ++ 32 :: chain).
  rewrite !split_whitespace_cons, split_whitespace_last by (done || by apply printable_dec_intro).
  done.
Qed.

Lemma jump_line_join uid chain : join (lit " ") (jump_tokens uid chain) = jump_line uid chain.
Proof. unfold join, jump_line, jump_tokens. simpl. by rewrite app_nil_r. Qed.

Lemma digits_not_jump w : Forall (fun b => is_ascii_digit b = true) w -> is_jump w = false.
Proof.
  intros H. unfold is_jump. destruct w as [|b w]; [done|].
  apply Forall_cons_iff in H as [Hb%between_true _].
  rewrite !bool_decide_eq_false_2; [done|..]; unfold lit; simpl; intros [= ? ?]; lia.
Qed.

Lemma jump_tokens_target uid chain :
  Forall (fun b => is_ascii_digit b = true) uid -> is_jump chain = false -> starts_with [45] chain = false ->
  chain_target (jump_tokens uid chain) = Named chain.
Proof.
  intros Hu Hc Hs. apply digits_not_jump in Hu. unfold chain_target, jump_tokens.
  cbn [chain_target_from head]. rewrite Hu, Hc, Hs. done.
Qed.

Lemma collect_app l1 l2 u r :
  collect (l1 ++ l2) u r =
  match collect l1 u r with Some (u', r') => collect l2 u' r' | None => None end.
Proof.
  revert u r. induction l1 as [|l l1 IH]; intros u r; [done|]. cbn [app collect].
  destruct (head _ =b? Some (lit "-N")); [|destruct (head _ =b? Some (lit "-A")); [|apply IH]].
  all: destruct (split_whitespace l) as [|t0 [|t1 [|t2 ts]]]; try done.
  - destruct (_ || _); [done|apply IH].
  - destruct (negb _); [done|apply IH].
Qed.

Lemma contract_uid_digits c : Forall (fun b => is_ascii_digit b = true) (to_decimal (product_uid c)).
Proof. apply to_decimal_digits. Qed.

Lemma contract_uid_nonempty n : to_decimal n <> [].
Proof. destruct (decimal_digits_shape 20 n []) as (b & r & E & _); [lia|]. unfold to_decimal. by rewrite E. Qed.

(** Lines that are all the product's own never collide by name. *)
Lemma own_lines_no_collision allowed chain ls :
  Forall (fun l => l ∈ allowed) ls ->
  existsb (fun line => contains chain line && negb (list_contains allowed line)) ls = false.
Proof.
  intros H. apply existsb_false. eapply Forall_impl; [|exact H]. intros l Hl. simpl.
  apply list_contains_true in Hl. rewrite Hl. apply andb_false_r.
Qed.

Lemma jump_line_trim uid chain :
  printable chain -> chain <> [] -> trim (jump_line uid chain) = jump_line uid chain.
Proof.
  intros Hc Hne. destruct (exists_last Hne) as (front & b & ->).
  apply Forall_app in Hc as [_ Hb]. apply Forall_cons_iff in Hb as [Hb _]. unfold jump_line.
  change (lit "-A OUTPUT -m owner --uid-owner ") with (45 :: lit "A OUTPUT -m owner --uid-owner ").
  rewrite (app_assoc (lit " -j ")), (app_assoc uid), app_assoc. apply (trim_printable_ends 45); done.
Qed.

(** One level of the search, on a chain not seen yet. *)
Lemma visit_fresh (rules : gmap str (list (list str))) (user : gset str) (allowed : list str) (mark : Z)
    (fuel : nat) (chain : str) (st : gmap str Z) :
  st !! chain = None ->
  visit rules user allowed mark (S fuel) chain st =
  visit_rules rules user allowed mark (visit rules user allowed mark fuel) chain
    (default [] (rules !! chain)) (<[chain := 1]> st).
Proof. intros H. cbn [visit]. by rewrite H. Qed.

(** A product chain whose rules jump to no declared chain. *)
Definition leaf_rule (allowed : list str) (user : gset str) (rules : gmap str (list (list str)))
    (tokens : list str) : bool :=
  list_contains allowed (join (lit " ") tokens) &&
  match chain_target tokens with
  | Named t => bool_decide (t ∉ user) && is_none (rules !! t) && (t <>b? OUTPUT)
  | _ => false
  end.

Lemma visit_leaf (rules : gmap str (list (list str))) (user : gset str) (allowed : list str) (mark : Z)
    (fuel : nat) (chain : str) (st : gmap str Z) :
  st !! chain = None ->
  forallb (leaf_rule allowed user rules) (default [] (rules !! chain)) = true ->
  visit rules user allowed mark (S fuel) chain st = Some (Clean, <[chain := 2]> (<[chain := 1]> st)).
Proof.
  intros Hst Hl. rewrite visit_fresh by done. generalize (<[chain := 1]> st). intros st1.
  revert Hl. generalize (default [] (rules !! chain)). intros rs.
  induction rs as [|tokens rs IH]; intros Hl; [done|]. cbn [forallb] in Hl. rust_bool.
  unfold leaf_rule in H. rust_bool. cbn [visit_rules]. rewrite H.
  destruct (chain_target tokens) as [| |t]; try done. rust_bool.
  rewrite bool_decide_eq_false_2 by done. unfold is_none in *.
  destruct (is_some (rules !! t)); [done|auto].
Qed.

Section installed_audit.
Context (w chain : str) (owned allowed : list str) (mark : Z)
        (user : gset str) (rules : gmap str (list (list str))).
Hypothesis w_digits : Forall (fun b => is_ascii_digit b = true) w.
Hypothesis w_nonempty : w <> [].
Hypothesis chain_printable : forallb is_ascii_graphic chain = true.
Hypothesis chain_plain : is_jump chain = false /\ starts_with [45] chain = false /\ chain <> [] /\ chain <> OUTPUT.
Hypothesis mark_nonzero : mark <> 0.
Hypothesis own_lines : Forall (fun l => l ∈ allowed) ((lit "-N " ++ chain) :: owned ++ [jump_line w chain]).
Hypothesis concrete_normal : normalized ((lit "-N " ++ chain) :: owned) = (lit "-N " ++ chain) :: owned.
Hypothesis concrete_collect : collect ((lit "-N " ++ chain) :: owned) ∅ ∅ = Some (user, rules).
Hypothesis chain_declared : bool_decide (chain ∈ user) = true.
Hypothesis no_output : rules !! OUTPUT = None.
Hypothesis leaves : forallb (leaf_rule allowed user rules) (default [] (rules !! chain)) = true.

Lemma output_not_chain : OUTPUT <> chain.
Proof using chain_plain. intros He. by apply chain_plain. Qed.

Lemma installed_normal :
  normalized (((lit "-N " ++ chain) :: owned) ++ [jump_line w chain])
  = ((lit "-N " ++ chain) :: owned) ++ [jump_line w chain].
Proof using w_digits w_nonempty chain_printable chain_plain concrete_normal.
  unfold normalized in *. rewrite fmap_app, List.filter_app, concrete_normal. f_equal.
  cbn [fmap list_fmap List.filter]. rewrite jump_line_trim; [done|by apply printable_dec_intro|tauto].
Qed.

Lemma installed_collect :
  collect (((lit "-N " ++ chain) :: owned) ++ [jump_line w chain]) ∅ ∅
  = Some (user, <[OUTPUT := [jump_tokens w chain]]> rules).
Proof using w_digits w_nonempty chain_printable chain_plain concrete_collect no_output.
  rewrite collect_app, concrete_collect. cbn [collect].
  rewrite jump_line_tokens; [|by apply digits_printable|done|by apply printable_dec_intro|tauto].
  unfold jump_tokens. change (lit "OUTPUT") with OUTPUT. simpl head.
  rewrite (bool_decide_eq_false_2 (Some (lit "-A") = Some (lit "-N"))) by done.
  rewrite bool_decide_eq_true_2 by done. change (is_safe_chain_name OUTPUT) with true. simpl.
  by rewrite no_output.
Qed.

Lemma leaves_installed :
  forallb (leaf_rule allowed user (<[OUTPUT := [jump_tokens w chain]]> rules))
    (default [] (<[OUTPUT := [jump_tokens w chain]]> rules !! chain)) = true.
Proof using leaves chain_plain chain_declared.
  rewrite lookup_insert_ne by apply output_not_chain.
  apply forallb_Forall. apply forallb_Forall in leaves. eapply Forall_impl; [|exact leaves].
  intros tokens. unfold leaf_rule. destruct (list_contains _ _); [simpl|done].
  destruct (chain_target tokens) as [| |t]; try done. intros H. rust_bool.
  rewrite bool_decide_eq_true_2 by done. rewrite lookup_insert_ne by congruence.
  rewrite bool_decide_eq_false_2 by done. rewrite H1. done.
Qed.

Lemma installed_audit_clean :
  audit_mangle_output (((lit "-N " ++ chain) :: owned) ++ [jump_line w chain]) allowed chain mark = Clean.
Proof using All.
  unfold audit_mangle_output. rewrite (proj2 (Z.eqb_neq mark 0)) by done.
  rewrite installed_normal, own_lines_no_collision by done. rewrite installed_collect.
  unfold visit_fuel. change (2 + size user)%nat with (S (S (size user))).
  rewrite visit_fresh by done. rewrite lookup_insert_eq. unfold default, id. cbn [visit_rules].
  rewrite jump_line_join.
  assert (list_contains allowed (jump_line w chain) = true) as ->.
  { apply list_contains_true. rewrite app_comm_cons in own_lines. apply Forall_app in own_lines as [_ H].
    by apply Forall_cons_iff in H as [H _]. }
  rewrite jump_tokens_target by tauto. rewrite chain_declared.
  rewrite visit_leaf; [done| |apply leaves_installed].
  rewrite lookup_insert_ne by apply output_not_chain. apply lookup_empty.
Qed.
End installed_audit.

Lemma count_line_app l1 l2 x : count_line (l1 ++ l2) x = (count_line l1 x + count_line l2 x)%nat.
Proof. unfold count_line. by rewrite List.filter_app, length_app. Qed.

Lemma count_line_self x : count_line [x] x = 1%nat.
Proof. unfold count_line. simpl. by rewrite bool_decide_eq_true_2. Qed.

(** The family state of a table made of the product's chain and one jump. *)
Lemma attached_exact c ls owned i (ipv4 : bool) :
  active_identity c = Some i -> ls = (chain_definition c :: owned) ++ [output_jump c] ->
  owned = (if ipv4 then ipv4_owned_chain_lines_for c i else ipv6_owned_chain_lines_for c i) ->
  count_line (chain_definition c :: owned) (chain_definition c) = 1%nat ->
  count_line [output_jump c] (chain_definition c) = 0%nat ->
  count_line (chain_definition c :: owned) (output_jump c) = 0%nat ->
  chain_lines ls (chain_name c) = owned ->
  mangle_family_state c ls ipv4 = Some AttachedExact.
Proof.
  intros Hi -> Ho H1 H2 H3 H4. unfold mangle_family_state. rewrite Hi, H4.
  rewrite !count_line_app, H1, H2, H3, count_line_self. simpl.
  by rewrite bool_decide_eq_true_2.
Qed.

Lemma allowed_own_lines (d j l : str) (owned : list str) :
  Forall (fun x => x ∈ [d; j] ++ owned ++ [l]) (d :: owned ++ [j]).
Proof.
  apply List.Forall_forall. intros x Hx. apply list_elem_of_In in Hx.
  rewrite ?elem_of_cons, ?elem_of_app, ?elem_of_cons in *. naive_solver.
Qed.

(** What has to be checked of a chain and its rules, by evaluation: nothing
    here depends on the user id. *)
Definition family_check (chain : str) (owned : list str) : bool :=
  forallb is_ascii_graphic chain && negb (is_jump chain) && negb (starts_with [45] chain)
  && (chain <>b? []) && (chain <>b? OUTPUT)
  && (normalized ((lit "-N " ++ chain) :: owned) =b? (lit "-N " ++ chain) :: owned)
  && match collect ((lit "-N " ++ chain) :: owned) ∅ ∅ with
     | None => false
     | Some (user, rules) =>
         bool_decide (chain ∈ user) && is_none (rules !! OUTPUT)
         && forallb (leaf_rule owned user rules) (default [] (rules !! chain))
     end.

Lemma leaf_rule_mono allowed allowed' user rules tokens :
  (forall x, x ∈ allowed -> x ∈ allowed') ->
  leaf_rule allowed user rules tokens = true -> leaf_rule allowed' user rules tokens = true.
Proof.
  intros Hsub. unfold leaf_rule. rewrite !andb_true_iff, !list_contains_true. intros [H1 H2]. eauto.
Qed.

Lemma family_check_clean c i owned :
  family_check (chain_name c) owned = true -> mark_value i <> 0 ->
  audit_mangle_output (installed_mangle c owned)
    ([chain_definition c; output_jump c] ++ owned ++ [legacy_selector_line c])
    (chain_name c) (mark_value i) = Clean.
Proof.
  unfold family_check. intros H Hm. rust_bool.
  destruct (collect _ _ _) as [[user rules]|] eqn:Hcol; [|done]. rust_bool.
  apply (installed_audit_clean (to_decimal (product_uid c)) (chain_name c) owned _ _ user rules).
  - apply to_decimal_digits.
  - apply contract_uid_nonempty.
  - done.
  - split_and!; done.
  - done.
  - apply allowed_own_lines.
  - done.
  - done.
  - by apply bool_decide_eq_true_2.
  - unfold is_none in *. destruct (rules !! OUTPUT); done.
  - apply forallb_Forall.
    match goal with H : forallb _ _ = true |- _ => apply forallb_Forall in H; eapply Forall_impl; [|exact H] end.
    intros tokens. apply leaf_rule_mono. intros x Hx. apply elem_of_app. right. apply elem_of_app. by left.
Qed.

(** The identities of both namespaces pass the check. *)
Definition identity_checks (c : RootPolicyContract) (i : PolicyIdentity) : bool :=
  family_check (chain_name c) (ipv4_owned_chain_lines_for c i)
  && family_check (chain_name c) (ipv6_owned_chain_lines_for c i)
  && (mark_value i <>b? 0)
  && negb (is_foreign_reserved_ipv4_line (guard_line i) i)
  && negb (is_foreign_reserved_ipv6_line (guard_line i) i)
  && line_is_owned_guard_for (guard_line i) i && negb (line_is_owned_lookup_for (guard_line i) i).

Lemma candidate_checks c i : i ∈ candidates c -> identity_checks c i = true.
Proof.
  intros Hc.
  assert (forallb (identity_checks {| product_uid := 0; namespace := namespace c; active_identity := None |})
    (candidates c) = true) as H.
  { unfold candidates. destruct (namespace c); vm_compute; reflexivity. }
  apply forallb_Forall in H. apply list_elem_of_In in Hc.
  exact (proj1 (List.Forall_forall _ _) H i Hc).
Qed.

Lemma installed_reserved_clean c i :
  i ∈ candidates c -> audit_reserved_policy_space c (installed c i) i = Clean.
Proof.
  intros Hc%candidate_checks. unfold identity_checks in Hc. rust_bool.
  unfold audit_reserved_policy_space, installed. cbn [ipv4_rules ipv6_rules existsb].
  repeat match goal with H : is_foreign_reserved_ipv4_line _ _ = _ |- _ => rewrite H; clear H
    | H : is_foreign_reserved_ipv6_line _ _ = _ |- _ => rewrite H; clear H end.
  cbn [orb ipv4_mangle ipv6_mangle].
  unfold ipv4_allowed_mangle_lines_for, ipv6_allowed_mangle_lines_for. by rewrite !family_check_clean by done.
Qed.

(** The jump is neither the definition nor a rule of the chain. *)
Lemma jump_line_foreign c :
  count_line [output_jump c] (chain_definition c) = 0%nat /\
  chain_lines [output_jump c] (chain_name c) = [].
Proof.
  unfold count_line, chain_lines, output_jump, chain_definition, chain_name.
  destruct (namespace c); (split; [cbn [List.filter]; rewrite bool_decide_eq_false_2; done|done]).
Qed.

Lemma owned_shape c i (ipv4 : bool) :
  i ∈ candidates c ->
  let owned := if ipv4 then ipv4_owned_chain_lines_for c i else ipv6_owned_chain_lines_for c i in
  count_line (chain_definition c :: owned) (chain_definition c) = 1%nat /\
  chain_lines (chain_definition c :: owned) (chain_name c) = owned.
Proof.
  intros Hc. cbv zeta.
  assert (forallb (fun i => forallb (fun owned =>
      (count_line ((lit "-N " ++ chain_name c) :: owned) (lit "-N " ++ chain_name c) =? 1)%nat
      && (chain_lines ((lit "-N " ++ chain_name c) :: owned) (chain_name c) =b? owned))
    [ipv4_owned_chain_lines_for {| product_uid := 0; namespace := namespace c; active_identity := None |} i;
     ipv6_owned_chain_lines_for {| product_uid := 0; namespace := namespace c; active_identity := None |} i])
    (candidates c) = true) as H.
  { unfold candidates, chain_name. destruct (namespace c); vm_compute; reflexivity. }
  apply forallb_Forall in H. apply list_elem_of_In in Hc.
  pose proof (proj1 (List.Forall_forall _ _) H i Hc) as Hi. cbn [forallb] in Hi. rust_bool.
  destruct ipv4; split; try done; by apply Nat.eqb_eq.
Qed.

(** Lines of the chain differ from the jump in their first bytes. *)
Lemma owned_not_jump c i (ipv4 : bool) :
  count_line (chain_definition c :: if ipv4 then ipv4_owned_chain_lines_for c i else ipv6_owned_chain_lines_for c i)
    (output_jump c) = 0%nat.
Proof.
  assert (forall a r s, starts_with (lit "-A OUTPUT") (a ++ r) = false ->
    bool_decide (a ++ r = lit "-A OUTPUT" ++ s) = false) as Hne.
  { intros a r s Hs. apply bool_decide_eq_false_2. intros He.
    assert (starts_with (lit "-A OUTPUT") (a ++ r) = true); [|congruence]. apply starts_with_true. eauto. }
  unfold count_line, output_jump, chain_definition, ipv4_owned_chain_lines_for, ipv6_owned_chain_lines_for,
    owned_chain_lines, chain_name.
  change (lit "-A OUTPUT -m owner --uid-owner ") with (lit "-A OUTPUT" ++ lit " -m owner --uid-owner ").
  rewrite <- app_assoc. destruct ipv4, (namespace c); cbn [List.filter]; by rewrite !Hne by reflexivity.
Qed.

Lemma installed_attached c i (ipv4 : bool) :
  active_identity c = Some i -> i ∈ candidates c ->
  mangle_family_state c (if ipv4 then ipv4_mangle (installed c i) else ipv6_mangle (installed c i)) ipv4
  = Some AttachedExact.
Proof.
  intros Hi Hc. destruct (owned_shape c i ipv4 Hc) as [H1 H2]. destruct (jump_line_foreign c) as [H3 H4].
  eapply (attached_exact c _ (if ipv4 then ipv4_owned_chain_lines_for c i else ipv6_owned_chain_lines_for c i) i);
    try done.
  - by destruct ipv4.
  - apply owned_not_jump.
  - replace (if ipv4 then _ else _) with
      ((chain_definition c :: if ipv4 then ipv4_owned_chain_lines_for c i else ipv6_owned_chain_lines_for c i)
       ++ [output_jump c]) by (by destruct ipv4).
    unfold chain_lines in *. by rewrite List.filter_app, H2, H4, app_nil_r.
Qed.

Lemma owner_jump_parses c uid :
  1 <= uid <= u32_max -> exact_owner_jump_uid c (jump_line (to_decimal uid) (chain_name c)) = Some uid.
Proof.
  intros Hu. unfold exact_owner_jump_uid.
  assert (printable (chain_name c) /\ chain_name c <> []) as [Hc1 Hc2].
  { unfold chain_name. destruct (namespace c); (split; [by apply printable_dec_intro|done]). }
  rewrite jump_line_tokens; [|apply digits_printable, to_decimal_digits|apply contract_uid_nonempty|done|done].
  unfold jump_tokens. rewrite !bool_decide_eq_true_2 by done. simpl.
  unfold parse_u32. rewrite parse_to_decimal by (unfold u64_max, u32_max in *; lia).
  by rewrite (proj2 (Z.eqb_neq uid 0)) by lia.
Qed.

(** ** Properties *)


Definition demo_identity : PolicyIdentity := identity (lit "0x400000") 0x400000 9520 9521.
Definition demo_contract : RootPolicyContract :=
  {| product_uid := 10234; namespace := Release; active_identity := Some demo_identity |}.


(** A selected identity is safe and sticky.  Whatever the listings,
    [resolve_identity] only selects a candidate of its namespace whose reserved
    priorities and mark are free of foreign use and which agrees with every
    product rule already present; it makes exactly that identity the active
    one, never replaces an identity that was active before, and on a collision
    keeps the active identity it had. *)
Theorem resolve_identity_sound c s r c' :
  resolve_identity c s = (r, c') ->
  match r with
  | Selected i =>
      c' = set_active c (Some i) /\ i ∈ candidates c /\
      audit_reserved_policy_space c' s i = Clean /\
      (forall j, active_identity c = Some j -> j = i) /\
      (chain_lines (ipv4_mangle s) (chain_name c) <> [] \/ chain_lines (ipv6_mangle s) (chain_name c) <> [] ->
       prefix_matches (chain_lines (ipv4_mangle s) (chain_name c)) (ipv4_owned_chain_lines_for c i) = true /\
       prefix_matches (chain_lines (ipv6_mangle s) (chain_name c)) (ipv6_owned_chain_lines_for c i) = true)
  | ResolutionCollision => c' = set_active c (active_identity c)
  end.
Proof.
  unfold resolve_identity. assert (c = set_active c (active_identity c)) as Hc by (by destruct c).
  destruct (_ || _ || _ || _); [by intros [= <- <-]|].
  set (has := _ || _). set (compatible := List.filter _ _).
  destruct (has && _); [by intros [= <- <-]|].
  set (cs := if has then compatible else candidates c).
  assert (forall i, i ∈ cs -> i ∈ candidates c /\
    (chain_lines (ipv4_mangle s) (chain_name c) <> [] \/ chain_lines (ipv6_mangle s) (chain_name c) <> [] ->
     prefix_matches (chain_lines (ipv4_mangle s) (chain_name c)) (ipv4_owned_chain_lines_for c i) = true /\
     prefix_matches (chain_lines (ipv6_mangle s) (chain_name c)) (ipv6_owned_chain_lines_for c i) = true)) as Hcs.
  { intros i Hi. subst cs. destruct has eqn:Hh.
    - apply list_elem_of_In, filter_In in Hi as [Hi Hp]. apply andb_true_iff in Hp. by rewrite list_elem_of_In.
    - split; [done|]. intros Hl. exfalso. subst has. rust_bool. tauto. }
  destruct (active_identity c) as [active|] eqn:Ha.
  - destruct (negb (list_contains cs active)) eqn:Hn; [by intros [= <- <-]|]. apply negb_false_iff, list_contains_true in Hn.
    destruct (audit_reserved_policy_space c s active =b? Clean) eqn:Hclean; intros [= <- <-]; [|done].
    rust_bool. destruct (Hcs _ Hn) as [H1 H2]. split_and!; [done|done|done|congruence|done].
  - intros H%first_clean_spec. destruct r as [i|]; [|done]. destruct H as (-> & Hi & Hclean).
    destruct (Hcs _ Hi) as [H1 H2]. split_and!; [done|done|by rewrite audit_set_active|done|done].
Qed.

(** Listings that use the priority and mark of another candidate. *)
Definition busy_snapshot : RootPolicySnapshot :=
  {| ipv4_rules := [lit "0: from all lookup local"; lit "9500: from all fwmark 0x200000/0x200000 lookup other"];
     ipv6_rules := []; ipv4_mangle := [lit "-P OUTPUT ACCEPT"]; ipv6_mangle := [] |}.

Lemma resolve_identity_sound_witness :
  audit_reserved_policy_space (resolve_identity demo_contract busy_snapshot).2 busy_snapshot demo_identity = Clean.
Proof.
  apply (resolve_identity_sound demo_contract busy_snapshot (Selected demo_identity)
    (resolve_identity demo_contract busy_snapshot).2). vm_compute. reflexivity.
Defined.

(** The removal check is complete.  [has_any_product_signature] leaves the
    contract as it was, and answers no exactly when the exact-cleanup check
    would pass under every candidate identity of the namespace, so state left by
    an identity chosen in an earlier run is not overlooked. *)
Theorem signature_search_complete c s :
  (has_any_product_signature c s).2 = c /\
  ((has_any_product_signature c s).1 = false <->
   forall i, i ∈ candidates c -> verify_exact_cleanup (set_active c (Some i)) s = true).
Proof.
  unfold has_any_product_signature.
  assert (forall x : RootPolicyContract, set_active x (active_identity x) = x) as Hid by (by intros []).
  assert (exists i, i ∈ candidates c) as [i0 Hi0].
  { unfold candidates. destruct (namespace c); eexists; left. }
  setoid_rewrite cleanup_iff.
  destruct (existsb (product_mangle_line c) (ipv4_mangle s)) eqn:H4;
    [split; [done|split; [done|intros H; specialize (H i0 Hi0); naive_solver]]|].
  destruct (existsb (product_mangle_line c) (ipv6_mangle s)) eqn:H6;
    [split; [done|split; [done|intros H; specialize (H i0 Hi0); naive_solver]]|]. simpl.
  destruct (any_candidate_signature c s (candidates c)) as [b c'] eqn:Hb.
  apply any_candidate_signature_spec in Hb as [-> Hc']. simpl. split; [by rewrite Hc', Hid|].
  rewrite existsb_false, List.Forall_forall. setoid_rewrite list_elem_of_In. naive_solver.
Qed.

(** Owner jumps are recognised exactly.  The jump the product writes for a
    user id is parsed back to that id, so a jump left for another user is listed
    as stale (once) and the product's own never is; and deleting a stale jump
    names the very line that was found. *)
Theorem owner_jump_roundtrip c uid :
  1 <= uid <= u32_max -> 1 <= product_uid c <= u32_max -> uid <> product_uid c ->
  exact_owner_jump_uid c (jump_line (to_decimal uid) (chain_name c)) = Some uid /\
  stale_owner_jump_uids c [jump_line (to_decimal uid) (chain_name c); output_jump c;
                           jump_line (to_decimal uid) (chain_name c)] = [uid] /\
  stale_owner_jump_delete c IPTABLES uid =
    IPTABLES ++ lit " -t mangle -D" ++ drop 2 (jump_line (to_decimal uid) (chain_name c)).
Proof.
  intros Hu Hpu Hne. pose proof (owner_jump_parses c uid Hu) as Huid.
  pose proof (owner_jump_parses c _ Hpu) as Hown.
  split_and!; [done| |done].
  unfold stale_owner_jump_uids. change (output_jump c) with (jump_line (to_decimal (product_uid c)) (chain_name c)).
  cbn [fold_left]. rewrite Huid, Hown, Z.eqb_refl.
  rewrite (proj2 (Z.eqb_neq uid (product_uid c))) by done. simpl.
  by rewrite bool_decide_eq_true_2.
Qed.

Lemma owner_jump_roundtrip_witness :
  stale_owner_jump_uids demo_contract
    [jump_line (to_decimal 10999) (chain_name demo_contract); output_jump demo_contract;
     jump_line (to_decimal 10999) (chain_name demo_contract)] = [10999].
Proof. apply (owner_jump_roundtrip demo_contract 10999); unfold u32_max; simpl; lia. Defined.
