(* ===== verification/ProxyAuth.v ===== *)
(** * Proxy credentials, authentication policy and targets

    Models [src/crates/proxy/src/lib.rs], [auth.rs], [target.rs] and the Basic
    credential encoding of [http_connect.rs].

    [ProxyAuthenticator] is the source's trait; [AuthenticatorLaws] states what
    an authenticator promises to the protocol parsers (which user name and
    password pairs it grants), and both implementations discharge it. *)

From Stdlib Require Import String.
From S2P Require Import Prelude Net RustStr.

Definition MIXED_PORT : Z := 1080.
Definition SOCKS5_PORT : Z := 1081.
Definition HTTP_CONNECT_PORT : Z := 3128.

Inductive ProxyProtocol := Mixed | Socks5 | Http.

#[export] Instance ProxyProtocol_eq_dec : EqDecision ProxyProtocol.
Proof. solve_decision. Defined.

Record ProxyListener := { protocol : ProxyProtocol; port : Z }.

Definition canonical_listeners : list ProxyListener :=
  [{| protocol := Mixed; port := MIXED_PORT |};
   {| protocol := Socks5; port := SOCKS5_PORT |};
   {| protocol := Http; port := HTTP_CONNECT_PORT |}].

Inductive ProxyPolicyError :=
| WildcardListenAddress | EmptyUsername | EmptyPassword
| DuplicateCredentialUsername | InvalidTemporarySocks5Credential.

Record ProxyCredentialMaterial := { username : str; password : str }.

Definition material_new (u p : str) : result ProxyPolicyError ProxyCredentialMaterial :=
  if trim u =b? [] then Err EmptyUsername
  else if trim p =b? [] then Err EmptyPassword
  else Ok {| username := u; password := p |}.

Record ProxyServingPlan := { listen_address : IpAddr; plan_credentials : ProxyCredentialMaterial }.

Definition plan_canonical (a : IpAddr) (c : ProxyCredentialMaterial)
    : result ProxyPolicyError ProxyServingPlan :=
  if ip_is_unspecified a then Err WildcardListenAddress
  else Ok {| listen_address := a; plan_credentials := c |}.

(** ** Targets *)

Definition MAX_DOMAIN_BYTES : nat := 255.

Inductive ProxyTargetError := EmptyDomain | DomainTooLong | InvalidDomain | ZeroPort.

Inductive ProxyTargetHost :=
| HostIpv4 (a : Ipv4Addr)
| HostIpv6 (a : Ipv6Addr)
| HostDomain (d : str).

Record ProxyConnectTarget := { host : ProxyTargetHost; target_port : Z }.

Definition target_new (h : ProxyTargetHost) (p : Z) : result ProxyTargetError ProxyConnectTarget :=
  if p =? 0 then Err ZeroPort else Ok {| host := h; target_port := p |}.

Definition target_ipv4 (a : Ipv4Addr) (p : Z) := target_new (HostIpv4 a) p.
Definition target_ipv6 (a : Ipv6Addr) (p : Z) := target_new (HostIpv6 a) p.

Definition host_domain (d : str) : result ProxyTargetError ProxyTargetHost :=
  if d =b? [] then Err EmptyDomain
  else if (MAX_DOMAIN_BYTES <? length d)%nat then Err DomainTooLong
  else if existsb (fun b => (b =? 0) || is_ascii_control b) d then Err InvalidDomain
  else Ok (HostDomain d).

Definition target_domain (d : str) (p : Z) : result ProxyTargetError ProxyConnectTarget :=
  let? h := host_domain d in target_new h p.

Definition numeric (h : ProxyTargetHost) : option IpAddr :=
  match h with
  | HostIpv4 a => Some (IpV4 a)
  | HostIpv6 a => Some (IpV6 a)
  | HostDomain _ => None
  end.

(** ** Base64 and the Basic value *)

Definition BASE64 : str := lit "ABCDEFGHIJKLMNOPQRSTUVWXYZabcdefghijklmnopqrstuvwxyz0123456789+/".

Definition b64 (i : Z) : Z := nth (Z.to_nat i) BASE64 0.

Fixpoint encode_base64 (input : str) : str :=
  match input with
  | [] => []
  | [a] => [b64 (Z.shiftr a 2); b64 (Z.lor (Z.shiftl (Z.land a 3) 4) (Z.shiftr 0 4)); 61; 61]
  | [a; b] =>
      [b64 (Z.shiftr a 2); b64 (Z.lor (Z.shiftl (Z.land a 3) 4) (Z.shiftr b 4));
       b64 (Z.lor (Z.shiftl (Z.land b 15) 2) (Z.shiftr 0 6)); 61]
  | a :: b :: c :: rest =>
      b64 (Z.shiftr a 2) :: b64 (Z.lor (Z.shiftl (Z.land a 3) 4) (Z.shiftr b 4))
      :: b64 (Z.lor (Z.shiftl (Z.land b 15) 2) (Z.shiftr c 6)) :: b64 (Z.land c 63)
      :: encode_base64 rest
  end.

Definition BASIC_PREFIX : str := lit "Basic ".

Definition expected_basic_authorization (c : ProxyCredentialMaterial) : str :=
  BASIC_PREFIX ++ encode_base64 (username c ++ [58] ++ password c).

Definition basic_authorization_value (c : ProxyCredentialMaterial) : str := expected_basic_authorization c.

(** ** Authentication *)

Inductive ProxyPrincipal := Primary | Temporary.

(** The loop of [constant_time_eq]: [fuel] indices left from [index]. *)
Fixpoint constant_time_loop (expected supplied : str) (n index : nat) (difference : Z) : Z :=
  match n with
  | O => difference
  | S n =>
      let left := nth index expected 0 in
      let right := nth index supplied 0 in
      constant_time_loop expected supplied n (S index) (Z.lor difference (Z.lxor left right))
  end.

Definition constant_time_eq (expected supplied : str) : bool :=
  constant_time_loop expected supplied (Nat.max (length expected) (length supplied)) 0
    (Z.lxor (Z.of_nat (length expected)) (Z.of_nat (length supplied))) =? 0.

Definition valid_socks_pair (c : ProxyCredentialMaterial) : bool :=
  (1 <=? length (username c))%nat && (length (username c) <=? 255)%nat
  && (1 <=? length (password c))%nat && (length (password c) <=? 255)%nat.

(** The trait; [classify_*] have the trait's default bodies. *)
Class ProxyAuthenticator (A : Type) := {
  matches_http_basic : A -> str -> bool;
  matches_username_password : A -> str -> str -> bool;
  classify_http_basic : A -> str -> option ProxyPrincipal;
  classify_username_password : A -> str -> str -> option ProxyPrincipal;
  temporary_session_available : A -> bool;
  socks_compatible : A -> bool }.

Definition default_classify (matched : bool) : option ProxyPrincipal :=
  if matched then Some Primary else None.

Definition material_matches_http_basic (c : ProxyCredentialMaterial) (supplied : str) : bool :=
  constant_time_eq (basic_authorization_value c) supplied.

Definition material_matches_username_password (c : ProxyCredentialMaterial) (u p : str) : bool :=
  constant_time_eq (username c) u && constant_time_eq (password c) p.

#[export] Instance material_authenticator : ProxyAuthenticator ProxyCredentialMaterial := {
  matches_http_basic := material_matches_http_basic;
  matches_username_password := material_matches_username_password;
  classify_http_basic := fun c s => default_classify (material_matches_http_basic c s);
  classify_username_password := fun c u p => default_classify (material_matches_username_password c u p);
  temporary_session_available := fun _ => false;
  socks_compatible := valid_socks_pair }.

(** [temporary_available] is what the callback answers when it is asked. *)
Record ProxyCredentialAdmission := {
  primary : ProxyCredentialMaterial;
  temporary : option ProxyCredentialMaterial;
  temporary_available : option bool }.

Definition primary_only (c : ProxyCredentialMaterial) : ProxyCredentialAdmission :=
  {| primary := c; temporary := None; temporary_available := None |}.

Definition with_temporary (p t : ProxyCredentialMaterial) (available : bool)
    : result ProxyPolicyError ProxyCredentialAdmission :=
  if username p =b? username t then Err DuplicateCredentialUsername
  else if negb (valid_socks_pair t) then Err InvalidTemporarySocks5Credential
  else Ok {| primary := p; temporary := Some t; temporary_available := Some available |}.

Definition callback (a : ProxyCredentialAdmission) : bool :=
  is_some_and (temporary_available a) (fun b => b).

Definition admission_temporary_session_available (a : ProxyCredentialAdmission) : bool :=
  is_some (temporary a) && callback a.

Definition admission_matches_http_basic (a : ProxyCredentialAdmission) (s : str) : bool :=
  let primary_ok := material_matches_http_basic (primary a) s in
  let temporary_matches := is_some_and (temporary a) (fun t => material_matches_http_basic t s) in
  let temporary_ok := temporary_matches && callback a in
  primary_ok || temporary_ok.

Definition admission_matches_username_password (a : ProxyCredentialAdmission) (u p : str) : bool :=
  let primary_ok := material_matches_username_password (primary a) u p in
  let temporary_matches := is_some_and (temporary a) (fun t => material_matches_username_password t u p) in
  let temporary_ok := temporary_matches && callback a in
  primary_ok || temporary_ok.

Definition admission_classify_http_basic (a : ProxyCredentialAdmission) (s : str) : option ProxyPrincipal :=
  if material_matches_http_basic (primary a) s then Some Primary
  else if is_some_and (temporary a) (fun t => material_matches_http_basic t s)
          && admission_temporary_session_available a
  then Some Temporary else None.

Definition admission_classify_username_password (a : ProxyCredentialAdmission) (u p : str)
    : option ProxyPrincipal :=
  if material_matches_username_password (primary a) u p then Some Primary
  else if is_some_and (temporary a) (fun t => material_matches_username_password t u p)
          && admission_temporary_session_available a
  then Some Temporary else None.

Definition admission_socks_compatible (a : ProxyCredentialAdmission) : bool :=
  valid_socks_pair (primary a) && is_none_or (temporary a) valid_socks_pair.

#[export] Instance admission_authenticator : ProxyAuthenticator ProxyCredentialAdmission := {
  matches_http_basic := admission_matches_http_basic;
  matches_username_password := admission_matches_username_password;
  classify_http_basic := admission_classify_http_basic;
  classify_username_password := admission_classify_username_password;
  temporary_session_available := admission_temporary_session_available;
  socks_compatible := admission_socks_compatible }.

(** ** Constant-time comparison *)

Lemma lor_eq_0 a b : Z.lor a b = 0 <-> a = 0 /\ b = 0.
Proof. apply Z.lor_eq_0_iff. Qed.

Lemma constant_time_loop_0 e s n i d :
  constant_time_loop e s n i d = 0 <->
  d = 0 /\ forall k, (i <= k < i + n)%nat -> nth k e 0 = nth k s 0.
Proof.
  revert i d. induction n as [|n IH]; intros i d; simpl.
  - split; [intros ->; split; [done|lia]|by intros [-> _]].
  - rewrite IH, lor_eq_0, Z.lxor_eq_0_iff. split.
    + intros [[-> Hi] Hk]. split; [done|]. intros k Hr.
      destruct (decide (k = i)) as [->|]; [done|]. apply Hk. lia.
    + intros [-> Hk]. split; [split; [done|apply Hk; lia]|]. intros k Hr. apply Hk. lia.
Qed.

(** The comparison without early exit decides equality. *)
Lemma constant_time_eq_spec e s : constant_time_eq e s = true <-> e = s.
Proof.
  unfold constant_time_eq. rewrite Z.eqb_eq, constant_time_loop_0, Z.lxor_eq_0_iff, Nat2Z.inj_iff.
  split; [|intros ->; done]. intros [Hl Hk].
  apply (nth_ext e s 0 0); [done|]. intros k Hlt. apply Hk. lia.
Qed.

(** ** Base64 is injective on bytes *)

Definition sextets : list Z := Z.of_nat <$> seq 0 64.

Lemma sextets_spec i : 0 <= i < 64 -> In i sextets.
Proof.
  intros Hi. unfold sextets. apply in_map_iff. exists (Z.to_nat i). split; [lia|]. apply in_seq. lia.
Qed.

(** The decoder, used as the specification of the encoding. *)
Definition b64_value (c : Z) : Z := Z.of_nat (default 0%nat (position (fun x => x =? c) BASE64)).

Lemma b64_value_b64 i : 0 <= i < 64 -> b64_value (b64 i) = i /\ b64 i <> 61.
Proof.
  intros Hi.
  assert (forallb (fun i => (b64_value (b64 i) =? i) && negb (b64 i =? 61)) sextets = true) as H
    by (vm_compute; reflexivity).
  rewrite forallb_forall in H. specialize (H i (sextets_spec i Hi)). by rust_bool.
Qed.

Fixpoint decode_base64 (s : str) : str :=
  match s with
  | c1 :: c2 :: c3 :: c4 :: rest =>
      let v1 := b64_value c1 in let v2 := b64_value c2 in
      let v3 := b64_value c3 in let v4 := b64_value c4 in
      if c3 =? 61 then [v1 * 4 + v2 / 16]
      else if c4 =? 61 then [v1 * 4 + v2 / 16; (v2 mod 16) * 16 + v3 / 4]
      else (v1 * 4 + v2 / 16) :: ((v2 mod 16) * 16 + v3 / 4) :: ((v3 mod 4) * 64 + v4) :: decode_base64 rest
  | _ => []
  end.

(** The four sextets of three bytes, arithmetically. *)
Lemma sextet1 a : Z.shiftr a 2 = a / 4.
Proof. by rewrite Z.shiftr_div_pow2. Qed.
Lemma sextet2 a b : is_u8 b -> Z.lor (Z.shiftl (Z.land a 3) 4) (Z.shiftr b 4) = (a mod 4) * 16 + b / 16.
Proof.
  intros [H0 H1]. unfold u8_max in H1. rewrite (Z.shiftr_div_pow2 b) by lia. change (2 ^ 4) with 16.
  rewrite lor_shift_add; [|lia|change (2 ^ 4) with 16; split; [apply Z.div_pos; lia|apply Z.div_lt_upper_bound; lia]].
  change 3 with (2 ^ 2 - 1). by rewrite land_mod.
Qed.
Lemma sextet3 b c : is_u8 c -> Z.lor (Z.shiftl (Z.land b 15) 2) (Z.shiftr c 6) = (b mod 16) * 4 + c / 64.
Proof.
  intros [H0 H1]. unfold u8_max in H1. rewrite (Z.shiftr_div_pow2 c) by lia. change (2 ^ 6) with 64.
  rewrite lor_shift_add; [|lia|change (2 ^ 2) with 4; split; [apply Z.div_pos; lia|apply Z.div_lt_upper_bound; lia]].
  change 15 with (2 ^ 4 - 1). by rewrite land_mod.
Qed.
Lemma sextet4 c : Z.land c 63 = c mod 64.
Proof. change 63 with (2 ^ 6 - 1). by rewrite land_mod. Qed.

Lemma is_u8_0 : is_u8 0.
Proof. unfold in_width, u8_max. lia. Qed.

Lemma sextet_range a b c : is_u8 a -> is_u8 b -> is_u8 c ->
  0 <= a / 4 < 64 /\ 0 <= (a mod 4) * 16 + b / 16 < 64 /\
  0 <= (b mod 16) * 4 + c / 64 < 64 /\ 0 <= c mod 64 < 64.
Proof.
  unfold in_width, u8_max. intros Ha Hb Hc.
  assert (0 <= b / 16 < 16) by (split; [apply Z.div_pos; lia|apply Z.div_lt_upper_bound; lia]).
  assert (0 <= c / 64 < 4) by (split; [apply Z.div_pos; lia|apply Z.div_lt_upper_bound; lia]).
  assert (0 <= a / 4 < 64) by (split; [apply Z.div_pos; lia|apply Z.div_lt_upper_bound; lia]).
  pose proof (Z.mod_pos_bound a 4). pose proof (Z.mod_pos_bound b 16). pose proof (Z.mod_pos_bound c 64). lia.
Qed.

(** What the decoder reads back from the sextets. *)
Lemma sextet_values a b c : is_u8 b -> is_u8 c ->
  a / 4 * 4 + ((a mod 4) * 16 + b / 16) / 16 = a /\
  (((a mod 4) * 16 + b / 16) mod 16) * 16 + ((b mod 16) * 4 + c / 64) / 4 = b /\
  (((b mod 16) * 4 + c / 64) mod 4) * 64 + c mod 64 = c.
Proof.
  unfold in_width, u8_max. intros Hb Hc.
  assert (0 <= b / 16 < 16) by (split; [apply Z.div_pos; lia|apply Z.div_lt_upper_bound; lia]).
  assert (0 <= c / 64 < 4) by (split; [apply Z.div_pos; lia|apply Z.div_lt_upper_bound; lia]).
  rewrite !Z.div_add_l, !(Z.add_comm (_ * _)), !Z.mod_add by lia.
  rewrite !(Z.div_small (_ / _)), !(Z.mod_small (_ / _)) by lia.
  pose proof (Z.div_mod a 4). pose proof (Z.div_mod b 16). pose proof (Z.div_mod c 64). lia.
Qed.

Lemma decode_encode_base64 x : Forall is_u8 x -> decode_base64 (encode_base64 x) = x.
Proof.
  remember (length x) as n eqn:Hn. revert x Hn.
  induction (Nat.lt_wf_0 n) as [n _ IH]. intros x -> Hx.
  destruct x as [|a [|b [|c x]]]; [done|..]; repeat apply Forall_cons_iff in Hx as [? Hx]; simpl.
  all: rewrite ?sextet1, ?sextet2, ?sextet3, ?sextet4 by (done || apply is_u8_0).
  - destruct (sextet_range a 0 0) as (R1 & R2 & _ & _); [done|apply is_u8_0..|].
    destruct (b64_value_b64 _ R1) as [-> _]. destruct (b64_value_b64 _ R2) as [-> _].
    by destruct (sextet_values a 0 0) as (-> & _ & _); [apply is_u8_0..|].
  - destruct (sextet_range a b 0) as (R1 & R2 & R3 & _); [done|done|apply is_u8_0|].
    destruct (b64_value_b64 _ R1) as [-> _]. destruct (b64_value_b64 _ R2) as [-> _].
    destruct (b64_value_b64 _ R3) as [-> Hp]. rewrite (proj2 (Z.eqb_neq _ _) Hp).
    by destruct (sextet_values a b 0) as (-> & -> & _); [done|apply is_u8_0|].
  - destruct (sextet_range a b c) as (R1 & R2 & R3 & R4); [done..|].
    destruct (b64_value_b64 _ R1) as [-> _]. destruct (b64_value_b64 _ R2) as [-> _].
    destruct (b64_value_b64 _ R3) as [-> Hp]. destruct (b64_value_b64 _ R4) as [-> Hq].
    rewrite (proj2 (Z.eqb_neq _ _) Hp), (proj2 (Z.eqb_neq _ _) Hq).
    destruct (sextet_values a b c) as (-> & -> & ->); [done..|].
    rewrite (IH (length x)); [done|simpl; lia|done|done].
Qed.

(** Different byte strings have different encodings. *)
Lemma encode_base64_inj x y :
  Forall is_u8 x -> Forall is_u8 y -> encode_base64 x = encode_base64 y -> x = y.
Proof.
  intros Hx Hy He. rewrite <- (decode_encode_base64 x), <- (decode_encode_base64 y) by done. by rewrite He.
Qed.

(** ** What an authenticator promises *)

(** The Basic header value of a pair. *)
Definition basic_value (u p : str) : str := expected_basic_authorization {| username := u; password := p |}.

(** [grants a u p]: the policy admits the pair right now.  The protocol
    parsers are verified against these laws. *)
Class AuthenticatorLaws (A : Type) `{ProxyAuthenticator A} := {
  grants : A -> str -> str -> Prop;
  law_username_password a u p : matches_username_password a u p = true <-> grants a u p;
  law_http_basic a s : matches_http_basic a s = true <-> exists u p, grants a u p /\ s = basic_value u p;
  law_classify a u p :
    is_Some (classify_username_password a u p) <-> matches_username_password a u p = true;
  law_classify_http a s : is_Some (classify_http_basic a s) <-> matches_http_basic a s = true;
  law_temporary a u p :
    classify_username_password a u p = Some Temporary -> temporary_session_available a = true }.

Lemma material_username_password c u p :
  material_matches_username_password c u p = true <-> u = username c /\ p = password c.
Proof.
  unfold material_matches_username_password. rewrite andb_true_iff, !constant_time_eq_spec. naive_solver.
Qed.

Lemma material_http_basic c s :
  material_matches_http_basic c s = true <-> s = basic_value (username c) (password c).
Proof. unfold material_matches_http_basic. rewrite constant_time_eq_spec. by destruct c. Qed.

Lemma default_classify_Some b : is_Some (default_classify b) <-> b = true.
Proof. destruct b; simpl; split; [done|done|by intros []|done]. Qed.

#[export] Instance material_laws : AuthenticatorLaws ProxyCredentialMaterial.
Proof.
  refine {| grants := fun c u p => u = username c /\ p = password c |}.
  - apply material_username_password.
  - intros c s. simpl. rewrite material_http_basic. split.
    + intros ->. eauto.
    + intros (u & p & [-> ->] & ->). done.
  - intros c u p. apply default_classify_Some.
  - intros c s. apply default_classify_Some.
  - intros c u p. simpl. by destruct (material_matches_username_password c u p).
Defined.

Definition admission_grants (a : ProxyCredentialAdmission) (u p : str) : Prop :=
  (u = username (primary a) /\ p = password (primary a)) \/
  exists t, temporary a = Some t /\ callback a = true /\ u = username t /\ p = password t.

Lemma is_some_and_true {A} (o : option A) f : is_some_and o f = true <-> exists x, o = Some x /\ f x = true.
Proof. destruct o; simpl; naive_solver. Qed.

Lemma admission_username_password a u p :
  admission_matches_username_password a u p = true <-> admission_grants a u p.
Proof.
  unfold admission_matches_username_password, admission_grants.
  rewrite orb_true_iff, andb_true_iff, is_some_and_true, material_username_password.
  setoid_rewrite material_username_password. naive_solver.
Qed.

Lemma admission_http_basic a s :
  admission_matches_http_basic a s = true <-> exists u p, admission_grants a u p /\ s = basic_value u p.
Proof.
  unfold admission_matches_http_basic, admission_grants.
  rewrite orb_true_iff, andb_true_iff, is_some_and_true, material_http_basic.
  setoid_rewrite material_http_basic. split.
  - intros [->|[(t & Ht & ->) Hc]]; eexists _, _; (split; [|done]); eauto 10.
  - intros (u & p & [[-> ->]|(t & Ht & Hc & -> & ->)] & ->); eauto.
Qed.

Lemma admission_classify a u p :
  is_Some (admission_classify_username_password a u p) <-> admission_matches_username_password a u p = true.
Proof.
  unfold admission_classify_username_password, admission_matches_username_password, admission_temporary_session_available.
  destruct (material_matches_username_password (primary a) u p); [by simpl|].
  destruct (temporary a) as [t|]; simpl; [|split; [by intros []|done]].
  destruct (material_matches_username_password t u p), (callback a); simpl; split; try done; by intros [].
Qed.

Lemma admission_classify_http a s :
  is_Some (admission_classify_http_basic a s) <-> admission_matches_http_basic a s = true.
Proof.
  unfold admission_classify_http_basic, admission_matches_http_basic, admission_temporary_session_available.
  destruct (material_matches_http_basic (primary a) s); [by simpl|].
  destruct (temporary a) as [t|]; simpl; [|split; [by intros []|done]].
  destruct (material_matches_http_basic t s), (callback a); simpl; split; try done; by intros [].
Qed.

#[export] Instance admission_laws : AuthenticatorLaws ProxyCredentialAdmission.
Proof.
  refine {| grants := admission_grants |}.
  - apply admission_username_password.
  - apply admission_http_basic.
  - apply admission_classify.
  - apply admission_classify_http.
  - intros a u p. simpl. unfold admission_classify_username_password. rust_cases; try done.
Defined.

(** ** Properties *)

(** Two grants, never one for the other.  A policy built with a temporary
    credential admits a SOCKS5 pair exactly when it is the primary pair, or the
    temporary pair while the availability callback answers yes; the principal
    it reports is the one whose secret was presented, and an expired temporary
    pair is refused although the primary still works. *)
Theorem dual_credentials_exact p t available a u pw :
  with_temporary p t available = Ok a ->
  classify_username_password a u pw =
    (if bool_decide (u = username p /\ pw = password p) then Some Primary
     else if bool_decide (u = username t /\ pw = password t) && available then Some Temporary
     else None) /\
  (matches_username_password a u pw = true <->
   (u = username p /\ pw = password p) \/ (available = true /\ u = username t /\ pw = password t)).
Proof.
  unfold with_temporary. destruct (username p =b? username t) eqn:Hu; [done|].
  destruct (negb _); [done|]. intros [= <-]. split.
  - simpl. unfold admission_classify_username_password. simpl.
    assert (forall c, material_matches_username_password c u pw = bool_decide (u = username c /\ pw = password c)) as E.
    { intros c. apply eq_bool_prop_intro. rewrite bool_decide_spec, <- material_username_password. apply Is_true_true. }
    by rewrite !E.
  - simpl. rewrite admission_username_password. unfold admission_grants. simpl. naive_solver.
Qed.

Definition demo_primary : ProxyCredentialMaterial := {| username := lit "mish-01"; password := lit "aa" |}.
Definition demo_temporary : ProxyCredentialMaterial := {| username := lit "guest"; password := lit "bb" |}.

Lemma dual_credentials_exact_witness :
  classify_username_password
    {| primary := demo_primary; temporary := Some demo_temporary; temporary_available := Some false |}
    (lit "guest") (lit "bb") = None.
Proof.
  apply (dual_credentials_exact demo_primary demo_temporary false
    {| primary := demo_primary; temporary := Some demo_temporary; temporary_available := Some false |}
    (lit "guest") (lit "bb")). reflexivity.
Defined.

(** The Basic header identifies the credential.  For user names without a
    colon, the only header value a credential accepts is the encoding of its own
    user name and password: two credentials that accept a common value are the
    same pair.  (The comparison runs over the full length of the longer string,
    so this is also the correctness of the constant-time comparison.) *)
Theorem basic_header_identifies_credential c c' supplied :
  Forall is_u8 (username c ++ password c) -> Forall is_u8 (username c' ++ password c') ->
  contains_byte 58 (username c) = false -> contains_byte 58 (username c') = false ->
  matches_http_basic c supplied = true -> matches_http_basic c' supplied = true ->
  c = c' /\ supplied = basic_authorization_value c.
Proof.
  intros Hb Hb' Hn Hn' Hm Hm'. apply material_http_basic in Hm, Hm'. subst supplied.
  unfold basic_value, expected_basic_authorization in Hm'. cbn [username password] in Hm'.
  apply app_inv_head in Hm'.
  apply Forall_app in Hb as [Hbu Hbp]. apply Forall_app in Hb' as [Hbu' Hbp'].
  assert (is_u8 58) by (unfold in_width, u8_max; lia).
  apply encode_base64_inj in Hm'; [|apply Forall_app; split; [done|by constructor]..].
  assert (split_once 58 (username c ++ 58 :: password c) = Some (username c, password c)) as E by (by apply split_once_Some).
  assert (split_once 58 (username c' ++ 58 :: password c') = Some (username c', password c')) as E' by (by apply split_once_Some).
  simpl app in Hm'. rewrite Hm', E' in E. injection E as Eu Ep. split; [destruct c, c'; simpl in *; congruence|by destruct c].
Qed.

Lemma basic_header_identifies_credential_witness :
  demo_primary = demo_primary /\ basic_authorization_value demo_primary = basic_authorization_value demo_primary.
Proof.
  apply (basic_header_identifies_credential demo_primary demo_primary (basic_authorization_value demo_primary));
    try (vm_compute; reflexivity).
  all: repeat constructor; unfold in_width, u8_max; simpl; vm_compute; congruence.
Defined.
