(* ===== verification/Stream.v ===== *)
(** * Byte streams

    [Read + Write] as the proxy code uses it: one-byte reads that can be
    interrupted or fail, [read_exact], and [write_all] to a peer that accepts a
    limited number of bytes.  The end of [input] is end of file.  [replay] is
    the byte [ReplayIo] (of [src/crates/proxy/src/mixed.rs]) puts back in front
    of the stream it wraps; a stream that is not wrapped has none. *)

From S2P Require Import Prelude RustStr.

Inductive read_event := RByte (b : Z) | RInterrupted | RFail (code : Z).

Inductive io_error := UnexpectedEof | ReadError (code : Z) | WriteError | OtherError.

Record stream := {
  replay : option Z;
  input : list read_event;
  output : list Z;
  room : nat }.

Inductive read_result := Got (b : Z) | End | Interrupted | Failed (e : io_error).

(** [Read::read] into a one-byte buffer. *)
Definition read1 (s : stream) : read_result * stream :=
  match replay s with
  | Some b => (Got b, {| replay := None; input := input s; output := output s; room := room s |})
  | None =>
      match input s with
      | [] => (End, s)
      | ev :: rest =>
          (match ev with RByte b => Got b | RInterrupted => Interrupted | RFail c => Failed (ReadError c) end,
           {| replay := None; input := rest; output := output s; room := room s |})
      end
  end.

(** The loops repeat the read while it is interrupted. *)
Fixpoint skip_interrupted (evs : list read_event) : list read_event :=
  match evs with
  | RInterrupted :: evs => skip_interrupted evs
  | _ => evs
  end.

Definition read_retry (s : stream) : read_result * stream :=
  match replay s with
  | Some _ => read1 s
  | None => read1 {| replay := None; input := skip_interrupted (input s); output := output s; room := room s |}
  end.

(** Computations on a stream that can fail with an [E]. *)
Definition io (E A : Type) : Type := stream -> result E A * stream.

Definition io_ret {E A} (a : A) : io E A := fun s => (Ok a, s).
Definition io_fail {E A} (e : E) : io E A := fun s => (Err e, s).
Definition io_bind {E A B} (m : io E A) (k : A -> io E B) : io E B := fun s =>
  match m s with
  | (Ok a, s') => k a s'
  | (Err e, s') => (Err e, s')
  end.
(** The result is dropped: [let _ = ...]. *)
Definition io_ignore {E F A} (m : io F A) : io E unit := fun s => (Ok tt, (m s).2).
Definition io_map_err {E F A} (f : E -> F) (m : io E A) : io F A := fun s =>
  let '(r, s') := m s in (map_err f r, s').

Notation "'let*' x ':=' c 'in' k" := (io_bind c (fun x => k))
  (at level 10, x pattern, c at level 100, k at level 200) : rust_scope.

Fixpoint read_exact (n : nat) : io io_error (list Z) :=
  match n with
  | O => io_ret []
  | S n => fun s =>
      match read_retry s with
      | (Got b, s') => (let* bs := read_exact n in io_ret (b :: bs)) s'
      | (Failed e, s') => (Err e, s')
      | (_, s') => (Err UnexpectedEof, s')
      end
  end.

Definition write_all (bs : list Z) : io io_error unit := fun s =>
  if (length bs <=? room s)%nat
  then (Ok tt, {| replay := replay s; input := input s; output := output s ++ bs; room := room s - length bs |})
  else (Err WriteError,
        {| replay := replay s; input := input s; output := output s ++ take (room s) bs; room := 0 |}).

(** ** What a reader will see *)

Definition pending (s : stream) : list read_event :=
  match replay s with Some b => RByte b :: input s | None => input s end.

(** Streams a reader and a writer cannot tell apart. *)
Definition stream_equiv (s s' : stream) : Prop :=
  pending s = pending s' /\ output s = output s' /\ room s = room s'.

#[export] Instance stream_equivalence : Equivalence stream_equiv.
Proof.
  split.
  - done.
  - intros x y (H1 & H2 & H3). done.
  - intros x y z (H1 & H2 & H3) (G1 & G2 & G3). split_and!; congruence.
Qed.

(** A computation that only depends on what can be seen of the stream. *)
Definition respects {E A} (m : io E A) : Prop :=
  forall s s', stream_equiv s s' -> (m s).1 = (m s').1 /\ stream_equiv (m s).2 (m s').2.

Create HintDb respects.

Lemma io_ret_respects {E A} (a : A) : respects (io_ret (E := E) a).
Proof. intros s s' H. done. Qed.

Lemma io_fail_respects {E A} (e : E) : respects (io_fail (A := A) e).
Proof. intros s s' H. done. Qed.

Lemma io_bind_respects {E A B} (m : io E A) (k : A -> io E B) :
  respects m -> (forall a, respects (k a)) -> respects (io_bind m k).
Proof.
  intros Hm Hk s s' H. unfold io_bind. destruct (Hm s s' H) as [H1 H2].
  destruct (m s) as [[a|e] s1], (m s') as [[a'|e'] s1']; simpl in *; simplify_eq; [by apply Hk|done].
Qed.

Lemma io_map_err_respects {E F A} (f : E -> F) (m : io E A) : respects m -> respects (io_map_err f m).
Proof.
  intros Hm s s' H. unfold io_map_err. destruct (Hm s s' H) as [H1 H2].
  destruct (m s), (m s'); simpl in *. by subst.
Qed.

Lemma io_ignore_respects {E F A} (m : io F A) : respects m -> respects (io_ignore (E := E) m).
Proof. intros Hm s s' H. simpl. split; [done|]. by apply Hm. Qed.

Lemma write_all_respects bs : respects (write_all bs).
Proof.
  intros s s' (Hp & Ho & Hr). unfold write_all. rewrite Hr.
  destruct (_ <=? _)%nat; (split; [done|]); (split_and!; [exact Hp|simpl; congruence|simpl; congruence]).
Qed.

(** What a retried read does, in terms of the visible stream. *)
Lemma read_retry_spec s :
  match skip_interrupted (pending s) with
  | [] => read_retry s = (End, {| replay := None; input := []; output := output s; room := room s |})
  | ev :: rest =>
      exists r, read_retry s = (r, {| replay := None; input := rest; output := output s; room := room s |}) /\
      r = match ev with RByte b => Got b | RInterrupted => Interrupted | RFail c => Failed (ReadError c) end /\
      r <> Interrupted
  end.
Proof.
  destruct s as [[b|] inp out rm]; unfold read_retry, read1, pending; simpl.
  - eexists. split_and!; done.
  - assert (forall evs r, skip_interrupted evs <> RInterrupted :: r) as Hni.
    { intros evs. induction evs as [|[] evs IH]; simpl; congruence. }
    destruct (skip_interrupted inp) as [|ev rest] eqn:E; [done|].
    eexists. split_and!; [done|done|]. destruct ev; try done. by destruct (Hni inp rest).
Qed.

Lemma read_retry_equiv s s' :
  stream_equiv s s' -> read_retry s = read_retry s'.
Proof.
  intros (Hp & Ho & Hr). pose proof (read_retry_spec s) as H. pose proof (read_retry_spec s') as H'.
  rewrite Hp, Ho, Hr in H. destruct (skip_interrupted (pending s')); [congruence|].
  destruct H as (? & -> & -> & _), H' as (? & -> & -> & _). done.
Qed.

Lemma read_exact_respects n : respects (read_exact n).
Proof.
  induction n as [|n IH]; [apply io_ret_respects|]. intros s s' H. cbn [read_exact].
  rewrite (read_retry_equiv s s' H). destruct (read_retry s') as [[] s1]; try done.
Qed.

#[export] Hint Resolve io_ret_respects io_fail_respects io_bind_respects io_map_err_respects
  io_ignore_respects write_all_respects read_exact_respects : respects.

(** The loops on interrupted reads are retried reads. *)
Lemma read_retry_unfold s :
  read_retry s = match read1 s with (Interrupted, s') => read_retry s' | other => other end.
Proof.
  destruct s as [[b|] inp out rm]; [done|]. unfold read_retry, read1. simpl.
  destruct inp as [|[b| |c] inp]; done.
Qed.

(** ** Reading a known prefix *)

(** The bytes of a list of events without failures. *)
Fixpoint bytes_of (evs : list read_event) : list Z :=
  match evs with
  | [] => []
  | RByte b :: evs => b :: bytes_of evs
  | _ :: evs => bytes_of evs
  end.

Lemma bytes_of_app e1 e2 : bytes_of (e1 ++ e2) = bytes_of e1 ++ bytes_of e2.
Proof. induction e1 as [|[] e1 IH]; simpl; congruence. Qed.

Lemma bytes_of_map bs : bytes_of (RByte <$> bs) = bs.
Proof. induction bs; csimpl; congruence. Qed.

(** [reads s bs s']: between [s] and [s'] exactly the bytes [bs] were read,
    and nothing was written. *)
Definition reads (s : stream) (bs : list Z) (s' : stream) : Prop :=
  exists evs, pending s = evs ++ pending s' /\ bytes_of evs = bs /\
  output s' = output s /\ room s' = room s.

Lemma reads_nil s : reads s [] s.
Proof. by exists []. Qed.

Lemma reads_trans s1 b1 s2 b2 s3 : reads s1 b1 s2 -> reads s2 b2 s3 -> reads s1 (b1 ++ b2) s3.
Proof.
  intros (e1 & P1 & <- & O1 & R1) (e2 & P2 & <- & O2 & R2). exists (e1 ++ e2).
  split_and!; [by rewrite P1, P2, app_assoc|apply bytes_of_app|congruence|congruence].
Qed.

Lemma skip_interrupted_prefix evs : exists pre, evs = pre ++ skip_interrupted evs /\ bytes_of pre = [].
Proof.
  induction evs as [|[] evs IH]; [by exists []|by exists []| |by exists []].
  destruct IH as (pre & He & Hb). exists (RInterrupted :: pre). simpl. split; [by f_equal|done].
Qed.

Lemma read_retry_got s b s' : read_retry s = (Got b, s') -> reads s [b] s'.
Proof.
  intros H. pose proof (read_retry_spec s) as Hs.
  destruct (skip_interrupted_prefix (pending s)) as (pre & He & Hb).
  destruct (skip_interrupted (pending s)) as [|ev rest]; [congruence|].
  destruct Hs as (r & Hr & -> & _). rewrite Hr in H. injection H as Hg <-.
  destruct ev; simplify_eq. exists (pre ++ [RByte b]). rewrite bytes_of_app, Hb. split_and!; try done.
  unfold pending at 2. simpl. by rewrite <- app_assoc.
Qed.

Lemma read_exact_ok n s bs s' : read_exact n s = (Ok bs, s') -> reads s bs s' /\ length bs = n.
Proof.
  revert s bs. induction n as [|n IH]; intros s bs H; cbn [read_exact] in H.
  - injection H as <- <-. split; [apply reads_nil|done].
  - destruct (read_retry s) as [[b| | |] s1] eqn:Hr; try done. unfold io_bind in H.
    destruct (read_exact n s1) as [[bs'|] s2] eqn:He; [|done]. injection H as <- <-.
    destruct (IH _ _ He) as [Hrd Hl]. split; [|simpl; by rewrite Hl].
    apply (reads_trans _ [b] s1); [by apply read_retry_got|done].
Qed.

(** However a read ends, it takes at most the bytes asked for. *)
Definition takes (n : nat) (s s' : stream) : Prop :=
  exists evs, pending s = evs ++ pending s' /\ (length (bytes_of evs) <= n)%nat.

Lemma takes_refl n s : takes n s s.
Proof. exists []. simpl. split; [done|lia]. Qed.

Lemma takes_trans n m s1 s2 s3 : takes n s1 s2 -> takes m s2 s3 -> takes (n + m) s1 s3.
Proof.
  intros (e1 & P1 & L1) (e2 & P2 & L2). exists (e1 ++ e2).
  split; [by rewrite P1, P2, app_assoc|rewrite bytes_of_app, length_app; lia].
Qed.

Lemma takes_weaken n m s s' : (n <= m)%nat -> takes n s s' -> takes m s s'.
Proof. intros H (e & P & L). exists e. split; [done|lia]. Qed.

Lemma read_retry_takes s : takes 1 s (read_retry s).2.
Proof.
  pose proof (read_retry_spec s) as Hs.
  destruct (skip_interrupted_prefix (pending s)) as (pre & He & Hb).
  destruct (skip_interrupted (pending s)) as [|ev rest].
  - rewrite Hs. exists pre. rewrite Hb. simpl. split; [|lia]. unfold pending at 2. done.
  - destruct Hs as (r & -> & _ & _). exists (pre ++ [ev]). rewrite bytes_of_app, Hb, length_app. simpl.
    split; [unfold pending at 2; simpl; by rewrite <- app_assoc|destruct ev; simpl; lia].
Qed.

Lemma read_exact_takes n s : takes n s (read_exact n s).2.
Proof.
  revert s. induction n as [|n IH]; intros s; cbn [read_exact]; [apply takes_refl|].
  pose proof (read_retry_takes s) as H1. destruct (read_retry s) as [[b| | |] s1]; simpl in *.
  2-4: by eapply takes_weaken, H1; lia.
  apply (takes_trans 1 n _ _ _ H1). unfold io_bind. pose proof (IH s1).
  by destruct (read_exact n s1) as [[] s2].
Qed.

Lemma write_all_takes bs s : takes 0 s (write_all bs s).2.
Proof. unfold write_all. destruct (_ <=? _)%nat; exists []; simpl; split; (done || lia). Qed.

(** Reading bytes that are there. *)
Definition after_read (s : stream) (rest : list read_event) : stream :=
  {| replay := None; input := rest; output := output s; room := room s |}.

Lemma read_exact_bytes bs s rest :
  pending s = (RByte <$> bs) ++ rest -> exists s', read_exact (length bs) s = (Ok bs, s') /\
  stream_equiv s' (after_read s rest).
Proof.
  revert s. induction bs as [|b bs IH]; intros s Hp; cbn [length read_exact].
  - exists s. split; [done|]. by split_and!.
  - pose proof (read_retry_spec s) as Hs. rewrite Hp, fmap_cons in Hs.
    cbn [app skip_interrupted] in Hs. destruct Hs as (r & -> & -> & _). unfold io_bind.
    destruct (IH {| replay := None; input := (RByte <$> bs) ++ rest; output := output s; room := room s |})
      as (s' & -> & He); [done|]. exists s'. split; [done|]. by etransitivity.
Qed.

(** A stream with nothing put back. *)
Definition clean (evs : list read_event) (out : list Z) (rm : nat) : stream :=
  {| replay := None; input := evs; output := out; room := rm |}.

Lemma stream_equiv_clean s : stream_equiv s (clean (pending s) (output s) (room s)).
Proof. by split_and!. Qed.

Lemma read_exact_clean bs rest out rm :
  read_exact (length bs) (clean ((RByte <$> bs) ++ rest) out rm) = (Ok bs, clean rest out rm).
Proof.
  induction bs as [|b bs IH]; [done|]. rewrite fmap_cons. cbn [length read_exact app].
  change (read_retry (clean (RByte b :: (RByte <$> bs) ++ rest) out rm))
    with (Got b, clean ((RByte <$> bs) ++ rest) out rm).
  unfold io_bind. by rewrite IH.
Qed.

Lemma write_all_clean bs evs out rm :
  (length bs <= rm)%nat -> write_all bs (clean evs out rm) = (Ok tt, clean evs (out ++ bs) (rm - length bs)).
Proof. intros H. unfold write_all, clean. simpl. by rewrite (proj2 (Nat.leb_le _ _) H). Qed.

(** ** Inverting computations *)

(** The bytes consumed, whatever was written meanwhile. *)
Definition consumes (s : stream) (bs : list Z) (s' : stream) : Prop :=
  exists evs, pending s = evs ++ pending s' /\ bytes_of evs = bs.

Lemma consumes_nil s s' : pending s' = pending s -> consumes s [] s'.
Proof. intros H. exists []. by rewrite H. Qed.

Lemma consumes_trans s1 b1 s2 b2 s3 : consumes s1 b1 s2 -> consumes s2 b2 s3 -> consumes s1 (b1 ++ b2) s3.
Proof.
  intros (e1 & P1 & <-) (e2 & P2 & <-). exists (e1 ++ e2).
  split; [by rewrite P1, P2, app_assoc|apply bytes_of_app].
Qed.

Lemma io_bind_ok {E A B} (m : io E A) (k : A -> io E B) s b s' :
  io_bind m k s = (Ok b, s') -> exists a s1, m s = (Ok a, s1) /\ k a s1 = (Ok b, s').
Proof. unfold io_bind. destruct (m s) as [[a|e] s1]; [eauto|done]. Qed.

Lemma io_map_err_ok {E F A} (f : E -> F) (m : io E A) s a s' :
  io_map_err f m s = (Ok a, s') -> m s = (Ok a, s').
Proof. unfold io_map_err. destruct (m s) as [[x|e] s1]; simpl; congruence. Qed.

Lemma read_exact_consumes n s bs s' :
  read_exact n s = (Ok bs, s') -> consumes s bs s' /\ length bs = n /\ output s' = output s.
Proof.
  intros [(evs & Hp & Hb & Ho & _) Hl]%read_exact_ok. split_and!; [by exists evs|done|done].
Qed.

Lemma write_all_ok bs s s' :
  write_all bs s = (Ok tt, s') -> pending s' = pending s /\ output s' = output s ++ bs.
Proof. unfold write_all. destruct (_ <=? _)%nat; [|done]. by intros [= <-]. Qed.

(** Every byte on the wire is a byte. *)
Definition byte_stream (s : stream) : Prop := Forall is_u8 (bytes_of (pending s)).

Lemma consumes_bytes s bs s' : byte_stream s -> consumes s bs s' -> Forall is_u8 bs /\ byte_stream s'.
Proof.
  unfold byte_stream. intros H (evs & Hp & <-). rewrite Hp, bytes_of_app in H. by apply Forall_app in H.
Qed.

(** Bounds on what a whole computation reads. *)
Definition bounded {E A} (n : nat) (m : io E A) : Prop := forall s, takes n s (m s).2.

Lemma io_bind_bounded {E A B} n k (m : io E A) (f : A -> io E B) :
  bounded n m -> (forall a, bounded k (f a)) -> bounded (n + k) (io_bind m f).
Proof.
  intros Hm Hf s. unfold io_bind. pose proof (Hm s) as H. destruct (m s) as [[a|e] s1]; simpl in *.
  - eapply takes_trans; [done|apply Hf].
  - eapply takes_weaken; [|done]. lia.
Qed.

Lemma bounded_weaken {E A} n k (m : io E A) : (n <= k)%nat -> bounded n m -> bounded k m.
Proof. intros H Hm s. eapply takes_weaken; [done|apply Hm]. Qed.

Lemma io_map_err_bounded {E F A} n (f : E -> F) (m : io E A) : bounded n m -> bounded n (io_map_err f m).
Proof. intros H s. unfold io_map_err. pose proof (H s). by destruct (m s). Qed.

Lemma io_ignore_bounded {E F A} n (m : io F A) : bounded n m -> bounded n (io_ignore (E := E) m).
Proof. intros H s. apply H. Qed.

Lemma io_ret_bounded {E A} n (a : A) : bounded n (io_ret (E := E) a).
Proof. intros s. apply takes_refl. Qed.

Lemma io_fail_bounded {E A} n (e : E) : bounded n (io_fail (A := A) e).
Proof. intros s. apply takes_refl. Qed.

Lemma read_exact_bounded n : bounded n (read_exact n).
Proof. intros s. apply read_exact_takes. Qed.

Lemma write_all_bounded n bs : bounded n (write_all bs).
Proof. intros s. eapply takes_weaken; [|apply write_all_takes]. lia. Qed.

Lemma byte_stream_check s :
  forallb (fun b => (0 <=? b) && (b <=? 255)) (bytes_of (pending s)) = true -> byte_stream s.
Proof.
  intros H%forallb_Forall. unfold byte_stream. eapply Forall_impl; [|exact H].
  intros b Hb. simpl in Hb. rust_bool. done.
Qed.
