(* ===== verification/Socks5.v ===== *)
(** * SOCKS5 server handshake

    [src/crates/proxy/src/socks5.rs]: greeting, user name and password
    authentication (RFC 1929) and the CONNECT request, over a stream and any
    authenticator. *)

From Stdlib Require Import String.
From S2P Require Import Prelude Net RustStr ProxyAuth Stream.

Definition SOCKS_VERSION : Z := 5.
Definition USERNAME_PASSWORD_METHOD : Z := 2.
Definition NO_ACCEPTABLE_METHODS : Z := 255.
Definition USERNAME_PASSWORD_VERSION : Z := 1.
Definition CONNECT_COMMAND : Z := 1.
Definition BIND_COMMAND : Z := 2.
Definition UDP_ASSOCIATE_COMMAND : Z := 3.
Definition IPV4_ADDRESS_TYPE : Z := 1.
Definition DOMAIN_ADDRESS_TYPE : Z := 3.
Definition IPV6_ADDRESS_TYPE : Z := 4.

Inductive Socks5Reply :=
| Succeeded | GeneralFailure | ConnectionNotAllowed | HostUnreachable
| ReplyCommandNotSupported | AddressTypeNotSupported.

Definition reply_code (r : Socks5Reply) : Z :=
  match r with
  | Succeeded => 0
  | GeneralFailure => 1
  | ConnectionNotAllowed => 2
  | HostUnreachable => 4
  | ReplyCommandNotSupported => 7
  | AddressTypeNotSupported => 8
  end.

Inductive Socks5ProtocolError :=
| UnsupportedVersion | UnsupportedAuthenticationMethod | InvalidCredentialLength
| MalformedAuthentication | AuthenticationFailed | MalformedRequest | BindNotSupported
| UdpAssociateNotSupported | CommandNotSupported | AddressNotSupported | Socks5InvalidDomain
| InvalidPort | Socks5Target (e : ProxyTargetError).

Inductive Socks5SessionError := Socks5Io (e : io_error) | Socks5Protocol (e : Socks5ProtocolError).

Definition protocol_error {A} (e : Socks5ProtocolError) : io Socks5SessionError A :=
  io_fail (Socks5Protocol e).

Definition unspecified_bind_addr : SocketAddr := {| sa_ip := IpV4 ipv4_unspecified; sa_port := 0 |}.

Definition reply_frame (reply : Socks5Reply) (bound : SocketAddr) : list Z :=
  [SOCKS_VERSION; reply_code reply; 0]
  ++ match sa_ip bound with
     | IpV4 a => IPV4_ADDRESS_TYPE :: be_bytes 4 a
     | IpV6 a => IPV6_ADDRESS_TYPE :: be_bytes 16 a
     end
  ++ be_bytes 2 (sa_port bound).

Definition write_socks5_reply (reply : Socks5Reply) (bound : SocketAddr) : io io_error unit :=
  write_all (reply_frame reply bound).

(** [?] on an I/O result. *)
Definition lift {A} (m : io io_error A) : io Socks5SessionError A := io_map_err Socks5Io m.

Definition refuse {A} (reply : Socks5Reply) (e : Socks5ProtocolError) : io Socks5SessionError A :=
  let* _ := lift (write_socks5_reply reply unspecified_bind_addr) in protocol_error e.

Definition byte_at (bs : list Z) (i : nat) : Z := nth i bs 0.

Definition negotiate_username_password : io Socks5SessionError unit :=
  let* header := lift (read_exact 2) in
  if negb (byte_at header 0 =? SOCKS_VERSION) then protocol_error UnsupportedVersion
  else
    let method_count := Z.to_nat (byte_at header 1) in
    if (method_count =? 0)%nat then
      let* _ := lift (write_all [SOCKS_VERSION; NO_ACCEPTABLE_METHODS]) in
      protocol_error UnsupportedAuthenticationMethod
    else
      let* methods := lift (read_exact method_count) in
      if negb (list_contains methods USERNAME_PASSWORD_METHOD) then
        let* _ := lift (write_all [SOCKS_VERSION; NO_ACCEPTABLE_METHODS]) in
        protocol_error UnsupportedAuthenticationMethod
      else lift (write_all [SOCKS_VERSION; USERNAME_PASSWORD_METHOD]).

Definition read_port : io Socks5SessionError Z :=
  let* bytes := lift (read_exact 2) in
  let port := of_be_bytes bytes in
  if port =? 0 then refuse GeneralFailure InvalidPort else io_ret port.

(** The address of a request, its port and its target checks. *)
Definition read_target (address_type : Z)
    : io Socks5SessionError (result ProxyTargetError ProxyConnectTarget) :=
  if address_type =? IPV4_ADDRESS_TYPE then
    let* octets := lift (read_exact 4) in
    let* port := read_port in
    io_ret (target_ipv4 (of_be_bytes octets) port)
  else if address_type =? IPV6_ADDRESS_TYPE then
    let* octets := lift (read_exact 16) in
    let* port := read_port in
    io_ret (target_ipv6 (of_be_bytes octets) port)
  else if address_type =? DOMAIN_ADDRESS_TYPE then
    let* length := lift (read_exact 1) in
    if byte_at length 0 =? 0 then refuse AddressTypeNotSupported Socks5InvalidDomain
    else
      let* bytes := lift (read_exact (Z.to_nat (byte_at length 0))) in
      if negb (utf8_valid bytes) then protocol_error Socks5InvalidDomain
      else if existsb (fun b => (b =? 0) || is_ascii_control b) bytes
      then refuse AddressTypeNotSupported Socks5InvalidDomain
      else
        let* port := read_port in
        io_ret (target_domain bytes port)
  else refuse AddressTypeNotSupported AddressNotSupported.

Definition read_connect_request : io Socks5SessionError ProxyConnectTarget :=
  let* header := lift (read_exact 4) in
  if negb (byte_at header 0 =? SOCKS_VERSION) || negb (byte_at header 2 =? 0)
  then refuse GeneralFailure MalformedRequest
  else if byte_at header 1 =? CONNECT_COMMAND then
    let* target := read_target (byte_at header 3) in
    match target with
    | Ok t => io_ret t
    | Err ZeroPort => protocol_error InvalidPort
    | Err other => protocol_error (Socks5Target other)
    end
  else if byte_at header 1 =? BIND_COMMAND then refuse ReplyCommandNotSupported BindNotSupported
  else if byte_at header 1 =? UDP_ASSOCIATE_COMMAND
  then refuse ReplyCommandNotSupported UdpAssociateNotSupported
  else refuse ReplyCommandNotSupported CommandNotSupported.

Section handshake.
Context {A : Type} `{ProxyAuthenticator A} (credentials : A).

Definition validate_credentials : result Socks5ProtocolError unit :=
  if socks_compatible credentials then Ok tt else Err InvalidCredentialLength.

Definition authenticate : io Socks5SessionError unit :=
  let* header := lift (read_exact 2) in
  if negb (byte_at header 0 =? USERNAME_PASSWORD_VERSION) || (byte_at header 1 =? 0) then
    let* _ := io_ignore (write_all [USERNAME_PASSWORD_VERSION; 1]) in
    protocol_error MalformedAuthentication
  else
    let* username := lift (read_exact (Z.to_nat (byte_at header 1))) in
    let* password_len := lift (read_exact 1) in
    if byte_at password_len 0 =? 0 then
      let* _ := io_ignore (write_all [USERNAME_PASSWORD_VERSION; 1]) in
      protocol_error MalformedAuthentication
    else
      let* password := lift (read_exact (Z.to_nat (byte_at password_len 0))) in
      if negb (matches_username_password credentials username password) then
        let* _ := lift (write_all [USERNAME_PASSWORD_VERSION; 1]) in
        protocol_error AuthenticationFailed
      else lift (write_all [USERNAME_PASSWORD_VERSION; 0]).

Definition accept_socks5_connect : io Socks5SessionError ProxyConnectTarget := fun s =>
  match validate_credentials with
  | Err e => (Err (Socks5Protocol e), s)
  | Ok _ =>
      (let* _ := negotiate_username_password in
       let* _ := authenticate in
       read_connect_request) s
  end.
End handshake.

(** ** The client's side of the handshake *)

Definition byte_len (s : str) : Z := Z.of_nat (length s).

Definition greeting (methods : list Z) : list Z := SOCKS_VERSION :: byte_len methods :: methods.
Definition auth_frame (u p : str) : list Z :=
  USERNAME_PASSWORD_VERSION :: byte_len u :: u ++ byte_len p :: p.
Definition address_frame (h : ProxyTargetHost) : list Z :=
  match h with
  | HostIpv4 a => IPV4_ADDRESS_TYPE :: be_bytes 4 a
  | HostIpv6 a => IPV6_ADDRESS_TYPE :: be_bytes 16 a
  | HostDomain d => DOMAIN_ADDRESS_TYPE :: byte_len d :: d
  end.
Definition request_frame (t : ProxyConnectTarget) : list Z :=
  [SOCKS_VERSION; CONNECT_COMMAND; 0] ++ address_frame (host t) ++ be_bytes 2 (target_port t).

(** Targets a client can ask for. *)
Definition host_ok (h : ProxyTargetHost) : Prop :=
  match h with
  | HostIpv4 a => is_ipv4 a
  | HostIpv6 a => is_ipv6 a
  | HostDomain d =>
      (1 <= length d <= 255)%nat /\ utf8_valid d = true /\
      existsb (fun b => (b =? 0) || is_ascii_control b) d = false
  end.
Definition target_ok (t : ProxyConnectTarget) : Prop := host_ok (host t) /\ 1 <= target_port t <= u16_max.

Definition pair_ok (u p : str) : Prop := (1 <= length u <= 255)%nat /\ (1 <= length p <= 255)%nat.
Definition methods_ok (methods : list Z) : Prop :=
  (1 <= length methods <= 255)%nat /\ USERNAME_PASSWORD_METHOD ∈ methods.

(** ** Soundness of each phase *)

Lemma refuse_not_ok {A} r e s (a : A) s' : refuse r e s <> (Ok a, s').
Proof. unfold refuse. intros H. apply io_bind_ok in H as (? & ? & _ & H). done. Qed.

Ltac inv_io :=
  repeat match goal with
  | H : io_bind _ _ _ = (Ok _, _) |- _ => apply io_bind_ok in H as (? & ? & ? & ?)
  | H : lift _ _ = (Ok _, _) |- _ => apply io_map_err_ok in H
  | H : read_exact _ _ = (Ok _, _) |- _ => apply read_exact_consumes in H as (? & ? & ?)
  | H : write_all _ _ = (Ok ?u, _) |- _ => destruct u; apply write_all_ok in H as [? ?]
  | H : io_ret _ _ = (Ok _, _) |- _ => injection H as ? ?; subst
  | H : refuse _ _ _ = (Ok _, _) |- _ => by apply refuse_not_ok in H
  | H : protocol_error _ _ = (Ok _, _) |- _ => done
  end.

Ltac list_of_length l :=
  repeat (destruct l as [|? l]; try done); simpl in *.

Lemma to_nat_byte b : is_u8 b -> Z.to_nat b = Z.to_nat b /\ 0 <= b <= 255.
Proof. unfold in_width, u8_max. done. Qed.

Lemma byte_len_to_nat b (l : list Z) : is_u8 b -> length l = Z.to_nat b -> byte_len l = b.
Proof. unfold in_width, u8_max, byte_len. lia. Qed.

Lemma negotiate_sound s s' :
  byte_stream s -> negotiate_username_password s = (Ok tt, s') ->
  exists methods, methods_ok methods /\ consumes s (greeting methods) s' /\
  output s' = output s ++ [SOCKS_VERSION; USERNAME_PASSWORD_METHOD].
Proof.
  intros Hs H. unfold negotiate_username_password in H. inv_io.
  destruct (negb (byte_at x 0 =? SOCKS_VERSION)) eqn:Hv; [inv_io|].
  destruct (_ =? 0)%nat eqn:Hm; [inv_io|]. inv_io.
  destruct (negb (list_contains x1 USERNAME_PASSWORD_METHOD)) eqn:Hc; [inv_io|]. inv_io.
  rust_bool. apply list_contains_true in Hc. apply Nat.eqb_neq in Hm.
  destruct (consumes_bytes _ _ _ Hs H) as [Hx Hs1]. list_of_length x. unfold byte_at in *; simpl in *; subst.
  apply Forall_cons_iff in Hx as [_ Hx]. apply Forall_cons_iff in Hx as [Hb _].
  exists x1. split_and!; [| |congruence].
  - split; [|done]. unfold in_width, u8_max in Hb. lia.
  - unfold greeting. rewrite (byte_len_to_nat z0 x1) by done.
    apply (consumes_trans _ [SOCKS_VERSION; z0] x0); [done|]. rewrite <- (app_nil_r x1).
    eapply consumes_trans; [done|by apply consumes_nil].
Qed.

Section sound.
Context {A : Type} `{ProxyAuthenticator A} (credentials : A).

Lemma authenticate_sound s s' :
  byte_stream s -> authenticate credentials s = (Ok tt, s') ->
  exists u p, pair_ok u p /\ matches_username_password credentials u p = true /\
  consumes s (auth_frame u p) s' /\ output s' = output s ++ [USERNAME_PASSWORD_VERSION; 0].
Proof.
  intros Hs Ha. unfold authenticate in Ha. inv_io.
  destruct (_ || _) eqn:Hv; [inv_io|]. inv_io.
  destruct (byte_at x3 0 =? 0) eqn:Hp; [inv_io|]. inv_io.
  destruct (negb (matches_username_password credentials x1 x5)) eqn:Hm; [inv_io|]. inv_io. rust_bool.
  destruct (consumes_bytes _ _ _ Hs H0) as [Hx Hs1].
  destruct (consumes_bytes _ _ _ Hs1 H1) as [Hu Hs2].
  destruct (consumes_bytes _ _ _ Hs2 H4) as [Hl Hs3].
  list_of_length x. list_of_length x3. unfold byte_at in *; simpl in *; subst.
  apply Forall_cons_iff in Hx as [_ Hx]. apply Forall_cons_iff in Hx as [Hb _].
  apply Forall_cons_iff in Hl as [Hb' _]. unfold in_width, u8_max in Hb, Hb'.
  exists x1, x5. split_and!; [split; lia|done| |congruence].
  unfold auth_frame. rewrite (byte_len_to_nat z0 x1), (byte_len_to_nat z1 x5) by (done || unfold in_width, u8_max; lia).
  apply (consumes_trans _ [USERNAME_PASSWORD_VERSION; z0] x0); [done|].
  eapply consumes_trans; [done|]. apply (consumes_trans _ [z1] x4); [done|].
  rewrite <- (app_nil_r x5). eapply consumes_trans; [done|by apply consumes_nil].
Qed.
End sound.

Lemma read_port_sound s p s' :
  byte_stream s -> read_port s = (Ok p, s') ->
  1 <= p <= u16_max /\ consumes s (be_bytes 2 p) s' /\ output s' = output s.
Proof.
  intros Hs Hr. unfold read_port in Hr. inv_io. destruct (_ =? 0) eqn:Hp; [inv_io|]. inv_io. rust_bool.
  destruct (consumes_bytes _ _ _ Hs H) as [Hx _].
  pose proof (of_be_bytes_bound x Hx) as Hb. rewrite H1 in Hb. change (256 ^ Z.of_nat 2) with 65536 in Hb.
  split_and!; [unfold u16_max; lia..| |done].
  rewrite <- H1, be_bytes_of_be_bytes by done. done.
Qed.

(** The port is not zero, so building the target succeeds. *)
Lemma target_new_ok h p : 1 <= p -> target_new h p = Ok {| host := h; target_port := p |}.
Proof. intros Hp. unfold target_new. by rewrite (proj2 (Z.eqb_neq p 0)) by lia. Qed.

Lemma address_bytes n l : Forall is_u8 l -> length l = n -> be_bytes n (of_be_bytes l) = l.
Proof. intros H <-. by apply be_bytes_of_be_bytes. Qed.

Lemma read_target_sound ty s r s' :
  byte_stream s -> read_target ty s = (Ok r, s') ->
  exists t, r = Ok t /\ target_ok t /\ consumes s (tail (address_frame (host t)) ++ be_bytes 2 (target_port t)) s' /\
  head (address_frame (host t)) = Some ty /\ output s' = output s.
Proof.
  intros Hs Hr. unfold read_target in Hr.
  destruct (Z.eqb_spec ty IPV4_ADDRESS_TYPE) as [->|_]; [|destruct (Z.eqb_spec ty IPV6_ADDRESS_TYPE) as [->|_];
    [|destruct (Z.eqb_spec ty DOMAIN_ADDRESS_TYPE) as [->|_]; [|inv_io]]].
  - inv_io. destruct (consumes_bytes _ _ _ Hs H) as [Hx Hs1].
    match goal with H : read_port _ = _ |- _ => apply read_port_sound in H as (Hp & Hc & Ho); [|done] end. unfold target_ipv4. rewrite target_new_ok by lia.
    eexists. split_and!; [done| | |done|congruence].
    + split; [|done]. pose proof (of_be_bytes_bound x Hx) as Hb. rewrite H2 in Hb. exact Hb.
    + cbn [address_frame host tail target_port]. eapply consumes_trans; [|done]. rewrite address_bytes by done. done.
  - inv_io. destruct (consumes_bytes _ _ _ Hs H) as [Hx Hs1].
    match goal with H : read_port _ = _ |- _ => apply read_port_sound in H as (Hp & Hc & Ho); [|done] end. unfold target_ipv6. rewrite target_new_ok by lia.
    eexists. split_and!; [done| | |done|congruence].
    + split; [|done]. pose proof (of_be_bytes_bound x Hx) as Hb. rewrite H2 in Hb. exact Hb.
    + cbn [address_frame host tail target_port]. eapply consumes_trans; [|done]. rewrite address_bytes by done. done.
  - inv_io. destruct (byte_at x 0 =? 0) eqn:Hz; [inv_io|]. inv_io.
    destruct (negb (utf8_valid _)) eqn:Hu; [inv_io|]. destruct (existsb _ _) eqn:Hcc; [inv_io|]. inv_io.
    destruct (consumes_bytes _ _ _ Hs H) as [Hx Hs1].
    destruct (consumes_bytes _ _ _ Hs1 H0) as [_ Hs2].
    match goal with H : read_port _ = _ |- _ => apply read_port_sound in H as (Hp & Hc & Ho); [|done] end. rust_bool.
    list_of_length x. unfold byte_at in *; simpl in *. apply Forall_cons_iff in Hx as [Hb _].
    assert (1 <= length x1 <= 255)%nat as Hl by (unfold in_width, u8_max in Hb; lia).
    assert (target_domain x1 x3 = Ok {| host := HostDomain x1; target_port := x3 |}) as ->.
    { unfold target_domain, host_domain. rewrite bool_decide_eq_false_2 by (intros ->; simpl in Hl; lia).
      unfold MAX_DOMAIN_BYTES. rewrite (proj2 (Nat.ltb_ge _ _)) by lia. rewrite Hcc. simpl. apply target_new_ok. lia. }
    eexists. split_and!; [done| | |done|congruence].
    + split; [|done]. split_and!; [lia|lia|done|done].
    + cbn [address_frame host tail target_port]. rewrite (byte_len_to_nat z x1) by done.
      apply (consumes_trans _ [z] x0); [done|]. by eapply consumes_trans.
Qed.

Lemma read_connect_request_sound s t s' :
  byte_stream s -> read_connect_request s = (Ok t, s') ->
  target_ok t /\ consumes s (request_frame t) s' /\ output s' = output s.
Proof.
  intros Hs Hr. unfold read_connect_request in Hr. inv_io.
  destruct (_ || _) eqn:Hv; [inv_io|]. destruct (byte_at x 1 =? CONNECT_COMMAND) eqn:Hc;
    [|destruct (_ =? BIND_COMMAND); [inv_io|]; destruct (_ =? UDP_ASSOCIATE_COMMAND); inv_io].
  inv_io. rust_bool. destruct (consumes_bytes _ _ _ Hs H) as [_ Hs1].
  match goal with H : read_target _ _ = _ |- _ =>
    apply read_target_sound in H as (t' & -> & Ht & Hcs & Hh & Ho); [|done] end. inv_io.
  list_of_length x. unfold byte_at in *; simpl in *; subst.
  split_and!; [done| |congruence]. unfold request_frame.
  destruct (address_frame (host t)) as [|ty rest] eqn:E; [done|]. simpl in Hh, Hcs. injection Hh as ->.
  apply (consumes_trans _ [SOCKS_VERSION; CONNECT_COMMAND; 0; z2] x0); [done|]. done.
Qed.

(** ** Completeness of each phase *)

Lemma bind_step {E A B} (m : io E A) (k : A -> io E B) s a s1 :
  m s = (Ok a, s1) -> io_bind m k s = k a s1.
Proof. intros H. unfold io_bind. by rewrite H. Qed.

(** The bytes [bs] are next, then [more]. *)
Definition wire (bs : list Z) (rest : list read_event) (out : list Z) (rm : nat) : stream :=
  clean ((RByte <$> bs) ++ rest) out rm.

Lemma lift_read n bs more rest out rm :
  length bs = n -> lift (read_exact n) (wire (bs ++ more) rest out rm) = (Ok bs, wire more rest out rm).
Proof.
  intros <-. unfold lift, io_map_err, wire. rewrite fmap_app, <- app_assoc, read_exact_clean. done.
Qed.

Lemma lift_write bs more rest out rm :
  (length bs <= rm)%nat ->
  lift (write_all bs) (wire more rest out rm) = (Ok tt, wire more rest (out ++ bs) (rm - length bs)).
Proof. intros H. unfold lift, io_map_err, wire. by rewrite write_all_clean. Qed.

Lemma byte_len_nat (l : list Z) : Z.to_nat (byte_len l) = length l.
Proof. unfold byte_len. lia. Qed.

Lemma byte_len_nonzero (l : list Z) : (1 <= length l)%nat -> (byte_len l =? 0) = false.
Proof. intros. unfold byte_len. apply Z.eqb_neq. lia. Qed.

Lemma negotiate_complete methods more rest out rm :
  methods_ok methods -> (2 <= rm)%nat ->
  negotiate_username_password (wire (greeting methods ++ more) rest out rm) =
  (Ok tt, wire more rest (out ++ [SOCKS_VERSION; USERNAME_PASSWORD_METHOD]) (rm - 2)).
Proof.
  intros [Hl Hm] Hr. unfold negotiate_username_password, greeting.
  change ((SOCKS_VERSION :: byte_len methods :: methods) ++ more)
    with ([SOCKS_VERSION; byte_len methods] ++ methods ++ more).
  rewrite (bind_step _ _ _ _ _ (lift_read 2 [SOCKS_VERSION; byte_len methods] _ _ _ _ eq_refl)). cbn [byte_at nth]. rewrite byte_len_nat.
  rewrite (proj2 (Nat.eqb_neq (length methods) 0)) by lia. rewrite Z.eqb_refl. cbn [negb].
  rewrite (bind_step _ _ _ _ _ (lift_read (length methods) methods _ _ _ _ eq_refl)).
  rewrite (proj2 (list_contains_true _ _) Hm). cbn [negb].
  by rewrite lift_write by (simpl; lia).
Qed.

Section complete.
Context {A : Type} `{ProxyAuthenticator A} (credentials : A).

Lemma authenticate_complete u p more rest out rm :
  pair_ok u p -> matches_username_password credentials u p = true -> (2 <= rm)%nat ->
  authenticate credentials (wire (auth_frame u p ++ more) rest out rm) =
  (Ok tt, wire more rest (out ++ [USERNAME_PASSWORD_VERSION; 0]) (rm - 2)).
Proof.
  intros [Hu Hp] Hm Hr. unfold authenticate, auth_frame.
  replace ((USERNAME_PASSWORD_VERSION :: byte_len u :: u ++ byte_len p :: p) ++ more)
    with ([USERNAME_PASSWORD_VERSION; byte_len u] ++ u ++ [byte_len p] ++ p ++ more)
    by (simpl; by rewrite <- app_assoc).
  rewrite (bind_step _ _ _ _ _ (lift_read 2 [USERNAME_PASSWORD_VERSION; byte_len u] _ _ _ _ eq_refl)). cbn [byte_at nth].
  rewrite byte_len_nat, byte_len_nonzero by lia. rewrite Z.eqb_refl. cbn [negb orb].
  rewrite (bind_step _ _ _ _ _ (lift_read (length u) u _ _ _ _ eq_refl)).
  rewrite (bind_step _ _ _ _ _ (lift_read 1 [byte_len p] _ _ _ _ eq_refl)). cbn [byte_at nth].
  rewrite byte_len_nonzero by lia. rewrite byte_len_nat.
  rewrite (bind_step _ _ _ _ _ (lift_read (length p) p _ _ _ _ eq_refl)). rewrite Hm. cbn [negb].
  by rewrite lift_write by (simpl; lia).
Qed.
End complete.

Lemma read_port_complete p more rest out rm :
  1 <= p <= u16_max -> read_port (wire (be_bytes 2 p ++ more) rest out rm) = (Ok p, wire more rest out rm).
Proof.
  intros Hp. unfold read_port. rewrite (bind_step _ _ _ _ _ (lift_read 2 _ _ _ _ _ (be_bytes_length 2 p))).
  rewrite of_be_bytes_be_bytes by (unfold u16_max in Hp; simpl; lia).
  by rewrite (proj2 (Z.eqb_neq p 0)) by lia.
Qed.

Lemma read_connect_request_complete t more rest out rm :
  target_ok t -> read_connect_request (wire (request_frame t ++ more) rest out rm) = (Ok t, wire more rest out rm).
Proof.
  intros [Hh Hp]. destruct t as [h p]. unfold request_frame, read_connect_request. simpl host in *. simpl target_port in *.
  assert (exists ty body, address_frame h = ty :: body /\
    read_target ty (wire (body ++ be_bytes 2 p ++ more) rest out rm) =
    (Ok (Ok {| host := h; target_port := p |}), wire more rest out rm)) as (ty & body & -> & Ht).
  { unfold read_target. destruct h as [a|a|d]; cbn [address_frame]; eexists _, _; (split; [done|]).
    - rewrite Z.eqb_refl. rewrite (bind_step _ _ _ _ _ (lift_read 4 _ _ _ _ _ (be_bytes_length 4 a))).
      rewrite (bind_step _ _ _ _ _ (read_port_complete p more rest out rm Hp)).
      unfold target_ipv4. rewrite target_new_ok by lia. rewrite of_be_bytes_be_bytes; [done|]. exact Hh.
    - change (IPV6_ADDRESS_TYPE =? IPV4_ADDRESS_TYPE) with false. rewrite Z.eqb_refl. cbn iota.
      rewrite (bind_step _ _ _ _ _ (lift_read 16 _ _ _ _ _ (be_bytes_length 16 a))).
      rewrite (bind_step _ _ _ _ _ (read_port_complete p more rest out rm Hp)).
      unfold target_ipv6. rewrite target_new_ok by lia. rewrite of_be_bytes_be_bytes; [done|]. exact Hh.
    - destruct Hh as (Hl & Hu & Hc). change (DOMAIN_ADDRESS_TYPE =? IPV4_ADDRESS_TYPE) with false.
      change (DOMAIN_ADDRESS_TYPE =? IPV6_ADDRESS_TYPE) with false. rewrite Z.eqb_refl. cbn iota.
      change ((byte_len d :: d) ++ be_bytes 2 p ++ more) with ([byte_len d] ++ d ++ be_bytes 2 p ++ more).
      rewrite (bind_step _ _ _ _ _ (lift_read 1 [byte_len d] _ _ _ _ eq_refl)). cbn [byte_at nth].
      rewrite byte_len_nonzero, byte_len_nat by lia.
      rewrite (bind_step _ _ _ _ _ (lift_read (length d) d _ _ _ _ eq_refl)). rewrite Hu, Hc. cbn [negb].
      rewrite (bind_step _ _ _ _ _ (read_port_complete p more rest out rm Hp)).
      unfold target_domain, host_domain. rewrite bool_decide_eq_false_2 by (intros ->; simpl in Hl; lia).
      unfold MAX_DOMAIN_BYTES. rewrite (proj2 (Nat.ltb_ge _ _)) by lia. rewrite Hc. simpl.
      rewrite target_new_ok by lia. done. }
  replace (([SOCKS_VERSION; CONNECT_COMMAND; 0] ++ (ty :: body) ++ be_bytes 2 p) ++ more)
    with ([SOCKS_VERSION; CONNECT_COMMAND; 0; ty] ++ body ++ be_bytes 2 p ++ more)
    by (simpl; by rewrite <- app_assoc).
  rewrite (bind_step _ _ _ _ _ (lift_read 4 [SOCKS_VERSION; CONNECT_COMMAND; 0; ty] _ _ _ _ eq_refl)). cbn [byte_at nth].
  rewrite !Z.eqb_refl. cbn [negb orb]. by rewrite (bind_step _ _ _ _ _ Ht).
Qed.

(** ** Bounds *)

Lemma takes_bytes n s s' : byte_stream s -> takes n s s' -> byte_stream s'.
Proof. unfold byte_stream. intros H (e & P & _). rewrite P, bytes_of_app in H. by apply Forall_app in H as [_ ?]. Qed.

Lemma bind_read_takes {B} n k (f : list Z -> io Socks5SessionError B) s :
  byte_stream s ->
  (forall bs s1, byte_stream s1 -> Forall is_u8 bs -> length bs = n -> takes k s1 (f bs s1).2) ->
  takes (n + k) s (io_bind (lift (read_exact n)) f s).2.
Proof.
  intros Hs Hf. unfold io_bind, lift, io_map_err. pose proof (read_exact_takes n s) as Ht.
  destruct (read_exact n s) as [[bs|e] s1] eqn:Hr; simpl in *; [|eapply takes_weaken; [|done]; lia].
  apply read_exact_consumes in Hr as (Hc & Hl & _). destruct (consumes_bytes _ _ _ Hs Hc) as [Hb Hs1].
  eapply takes_trans; [done|]. by apply Hf.
Qed.

Lemma bind_takes {E A B} n k (m : io E A) (f : A -> io E B) s :
  byte_stream s -> takes n s (m s).2 -> (forall a s1, byte_stream s1 -> takes k s1 (f a s1).2) ->
  takes (n + k) s (io_bind m f s).2.
Proof.
  intros Hs Hm Hf. unfold io_bind. destruct (m s) as [[a|e] s1]; simpl in *; [|eapply takes_weaken; [|done]; lia].
  eapply takes_trans; [done|]. apply Hf. by eapply takes_bytes.
Qed.

Lemma lift_write_takes n bs s : takes n s (lift (write_all bs) s).2.
Proof. apply io_map_err_bounded, write_all_bounded. Qed.

Lemma refuse_takes {A} n r e s : takes n s (refuse (A := A) r e s).2.
Proof.
  unfold refuse. apply (io_bind_bounded 0 n); [intros s0; exact (lift_write_takes 0 _ s0)|intros; apply io_fail_bounded].
Qed.

Lemma write_fail_takes {A} n bs e s :
  takes n s (io_bind (lift (write_all bs)) (fun _ => protocol_error (A := A) e) s).2.
Proof. apply (io_bind_bounded 0 n); [intros ?; apply lift_write_takes|intros; apply io_fail_bounded]. Qed.

Lemma ignore_fail_takes {A} n bs e s :
  takes n s (io_bind (io_ignore (write_all bs)) (fun _ => protocol_error (A := A) e) s).2.
Proof. apply (io_bind_bounded 0 n); [apply io_ignore_bounded, write_all_bounded|intros; apply io_fail_bounded]. Qed.

Create HintDb takes.
#[local] Hint Resolve lift_write_takes refuse_takes write_fail_takes ignore_fail_takes takes_refl : takes.

Lemma byte_at_bound bs i : Forall is_u8 bs -> (Z.to_nat (byte_at bs i) <= 255)%nat.
Proof.
  intros H. unfold byte_at. destruct (nth_in_or_default i bs 0) as [Hi|Hi]; [|rewrite Hi; lia].
  rewrite List.Forall_forall in H. specialize (H _ Hi). unfold in_width, u8_max in H. lia.
Qed.

(** Reading as many bytes as a length byte says. *)
Lemma bind_read_byte_takes {B} hdr i k (f : list Z -> io Socks5SessionError B) s :
  byte_stream s -> Forall is_u8 hdr ->
  (forall bs s1, byte_stream s1 -> Forall is_u8 bs -> takes k s1 (f bs s1).2) ->
  takes (255 + k) s (io_bind (lift (read_exact (Z.to_nat (byte_at hdr i)))) f s).2.
Proof.
  intros Hs Hh Hf. apply (takes_weaken (Z.to_nat (byte_at hdr i) + k));
    [pose proof (byte_at_bound hdr i Hh); lia|]. by apply bind_read_takes; auto.
Qed.

Lemma negotiate_takes s : byte_stream s -> takes 257 s (negotiate_username_password s).2.
Proof.
  intros Hs. apply (bind_read_takes 2 255); [done|]. intros hdr s1 Hs1 Hh _.
  cbv zeta. destruct (negb _); [apply takes_refl|].
  destruct (Z.to_nat (byte_at hdr 1) =? 0)%nat; [auto with takes|].
  apply (bind_read_byte_takes hdr 1 0); [done|done|]. intros ms s2 _ _. destruct (negb _); auto with takes.
Qed.

Lemma authenticate_takes {A} `{ProxyAuthenticator A} (c : A) s :
  byte_stream s -> takes 513 s (authenticate c s).2.
Proof.
  intros Hs. apply (bind_read_takes 2 511); [done|]. intros hdr s1 Hs1 Hh _.
  destruct (_ || _); [auto with takes|].
  apply (bind_read_byte_takes hdr 1 256); [done|done|]. intros u s2 Hs2 _.
  apply (bind_read_takes 1 255); [done|]. intros pl s3 Hs3 Hpl _. destruct (byte_at pl 0 =? 0); [auto with takes|].
  apply (bind_read_byte_takes pl 0 0); [done|done|]. intros p s4 _ _. destruct (negb _); auto with takes.
Qed.

Lemma read_port_takes s : byte_stream s -> takes 2 s (read_port s).2.
Proof.
  intros Hs. apply (bind_read_takes 2 0); [done|]. intros bs s1 _ _ _. cbv zeta. destruct (of_be_bytes bs =? 0); auto with takes.
Qed.

Lemma bind_port_takes {B} (f : Z -> B) s :
  byte_stream s -> takes 2 s (io_bind read_port (fun p => io_ret (E := Socks5SessionError) (f p)) s).2.
Proof. intros Hs. apply (bind_takes 2 0); [done|by apply read_port_takes|intros; apply takes_refl]. Qed.

Lemma read_target_takes ty s : byte_stream s -> takes 258 s (read_target ty s).2.
Proof.
  intros Hs. unfold read_target. destruct (ty =? IPV4_ADDRESS_TYPE).
  { apply (takes_weaken (4 + 2)); [lia|]. apply bind_read_takes; [done|]. intros. by apply bind_port_takes. }
  destruct (ty =? IPV6_ADDRESS_TYPE).
  { apply (takes_weaken (16 + 2)); [lia|]. apply bind_read_takes; [done|]. intros. by apply bind_port_takes. }
  destruct (ty =? DOMAIN_ADDRESS_TYPE); [|auto with takes].
  apply (bind_read_takes 1 257); [done|]. intros l s1 Hs1 Hl _. destruct (byte_at l 0 =? 0); [auto with takes|].
  apply (bind_read_byte_takes l 0 2); [done|done|]. intros d s2 Hs2 _.
  destruct (negb _); [apply takes_refl|]. destruct (existsb _ _); [auto with takes|]. by apply bind_port_takes.
Qed.

Lemma read_connect_request_takes s : byte_stream s -> takes 262 s (read_connect_request s).2.
Proof.
  intros Hs. apply (bind_read_takes 4 258); [done|]. intros hdr s1 Hs1 Hh _.
  destruct (_ || _); [auto with takes|]. destruct (_ =? CONNECT_COMMAND).
  - apply (bind_takes 258 0); [done|by apply read_target_takes|]. intros [t|[]] s2 _; apply takes_refl.
  - destruct (_ =? BIND_COMMAND); [auto with takes|]. destruct (_ =? UDP_ASSOCIATE_COMMAND); auto with takes.
Qed.

(** ** Properties *)

Section properties.
Context {A : Type} `{AuthenticatorLaws A} (credentials : A).

(** C17: No target without credentials.  If the handshake yields a target, then
    the client presented a user name and password the policy grants, offered
    the password method, and asked for exactly that target: the bytes taken from
    the stream are precisely one greeting, one authentication frame and one
    CONNECT frame for the target, the server answered with the two
    acknowledgements only, and everything after the request is left unread. *)
Theorem socks5_accept_sound s t s' :
  byte_stream s -> accept_socks5_connect credentials s = (Ok t, s') ->
  exists methods u p, methods_ok methods /\ pair_ok u p /\ grants credentials u p /\ target_ok t /\
  consumes s (greeting methods ++ auth_frame u p ++ request_frame t) s' /\
  output s' = output s ++ [SOCKS_VERSION; USERNAME_PASSWORD_METHOD; USERNAME_PASSWORD_VERSION; 0].
Proof.
  intros Hs Ha. unfold accept_socks5_connect in Ha. destruct (validate_credentials credentials); [|done].
  apply io_bind_ok in Ha as ([] & s1 & Hn & Ha). apply io_bind_ok in Ha as ([] & s2 & Hau & Hr).
  apply negotiate_sound in Hn as (methods & Hm & C1 & O1); [|done].
  destruct (consumes_bytes _ _ _ Hs C1) as [_ Hs1].
  apply authenticate_sound in Hau as (u & p & Hp & Hg & C2 & O2); [|done].
  destruct (consumes_bytes _ _ _ Hs1 C2) as [_ Hs2].
  apply read_connect_request_sound in Hr as (Ht & C3 & O3); [|done].
  exists methods, u, p. split_and!; [done|done|by apply law_username_password|done| |].
  - by eapply consumes_trans, consumes_trans.
  - rewrite O3, O2, O1, <- app_assoc. done.
Qed.

(** Every well-formed client is served.  When the policy grants the pair and
    the peer accepts the four answer bytes, the handshake on the bytes of a
    greeting offering the password method, the authentication frame and the
    CONNECT frame returns exactly the requested target and leaves the rest of
    the stream for the tunnel. *)
Theorem socks5_accept_complete s methods u p t rest :
  socks_compatible credentials = true -> grants credentials u p ->
  methods_ok methods -> pair_ok u p -> target_ok t -> (4 <= room s)%nat ->
  pending s = (RByte <$> (greeting methods ++ auth_frame u p ++ request_frame t)) ++ rest ->
  exists s', accept_socks5_connect credentials s = (Ok t, s') /\
  stream_equiv s' (clean rest (output s ++ [SOCKS_VERSION; USERNAME_PASSWORD_METHOD; USERNAME_PASSWORD_VERSION; 0])
                     (room s - 4)).
Proof.
  intros Hc Hg Hm Hp Ht Hr Hpend. pose proof (stream_equiv_clean s) as He. rewrite Hpend in He.
  unfold accept_socks5_connect, validate_credentials. rewrite Hc.
  set (run := let* _ := _ in _).
  assert (respects run) as Hresp.
  { unfold run, negotiate_username_password, authenticate, read_connect_request, read_target, read_port, refuse,
      protocol_error, lift, write_socks5_reply.
    repeat (apply io_bind_respects; [auto with respects|intros]);
      repeat first [ case_match | apply io_bind_respects; [|intros] | progress auto with respects ]. }
  destruct (Hresp _ _ He) as [H1 H2]. subst run.
  change (clean ((RByte <$> greeting methods ++ auth_frame u p ++ request_frame t) ++ rest) (output s) (room s))
    with (wire (greeting methods ++ auth_frame u p ++ request_frame t) rest (output s) (room s)) in H1, H2.
  rewrite (bind_step _ _ _ _ _ (negotiate_complete methods _ rest (output s) (room s) Hm ltac:(lia))) in H1, H2.
  rewrite (bind_step _ _ _ _ _ (authenticate_complete credentials u p _ rest _ (room s - 2) Hp
    (proj2 (law_username_password credentials u p) Hg) ltac:(lia))) in H1, H2.
  rewrite <- (app_nil_r (request_frame t)) in H1, H2.
  rewrite read_connect_request_complete in H1, H2 by done. simpl in H1, H2.
  destruct (io_bind _ _ s) as [r s']. simpl in *. subst r. exists s'. split; [done|].
  etransitivity; [exact H2|]. split_and!; simpl; [done|by rewrite <- app_assoc|lia].
Qed.

(** The handshake is bounded: however it ends and whatever the client sends,
    it takes at most 1032 bytes from the stream. *)
Theorem socks5_reads_bounded s :
  byte_stream s -> takes 1032 s (accept_socks5_connect credentials s).2.
Proof.
  intros Hs. unfold accept_socks5_connect. destruct (validate_credentials credentials); [|apply takes_refl].
  apply (bind_takes 257 775); [done|by apply negotiate_takes|]. intros _ s1 Hs1.
  apply (bind_takes 513 262); [done|by apply authenticate_takes|]. intros _ s2 Hs2.
  by apply read_connect_request_takes.
Qed.
End properties.

Definition demo_target : ProxyConnectTarget := {| host := HostDomain (lit "example.org"); target_port := 443 |}.

(** A client that is interrupted once and already sends tunnel data. *)
Definition demo_client : stream :=
  clean (RInterrupted :: (RByte <$> (greeting [0; 2] ++ auth_frame (lit "mish-01") (lit "aa") ++ request_frame demo_target))
         ++ [RByte 22]) [] 100.

Lemma socks5_accept_sound_witness :
  exists methods u p, methods_ok methods /\ pair_ok u p /\ grants demo_primary u p /\ target_ok demo_target /\
  consumes demo_client (greeting methods ++ auth_frame u p ++ request_frame demo_target)
    (accept_socks5_connect demo_primary demo_client).2 /\
  output (accept_socks5_connect demo_primary demo_client).2 =
    output demo_client ++ [SOCKS_VERSION; USERNAME_PASSWORD_METHOD; USERNAME_PASSWORD_VERSION; 0].
Proof.
  apply (socks5_accept_sound demo_primary demo_client demo_target
    (accept_socks5_connect demo_primary demo_client).2).
  - apply byte_stream_check. vm_compute. reflexivity.
  - vm_compute. reflexivity.
Defined.

Lemma socks5_accept_complete_witness :
  exists s', accept_socks5_connect demo_primary
    (wire (greeting [2] ++ auth_frame (lit "mish-01") (lit "aa") ++ request_frame demo_target) [RByte 22] [] 4) =
  (Ok demo_target, s') /\ stream_equiv s' (clean [RByte 22] [5; 2; 1; 0] 0).
Proof.
  apply (socks5_accept_complete demo_primary
    (wire (greeting [2] ++ auth_frame (lit "mish-01") (lit "aa") ++ request_frame demo_target) [RByte 22] [] 4)
    [2] (lit "mish-01") (lit "aa") demo_target [RByte 22]).
  - reflexivity.
  - split; reflexivity.
  - split; [simpl; lia|left].
  - split; unfold lit; simpl; lia.
  - split; [split_and!; [vm_compute; lia|vm_compute; lia|vm_compute; reflexivity..]|unfold u16_max; simpl; lia].
  - simpl. lia.
  - reflexivity.
Defined.

Lemma socks5_reads_bounded_witness :
  takes 1032 demo_client (accept_socks5_connect demo_primary demo_client).2.
Proof. apply socks5_reads_bounded, byte_stream_check. vm_compute. reflexivity. Defined.
