(* ===== verification/HttpConnect.v ===== *)
(** * HTTP CONNECT

    [src/crates/proxy/src/http_connect.rs] (the bounded request parser) and
    [accept_http_connect_stream] of [mixed.rs], which feeds it one byte at a
    time.  The stream loop has fuel for one read more than the header limit,
    after which the parser has refused the header ([http_loop_total]). *)

From Stdlib Require Import String.
From S2P Require Import Prelude Net RustStr ProxyAuth Stream.

Definition MAX_HTTP_CONNECT_HEADER_BYTES : Z := 16 * 1024.

Inductive HttpConnectError :=
| HeaderTooLarge | IncompleteHeader | MalformedHeader | MalformedRequestLine | MethodNotAllowed
| UnsupportedHttpVersion | ProxyAuthenticationRequired | DuplicateProxyAuthorization
| ProxyAuthenticationFailed | InvalidTarget | HttpTarget (e : ProxyTargetError).

Definition parse_port (raw : str) : result HttpConnectError Z :=
  match parse_u16 raw with
  | Some p => if p =? 0 then Err InvalidTarget else Ok p
  | None => Err InvalidTarget
  end.

Definition authority_forbidden (b : Z) : bool := (b =? 47) || (b =? 64) || (b =? 35) || (b =? 63).

Definition parse_connect_authority (authority : str) : result HttpConnectError ProxyConnectTarget :=
  if (authority =b? []) || existsb is_ascii_control authority then Err InvalidTarget
  else
    match strip_prefix [91] authority with
    | Some bracketed =>
        let? (host, rest) := ok_or (split_once 93 bracketed) InvalidTarget in
        let? port := ok_or (strip_prefix [58] rest) InvalidTarget in
        if (host =b? []) || (port =b? []) || contains_byte 58 port then Err InvalidTarget
        else
          let? address := ok_or (parse_ipv6 host) InvalidTarget in
          let? p := parse_port port in
          map_err HttpTarget (target_ipv6 address p)
    | None =>
        let? (host, port) := ok_or (rsplit_once 58 authority) InvalidTarget in
        if (host =b? []) || (port =b? []) || contains_byte 58 host || existsb authority_forbidden host
        then Err InvalidTarget
        else
          let? p := parse_port port in
          match parse_ipv4 host with
          | Some address => map_err HttpTarget (target_ipv4 address p)
          | None =>
              if is_some (parse_ip host) then Err InvalidTarget
              else map_err HttpTarget (target_domain host p)
          end
    end.

(** The only errors of the authority. *)
Lemma parse_connect_authority_err authority e :
  parse_connect_authority authority = Err e -> e = InvalidTarget \/ exists x, e = HttpTarget x.
Proof.
  unfold parse_connect_authority, parse_port, map_err, ok_or, result_bind. intros H.
  repeat (case_match; simplify_eq; eauto).
Qed.

(** The loop over the header lines: the Proxy-Authorization value seen so far. *)
Fixpoint scan_headers (ls : list str) (proxy_authorization : option str)
    : result HttpConnectError (option str) :=
  match ls with
  | [] => Ok proxy_authorization
  | line :: ls =>
      if line =b? [] then Err MalformedHeader
      else
        match split_once 58 line with
        | None => Err MalformedHeader
        | Some (name, value) =>
            if (name =b? []) || existsb is_ascii_whitespace name then Err MalformedHeader
            else if eq_ignore_ascii_case name (lit "Proxy-Authorization") then
              if is_some proxy_authorization then Err DuplicateProxyAuthorization
              else scan_headers ls (Some (trim value))
            else scan_headers ls proxy_authorization
        end
  end.

Section parser.
Context {A : Type} `{ProxyAuthenticator A} (credentials : A).

Definition parse_http_connect_request (request : str) : result HttpConnectError ProxyConnectTarget :=
  if MAX_HTTP_CONNECT_HEADER_BYTES <? Z.of_nat (length request) then Err HeaderTooLarge
  else if negb (ends_with [13; 10; 13; 10] request) then Err IncompleteHeader
  else if negb (utf8_valid request) then Err MalformedHeader
  else
    let header := take (length request - 4) request in
    match split_pair 13 10 header with
    | [] => Err MalformedRequestLine
    | request_line :: ls =>
        match split_ascii_whitespace request_line with
        | [http_method; authority; version] =>
            if http_method <>b? lit "CONNECT" then Err MethodNotAllowed
            else if (version <>b? lit "HTTP/1.1") && (version <>b? lit "HTTP/1.0")
            then Err UnsupportedHttpVersion
            else
              let? proxy_authorization := scan_headers ls None in
              let? supplied := ok_or proxy_authorization ProxyAuthenticationRequired in
              if negb (matches_http_basic credentials supplied) then Err ProxyAuthenticationFailed
              else parse_connect_authority authority
        | _ => Err MalformedRequestLine
        end
    end.

Inductive HttpConnectStreamError := HttpIo (e : io_error) | HttpProtocol (e : HttpConnectError).

(** The loop of [accept_http_connect_stream]; [None] is an exhausted bound. *)
Fixpoint http_loop (fuel : nat) (request : str) (s : stream)
    : option (result HttpConnectStreamError ProxyConnectTarget * stream) :=
  match fuel with
  | O => None
  | S fuel =>
      match read_retry s with
      | (Got b, s') =>
          match parse_http_connect_request (request ++ [b]) with
          | Err IncompleteHeader => http_loop fuel (request ++ [b]) s'
          | Ok t => Some (Ok t, s')
          | Err e => Some (Err (HttpProtocol e), s')
          end
      | (Failed e, s') => Some (Err (HttpIo e), s')
      | (_, s') => Some (Err (HttpProtocol IncompleteHeader), s')
      end
  end.

Definition http_fuel : nat := Z.to_nat (MAX_HTTP_CONNECT_HEADER_BYTES + 1).

Definition accept_http_connect_stream : io HttpConnectStreamError ProxyConnectTarget := fun s =>
  default (Err (HttpIo OtherError), s) (http_loop http_fuel [] s).

(** ** The loop *)

Lemma parse_long request :
  MAX_HTTP_CONNECT_HEADER_BYTES < Z.of_nat (length request) ->
  parse_http_connect_request request = Err HeaderTooLarge.
Proof. intros Hl. unfold parse_http_connect_request. by rewrite (proj2 (Z.ltb_lt _ _)). Qed.

Lemma parse_incomplete request :
  Z.of_nat (length request) <= MAX_HTTP_CONNECT_HEADER_BYTES ->
  ends_with [13; 10; 13; 10] request = false -> parse_http_connect_request request = Err IncompleteHeader.
Proof.
  intros Hl He. unfold parse_http_connect_request. rewrite (proj2 (Z.ltb_ge _ _)) by done. by rewrite He.
Qed.

(** The verdict on a complete header is final. *)
Lemma parse_complete request :
  ends_with [13; 10; 13; 10] request = true -> parse_http_connect_request request <> Err IncompleteHeader.
Proof.
  intros He. unfold parse_http_connect_request. rewrite He. destruct (_ <? _); [done|]. simpl.
  destruct (negb _); [done|]. destruct (split_pair _ _ _) as [|rl ls]; [done|].
  destruct (split_ascii_whitespace rl) as [|m [|a [|v [|? ?]]]]; try done.
  destruct (m <>b? _); [done|]. destruct (_ && _); [done|].
  assert (forall ls acc, scan_headers ls acc <> Err IncompleteHeader) as Hs.
  { clear. intros ls. induction ls as [|l ls IH]; intros acc; simpl; [done|]. rust_cases; try done; auto. }
  destruct (scan_headers ls None) as [[v'|]|e] eqn:E; simpl; try done.
  - destruct (negb _); [done|]. intros [?|[? ?]]%parse_connect_authority_err; done.
  - intros [= ->]. by apply (Hs ls None).
Qed.

Lemma http_loop_total fuel request s :
  MAX_HTTP_CONNECT_HEADER_BYTES + 1 <= Z.of_nat fuel + Z.of_nat (length request) ->
  Z.of_nat (length request) <= MAX_HTTP_CONNECT_HEADER_BYTES ->
  exists r s', http_loop fuel request s = Some (r, s') /\
    takes (fuel) s s'.
Proof.
  revert request s. induction fuel as [|fuel IH]; intros request s Hf Hl; [lia|]. cbn [http_loop].
  pose proof (read_retry_takes s) as Ht. destruct (read_retry s) as [[b| | |e] s'] eqn:Hr; simpl in Ht.
  2-4: eexists _, _; split; [done|]; by eapply takes_weaken, Ht; lia.
  destruct (parse_http_connect_request (request ++ [b])) as [t|e] eqn:Hp.
  - eexists _, _. split; [done|]. eapply takes_weaken, Ht; lia.
  - assert (e = IncompleteHeader \/ e <> IncompleteHeader) as [->|Hne] by (destruct e; auto; right; done).
    + destruct (decide (MAX_HTTP_CONNECT_HEADER_BYTES < Z.of_nat (length (request ++ [b])))) as [Hlong|Hlong].
      { by rewrite parse_long in Hp. }
      destruct (IH (request ++ [b]) s') as (r & s'' & Hr' & Ht').
      * rewrite length_app. simpl. lia.
      * lia.
      * exists r, s''. split; [done|]. by apply (takes_trans 1 fuel _ s').
    + exists (Err (HttpProtocol e)), s'. split; [by destruct e|]. eapply takes_weaken, Ht; lia.
Qed.

(** No proper prefix of a header of interest is complete. *)
Definition first_complete (request : str) : Prop :=
  ends_with [13; 10; 13; 10] request = true /\
  forall p q, request = p ++ q -> q <> [] -> ends_with [13; 10; 13; 10] p = false.

Lemma http_loop_reads todo fuel done_ rest out rm :
  (length todo <= fuel)%nat -> todo <> [] -> first_complete (done_ ++ todo) ->
  Z.of_nat (length (done_ ++ todo)) <= MAX_HTTP_CONNECT_HEADER_BYTES ->
  http_loop fuel done_ (clean ((RByte <$> todo) ++ rest) out rm) =
  Some (map_err HttpProtocol (parse_http_connect_request (done_ ++ todo)), clean rest out rm).
Proof.
  revert fuel done_. induction todo as [|b todo IH]; intros fuel done_ Hf Hne Hc Hl; [done|].
  destruct fuel as [|fuel]; [simpl in Hf; lia|]. rewrite fmap_cons. cbn [http_loop app].
  change (read_retry (clean (RByte b :: (RByte <$> todo) ++ rest) out rm))
    with (Got b, clean ((RByte <$> todo) ++ rest) out rm). cbn iota beta.
  replace (done_ ++ b :: todo) with ((done_ ++ [b]) ++ todo) in * by (by rewrite <- app_assoc).
  destruct todo as [|b' todo].
  - rewrite app_nil_r in *. destruct (parse_http_connect_request (done_ ++ [b])) as [t|e] eqn:Hp; [done|].
    destruct e; try done. by apply parse_complete in Hp; [|apply Hc].
  - rewrite parse_incomplete; [apply IH; try done; simpl in *; lia| |].
    + rewrite length_app in Hl. lia.
    + by apply (proj2 Hc (done_ ++ [b]) (b' :: todo)).
Qed.

Lemma http_loop_respects fuel request s s' :
  stream_equiv s s' -> http_loop (S fuel) request s = http_loop (S fuel) request s'.
Proof. intros H1. cbn [http_loop]. by rewrite (read_retry_equiv s s' H1). Qed.
End parser.

(** ** Authorization headers *)

(** The value of a line when it is a Proxy-Authorization header. *)
Definition authorization_of (line : str) : option str :=
  match split_once 58 line with
  | Some (name, value) =>
      if eq_ignore_ascii_case name (lit "Proxy-Authorization") then Some (trim value) else None
  | None => None
  end.

Lemma scan_headers_some ls v0 v :
  scan_headers ls (Some v0) = Ok v -> v = Some v0 /\ Forall (fun l => authorization_of l = None) ls.
Proof.
  induction ls as [|l ls IH]; simpl; [intros [= <-]; split; [done|constructor]|].
  destruct (l =b? []); [done|].
  destruct (split_once 58 l) as [[n x]|] eqn:Hs; [|done]. destruct (_ || _); [done|].
  destruct (eq_ignore_ascii_case n _) eqn:He; [done|]. intros [-> Hf]%IH. split; [done|].
  constructor; [|done]. unfold authorization_of. by rewrite Hs, He.
Qed.

(** Exactly one line is the authorization, with the value reported. *)
Lemma scan_headers_none ls v :
  scan_headers ls None = Ok (Some v) ->
  exists l1 line l2, ls = l1 ++ line :: l2 /\ authorization_of line = Some v /\
  Forall (fun l => authorization_of l = None) (l1 ++ l2).
Proof.
  induction ls as [|l ls IH]; simpl; [done|].
  destruct (l =b? []); [done|]. destruct (split_once 58 l) as [[n x]|] eqn:Hs; [|done].
  destruct (_ || _); [done|]. destruct (eq_ignore_ascii_case n _) eqn:He.
  - simpl. intros [[= ->] Hf]%scan_headers_some. exists [], l, ls. split_and!; [done| |done].
    unfold authorization_of. by rewrite Hs, He.
  - intros (l1 & line & l2 & -> & Ha & Hf)%IH. exists (l :: l1), line, l2. split_and!; [done|done|].
    constructor; [|done]. unfold authorization_of. by rewrite Hs, He.
Qed.

(** ** A client request *)

Definition request_line_of (authority : str) : str := lit "CONNECT " ++ authority ++ lit " HTTP/1.1".
Definition authorization_line (value : str) : str := lit "Proxy-Authorization: " ++ value.

Definition connect_request (authority : str) (headers : list str) : str :=
  join [13; 10] (request_line_of authority :: headers) ++ [13; 10; 13; 10].

(** Values as clients write them: printable with inner spaces. *)
Definition header_value (v : str) : Prop :=
  exists a mid b, v = a :: mid ++ [b] /\ is_ascii_graphic a = true /\ is_ascii_graphic b = true /\
  Forall (fun x => 32 <= x <= 126) mid.

Lemma header_value_range v : header_value v -> Forall (fun x => 32 <= x <= 126) v.
Proof.
  intros (a & mid & b & -> & Ha & Hb & Hm). apply graphic_not_lead in Ha, Hb.
  constructor; [lia|]. apply Forall_app. split; [done|]. constructor; [lia|constructor].
Qed.

Lemma range_no_cr s : Forall (fun x => 32 <= x <= 126) s -> contains_byte 13 s = false.
Proof. intros H. apply contains_byte_false. eapply Forall_impl; [|exact H]. simpl. lia. Qed.

Lemma printable_range s : printable s -> Forall (fun x => 32 <= x <= 126) s.
Proof. apply Forall_impl. intros b Hb%graphic_not_lead. lia. Qed.

Lemma lit_range s : forallb (between 32 126) (lit s) = true -> Forall (fun x => 32 <= x <= 126) (lit s).
Proof. intros H%forallb_Forall. eapply Forall_impl; [|exact H]. intros b Hb%between_true. done. Qed.

Lemma request_line_range authority :
  printable authority -> Forall (fun x => 32 <= x <= 126) (request_line_of authority).
Proof.
  intros Ha. unfold request_line_of. apply Forall_app. split; [by apply lit_range|]. apply Forall_app.
  split; [by apply printable_range|by apply lit_range].
Qed.

Lemma authorization_line_range v : header_value v -> Forall (fun x => 32 <= x <= 126) (authorization_line v).
Proof. intros H. apply Forall_app. split; [by apply lit_range|by apply header_value_range]. Qed.

Lemma trim_header_value v : header_value v -> trim (32 :: v) = v.
Proof.
  intros (a & mid & b & -> & Ha & Hb & _). change (trim (32 :: a :: mid ++ [b])) with (trim (a :: mid ++ [b])).
  by apply trim_printable_ends.
Qed.

(** A header line other than the authorization. *)
Definition other_header (line : str) : Prop :=
  Forall (fun x => 32 <= x <= 126) line /\
  exists name value, split_once 58 line = Some (name, value) /\ name <> [] /\
  existsb is_ascii_whitespace name = false /\ eq_ignore_ascii_case name (lit "Proxy-Authorization") = false.

Lemma scan_other_headers before ls seen :
  Forall other_header before -> scan_headers (before ++ ls) seen = scan_headers ls seen.
Proof.
  induction 1 as [|l before (_ & name & v & Hs & Hn & Hw & He) _ IH]; [done|]. cbn [app scan_headers].
  rewrite bool_decide_eq_false_2 by (by intros ->). rewrite Hs, Hw, He.
  rewrite bool_decide_eq_false_2 by done. exact IH.
Qed.

Lemma scan_authorization before value after :
  Forall other_header before -> Forall other_header after -> header_value value ->
  scan_headers (before ++ authorization_line value :: after) None = Ok (Some value).
Proof.
  intros Hb Ha Hv. rewrite scan_other_headers by done. unfold authorization_line.
  change (lit "Proxy-Authorization: " ++ value) with (lit "Proxy-Authorization" ++ 58 :: 32 :: value).
  cbn [scan_headers].
  rewrite (proj2 (split_once_Some 58 _ (lit "Proxy-Authorization") (32 :: value))) by done.
  rewrite bool_decide_eq_false_2 by done.
  change ((lit "Proxy-Authorization" =b? []) || existsb is_ascii_whitespace (lit "Proxy-Authorization")) with false.
  change (eq_ignore_ascii_case (lit "Proxy-Authorization") (lit "Proxy-Authorization")) with true.
  rewrite trim_header_value by done. cbn [is_some].
  rewrite <- (app_nil_r after), scan_other_headers by done. done.
Qed.

Lemma split_pair_join ls : ls <> [] -> Forall (fun l => contains_byte 13 l = false) ls ->
  split_pair 13 10 (join [13; 10] ls) = ls.
Proof.
  destruct ls as [|l ls]; [done|]. intros _ [Hl Hls]%Forall_cons_iff. revert l Hl.
  induction Hls as [|l' ls Hl' Hls IH]; intros l Hl; cbn [join].
  - cbn. rewrite app_nil_r. by apply split_pair_single.
  - cbn [fmap list_fmap concat]. change (([13; 10] ++ l') ++ ?x) with (13 :: 10 :: l' ++ x).
    rewrite split_pair_app by done. rewrite (split_pair_single _ _ l) by done. cbn [app]. f_equal. exact (IH l' Hl').
Qed.

(** Text whose lines are not empty ends at its first empty line. *)
Lemma first_complete_join ls : ls <> [] -> Forall (fun l => contains_byte 13 l = false /\ l <> []) ls ->
  first_complete (join [13; 10] ls ++ [13; 10; 13; 10]).
Proof.
  intros Hne Hls. split; [apply ends_with_true; eauto|]. intros p q Hpq Hq.
  destruct (ends_with _ p) eqn:He; [|done]. exfalso. apply ends_with_true in He as [r ->].
  assert (split_pair 13 10 (join [13; 10] ls ++ [13; 10; 13; 10]) = ls ++ [[]; []]) as H1.
  { rewrite split_pair_app by done. rewrite split_pair_join; [done|done|].
    eapply Forall_impl; [|exact Hls]. by intros l [? _]. }
  rewrite Hpq, <- app_assoc in H1. cbn [app] in H1. rewrite split_pair_app in H1 by done.
  change (13 :: 10 :: q) with ([] ++ 13 :: 10 :: q) in H1. rewrite split_pair_app in H1 by done.
  change (split_pair 13 10 []) with [@nil Z] in H1. cbn [app] in H1.
  pose proof (f_equal length H1) as Hlen. rewrite !length_app in Hlen. cbn [length] in Hlen.
  destruct (split_pair 13 10 q) as [|q1 [|q2 qs]] eqn:Eq; [by apply split_pair_nonempty in Eq| |].
  - apply (f_equal list.last) in H1. rewrite !last_app_cons in H1. simpl in H1.
    injection H1 as ->. by apply split_pair_nil in Eq.
  - cbn [length] in Hlen. apply (f_equal (fun l => l !! length (split_pair 13 10 r))) in H1.
    rewrite list_lookup_middle in H1 by done. rewrite lookup_app_l in H1 by lia. symmetry in H1.
    by apply (Forall_lookup_1 _ _ _ _ Hls) in H1 as [_ ?].
Qed.

Section request.
Context {A : Type} `{ProxyAuthenticator A} (credentials : A) (authority value : str) (before after : list str).
Hypothesis authority_printable : printable authority.
Hypothesis authority_nonempty : authority <> [].
Hypothesis value_ok : header_value value.
Hypothesis before_ok : Forall other_header before.
Hypothesis after_ok : Forall other_header after.
Let headers : list str := before ++ authorization_line value :: after.
Hypothesis size_ok : Z.of_nat (length (connect_request authority headers)) <= MAX_HTTP_CONNECT_HEADER_BYTES.

Lemma request_lines_range :
  Forall (fun l => Forall (fun x => 32 <= x <= 126) l /\ l <> []) (request_line_of authority :: headers).
Proof using authority_printable authority_nonempty value_ok before_ok after_ok.
  assert (forall l, other_header l -> Forall (fun x => 32 <= x <= 126) l /\ l <> []) as Ho.
  { intros l (Hl & n & v & Hs & _). split; [done|]. by intros ->. }
  constructor; [split; [by apply request_line_range|done]|]. apply Forall_app. split; [by eapply Forall_impl|].
  constructor; [split; [by apply authorization_line_range|done]|by eapply Forall_impl].
Qed.

Lemma request_lines_no_cr : Forall (fun l => contains_byte 13 l = false /\ l <> []) (request_line_of authority :: headers).
Proof using authority_printable authority_nonempty value_ok before_ok after_ok.
  eapply Forall_impl; [|exact request_lines_range]. intros l [Hl ?]. split; [by apply range_no_cr|done].
Qed.

Lemma connect_request_lines :
  split_pair 13 10 (take (length (connect_request authority headers) - 4) (connect_request authority headers))
  = request_line_of authority :: headers.
Proof using authority_printable authority_nonempty value_ok before_ok after_ok.
  unfold connect_request. rewrite length_app. cbn [length].
  replace (_ + 4 - 4)%nat with (length (join [13; 10] (request_line_of authority :: headers))) by lia.
  rewrite take_app_length. apply split_pair_join; [done|].
  eapply Forall_impl; [|exact request_lines_no_cr]. by intros l [? _].
Qed.

Lemma join_range ls : Forall (fun l => Forall (fun x => 32 <= x <= 126) l /\ l <> []) ls ->
  Forall (fun x => 0 <= x <= 127) (join [13; 10] ls).
Proof.
  destruct ls as [|l ls]; [constructor|]. intros [[Hl _] Hls]%Forall_cons_iff. cbn [join].
  apply Forall_app. split; [eapply Forall_impl; [|exact Hl]; simpl; lia|].
  induction Hls as [|l' ls [Hl' _] _ IH]; [constructor|]. cbn [fmap list_fmap concat app].
  constructor; [lia|]. constructor; [lia|]. apply Forall_app.
  split; [eapply Forall_impl; [|exact Hl']; simpl; lia|exact IH].
Qed.

Lemma connect_request_parses :
  parse_http_connect_request credentials (connect_request authority headers) =
  if matches_http_basic credentials value then parse_connect_authority authority else Err ProxyAuthenticationFailed.
Proof using authority_printable authority_nonempty value_ok before_ok after_ok size_ok.
  unfold parse_http_connect_request. rewrite (proj2 (Z.ltb_ge _ _)) by done.
  rewrite connect_request_lines.
  assert (ends_with [13; 10; 13; 10] (connect_request authority headers) = true) as ->.
  { apply ends_with_true. unfold connect_request. eauto. }
  assert (utf8_valid (connect_request authority headers) = true) as ->.
  { apply utf8_valid_ascii. unfold connect_request. apply Forall_app. split; [apply join_range, request_lines_range|].
    repeat constructor; lia. }
  cbn [negb]. unfold request_line_of.
  change (lit "CONNECT " ++ authority ++ lit " HTTP/1.1")
    with (lit "CONNECT" ++ 32 :: authority ++ 32 :: lit "HTTP/1.1").
  rewrite !split_ascii_cons, split_ascii_last by (done || by apply printable_dec_intro).
  rewrite !(bool_decide_eq_true_2 (_ = _)) by done. cbn [negb andb].
  unfold headers. rewrite scan_authorization by done. cbn [ok_or result_bind]. by destruct (matches_http_basic _ _).
Qed.

Lemma connect_request_first : first_complete (connect_request authority headers).
Proof using authority_printable authority_nonempty value_ok before_ok after_ok.
  apply first_complete_join; [done|]. apply request_lines_no_cr.
Qed.
End request.

(** ** Soundness of the loop *)

Section sound.
Context {A : Type} `{ProxyAuthenticator A} (credentials : A).

Lemma http_loop_ok fuel request s t s' :
  http_loop credentials fuel request s = Some (Ok t, s') ->
  (forall p q, request = p ++ q -> ends_with [13; 10; 13; 10] p = false) ->
  exists bs, consumes s bs s' /\ output s' = output s /\
  parse_http_connect_request credentials (request ++ bs) = Ok t /\
  (forall p q, request ++ bs = p ++ q -> q <> [] -> ends_with [13; 10; 13; 10] p = false).
Proof.
  revert request s. induction fuel as [|fuel IH]; intros request s Hl Hpre; [done|]. cbn [http_loop] in Hl.
  destruct (read_retry s) as [[b| | |e] s1] eqn:Hr; simplify_eq.
  destruct (read_retry_got _ _ _ Hr) as (evs & Hp & Hb & Ho & _).
  assert (consumes s [b] s1) as Hc by (by exists evs).
  destruct (parse_http_connect_request credentials (request ++ [b])) as [t'|e] eqn:Hparse.
  - simplify_eq. exists [b]. split_and!; [done|done|done|]. intros p q Hpq Hq.
    destruct (exists_last Hq) as (q' & x & ->). rewrite app_assoc in Hpq. apply app_inj_tail in Hpq as [Hpq _].
    by eapply Hpre.
  - assert (e = IncompleteHeader) as -> by (destruct e; done).
    destruct (IH (request ++ [b]) s1 Hl) as (bs & Hcs & Hos & Hps & Hfirst).
    { intros p q Hpq. destruct q as [|y q'] using rev_ind.
      - rewrite app_nil_r in Hpq. subst p. destruct (ends_with _ _) eqn:He; [|done].
        by apply (parse_complete credentials) in He.
      - rewrite app_assoc in Hpq. apply app_inj_tail in Hpq as [Hpq _]. by eapply Hpre. }
    exists (b :: bs). rewrite <- app_assoc in Hps, Hfirst. split_and!; [|congruence|done|done].
    by apply (consumes_trans _ [b] s1).
Qed.
End sound.

(** ** Authorities *)

Definition domain_ok (d : str) : Prop :=
  printable d /\ (1 <= length d <= 255)%nat /\ contains_byte 58 d = false /\
  existsb authority_forbidden d = false /\ strip_prefix [91] d = None /\ parse_ip d = None.

Lemma parse_ip_None d : parse_ip d = None -> parse_ipv4 d = None.
Proof.
  unfold parse_ip, parse_ipv4, parse_with, read_ip_addr. destruct (_ <? _)%nat; [done|].
  destruct (read_ipv4_addr d) as [[a [|]]|]; done.
Qed.

Lemma printable_no_control s : printable s -> existsb is_ascii_control s = false.
Proof.
  intros H. apply existsb_false. eapply Forall_impl; [|exact H]. intros b Hb%graphic_not_lead.
  unfold is_ascii_control, between. destruct (Z.leb_spec b 31), (Z.eqb_spec b 127); try lia. all: by rewrite ?andb_false_r.
Qed.

Lemma parse_authority_domain d p :
  domain_ok d -> 1 <= p <= u16_max ->
  parse_connect_authority (d ++ 58 :: to_decimal p) = Ok {| host := HostDomain d; target_port := p |}.
Proof.
  intros (Hd & Hl & Hc & Hf & Hb & Hip) Hp. unfold parse_connect_authority.
  assert (printable (to_decimal p)) as Hdig by (apply digits_printable, to_decimal_digits).
  assert (d <> []) as Hne by (intros ->; simpl in Hl; lia).
  assert (to_decimal p <> []) as Hpe.
  { unfold to_decimal. destruct (decimal_digits_shape 20 p []) as (x & y & -> & _); [lia|done]. }
  rewrite (bool_decide_eq_false_2 (d ++ _ = [])) by (by destruct d).
  rewrite printable_no_control by (apply Forall_app; split; [exact Hd|constructor; [done|exact Hdig]]). cbn [orb].
  replace (strip_prefix [91] (d ++ 58 :: to_decimal p)) with (@None str).
  2: { destruct d as [|x d]; [done|]. cbn [strip_prefix app] in *. by destruct (91 =? x). }
  rewrite (proj2 (rsplit_once_Some 58 _ d (to_decimal p))).
  2: { split; [done|]. apply contains_byte_false. eapply Forall_impl; [|apply to_decimal_digits].
       intros b Hb'%between_true. lia. }
  cbn [ok_or result_bind]. rewrite !bool_decide_eq_false_2 by done. rewrite Hc, Hf. cbn [orb].
  unfold parse_port, parse_u16. rewrite parse_to_decimal by (unfold u64_max, u16_max in *; lia).
  rewrite (proj2 (Z.eqb_neq p 0)) by lia. cbn [result_bind].
  rewrite parse_ip_None, Hip by done. cbn [is_some]. unfold target_domain, host_domain.
  rewrite bool_decide_eq_false_2 by done. unfold MAX_DOMAIN_BYTES. rewrite (proj2 (Nat.ltb_ge _ _)) by lia.
  rewrite (proj2 (existsb_false _ d)).
  - cbn [result_bind]. unfold target_new. by rewrite (proj2 (Z.eqb_neq p 0)) by lia.
  - pose proof (printable_no_control d Hd) as Hnc. apply existsb_false in Hnc.
    apply List.Forall_forall. intros b Hin. rewrite (proj1 (List.Forall_forall _ _) Hnc b Hin).
    pose proof (graphic_not_lead b (proj1 (List.Forall_forall _ _) Hd b Hin)).
    by rewrite (proj2 (Z.eqb_neq b 0)) by lia.
Qed.

Lemma b64_graphic i : 0 <= i < 64 -> is_ascii_graphic (b64 i) = true.
Proof.
  intros Hi. assert (forallb (fun i => is_ascii_graphic (b64 i)) sextets = true) as H by (vm_compute; reflexivity).
  rewrite forallb_forall in H. apply H, sextets_spec, Hi.
Qed.

Lemma encode_base64_printable x : Forall is_u8 x -> printable (encode_base64 x).
Proof.
  remember (length x) as n eqn:Hn. revert x Hn. induction (Nat.lt_wf_0 n) as [n _ IH]. intros x -> Hx.
  destruct x as [|a [|b [|c x]]]; [constructor|..]; repeat apply Forall_cons_iff in Hx as [? Hx]; cbn [encode_base64].
  all: rewrite ?sextet1, ?sextet2, ?sextet3, ?sextet4 by (done || apply is_u8_0).
  - destruct (sextet_range a 0 0) as (R1 & R2 & _ & _); [done|apply is_u8_0..|].
    repeat constructor; by apply b64_graphic.
  - destruct (sextet_range a b 0) as (R1 & R2 & R3 & _); [done|done|apply is_u8_0|].
    repeat constructor; by apply b64_graphic.
  - destruct (sextet_range a b c) as (R1 & R2 & R3 & R4); [done..|].
    do 4 (constructor; [by apply b64_graphic|]). apply (IH (length x)); [simpl; lia|done|done].
Qed.

Lemma basic_value_header u p : Forall is_u8 u -> Forall is_u8 p -> header_value (basic_value u p).
Proof.
  intros Hu Hp. unfold basic_value, expected_basic_authorization. simpl username. simpl password.
  assert (printable (encode_base64 (u ++ [58] ++ p))) as He.
  { apply encode_base64_printable. apply Forall_app. split; [done|]. constructor; [|done]. unfold in_width, u8_max. lia. }
  assert (encode_base64 (u ++ [58] ++ p) <> []) as Hne by (destruct u as [|? [|? [|? ?]]], p as [|? [|? ?]]; done).
  destruct (exists_last Hne) as (front & b & Hb). rewrite Hb in *. apply Forall_app in He as [Hf Hl].
  apply Forall_cons_iff in Hl as [Hl _].
  exists 66, (lit "asic " ++ front), b. split_and!; [by rewrite <- app_assoc|done|done|].
  apply Forall_app. split; [by apply lit_range|by apply printable_range].
Qed.

(** ** Properties *)

Lemma accept_http_ok {A} `{ProxyAuthenticator A} (c : A) s t s' :
  accept_http_connect_stream c s = (Ok t, s') -> http_loop c http_fuel [] s = Some (Ok t, s').
Proof. unfold accept_http_connect_stream. destruct (http_loop c http_fuel [] s); simpl; [by intros ->|done]. Qed.

Lemma http_fuel_enough {A} `{ProxyAuthenticator A} (c : A) s :
  exists r s', http_loop c http_fuel [] s = Some (r, s') /\ takes http_fuel s s'.
Proof.
  apply http_loop_total; [|unfold MAX_HTTP_CONNECT_HEADER_BYTES; simpl; lia].
  unfold http_fuel. rewrite Z2Nat.id by (unfold MAX_HTTP_CONNECT_HEADER_BYTES; lia). simpl. lia.
Qed.

Section properties.
Context {A : Type} `{AuthenticatorLaws A} (credentials : A).

(** The reader hands exactly the request to the parser. *)
Lemma http_request_read s d p u pw before after rest :
  domain_ok d -> Forall is_u8 u -> Forall is_u8 pw -> 1 <= p <= u16_max ->
  Forall other_header before -> Forall other_header after ->
  let request := connect_request (d ++ 58 :: to_decimal p) (before ++ authorization_line (basic_value u pw) :: after) in
  Z.of_nat (length request) <= MAX_HTTP_CONNECT_HEADER_BYTES ->
  pending s = (RByte <$> request) ++ rest ->
  accept_http_connect_stream credentials s =
  (if matches_http_basic credentials (basic_value u pw) then Ok {| host := HostDomain d; target_port := p |}
   else Err (HttpProtocol ProxyAuthenticationFailed), clean rest (output s) (room s)).
Proof.
  intros Hd Hu Hpw Hp Hb Ha request Hl Hpend.
  assert (printable (d ++ 58 :: to_decimal p)) as Hau.
  { apply Forall_app. split; [apply Hd|]. constructor; [done|]. apply digits_printable, to_decimal_digits. }
  assert (d ++ 58 :: to_decimal p <> []) as Hne by (by destruct d).
  pose proof (basic_value_header u pw Hu Hpw) as Hv.
  pose proof (stream_equiv_clean s) as He. rewrite Hpend in He.
  unfold accept_http_connect_stream. replace http_fuel with (S (pred http_fuel)) at 1 by (unfold http_fuel, MAX_HTTP_CONNECT_HEADER_BYTES; lia).
  rewrite (http_loop_respects credentials _ _ _ _ He).
  rewrite http_loop_reads; [|..].
  - cbn [app]. unfold request. rewrite connect_request_parses by done.
    rewrite parse_authority_domain by done. by destruct (matches_http_basic _ _).
  - unfold http_fuel. unfold MAX_HTTP_CONNECT_HEADER_BYTES in *. lia.
  - unfold request, connect_request. by destruct (join _ _).
  - by apply connect_request_first.
  - done.
Qed.

(** A header that asks for [t] with exactly one Proxy-Authorization line, the
    Basic value of the pair. *)
Definition carries_request (request u p : str) (t : ProxyConnectTarget) : Prop :=
  exists request_line authority version before line after,
    split_pair 13 10 (take (length request - 4) request) = request_line :: before ++ line :: after /\
    split_ascii_whitespace request_line = [lit "CONNECT"; authority; version] /\
    authorization_of line = Some (basic_value u p) /\
    Forall (fun l => authorization_of l = None) (before ++ after) /\
    parse_connect_authority authority = Ok t.

Lemma parse_request_sound req t :
  parse_http_connect_request credentials req = Ok t ->
  ends_with [13; 10; 13; 10] req = true /\ exists u p, grants credentials u p /\ carries_request req u p t.
Proof.
  intros Hp. unfold parse_http_connect_request in Hp. destruct (_ <? _); [done|].
  destruct (ends_with _ req) eqn:He; [|done]. cbn [negb] in Hp. destruct (negb (utf8_valid req)); [done|].
  destruct (split_pair 13 10 _) as [|rl ls] eqn:Hls; [done|].
  destruct (split_ascii_whitespace rl) as [|m [|au [|ver [|? ?]]]] eqn:Htok; try done.
  destruct (m <>b? lit "CONNECT") eqn:Hm; [done|]. destruct (_ && _); [done|]. rust_bool. subst m.
  destruct (scan_headers ls None) as [[v|]|] eqn:Hscan; simpl in Hp; try done.
  destruct (matches_http_basic credentials v) eqn:Hv; [|done]. simpl in Hp.
  apply law_http_basic in Hv as (u & p & Hg & ->).
  apply scan_headers_none in Hscan as (l1 & line & l2 & -> & Hline & Hothers).
  split; [done|]. exists u, p. split; [done|]. exists rl, au, ver, l1, line, l2. split_and!; done.
Qed.

(** C18: No tunnel without credentials, and no tunnel byte is swallowed.  If the
    HTTP front end yields a target, it has consumed exactly one header, up to
    and including its first empty line; that header is a CONNECT request whose
    authority parses to the target, and among its header lines exactly one is a
    Proxy-Authorization, carrying the Basic value of a pair the policy grants. *)
Theorem http_accept_sound s t s' :
  accept_http_connect_stream credentials s = (Ok t, s') ->
  exists request u p, consumes s request s' /\ output s' = output s /\ first_complete request /\
  grants credentials u p /\ carries_request request u p t.
Proof.
  intros Ha%accept_http_ok. apply http_loop_ok in Ha as (req & Hc & Ho & Hp & Hf).
  2: { intros p q Hpq. symmetry in Hpq. apply app_nil in Hpq as [-> _]. done. }
  cbn [app] in Hp, Hf. apply parse_request_sound in Hp as (He & u & p & Hg & Hr).
  exists req, u, p. split_and!; [done|done|split; done|done|done].
Qed.

(** Every well-formed client is served.  For any domain, port and granted
    pair within the header limit, the request a client writes, with any other
    header lines around the authorization, is accepted with exactly that target,
    and the stream is left at the first byte of the tunnel. *)
Theorem http_accept_complete s d p u pw before after rest :
  domain_ok d -> 1 <= p <= u16_max -> grants credentials u pw -> Forall is_u8 u -> Forall is_u8 pw ->
  Forall other_header before -> Forall other_header after ->
  let request := connect_request (d ++ 58 :: to_decimal p) (before ++ authorization_line (basic_value u pw) :: after) in
  Z.of_nat (length request) <= MAX_HTTP_CONNECT_HEADER_BYTES ->
  pending s = (RByte <$> request) ++ rest ->
  accept_http_connect_stream credentials s =
  (Ok {| host := HostDomain d; target_port := p |}, clean rest (output s) (room s)).
Proof.
  intros Hd Hp Hg Hu Hpw Hb Ha request Hl Hpend.
  rewrite (http_request_read s d p u pw before after rest) by done.
  by rewrite (proj2 (law_http_basic credentials (basic_value u pw))) by eauto.
Qed.

(** The HTTP front end terminates within its limit: whatever arrives, the
    loop reaches a verdict after at most 16385 bytes, one more than the header
    limit, and never reads further. *)
Theorem http_reads_bounded s :
  is_Some (http_loop credentials http_fuel [] s) /\
  takes (Z.to_nat (MAX_HTTP_CONNECT_HEADER_BYTES + 1)) s (accept_http_connect_stream credentials s).2.
Proof.
  destruct (http_fuel_enough credentials s) as (r & s' & Hl & Ht).
  unfold accept_http_connect_stream. rewrite Hl. split; [done|exact Ht].
Qed.
End properties.

Definition demo_request : str :=
  connect_request (lit "example.org" ++ 58 :: to_decimal 443)
    ([lit "Host: example.org:443"] ++ authorization_line (basic_value (lit "mish-01") (lit "aa")) :: [lit "Proxy-Connection: keep-alive"]).

Definition demo_http : stream := clean ((RByte <$> demo_request) ++ [RByte 22]) [] 0.

Lemma http_accept_sound_witness :
  exists request u p, consumes demo_http request (accept_http_connect_stream demo_primary demo_http).2 /\
  output (accept_http_connect_stream demo_primary demo_http).2 = output demo_http /\ first_complete request /\
  grants demo_primary u p /\
  exists request_line authority version before line after,
    split_pair 13 10 (take (length request - 4) request) = request_line :: before ++ line :: after /\
    split_ascii_whitespace request_line = [lit "CONNECT"; authority; version] /\
    authorization_of line = Some (basic_value u p) /\
    Forall (fun l => authorization_of l = None) (before ++ after) /\
    parse_connect_authority authority = Ok {| host := HostDomain (lit "example.org"); target_port := 443 |}.
Proof.
  apply (http_accept_sound demo_primary demo_http {| host := HostDomain (lit "example.org"); target_port := 443 |}).
  vm_compute. reflexivity.
Defined.

Lemma http_accept_complete_witness :
  accept_http_connect_stream demo_primary demo_http =
  (Ok {| host := HostDomain (lit "example.org"); target_port := 443 |}, clean [RByte 22] [] 0).
Proof.
  apply (http_accept_complete demo_primary demo_http (lit "example.org") 443 (lit "mish-01") (lit "aa")
    [lit "Host: example.org:443"] [lit "Proxy-Connection: keep-alive"] [RByte 22]).
  - split_and!; try (vm_compute; reflexivity); try (vm_compute; lia). apply printable_dec_intro. vm_compute. reflexivity.
  - unfold u16_max. lia.
  - split; reflexivity.
  - repeat constructor; unfold in_width, u8_max; simpl; vm_compute; congruence.
  - repeat constructor; unfold in_width, u8_max; simpl; vm_compute; congruence.
  - constructor; [|constructor]. split; [by apply lit_range|].
    exists (lit "Host"), (lit " example.org:443"). split_and!; reflexivity || done.
  - constructor; [|constructor]. split; [by apply lit_range|].
    exists (lit "Proxy-Connection"), (lit " keep-alive"). split_and!; reflexivity || done.
  - vm_compute. congruence.
  - reflexivity.
Defined.
