(* ===== verification/ProxySession.v ===== *)
(** * Mixed ingress and proxy sessions

    [accept_mixed_connect] of [src/crates/proxy/src/mixed.rs] and the session
    set-up of [src/crates/proxy/src/session.rs].  The connector is the port the
    runtime implements: a function from the target to the connected upstream
    (its local address, when known) or an error; the targets it is asked for are
    recorded.  The relay of an established pair is [Relay]'s. *)

From Stdlib Require Import String.
From S2P Require Import Prelude Net RustStr ProxyAuth Stream Socks5 HttpConnect.

Definition SOCKS5_DISCRIMINATOR : Z := 5.
Definition HTTP_CONNECT_DISCRIMINATOR : Z := 67.

Inductive MixedConnectError :=
| EmptyStream | UnsupportedProtocol | MixedIo (e : io_error)
| MixedHttp (e : HttpConnectStreamError) | MixedSocks5 (e : Socks5SessionError).

Definition read_discriminator : io MixedConnectError Z := fun s =>
  match read_retry s with
  | (Got b, s') => (Ok b, s')
  | (Failed e, s') => (Err (MixedIo e), s')
  | (_, s') => (Err EmptyStream, s')
  end.

(** [ReplayIo::new], and what is left of the inner stream when the wrapper is
    dropped. *)
Definition replay_new (first : Z) (s : stream) : stream :=
  {| replay := Some first; input := input s; output := output s; room := room s |}.
Definition replay_drop (s : stream) : stream :=
  {| replay := None; input := input s; output := output s; room := room s |}.

Definition with_protocol {E F} (p : ProxyProtocol) (f : E -> F)
    (r : result E ProxyConnectTarget * stream) : result F (ProxyProtocol * ProxyConnectTarget) * stream :=
  match r with
  | (Ok t, s) => (Ok (p, t), s)
  | (Err e, s) => (Err (f e), s)
  end.

Section session.
Context {A : Type} `{ProxyAuthenticator A} (credentials : A).

Definition accept_mixed_connect : io MixedConnectError (ProxyProtocol * ProxyConnectTarget) :=
  let* first := read_discriminator in
  fun inner =>
    let '(r, s) :=
      if first =? SOCKS5_DISCRIMINATOR
      then with_protocol Socks5 MixedSocks5 (accept_socks5_connect credentials (replay_new first inner))
      else if first =? HTTP_CONNECT_DISCRIMINATOR
      then with_protocol Http MixedHttp (accept_http_connect_stream credentials (replay_new first inner))
      else (Err UnsupportedProtocol, replay_new first inner) in
    (r, replay_drop s).

(** ** Sessions *)

Inductive ProxyOutboundConnectError := Unavailable | Rejected | OutboundFailed.

Inductive ProxySessionError :=
| SessionIo (e : io_error) | SessionHttp (e : HttpConnectStreamError)
| SessionMixed (e : MixedConnectError) | SessionSocks5 (e : Socks5SessionError)
| SessionOutbound (e : ProxyOutboundConnectError).

Definition outbound_reply (e : ProxyOutboundConnectError) : Socks5Reply :=
  match e with
  | Unavailable => HostUnreachable
  | Rejected => ConnectionNotAllowed
  | OutboundFailed => GeneralFailure
  end.

(** Response heads: a status line, then [Connection: close] or one more header. *)
Definition http_close (status : str) : str :=
  lit "HTTP/1.1 " ++ status ++ crlf ++ lit "Connection: close" ++ crlf ++ crlf.

Definition http_established : str := lit "HTTP/1.1 200 Connection Established" ++ crlf ++ crlf.

Definition http_auth_required : str :=
  lit "HTTP/1.1 407 Proxy Authentication Required" ++ crlf
  ++ lit "Proxy-Authenticate: Basic realm=" ++ [34] ++ lit "Mish" ++ [34] ++ crlf
  ++ lit "Connection: close" ++ crlf ++ crlf.

Definition http_failure_response (e : HttpConnectError) : str :=
  match e with
  | ProxyAuthenticationRequired | ProxyAuthenticationFailed => http_auth_required
  | MethodNotAllowed => http_close (lit "405 Method Not Allowed")
  | UnsupportedHttpVersion => http_close (lit "505 HTTP Version Not Supported")
  | HeaderTooLarge => http_close (lit "431 Request Header Fields Too Large")
  | IncompleteHeader | MalformedHeader | MalformedRequestLine | DuplicateProxyAuthorization
  | InvalidTarget | HttpTarget _ => http_close (lit "400 Bad Request")
  end.

Definition write_http_protocol_failure (e : HttpConnectStreamError) : io io_error unit :=
  match e with
  | HttpProtocol e => write_all (http_failure_response e)
  | HttpIo _ => io_ret tt
  end.

Definition outbound_status (e : ProxyOutboundConnectError) : str :=
  match e with
  | Unavailable => lit "503 Service Unavailable"
  | Rejected => lit "403 Forbidden"
  | OutboundFailed => lit "502 Bad Gateway"
  end.

Definition write_outbound_failure (p : ProxyProtocol) (e : ProxyOutboundConnectError) : io io_error unit :=
  match p with
  | Socks5 => write_socks5_reply (outbound_reply e) unspecified_bind_addr
  | Http => write_all (http_close (outbound_status e))
  | Mixed => io_fail OtherError
  end.

(** [upstream] is what [local_addr] answers on the connected socket. *)
Definition write_connect_success (p : ProxyProtocol) (upstream : option SocketAddr) : io io_error unit :=
  match p with
  | Socks5 => write_socks5_reply Succeeded (default unspecified_bind_addr upstream)
  | Http => write_all http_established
  | Mixed => io_fail OtherError
  end.

(** [?] on the failure response, before the protocol error. *)
Definition fail_after {X} (response : io io_error unit) (e : ProxySessionError) : io ProxySessionError X :=
  let* _ := io_map_err SessionIo response in io_fail e.

Definition accept_target (p : ProxyProtocol) : io ProxySessionError (ProxyProtocol * ProxyConnectTarget) := fun s =>
  match p with
  | Mixed =>
      match accept_mixed_connect s with
      | (Ok r, s') => (Ok r, s')
      | (Err (MixedHttp http), s') =>
          fail_after (write_http_protocol_failure http) (SessionMixed (MixedHttp http)) s'
      | (Err e, s') => (Err (SessionMixed e), s')
      end
  | Socks5 => with_protocol Socks5 SessionSocks5 (accept_socks5_connect credentials s)
  | Http =>
      match accept_http_connect_stream credentials s with
      | (Ok t, s') => (Ok (Http, t), s')
      | (Err e, s') => fail_after (write_http_protocol_failure e) (SessionHttp e) s'
      end
  end.

Section connector.
Context (connect : ProxyConnectTarget -> result ProxyOutboundConnectError (option SocketAddr)).

(** The session: its result, the client stream and the targets the connector
    was asked for. *)
Definition prepare_proxy_session_inner (p : ProxyProtocol) (s : stream)
    : result ProxySessionError (option SocketAddr) * stream * list ProxyConnectTarget :=
  match accept_target p s with
  | (Err e, s1) => (Err e, s1, [])
  | (Ok (wire_protocol, target), s1) =>
      match connect target with
      | Err error =>
          (fail_after (write_outbound_failure wire_protocol error) (SessionOutbound error) s1, [target])
      | Ok upstream =>
          ((let* _ := io_map_err SessionIo (write_connect_success wire_protocol upstream) in io_ret upstream) s1,
           [target])
      end
  end.

(** With whether the client's write side was shut down. *)
Definition prepare_proxy_session (p : ProxyProtocol) (s : stream)
    : result ProxySessionError (option SocketAddr) * stream * list ProxyConnectTarget * bool :=
  match prepare_proxy_session_inner p s with
  | (Ok upstream, s', calls) => (Ok upstream, s', calls, false)
  | (Err e, s', calls) => (Err e, s', calls, true)
  end.
End connector.
End session.

(** ** Lemmas *)

Section lemmas.
Context {A : Type} `{ProxyAuthenticator A} (credentials : A).

Lemma accept_socks5_respects : respects (accept_socks5_connect credentials).
Proof.
  intros s s' Hs. unfold accept_socks5_connect. destruct (validate_credentials credentials); [|done].
  revert s s' Hs. apply io_bind_respects; [|intros; apply io_bind_respects; [|intros]].
  all: unfold negotiate_username_password, authenticate, read_connect_request, read_target, read_port, refuse,
      protocol_error, lift, write_socks5_reply.
  all: repeat first [ case_match | apply io_bind_respects; [|intros] | progress auto with respects ].
Qed.

Lemma accept_http_respects : respects (accept_http_connect_stream credentials).
Proof.
  intros s s' Hs. unfold accept_http_connect_stream.
  replace http_fuel with (S (pred http_fuel)) by (unfold http_fuel, MAX_HTTP_CONNECT_HEADER_BYTES; lia).
  rewrite (http_loop_respects credentials _ _ _ _ Hs).
  destruct (http_loop credentials _ [] s') as [[r s1]|] eqn:E; [done|]. simpl. done.
Qed.

(** Reading the discriminator and putting it back. *)
Lemma discriminator_replayed s b rest :
  pending s = RByte b :: rest ->
  exists inner, read_discriminator s = (Ok b, inner) /\ replay inner = None /\ stream_equiv (replay_new b inner) s.
Proof.
  intros Hp. pose proof (read_retry_spec s) as Hs. rewrite Hp in Hs. cbn [skip_interrupted] in Hs.
  destruct Hs as (x & Hr & -> & _). unfold read_discriminator. rewrite Hr. eexists. split_and!; [done|done|].
  split_and!; [by rewrite Hp|done|done].
Qed.

(** Computations that never put a byte back. *)
Definition keeps {E B} (m : io E B) : Prop := forall s, replay s = None -> replay (m s).2 = None.
(** And those that have taken a byte put back. *)
Definition drains {E B} (m : io E B) : Prop := forall s, replay (m s).2 = None.

Lemma io_ret_keeps {E B} (b : B) : keeps (io_ret (E := E) b).
Proof. by intros s. Qed.
Lemma io_fail_keeps {E B} (e : E) : keeps (io_fail (A := B) e).
Proof. by intros s. Qed.
Lemma io_bind_keeps {E B C} (m : io E B) (k : B -> io E C) : keeps m -> (forall b, keeps (k b)) -> keeps (io_bind m k).
Proof.
  intros Hm Hk s Hs. unfold io_bind. specialize (Hm s Hs). destruct (m s) as [[b|] s1]; [by apply Hk|done].
Qed.
Lemma io_bind_drains {E B C} (m : io E B) (k : B -> io E C) : drains m -> (forall b, keeps (k b)) -> drains (io_bind m k).
Proof. intros Hm Hk s. unfold io_bind. specialize (Hm s). destruct (m s) as [[b|] s1]; [by apply Hk|done]. Qed.
Lemma io_map_err_keeps {E F B} (f : E -> F) (m : io E B) : keeps m -> keeps (io_map_err f m).
Proof. intros Hm s Hs. unfold io_map_err. specialize (Hm s Hs). by destruct (m s). Qed.
Lemma io_map_err_drains {E F B} (f : E -> F) (m : io E B) : drains m -> drains (io_map_err f m).
Proof. intros Hm s. unfold io_map_err. specialize (Hm s). by destruct (m s). Qed.
Lemma io_ignore_keeps {E F B} (m : io F B) : keeps m -> keeps (io_ignore (E := E) m).
Proof. intros Hm s. apply Hm. Qed.
Lemma write_all_keeps bs : keeps (write_all bs).
Proof. intros s Hs. unfold write_all. by destruct (_ <=? _)%nat. Qed.
Lemma read_retry_drained s : replay (read_retry s).2 = None.
Proof.
  pose proof (read_retry_spec s) as H0. destruct (skip_interrupted (pending s)); [by rewrite H0|].
  by destruct H0 as (? & -> & _).
Qed.
Lemma read_exact_step_keeps n : keeps (read_exact n) -> drains (read_exact (S n)).
Proof.
  intros Hn s. cbn [read_exact]. pose proof (read_retry_drained s) as H0.
  destruct (read_retry s) as [[b| | |e] s1]; [|exact H0..]. revert H0. apply (io_bind_keeps (read_exact n)); [done|].
  intros. apply io_ret_keeps.
Qed.
Lemma read_exact_keeps n : keeps (read_exact n).
Proof. induction n as [|n IH]; [by intros s|]. intros s _. by apply read_exact_step_keeps. Qed.
Lemma read_exact_drains n : drains (read_exact (S n)).
Proof. apply read_exact_step_keeps, read_exact_keeps. Qed.

Create HintDb keeps.
#[local] Hint Resolve io_ret_keeps io_fail_keeps io_map_err_keeps io_ignore_keeps write_all_keeps read_exact_keeps : keeps.

Lemma accept_socks5_drained s t s' : accept_socks5_connect credentials s = (Ok t, s') -> replay s' = None.
Proof.
  unfold accept_socks5_connect. destruct (validate_credentials credentials); [|done]. intros Ha.
  change s' with ((Ok (E := Socks5SessionError) t, s').2). rewrite <- Ha. revert s Ha.
  intros s _. revert s. apply io_bind_drains; [|intros; apply io_bind_keeps; [|intros]].
  all: unfold negotiate_username_password, authenticate, read_connect_request, read_target, read_port, refuse,
      protocol_error, lift, write_socks5_reply.
  1: apply io_bind_drains; [apply io_map_err_drains, read_exact_drains|intros].
  all: repeat first [ case_match | apply io_bind_keeps; [|intros] | progress auto with keeps ].
Qed.

Lemma http_loop_drained fuel request s r s' :
  http_loop credentials fuel request s = Some (r, s') -> replay s' = None.
Proof.
  revert request s. induction fuel as [|fuel IH]; intros request s Hl; [done|]. cbn [http_loop] in Hl.
  pose proof (read_retry_drained s) as H0. destruct (read_retry s) as [[b| | |] s1]; simpl in H0; simplify_eq; try done.
  destruct (parse_http_connect_request credentials (request ++ [b])) as [|[]]; simplify_eq; eauto.
Qed.

Lemma replay_drop_equiv s : replay s = None -> stream_equiv (replay_drop s) s.
Proof. intros Hs. unfold stream_equiv, pending. by rewrite Hs. Qed.
End lemmas.

(** ** What a served session consists of *)

(** The bytes a client sends for [t] over each wire protocol, with a pair the
    policy grants. *)
Inductive presents {A} `{AuthenticatorLaws A} (c : A) : ProxyProtocol -> list Z -> ProxyConnectTarget -> Prop :=
| presents_socks5 methods u p t :
    methods_ok methods -> pair_ok u p -> grants c u p ->
    presents c Socks5 (greeting methods ++ auth_frame u p ++ request_frame t) t
| presents_http request u p t :
    first_complete request -> grants c u p -> carries_request request u p t -> presents c Http request t.

(** The reply on the wire to a connector result. *)
Definition session_reply (p : ProxyProtocol) (r : result ProxyOutboundConnectError (option SocketAddr)) : list Z :=
  match p, r with
  | Socks5, Ok upstream => reply_frame Succeeded (default unspecified_bind_addr upstream)
  | Socks5, Err e => reply_frame (outbound_reply e) unspecified_bind_addr
  | _, Ok _ => http_established
  | _, Err e => http_close (outbound_status e)
  end.

Section served.
Context {A : Type} `{AuthenticatorLaws A} (c : A).

Lemma socks5_presents s t s' :
  byte_stream s -> accept_socks5_connect c s = (Ok t, s') ->
  exists frame, presents c Socks5 frame t /\ consumes s frame s'.
Proof.
  intros Hs Ha. unfold accept_socks5_connect in Ha. destruct (validate_credentials c); [|done].
  apply io_bind_ok in Ha as ([] & s1 & Hn & Ha). apply io_bind_ok in Ha as ([] & s2 & Hau & Hr).
  apply negotiate_sound in Hn as (methods & Hm & C1 & _); [|done].
  destruct (consumes_bytes _ _ _ Hs C1) as [_ Hs1].
  apply authenticate_sound in Hau as (u & p & Hp & Hg & C2 & _); [|done].
  destruct (consumes_bytes _ _ _ Hs1 C2) as [_ Hs2].
  apply read_connect_request_sound in Hr as (_ & C3 & _); [|done].
  eexists. split; [apply (presents_socks5 c methods u p t); [done|done|by apply law_username_password]|].
  by eapply consumes_trans, consumes_trans.
Qed.

Lemma http_presents s t s' :
  accept_http_connect_stream c s = (Ok t, s') -> exists frame, presents c Http frame t /\ consumes s frame s'.
Proof.
  intros Ha%accept_http_ok. apply http_loop_ok in Ha as (req & Hc & _ & Hp & Hf).
  2: { intros p q Hpq. symmetry in Hpq. apply app_nil in Hpq as [-> _]. done. }
  cbn [app] in Hp, Hf. apply parse_request_sound in Hp as (He & u & p & Hg & Hr).
  exists req. split; [|done]. by apply (presents_http c req u p t).
Qed.

Lemma consumes_pending s1 s2 frame s1' s2' :
  pending s1 = pending s2 -> pending s1' = pending s2' -> consumes s1 frame s1' -> consumes s2 frame s2'.
Proof. unfold consumes. by intros -> ->. Qed.

Lemma mixed_presents s wire t s' :
  byte_stream s -> accept_mixed_connect c s = (Ok (wire, t), s') ->
  exists frame, presents c wire frame t /\ consumes s frame s'.
Proof.
  intros Hs Ha. unfold accept_mixed_connect, io_bind in Ha.
  destruct (read_discriminator s) as [[b|e] inner] eqn:Hd; [|done].
  assert (consumes s [] (replay_new b inner)) as Hc.
  { destruct (skip_interrupted_prefix (pending s)) as (pre & He & Hb). exists pre. split; [|done].
    unfold read_discriminator in Hd. pose proof (read_retry_spec s) as Hr.
    destruct (skip_interrupted (pending s)) as [|ev rest]; [by rewrite Hr in Hd|].
    destruct Hr as (x & Hr & -> & _). rewrite Hr in Hd. destruct ev; by simplify_eq. }
  destruct (consumes_bytes _ _ _ Hs Hc) as [_ Hs1].
  destruct (b =? SOCKS5_DISCRIMINATOR); [|destruct (b =? HTTP_CONNECT_DISCRIMINATOR); [|done]].
  - destruct (accept_socks5_connect c (replay_new b inner)) as [[t'|] s1] eqn:E; [|done].
    simpl in Ha. injection Ha as <- <- <-. destruct (socks5_presents _ _ _ Hs1 E) as (frame & Hp & Hf).
    exists frame. split; [done|]. apply (consumes_trans _ [] _ _ _ Hc). eapply consumes_pending; [done| |exact Hf].
    symmetry. apply replay_drop_equiv. by eapply accept_socks5_drained.
  - destruct (accept_http_connect_stream c (replay_new b inner)) as [[t'|] s1] eqn:E; [|done].
    simpl in Ha. injection Ha as <- <- <-. destruct (http_presents _ _ _ E) as (frame & Hp & Hf).
    exists frame. split; [done|]. apply (consumes_trans _ [] _ _ _ Hc). eapply consumes_pending; [done| |exact Hf].
    symmetry. apply replay_drop_equiv. apply accept_http_ok in E. by eapply http_loop_drained.
Qed.

Lemma fail_after_err {X} w e s x s' : fail_after (X := X) w e s <> (Ok x, s').
Proof. unfold fail_after, io_bind, io_map_err. by destruct (w s) as [[] ?]. Qed.

Lemma accept_target_presents p s wire t s' :
  byte_stream s -> accept_target c p s = (Ok (wire, t), s') ->
  exists frame, presents c wire frame t /\ consumes s frame s' /\ (p = Mixed \/ wire = p).
Proof.
  intros Hs Ha. destruct p; cbn [accept_target] in Ha.
  - destruct (accept_mixed_connect c s) as [[[w t']|[]] s1] eqn:E; simplify_eq;
      [|by apply fail_after_err in Ha].
    destruct (mixed_presents _ _ _ _ Hs E) as (frame & ? & ?). exists frame. auto.
  - destruct (accept_socks5_connect c s) as [[t'|] s1] eqn:E; simplify_eq/=.
    destruct (socks5_presents _ _ _ Hs E) as (frame & ? & ?). exists frame. auto.
  - destruct (accept_http_connect_stream c s) as [[t'|] s1] eqn:E; simplify_eq; [|by apply fail_after_err in Ha].
    destruct (http_presents _ _ _ E) as (frame & ? & ?). exists frame. auto.
Qed.

(** Writing the reply decides the session. *)
Lemma write_reply_cases bs s :
  (length bs <= room s /\ (write_all bs s).1 = Ok tt /\ output (write_all bs s).2 = output s ++ bs)%nat \/
  (room s < length bs /\ (write_all bs s).1 = Err WriteError)%nat.
Proof. unfold write_all. destruct (Nat.leb_spec (length bs) (room s)); [left|right]; done. Qed.

Lemma presents_wire w frame t : presents c w frame t -> w = Socks5 \/ w = Http.
Proof. intros []; auto. Qed.
End served.

(** ** Properties *)

(** Protocol detection is transparent.  On a stream that starts with the
    SOCKS version byte the mixed ingress answers exactly as the SOCKS5 front end
    would on the untouched stream, on one that starts with [C] exactly as the
    HTTP front end would, with the same error or target, and after a success
    with the same bytes left for the tunnel; any other first byte is refused. *)
Theorem mixed_ingress_transparent {A} `{ProxyAuthenticator A} (c : A) s b rest :
  pending s = RByte b :: rest ->
  let m := accept_mixed_connect c s in
  (b = SOCKS5_DISCRIMINATOR ->
   match accept_socks5_connect c s with
   | (Ok t, s1) => m.1 = Ok (Socks5, t) /\ stream_equiv m.2 s1
   | (Err e, _) => m.1 = Err (MixedSocks5 e)
   end) /\
  (b = HTTP_CONNECT_DISCRIMINATOR ->
   match accept_http_connect_stream c s with
   | (Ok t, s1) => m.1 = Ok (Http, t) /\ stream_equiv m.2 s1
   | (Err e, _) => m.1 = Err (MixedHttp e)
   end) /\
  (b <> SOCKS5_DISCRIMINATOR -> b <> HTTP_CONNECT_DISCRIMINATOR -> m.1 = Err UnsupportedProtocol).
Proof.
  intros Hp. destruct (discriminator_replayed s b rest Hp) as (inner & Hd & Hr & He). cbv zeta.
  unfold accept_mixed_connect, io_bind. rewrite Hd. split_and!.
  - intros ->. change (SOCKS5_DISCRIMINATOR =? SOCKS5_DISCRIMINATOR) with true. cbn iota.
    destruct (accept_socks5_respects c _ _ He) as [H1 H2].
    destruct (accept_socks5_connect c (replay_new SOCKS5_DISCRIMINATOR inner)) as [[t|e] s1] eqn:E,
      (accept_socks5_connect c s) as [[t'|e'] s1']; simpl in *; simplify_eq; [|done].
    split; [done|]. etransitivity; [apply replay_drop_equiv|done]. by eapply accept_socks5_drained.
  - intros ->. change (HTTP_CONNECT_DISCRIMINATOR =? SOCKS5_DISCRIMINATOR) with false.
    change (HTTP_CONNECT_DISCRIMINATOR =? HTTP_CONNECT_DISCRIMINATOR) with true. cbn iota.
    destruct (accept_http_respects c _ _ He) as [H1 H2].
    destruct (accept_http_connect_stream c (replay_new HTTP_CONNECT_DISCRIMINATOR inner)) as [[t|e] s1] eqn:E,
      (accept_http_connect_stream c s) as [[t'|e'] s1']; simpl in *; simplify_eq; [|done].
    split; [done|]. etransitivity; [apply replay_drop_equiv|done].
    apply accept_http_ok in E. by eapply http_loop_drained.
  - intros H1 H2. rewrite (proj2 (Z.eqb_neq _ _) H1), (proj2 (Z.eqb_neq _ _) H2). done.
Qed.

Lemma mixed_ingress_transparent_witness :
  (accept_mixed_connect demo_primary (clean (tail (input demo_client)) [] 100)).1 = Ok (Socks5, demo_target).
Proof.
  assert (pending (clean (tail (input demo_client)) [] 100) = RByte 5 :: tail (tail (input demo_client))) as Hp by reflexivity.
  pose proof (proj1 (mixed_ingress_transparent demo_primary _ _ _ Hp) eq_refl) as Hw.
  revert Hw. vm_compute. intros [Hw _]. exact Hw.
Defined.


Definition demo_connect (t : ProxyConnectTarget) : result ProxyOutboundConnectError (option SocketAddr) :=
  if decide (target_port t = 443) then Ok (Some {| sa_ip := IpV4 167772161; sa_port := 40000 |}) else Err Rejected.

