(* ===== verification/Relay.v ===== *)
(** * The relay of a proxy session

    [relay_bidirectional] and [serve_proxy_session] of
    [src/crates/proxy/src/session.rs]: once a session is set up, one thread copies
    from the client to the upstream, the calling thread copies back, each closes the
    write side it fed when its source ends, and the caller joins the other thread.

    Both threads are state machines over the two sockets; one event is one call of
    the socket or of the thread library, with what the surroundings contribute: how
    many bytes a read returns, whether a clone, a spawn or a shutdown succeeds.
    Every interleaving is a sequence of events.  A socket is a [stream]: what is
    still to be read, what was written, and how much the peer will still take. *)

From Stdlib Require Import String.
From S2P Require Import Prelude Net RustStr ProxyAuth Stream Socks5 HttpConnect ProxySession.

(** ** Sockets *)

Inductive chunk_result := Chunk (bs : list Z) | ChunkEnd | ChunkInterrupted | ChunkFailed (e : io_error).

(** The bytes up to the next event of another kind. *)
Fixpoint leading_bytes (evs : list read_event) : list Z :=
  match evs with RByte b :: evs => b :: leading_bytes evs | _ => [] end.

(** [Read::read] into a large buffer: at least one byte when there is one, and at
    most [S k]. *)
Definition read_some (k : nat) (s : stream) : chunk_result * stream :=
  match pending s with
  | [] => (ChunkEnd, s)
  | RInterrupted :: rest => (ChunkInterrupted, after_read s rest)
  | RFail c :: rest => (ChunkFailed (ReadError c), after_read s rest)
  | RByte b :: rest =>
      let bs := b :: take k (leading_bytes rest) in
      (Chunk bs, after_read s (drop (length bs) (pending s)))
  end.

(** ** Copying one way *)

(** What the surroundings contribute to a step. *)
Record relay_env := { answer : result io_error unit; chunk : nat }.

(** [io::copy] and the shutdown behind it; the number is the bytes copied. *)
Inductive copier :=
| Reading (copied : Z)
| Writing (bs : list Z) (copied : Z)
| Closing (copied : Z)
| Copied (r : result io_error Z).

(** The source, the sink, and whether the sink's write side was shut down. *)
Definition copy_step (c : copier) (src dst : stream) (shut : bool) (x : relay_env) : copier * stream * stream * bool :=
  match c with
  | Reading n =>
      match read_some (chunk x) src with
      | (Chunk bs, src) => (Writing bs n, src, dst, shut)
      | (ChunkEnd, src) => (Closing n, src, dst, shut)
      | (ChunkInterrupted, src) => (Reading n, src, dst, shut)
      | (ChunkFailed e, src) => (Copied (Err e), src, dst, shut)
      end
  | Writing bs n =>
      match write_all bs dst with
      | (Ok _, dst) => (Reading (n + Z.of_nat (length bs)), src, dst, shut)
      | (Err e, dst) => (Copied (Err e), src, dst, shut)
      end
  | Closing n =>
      match answer x with
      | Ok _ => (Copied (Ok n), src, dst, true)
      | Err e => (Copied (Err e), src, dst, shut)
      end
  | Copied _ => (c, src, dst, shut)
  end.

(** ** Both ways *)

Record ProxyRelayStats := { client_to_upstream : Z; upstream_to_client : Z }.

Inductive caller :=
| CloneClient | CloneUpstream | SpawnWorker
| CopyBack (c : copier)
| JoinWorker (copied : Z)
| Returned (r : result io_error ProxyRelayStats).

Record relay := {
  client : stream;
  upstream : stream;
  client_shut : bool;
  upstream_shut : bool;
  main : caller;
  worker : option copier }.

Definition relay_new (c u : stream) : relay :=
  {| client := c; upstream := u; client_shut := false; upstream_shut := false; main := CloneClient; worker := None |}.

Definition set_main (s : relay) (m : caller) : relay :=
  {| client := client s; upstream := upstream s; client_shut := client_shut s; upstream_shut := upstream_shut s;
     main := m; worker := worker s |}.

(** [?] on the answer. *)
Definition unless (x : relay_env) (next : caller) : caller :=
  match answer x with Ok _ => next | Err e => Returned (Err e) end.

(** After a step of the copy. *)
Definition copied_back (c : copier) : caller :=
  match c with Copied (Ok n) => JoinWorker n | Copied (Err e) => Returned (Err e) | c => CopyBack c end.

Definition main_step (s : relay) (x : relay_env) : relay :=
  match main s with
  | CloneClient => set_main s (unless x CloneUpstream)
  | CloneUpstream => set_main s (unless x SpawnWorker)
  | SpawnWorker =>
      match answer x with
      | Ok _ => {| client := client s; upstream := upstream s; client_shut := client_shut s; upstream_shut := upstream_shut s;
                   main := CopyBack (Reading 0); worker := Some (Reading 0) |}
      | Err _ => set_main s (Returned (Err OtherError))
      end
  | CopyBack c =>
      let '(c, u, cl, shut) := copy_step c (upstream s) (client s) (client_shut s) x in
      {| client := cl; upstream := u; client_shut := shut; upstream_shut := upstream_shut s; main := copied_back c;
         worker := worker s |}
  | JoinWorker n =>
      match worker s with
      | Some (Copied (Ok m)) => set_main s (Returned (Ok {| client_to_upstream := m; upstream_to_client := n |}))
      | Some (Copied (Err e)) => set_main s (Returned (Err e))
      | _ => s
      end
  | Returned _ => s
  end.

Definition worker_step (s : relay) (x : relay_env) : relay :=
  match worker s with
  | None => s
  | Some c =>
      let '(c, cl, u, shut) := copy_step c (client s) (upstream s) (upstream_shut s) x in
      {| client := cl; upstream := u; client_shut := client_shut s; upstream_shut := shut; main := main s; worker := Some c |}
  end.

Inductive relay_event := MainEvent (x : relay_env) | WorkerEvent (x : relay_env).

Definition relay_step (s : relay) (e : relay_event) : unit * relay :=
  (tt, match e with MainEvent x => main_step s x | WorkerEvent x => worker_step s x end).

Definition relay_bidirectional (c u : stream) (es : list relay_event) : relay := run relay_step (relay_new c u) es.

(** ** Serving *)

Section serving.
Context {A : Type} `{ProxyAuthenticator A} (credentials : A).
Context (connect : ProxyConnectTarget -> result ProxyOutboundConnectError (option SocketAddr)).

(** [u] is the socket the connector connected.  [None] while it is at it. *)
Definition serve_proxy_session (p : ProxyProtocol) (s u : stream) (es : list relay_event)
    : option (result ProxySessionError ProxyRelayStats) * stream * stream :=
  match prepare_proxy_session credentials connect p s with
  | (Err e, s', _, _) => (Some (Err e), s', u)
  | (Ok _, s', _, _) =>
      let r := relay_bidirectional s' u es in
      (match main r with Returned r => Some (map_err SessionIo r) | _ => None end, client r, upstream r)
  end.
End serving.

(** ** One way *)

Definition no_failure (evs : list read_event) : Prop := Forall (fun ev => match ev with RFail _ => False | _ => True end) evs.

(** What has been taken from the source, and what has been written to the sink. *)
Definition way (src0 dst0 : stream) (c : copier) (src dst : stream) (shut : bool) : Prop :=
  exists taken written,
    pending src0 = taken ++ pending src /\ output dst = output dst0 ++ written /\
    match c with
    | Reading n => no_failure taken /\ bytes_of taken = written /\ n = Z.of_nat (length written)
    | Writing bs n => no_failure taken /\ bytes_of taken = written ++ bs /\ n = Z.of_nat (length written)
    | Closing n => no_failure taken /\ bytes_of taken = written /\ n = Z.of_nat (length written) /\ pending src = []
    | Copied (Ok n) =>
        no_failure taken /\ bytes_of taken = written /\ n = Z.of_nat (length written) /\ pending src = [] /\ shut = true
    | Copied (Err _) => written `prefix_of` bytes_of taken
    end.

Lemma leading_bytes_split evs k :
  evs = (RByte <$> take k (leading_bytes evs)) ++ drop (length (take k (leading_bytes evs))) evs.
Proof.
  revert evs. induction k as [|k IH]; intros evs; [done|]. destruct evs as [|[b| |c] evs]; try done.
  cbn [leading_bytes take fmap list_fmap app length drop]. f_equal. apply IH.
Qed.

Lemma no_failure_bytes bs : no_failure (RByte <$> bs).
Proof. unfold no_failure. induction bs; by constructor. Qed.

Lemma read_some_spec k s :
  output (read_some k s).2 = output s /\ room (read_some k s).2 = room s /\
  match (read_some k s).1 with
  | Chunk bs => pending s = (RByte <$> bs) ++ pending (read_some k s).2 /\ bs <> []
  | ChunkEnd => pending s = [] /\ pending (read_some k s).2 = []
  | ChunkInterrupted => pending s = RInterrupted :: pending (read_some k s).2
  | ChunkFailed e => exists c, pending s = RFail c :: pending (read_some k s).2
  end.
Proof.
  unfold read_some. destruct (pending s) as [|[b| |c] rest] eqn:E; cbn [fst snd]; try done; [|by eauto].
  split_and!; [done|done| |done]. unfold pending. cbn [replay after_read input length drop].
  rewrite fmap_cons. cbn [app]. f_equal. apply leading_bytes_split.
Qed.

Lemma write_all_spec bs s :
  pending (write_all bs s).2 = pending s /\
  match (write_all bs s).1 with
  | Ok _ => output (write_all bs s).2 = output s ++ bs
  | Err _ => exists part, output (write_all bs s).2 = output s ++ part /\ part `prefix_of` bs
  end.
Proof.
  unfold write_all. destruct (_ <=? _)%nat; cbn [fst snd]; [done|]. split; [done|]. eexists. split; [done|].
  exists (drop (room s) bs). by rewrite take_drop.
Qed.

(** A copy leaves alone what the other direction uses. *)
Lemma copy_step_frame c src dst shut x c' src' dst' shut' :
  copy_step c src dst shut x = (c', src', dst', shut') -> output src' = output src /\ pending dst' = pending dst.
Proof.
  destruct c as [n|bs n|n|r]; cbn [copy_step].
  - destruct (read_some_spec (chunk x) src) as (Ho & _ & _). destruct (read_some _ _) as [[] s]; intros [= <- <- <- <-]; done.
  - destruct (write_all_spec bs dst) as [Hp _]. destruct (write_all _ _) as [[] s]; intros [= <- <- <- <-]; done.
  - destruct (answer x); intros [= <- <- <- <-]; done.
  - intros [= <- <- <- <-]; done.
Qed.

Lemma copy_step_way src0 dst0 c src dst shut x c' src' dst' shut' :
  way src0 dst0 c src dst shut -> copy_step c src dst shut x = (c', src', dst', shut') ->
  way src0 dst0 c' src' dst' shut'.
Proof.
  intros (taken & written & Hs & Hd & Hc). destruct c as [n|bs n|n|r]; cbn [copy_step].
  - destruct Hc as (Hf & Hb & Hn). pose proof (read_some_spec (chunk x) src) as (_ & _ & Hr).
    destruct (read_some _ _) as [[bs| | |e] s]; cbn [fst snd] in Hr; intros [= <- <- <- <-].
    + destruct Hr as [Hr _]. exists (taken ++ (RByte <$> bs)), written. rewrite Hs, Hr, bytes_of_app, bytes_of_map, <- app_assoc.
      split_and!; [done|done| |by rewrite Hb|done]. apply Forall_app. split; [done|apply no_failure_bytes].
    + destruct Hr as [Hr1 Hr2]. exists taken, written. by rewrite Hs, Hr1, Hr2.
    + exists (taken ++ [RInterrupted]), written. rewrite Hs, Hr, bytes_of_app, <- app_assoc, app_nil_r. split_and!; try done.
      apply Forall_app. by repeat constructor.
    + destruct Hr as [code Hr]. exists (taken ++ [RFail code]), written. rewrite Hs, Hr, bytes_of_app, <- app_assoc, app_nil_r.
      by rewrite Hb.
  - destruct Hc as (Hf & Hb & Hn). pose proof (write_all_spec bs dst) as [_ Hw].
    destruct (write_all _ _) as [[u|e] d]; cbn [fst snd] in Hw; intros [= <- <- <- <-].
    + exists taken, (written ++ bs). rewrite Hw, Hd, <- app_assoc. split_and!; try done. rewrite length_app. lia.
    + destruct Hw as (part & Hw & Hp). exists taken, (written ++ part). rewrite Hw, Hd, <- app_assoc. split_and!; try done.
      rewrite Hb. by apply prefix_app.
  - destruct Hc as (Hf & Hb & Hn & He). destruct (answer x); intros [= <- <- <- <-]; exists taken, written; [done|].
    split_and!; [done..|]. by rewrite Hb.
  - intros [= <- <- <- <-]. by exists taken, written.
Qed.

(** A frame for [way]: only what it mentions matters. *)
Lemma way_frame src0 dst0 c src dst src' dst' shut :
  pending src' = pending src -> output dst' = output dst -> way src0 dst0 c src dst shut -> way src0 dst0 c src' dst' shut.
Proof. intros H1 H2 (taken & written & Hs & Hd & Hc). exists taken, written. by rewrite H1, H2. Qed.

(** ** Both ways *)

(** The copy back, as far as the caller has got. *)
Definition back_copier (m : caller) : option copier :=
  match m with
  | CopyBack c => Some c
  | JoinWorker n | Returned (Ok {| client_to_upstream := _; upstream_to_client := n |}) => Some (Copied (Ok n))
  | _ => None
  end.

Record relay_ok (c0 u0 : stream) (s : relay) : Prop := {
  rl_out : way c0 u0 (default (Reading 0) (worker s)) (client s) (upstream s) (upstream_shut s);
  rl_back : match back_copier (main s) with
            | Some c => way u0 c0 c (upstream s) (client s) (client_shut s)
            | None => exists taken written, pending u0 = taken ++ pending (upstream s) /\
                output (client s) = output c0 ++ written /\ written `prefix_of` bytes_of taken
            end;
  rl_fresh : match main s with
             | CloneClient | CloneUpstream | SpawnWorker => client s = c0 /\ upstream s = u0 /\ worker s = None
             | CopyBack _ | JoinWorker _ => is_Some (worker s)
             | Returned (Ok r) => worker s = Some (Copied (Ok (client_to_upstream r)))
             | Returned (Err _) => True
             end }.

Lemma way_start c0 u0 : way c0 u0 (Reading 0) c0 u0 false.
Proof. exists [], []. rewrite app_nil_r. split_and!; try done. constructor. Qed.

Lemma main_step_ok c0 u0 s x : relay_ok c0 u0 s -> relay_ok c0 u0 (main_step s x).
Proof.
  intros [Ho Hb Hf]. unfold main_step. destruct (main s) as [| | |c|n|r] eqn:Hm.
  - unfold unless. destruct (answer x); split; done.
  - unfold unless. destruct (answer x); split; done.
  - destruct Hf as (E1 & E2 & E3). destruct (answer x); [|by split]. rewrite E3 in Ho.
    split; cbn [client upstream client_shut upstream_shut main worker default back_copier]; [done| |done].
    rewrite E1, E2. apply way_start.
  - destruct (copy_step _ _ _ _ _) as [[[c' u'] cl'] shut'] eqn:E. destruct (copy_step_frame _ _ _ _ _ _ _ _ _ E) as [F1 F2].
    pose proof (copy_step_way _ _ _ _ _ _ _ _ _ _ _ Hb E) as Hw.
    split; cbn [client upstream client_shut upstream_shut main worker].
    + by eapply way_frame.
    + destruct c' as [| | |[n|e]]; exact Hw.
    + by destruct c' as [| | |[n|e]].
  - destruct (worker s) as [[| | |[m|e]]|] eqn:Ew; try (by split; rewrite ?Hm, ?Ew).
    + split; cbn [client upstream client_shut upstream_shut main worker set_main back_copier client_to_upstream]; rewrite ?Ew; done.
    + split; cbn [client upstream client_shut upstream_shut main worker set_main back_copier]; rewrite ?Ew; [done| |done].
      destruct Hb as (taken & written & H1 & H2 & _ & H3 & _). exists taken, written. split_and!; [done..|]. by rewrite H3.
  - by split; rewrite ?Hm.
Qed.

Lemma worker_step_ok c0 u0 s x : relay_ok c0 u0 s -> relay_ok c0 u0 (worker_step s x).
Proof.
  intros [Ho Hb Hf]. unfold worker_step. destruct (worker s) as [c|] eqn:Ew; [|by split; rewrite ?Ew].
  cbn [default] in Ho. destruct (copy_step _ _ _ _ _) as [[[c' cl'] u'] shut'] eqn:E.
  destruct (copy_step_frame _ _ _ _ _ _ _ _ _ E) as [F1 F2].
  split; cbn [client upstream client_shut upstream_shut main worker default].
  - by eapply copy_step_way.
  - destruct (back_copier (main s)); [by eapply way_frame|]. by rewrite F1, F2.
  - destruct (main s) as [| | |?|?|[r|?]]; try (by destruct Hf as (_ & _ & [=])); try done.
    injection Hf as ->. cbn in E. by injection E as <- _ _ _.
Qed.

Lemma relay_runs_ok c0 u0 es : relay_ok c0 u0 (relay_bidirectional c0 u0 es).
Proof.
  unfold relay_bidirectional. apply run_invariant.
  - intros s [x|x] Hs; [by apply main_step_ok|by apply worker_step_ok].
  - split; cbn; [apply way_start| |done]. exists [], []. by rewrite app_nil_r.
Qed.

(** ** The end of a relay *)

(** Steps left to a copy. *)
Definition copy_left (c : copier) (src : stream) : nat :=
  match c with
  | Reading _ => 2 * length (pending src) + 2
  | Writing _ _ => 2 * length (pending src) + 3
  | Closing _ => 1
  | Copied _ => 0
  end.

Definition relay_left (s : relay) : nat :=
  match main s with
  | CloneClient | CloneUpstream | SpawnWorker =>
      match main s with CloneClient => 3 | CloneUpstream => 2 | _ => 1 end
      + (2 * length (pending (client s)) + 2) + (2 * length (pending (upstream s)) + 2) + 2
  | CopyBack c => default O ((fun w => copy_left w (client s)) <$> worker s) + copy_left c (upstream s) + 2
  | JoinWorker _ => default O ((fun w => copy_left w (client s)) <$> worker s) + 1
  | Returned _ => 0
  end.

Lemma copy_step_left c src dst shut x c' src' dst' shut' :
  copy_step c src dst shut x = (c', src', dst', shut') -> (copy_left c' src' <= pred (copy_left c src))%nat.
Proof.
  destruct c as [n|bs n|n|r]; cbn [copy_step].
  - pose proof (read_some_spec (chunk x) src) as (_ & _ & Hr).
    destruct (read_some _ _) as [[bs| | |e] s]; cbn [fst snd] in Hr; intros [= <- <- <- <-]; cbn [copy_left]; try lia.
    + destruct Hr as [Hr Hne]. rewrite Hr, length_app, length_fmap. destruct bs; [done|]. cbn [length]. lia.
    + rewrite Hr. cbn [length]. lia.
  - destruct (write_all bs dst) as [[] d]; intros [= <- <- <- <-]; cbn [copy_left]; lia.
  - destruct (answer x); intros [= <- <- <- <-]; cbn [copy_left]; lia.
  - intros [= <- <- <- <-]. cbn. lia.
Qed.

Lemma copy_left_pending c src src' : pending src' = pending src -> copy_left c src' = copy_left c src.
Proof. intros E. destruct c; cbn; by rewrite ?E. Qed.

(** The other thread runs, from when the caller copies. *)
Definition spawned (s : relay) : Prop :=
  match main s with CopyBack _ | JoinWorker _ => is_Some (worker s) | Returned _ => True | _ => worker s = None end.

Lemma relay_ok_spawned c0 u0 s : relay_ok c0 u0 s -> spawned s.
Proof. intros [_ _ Hf]. unfold spawned. destruct (main s); try apply Hf; done. Qed.

(** A caller that waits for the other thread. *)
Definition waiting (s : relay) : Prop :=
  exists n w, main s = JoinWorker n /\ worker s = Some w /\ copy_left w (client s) <> 0%nat.

Lemma main_step_left s x : spawned s ->
  (waiting s /\ main_step s x = s) \/ (relay_left (main_step s x) <= pred (relay_left s))%nat.
Proof.
  unfold spawned, main_step, waiting, relay_left. destruct (main s) as [| | |c|n|r] eqn:Hm.
  - right. unfold unless. destruct (answer x); cbn; lia.
  - right. unfold unless. destruct (answer x); cbn; lia.
  - right. destruct (answer x); cbn; lia.
  - intros [w Hw]. right. rewrite Hw. cbn [fmap option_fmap option_map default].
    destruct (copy_step _ _ _ _ _) as [[[c' u'] cl'] shut'] eqn:E. destruct (copy_step_frame _ _ _ _ _ _ _ _ _ E) as [_ F].
    pose proof (copy_step_left _ _ _ _ _ _ _ _ _ E) as Hl. cbn [main worker client upstream].
    cbn [fmap option_fmap option_map default]; unfold id.
    destruct c' as [| | |[n|e]]; cbn [copied_back copy_left] in *; rewrite ?(copy_left_pending w _ _ F); lia.
  - intros [w Hw]. rewrite Hw. destruct w as [| | |[m|e]]; try (right; cbn; lia); left;
      (split; [eexists n, _; split_and!; [done|done|cbn; lia]|done]).
  - intros _. right. rewrite Hm. cbn. lia.
Qed.

Lemma worker_step_left s x :
  (relay_left (worker_step s x) <= relay_left s)%nat /\
  (waiting s -> (relay_left (worker_step s x) <= pred (relay_left s))%nat).
Proof.
  unfold worker_step, waiting, relay_left. destruct (worker s) as [w|] eqn:Hw;
    [|rewrite Hw; split; [lia|by intros (? & ? & _ & [=] & _)]].
  destruct (copy_step _ _ _ _ _) as [[[w' cl'] u'] shut'] eqn:E. destruct (copy_step_frame _ _ _ _ _ _ _ _ _ E) as [_ F].
  pose proof (copy_step_left _ _ _ _ _ _ _ _ _ E) as Hl. cbn [main worker client upstream fmap option_fmap option_map default].
  assert (length (pending cl') <= length (pending (client s)))%nat as Hp.
  { destruct w as [n|bs n|n|r]; cbn [copy_step] in E.
    - pose proof (read_some_spec (chunk x) (client s)) as (_ & _ & Hr).
      destruct (read_some _ _) as [[bs| | |e] q]; cbn [fst snd] in Hr; injection E as <- <- <- <-.
      + destruct Hr as [-> _]. rewrite length_app. lia.
      + destruct Hr as [-> ->]. lia.
      + rewrite Hr. cbn. lia.
      + destruct Hr as [? ->]. cbn. lia.
    - destruct (write_all _ _) as [[] ?]; injection E as <- <- <- <-; lia.
    - destruct (answer x); injection E as <- <- <- <-; lia.
    - injection E as <- <- <- <-. lia. }
  unfold id. destruct (main s) as [| | |c|n|r]; rewrite ?F, ?(copy_left_pending _ _ _ F).
  all: split; [lia|]; intros (? & v & ? & Hv & Hne); simplify_eq; lia.
Qed.

(** One step of each thread. *)
Definition relay_round (xy : relay_env * relay_env) : list relay_event := [MainEvent xy.1; WorkerEvent xy.2].

Lemma round_left s xy : spawned s -> (relay_left (run relay_step s (relay_round xy)) <= pred (relay_left s))%nat.
Proof.
  intros Hs. destruct xy as [x y]. cbn [relay_round run relay_step snd fst].
  destruct (worker_step_left (main_step s x) y) as [H1 H2].
  destruct (main_step_left s x Hs) as [[Hw E]|H]; [|lia]. rewrite E in *. by apply H2.
Qed.

Lemma rounds_left c0 u0 s rounds : relay_ok c0 u0 s ->
  (relay_left (run relay_step s (concat (relay_round <$> rounds))) <= relay_left s - length rounds)%nat.
Proof.
  revert s. induction rounds as [|xy rounds IH]; intros s Hs; [cbn; lia|].
  cbn [fmap list_fmap concat]. rewrite run_app. pose proof (round_left s xy (relay_ok_spawned _ _ _ Hs)) as Hl.
  assert (relay_ok c0 u0 (run relay_step s (relay_round xy))) as Hs'.
  { destruct xy as [x y]. cbn. by apply worker_step_ok, main_step_ok. }
  specialize (IH _ Hs'). cbn [length]. lia.
Qed.

Lemma relay_left_returned s : relay_left s = 0%nat -> exists r, main s = Returned r.
Proof. unfold relay_left. destruct (main s) as [| | |c|n|r]; try lia. by exists r. Qed.

(** ** Sessions *)

Definition relay_stats (to_upstream to_client : list Z) : ProxyRelayStats :=
  {| client_to_upstream := Z.of_nat (length to_upstream); upstream_to_client := Z.of_nat (length to_client) |}.

Lemma relay_returned_ok c0 u0 es r :
  let s := relay_bidirectional c0 u0 es in main s = Returned (Ok r) ->
  no_failure (pending c0) /\ no_failure (pending u0) /\
  output (upstream s) = output u0 ++ bytes_of (pending c0) /\ output (client s) = output c0 ++ bytes_of (pending u0) /\
  client_shut s = true /\ upstream_shut s = true /\ r = relay_stats (bytes_of (pending c0)) (bytes_of (pending u0)).
Proof.
  intros s Hm. destruct (relay_runs_ok c0 u0 es) as [Ho Hb Hf]. fold s in Ho, Hb, Hf. rewrite Hm in Hb, Hf. rewrite Hf in Ho.
  destruct r as [m n]. cbn [default client_to_upstream back_copier] in *.
  destruct Ho as (t1 & w1 & P1 & O1 & F1 & <- & -> & E1 & S1). destruct Hb as (t2 & w2 & P2 & O2 & F2 & <- & -> & E2 & S2).
  rewrite E1, app_nil_r in P1. rewrite E2, app_nil_r in P2. rewrite P1, P2. by split_and!.
Qed.

(** A client that presents its request and then sends five more bytes. *)
Definition demo_tunnel_client : stream := clean (input demo_client ++ (RByte <$> lit "ping")) [] 100.

Definition demo_upstream : stream := clean ((RByte <$> lit "po") ++ [RInterrupted] ++ (RByte <$> lit "ng!")) [] 100.

Definition smooth (k : nat) : relay_env := {| answer := Ok tt; chunk := k |}.

Definition demo_rounds : list relay_event := concat (relay_round <$> repeat (smooth 2, smooth 1) 40).

(** ** Properties *)





(** When the copy back fails, the caller returns with the error and leaves the other
    thread behind: here it goes on delivering the client's bytes to the upstream
    after the session has returned. *)
Theorem relay_outlives_its_caller :
  exists es es', let s := relay_bidirectional (clean (RByte <$> lit "late") [] 100) (clean [RFail 104] [] 100) es in
    main s = Returned (Err (ReadError 104)) /\ output (upstream s) = [] /\
    output (upstream (run relay_step s es')) = lit "late".
Proof.
  exists (MainEvent <$> repeat (smooth 0) 4), (WorkerEvent <$> repeat (smooth 9) 3). vm_compute. split_and!; reflexivity.
Qed.
