(* ===== verification/Proto.v ===== *)
(** * The protobuf subset of the credential records

    Models [src/crates/credentials/src/proto.rs]: varints, tagged fields and the
    bounds-checked reader.  [fields_loop] is the [while !reader.exhausted()] loop
    of every decoder; each turn reads a tag, so as many turns as the input has
    bytes are enough. *)

From S2P Require Import Prelude.

Definition WIRE_VARINT : Z := 0.
Definition WIRE_FIXED64 : Z := 1.
Definition WIRE_LENGTH_DELIMITED : Z := 2.
Definition WIRE_FIXED32 : Z := 5.

(** ** Writing *)

(** The loop of [write_varint]; a [u64] takes at most nine turns. *)
Fixpoint write_varint_loop (fuel : nat) (remaining : Z) : list Z :=
  match fuel with
  | O => [remaining]
  | S fuel =>
      if 128 <=? remaining
      then Z.lor (Z.land remaining 127) 128 :: write_varint_loop fuel (Z.shiftr remaining 7)
      else [remaining]
  end.

Definition write_varint (value : Z) : list Z := write_varint_loop 9 value.

Definition field_tag (field_number wire_type : Z) : Z := Z.lor (Z.shiftl field_number 3) wire_type.

Definition write_varint_field (field_number value : Z) : list Z :=
  write_varint (field_tag field_number WIRE_VARINT) ++ write_varint value.

Definition write_bytes_field (field_number : Z) (value : list Z) : list Z :=
  write_varint (field_tag field_number WIRE_LENGTH_DELIMITED)
  ++ write_varint (Z.of_nat (length value)) ++ value.

(** ** Reading *)

Inductive ProtoError := MalformedProto.

Record ProtoTag := { field_number : Z; wire_type : Z }.
Record ProtoReader := { input : list Z; offset : Z }.

Definition reader_new (i : list Z) : ProtoReader := {| input := i; offset := 0 |}.

Definition exhausted (r : ProtoReader) : bool := offset r =? Z.of_nat (length (input r)).

Definition at_offset (r : ProtoReader) (o : Z) : ProtoReader := {| input := input r; offset := o |}.

(** [<<] on a [u64]. *)
Definition shl64 (x n : Z) : Z := Z.land (Z.shiftl x n) u64_max.

Fixpoint read_varint_from (n index : nat) (acc : Z) (r : ProtoReader) : result ProtoError (Z * ProtoReader) :=
  match n with
  | O => Err MalformedProto
  | S n =>
      let? byte := ok_or (input r !! Z.to_nat (offset r)) MalformedProto in
      let r := at_offset r (offset r + 1) in
      if (index =? 9)%nat && negb (Z.land byte 254 =? 0) then Err MalformedProto
      else
        let acc := Z.lor acc (shl64 (Z.land byte 127) (Z.of_nat index * 7)) in
        if Z.land byte 128 =? 0 then Ok (acc, r) else read_varint_from n (S index) acc r
  end.

Definition read_varint (r : ProtoReader) : result ProtoError (Z * ProtoReader) := read_varint_from 10 0 0 r.

Definition read_tag (r : ProtoReader) : result ProtoError (ProtoTag * ProtoReader) :=
  let? (raw, r) := read_varint r in
  if (raw =? 0) || (u32_max <? raw) then Err MalformedProto
  else
    let field_number := Z.shiftr raw 3 in
    let wire_type := Z.land raw 7 in
    if field_number =? 0 then Err MalformedProto
    else Ok ({| field_number := field_number; wire_type := wire_type |}, r).

(** [usize::try_from] of a [u64]. *)
Definition to_usize (v : Z) : result ProtoError Z := if v <=? usize_max then Ok v else Err MalformedProto.

Definition read_bytes (r : ProtoReader) : result ProtoError (list Z * ProtoReader) :=
  let? (v, r) := read_varint r in
  let? length' := to_usize v in
  let? end' := ok_or (checked_add usize_max (offset r) length') MalformedProto in
  if end' <=? Z.of_nat (length (input r))
  then Ok (take (Z.to_nat length') (drop (Z.to_nat (offset r)) (input r)), at_offset r end')
  else Err MalformedProto.

Definition advance (r : ProtoReader) (count : Z) : result ProtoError ProtoReader :=
  let? end' := ok_or (checked_add usize_max (offset r) count) MalformedProto in
  if Z.of_nat (length (input r)) <? end' then Err MalformedProto else Ok (at_offset r end').

Definition skip (r : ProtoReader) (wire_type : Z) : result ProtoError ProtoReader :=
  if wire_type =? WIRE_VARINT then let? (_, r) := read_varint r in Ok r
  else if wire_type =? WIRE_FIXED64 then advance r 8
  else if wire_type =? WIRE_LENGTH_DELIMITED then
    let? (v, r) := read_varint r in
    let? length' := to_usize v in
    advance r length'
  else if wire_type =? WIRE_FIXED32 then advance r 4
  else Err MalformedProto.

(** The loop of a decoder: [field st tag r] handles one field. *)
Section fields.
Context {St E : Type} (malformed : E)
  (field : St -> ProtoTag -> ProtoReader -> result E (St * ProtoReader)).

Fixpoint fields_loop (fuel : nat) (st : St) (r : ProtoReader) : option (result E St) :=
  if exhausted r then Some (Ok st)
  else
    match fuel with
    | O => None
    | S fuel =>
        match map_err (fun _ => malformed) (read_tag r) with
        | Err e => Some (Err e)
        | Ok (tag, r) =>
            match field st tag r with
            | Err e => Some (Err e)
            | Ok (st, r) => fields_loop fuel st r
            end
        end
    end.

Definition decode_fields (st : St) (i : list Z) : result E St :=
  default (Err malformed) (fields_loop (length i) st (reader_new i)).
End fields.

(** ** The reader stays inside its input *)

Definition reader_ok (r : ProtoReader) : Prop := 0 <= offset r <= Z.of_nat (length (input r)).

(** [r'] is further in the same input. *)
Definition further (r r' : ProtoReader) : Prop :=
  input r' = input r /\ offset r < offset r' <= Z.of_nat (length (input r)).

Lemma read_varint_from_further n index acc r v r' :
  reader_ok r -> read_varint_from n index acc r = Ok (v, r') -> further r r'.
Proof.
  unfold reader_ok, further. revert index acc r. induction n as [|n IH]; intros index acc r Hr H; [done|]. simpl in H.
  destruct (input r !! Z.to_nat (offset r)) as [b|] eqn:Hb; [|done]. simpl in H.
  apply lookup_lt_Some in Hb. destruct (_ && _); [done|]. destruct (Z.land b 128 =? 0).
  - injection H as <- <-. simpl. split; [done|]. lia.
  - apply IH in H as [Hi Ho]; simpl in *; [|lia]. split; [done|lia].
Qed.

Lemma read_tag_further r t r' : reader_ok r -> read_tag r = Ok (t, r') -> further r r'.
Proof.
  intros Hr H. unfold read_tag in H. destruct (read_varint r) as [[raw r1]|] eqn:Hv; [|done]. simpl in H.
  destruct (_ || _); [done|]. destruct (_ =? 0); [done|]. injection H as <- <-.
  by eapply read_varint_from_further.
Qed.

Lemma advance_spec r n r' :
  reader_ok r -> 0 <= n -> advance r n = Ok r' -> input r' = input r /\ offset r <= offset r' <= Z.of_nat (length (input r)).
Proof.
  intros Hr Hn H. unfold advance in H.
  destruct (checked_add usize_max (offset r) n) as [e|] eqn:He; [|done]. simpl in H.
  apply checked_add_Some in He as [-> _]. destruct (Z.ltb_spec (Z.of_nat (length (input r))) (offset r + n)); [done|].
  injection H as <-. unfold reader_ok in Hr. simpl. split; [done|lia].
Qed.

(** [r'] is at or after [r] in the same input. *)
Definition onward (r r' : ProtoReader) : Prop :=
  input r' = input r /\ offset r <= offset r' <= Z.of_nat (length (input r)).

Lemma further_onward r r' : further r r' -> onward r r'.
Proof. intros [? ?]. split; [done|lia]. Qed.

Lemma onward_ok r r' : reader_ok r -> onward r r' -> reader_ok r'.
Proof. unfold reader_ok. intros Hr [Hi Ho]. rewrite Hi. lia. Qed.

Lemma further_ok r r' : reader_ok r -> further r r' -> reader_ok r'.
Proof. intros Hr Hf. by apply (onward_ok r), further_onward. Qed.

Lemma onward_trans r1 r2 r3 : onward r1 r2 -> onward r2 r3 -> onward r1 r3.
Proof. intros [H1 H2] [H3 H4]. rewrite H1 in *. split; [done|lia]. Qed.

Lemma lor_nonneg a b : 0 <= a -> 0 <= b -> 0 <= Z.lor a b.
Proof. intros. by apply Z.lor_nonneg. Qed.

Lemma read_varint_from_nonneg n index acc r v r' :
  0 <= acc -> read_varint_from n index acc r = Ok (v, r') -> 0 <= v.
Proof.
  revert index acc r. induction n as [|n IH]; intros index acc r Ha H; [done|]. simpl in H.
  destruct (input r !! Z.to_nat (offset r)) as [b|]; [|done]. simpl in H. destruct (_ && _); [done|].
  assert (0 <= Z.lor acc (shl64 (Z.land b 127) (Z.of_nat index * 7))).
  { apply lor_nonneg; [done|]. apply Z.land_nonneg. right. unfold u64_max. lia. }
  destruct (Z.land b 128 =? 0); [by simplify_eq|]. by eapply IH.
Qed.

Lemma read_varint_onward r v r' : reader_ok r -> read_varint r = Ok (v, r') -> onward r r' /\ 0 <= v.
Proof.
  intros Hr H. split; [by eapply further_onward, read_varint_from_further|]. by eapply read_varint_from_nonneg.
Qed.

Lemma read_bytes_onward r bs r' : reader_ok r -> read_bytes r = Ok (bs, r') -> onward r r'.
Proof.
  intros Hr H. unfold read_bytes in H. destruct (read_varint r) as [[v r1]|] eqn:Hv; [|done]. simpl in H.
  apply read_varint_onward in Hv as [Hr1 Hv0]; [|done].
  unfold to_usize in H. destruct (v <=? usize_max); [|done]. simpl in H.
  destruct (checked_add usize_max (offset r1) v) as [e|] eqn:He; [|done]. simpl in H.
  apply checked_add_Some in He as [-> _]. destruct (Z.leb_spec (offset r1 + v) (Z.of_nat (length (input r1)))); [|done].
  injection H as <- <-. apply (onward_trans _ r1); [done|]. split; [done|]. simpl. lia.
Qed.

Lemma skip_onward r w r' : reader_ok r -> skip r w = Ok r' -> onward r r'.
Proof.
  intros Hr H. unfold skip in H.
  destruct (w =? WIRE_VARINT).
  { destruct (read_varint r) as [[v r1]|] eqn:Hv; simplify_eq/=. by apply read_varint_onward in Hv as [? _]. }
  destruct (w =? WIRE_FIXED64); [by apply advance_spec in H|].
  destruct (w =? WIRE_LENGTH_DELIMITED).
  - destruct (read_varint r) as [[v r1]|] eqn:Hv; [|done]. simpl in H.
    apply read_varint_onward in Hv as [Hr1 Hv0]; [|done].
    unfold to_usize in H. destruct (v <=? usize_max); [|done]. simpl in H.
    apply (onward_trans _ r1); [done|]. apply advance_spec in H; [done| |done]. by eapply onward_ok.
  - destruct (w =? WIRE_FIXED32); [by apply advance_spec in H|done].
Qed.

Lemma exhausted_false r : reader_ok r -> exhausted r = false -> offset r < Z.of_nat (length (input r)).
Proof. unfold exhausted, reader_ok. intros ? H. rust_bool. lia. Qed.

(** ** Termination of the decoders *)

Section total.
Context {St E : Type} (malformed : E)
  (field : St -> ProtoTag -> ProtoReader -> result E (St * ProtoReader)).
Context (field_onward : forall st t r st' r', reader_ok r -> field st t r = Ok (st', r') -> onward r r').

Lemma fields_loop_total fuel st r :
  reader_ok r -> Z.of_nat (length (input r)) - offset r <= Z.of_nat fuel ->
  is_Some (fields_loop malformed field fuel st r).
Proof.
  revert st r. induction fuel as [|fuel IH]; intros st r Hr Hf; simpl.
  - destruct (exhausted r) eqn:He; [done|]. apply exhausted_false in He; [lia|done].
  - destruct (exhausted r) eqn:He; [done|]. destruct (read_tag r) as [[t r1]|] eqn:Ht; [|done]. simpl.
    apply read_tag_further in Ht; [|done]. pose proof (further_ok _ _ Hr Ht) as Hr1.
    destruct (field st t r1) as [[st' r2]|] eqn:Hfd; [|done].
    apply field_onward in Hfd; [|done]. apply IH; [by eapply onward_ok|].
    destruct Ht as [Hi1 Ho1], Hfd as [Hi2 Ho2]. rewrite Hi2, Hi1. lia.
Qed.

Lemma decode_fields_loop st i :
  fields_loop malformed field (length i) st (reader_new i) = Some (decode_fields malformed field st i).
Proof.
  unfold decode_fields. destruct (fields_loop_total (length i) st (reader_new i)) as [x ->]; [| |done].
  - unfold reader_ok. simpl. lia.
  - simpl. lia.
Qed.
End total.

(** ** Reading what was written *)

Definition rest (r : ProtoReader) : list Z := drop (Z.to_nat (offset r)) (input r).

(** Reading the bytes [bs] from [r] leads to [r']. *)
Definition passes (r : ProtoReader) (bs : list Z) (r' : ProtoReader) : Prop :=
  reader_ok r' /\ input r' = input r /\ rest r = bs ++ rest r' /\ offset r' = offset r + Z.of_nat (length bs).

Lemma passes_trans r1 a r2 b r3 : passes r1 a r2 -> passes r2 b r3 -> passes r1 (a ++ b) r3.
Proof.
  intros (O2 & I2 & R2 & F2) (O3 & I3 & R3 & F3). split_and!; [done|congruence| |].
  - by rewrite R2, R3, app_assoc.
  - rewrite F3, F2, length_app. lia.
Qed.

Lemma passes_at r bs more :
  reader_ok r -> rest r = bs ++ more ->
  passes r bs (at_offset r (offset r + Z.of_nat (length bs))) /\
  rest (at_offset r (offset r + Z.of_nat (length bs))) = more.
Proof.
  intros Hr H. unfold passes, rest, reader_ok in *. simpl.
  assert (length (drop (Z.to_nat (offset r)) (input r)) = length bs + length more)%nat as Hl
    by (by rewrite H, length_app).
  rewrite length_drop in Hl.
  assert (drop (Z.to_nat (offset r + Z.of_nat (length bs))) (input r) = more) as Hm.
  { replace (Z.to_nat (offset r + Z.of_nat (length bs))) with (Z.to_nat (offset r) + length bs)%nat by lia.
    by rewrite <- drop_drop, H, drop_app_length. }
  rewrite Hm. split_and!; done || lia.
Qed.

Lemma lookup_rest r b more : rest r = b :: more -> input r !! Z.to_nat (offset r) = Some b.
Proof. unfold rest. intros H. rewrite <- (Nat.add_0_r (Z.to_nat (offset r))), <- lookup_drop, H. done. Qed.

Lemma low_bit_only b : 0 <= b <= 1 -> Z.land b 254 = 0.
Proof. intros. assert (b = 0 \/ b = 1) as [-> | ->] by lia; reflexivity. Qed.

Lemma shl64_small x n : 0 <= n -> 0 <= x * 2 ^ n <= u64_max -> shl64 x n = x * 2 ^ n.
Proof.
  intros Hn Hx. unfold shl64. rewrite Z.shiftl_mul_pow2 by done. change u64_max with (2 ^ 64 - 1).
  rewrite land_mod by lia. apply Z.mod_small. change (2 ^ 64) with (Z.succ u64_max). by rewrite Z.lt_succ_r.
Qed.

Lemma lor_add_high acc x n : 0 <= n -> 0 <= acc < 2 ^ n -> Z.lor acc (x * 2 ^ n) = acc + x * 2 ^ n.
Proof. intros. rewrite Z.lor_comm, Z.add_comm. rewrite <- (Z.shiftl_mul_pow2 x n) at 1 by done. by apply lor_shift_add. Qed.

(** One more byte of a varint. *)
Lemma varint_continue v : 128 <= v ->
  Z.lor (Z.land v 127) 128 = 128 + v mod 128 /\ Z.land (128 + v mod 128) 127 = v mod 128 /\ is_u8 (128 + v mod 128).
Proof.
  intros Hv. pose proof (Z.mod_pos_bound v 128 ltac:(lia)). split_and!.
  - change 127 with (2 ^ 7 - 1). rewrite land_mod by lia. rewrite Z.lor_comm. change 128 with (Z.shiftl 1 7) at 1.
    change (2 ^ 7) with 128 in *. rewrite lor_shift_add by done. change (2 ^ 7) with 128. lia.
  - change 127 with (2 ^ 7 - 1). rewrite land_mod by lia. change (2 ^ 7) with 128.
    replace (128 + v mod 128) with (v mod 128 + 1 * 128) by lia. rewrite Z.mod_add by lia. by apply Z.mod_small.
  - unfold in_width, u8_max. lia.
Qed.

Lemma read_varint_last n index acc v r more :
  0 <= acc < 2 ^ (Z.of_nat index * 7) -> 0 <= v < 128 -> (index = 9%nat -> v <= 1) ->
  v * 2 ^ (Z.of_nat index * 7) <= u64_max -> reader_ok r -> rest r = [v] ++ more ->
  exists r', read_varint_from (S n) index acc r = Ok (acc + v * 2 ^ (Z.of_nat index * 7), r') /\
  passes r [v] r' /\ rest r' = more.
Proof.
  intros Ha Hv Hi Hb Hr Hrest. destruct (passes_at r [v] more Hr Hrest) as [Hp Hm].
  cbn [read_varint_from]. rewrite (lookup_rest _ _ _ Hrest). cbn [ok_or result_bind].
  assert ((index =? 9)%nat && negb (Z.land v 254 =? 0) = false) as ->.
  { destruct (Nat.eqb_spec index 9) as [E|_]; [|done]. by rewrite low_bit_only by (specialize (Hi E); lia). }
  rewrite high_bit by (unfold in_width, u8_max; lia). rewrite (proj2 (Z.ltb_lt v 128)) by lia.
  change 127 with (2 ^ 7 - 1). rewrite land_mod by lia. rewrite Z.mod_small by (change (2 ^ 7) with 128; lia).
  assert (0 < 2 ^ (Z.of_nat index * 7)) by (apply Z.pow_pos_nonneg; lia).
  rewrite shl64_small, lor_add_high by (lia || nia). eexists. done.
Qed.

Lemma read_varint_more n index acc v r more :
  (index < 9)%nat -> 0 <= acc < 2 ^ (Z.of_nat index * 7) -> 128 <= v ->
  acc + v * 2 ^ (Z.of_nat index * 7) <= u64_max -> reader_ok r -> rest r = (128 + v mod 128) :: more ->
  exists r1, read_varint_from (S n) index acc r =
    read_varint_from n (S index) (acc + v mod 128 * 2 ^ (Z.of_nat index * 7)) r1 /\
  passes r [128 + v mod 128] r1 /\ rest r1 = more.
Proof.
  intros Hi Ha Hv Hb Hr Hrest. destruct (varint_continue v Hv) as (_ & E2 & E3).
  destruct (passes_at r [128 + v mod 128] more Hr Hrest) as [Hp Hm].
  cbn [read_varint_from]. rewrite (lookup_rest _ _ _ Hrest). cbn [ok_or result_bind].
  rewrite (proj2 (Nat.eqb_neq index 9)) by lia. cbn [andb]. rewrite E2, high_bit by done.
  pose proof (Z.mod_pos_bound v 128 ltac:(lia)). rewrite (proj2 (Z.ltb_ge _ 128)) by lia.
  pose proof (Z.mod_le v 128 ltac:(lia) ltac:(lia)).
  assert (0 < 2 ^ (Z.of_nat index * 7)) by (apply Z.pow_pos_nonneg; lia).
  rewrite shl64_small, lor_add_high by (lia || nia). eexists. done.
Qed.

Lemma read_varint_from_written fuel index acc v r more :
  (fuel + index = 9)%nat -> 0 <= acc < 2 ^ (Z.of_nat index * 7) -> 0 <= v ->
  acc + v * 2 ^ (Z.of_nat index * 7) <= u64_max ->
  reader_ok r -> rest r = write_varint_loop fuel v ++ more ->
  exists r', read_varint_from (S fuel) index acc r = Ok (acc + v * 2 ^ (Z.of_nat index * 7), r') /\
  passes r (write_varint_loop fuel v) r' /\ rest r' = more.
Proof.
  revert index acc v r. induction fuel as [|fuel IH]; intros index acc v r Hi Ha Hv Hb Hr Hrest.
  - assert (index = 9%nat) as -> by lia. cbn [write_varint_loop app] in Hrest.
    change (2 ^ (Z.of_nat 9 * 7)) with 9223372036854775808 in *. unfold u64_max in Hb.
    apply (read_varint_last 0 9 acc v r more); unfold u64_max;
      change (2 ^ (Z.of_nat 9 * 7)) with 9223372036854775808; done || lia.
  - assert (0 < 2 ^ (Z.of_nat index * 7)) as Hpos by (apply Z.pow_pos_nonneg; lia).
    cbn [write_varint_loop] in *. destruct (Z.leb_spec 128 v) as [Hge|Hlt].
    2: { apply (read_varint_last (S fuel)); done || lia. }
    destruct (varint_continue v Hge) as (E1 & _ & _). rewrite E1, Z.shiftr_div_pow2 in * by lia.
    change (2 ^ 7) with 128 in *.
    destruct (read_varint_more (S fuel) index acc v r _ ltac:(lia) Ha Hge Hb Hr Hrest) as (r1 & -> & Hp & Hm).
    pose proof (Z.div_mod v 128 ltac:(lia)) as Hdm. pose proof (Z.mod_pos_bound v 128 ltac:(lia)).
    assert (2 ^ (Z.of_nat (S index) * 7) = 128 * 2 ^ (Z.of_nat index * 7)) as Hpow.
    { replace (Z.of_nat (S index) * 7) with (7 + Z.of_nat index * 7) by lia. by rewrite Z.pow_add_r by lia. }
    destruct (IH (S index) (acc + v mod 128 * 2 ^ (Z.of_nat index * 7)) (v / 128) r1) as (r' & -> & Hp' & Hm');
      [lia|rewrite Hpow; nia|apply Z.div_pos; lia|rewrite Hpow; nia|apply Hp|done|].
    exists r'. split_and!; [|by apply (passes_trans _ [_] _ _ _ Hp)|done].
    f_equal. f_equal. rewrite Hpow. nia.
Qed.

(** The round trip of [u64] values. *)
Lemma read_varint_written v r more :
  is_u64 v -> reader_ok r -> rest r = write_varint v ++ more ->
  exists r', read_varint r = Ok (v, r') /\ passes r (write_varint v) r' /\ rest r' = more.
Proof.
  intros [H0 H1] Hr Hrest. destruct (read_varint_from_written 9 0 0 v r more) as (r' & Hok & Hp);
    [done|done|done|change (2 ^ (Z.of_nat 0 * 7)) with 1; lia|done|done|].
  exists r'. unfold read_varint. rewrite Hok. change (2 ^ (Z.of_nat 0 * 7)) with 1. by rewrite Z.mul_1_r.
Qed.

(** ** Messages as lists of fields *)

Inductive wire_value := VVarint (v : Z) | VBytes (bs : list Z).

Definition write_field (f : Z * wire_value) : list Z :=
  match f with
  | (n, VVarint v) => write_varint_field n v
  | (n, VBytes bs) => write_bytes_field n bs
  end.

Definition write_fields (fs : list (Z * wire_value)) : list Z := concat (write_field <$> fs).

Definition value_ok (v : wire_value) : Prop :=
  match v with VVarint v => is_u64 v | VBytes bs => Z.of_nat (length bs) <= u64_max end.

(** Field numbers whose tags are one byte; the records use no others. *)
Definition field_ok (f : Z * wire_value) : Prop := 1 <= f.1 <= 15 /\ value_ok f.2.

Definition wire_type_of (v : wire_value) : Z :=
  match v with VVarint _ => WIRE_VARINT | VBytes _ => WIRE_LENGTH_DELIMITED end.

(** Reading the value of a field whose tag has been read. *)
Definition reads_value (v : wire_value) (r r' : ProtoReader) : Prop :=
  match v with
  | VVarint v => read_varint r = Ok (v, r')
  | VBytes bs => read_bytes r = Ok (bs, r') /\ skip r WIRE_LENGTH_DELIMITED = Ok r'
  end.

Lemma small_tag n w : 1 <= n <= 15 -> 0 <= w <= 7 ->
  field_tag n w = n * 8 + w /\ Z.shiftr (n * 8 + w) 3 = n /\ Z.land (n * 8 + w) 7 = w.
Proof.
  intros Hn Hw. unfold field_tag. rewrite lor_shift_add by (change (2 ^ 3) with 8; lia). change (2 ^ 3) with 8.
  split_and!; [done| |].
  - rewrite Z.shiftr_div_pow2 by lia. change (2 ^ 3) with 8. rewrite Z.div_add_l by lia. rewrite Z.div_small; lia.
  - change 7 with (2 ^ 3 - 1). rewrite land_mod by lia. change (2 ^ 3) with 8.
    rewrite Z.add_comm, Z.mod_add by lia. apply Z.mod_small. lia.
Qed.

Lemma read_tag_written n w r more :
  1 <= n <= 15 -> 0 <= w <= 7 -> reader_ok r -> rest r = write_varint (field_tag n w) ++ more ->
  exists r', read_tag r = Ok ({| field_number := n; wire_type := w |}, r') /\
  passes r (write_varint (field_tag n w)) r' /\ rest r' = more.
Proof.
  intros Hn Hw Hr Hrest. destruct (small_tag n w Hn Hw) as (Et & Ef & Ew).
  destruct (read_varint_written (field_tag n w) r more) as (r' & Hv & Hp);
    [rewrite Et; unfold in_width, u64_max; lia|done|done|].
  exists r'. split; [|done]. unfold read_tag. rewrite Hv. cbn [result_bind]. rewrite Et.
  rewrite (proj2 (Z.eqb_neq _ 0)), (proj2 (Z.ltb_ge _ _)) by (unfold u32_max; lia). cbn [orb]. rewrite Ef, Ew.
  by rewrite (proj2 (Z.eqb_neq n 0)) by lia.
Qed.

Lemma read_bytes_written bs r more :
  Z.of_nat (length (input r)) <= usize_max -> reader_ok r ->
  rest r = (write_varint (Z.of_nat (length bs)) ++ bs) ++ more ->
  exists r', reads_value (VBytes bs) r r' /\
  passes r (write_varint (Z.of_nat (length bs)) ++ bs) r' /\ rest r' = more.
Proof.
  intros Hlen Hr Hrest. rewrite <- app_assoc in Hrest.
  assert (Z.of_nat (length bs) <= Z.of_nat (length (input r))) as Hb.
  { apply (f_equal length) in Hrest. unfold rest in Hrest. rewrite length_drop, !length_app in Hrest. lia. }
  destruct (read_varint_written (Z.of_nat (length bs)) r (bs ++ more)) as (r1 & Hv & Hp1 & Hr1);
    [unfold in_width, usize_max in *; lia|done|done|].
  destruct (passes_at r1 bs more) as [Hp2 Hr2]; [apply Hp1|done|].
  pose proof Hp1 as (Hok1 & Hi1 & _). pose proof Hp2 as (Hok2 & _). unfold reader_ok in Hok2. simpl in Hok2.
  eexists. split; [|split; [by eapply passes_trans|done]].
  simpl. unfold read_bytes, skip. change (WIRE_LENGTH_DELIMITED =? WIRE_VARINT) with false.
  change (WIRE_LENGTH_DELIMITED =? WIRE_FIXED64) with false. rewrite Z.eqb_refl, Hv. cbn [result_bind].
  unfold to_usize, advance. rewrite (proj2 (Z.leb_le (Z.of_nat (length bs)) usize_max)) by lia. cbn [result_bind].
  unfold checked_add. rewrite (proj2 (Z.leb_le _ usize_max)) by (rewrite Hi1 in Hok2; lia). cbn [ok_or result_bind].
  rewrite (proj2 (Z.leb_le _ (Z.of_nat (length (input r1))))) by lia.
  rewrite (proj2 (Z.ltb_ge (Z.of_nat (length (input r1))) _)) by lia.
  split; [|done]. f_equal. f_equal. unfold rest in Hr1. rewrite Hr1, Nat2Z.id. apply take_app_length.
Qed.

Lemma read_field_written n v r more :
  field_ok (n, v) -> Z.of_nat (length (input r)) <= usize_max -> reader_ok r -> rest r = write_field (n, v) ++ more ->
  exists r1 r2, read_tag r = Ok ({| field_number := n; wire_type := wire_type_of v |}, r1) /\
  reads_value v r1 r2 /\ passes r (write_field (n, v)) r2 /\ rest r2 = more.
Proof.
  intros [Hn Hv] Hl Hr Hrest. simpl in Hn.
  assert (0 <= wire_type_of v <= 7) as Hw by (by destruct v).
  destruct v as [v|bs]; simpl write_field in *; simpl wire_type_of in *; unfold write_varint_field, write_bytes_field in *;
    rewrite <- app_assoc in Hrest;
    destruct (read_tag_written n _ r _ Hn Hw Hr Hrest) as (r1 & Ht & Hp1 & Hr1);
    pose proof Hp1 as (Hok1 & Hi1 & _); exists r1.
  - destruct (read_varint_written v r1 more Hv Hok1 Hr1) as (r2 & H2 & Hp2 & Hr2).
    exists r2. split_and!; [done|done|by eapply passes_trans|done].
  - destruct (read_bytes_written bs r1 more) as (r2 & H2 & Hp2 & Hr2); [by rewrite Hi1|done|done|].
    exists r2. split_and!; [done|done|by eapply passes_trans|done].
Qed.

Lemma write_varint_loop_length fuel v : (1 <= length (write_varint_loop fuel v) <= S fuel)%nat.
Proof.
  revert v. induction fuel as [|fuel IH]; intros v; simpl; [lia|].
  destruct (128 <=? v); simpl; [|lia]. specialize (IH (Z.shiftr v 7)). lia.
Qed.

Lemma write_varint_length v : (1 <= length (write_varint v) <= 10)%nat.
Proof. apply write_varint_loop_length. Qed.

Lemma write_field_length f : (1 <= length (write_field f))%nat.
Proof.
  destruct f as [n [v|bs]]; unfold write_field, write_varint_field, write_bytes_field; rewrite !length_app;
    [pose proof (write_varint_length (field_tag n WIRE_VARINT))
    |pose proof (write_varint_length (field_tag n WIRE_LENGTH_DELIMITED))]; lia.
Qed.

(** A decoder that handles each field by [step] folds [step] over the fields
    that were written. *)
Section decode.
Context {St E : Type} (malformed : E)
  (field : St -> ProtoTag -> ProtoReader -> result E (St * ProtoReader))
  (step : St -> Z * wire_value -> result E St).
Context (field_step : forall st n v r r', reads_value v r r' ->
  field st {| field_number := n; wire_type := wire_type_of v |} r = let? st' := step st (n, v) in Ok (st', r')).

Fixpoint fold_fields (st : St) (fs : list (Z * wire_value)) : result E St :=
  match fs with
  | [] => Ok st
  | f :: fs => let? st := step st f in fold_fields st fs
  end.

Lemma fields_loop_written fuel st fs r :
  Forall field_ok fs -> Z.of_nat (length (input r)) <= usize_max -> reader_ok r -> rest r = write_fields fs ->
  (length (write_fields fs) <= fuel)%nat ->
  fields_loop malformed field fuel st r = Some (fold_fields st fs).
Proof.
  intros Hfs. revert fuel st r. induction Hfs as [|[n v] fs Hf Hfs IH]; intros fuel st r Hl Hr Hrest Hfuel.
  - assert (exhausted r = true) as He.
    { unfold exhausted. apply Z.eqb_eq. apply (f_equal length) in Hrest. unfold rest in Hrest.
      rewrite length_drop in Hrest. simpl in Hrest. unfold reader_ok in Hr. lia. }
    destruct fuel; simpl; by rewrite He.
  - change (write_fields ((n, v) :: fs)) with (write_field (n, v) ++ write_fields fs) in *.
    pose proof (write_field_length (n, v)) as Hlen. rewrite length_app in Hfuel.
    destruct (read_field_written n v r _ Hf Hl Hr Hrest) as (r1 & r2 & Ht & Hv & (Hok & Hi & Hp & Ho) & Hr2).
    destruct fuel as [|fuel]; [lia|]. cbn [fields_loop].
    assert (exhausted r = false) as ->.
    { unfold exhausted, reader_ok in *. rewrite Hi in Hok. apply Z.eqb_neq. lia. }
    rewrite Ht. cbn [map_err]. rewrite (field_step st n v r1 r2 Hv). cbn [fold_fields].
    destruct (step st (n, v)) as [st'|e]; [|done]. cbn [result_bind]. apply IH; [by rewrite Hi|done|done|lia].
Qed.

Lemma decode_fields_written st fs :
  Forall field_ok fs -> Z.of_nat (length (write_fields fs)) <= usize_max ->
  decode_fields malformed field st (write_fields fs) = fold_fields st fs.
Proof.
  intros Hfs Hl. unfold decode_fields.
  rewrite (fields_loop_written _ st fs (reader_new (write_fields fs))); [done|done|done| |done|done].
  unfold reader_ok. simpl. lia.
Qed.
End decode.

(** ** Lengths *)

Lemma write_varint_field_length n v : (length (write_varint_field n v) <= 20)%nat.
Proof.
  unfold write_varint_field. rewrite length_app.
  pose proof (write_varint_length (field_tag n WIRE_VARINT)). pose proof (write_varint_length v). lia.
Qed.

Lemma write_bytes_field_length n bs : (length (write_bytes_field n bs) <= 20 + length bs)%nat.
Proof.
  unfold write_bytes_field. rewrite !length_app. pose proof (write_varint_length (field_tag n WIRE_LENGTH_DELIMITED)).
  pose proof (write_varint_length (Z.of_nat (length bs))). lia.
Qed.

(** ** Values that were read are [u64]s *)

Lemma u64_land x : 0 <= x -> (is_u64 x <-> Z.land x u64_max = x).
Proof.
  intros Hx. change u64_max with (2 ^ 64 - 1) at 2. rewrite land_mod by lia. unfold in_width.
  change (2 ^ 64) with (Z.succ u64_max). split.
  - intros H. apply Z.mod_small. lia.
  - intros <-. pose proof (Z.mod_pos_bound x (Z.succ u64_max) ltac:(unfold u64_max; lia)). lia.
Qed.

Lemma shl64_u64 x n : is_u64 (shl64 x n).
Proof.
  assert (0 <= shl64 x n) as H0 by (apply Z.land_nonneg; right; unfold u64_max; lia).
  apply u64_land; [done|]. unfold shl64. by rewrite <- Z.land_assoc, Z.land_diag.
Qed.

Lemma lor_u64 a b : is_u64 a -> is_u64 b -> is_u64 (Z.lor a b).
Proof.
  intros Ha Hb. pose proof Ha as [? _]. pose proof Hb as [? _]. apply u64_land; [by apply lor_nonneg|].
  by rewrite Z.land_lor_distr_l, (proj1 (u64_land a ltac:(done)) Ha), (proj1 (u64_land b ltac:(done)) Hb).
Qed.

Lemma read_varint_from_u64 n index acc r v r' : is_u64 acc -> read_varint_from n index acc r = Ok (v, r') -> is_u64 v.
Proof.
  revert r index acc. induction n as [|n IH]; intros r index acc Ha H; [done|]. simpl in H.
  destruct (input r !! Z.to_nat (offset r)) as [b|]; [|done]. simpl in H. destruct (_ && _); [done|].
  pose proof (lor_u64 _ _ Ha (shl64_u64 (Z.land b 127) (Z.of_nat index * 7))).
  destruct (Z.land b 128 =? 0); [by simplify_eq|]. by eapply IH.
Qed.

Lemma read_varint_u64 r v r' : read_varint r = Ok (v, r') -> is_u64 v.
Proof. apply read_varint_from_u64. unfold in_width, u64_max. lia. Qed.

(** What every field establishes holds of what was decoded. *)
Lemma decode_fields_invariant {St E} (malformed : E) field (P : St -> Prop) st i st' :
  (forall st t r st' r', P st -> field st t r = Ok (st', r') -> P st') -> P st ->
  decode_fields malformed field st i = Ok st' -> P st'.
Proof.
  intros Hstep. unfold decode_fields. generalize (length i) as fuel, (reader_new i) as r.
  intros fuel. revert st. induction fuel as [|fuel IH]; intros st r HP H; simpl in H.
  - destruct (exhausted r); by simplify_eq/=.
  - destruct (exhausted r); [by simplify_eq/=|]. destruct (map_err _ (read_tag r)) as [[t r1]|]; [|done].
    destruct (field st t r1) as [[st1 r2]|] eqn:Hf; [|done]. eapply IH; [|done]. by eapply Hstep.
Qed.
