(* ===== verification/Credentials.v ===== *)
(** * The external proxy credential

    Models [src/crates/credentials/src/lib.rs], [persistence.rs] and
    [provisioning.rs]: the versioned credential, its durable state and migration,
    and the provisioning envelope.  The root key and the HMAC live in the
    platform adapter; the model receives the derived outputs as bytes, as the
    source does. *)

From Stdlib Require Import String.
From S2P Require Import Prelude Net RustStr Proto.

#[local] Arguments write_varint _ : simpl never.
#[local] Arguments utf8_valid _ : simpl never.
#[local] Arguments write_varint_field _ _ : simpl never.
#[local] Arguments write_bytes_field _ _ : simpl never.

Definition DERIVATION_OUTPUT_BYTES : nat := 32.
Definition INITIAL_VERSION : Z := 1.
Definition USERNAME_CONTEXT_DOMAIN : str := lit "mish/external-proxy/username/v1".
Definition PASSWORD_CONTEXT_DOMAIN : str := lit "mish/external-proxy/password/v1".
Definition HEX : str := lit "0123456789abcdef".

Inductive ExternalCredentialStatus := Active | Revoked.
Inductive ExternalCredentialPurpose := Username | Password.

Inductive ExternalCredentialError :=
| InvalidVersion | VersionExhausted | RevokedError | InvalidDerivationOutput
| MalformedState | NonCanonicalState | MixedPersistenceSchemas | IncompleteLegacyState
| InvalidLegacyVersion | MissingRootForState | RootWithoutState | InvalidProvisioningEnvelope.

#[export] Instance ExternalCredentialStatus_eq_dec : EqDecision ExternalCredentialStatus.
Proof. solve_decision. Defined.

Record ExternalCredentialState := { version : Z; status : ExternalCredentialStatus }.

Definition state_new (v : Z) (s : ExternalCredentialStatus)
    : result ExternalCredentialError ExternalCredentialState :=
  if v =? 0 then Err InvalidVersion else Ok {| version := v; status := s |}.

Definition initial : ExternalCredentialState := {| version := INITIAL_VERSION; status := Active |}.

Definition credential_id (s : ExternalCredentialState) : str := lit "external-proxy-v" ++ to_decimal (version s).

#[local] Arguments credential_id _ : simpl never.

Definition rotate (s : ExternalCredentialState) : result ExternalCredentialError ExternalCredentialState :=
  let? v := ok_or (checked_add u64_max (version s) 1) VersionExhausted in
  Ok {| version := v; status := Active |}.

Definition revoke (s : ExternalCredentialState) : ExternalCredentialState :=
  {| version := version s; status := Revoked |}.

Definition require_active (s : ExternalCredentialState) : result ExternalCredentialError unit :=
  match status s with Active => Ok tt | Revoked => Err RevokedError end.

Definition context_domain (p : ExternalCredentialPurpose) : str :=
  match p with Username => USERNAME_CONTEXT_DOMAIN | Password => PASSWORD_CONTEXT_DOMAIN end.

Definition derivation_context (s : ExternalCredentialState) (p : ExternalCredentialPurpose)
    : result ExternalCredentialError (list Z) :=
  let? _ := require_active s in
  Ok (context_domain p ++ be_bytes 8 (version s)).

Record ExternalCredentialMaterial := { username : str; password : str }.

Fixpoint encode_hex (bytes : list Z) : str :=
  match bytes with
  | [] => []
  | b :: bytes => nth (Z.to_nat (Z.shiftr b 4)) HEX 0 :: nth (Z.to_nat (Z.land b 15)) HEX 0 :: encode_hex bytes
  end.

Definition materialize (s : ExternalCredentialState) (username_mac password_mac : list Z)
    : result ExternalCredentialError ExternalCredentialMaterial :=
  let? _ := require_active s in
  if negb (length username_mac =? DERIVATION_OUTPUT_BYTES)%nat
     || negb (length password_mac =? DERIVATION_OUTPUT_BYTES)%nat
  then Err InvalidDerivationOutput
  else Ok {| username := lit "mish-" ++ encode_hex (take 16 username_mac); password := encode_hex password_mac |}.

(** ** Durable state *)

Inductive ExternalCredentialPersistenceAction := UseCurrent | PersistCanonical | CreateRootAndPersistCanonical.

Record ExternalCredentialPersistenceResolution := {
  state : ExternalCredentialState;
  canonical_state : list Z;
  action : ExternalCredentialPersistenceAction }.

Definition encode_state (s : ExternalCredentialState) : list Z :=
  write_varint_field 1 (version s)
  ++ (if status s =b? Revoked then write_varint_field 2 1 else []).

(** What the loop of [decode_state] has seen. *)
Record state_fields := { version_seen : option Z; revoked : bool; revoked_seen : bool }.

Definition malformed_state {A} (m : result ProtoError A) : result ExternalCredentialError A :=
  map_err (fun _ => MalformedState) m.

Definition state_field (st : state_fields) (tag : ProtoTag) (r : ProtoReader)
    : result ExternalCredentialError (state_fields * ProtoReader) :=
  if field_number tag =? 1 then
    if negb (wire_type tag =? WIRE_VARINT) || is_some (version_seen st) then Err MalformedState
    else
      let? (v, r) := malformed_state (read_varint r) in
      Ok ({| version_seen := Some v; revoked := revoked st; revoked_seen := revoked_seen st |}, r)
  else if field_number tag =? 2 then
    if negb (wire_type tag =? WIRE_VARINT) || revoked_seen st then Err MalformedState
    else
      let? (v, r) := malformed_state (read_varint r) in
      if v =? 0 then Ok ({| version_seen := version_seen st; revoked := false; revoked_seen := true |}, r)
      else if v =? 1 then Ok ({| version_seen := version_seen st; revoked := true; revoked_seen := true |}, r)
      else Err MalformedState
  else
    let? r := malformed_state (skip r (wire_type tag)) in
    Ok (st, r).

Definition status_of (revoked : bool) : ExternalCredentialStatus := if revoked then Revoked else Active.

Definition decode_state (encoded : list Z) : result ExternalCredentialError ExternalCredentialState :=
  let? st := decode_fields MalformedState state_field
    {| version_seen := None; revoked := false; revoked_seen := false |} encoded in
  let? v := ok_or (version_seen st) MalformedState in
  state_new v (status_of (revoked st)).

Definition resolve_persistence (canonical : option (list Z)) (legacy_version : option str)
    (legacy_revoked : option bool) (root_exists : bool)
    : result ExternalCredentialError ExternalCredentialPersistenceResolution :=
  match canonical with
  | Some encoded =>
      if is_some legacy_version || is_some legacy_revoked then Err MixedPersistenceSchemas
      else if negb root_exists then Err MissingRootForState
      else
        let? s := decode_state encoded in
        let c := encode_state s in
        if c <>b? encoded then Err NonCanonicalState
        else Ok {| state := s; canonical_state := c; action := UseCurrent |}
  | None =>
      if is_some legacy_version <>b? is_some legacy_revoked then Err IncompleteLegacyState
      else
        match legacy_version, legacy_revoked with
        | Some raw_version, Some revoked =>
            if negb root_exists then Err MissingRootForState
            else
              let? v := ok_or (parse_u64 raw_version) InvalidLegacyVersion in
              let? s := map_err (fun _ => InvalidLegacyVersion) (state_new v (status_of revoked)) in
              Ok {| state := s; canonical_state := encode_state s; action := PersistCanonical |}
        | _, _ =>
            if root_exists then Err RootWithoutState
            else Ok {| state := initial; canonical_state := encode_state initial;
                       action := CreateRootAndPersistCanonical |}
        end
  end.

(** ** Provisioning *)

Definition PROVISIONING_SCHEMA_VERSION : Z := 1.
Definition PROVISIONING_CHALLENGE_BYTES : nat := 32.

Record ExternalProxyProvisioningEnvelope := {
  credential_version : Z; envelope_id : str; challenge : list Z;
  envelope_username : str; envelope_password : str }.

Definition valid_lower_hex (value : str) (expected_len : nat) : bool :=
  (length value =? expected_len)%nat && forallb (fun b => is_ascii_digit b || between 97 102 b) value.

Definition valid_username (u : str) : bool :=
  is_some_and (strip_prefix (lit "mish-") u) (fun suffix => valid_lower_hex suffix 32).

Definition validate_material (s : ExternalCredentialState) (ch : list Z) (u p : str)
    : result ExternalCredentialError unit :=
  if (status s <>b? Active) || negb (length ch =? PROVISIONING_CHALLENGE_BYTES)%nat
     || negb (valid_username u) || negb (valid_lower_hex p 64)
  then Err InvalidProvisioningEnvelope
  else Ok tt.

Definition encode_provisioning_envelope (s : ExternalCredentialState) (ch : list Z) (u p : str)
    : result ExternalCredentialError (list Z) :=
  let? _ := validate_material s ch u p in
  Ok (write_varint_field 1 PROVISIONING_SCHEMA_VERSION
      ++ write_varint_field 2 (version s)
      ++ write_bytes_field 3 (credential_id s)
      ++ write_bytes_field 4 ch
      ++ write_bytes_field 5 u
      ++ write_bytes_field 6 p).

Definition bad_envelope {A} (m : result ProtoError A) : result ExternalCredentialError A :=
  map_err (fun _ => InvalidProvisioningEnvelope) m.

Definition read_utf8 (r : ProtoReader) : result ExternalCredentialError (str * ProtoReader) :=
  let? (bytes, r) := bad_envelope (read_bytes r) in
  if utf8_valid bytes then Ok (bytes, r) else Err InvalidProvisioningEnvelope.

(** What the loop of [decode_provisioning_envelope] has seen. *)
Record envelope_fields := {
  f_schema : option Z; f_version : option Z; f_id : option str;
  f_challenge : option (list Z); f_username : option str; f_password : option str }.

Definition no_envelope_fields : envelope_fields :=
  {| f_schema := None; f_version := None; f_id := None; f_challenge := None; f_username := None; f_password := None |}.

Definition envelope_field (st : envelope_fields) (tag : ProtoTag) (r : ProtoReader)
    : result ExternalCredentialError (envelope_fields * ProtoReader) :=
  let '{| f_schema := sc; f_version := ve; f_id := id; f_challenge := ch; f_username := us; f_password := pa |} := st in
  let n := field_number tag in
  let w := wire_type tag in
  if n =? 1 then
    if negb (w =? WIRE_VARINT) || is_some sc then Err InvalidProvisioningEnvelope
    else
      let? (v, r) := bad_envelope (read_varint r) in
      Ok ({| f_schema := Some v; f_version := ve; f_id := id; f_challenge := ch; f_username := us; f_password := pa |}, r)
  else if n =? 2 then
    if negb (w =? WIRE_VARINT) || is_some ve then Err InvalidProvisioningEnvelope
    else
      let? (v, r) := bad_envelope (read_varint r) in
      Ok ({| f_schema := sc; f_version := Some v; f_id := id; f_challenge := ch; f_username := us; f_password := pa |}, r)
  else if n =? 3 then
    if negb (w =? WIRE_LENGTH_DELIMITED) || is_some id then Err InvalidProvisioningEnvelope
    else
      let? (s, r) := read_utf8 r in
      Ok ({| f_schema := sc; f_version := ve; f_id := Some s; f_challenge := ch; f_username := us; f_password := pa |}, r)
  else if n =? 4 then
    if negb (w =? WIRE_LENGTH_DELIMITED) || is_some ch then Err InvalidProvisioningEnvelope
    else
      let? (s, r) := bad_envelope (read_bytes r) in
      Ok ({| f_schema := sc; f_version := ve; f_id := id; f_challenge := Some s; f_username := us; f_password := pa |}, r)
  else if n =? 5 then
    if negb (w =? WIRE_LENGTH_DELIMITED) || is_some us then Err InvalidProvisioningEnvelope
    else
      let? (s, r) := read_utf8 r in
      Ok ({| f_schema := sc; f_version := ve; f_id := id; f_challenge := ch; f_username := Some s; f_password := pa |}, r)
  else if n =? 6 then
    if negb (w =? WIRE_LENGTH_DELIMITED) || is_some pa then Err InvalidProvisioningEnvelope
    else
      let? (s, r) := read_utf8 r in
      Ok ({| f_schema := sc; f_version := ve; f_id := id; f_challenge := ch; f_username := us; f_password := Some s |}, r)
  else
    let? r := bad_envelope (skip r w) in
    Ok (st, r).

Definition decode_provisioning_envelope (encoded : list Z)
    : result ExternalCredentialError ExternalProxyProvisioningEnvelope :=
  let? st := decode_fields InvalidProvisioningEnvelope envelope_field no_envelope_fields encoded in
  if f_schema st <>b? Some PROVISIONING_SCHEMA_VERSION then Err InvalidProvisioningEnvelope
  else
    let? v := ok_or (f_version st) InvalidProvisioningEnvelope in
    let? s := map_err (fun _ => InvalidProvisioningEnvelope) (state_new v Active) in
    let? id := ok_or (f_id st) InvalidProvisioningEnvelope in
    let? ch := ok_or (f_challenge st) InvalidProvisioningEnvelope in
    let? u := ok_or (f_username st) InvalidProvisioningEnvelope in
    let? p := ok_or (f_password st) InvalidProvisioningEnvelope in
    if id <>b? credential_id s then Err InvalidProvisioningEnvelope
    else
      let? _ := validate_material s ch u p in
      Ok {| credential_version := v; envelope_id := id; challenge := ch; envelope_username := u; envelope_password := p |}.

(** ** The state codec *)

Definition state_ok (s : ExternalCredentialState) : Prop := 1 <= version s <= u64_max.

Definition state_wire (s : ExternalCredentialState) : list (Z * wire_value) :=
  (1, VVarint (version s)) :: (if status s =b? Revoked then [(2, VVarint 1)] else []).

Definition state_step (st : state_fields) (f : Z * wire_value) : result ExternalCredentialError state_fields :=
  match f with
  | (n, VVarint v) =>
      if n =? 1 then
        if is_some (version_seen st) then Err MalformedState
        else Ok {| version_seen := Some v; revoked := revoked st; revoked_seen := revoked_seen st |}
      else if n =? 2 then
        if revoked_seen st then Err MalformedState
        else if v =? 0 then Ok {| version_seen := version_seen st; revoked := false; revoked_seen := true |}
        else if v =? 1 then Ok {| version_seen := version_seen st; revoked := true; revoked_seen := true |}
        else Err MalformedState
      else Ok st
  | (n, VBytes _) => if (n =? 1) || (n =? 2) then Err MalformedState else Ok st
  end.

Lemma state_field_step st n v r r' :
  reads_value v r r' ->
  state_field st {| field_number := n; wire_type := wire_type_of v |} r = let? st' := state_step st (n, v) in Ok (st', r').
Proof.
  unfold state_field. cbn [field_number wire_type]. destruct v as [v|bs]; cbn [wire_type_of reads_value state_step].
  - intros Hv. unfold skip. rewrite Z.eqb_refl, Hv. cbn [negb orb].
    destruct (n =? 1); [by destruct (is_some _)|]. destruct (n =? 2); [|done].
    destruct (revoked_seen st); [done|]. simpl. by destruct (v =? 0), (v =? 1).
  - intros [_ Hs]. change (WIRE_LENGTH_DELIMITED =? WIRE_VARINT) with false. cbn [negb orb].
    destruct (n =? 1); [done|]. destruct (n =? 2); [done|]. by rewrite Hs.
Qed.

Lemma encode_state_wire s : encode_state s = write_fields (state_wire s).
Proof.
  unfold encode_state, state_wire, write_fields. destruct (status s =b? Revoked); simpl; by rewrite ?app_nil_r.
Qed.

Lemma decode_encode_state s : state_ok s -> decode_state (encode_state s) = Ok s.
Proof.
  intros Hs. unfold decode_state, state_ok in *. rewrite encode_state_wire.
  rewrite (decode_fields_written _ _ state_step state_field_step).
  - assert ((version s =? 0) = false) as Hv by (apply Z.eqb_neq; lia).
    destruct s as [v []]; simpl in *; unfold state_new; by rewrite Hv.
  - unfold state_wire. destruct (status s =b? Revoked); rewrite !Forall_cons_iff, Forall_nil_iff;
      unfold field_ok, value_ok, in_width; cbn [fst snd]; unfold u64_max in *; lia.
  - rewrite <- encode_state_wire. unfold encode_state. rewrite length_app.
    pose proof (write_varint_field_length 1 (version s)). pose proof (write_varint_field_length 2 1).
    unfold usize_max, u64_max. destruct (_ =b? _); cbn [length]; lia.
Qed.

(** ** The lifecycle *)

Inductive credential_op := Rotate | RevokeCurrent.

(** A failed rotation leaves the stored state. *)
Definition credential_step (s : ExternalCredentialState) (op : credential_op) : unit * ExternalCredentialState :=
  match op with
  | Rotate => match rotate s with Ok s' => (tt, s') | Err _ => (tt, s) end
  | RevokeCurrent => (tt, revoke s)
  end.

(** Versions never go back, and within a version the status only moves to revoked. *)
Definition supersedes (s s' : ExternalCredentialState) : Prop :=
  version s <= version s' /\ (version s = version s' -> status s = Revoked -> status s' = Revoked).

#[export] Instance supersedes_refl : Reflexive supersedes.
Proof. intros s. split; [lia|done]. Qed.

#[export] Instance supersedes_trans : Transitive supersedes.
Proof.
  intros s1 s2 s3 [H1 H2] [H3 H4]. split; [lia|]. intros E Hr. apply H4; [lia|]. apply H2; [lia|done].
Qed.

Lemma credential_step_ok s op : state_ok s -> state_ok (credential_step s op).2.
Proof.
  unfold state_ok, credential_step, rotate. intros Hs. destruct op; [|done].
  destruct (checked_add u64_max (version s) 1) eqn:E; [|done]. apply checked_add_Some in E as [-> E]. simpl. lia.
Qed.

Lemma credential_step_supersedes s op : supersedes s (credential_step s op).2.
Proof.
  unfold credential_step, rotate. destruct op; [|by split].
  destruct (checked_add u64_max (version s) 1) eqn:E; [|done]. apply checked_add_Some in E as [-> E].
  split; simpl; lia.
Qed.

Lemma be_bytes_inj n x y : 0 <= x < 256 ^ Z.of_nat n -> 0 <= y < 256 ^ Z.of_nat n -> be_bytes n x = be_bytes n y -> x = y.
Proof. intros Hx Hy H. apply (f_equal of_be_bytes) in H. by rewrite !of_be_bytes_be_bytes in H. Qed.

Lemma context_domain_inj p p' x y : length x = length y ->
  context_domain p ++ x = context_domain p' ++ y -> p = p' /\ x = y.
Proof.
  intros Hl H. apply app_inj_2 in H as [Hd ->]; [|done]. split; [|done].
  destruct p, p'; try done; vm_compute in Hd; discriminate.
Qed.

(** Contexts identify the purpose and the active version. *)
Lemma derivation_context_inj s s' p p' c :
  state_ok s -> state_ok s' -> derivation_context s p = Ok c -> derivation_context s' p' = Ok c -> p = p' /\ s = s'.
Proof.
  unfold state_ok, derivation_context, require_active. intros Hs Hs' H H'.
  destruct s as [v []], s' as [v' []]; try done. cbn [version status result_bind] in *.
  assert (context_domain p ++ be_bytes 8 v = context_domain p' ++ be_bytes 8 v') as Hc by congruence.
  apply context_domain_inj in Hc as [-> Hv]; [|by rewrite !be_bytes_length].
  apply be_bytes_inj in Hv as ->; [done|..]; change (256 ^ Z.of_nat 8) with (u64_max + 1); lia.
Qed.

(** ** Provisioning *)

Definition envelope_wire (s : ExternalCredentialState) (ch : list Z) (u p : str) : list (Z * wire_value) :=
  [(1, VVarint PROVISIONING_SCHEMA_VERSION); (2, VVarint (version s)); (3, VBytes (credential_id s));
   (4, VBytes ch); (5, VBytes u); (6, VBytes p)].

Definition utf8_or_bad (bs : list Z) : result ExternalCredentialError str :=
  if utf8_valid bs then Ok bs else Err InvalidProvisioningEnvelope.

(** What a field of the envelope does, on the fields the encoder writes. *)
Definition envelope_step (st : envelope_fields) (f : Z * wire_value) : result ExternalCredentialError envelope_fields :=
  let '{| f_schema := sc; f_version := ve; f_id := id; f_challenge := ch; f_username := us; f_password := pa |} := st in
  let bad := Err InvalidProvisioningEnvelope in
  match f with
  | (n, VVarint v) =>
      if n =? 1 then if is_some sc then bad else
        Ok {| f_schema := Some v; f_version := ve; f_id := id; f_challenge := ch; f_username := us; f_password := pa |}
      else if n =? 2 then if is_some ve then bad else
        Ok {| f_schema := sc; f_version := Some v; f_id := id; f_challenge := ch; f_username := us; f_password := pa |}
      else if list_contains [3; 4; 5; 6] n then bad
      else Ok st
  | (n, VBytes bs) =>
      if list_contains [1; 2] n then bad
      else if n =? 3 then if is_some id then bad else
        let? s := utf8_or_bad bs in
        Ok {| f_schema := sc; f_version := ve; f_id := Some s; f_challenge := ch; f_username := us; f_password := pa |}
      else if n =? 4 then if is_some ch then bad else
        Ok {| f_schema := sc; f_version := ve; f_id := id; f_challenge := Some bs; f_username := us; f_password := pa |}
      else if n =? 5 then if is_some us then bad else
        let? s := utf8_or_bad bs in
        Ok {| f_schema := sc; f_version := ve; f_id := id; f_challenge := ch; f_username := Some s; f_password := pa |}
      else if n =? 6 then if is_some pa then bad else
        let? s := utf8_or_bad bs in
        Ok {| f_schema := sc; f_version := ve; f_id := id; f_challenge := ch; f_username := us; f_password := Some s |}
      else Ok st
  end.

Lemma envelope_field_step st n v r r' :
  reads_value v r r' ->
  envelope_field st {| field_number := n; wire_type := wire_type_of v |} r = let? st' := envelope_step st (n, v) in Ok (st', r').
Proof.
  destruct st as [sc ve id ch us pa]. unfold envelope_field, envelope_step, list_contains, read_utf8, utf8_or_bad.
  cbn [field_number wire_type existsb]. destruct v as [v|bs]; cbn [wire_type_of reads_value].
  - intros Hv. unfold skip. rewrite Z.eqb_refl, Hv.
    change (WIRE_VARINT =? WIRE_LENGTH_DELIMITED) with false. cbn [negb orb bad_envelope map_err result_bind].
    repeat match goal with |- context [n =? ?k] => destruct (Z.eqb_spec n k) as [->|]; [by rust_cases|] end.
    by rewrite !bool_decide_eq_false_2 by done.
  - intros [Hv Hs]. rewrite Z.eqb_refl, Hv, Hs.
    change (WIRE_LENGTH_DELIMITED =? WIRE_VARINT) with false. cbn [negb orb bad_envelope map_err result_bind].
    repeat match goal with |- context [n =? ?k] => destruct (Z.eqb_spec n k) as [->|]; [by rust_cases|] end.
    by rewrite !bool_decide_eq_false_2 by done.
Qed.

Lemma decimal_digits_length fuel n acc : (length (decimal_digits fuel n acc) <= fuel + length acc)%nat.
Proof.
  revert n acc. induction fuel as [|fuel IH]; intros n acc; [done|]. cbn [decimal_digits].
  destruct (n / 10 =? 0); [cbn [length]; lia|]. specialize (IH (n / 10) ((48 + n mod 10) :: acc)). cbn [length] in IH. lia.
Qed.

Lemma credential_id_shape s : utf8_valid (credential_id s) = true /\ (length (credential_id s) <= 36)%nat.
Proof.
  unfold credential_id. split.
  - apply utf8_valid_ascii, Forall_app. split.
    + vm_compute. repeat constructor; discriminate.
    + eapply Forall_impl; [|apply to_decimal_digits]. intros b Hb. apply between_true in Hb. lia.
  - rewrite length_app. pose proof (decimal_digits_length 20 (version s) []) as H. change (length (lit _)) with 16%nat.
    cbn [length] in H. unfold to_decimal. lia.
Qed.

Lemma lower_hex_ascii v n : valid_lower_hex v n = true -> length v = n /\ utf8_valid v = true.
Proof.
  intros H. apply andb_true_iff in H as [Hl Hf]. apply Nat.eqb_eq in Hl. split; [done|].
  apply utf8_valid_ascii. apply forallb_Forall in Hf. eapply Forall_impl; [|exact Hf]. intros b Hb.
  apply orb_true_iff in Hb as [Hb|Hb]; apply between_true in Hb; lia.
Qed.

Lemma valid_username_ascii u : valid_username u = true -> length u = 37%nat /\ utf8_valid u = true.
Proof.
  unfold valid_username. destruct (strip_prefix (lit "mish-") u) as [x|] eqn:Hx; [|done]. intros H.
  apply strip_prefix_Some in Hx as ->. simpl in H. pose proof (lower_hex_ascii _ _ H) as [Hl _]. split.
  - rewrite length_app, Hl. reflexivity.
  - apply andb_true_iff in H as [_ Hf]. apply utf8_valid_ascii, Forall_app. split.
    + vm_compute. repeat constructor; discriminate.
    + apply forallb_Forall in Hf. eapply Forall_impl; [|exact Hf]. intros b Hb.
      apply orb_true_iff in Hb as [Hb|Hb]; apply between_true in Hb; lia.
Qed.

Lemma validate_material_ok s ch u p :
  validate_material s ch u p = Ok tt ->
  status s = Active /\ length ch = 32%nat /\ valid_username u = true /\ valid_lower_hex p 64 = true.
Proof.
  unfold validate_material. destruct (_ || _) eqn:H; [done|]. rust_bool.
  repeat match goal with H : (_ =? _)%nat = true |- _ => apply Nat.eqb_eq in H end. done.
Qed.

(** What was encoded is what is decoded. *)
Lemma decode_encode_envelope s ch u p bytes :
  state_ok s -> encode_provisioning_envelope s ch u p = Ok bytes ->
  decode_provisioning_envelope bytes =
  Ok {| credential_version := version s; envelope_id := credential_id s; challenge := ch;
        envelope_username := u; envelope_password := p |}.
Proof.
  intros Hs H. unfold encode_provisioning_envelope in H.
  destruct (validate_material s ch u p) as [[]|] eqn:Hv; [|done]. cbn [result_bind] in H.
  apply validate_material_ok in Hv as Hm. destruct Hm as (Ha & Hch & Hu & Hp).
  destruct (valid_username_ascii u Hu) as [Hul Huu], (lower_hex_ascii p 64 Hp) as [Hpl Hpu],
    (credential_id_shape s) as [Hiu Hil].
  assert (bytes = write_fields (envelope_wire s ch u p)) as ->.
  { unfold write_fields, envelope_wire. cbn [fmap list_fmap write_field concat]. rewrite app_nil_r. congruence. }
  unfold state_ok in Hs. unfold decode_provisioning_envelope.
  rewrite (decode_fields_written _ _ envelope_step envelope_field_step).
  - assert (forall x, utf8_valid x = true -> utf8_or_bad x = Ok x) as Hx by (intros x Hx; unfold utf8_or_bad; by rewrite Hx).
    assert (fold_fields envelope_step no_envelope_fields (envelope_wire s ch u p) =
      Ok {| f_schema := Some PROVISIONING_SCHEMA_VERSION; f_version := Some (version s); f_id := Some (credential_id s);
            f_challenge := Some ch; f_username := Some u; f_password := Some p |}) as ->.
    { unfold envelope_wire. simpl. rewrite (Hx _ Hiu). simpl. rewrite (Hx _ Huu). simpl. by rewrite (Hx _ Hpu). }
    cbn [result_bind f_schema f_version f_id f_challenge f_username f_password ok_or].
    rewrite (bool_decide_eq_true_2 (Some _ = Some _)) by done. cbn [negb].
    unfold state_new. rewrite (proj2 (Z.eqb_neq (version s) 0)) by lia. cbn [map_err result_bind].
    assert ({| version := version s; status := Active |} = s) as -> by (destruct s; simpl in Ha; by subst).
    rewrite bool_decide_eq_true_2 by done. cbn [negb]. by rewrite Hv.
  - unfold envelope_wire. rewrite !Forall_cons_iff, Forall_nil_iff. unfold field_ok, value_ok, in_width.
    cbn [fst snd]. unfold PROVISIONING_SCHEMA_VERSION, u64_max in *. lia.
  - unfold write_fields, envelope_wire. cbn [fmap list_fmap write_field concat]. rewrite app_nil_r, !length_app.
    pose proof (write_varint_field_length 1 PROVISIONING_SCHEMA_VERSION).
    pose proof (write_varint_field_length 2 (version s)). pose proof (write_bytes_field_length 3 (credential_id s)).
    pose proof (write_bytes_field_length 4 ch). pose proof (write_bytes_field_length 5 u).
    pose proof (write_bytes_field_length 6 p). unfold usize_max, u64_max. lia.
Qed.

Lemma hex_digit_valid b : is_u8 b ->
  forallb (fun c => is_ascii_digit c || between 97 102 c)
    [nth (Z.to_nat (Z.shiftr b 4)) HEX 0; nth (Z.to_nat (Z.land b 15)) HEX 0] = true.
Proof.
  apply (byte_ind (fun b => forallb _ [nth (Z.to_nat (Z.shiftr b 4)) HEX 0; nth (Z.to_nat (Z.land b 15)) HEX 0])).
  vm_compute. reflexivity.
Qed.

Lemma encode_hex_valid bs : Forall is_u8 bs -> valid_lower_hex (encode_hex bs) (2 * length bs) = true.
Proof.
  unfold valid_lower_hex. intros Hbs. apply andb_true_iff. split.
  - apply Nat.eqb_eq. clear Hbs. induction bs as [|b bs IH]; [done|]. cbn [encode_hex length]. lia.
  - induction Hbs as [|b bs Hb _ IH]; [done|]. pose proof (hex_digit_valid b Hb) as H.
    cbn [encode_hex forallb] in *. apply andb_true_iff in H as [H1 H2]. rewrite andb_true_r in H2. by rewrite H1, H2, IH.
Qed.

(** What a successful resolution says. *)
Lemma state_new_ok v st s : state_new v st = Ok s -> v <> 0 /\ s = {| version := v; status := st |}.
Proof. unfold state_new. destruct (Z.eqb_spec v 0); [done|]. by intros [= <-]. Qed.

Definition versions_u64 (st : state_fields) : Prop := forall v, version_seen st = Some v -> is_u64 v.

Lemma state_field_u64 st t r st' r' : versions_u64 st -> state_field st t r = Ok (st', r') -> versions_u64 st'.
Proof.
  intros Hst H. unfold state_field in H. destruct (_ =? 1).
  { destruct (_ || _); [done|]. destruct (read_varint r) as [[v r1]|] eqn:Hv; simplify_eq/=.
    intros w [= <-]. by eapply read_varint_u64. }
  destruct (_ =? 2).
  { destruct (_ || _); [done|]. destruct (read_varint r) as [[v r1]|]; [|done]. simpl in H.
    destruct (v =? 0); [by simplify_eq|]. destruct (v =? 1); by simplify_eq. }
  destruct (skip r _); by simplify_eq/=.
Qed.

Lemma decode_state_ok bytes s : decode_state bytes = Ok s -> state_ok s.
Proof.
  unfold decode_state. destruct (decode_fields _ _ _ _) as [st|] eqn:Hd; [|done]. intros H.
  assert (versions_u64 {| version_seen := None; revoked := false; revoked_seen := false |}) as H0 by (by intros ?).
  pose proof (decode_fields_invariant _ _ versions_u64 _ _ _ state_field_u64 H0 Hd) as Hu.
  simpl in H. destruct (version_seen st) as [v|] eqn:Hv; [|done]. specialize (Hu v Hv).
  apply state_new_ok in H as [Hv0 ->]. unfold state_ok, in_width in *. simpl. lia.
Qed.

Lemma resolve_outcome c lv lr root r :
  resolve_persistence c lv lr root = Ok r ->
  canonical_state r = encode_state (state r) /\ decode_state (canonical_state r) = Ok (state r) /\
  1 <= version (state r) /\ (action r = UseCurrent <-> is_Some c) /\
  (action r = CreateRootAndPersistCanonical <-> c = None /\ lv = None /\ lr = None /\ root = false).
Proof.
  intros H. unfold resolve_persistence in H. destruct c as [bytes|].
  - destruct (_ || _); [done|]. destruct (negb root); [done|]. destruct (decode_state bytes) as [s|] eqn:Hd; [|done].
    cbn [result_bind] in H. destruct (_ <>b? bytes) eqn:He; [done|]. rust_bool. injection H as <-. simpl.
    rewrite He. apply decode_state_ok in Hd as Hs. unfold state_ok in Hs. split_and!; try done; [lia|naive_solver].
  - destruct (_ <>b? _) eqn:Hl; [done|]. rust_bool. destruct lv as [raw|], lr as [rv|]; try done.
    + destruct root; [|done]. cbn [negb] in H. destruct (parse_u64 raw) as [v|] eqn:Hp; [|done]. cbn [ok_or result_bind] in H.
      destruct (state_new v (status_of rv)) as [s|] eqn:Hs; [|done]. injection H as <-.
      apply from_str_radix_range in Hp; [|unfold u64_max; lia..]. apply state_new_ok in Hs as [Hv ->].
      assert (state_ok {| version := v; status := status_of rv |}) as Hok by (unfold state_ok, in_width in *; simpl; lia).
      cbn [state canonical_state action]. rewrite decode_encode_state by done. unfold state_ok in Hok.
      split_and!; try done; [lia|naive_solver].
    + destruct root; [done|]. injection H as <-. cbn [state canonical_state action].
      rewrite decode_encode_state by (unfold state_ok, u64_max; simpl; unfold INITIAL_VERSION; lia).
      split_and!; done.
Qed.

(** ** Properties *)

(** A revoked credential is gone.  Whatever rotations and revocations led to
    a revoked version and follow it, a later state that can derive secrets has a
    strictly newer version, and the derivation input it hands to the platform
    key is different from every input that version ever had, for either
    purpose. *)
Theorem revoked_version_never_derived ops1 ops2 p p' c :
  let s1 := run credential_step initial ops1 in
  let s2 := run credential_step s1 ops2 in
  status s1 = Revoked -> derivation_context s2 p = Ok c ->
  version s1 < version s2 /\ derivation_context {| version := version s1; status := Active |} p' <> Ok c.
Proof.
  intros s1 s2 Hr Hc.
  assert (state_ok s1) as H1.
  { apply run_invariant; [apply credential_step_ok|]. unfold state_ok. simpl. unfold INITIAL_VERSION, u64_max. lia. }
  assert (state_ok s2) as H2 by (apply run_invariant; [apply credential_step_ok|done]).
  assert (supersedes s1 s2) as [Hv Hs].
  { apply (run_monotone credential_step (fun _ => True) supersedes s1 ops2); try apply _; auto using credential_step_supersedes. }
  assert (status s2 = Active) as Ha.
  { unfold derivation_context, require_active in Hc. by destruct (status s2). }
  assert (version s1 < version s2) as Hlt.
  { destruct (decide (version s1 = version s2)) as [E|]; [|lia]. specialize (Hs E Hr). congruence. }
  split; [done|]. intros Hc'. destruct (derivation_context_inj {| version := version s1; status := Active |} s2 _ _ _ H1 H2 Hc' Hc) as [_ E].
  apply (f_equal version) in E. simpl in E. lia.
Qed.

(** Durable state converges.  Whatever was found on disk (canonical bytes, a
    legacy pair, nothing), if start-up resolves it then the resolved state is
    well formed, the bytes to be kept are its canonical encoding, and the next
    start-up from those bytes resolves to the same state and has nothing left to
    write.  Only a start-up that finds nothing at all creates the first version
    and a root key. *)
Theorem persistence_converges c lv lr root r :
  resolve_persistence c lv lr root = Ok r ->
  resolve_persistence (Some (canonical_state r)) None None true =
    Ok {| state := state r; canonical_state := canonical_state r; action := UseCurrent |} /\
  canonical_state r = encode_state (state r) /\ 1 <= version (state r) /\
  (action r = UseCurrent <-> is_Some c) /\
  (action r = CreateRootAndPersistCanonical <-> c = None /\ lv = None /\ lr = None /\ root = false).
Proof.
  intros H. destruct (resolve_outcome _ _ _ _ _ H) as (He & Hd & Hv & Ha & Hc). split; [|done].
  unfold resolve_persistence. cbn [is_some orb negb]. rewrite Hd. cbn [result_bind]. by rewrite <- He, bool_decide_eq_true_2.
Qed.

(** Provisioning delivers exactly the derived secret.  For an active
    credential, 32-byte derivation outputs and a 32-byte challenge, deriving the
    material and encoding the envelope succeed, and decoding the envelope gives
    back the version, its identifier, the challenge and the material. *)
Theorem provisioning_delivers s username_mac password_mac ch :
  state_ok s -> status s = Active ->
  Forall is_u8 username_mac -> Forall is_u8 password_mac ->
  length username_mac = 32%nat -> length password_mac = 32%nat -> length ch = 32%nat ->
  exists m bytes,
    materialize s username_mac password_mac = Ok m /\
    encode_provisioning_envelope s ch (username m) (password m) = Ok bytes /\
    decode_provisioning_envelope bytes =
      Ok {| credential_version := version s; envelope_id := credential_id s; challenge := ch;
            envelope_username := username m; envelope_password := password m |}.
Proof.
  intros Hs Ha Hu Hp Hul Hpl Hch.
  set (m := {| username := lit "mish-" ++ encode_hex (take 16 username_mac); password := encode_hex password_mac |}).
  assert (validate_material s ch (username m) (password m) = Ok tt) as Hv.
  { unfold validate_material, valid_username. subst m. cbn [username password]. rewrite Ha, Hch, strip_prefix_app.
    pose proof (encode_hex_valid (take 16 username_mac) ltac:(by apply Forall_take)) as H1.
    rewrite length_take, Hul in H1. change (2 * (16 `min` 32))%nat with 32%nat in H1.
    pose proof (encode_hex_valid password_mac Hp) as H2. rewrite Hpl in H2. change (2 * 32)%nat with 64%nat in H2.
    cbn [is_some_and]. by rewrite H1, H2. }
  exists m. eexists. split_and!.
  - unfold materialize, require_active. by rewrite Ha, Hul, Hpl.
  - unfold encode_provisioning_envelope. rewrite Hv. reflexivity.
  - apply decode_encode_envelope; [done|]. unfold encode_provisioning_envelope. by rewrite Hv.
Qed.

Lemma revoked_version_never_derived_witness :
  version (run credential_step initial [Rotate; RevokeCurrent]) <
    version (run credential_step (run credential_step initial [Rotate; RevokeCurrent]) [Rotate]).
Proof.
  refine (proj1 (revoked_version_never_derived [Rotate; RevokeCurrent] [Rotate] Password Password
    (PASSWORD_CONTEXT_DOMAIN ++ be_bytes 8 3) _ _)); vm_compute; reflexivity.
Defined.

(** A legacy installation is migrated once. *)
Lemma persistence_converges_witness :
  resolve_persistence (Some (encode_state {| version := 300; status := Revoked |})) None None true =
    Ok {| state := {| version := 300; status := Revoked |};
          canonical_state := encode_state {| version := 300; status := Revoked |}; action := UseCurrent |}.
Proof.
  refine (proj1 (persistence_converges None (Some (lit "300")) (Some true) true
    {| state := {| version := 300; status := Revoked |};
       canonical_state := encode_state {| version := 300; status := Revoked |}; action := PersistCanonical |} _)).
  vm_compute. reflexivity.
Defined.

Lemma provisioning_delivers_witness :
  exists m bytes,
    materialize initial (replicate 32 3) (replicate 32 4) = Ok m /\
    encode_provisioning_envelope initial (replicate 32 9) (username m) (password m) = Ok bytes /\
    decode_provisioning_envelope bytes =
      Ok {| credential_version := 1; envelope_id := credential_id initial; challenge := replicate 32 9;
            envelope_username := username m; envelope_password := password m |}.
Proof.
  apply (provisioning_delivers initial (replicate 32 3) (replicate 32 4) (replicate 32 9)); try reflexivity.
  - unfold state_ok, u64_max. simpl. unfold INITIAL_VERSION. lia.
  - apply Forall_replicate. unfold in_width, u8_max. lia.
  - apply Forall_replicate. unfold in_width, u8_max. lia.
Defined.
