(* ===== verification/TemporaryCredential.v ===== *)
(** * The temporary credential lease

    Models [src/crates/credentials/src/temporary.rs]: the 24-hour lease, the
    record that binds it to its user name and password, and their encodings.
    Strings are byte lists that are valid UTF-8, as [String] is. *)

From Stdlib Require Import String.
From S2P Require Import Prelude RustStr Proto.

#[local] Arguments write_varint _ : simpl never.
#[local] Arguments write_varint_field _ _ : simpl never.
#[local] Arguments write_bytes_field _ _ : simpl never.

Definition TEMPORARY_CREDENTIAL_TTL_SECONDS : Z := 24 * 60 * 60.

Inductive TemporaryCredentialStatus := Active | Expired | Revoked.

Inductive TemporaryCredentialError :=
| MissingTrustedClock | InvalidActivationTime | InvalidGeneration | DeadlineOverflow
| MalformedState | NonCanonicalState | InvalidCredentialMaterial.

#[export] Instance TemporaryCredentialStatus_eq_dec : EqDecision TemporaryCredentialStatus.
Proof. solve_decision. Defined.

Record TemporaryCredentialLease := {
  generation : Z;
  activated_at_unix_seconds : Z;
  expires_at_unix_seconds : Z;
  last_observed_unix_seconds : Z;
  status : TemporaryCredentialStatus }.

Definition activate (generation : Z) (trusted_unix_seconds : option Z)
    : result TemporaryCredentialError TemporaryCredentialLease :=
  if generation =? 0 then Err InvalidGeneration
  else
    let? now := ok_or trusted_unix_seconds MissingTrustedClock in
    if now =? 0 then Err InvalidActivationTime
    else
      let? expires_at := ok_or (checked_add u64_max now TEMPORARY_CREDENTIAL_TTL_SECONDS) DeadlineOverflow in
      Ok {| generation := generation; activated_at_unix_seconds := now; expires_at_unix_seconds := expires_at;
            last_observed_unix_seconds := now; status := Active |}.

Definition revoke (l : TemporaryCredentialLease) : TemporaryCredentialLease :=
  {| generation := generation l; activated_at_unix_seconds := activated_at_unix_seconds l;
     expires_at_unix_seconds := expires_at_unix_seconds l;
     last_observed_unix_seconds := last_observed_unix_seconds l; status := Revoked |}.

(** [Self { last_observed_unix_seconds: now, status, ..self }] *)
Definition observed (l : TemporaryCredentialLease) (now : Z) (st : TemporaryCredentialStatus)
    : TemporaryCredentialLease :=
  {| generation := generation l; activated_at_unix_seconds := activated_at_unix_seconds l;
     expires_at_unix_seconds := expires_at_unix_seconds l; last_observed_unix_seconds := now; status := st |}.

Definition observe (l : TemporaryCredentialLease) (trusted_unix_seconds : option Z)
    : TemporaryCredentialLease * bool :=
  if status l <>b? Active then (l, false)
  else
    match trusted_unix_seconds with
    | None => (revoke l, false)
    | Some now =>
        if (now <? activated_at_unix_seconds l) || (now <? last_observed_unix_seconds l) then (revoke l, false)
        else if expires_at_unix_seconds l <=? now then (observed l now Expired, false)
        else (observed l now (status l), true)
    end.

(** ** Encoding of the lease *)

Definition status_code (s : TemporaryCredentialStatus) : Z :=
  match s with Active => 1 | Expired => 2 | Revoked => 3 end.

Definition encode_temporary_lease (l : TemporaryCredentialLease) : list Z :=
  write_varint_field 1 (generation l)
  ++ write_varint_field 2 (activated_at_unix_seconds l)
  ++ write_varint_field 3 (expires_at_unix_seconds l)
  ++ write_varint_field 4 (last_observed_unix_seconds l)
  ++ write_varint_field 5 (status_code (status l)).

Definition proto {A} (m : result ProtoError A) : result TemporaryCredentialError A :=
  map_err (fun _ => MalformedState) m.

(** One turn of the loop; [fields] is the array of five slots. *)
Definition lease_field (fields : list (option Z)) (tag : ProtoTag) (r : ProtoReader)
    : result TemporaryCredentialError (list (option Z) * ProtoReader) :=
  if negb (between 1 5 (field_number tag)) || negb (wire_type tag =? WIRE_VARINT) then Err MalformedState
  else
    let slot := Z.to_nat (field_number tag - 1) in
    if is_some (nth slot fields None) then Err MalformedState
    else
      let? (v, r) := proto (read_varint r) in
      Ok (<[slot := Some v]> fields, r).

Definition decode_status (code last end' : Z) : result TemporaryCredentialError TemporaryCredentialStatus :=
  if (code =? 1) && (last <? end') then Ok Active
  else if (code =? 2) && (end' <=? last) then Ok Expired
  else if code =? 3 then Ok Revoked
  else Err MalformedState.

Definition lease_of_fields (fields : list (option Z)) : result TemporaryCredentialError TemporaryCredentialLease :=
  match fields with
  | [Some generation; Some start; Some end'; Some last; Some code] =>
      if (generation =? 0) || (start =? 0)
         || (checked_add u64_max start TEMPORARY_CREDENTIAL_TTL_SECONDS <>b? Some end') || (last <? start)
      then Err MalformedState
      else
        let? status := decode_status code last end' in
        Ok {| generation := generation; activated_at_unix_seconds := start; expires_at_unix_seconds := end';
              last_observed_unix_seconds := last; status := status |}
  | _ => Err MalformedState
  end.

Definition decode_temporary_lease (input : list Z) : result TemporaryCredentialError TemporaryCredentialLease :=
  let? fields := decode_fields MalformedState lease_field (replicate 5 None) input in
  let? state := lease_of_fields fields in
  if encode_temporary_lease state <>b? input then Err NonCanonicalState else Ok state.

(** ** Records *)

Record TemporaryCredentialRecord := { lease : TemporaryCredentialLease; username : str; password : str }.

(** The shape test [issue] and [decode_temporary_record] share. *)
Definition invalid_material (u p : str) : bool :=
  (trim u =b? []) || (trim p =b? []) || (255 <? length u)%nat || (255 <? length p)%nat
  || contains_byte 0 u || contains_byte 0 p.

Definition issue (generation : Z) (trusted_unix_seconds : option Z) (u p : str)
    : result TemporaryCredentialError TemporaryCredentialRecord :=
  if invalid_material u p then Err InvalidCredentialMaterial
  else
    let? lease := activate generation trusted_unix_seconds in
    Ok {| lease := lease; username := u; password := p |}.

Definition record_observe (r : TemporaryCredentialRecord) (trusted_unix_seconds : option Z)
    : TemporaryCredentialRecord * bool :=
  let '(l, admitted) := observe (lease r) trusted_unix_seconds in
  ({| lease := l; username := username r; password := password r |}, admitted).

Definition record_revoke (r : TemporaryCredentialRecord) : TemporaryCredentialRecord :=
  {| lease := revoke (lease r); username := username r; password := password r |}.

Definition encode_temporary_record (r : TemporaryCredentialRecord) : list Z :=
  write_varint_field 1 1
  ++ write_bytes_field 2 (encode_temporary_lease (lease r))
  ++ write_bytes_field 3 (username r)
  ++ write_bytes_field 4 (password r).

(** What the loop of [decode_temporary_record] has seen. *)
Record record_fields := {
  schema : option Z; lease_seen : option TemporaryCredentialLease;
  username_seen : option str; password_seen : option str }.

Definition from_utf8 (bs : list Z) : result TemporaryCredentialError str :=
  if utf8_valid bs then Ok bs else Err InvalidCredentialMaterial.

Definition record_field (st : record_fields) (tag : ProtoTag) (r : ProtoReader)
    : result TemporaryCredentialError (record_fields * ProtoReader) :=
  let n := field_number tag in
  let w := wire_type tag in
  if (n =? 1) && (w =? WIRE_VARINT) && is_none (schema st) then
    let? (v, r) := proto (read_varint r) in
    Ok ({| schema := Some v; lease_seen := lease_seen st;
           username_seen := username_seen st; password_seen := password_seen st |}, r)
  else if (n =? 2) && (w =? WIRE_LENGTH_DELIMITED) && is_none (lease_seen st) then
    let? (bs, r) := proto (read_bytes r) in
    let? l := decode_temporary_lease bs in
    Ok ({| schema := schema st; lease_seen := Some l;
           username_seen := username_seen st; password_seen := password_seen st |}, r)
  else if (n =? 3) && (w =? WIRE_LENGTH_DELIMITED) && is_none (username_seen st) then
    let? (bs, r) := proto (read_bytes r) in
    let? u := from_utf8 bs in
    Ok ({| schema := schema st; lease_seen := lease_seen st;
           username_seen := Some u; password_seen := password_seen st |}, r)
  else if (n =? 4) && (w =? WIRE_LENGTH_DELIMITED) && is_none (password_seen st) then
    let? (bs, r) := proto (read_bytes r) in
    let? p := from_utf8 bs in
    Ok ({| schema := schema st; lease_seen := lease_seen st;
           username_seen := username_seen st; password_seen := Some p |}, r)
  else Err MalformedState.

Definition decode_temporary_record (bytes : list Z) : result TemporaryCredentialError TemporaryCredentialRecord :=
  let? st := decode_fields MalformedState record_field
    {| schema := None; lease_seen := None; username_seen := None; password_seen := None |} bytes in
  if schema st <>b? Some 1 then Err MalformedState
  else
    let? l := ok_or (lease_seen st) MalformedState in
    let? u := ok_or (username_seen st) MalformedState in
    let? p := ok_or (password_seen st) MalformedState in
    if invalid_material u p then Err InvalidCredentialMaterial
    else
      let record := {| lease := l; username := u; password := p |} in
      if encode_temporary_record record <>b? bytes then Err NonCanonicalState else Ok record.

(** ** Leases *)

Record lease_ok (l : TemporaryCredentialLease) : Prop := {
  ok_generation : 1 <= generation l <= u64_max;
  ok_start : 1 <= activated_at_unix_seconds l;
  ok_deadline : expires_at_unix_seconds l = activated_at_unix_seconds l + TEMPORARY_CREDENTIAL_TTL_SECONDS;
  ok_range : expires_at_unix_seconds l <= u64_max;
  ok_last : activated_at_unix_seconds l <= last_observed_unix_seconds l <= u64_max;
  ok_active : status l = Active -> last_observed_unix_seconds l < expires_at_unix_seconds l;
  ok_expired : status l = Expired -> expires_at_unix_seconds l <= last_observed_unix_seconds l }.

Lemma activate_ok g now l : is_u64 g -> (forall t, now = Some t -> is_u64 t) -> activate g now = Ok l -> lease_ok l.
Proof.
  intros Hg Hn H. unfold activate in H. destruct (Z.eqb_spec g 0) as [|Hg0]; [done|].
  destruct now as [t|]; [|done]. simpl in H. specialize (Hn t eq_refl). unfold in_width in *.
  destruct (Z.eqb_spec t 0) as [|Ht0]; [done|].
  destruct (checked_add _ t _) as [e|] eqn:He; [|done]. simpl in H. apply checked_add_Some in He as [-> He].
  injection H as <-. split; simpl; try done; unfold TEMPORARY_CREDENTIAL_TTL_SECONDS in *; lia.
Qed.

Lemma revoke_ok l : lease_ok l -> lease_ok (revoke l).
Proof. intros []. by split. Qed.

Lemma lease_observe_ok l now : (forall t, now = Some t -> is_u64 t) -> lease_ok l -> lease_ok (observe l now).1.
Proof.
  intros Hn Hl. unfold observe. destruct (status l <>b? Active) eqn:Hs; [done|]. rust_bool.
  destruct now as [t|]; [|by apply revoke_ok]. specialize (Hn t eq_refl). unfold in_width in Hn.
  destruct (_ || _) eqn:Ht; [by apply revoke_ok|]. rust_bool.
  destruct (Z.leb_spec (expires_at_unix_seconds l) t); destruct Hl; split; simpl; try done; try lia.
  by rewrite Hs.
Qed.

(** The fields of a lease, and what reading one does. *)
Definition lease_wire (l : TemporaryCredentialLease) : list (Z * wire_value) :=
  [(1, VVarint (generation l)); (2, VVarint (activated_at_unix_seconds l));
   (3, VVarint (expires_at_unix_seconds l)); (4, VVarint (last_observed_unix_seconds l));
   (5, VVarint (status_code (status l)))].

Definition lease_step (fields : list (option Z)) (f : Z * wire_value)
    : result TemporaryCredentialError (list (option Z)) :=
  match f with
  | (n, VVarint v) =>
      if negb (between 1 5 n) then Err MalformedState
      else if is_some (nth (Z.to_nat (n - 1)) fields None) then Err MalformedState
      else Ok (<[Z.to_nat (n - 1) := Some v]> fields)
  | (n, VBytes _) => Err MalformedState
  end.

Lemma lease_field_step st n v r r' :
  reads_value v r r' ->
  lease_field st {| field_number := n; wire_type := wire_type_of v |} r = let? st' := lease_step st (n, v) in Ok (st', r').
Proof.
  unfold lease_field. simpl. destruct v as [v|bs]; simpl.
  - intros Hv. destruct (between 1 5 n); [|done]. simpl. destruct (is_some _); [done|]. by rewrite Hv.
  - intros _. by destruct (between 1 5 n).
Qed.

Lemma encode_lease_wire l : encode_temporary_lease l = write_fields (lease_wire l).
Proof. unfold encode_temporary_lease, write_fields, lease_wire. simpl. by rewrite app_nil_r. Qed.

Lemma encode_lease_length l : (length (encode_temporary_lease l) <= 100)%nat.
Proof.
  unfold encode_temporary_lease. rewrite !length_app.
  repeat match goal with |- context [length (write_varint_field ?n ?v)] =>
    let H := fresh in pose proof (write_varint_field_length n v) as H; revert H;
    generalize (length (write_varint_field n v)) end. lia.
Qed.

Lemma lease_wire_ok l : lease_ok l -> Forall field_ok (lease_wire l).
Proof.
  intros []. unfold TEMPORARY_CREDENTIAL_TTL_SECONDS, u64_max in *.
  assert (1 <= status_code (status l) <= 3) by (by destruct (status l)).
  unfold lease_wire. rewrite !Forall_cons_iff, Forall_nil_iff. unfold field_ok, value_ok, in_width, u64_max. simpl. lia.
Qed.

Lemma decode_status_code l : lease_ok l ->
  decode_status (status_code (status l)) (last_observed_unix_seconds l) (expires_at_unix_seconds l) = Ok (status l).
Proof.
  intros []. unfold decode_status. destruct (status l) eqn:Hs; simpl; [|by rewrite (proj2 (Z.leb_le _ _)) by auto|done].
  by rewrite (proj2 (Z.ltb_lt _ _)) by auto.
Qed.

Lemma lease_of_wire l : lease_ok l ->
  lease_of_fields [Some (generation l); Some (activated_at_unix_seconds l); Some (expires_at_unix_seconds l);
                   Some (last_observed_unix_seconds l); Some (status_code (status l))] = Ok l.
Proof.
  intros Hl. unfold lease_of_fields. rewrite decode_status_code by done. destruct Hl.
  rewrite (proj2 (Z.eqb_neq (generation l) 0)), (proj2 (Z.eqb_neq (activated_at_unix_seconds l) 0)) by lia.
  rewrite (proj2 (Z.ltb_ge _ _)) by lia.
  rewrite bool_decide_eq_true_2 by (apply checked_add_Some; lia). by destruct l.
Qed.

Lemma decode_encode_lease l : lease_ok l -> decode_temporary_lease (encode_temporary_lease l) = Ok l.
Proof.
  intros Hl. unfold decode_temporary_lease. rewrite encode_lease_wire.
  rewrite (decode_fields_written _ _ lease_step lease_field_step);
    [|by apply lease_wire_ok|rewrite <- encode_lease_wire; pose proof (encode_lease_length l); unfold usize_max, u64_max; lia].
  change (fold_fields lease_step (replicate 5 None) (lease_wire l)) with
    (Ok (E := TemporaryCredentialError) [Some (generation l); Some (activated_at_unix_seconds l); Some (expires_at_unix_seconds l);
      Some (last_observed_unix_seconds l); Some (status_code (status l))]).
  cbn [result_bind]. rewrite lease_of_wire by done. cbn [result_bind]. by rewrite encode_lease_wire, bool_decide_eq_true_2.
Qed.

(** Every slot that was filled holds a [u64]. *)
Lemma lease_field_u64 st t r st' r' :
  Forall (fun o => forall v, o = Some v -> is_u64 v) st -> lease_field st t r = Ok (st', r') ->
  Forall (fun o => forall v, o = Some v -> is_u64 v) st'.
Proof.
  intros Hst H. unfold lease_field in H. destruct (_ || _); [done|]. destruct (is_some _); [done|].
  destruct (read_varint r) as [[v r1]|] eqn:Hv; simplify_eq/=.
  apply Forall_insert; [done|]. intros w [= <-]. by eapply read_varint_u64.
Qed.

Lemma decode_lease_ok input l : decode_temporary_lease input = Ok l -> lease_ok l /\ input = encode_temporary_lease l.
Proof.
  intros H. unfold decode_temporary_lease in H. destruct (decode_fields _ _ _ _) as [fs|] eqn:Hd; [|done]. simpl in H.
  apply (decode_fields_invariant _ _ _ _ _ _ lease_field_u64) in Hd;
    [|by apply Forall_replicate].
  destruct (lease_of_fields fs) as [l'|] eqn:Hl; [|done]. simpl in H. destruct (_ <>b? _) eqn:He; [done|]. rust_bool.
  injection H as <-. split; [|done]. unfold lease_of_fields in Hl.
  destruct fs as [|[g|] [|[s|] [|[e|] [|[la|] [|[c|] [|]]]]]]; try done.
  destruct (_ || _) eqn:Hc; [done|]. rust_bool. destruct (decode_status c la e) as [st|] eqn:Hs; [|done].
  injection Hl as <-. rewrite !Forall_cons_iff in Hd. destruct Hd as (Hg & Hs0 & _ & Hla & _).
  specialize (Hg g eq_refl). specialize (Hs0 s eq_refl). specialize (Hla la eq_refl). unfold in_width in *.
  match goal with H : checked_add _ _ _ = Some _ |- _ => apply checked_add_Some in H as [-> ?] end.
  unfold decode_status in Hs. split; simpl; [lia..| |]; intros ->.
  all: rust_cases in Hs; lia.
Qed.

Lemma decode_lease_spec input l :
  decode_temporary_lease input = Ok l <-> lease_ok l /\ input = encode_temporary_lease l.
Proof. split; [apply decode_lease_ok|]. intros [Hl ->]. by apply decode_encode_lease. Qed.

(** ** Records *)

Record record_ok (r : TemporaryCredentialRecord) : Prop := {
  ok_lease : lease_ok (lease r);
  ok_material : invalid_material (username r) (password r) = false;
  ok_username : utf8_valid (username r) = true;
  ok_password : utf8_valid (password r) = true }.

Definition record_wire (r : TemporaryCredentialRecord) : list (Z * wire_value) :=
  [(1, VVarint 1); (2, VBytes (encode_temporary_lease (lease r)));
   (3, VBytes (username r)); (4, VBytes (password r))].

Definition record_step (st : record_fields) (f : Z * wire_value) : result TemporaryCredentialError record_fields :=
  match f with
  | (n, VVarint v) =>
      if (n =? 1) && is_none (schema st)
      then Ok {| schema := Some v; lease_seen := lease_seen st;
                 username_seen := username_seen st; password_seen := password_seen st |}
      else Err MalformedState
  | (n, VBytes bs) =>
      if (n =? 2) && is_none (lease_seen st) then
        let? l := decode_temporary_lease bs in
        Ok {| schema := schema st; lease_seen := Some l;
              username_seen := username_seen st; password_seen := password_seen st |}
      else if (n =? 3) && is_none (username_seen st) then
        let? u := from_utf8 bs in
        Ok {| schema := schema st; lease_seen := lease_seen st;
              username_seen := Some u; password_seen := password_seen st |}
      else if (n =? 4) && is_none (password_seen st) then
        let? p := from_utf8 bs in
        Ok {| schema := schema st; lease_seen := lease_seen st;
              username_seen := username_seen st; password_seen := Some p |}
      else Err MalformedState
  end.

Lemma record_field_step st n v r r' :
  reads_value v r r' ->
  record_field st {| field_number := n; wire_type := wire_type_of v |} r = let? st' := record_step st (n, v) in Ok (st', r').
Proof.
  unfold record_field. destruct v as [v|bs]; cbn [field_number wire_type wire_type_of reads_value record_step].
  - intros Hv. change (WIRE_VARINT =? WIRE_LENGTH_DELIMITED) with false. rewrite Z.eqb_refl, Hv, !andb_false_r, andb_true_r.
    by destruct ((n =? 1) && is_none (schema st)).
  - intros [Hv _]. change (WIRE_LENGTH_DELIMITED =? WIRE_VARINT) with false.
    rewrite Z.eqb_refl, Hv, andb_false_r, !andb_true_r. cbn [andb proto map_err result_bind].
    destruct ((n =? 2) && is_none (lease_seen st)); [by destruct (decode_temporary_lease bs)|].
    destruct ((n =? 3) && is_none (username_seen st)); [by destruct (from_utf8 bs)|].
    destruct ((n =? 4) && is_none (password_seen st)); [by destruct (from_utf8 bs)|done].
Qed.

Lemma encode_record_wire r : encode_temporary_record r = write_fields (record_wire r).
Proof. unfold encode_temporary_record, write_fields, record_wire. simpl. by rewrite app_nil_r. Qed.

Lemma material_lengths u p : invalid_material u p = false -> (length u <= 255)%nat /\ (length p <= 255)%nat.
Proof.
  unfold invalid_material. intros H. rust_bool.
  repeat match goal with H : (_ <? _)%nat = false |- _ => apply Nat.ltb_ge in H end. done.
Qed.

Lemma record_wire_ok r : record_ok r ->
  Forall field_ok (record_wire r) /\ Z.of_nat (length (write_fields (record_wire r))) <= usize_max.
Proof.
  intros [_ Hm _ _]. apply material_lengths in Hm as [Hu Hp]. pose proof (encode_lease_length (lease r)). split.
  - unfold record_wire. rewrite !Forall_cons_iff, Forall_nil_iff. unfold field_ok, value_ok, in_width, u64_max.
    cbn [fst snd]. lia.
  - rewrite <- encode_record_wire. unfold encode_temporary_record. rewrite !length_app.
    pose proof (write_varint_field_length 1 1). pose proof (write_bytes_field_length 2 (encode_temporary_lease (lease r))).
    pose proof (write_bytes_field_length 3 (username r)). pose proof (write_bytes_field_length 4 (password r)).
    unfold usize_max, u64_max. lia.
Qed.

Lemma decode_encode_record r : record_ok r -> decode_temporary_record (encode_temporary_record r) = Ok r.
Proof.
  intros Hr. destruct (record_wire_ok r Hr) as [Hw Hl]. destruct Hr as [Hle Hm Hu Hp].
  unfold decode_temporary_record. rewrite encode_record_wire.
  rewrite (decode_fields_written _ _ record_step record_field_step) by done.
  assert (fold_fields record_step
    {| schema := None; lease_seen := None; username_seen := None; password_seen := None |} (record_wire r) =
    Ok {| schema := Some 1; lease_seen := Some (lease r); username_seen := Some (username r);
          password_seen := Some (password r) |}) as ->.
  { unfold record_wire. simpl. rewrite decode_encode_lease by done. simpl. unfold from_utf8. rewrite Hu. simpl. by rewrite Hp. }
  cbn [result_bind schema lease_seen username_seen password_seen ok_or]. rewrite Hm.
  rewrite (bool_decide_eq_true_2 (Some 1 = Some 1)) by done. cbn [negb].
  rewrite encode_record_wire, bool_decide_eq_true_2; by destruct r.
Qed.

Lemma record_field_ok st t r st' r' :
  (forall l, lease_seen st = Some l -> lease_ok l) /\ (forall u, username_seen st = Some u -> utf8_valid u = true) /\
  (forall p, password_seen st = Some p -> utf8_valid p = true) ->
  record_field st t r = Ok (st', r') ->
  (forall l, lease_seen st' = Some l -> lease_ok l) /\ (forall u, username_seen st' = Some u -> utf8_valid u = true) /\
  (forall p, password_seen st' = Some p -> utf8_valid p = true).
Proof.
  intros Hst H. unfold record_field, proto in H. cbv zeta in H.
  destruct (_ && is_none (schema st)); [destruct (read_varint r) as [[v r1]|]; by simplify_eq/=|].
  destruct (_ && is_none (lease_seen st)).
  { destruct (read_bytes r) as [[bs r1]|]; simplify_eq/=.
    destruct (decode_temporary_lease bs) as [l|] eqn:Hl; simplify_eq/=. apply decode_lease_spec in Hl as [Hl _].
    naive_solver. }
  destruct (_ && is_none (username_seen st)).
  { destruct (read_bytes r) as [[bs r1]|]; simplify_eq/=. unfold from_utf8 in H.
    destruct (utf8_valid bs) eqn:Hu; simplify_eq/=. naive_solver. }
  destruct (_ && is_none (password_seen st)); [|done].
  destruct (read_bytes r) as [[bs r1]|]; simplify_eq/=. unfold from_utf8 in H.
  destruct (utf8_valid bs) eqn:Hu; simplify_eq/=. naive_solver.
Qed.

Lemma decode_record_ok bytes r :
  decode_temporary_record bytes = Ok r -> record_ok r /\ bytes = encode_temporary_record r.
Proof.
  intros H. unfold decode_temporary_record in H. destruct (decode_fields _ _ _ _) as [st|] eqn:Hd; [|done].
  apply (decode_fields_invariant _ _ _ _ _ _ record_field_ok) in Hd as (Hl & Hu & Hp); [|done].
  simpl in H. destruct (schema st <>b? Some 1); [done|].
  destruct (lease_seen st) as [l|]; [|done]. destruct (username_seen st) as [u|]; [|done].
  destruct (password_seen st) as [p|]; [|done]. simpl in H.
  destruct (invalid_material u p) eqn:Hm; [done|]. destruct (_ <>b? bytes) eqn:He; [done|]. rust_bool.
  injection H as <-. split; [|done]. split; simpl; auto.
Qed.

(** ** Lifecycles *)

(** What the owner of a stored record does with it: it observes it, revokes it,
    or restarts, which reads the stored bytes back. *)
Inductive lease_event := Observe (trusted : option Z) | Revoke | Restart.

(** The answer is whether a connection was admitted. *)
Definition lease_step_event (stored : list Z) (e : lease_event) : bool * list Z :=
  match decode_temporary_record stored with
  | Err _ => (false, stored)
  | Ok r =>
      match e with
      | Observe t => let '(r, admitted) := record_observe r t in (admitted, encode_temporary_record r)
      | Revoke => (false, encode_temporary_record (record_revoke r))
      | Restart => (false, encode_temporary_record r)
      end
  end.

Definition event_ok (e : lease_event) : Prop :=
  match e with Observe (Some t) => is_u64 t | _ => True end.

(** The specification: the time from which connections are still admitted, if
    any.  Restarts change nothing; observations must not go back in time and
    must stay before the deadline; everything else ends the grant for good. *)
Definition floor_after (deadline : Z) (floor : option Z) (e : lease_event) : option Z :=
  match floor, e with
  | Some low, Restart => Some low
  | Some low, Observe (Some t) => if bool_decide (low <= t < deadline) then Some t else None
  | _, _ => None
  end.

Definition in_order (start deadline : Z) (es : list lease_event) : option Z :=
  foldl (floor_after deadline) (Some start) es.

(** The stored bytes are those of a record issued with [u] and [p] at [start],
    and it is active exactly when the specification has a floor. *)
Definition lease_rel (u p : str) (g start : Z) (stored : list Z) (floor : option Z) : Prop :=
  exists r, stored = encode_temporary_record r /\ record_ok r /\ username r = u /\ password r = p /\
  generation (lease r) = g /\ activated_at_unix_seconds (lease r) = start /\
  floor = if status (lease r) =b? Active then Some (last_observed_unix_seconds (lease r)) else None.

Lemma observe_spec l t : lease_ok l ->
  let floor l := if status l =b? Active then Some (last_observed_unix_seconds l) else None in
  floor (observe l t).1 = floor_after (expires_at_unix_seconds l) (floor l) (Observe t) /\
  (observe l t).2 = is_some (floor (observe l t).1).
Proof.
  intros []. cbv zeta. unfold observe. destruct (status l) eqn:Hs; simpl; rewrite ?Hs; simpl; try done.
  destruct t as [t|]; simpl; [|done].
  destruct (Z.ltb_spec t (activated_at_unix_seconds l)), (Z.ltb_spec t (last_observed_unix_seconds l)); simpl;
    try (rewrite bool_decide_eq_false_2 by lia; done).
  destruct (Z.leb_spec (expires_at_unix_seconds l) t); simpl.
  - by rewrite bool_decide_eq_false_2 by lia.
  - by rewrite (bool_decide_eq_true_2 (_ <= _ < _)) by lia.
Qed.

Lemma observe_keeps l t :
  generation (observe l t).1 = generation l /\ activated_at_unix_seconds (observe l t).1 = activated_at_unix_seconds l.
Proof.
  unfold observe. destruct (_ <>b? _); [done|]. destruct t as [t|]; [|done]. destruct (_ || _); [done|].
  by destruct (_ <=? _).
Qed.

Lemma lease_rel_step u p g start stored floor e :
  event_ok e -> lease_rel u p g start stored floor ->
  let floor' := floor_after (start + TEMPORARY_CREDENTIAL_TTL_SECONDS) floor e in
  lease_rel u p g start (lease_step_event stored e).2 floor' /\
  ((lease_step_event stored e).1 = true <-> is_Some floor' /\ exists t, e = Observe (Some t)).
Proof.
  intros He (r & -> & Hr & Hu & Hp & Hg & Hs & ->). pose proof Hr as [Hl Hm Hu' Hp']. cbv zeta.
  unfold lease_step_event. rewrite decode_encode_record by done. rewrite <- Hs, <- (ok_deadline _ Hl).
  destruct e as [t| |].
  - destruct (observe_spec (lease r) t Hl) as [H1 H2]. destruct (observe_keeps (lease r) t) as [H3 H4]. cbv zeta in H1, H2.
    pose proof (lease_observe_ok (lease r) t) as H5. unfold record_observe.
    destruct (observe (lease r) t) as [l' b]. simpl in H1, H2, H3, H4, H5. rewrite <- H1. cbn [fst snd]. split.
    + eexists. split; [done|]. split_and!; simpl; try done; [|congruence..]. split; simpl; try done.
      apply H5; [|done]. intros t' ->. exact He.
    + subst b. destruct t as [t|]; [|destruct (status (lease r) =b? Active); simpl in H1; rewrite H1; naive_solver].
      destruct (if status l' =b? Active then _ else _); simpl; naive_solver.
  - split; [|split; [done|]; intros [_ [? ?]]; done].
    exists (record_revoke r). split_and!; simpl; try done; [|by destruct (status (lease r) =b? Active)].
    split; simpl; try done. by apply revoke_ok.
  - split; [|split; [done|]; intros [_ [? ?]]; done]. exists r. split_and!; try done.
    by destruct (status (lease r) =b? Active).
Qed.

Lemma lease_rel_run u p g start stored floor es :
  Forall event_ok es -> lease_rel u p g start stored floor ->
  lease_rel u p g start (run lease_step_event stored es)
    (foldl (floor_after (start + TEMPORARY_CREDENTIAL_TTL_SECONDS)) floor es).
Proof.
  intros Hes. revert stored floor. induction Hes as [|e es He Hes IH]; intros stored floor Hrel; [done|].
  simpl. apply IH. by apply lease_rel_step.
Qed.

Lemma issue_rel g start u p r :
  is_u64 g -> is_u64 start -> utf8_valid u = true -> utf8_valid p = true ->
  issue g (Some start) u p = Ok r -> lease_rel u p g start (encode_temporary_record r) (Some start).
Proof.
  intros Hg Hs Hu Hp H. unfold issue in H. destruct (invalid_material u p) eqn:Hm; [done|].
  destruct (activate g (Some start)) as [l|] eqn:Ha; [|done]. injection H as <-.
  exists {| lease := l; username := u; password := p |}. split; [done|].
  assert (lease_ok l) by (eapply activate_ok; [exact Hg| |exact Ha]; naive_solver).
  unfold activate in Ha. rust_cases in Ha. destruct (checked_add _ start _); simplify_eq/=. by split_and!.
Qed.

(** ** Properties *)

(** C15: A temporary grant is honoured exactly while it lasts.  Take any record
    issued at [start], and any sequence of observations, revocations and
    restarts, each restart going through the stored bytes.  Then the stored bytes
    still decode to a record of the same generation, user name, password and
    start, and a connection is admitted by the next event if and only if that
    event is an observation at some trusted time, and every observation so far,
    this one included, had a trusted time that was not before the previous one
    and lies less than 24 hours after [start], with no revocation in between.
    In particular nothing revives a grant that expired, was revoked, saw the
    clock go back or missed it, and restarting never extends it. *)
Theorem temporary_grant_exact g start u p r es e :
  is_u64 g -> is_u64 start -> utf8_valid u = true -> utf8_valid p = true ->
  issue g (Some start) u p = Ok r -> Forall event_ok es -> event_ok e ->
  let stored := run lease_step_event (encode_temporary_record r) es in
  (exists r', decode_temporary_record stored = Ok r' /\ username r' = u /\ password r' = p /\
     generation (lease r') = g /\ activated_at_unix_seconds (lease r') = start) /\
  ((lease_step_event stored e).1 = true <->
   (exists t, e = Observe (Some t)) /\
   is_Some (in_order start (start + TEMPORARY_CREDENTIAL_TTL_SECONDS) (es ++ [e]))).
Proof.
  intros Hg Hs Hu Hp Hi Hes He. cbv zeta.
  pose proof (lease_rel_run _ _ _ _ _ _ _ Hes (issue_rel _ _ _ _ _ Hg Hs Hu Hp Hi)) as Hrel. split.
  - destruct Hrel as (r' & -> & Hr & ? & ? & ? & ? & _). exists r'. by rewrite decode_encode_record.
  - destruct (lease_rel_step _ _ _ _ _ _ _ He Hrel) as [_ ->]. unfold in_order. rewrite foldl_snoc. tauto.
Qed.

(** The stored form of a record is canonical: decoding accepts exactly the
    encodings of well-formed records (a lease that lasts 24 hours with
    consistent times and status, and material in shape), and gives the record
    back.  Every other byte string, whatever its fields, is refused. *)
Theorem temporary_record_codec bytes r :
  decode_temporary_record bytes = Ok r <-> record_ok r /\ bytes = encode_temporary_record r.
Proof. split; [apply decode_record_ok|]. intros [Hr ->]. by apply decode_encode_record. Qed.

Definition demo_record : TemporaryCredentialRecord :=
  {| lease := {| generation := 5; activated_at_unix_seconds := 1800000000; expires_at_unix_seconds := 1800086400;
                 last_observed_unix_seconds := 1800000000; status := Active |};
     username := lit "guest"; password := lit "secret" |}.

(** Admitted one second before the deadline, after a restart. *)
Lemma temporary_grant_exact_witness :
  (lease_step_event (run lease_step_event (encode_temporary_record demo_record) [Observe (Some 1800050000); Restart])
     (Observe (Some 1800086399))).1 = true.
Proof.
  refine (proj2 (proj2 (temporary_grant_exact 5 1800000000 (lit "guest") (lit "secret") demo_record
    [Observe (Some 1800050000); Restart] (Observe (Some 1800086399)) _ _ _ _ _ _ _)) _).
  1-2: unfold in_width, u64_max; lia.
  1-3: vm_compute; reflexivity.
  - repeat constructor; unfold in_width, u64_max; lia.
  - unfold event_ok, in_width, u64_max. lia.
  - split; [by eexists|]. vm_compute. by eexists.
Defined.
