(* ===== verification/Configuration.v ===== *)
(** * Desired configuration

    Models [src/crates/configuration/src/lib.rs]: the accepted Mesh range, the
    readiness probe target and the control endpoint, with the deployment values
    of [src/config/deployment].  The theorems are what the rest of the program
    relies on: an accepted range always builds the Mesh endpoint owner, and an
    accepted host is always a domain the proxy will dial. *)

From Stdlib Require Import String.
From S2P Require Import Prelude Net RustStr Transport ProxyAuth Stream HttpConnect.

Definition MIN_MESH_ACCEPTED_PREFIX : Z := 8.
Definition READINESS_PROBE_PORT : Z := 443.
Definition CONTROL_PORT : Z := 443.
Definition CONTROL_DEVICE_PATH : str := lit "/v1/device/connect".

Definition DEPLOYMENT_MESH_ACCEPTED_CIDR_RAW : str := lit "100.96.0.0/12" ++ [10].
Definition DEPLOYMENT_READINESS_PROBE_HOST_RAW : str := lit "example.com" ++ [10].
Definition DEPLOYMENT_CONTROL_HOST_RAW : str := lit "mish.alegria.by" ++ [10].

Inductive DesiredConfigurationError :=
| InvalidMeshAcceptedCidr | UnsafeMeshAcceptedCidr | NonCanonicalMeshAcceptedCidr
| InvalidReadinessProbeTarget | InvalidControlTarget.

Record MeshAcceptedCidr := { cidr_network : Ipv4Addr; cidr_prefix : Z }.

Definition cidr_parse (raw : str) : result DesiredConfigurationError MeshAcceptedCidr :=
  if (raw =b? []) || (trim raw <>b? raw) then Err InvalidMeshAcceptedCidr
  else
    let? (network, prefix) := ok_or (split_once 47 raw) InvalidMeshAcceptedCidr in
    if contains_byte 47 prefix then Err InvalidMeshAcceptedCidr
    else
      let? network := ok_or (parse_ipv4 network) InvalidMeshAcceptedCidr in
      let? prefix := ok_or (parse_u8 prefix) InvalidMeshAcceptedCidr in
      if negb ((MIN_MESH_ACCEPTED_PREFIX <=? prefix) && (prefix <=? 32))
         || ipv4_is_unspecified network || ipv4_is_multicast network || (network =? ipv4_broadcast)
      then Err UnsafeMeshAcceptedCidr
      else
        let mask := Z.land (Z.shiftl u32_max (32 - prefix)) u32_max in
        if negb (Z.land network mask =? network) then Err NonCanonicalMeshAcceptedCidr
        else Ok {| cidr_network := network; cidr_prefix := prefix |}.

Definition cidr_deployment : result DesiredConfigurationError MeshAcceptedCidr :=
  cidr_parse (trim DEPLOYMENT_MESH_ACCEPTED_CIDR_RAW).

(** The test both host parsers apply to each label. *)
Definition label_refused (label : str) : bool :=
  (label =b? []) || (63 <? length label)%nat || starts_with [45] label || ends_with [45] label
  || negb (forallb (fun b => is_ascii_lowercase b || is_ascii_digit b || (b =? 45)) label).

Definition host_refused (raw : str) (port : Z) : bool :=
  (raw =b? []) || (trim raw <>b? raw) || (253 <? length raw)%nat || (port =? 0)
  || is_some (parse_ip raw) || negb (contains_byte 46 raw).

Record ReadinessProbeTarget := { probe_hostname : str; probe_port : Z }.

Definition probe_target_parse (raw : str) (port : Z) : result DesiredConfigurationError ReadinessProbeTarget :=
  if host_refused raw port then Err InvalidReadinessProbeTarget
  else if existsb label_refused (split_byte 46 raw) then Err InvalidReadinessProbeTarget
  else Ok {| probe_hostname := raw; probe_port := port |}.

Definition probe_target_deployment : result DesiredConfigurationError ReadinessProbeTarget :=
  probe_target_parse (trim DEPLOYMENT_READINESS_PROBE_HOST_RAW) READINESS_PROBE_PORT.

Record ControlEndpoint := { control_hostname : str; control_port : Z; control_path : str }.

Definition control_parse (hostname : str) (port : Z) (path : str)
    : result DesiredConfigurationError ControlEndpoint :=
  if host_refused hostname port || (path <>b? CONTROL_DEVICE_PATH) then Err InvalidControlTarget
  else if existsb label_refused (split_byte 46 hostname) then Err InvalidControlTarget
  else Ok {| control_hostname := hostname; control_port := port; control_path := path |}.

Definition control_deployment : result DesiredConfigurationError ControlEndpoint :=
  control_parse (trim DEPLOYMENT_CONTROL_HOST_RAW) CONTROL_PORT CONTROL_DEVICE_PATH.

(** ** Accepted hosts *)

Definition host_byte (b : Z) : bool := is_ascii_lowercase b || is_ascii_digit b || (b =? 45) || (b =? 46).

Lemma split_byte_bytes c s : Forall (fun l => forallb host_byte l = true) (split_byte c s) -> host_byte c = true ->
  forallb host_byte s = true.
Proof.
  intros H Hc. induction s as [|b s IH]; [done|]. simpl in H |- *.
  destruct (Z.eqb_spec b c) as [->|]; simpl in H.
  - rewrite Forall_cons_iff in H. rewrite Hc, IH by tauto. done.
  - destruct (split_byte c s) as [|w ws] eqn:E.
    + rewrite Forall_cons_iff in H. simpl in H. destruct H as [H _]. apply andb_true_iff in H as [-> _].
      by rewrite IH.
    + rewrite Forall_cons_iff in H. simpl in H. destruct H as [H Hw]. apply andb_true_iff in H as [-> H].
      rewrite IH; [done|]. by constructor.
Qed.

Lemma host_byte_graphic b : host_byte b = true ->
  is_ascii_graphic b = true /\ b <> 58 /\ b <> 91 /\ authority_forbidden b = false /\ is_u8 b.
Proof.
  unfold host_byte, is_ascii_lowercase, is_ascii_digit. intros H.
  assert (b = 45 \/ b = 46 \/ 48 <= b <= 57 \/ 97 <= b <= 122) as Hb.
  { rewrite !orb_true_iff, !between_true, !Z.eqb_eq in H. lia. }
  split_and!; try lia; [apply between_true; lia| |unfold in_width, u8_max; lia..].
  unfold authority_forbidden. rewrite !(proj2 (Z.eqb_neq b _)) by lia. done.
Qed.

(** A host both parsers accept is a domain the HTTP front end takes. *)
Lemma accepted_host raw port :
  host_refused raw port = false -> existsb label_refused (split_byte 46 raw) = false ->
  domain_ok raw /\ (length raw <= 253)%nat /\ Forall is_u8 raw /\ port <> 0.
Proof.
  unfold host_refused. intros Hr Hl. rust_bool.
  match goal with H : (_ <? _)%nat = false |- _ => apply Nat.ltb_ge in H; rename H into Hlen end.
  match goal with H : is_some (parse_ip raw) = false |- _ => rename H into Hip end.
  assert (forallb host_byte raw = true) as Hb.
  { apply (split_byte_bytes 46); [|done]. apply existsb_false in Hl. eapply Forall_impl; [|exact Hl].
    intros l Hlab. unfold label_refused in Hlab. apply orb_false_iff in Hlab as [_ Hlab%negb_false_iff].
    apply forallb_Forall. apply forallb_Forall in Hlab. eapply Forall_impl; [|exact Hlab]. intros b Hb. unfold host_byte. simpl in Hb. by rewrite Hb. }
  apply forallb_Forall in Hb.
  assert (forall P : Z -> Prop, (forall b, host_byte b = true -> P b) -> Forall P raw) as Hall
    by (intros P HP; eapply Forall_impl; [|exact Hb]; exact HP).
  split_and!; [|done|apply Hall; intros b ?; by apply host_byte_graphic|done].
  split_and!.
  - apply Hall. intros b ?. by apply host_byte_graphic.
  - destruct raw; [done|]. simpl. lia.
  - lia.
  - apply contains_byte_false, Hall. intros b ?. by apply host_byte_graphic.
  - apply existsb_false, Hall. intros b ?. by apply host_byte_graphic.
  - destruct raw as [|b raw]; [done|]. apply Forall_cons_iff in Hb as [Hb _]. apply host_byte_graphic in Hb as (_ & _ & Hb & _).
    cbn [strip_prefix]. by rewrite (proj2 (Z.eqb_neq 91 b)) by lia.
  - by destruct (parse_ip raw).
Qed.

Lemma probe_target_ok raw port t : probe_target_parse raw port = Ok t ->
  t = {| probe_hostname := raw; probe_port := port |} /\ host_refused raw port = false /\
  existsb label_refused (split_byte 46 raw) = false.
Proof.
  unfold probe_target_parse. destruct (host_refused raw port); [done|]. destruct (existsb _ _); [done|].
  by intros [= <-].
Qed.

(** ** Properties *)

(** Configuration and Transport agree on the accepted range: every CIDR the
    configuration accepts builds the Mesh endpoint owner, with that network and
    the mask of that prefix, and the range it names holds at least one address
    the owner can admit. *)
Theorem accepted_cidr_builds_owner raw c :
  cidr_parse raw = Ok c ->
  exists o, endpoint_owner_new (cidr_network c) (cidr_prefix c) = Ok o /\
  network (accepted o) = cidr_network c /\
  mask (accepted o) = Z.land (Z.shiftl u32_max (32 - cidr_prefix c)) u32_max /\
  cidr_contains (accepted o) (cidr_network c) = true.
Proof.
  intros H. unfold cidr_parse in H. destruct (_ || _); [done|].
  destruct (split_once 47 raw) as [[n p]|]; [|done]. cbn [ok_or result_bind] in H.
  destruct (contains_byte 47 p); [done|]. destruct (parse_ipv4 n) as [a|]; [|done]. cbn [ok_or result_bind] in H.
  destruct (parse_u8 p) as [pr|]; [|done]. cbn [ok_or result_bind] in H.
  destruct (_ || _) eqn:Hs; [done|]. apply orb_false_iff in Hs as [Hs Hb]. apply orb_false_iff in Hs as [Hs Hm].
  apply orb_false_iff in Hs as [Hp Hu].
  destruct (negb (Z.land a _ =? a)) eqn:Hc; [done|]. injection H as <-. cbn [cidr_network cidr_prefix].
  unfold endpoint_owner_new, cidr_new. change MIN_ACCEPTED_PREFIX with MIN_MESH_ACCEPTED_PREFIX. rewrite Hp, Hc.
  eexists. split_and!; [done|done|done|]. cbn [accepted]. unfold cidr_contains. cbn [mask network].
  rewrite Hu, Hm, Hb. cbn [negb andb]. by apply negb_false_iff in Hc.
Qed.

Lemma accepted_cidr_builds_owner_witness :
  exists o, endpoint_owner_new 1684013056 12 = Ok o /\ network (accepted o) = 1684013056 /\
  mask (accepted o) = Z.land (Z.shiftl u32_max 20) u32_max /\ cidr_contains (accepted o) 1684013056 = true.
Proof.
  apply (accepted_cidr_builds_owner (trim DEPLOYMENT_MESH_ACCEPTED_CIDR_RAW)
    {| cidr_network := 1684013056; cidr_prefix := 12 |}).
  vm_compute. reflexivity.
Defined.
