(* ===== verification/ReadinessProbe.v ===== *)
(** * The readiness network probe

    Models [src/crates/runtime/src/readiness_network.rs]: the CONNECT request the
    product sends to its own proxy, the reader of the response header and its
    classification.  Connecting, writing, flushing, the clock and the TLS client
    are the answers of the environment ([probe_env]).

    The property joins the probe to the session it talks to: what the probe
    reports is what the proxy decided. *)

From Stdlib Require Import String.
From S2P Require Import Prelude Net RustStr Transport ProxyAuth Stream Socks5 HttpConnect ProxySession Configuration Readiness.

Definition MAX_CONNECT_HEADER_BYTES : Z := 8192.
Definition CHUNK_BYTES : Z := 512.

Definition probe_authority (t : ReadinessProbeTarget) : str := probe_hostname t ++ lit ":" ++ to_decimal (probe_port t).

Definition probe_request (t : ReadinessProbeTarget) (c : ProxyCredentialMaterial) : str :=
  lit "CONNECT " ++ probe_authority t ++ lit " HTTP/1.1" ++ crlf
  ++ lit "Host: " ++ probe_authority t ++ crlf
  ++ lit "Proxy-Authorization: " ++ basic_authorization_value c ++ crlf
  ++ lit "Proxy-Connection: keep-alive" ++ crlf ++ crlf.

(** [windows(p.len()).position(|window| window == p)] *)
Fixpoint window_position (p s : str) : option nat :=
  if starts_with p s then Some 0%nat
  else match s with [] => None | _ :: s => S <$> window_position p s end.

(** The response as it arrives; the end of the list is end of file. *)
Inductive chunk_event := Chunk (bs : str) | ChunkError | ChunkTimeout.

Inductive chunk_result := ReadBytes (bs : str) | ReadFailed | ReadTimedOut.

(** A read into a buffer of [n] bytes; what does not fit is read next. *)
Definition read_chunk (n : nat) (evs : list chunk_event) : chunk_result * list chunk_event :=
  match evs with
  | [] => (ReadBytes [], [])
  | ChunkError :: evs => (ReadFailed, evs)
  | ChunkTimeout :: evs => (ReadTimedOut, evs)
  | Chunk bs :: evs =>
      (ReadBytes (take n bs), if decide (drop n bs = []) then evs else Chunk (drop n bs) :: evs)
  end.

Fixpoint read_connect_header_loop (fuel : nat) (response : str) (evs : list chunk_event)
    : option (result ProbeOutcome str) :=
  match fuel with
  | O => None
  | S fuel =>
      let len := Z.of_nat (length response) in
      if MAX_CONNECT_HEADER_BYTES <=? len then Some (Err TransportFailed)
      else
        let remaining := MAX_CONNECT_HEADER_BYTES - len in
        let chunk_len := Z.min remaining CHUNK_BYTES in
        match read_chunk (Z.to_nat chunk_len) evs with
        | (ReadFailed, _) => Some (Err TransportFailed)
        | (ReadTimedOut, _) => Some (Err Timeout)
        | (ReadBytes bs, evs) =>
            if (length bs =? 0)%nat then Some (Err TransportFailed)
            else
              let response := response ++ bs in
              match window_position [13; 10; 13; 10] response with
              | Some e => Some (Ok (take (e + 4) response))
              | None => read_connect_header_loop fuel response evs
              end
        end
  end.

(** Every turn but the last adds a byte. *)
Definition read_connect_header (evs : list chunk_event) : result ProbeOutcome str :=
  default (Err TransportFailed) (read_connect_header_loop (S (Z.to_nat MAX_CONNECT_HEADER_BYTES)) [] evs).

Definition classify_connect_header (header : str) : ProbeOutcome :=
  match window_position [13; 10] header with
  | None => TransportFailed
  | Some line_end =>
      let status_line := take line_end header in
      if negb (utf8_valid status_line) then TransportFailed
      else
        match split_whitespace status_line with
        | [] => TransportFailed
        | protocol :: parts =>
            match (match parts with [] => None | raw :: _ => parse_u16 raw end) with
            | None => TransportFailed
            | Some status =>
                if negb ((protocol =b? lit "HTTP/1.0") || (protocol =b? lit "HTTP/1.1")) then TransportFailed
                else if status =? 407 then AuthenticationFailed
                else if between 200 299 status then Readiness.Succeeded
                else TransportFailed
            end
        end
  end.

(** ** The probe *)

Inductive step_result := StepOk | StepFailed | StepTimeout.
Inductive ProductTlsError := InvalidServerName | Configuration | HandshakeFailed | DeadlineExceeded.

Record probe_env := {
  tcp_connect : step_result;
  write_request : step_result;
  flush_request : step_result;
  response_events : list chunk_event;
  remaining_is_zero : bool;
  tls_connect : result ProductTlsError unit }.

Definition step_outcome (s : step_result) : option ProbeOutcome :=
  match s with StepOk => None | StepFailed => Some TransportFailed | StepTimeout => Some Timeout end.

Definition tls_outcome (r : result ProductTlsError unit) : ProbeOutcome :=
  match r with
  | Ok _ => Readiness.Succeeded
  | Err DeadlineExceeded => Timeout
  | Err _ => TlsFailed
  end.

Definition execute_probe (e : probe_env) : ProbeOutcome :=
  match step_outcome (tcp_connect e) with
  | Some o => o
  | None =>
      match step_outcome (write_request e) with
      | Some o => o
      | None =>
          match step_outcome (flush_request e) with
          | Some o => o
          | None =>
              match read_connect_header (response_events e) with
              | Err o => o
              | Ok header =>
                  let connect := classify_connect_header header in
                  if connect <>b? Readiness.Succeeded then connect
                  else if remaining_is_zero e then Timeout
                  else tls_outcome (tls_connect e)
              end
          end
      end
  end.

(** ** The header reader *)

Definition chunk_bytes (evs : list chunk_event) : str :=
  concat ((fun ev => match ev with Chunk bs => bs | _ => [] end) <$> evs).

Definition nonempty_chunk (ev : chunk_event) : Prop :=
  match ev with Chunk bs => bs <> [] | _ => False end.

Lemma window_position_bound p s i : window_position p s = Some i -> (i + length p <= length s)%nat.
Proof.
  revert i. induction s as [|x s IH]; intros i H; cbn [window_position] in H.
  - destruct (starts_with p []) eqn:E; [|done]. injection H as <-. apply starts_with_true in E as [r E].
    symmetry in E. apply app_nil in E as [-> _]. done.
  - destruct (starts_with p (x :: s)) eqn:E.
    + injection H as <-. apply starts_with_true in E as [r E]. rewrite E, length_app. lia.
    + destruct (window_position p s) as [j|]; [|done]. injection H as <-. specialize (IH j eq_refl). simpl. lia.
Qed.

Lemma starts_with_app p a b : (length p <= length a)%nat -> starts_with p (a ++ b) = starts_with p a.
Proof.
  intros Hl. apply eq_true_iff_eq. rewrite !starts_with_true. split; intros [r E].
  - exists (drop (length p) a). apply (f_equal (take (length a))) in E.
    rewrite take_app_length, take_app_ge in E by lia. rewrite E at 2. rewrite drop_app_ge by lia.
    rewrite E at 1. f_equal. by rewrite Nat.sub_diag.
  - exists (r ++ b). by rewrite E, <- app_assoc.
Qed.

Lemma window_position_app p a b i : window_position p a = Some i -> window_position p (a ++ b) = Some i.
Proof.
  intros H. pose proof (window_position_bound _ _ _ H) as Hb. revert i H Hb.
  induction a as [|x a IH]; intros i H Hb; cbn [window_position app] in *.
  - destruct (starts_with p []) eqn:E; [|done]. injection H as <-. apply starts_with_true in E as [r E].
    symmetry in E. apply app_nil in E as [-> _]. by destruct b.
  - change (x :: a ++ b) with ((x :: a) ++ b). rewrite starts_with_app by (simpl in *; lia).
    destruct (starts_with p (x :: a)); [done|]. destruct (window_position p a) as [j|]; [|done].
    injection H as <-. rewrite (IH j eq_refl) by (simpl in Hb; lia). done.
Qed.

(** A header: its first empty line ends it. *)
Definition header_text (reply : str) : Prop :=
  window_position [13; 10; 13; 10] reply = Some (length reply - 4)%nat /\ (4 <= length reply)%nat /\
  Z.of_nat (length reply) <= MAX_CONNECT_HEADER_BYTES.

Lemma window_position_prefix reply a b :
  header_text reply -> a ++ b = reply -> b <> [] -> window_position [13; 10; 13; 10] a = None.
Proof.
  intros (Hw & H4 & _) <- Hb. destruct (window_position _ a) as [i|] eqn:E; [|done].
  pose proof (window_position_bound _ _ _ E) as Hi. rewrite (window_position_app _ _ _ _ E) in Hw. injection Hw as ->.
  rewrite length_app in *. simpl in Hi. destruct b; [done|]. simpl in *. lia.
Qed.

Lemma read_chunk_spec n evs : (0 < n)%nat -> Forall nonempty_chunk evs -> chunk_bytes evs <> [] ->
  exists bs evs', read_chunk n evs = (ReadBytes bs, evs') /\ bs <> [] /\
  bs ++ chunk_bytes evs' = chunk_bytes evs /\ Forall nonempty_chunk evs'.
Proof.
  intros Hn Hev Hne. destruct Hev as [|[bs| |] evs Hc Hev]; [done| |done..]. simpl in Hc.
  eexists _, _. split; [reflexivity|]. split_and!.
  - destruct bs, n; done || lia.
  - unfold chunk_bytes. case_decide as Hd.
    + cbn [fmap list_fmap concat]. rewrite <- (take_drop n bs) at 2. by rewrite Hd, app_nil_r.
    + cbn [fmap list_fmap concat]. by rewrite app_assoc, take_drop.
  - case_decide; [done|]. by constructor.
Qed.

Lemma read_header_chunks fuel reply extra response rest evs :
  header_text reply -> Forall nonempty_chunk evs ->
  reply = response ++ rest -> rest <> [] -> response ++ chunk_bytes evs = reply ++ extra ->
  (length rest < fuel)%nat -> read_connect_header_loop fuel response evs = Some (Ok reply).
Proof.
  intros Hh. pose proof Hh as (Hw & H4 & Hmax).
  revert response rest evs. induction fuel as [|fuel IH]; intros response rest evs Hev Hr Hne Heq Hf; [lia|].
  cbn [read_connect_header_loop]. cbv zeta.
  assert (length reply = length response + length rest)%nat as Hlen by (by rewrite Hr, length_app).
  assert (0 < length rest)%nat by (destruct rest; [done|simpl; lia]).
  rewrite (proj2 (Z.leb_gt _ _)) by lia.
  rewrite Hr, <- app_assoc in Heq. apply app_inv_head in Heq.
  destruct (read_chunk_spec (Z.to_nat (Z.min (MAX_CONNECT_HEADER_BYTES - Z.of_nat (length response)) CHUNK_BYTES)) evs)
    as (bs & evs' & -> & Hbs & Hcb & Hev'); [unfold CHUNK_BYTES; lia|done|rewrite Heq; by destruct rest|].
  rewrite (proj2 (Nat.eqb_neq (length bs) 0)) by (by destruct bs). rewrite <- Hcb in Heq.
  destruct (decide (length rest <= length bs)%nat) as [Hge|Hlt].
  - assert (bs = rest ++ drop (length rest) bs) as Hd.
    { rewrite <- (take_drop (length rest) bs) at 1. f_equal. apply (f_equal (take (length rest))) in Heq.
      rewrite take_app_le, take_app_length in Heq by done. done. }
    rewrite Hd, app_assoc, <- Hr. rewrite (window_position_app _ _ _ _ Hw).
    replace (length reply - 4 + 4)%nat with (length reply) by lia. by rewrite take_app_length.
  - assert (rest = bs ++ drop (length bs) rest) as Hd.
    { rewrite <- (take_drop (length bs) rest) at 1. f_equal. apply (f_equal (take (length bs))) in Heq.
      rewrite take_app_length, take_app_le in Heq by lia. done. }
    assert (drop (length bs) rest <> []) as Hdn.
    { intros E. apply (f_equal length) in E. rewrite length_drop in E. simpl in E. lia. }
    rewrite (window_position_prefix reply (response ++ bs) (drop (length bs) rest)); [|done| |done].
    2: { by rewrite <- app_assoc, <- Hd. }
    apply (IH _ (drop (length bs) rest)); [done|by rewrite <- app_assoc, <- Hd|done| |].
    + rewrite <- !app_assoc, Heq. by rewrite Hr, <- app_assoc.
    + rewrite length_drop. destruct bs; [done|]. simpl in *. lia.
Qed.

Lemma read_header_reply reply extra evs :
  header_text reply -> Forall nonempty_chunk evs -> chunk_bytes evs = reply ++ extra ->
  read_connect_header evs = Ok reply.
Proof.
  intros Hh Hev Heq. pose proof Hh as (_ & H4 & Hmax). unfold read_connect_header.
  rewrite (read_header_chunks _ reply extra [] reply); try done.
  - intros ->. simpl in H4. lia.
  - lia.
Qed.

(** ** The request and the replies *)

Definition host_line (t : ReadinessProbeTarget) : str := lit "Host: " ++ probe_authority t.
Definition keep_alive_line : str := lit "Proxy-Connection: keep-alive".

Lemma probe_request_eq t m :
  probe_request t m =
  connect_request (probe_hostname t ++ 58 :: to_decimal (probe_port t))
    ([host_line t] ++ authorization_line (basic_value (username m) (password m)) :: [keep_alive_line]).
Proof.
  unfold probe_request, connect_request, host_line, authorization_line, request_line_of, basic_value,
    basic_authorization_value, probe_authority, keep_alive_line. destruct m as [u p]. cbn [username password join fmap list_fmap concat app].
  change (lit ":" ++ to_decimal (probe_port t)) with (58 :: to_decimal (probe_port t)).
  unfold crlf, keep_alive_line. repeat (rewrite <- !app_assoc; cbn [app]). by rewrite ?app_nil_r.
Qed.

Lemma keep_alive_other : other_header keep_alive_line.
Proof.
  split; [by apply lit_range|]. exists (lit "Proxy-Connection"), (lit " keep-alive"). split_and!; [reflexivity|done|reflexivity..].
Qed.

Lemma host_line_other t : printable (probe_hostname t) -> other_header (host_line t).
Proof.
  intros Hp. unfold host_line, probe_authority. split.
  - apply Forall_app. split; [by apply lit_range|]. apply printable_range. apply Forall_app. split; [done|].
    constructor; [done|]. apply digits_printable, to_decimal_digits.
  - exists (lit "Host"), (32 :: probe_hostname t ++ lit ":" ++ to_decimal (probe_port t)).
    split_and!; [|done|reflexivity..]. apply split_once_Some. split; reflexivity.
Qed.

(** What the session writes, and how the probe reads it. *)
Lemma established_reply : header_text http_established /\ classify_connect_header http_established = Readiness.Succeeded.
Proof. split; [|reflexivity]. split; [reflexivity|]. vm_compute. split; [lia|discriminate]. Qed.

Lemma outbound_failure_reply e :
  header_text (http_close (outbound_status e)) /\ classify_connect_header (http_close (outbound_status e)) = TransportFailed.
Proof. destruct e; (split; [|reflexivity]; split; [reflexivity|]; vm_compute; split; [lia|discriminate]). Qed.

Lemma auth_required_reply : header_text http_auth_required /\ classify_connect_header http_auth_required = AuthenticationFailed.
Proof. split; [|reflexivity]. split; [reflexivity|]. vm_compute. split; [lia|discriminate]. Qed.

(** The probe after a reply of the proxy. *)
Lemma execute_probe_reply e reply extra :
  header_text reply -> tcp_connect e = StepOk -> write_request e = StepOk -> flush_request e = StepOk ->
  Forall nonempty_chunk (response_events e) -> chunk_bytes (response_events e) = reply ++ extra ->
  execute_probe e =
  if classify_connect_header reply =b? Readiness.Succeeded
  then if remaining_is_zero e then Timeout else tls_outcome (tls_connect e)
  else classify_connect_header reply.
Proof.
  intros Hh H1 H2 H3 Hev Heq. unfold execute_probe. rewrite H1, H2, H3. cbn [step_outcome].
  rewrite (read_header_reply reply extra) by done. by destruct (classify_connect_header reply).
Qed.

Lemma replies_short r : (length (session_reply Http r) <= 200)%nat /\ (length http_auth_required <= 200)%nat.
Proof. split; [destruct r as [|[]]|]; vm_compute; lia. Qed.

Lemma write_reply_fits {E} (f : io_error -> E) reply rest out rm :
  (length reply <= rm)%nat ->
  io_map_err f (write_all reply) (clean rest out rm) = (Ok tt, clean rest (out ++ reply) (rm - length reply)).
Proof. intros H. unfold io_map_err. by rewrite write_all_clean. Qed.

(** What the HTTP session does with the probe's request. *)
Lemma session_on_probe {A} `{AuthenticatorLaws A} (c : A) connect raw port t m rest s :
  probe_target_parse raw port = Ok t -> is_u16 port ->
  Forall is_u8 (username m) -> Forall is_u8 (password m) ->
  Z.of_nat (length (probe_request t m)) <= MAX_HTTP_CONNECT_HEADER_BYTES ->
  pending s = (RByte <$> probe_request t m) ++ rest -> (200 <= room s)%nat ->
  let target := {| host := HostDomain raw; target_port := port |} in
  let granted := matches_http_basic c (basic_authorization_value m) in
  let reply := if granted then session_reply Http (connect target) else http_auth_required in
  let '(r, s', calls, shut) := prepare_proxy_session c connect Http s in
  output s' = output s ++ reply /\ calls = if granted then [target] else [].
Proof.
  intros Ht Hport Hu Hp Hl Hpend Hroom. cbv zeta. apply probe_target_ok in Ht as (-> & Hh & Hlab).
  destruct (accepted_host raw port Hh Hlab) as (Hd & _ & Hraw & Hp0).
  rewrite probe_request_eq in *. cbn [probe_hostname probe_port] in *.
  unfold prepare_proxy_session, prepare_proxy_session_inner. cbn [accept_target].
  rewrite (http_request_read c s raw port (username m) (password m)
    [host_line {| probe_hostname := raw; probe_port := port |}] [keep_alive_line] rest);
    [|done|done|done|unfold in_width in Hport; lia| | |done|done].
  2: { constructor; [|constructor]. apply host_line_other. apply Hd. }
  2: { constructor; [|constructor]. apply keep_alive_other. }
  assert (basic_value (username m) (password m) = basic_authorization_value m) as -> by (by destruct m).
  destruct (replies_short (connect {| host := HostDomain raw; target_port := port |})) as [Hs1 Hs2].
  destruct (matches_http_basic c (basic_authorization_value m)).
  - destruct (connect _) as [up|e]; cbn [session_reply] in *;
      unfold fail_after, write_connect_success, write_outbound_failure, io_bind; by rewrite write_reply_fits by lia.
  - unfold fail_after, write_http_protocol_failure, io_bind. cbn [http_failure_response].
    by rewrite write_reply_fits by lia.
Qed.

(** ** Properties *)

(** The readiness probe reports what the proxy decided.  Take any configured
    probe target and any credential whose request fits the header limit.  When
    the HTTP session receives the probe's request, it dials exactly the probed
    host and port if it grants the credential and nothing otherwise; and when the
    probe then reads that session's reply, however it is cut into chunks, it
    reports an authentication failure exactly when the credential is refused, a
    transport failure when the dial fails, and otherwise the outcome of the TLS
    handshake (or a timeout when no time is left for it). *)
Theorem probe_reports_proxy_decision {A} `{AuthenticatorLaws A} (c : A) connect raw port t m rest s e extra :
  probe_target_parse raw port = Ok t -> is_u16 port ->
  Forall is_u8 (username m) -> Forall is_u8 (password m) ->
  Z.of_nat (length (probe_request t m)) <= MAX_HTTP_CONNECT_HEADER_BYTES ->
  pending s = (RByte <$> probe_request t m) ++ rest -> output s = [] -> (200 <= room s)%nat ->
  let target := {| host := HostDomain raw; target_port := port |} in
  let granted := matches_http_basic c (basic_authorization_value m) in
  let '(r, s', calls, shut) := prepare_proxy_session c connect Http s in
  calls = (if granted then [target] else []) /\
  (tcp_connect e = StepOk -> write_request e = StepOk -> flush_request e = StepOk ->
   Forall nonempty_chunk (response_events e) -> chunk_bytes (response_events e) = output s' ++ extra ->
   execute_probe e =
   if granted then
     match connect target with
     | Ok _ => if remaining_is_zero e then Timeout else tls_outcome (tls_connect e)
     | Err _ => TransportFailed
     end
   else AuthenticationFailed).
Proof.
  intros Ht Hport Hu Hp Hl Hpend Hout Hroom.
  pose proof (session_on_probe c connect raw port t m rest s Ht Hport Hu Hp Hl Hpend Hroom) as Hs. cbv zeta in *.
  destruct (prepare_proxy_session c connect Http s) as [[[r s'] calls] shut]. destruct Hs as [Ho ->].
  split; [done|]. intros H1 H2 H3 Hev Heq. rewrite Ho, Hout in Heq. cbn [app] in Heq.
  destruct (matches_http_basic c (basic_authorization_value m)); [destruct (connect _) as [up|err]|]; cbn [session_reply] in Heq.
  - destruct established_reply as [Hh Hc]. by rewrite (execute_probe_reply e _ extra Hh H1 H2 H3 Hev Heq), Hc.
  - destruct (outbound_failure_reply err) as [Hh Hc]. by rewrite (execute_probe_reply e _ extra Hh H1 H2 H3 Hev Heq), Hc.
  - destruct auth_required_reply as [Hh Hc]. by rewrite (execute_probe_reply e _ extra Hh H1 H2 H3 Hev Heq), Hc.
Qed.

Definition demo_probe_target : ReadinessProbeTarget := {| probe_hostname := lit "example.com"; probe_port := 443 |}.

Definition demo_probe_stream : stream := clean (RByte <$> probe_request demo_probe_target demo_primary) [] 500.

(** The reply in two chunks. *)
Definition demo_probe_env : probe_env :=
  {| tcp_connect := StepOk; write_request := StepOk; flush_request := StepOk;
     response_events := [Chunk (take 7 http_established); Chunk (drop 7 http_established)];
     remaining_is_zero := false; tls_connect := Err HandshakeFailed |}.

Lemma probe_reports_proxy_decision_witness : execute_probe demo_probe_env = TlsFailed.
Proof.
  pose proof (probe_reports_proxy_decision demo_primary demo_connect (lit "example.com") 443 demo_probe_target demo_primary
    [] demo_probe_stream demo_probe_env []) as Hw.
  assert (prepare_proxy_session demo_primary demo_connect Http demo_probe_stream =
    (Ok (Some {| sa_ip := IpV4 167772161; sa_port := 40000 |}), clean [] http_established (500 - length http_established),
     [{| host := HostDomain (lit "example.com"); target_port := 443 |}], false)) as Hp by (vm_compute; reflexivity).
  cbv zeta in Hw. rewrite Hp in Hw. destruct Hw as [_ Hw].
  - vm_compute. reflexivity.
  - unfold in_width, u16_max. lia.
  - repeat constructor; vm_compute; congruence.
  - repeat constructor; vm_compute; congruence.
  - vm_compute. congruence.
  - by rewrite app_nil_r.
  - reflexivity.
  - unfold demo_probe_stream. simpl. lia.
  - rewrite Hw; [vm_compute; reflexivity|reflexivity..| |].
    + constructor; [vm_compute; discriminate|]. constructor; [vm_compute; discriminate|constructor].
    + vm_compute. reflexivity.
Defined.
