(* ===== verification/Control.v ===== *)
(** * The remote-control protocol

    Models [src/crates/control/src/lib.rs]: validation of what the server sends,
    the authentication payload, the conversion of a DER signature to the fixed
    64-byte form, and the messages the device sends.  SHA-256 ([ring]) and JSON
    ([serde_json]) are parameters. *)

From Stdlib Require Import String.
From S2P Require Import Prelude Net RustStr ProxyAuth.

Definition CONTROL_PROTOCOL_VERSION : Z := 1.
Definition CONTROL_AUTH_DOMAIN : str := lit "MISH_CONTROL_AUTH_V1".
Definition CONTROL_DEVICE_ID_HEX_BYTES : nat := 64.
Definition CONTROL_NONCE_B64URL_BYTES : nat := 43.
Definition CONTROL_REQUEST_ID_MAX_BYTES : nat := 64.
Definition CONTROL_WIRE_MAX_BYTES : Z := 2048.
Definition CONTROL_PUBLIC_SPKI_MAX_BYTES : Z := 512.
Definition CONTROL_SIGNATURE_P1363_BYTES : nat := 64.

Inductive ControlProtocolError :=
| UnsupportedVersion | InvalidPublicKey | InvalidDeviceId | InvalidBase64Url | InvalidRequestId
| InvalidOperationId | InvalidProxyConnection | InvalidSignature | MalformedWireMessage | WireMessageTooLarge.

Inductive ServerControlMessage :=
| Challenge (nonce : str)
| Ready
| RotateIp (request_id : str)
| GetProxy (request_id : str)
| ResultAck (request_id : str).

Inductive RemoteRotationResult := Changed | Unchanged | FailedRotation | RejectedRotation.

Definition rotation_code (r : RemoteRotationResult) : str :=
  match r with
  | Changed => lit "CHANGED"
  | Unchanged => lit "UNCHANGED"
  | FailedRotation => lit "FAILED"
  | RejectedRotation => lit "REJECTED"
  end.

Inductive RemoteProxyReason := NotReady | ProxyUnavailable | CredentialUnavailable | InternalError.

Definition reason_code (r : RemoteProxyReason) : str :=
  match r with
  | NotReady => lit "NOT_READY"
  | ProxyUnavailable => lit "PROXY_UNAVAILABLE"
  | CredentialUnavailable => lit "CREDENTIAL_UNAVAILABLE"
  | InternalError => lit "INTERNAL_ERROR"
  end.

(** The messages as [serde] sees them. *)
Inductive WireServerMessage :=
| WireChallenge (v : Z) (nonce : str)
| WireReady (v : Z)
| WireRotateIp (v : Z) (request_id : str)
| WireGetProxy (v : Z) (request_id : str)
| WireResultAck (v : Z) (request_id : str).

Inductive wire_message :=
| WireAuth (v : Z) (message_type device_id signature : str)
| WireAccepted (v : Z) (message_type request_id : str) (operation_id : Z)
| WireResult (v : Z) (message_type request_id result : str) (operation_id : option Z)
| WireProxyReady (v : Z) (message_type request_id : str) (ready : bool) (host : str)
    (mixed_port socks5_port http_port : Z) (username password : str)
| WireProxyUnavailable (v : Z) (message_type request_id : str) (ready : bool) (reason : str).

(** ** Encodings *)

Definition HEX : str := lit "0123456789abcdef".

Fixpoint encode_hex (bytes : list Z) : str :=
  match bytes with
  | [] => []
  | b :: bytes => nth (Z.to_nat (Z.shiftr b 4)) HEX 0 :: nth (Z.to_nat (Z.land b 15)) HEX 0 :: encode_hex bytes
  end.

Definition STANDARD : str := lit "ABCDEFGHIJKLMNOPQRSTUVWXYZabcdefghijklmnopqrstuvwxyz0123456789+/".
Definition URL_SAFE : str := lit "ABCDEFGHIJKLMNOPQRSTUVWXYZabcdefghijklmnopqrstuvwxyz0123456789-_".

(** [url_safe] selects the alphabet, [padding] the trailing equal signs. *)
Fixpoint encode_base64 (bytes : list Z) (url_safe padding : bool) : str :=
  let alphabet := if url_safe then URL_SAFE else STANDARD in
  let push i := nth (Z.to_nat i) alphabet 0 in
  let pad := if padding then [61] else [] in
  match bytes with
  | [] => []
  | [a] => [push (Z.shiftr a 2); push (Z.lor (Z.shiftl (Z.land a 3) 4) (Z.shiftr 0 4))] ++ pad ++ pad
  | [a; b] =>
      [push (Z.shiftr a 2); push (Z.lor (Z.shiftl (Z.land a 3) 4) (Z.shiftr b 4));
       push (Z.lor (Z.shiftl (Z.land b 15) 2) (Z.shiftr 0 6))] ++ pad
  | a :: b :: c :: rest =>
      push (Z.shiftr a 2) :: push (Z.lor (Z.shiftl (Z.land a 3) 4) (Z.shiftr b 4))
      :: push (Z.lor (Z.shiftl (Z.land b 15) 2) (Z.shiftr c 6)) :: push (Z.land c 63)
      :: encode_base64 rest url_safe padding
  end.

(** ** Validation *)

Definition is_token_byte (b : Z) : bool := is_ascii_alphanumeric b || (b =? 45) || (b =? 95).

Definition validate_request_id (id : str) : result ControlProtocolError unit :=
  if (id =b? []) || (CONTROL_REQUEST_ID_MAX_BYTES <? length id)%nat || negb (forallb is_token_byte id)
  then Err InvalidRequestId else Ok tt.

Definition validate_wire_text (raw : str) : result ControlProtocolError unit :=
  if (raw =b? []) || (CONTROL_WIRE_MAX_BYTES <? Z.of_nat (length raw)) || (trim raw <>b? raw)
     || existsb (fun b => b =? 0) raw
  then Err MalformedWireMessage else Ok tt.

Definition require_version (v : Z) : result ControlProtocolError unit :=
  if v =? CONTROL_PROTOCOL_VERSION then Ok tt else Err UnsupportedVersion.

Definition is_ascii_hexdigit (b : Z) : bool := is_ascii_digit b || between 65 70 b || between 97 102 b.

Definition validate_device_id (id : str) : result ControlProtocolError unit :=
  if (length id =? CONTROL_DEVICE_ID_HEX_BYTES)%nat
     && forallb (fun b => is_ascii_hexdigit b && negb (is_ascii_uppercase b)) id
  then Ok tt else Err InvalidDeviceId.

Definition validate_b64url (value : str) (exact_len : nat) : result ControlProtocolError unit :=
  if (length value =? exact_len)%nat && forallb is_token_byte value then Ok tt else Err InvalidBase64Url.

Definition validate_nonce (nonce : str) : result ControlProtocolError unit :=
  validate_b64url nonce CONTROL_NONCE_B64URL_BYTES.

(** ** DER signatures *)

Definition take_byte (der : list Z) (cursor : Z) : result ControlProtocolError (Z * Z) :=
  let? byte := ok_or (der !! Z.to_nat cursor) InvalidSignature in
  let? cursor := ok_or (checked_add usize_max cursor 1) InvalidSignature in
  Ok (byte, cursor).

(** The [for _ in 0..bytes] loop. *)
Fixpoint take_length_bytes (der : list Z) (n : nat) (length' cursor : Z) : result ControlProtocolError (Z * Z) :=
  match n with
  | O => Ok (length', cursor)
  | S n =>
      let? value := ok_or (checked_mul usize_max length' 256) InvalidSignature in
      let? (byte, cursor) := take_byte der cursor in
      let? length' := ok_or (checked_add usize_max value byte) InvalidSignature in
      take_length_bytes der n length' cursor
  end.

Definition take_der_length (der : list Z) (cursor : Z) : result ControlProtocolError (Z * Z) :=
  let? (first, cursor) := take_byte der cursor in
  if Z.land first 128 =? 0 then Ok (first, cursor)
  else
    let bytes := Z.land first 127 in
    if (bytes =? 0) || (2 <? bytes) then Err InvalidSignature
    else
      let? (length', cursor) := take_length_bytes der (Z.to_nat bytes) 0 cursor in
      if length' <? 128 then Err InvalidSignature else Ok (length', cursor).

Definition take_der_integer (der : list Z) (cursor : Z) : result ControlProtocolError (list Z * Z) :=
  let? (tag, cursor) := take_byte der cursor in
  if negb (tag =? 2) then Err InvalidSignature
  else
    let? (len, cursor) := take_der_length der cursor in
    let? end' := ok_or (checked_add usize_max cursor len) InvalidSignature in
    if Z.of_nat (length der) <? end' then Err InvalidSignature
    else
      let value := take (Z.to_nat (end' - cursor)) (drop (Z.to_nat cursor) der) in
      match value with
      | [] => Err InvalidSignature
      | v0 :: more =>
          if negb (Z.land v0 128 =? 0) then Err InvalidSignature
          else
            match more with
            | v1 :: _ => if (v0 =? 0) && (Z.land v1 128 =? 0) then Err InvalidSignature else Ok (value, end')
            | [] => Ok (value, end')
            end
      end.

Definition copy_integer_32 (value : list Z) : result ControlProtocolError (list Z) :=
  let value := match value with 0 :: rest => rest | _ => value end in
  if (value =b? []) || (32 <? length value)%nat then Err InvalidSignature
  else Ok (replicate (32 - length value) 0 ++ value).

Definition p256_der_signature_to_p1363 (der : list Z) : result ControlProtocolError (list Z) :=
  let? (tag, cursor) := take_byte der 0 in
  if negb (tag =? 48) then Err InvalidSignature
  else
    let? (sequence_len, cursor) := take_der_length der cursor in
    if checked_add usize_max cursor sequence_len <>b? Some (Z.of_nat (length der)) then Err InvalidSignature
    else
      let? (r, cursor) := take_der_integer der cursor in
      let? (s, cursor) := take_der_integer der cursor in
      if negb (cursor =? Z.of_nat (length der)) then Err InvalidSignature
      else
        let? r := copy_integer_32 r in
        let? s := copy_integer_32 s in
        Ok (r ++ s).

Definition p256_der_signature_to_p1363_b64url (der : list Z) : result ControlProtocolError str :=
  let? signature := p256_der_signature_to_p1363 der in
  Ok (encode_base64 signature true false).

(** ** Messages *)

Section protocol.
Context (sha256 : list Z -> list Z) (json_parse : str -> option WireServerMessage)
  (json_print : wire_message -> str).

Record ControlDeviceIdentity := { device_id : str; public_key_spki : list Z }.

Definition from_public_key_spki (spki : list Z) : result ControlProtocolError ControlDeviceIdentity :=
  if (spki =b? []) || (CONTROL_PUBLIC_SPKI_MAX_BYTES <? Z.of_nat (length spki)) then Err InvalidPublicKey
  else Ok {| device_id := encode_hex (sha256 spki); public_key_spki := spki |}.

Definition public_key_spki_b64 (i : ControlDeviceIdentity) : str := encode_base64 (public_key_spki i) false true.

Definition parse_server_message (raw : str) : result ControlProtocolError ServerControlMessage :=
  let? _ := validate_wire_text raw in
  let? message := ok_or (json_parse raw) MalformedWireMessage in
  match message with
  | WireChallenge v nonce => let? _ := require_version v in let? _ := validate_nonce nonce in Ok (Challenge nonce)
  | WireReady v => let? _ := require_version v in Ok Ready
  | WireRotateIp v id => let? _ := require_version v in let? _ := validate_request_id id in Ok (RotateIp id)
  | WireGetProxy v id => let? _ := require_version v in let? _ := validate_request_id id in Ok (GetProxy id)
  | WireResultAck v id => let? _ := require_version v in let? _ := validate_request_id id in Ok (ResultAck id)
  end.

Definition canonical_auth_payload (id nonce : str) : result ControlProtocolError (list Z) :=
  let? _ := validate_device_id id in
  let? _ := validate_nonce nonce in
  Ok (CONTROL_AUTH_DOMAIN ++ [10] ++ id ++ [10] ++ nonce).

Definition encode_wire (m : wire_message) : result ControlProtocolError str :=
  let encoded := json_print m in
  if CONTROL_WIRE_MAX_BYTES <? Z.of_nat (length encoded) then Err WireMessageTooLarge else Ok encoded.

Definition encode_auth_message (id signature : str) : result ControlProtocolError str :=
  let? _ := validate_device_id id in
  let? _ := validate_b64url signature 86 in
  encode_wire (WireAuth CONTROL_PROTOCOL_VERSION (lit "AUTH") id signature).

Definition encode_accepted_message (request_id : str) (operation_id : Z) : result ControlProtocolError str :=
  let? _ := validate_request_id request_id in
  if operation_id =? 0 then Err InvalidOperationId
  else encode_wire (WireAccepted CONTROL_PROTOCOL_VERSION (lit "ACCEPTED") request_id operation_id).

Definition encode_result_message (request_id : str) (r : RemoteRotationResult) (operation_id : option Z)
    : result ControlProtocolError str :=
  let? _ := validate_request_id request_id in
  if operation_id =b? Some 0 then Err InvalidOperationId
  else encode_wire (WireResult CONTROL_PROTOCOL_VERSION (lit "RESULT") request_id (rotation_code r) operation_id).

Definition encode_proxy_ready_message (request_id host : str) (mixed_port socks5_port http_port : Z) (u p : str)
    : result ControlProtocolError str :=
  let? _ := validate_request_id request_id in
  if is_none (parse_ipv4 host) || (mixed_port =? 0) || (socks5_port =? 0) || (http_port =? 0) || (u =b? []) || (p =b? [])
  then Err InvalidProxyConnection
  else encode_wire (WireProxyReady CONTROL_PROTOCOL_VERSION (lit "PROXY") request_id true host
                      mixed_port socks5_port http_port u p).

Definition encode_proxy_unavailable_message (request_id : str) (r : RemoteProxyReason)
    : result ControlProtocolError str :=
  let? _ := validate_request_id request_id in
  encode_wire (WireProxyUnavailable CONTROL_PROTOCOL_VERSION (lit "PROXY") request_id false (reason_code r)).
End protocol.

(** ** Positions in a DER string *)

(** The bytes from [cursor] on are [rest]. *)
Definition der_at (der : list Z) (cursor : Z) (rest : list Z) : Prop :=
  exists pre, der = pre ++ rest /\ cursor = Z.of_nat (length pre).

Lemma der_at_start der : der_at der 0 der.
Proof. by exists []. Qed.

Lemma der_at_app der cur a b : der_at der cur (a ++ b) -> der_at der (cur + Z.of_nat (length a)) b.
Proof.
  intros (pre & -> & ->). exists (pre ++ a). rewrite <- app_assoc, length_app. split; [done|lia].
Qed.

Lemma der_at_cons der cur b rest : der_at der cur (b :: rest) -> der_at der (cur + 1) rest.
Proof. apply (der_at_app der cur [b]). Qed.

Lemma der_at_length der cur rest : der_at der cur rest -> cur + Z.of_nat (length rest) = Z.of_nat (length der).
Proof. intros (pre & -> & ->). rewrite length_app. lia. Qed.

Lemma der_at_bytes der cur rest : Forall is_u8 der -> der_at der cur rest -> Forall is_u8 rest.
Proof. intros H (pre & -> & _). by apply Forall_app in H as [_ ?]. Qed.

Lemma der_at_end der cur rest : der_at der cur rest -> cur = Z.of_nat (length der) -> rest = [].
Proof. intros H%der_at_length ->. destruct rest; [done|]. simpl in H. lia. Qed.

Lemma der_at_drop der cur rest : der_at der cur rest -> drop (Z.to_nat cur) der = rest.
Proof. intros (pre & -> & ->). by rewrite Nat2Z.id, drop_app_length. Qed.

Section der.
Context (der : list Z) (der_bytes : Forall is_u8 der) (der_size : Z.of_nat (length der) <= usize_max).

Lemma take_byte_spec cur rest : der_at der cur rest ->
  take_byte der cur = match rest with [] => Err InvalidSignature | b :: _ => Ok (b, cur + 1) end.
Proof using der_size.
  intros Hat. pose proof (der_at_length _ _ _ Hat) as Hl. destruct Hat as (pre & Hd & Hc). unfold take_byte.
  rewrite Hd, Hc, Nat2Z.id. destruct rest as [|b rest].
  - rewrite app_nil_r, lookup_ge_None_2 by done. done.
  - rewrite list_lookup_middle by done. cbn [ok_or result_bind]. unfold checked_add.
    rewrite (proj2 (Z.leb_le _ _)) by (simpl in Hl; lia). done.
Qed.

(** The short form is the only one for lengths below 128. *)
Lemma take_der_length_short cur rest len cur' :
  der_at der cur rest -> take_der_length der cur = Ok (len, cur') -> len < 128 ->
  exists rest', rest = len :: rest' /\ cur' = cur + 1.
Proof using der_size.
  intros Hat H Hlt. unfold take_der_length in H. rewrite (take_byte_spec _ _ Hat) in H.
  destruct rest as [|b rest]; [done|]. cbn [result_bind] in H.
  destruct (Z.land b 128 =? 0); [by injection H as <- <-; eauto|].
  destruct (_ || _); [done|]. destruct (take_length_bytes _ _ _ _) as [[l c]|]; [|done]. cbn [result_bind] in H.
  destruct (Z.ltb_spec l 128); [done|]. injection H as <- _. lia.
Qed.

Lemma take_der_length_ok cur len rest :
  der_at der cur (len :: rest) -> 0 <= len < 128 -> take_der_length der cur = Ok (len, cur + 1).
Proof using der_size.
  intros Hat Hl. unfold take_der_length. rewrite (take_byte_spec _ _ Hat). cbn [result_bind].
  rewrite high_bit by (unfold in_width, u8_max; lia). by rewrite (proj2 (Z.ltb_lt len 128)) by lia.
Qed.

Lemma take_byte_at cur rest b c : der_at der cur rest -> take_byte der cur = Ok (b, c) -> exists rest', der_at der c rest'.
Proof using der_size.
  intros Hat H. rewrite (take_byte_spec _ _ Hat) in H. destruct rest as [|x rest]; [done|]. injection H as <- <-.
  exists rest. by apply der_at_cons in Hat.
Qed.

Lemma take_der_length_at cur rest len c :
  der_at der cur rest -> take_der_length der cur = Ok (len, c) -> exists rest', der_at der c rest'.
Proof using der_size.
  intros Hat H. unfold take_der_length in H. destruct (take_byte der cur) as [[b c1]|] eqn:Hb; [|done].
  destruct (take_byte_at _ _ _ _ Hat Hb) as (rest1 & Hat1). cbn [result_bind] in H.
  destruct (Z.land b 128 =? 0); [injection H as <- <-; eauto|]. destruct (_ || _); [done|].
  destruct (take_length_bytes der (Z.to_nat (Z.land b 127)) 0 c1) as [[l c2]|] eqn:Ht; [|done]. cbn [result_bind] in H.
  destruct (l <? 128); [done|]. injection H as <- <-. clear - Ht Hat1 der_size.
  revert Ht Hat1. generalize (Z.to_nat (Z.land b 127)) as n, 0 as acc. intros n. revert c1 rest1.
  induction n as [|n IH]; intros c1 rest1 acc Ht Hat1; cbn [take_length_bytes] in Ht; [injection Ht as <- <-; eauto|].
  destruct (checked_mul _ _ _); [|done]. cbn [ok_or result_bind] in Ht.
  destruct (take_byte der c1) as [[b' c']|] eqn:Hb; [|done]. cbn [ok_or result_bind] in Ht.
  destruct (checked_add _ _ _); [|done]. cbn [ok_or result_bind] in Ht.
  destruct (take_byte_at _ _ _ _ Hat1 Hb) as (rest2 & Hat2). by eapply IH.
Qed.

(** A positive, minimally encoded integer. *)
Definition der_content (v : list Z) : Prop :=
  match v with
  | [] => False
  | [v0] => v0 < 128
  | v0 :: v1 :: _ => v0 < 128 /\ (v0 = 0 -> 128 <= v1)
  end.

Lemma take_der_integer_inv cur rest v cur' :
  der_at der cur rest -> take_der_integer der cur = Ok (v, cur') -> (length v <= 33)%nat ->
  exists rest', rest = 2 :: Z.of_nat (length v) :: v ++ rest' /\ der_at der cur' rest' /\ der_content v.
Proof using der_bytes der_size.
  intros Hat H Hv. unfold take_der_integer in H. rewrite (take_byte_spec _ _ Hat) in H.
  destruct rest as [|b rest]; [done|]. cbn [result_bind] in H. destruct (Z.eqb_spec b 2) as [->|]; [|done]. cbn [negb] in H.
  apply der_at_cons in Hat. destruct (take_der_length der (cur + 1)) as [[len c1]|] eqn:Hlen; [|done]. cbn [result_bind] in H.
  destruct (checked_add usize_max c1 len) as [e|] eqn:He; [|done]. apply checked_add_Some in He as [-> He].
  cbn [ok_or result_bind] in H. destruct (Z.ltb_spec (Z.of_nat (length der)) (c1 + len)) as [|Hle]; [done|].
  replace (c1 + len - c1) with len in H by lia.
  set (value := take (Z.to_nat len) (drop (Z.to_nat c1) der)) in *.
  assert (v = value /\ cur' = c1 + len /\ (Forall is_u8 value -> der_content value)) as (-> & -> & Hc).
  { destruct value as [|v0 more]; [done|]. destruct (negb (Z.land v0 128 =? 0)) eqn:H0; [done|].
    assert (is_u8 v0 -> v0 < 128) as Hv0.
    { intros Hu. apply negb_false_iff in H0. rewrite high_bit in H0 by done. by apply Z.ltb_lt in H0. }
    destruct more as [|v1 more]; [injection H as <- <-; split_and!; [done|done|intros Hu; apply Forall_cons_iff in Hu as [? _]; by apply Hv0]|].
    destruct ((v0 =? 0) && (Z.land v1 128 =? 0)) eqn:H1; [done|]. injection H as <- <-. split_and!; [done|done|].
    intros Hu. apply Forall_cons_iff in Hu as [? Hu]. apply Forall_cons_iff in Hu as [Hu1 _]. split; [by apply Hv0|].
    intros ->. rewrite high_bit in H1 by done. by apply Z.ltb_ge in H1. }
  destruct (take_der_length_at _ _ _ _ Hat Hlen) as (rest1 & Hat1). pose proof (der_at_length _ _ _ Hat1) as Hl1.
  pose proof (der_at_bytes _ _ _ der_bytes Hat1) as Hb1.
  assert (value = take (Z.to_nat len) rest1) as Hval by (unfold value; by rewrite (der_at_drop _ _ _ Hat1)).
  assert (0 <= len -> length value = Z.to_nat len) as Hvl by (intros; rewrite Hval, length_take; lia).
  destruct (decide (len < 128)) as [Hlt|Hge]; [|rewrite Hvl in Hv by lia; lia].
  destruct (take_der_length_short _ _ _ _ Hat Hlen Hlt) as (rest' & -> & ->).
  pose proof (der_at_bytes _ _ _ der_bytes Hat) as [[Hl0 _] _]%Forall_cons_iff.
  apply der_at_cons in Hat. pose proof (der_at_drop _ _ _ Hat) as E1. rewrite (der_at_drop _ _ _ Hat1) in E1. subst rest1.
  exists (drop (Z.to_nat len) rest'). rewrite Hvl by done. split_and!.
  - by rewrite Z2Nat.id, Hval, take_drop by done.
  - replace (cur + 1 + 1 + len) with (cur + 1 + 1 + Z.of_nat (length value)) by (rewrite Hvl by done; lia).
    apply der_at_app. by rewrite Hval, take_drop.
  - apply Hc. rewrite Hval. by apply Forall_take.
Qed.

Lemma take_der_integer_ok cur v rest :
  der_at der cur (2 :: Z.of_nat (length v) :: v ++ rest) -> (length v < 128)%nat -> der_content v ->
  take_der_integer der cur = Ok (v, cur + 2 + Z.of_nat (length v)).
Proof using der_bytes der_size.
  intros Hat Hl Hc. unfold take_der_integer. rewrite (take_byte_spec _ _ Hat). cbn [result_bind]. rewrite Z.eqb_refl. cbn [negb].
  apply der_at_cons in Hat. rewrite (take_der_length_ok _ _ _ Hat) by lia. cbn [result_bind].
  apply der_at_cons in Hat. pose proof (der_at_length _ _ _ Hat) as Hlen. rewrite length_app in Hlen.
  unfold checked_add. rewrite (proj2 (Z.leb_le _ _)) by lia. cbn [ok_or result_bind].
  rewrite (proj2 (Z.ltb_ge _ _)) by lia. rewrite (der_at_drop _ _ _ Hat).
  replace (Z.to_nat (cur + 1 + 1 + Z.of_nat (length v) - (cur + 1 + 1))) with (length v) by lia. rewrite take_app_length.
  replace (cur + 1 + 1 + Z.of_nat (length v)) with (cur + 2 + Z.of_nat (length v)) by lia.
  pose proof (der_at_bytes _ _ _ der_bytes Hat) as [Hb _]%Forall_app.
  destruct v as [|v0 [|v1 v]]; [done| |]; cbn [der_content] in Hc.
  - apply Forall_cons_iff in Hb as [Hb _]. rewrite high_bit by done. by rewrite (proj2 (Z.ltb_lt v0 128)) by lia.
  - apply Forall_cons_iff in Hb as [Hb Hb']. apply Forall_cons_iff in Hb' as [Hb' _]. destruct Hc as [Hc0 Hc1].
    rewrite !high_bit by done. rewrite (proj2 (Z.ltb_lt v0 128)) by lia. cbn [negb].
    destruct (Z.eqb_spec v0 0) as [E|]; [|done]. by rewrite (proj2 (Z.ltb_ge v1 128)) by (by apply Hc1).
Qed.
End der.

(** ** The canonical DER form *)

Fixpoint strip_zeros (l : list Z) : list Z :=
  match l with
  | 0 :: l => strip_zeros l
  | _ => l
  end.

(** The content octets of an INTEGER below [2 ^ 256]. *)
Definition der_integer (x : Z) : list Z :=
  match strip_zeros (be_bytes 32 x) with
  | [] => [0]
  | b :: m => if 128 <=? b then 0 :: b :: m else b :: m
  end.

(** SEQUENCE { INTEGER r, INTEGER s } *)
Definition der_body (r s : Z) : list Z :=
  (2 :: Z.of_nat (length (der_integer r)) :: der_integer r)
  ++ (2 :: Z.of_nat (length (der_integer s)) :: der_integer s).

Definition der_signature (r s : Z) : list Z := 48 :: Z.of_nat (length (der_body r s)) :: der_body r s.

(** The scalars of a signature. *)
Definition is_scalar (x : Z) : Prop := 1 <= x < 256 ^ 32.

Lemma strip_zeros_app k l : strip_zeros (replicate k 0 ++ l) = strip_zeros l.
Proof. induction k; [done|]. simpl. exact IHk. Qed.

Lemma strip_zeros_head b l : b <> 0 -> strip_zeros (b :: l) = b :: l.
Proof. intros H. simpl. by destruct b. Qed.

Lemma strip_zeros_spec l : exists k, l = replicate k 0 ++ strip_zeros l /\
  (strip_zeros l = [] \/ exists b m, strip_zeros l = b :: m /\ b <> 0).
Proof.
  induction l as [|b l (k & IH & Hs)]; [exists 0%nat; auto|]. destruct (decide (b = 0)) as [->|Hb].
  - exists (S k). simpl. split; [by f_equal|done].
  - exists 0%nat. rewrite strip_zeros_head by done. split; [done|right; eauto].
Qed.

Lemma scalar_strip x : is_scalar x -> exists k b m, be_bytes 32 x = replicate k 0 ++ b :: m /\
  strip_zeros (be_bytes 32 x) = b :: m /\ b <> 0 /\ is_u8 b /\ (k + S (length m) = 32)%nat.
Proof.
  intros Hx. destruct (strip_zeros_spec (be_bytes 32 x)) as (k & Hk & Hs).
  pose proof (be_bytes_length 32 x) as Hl. destruct Hs as [Hs|(b & m & Hs & Hb)].
  - exfalso. rewrite Hs, app_nil_r in Hk. apply (f_equal of_be_bytes) in Hk.
    rewrite of_be_bytes_be_bytes in Hk by (unfold is_scalar in Hx; simpl; lia).
    assert (of_be_bytes (replicate k 0) = 0) as H0; [|unfold is_scalar in Hx; lia].
    clear. unfold of_be_bytes. induction k; [done|exact IHk].
  - rewrite Hs in Hk. exists k, b, m. split_and!; [done|done|done| |].
    + pose proof (be_bytes_u8 32 x) as Hu. rewrite Hk in Hu. apply Forall_app in Hu as [_ Hu].
      by apply Forall_cons_iff in Hu as [? _].
    + rewrite Hk, length_app, length_replicate in Hl. exact Hl.
Qed.

Lemma der_integer_ok x : is_scalar x ->
  der_content (der_integer x) /\ (1 <= length (der_integer x) <= 33)%nat /\ copy_integer_32 (der_integer x) = Ok (be_bytes 32 x).
Proof.
  intros Hx. destruct (scalar_strip x Hx) as (k & b & m & He & Hs & Hb & Hu & Hl). unfold in_width, u8_max in Hu.
  unfold der_integer. rewrite Hs.
  assert (forall v, match v with 0 :: rest => rest | _ => v end = b :: m -> copy_integer_32 v = Ok (be_bytes 32 x)) as Hcopy.
  { intros v Hv. unfold copy_integer_32. rewrite Hv. rewrite bool_decide_eq_false_2 by done. cbn [length].
    rewrite (proj2 (Nat.ltb_ge _ _)) by lia. replace (32 - S (length m))%nat with k by lia. by rewrite He. }
  destruct (Z.leb_spec 128 b).
  - split_and!; [done|simpl; lia|simpl; lia|by apply Hcopy].
  - split_and!; [destruct m; simpl; lia|simpl; lia|simpl; lia|]. apply Hcopy. by destruct b.
Qed.

Lemma scalar_of b m : Forall is_u8 (b :: m) -> b <> 0 -> (S (length m) <= 32)%nat ->
  exists x, is_scalar x /\ be_bytes 32 x = replicate (32 - S (length m)) 0 ++ b :: m /\
  der_integer x = if 128 <=? b then 0 :: b :: m else b :: m.
Proof.
  intros Hu Hb Hl. set (out := replicate (32 - S (length m)) 0 ++ b :: m).
  assert (length out = 32%nat) as Hlen by (unfold out; rewrite length_app, length_replicate; cbn [length]; lia).
  assert (Forall is_u8 out) as Hout.
  { apply Forall_app. split; [|done]. apply Forall_replicate. unfold in_width, u8_max. lia. }
  pose proof (be_bytes_of_be_bytes out Hout) as He. rewrite Hlen in He.
  pose proof (of_be_bytes_bound out Hout) as Hr. rewrite Hlen in Hr. change (Z.of_nat 32) with 32 in Hr.
  assert (strip_zeros (be_bytes 32 (of_be_bytes out)) = b :: m) as Hs
    by (rewrite He; unfold out; rewrite strip_zeros_app; by apply strip_zeros_head).
  exists (of_be_bytes out). split_and!; [split; [|lia]|done|unfold der_integer; by rewrite Hs].
  assert (of_be_bytes out <> 0); [|lia]. intros E. rewrite E in Hs. vm_compute in Hs. discriminate.
Qed.

Lemma copy_integer_inv v out : Forall is_u8 v -> der_content v -> copy_integer_32 v = Ok out ->
  exists x, is_scalar x /\ v = der_integer x /\ out = be_bytes 32 x /\ (length v <= 33)%nat.
Proof.
  intros Hu Hc H. destruct v as [|v0 v]; [done|]. destruct (decide (v0 = 0)) as [->|H0].
  - unfold copy_integer_32 in H. destruct v as [|v1 v]; [done|]. destruct Hc as [_ Hc]. specialize (Hc eq_refl).
    destruct (_ || _) eqn:Hl; [done|]. apply orb_false_iff in Hl as [_ Hl%Nat.ltb_ge]. injection H as <-.
    apply Forall_cons_iff in Hu as [_ Hu]. destruct (scalar_of v1 v Hu ltac:(lia) Hl) as (x & Hx & He & Hd).
    exists x. rewrite Hd, (proj2 (Z.leb_le 128 v1)) by lia. cbn [length] in *. split_and!; [done|done|by rewrite He|lia].
  - assert (match v0 :: v with 0 :: rest => rest | _ => v0 :: v end = v0 :: v) as E by (by destruct v0).
    unfold copy_integer_32 in H. rewrite E in H.
    destruct (_ || _) eqn:Hl; [done|]. apply orb_false_iff in Hl as [_ Hl%Nat.ltb_ge]. injection H as <-.
    destruct (scalar_of v0 v Hu H0 Hl) as (x & Hx & He & Hd). assert (v0 < 128) by (destruct v; simpl in Hc; tauto).
    exists x. rewrite Hd, (proj2 (Z.leb_gt 128 v0)) by lia. cbn [length] in *. split_and!; [done|done|by rewrite He|lia].
Qed.

(** ** Base64 *)

Lemma url_safe_token i : 0 <= i < 64 -> is_token_byte (nth (Z.to_nat i) URL_SAFE 0) = true.
Proof.
  intros Hi. assert (forallb (fun i => is_token_byte (nth (Z.to_nat i) URL_SAFE 0)) sextets = true) as H
    by (vm_compute; reflexivity).
  rewrite forallb_forall in H. apply H, sextets_spec, Hi.
Qed.

Lemma encode_base64_url n bs : Forall is_u8 bs -> length bs = (3 * n + 1)%nat ->
  length (encode_base64 bs true false) = (4 * n + 2)%nat /\ forallb is_token_byte (encode_base64 bs true false) = true.
Proof.
  revert bs. induction n as [|n IH]; intros bs Hu Hl.
  - destruct bs as [|a [|b bs]]; simpl in Hl; try lia. apply Forall_cons_iff in Hu as [Hu _]. cbn [encode_base64 app].
    rewrite sextet1, sextet2 by apply is_u8_0. destruct (sextet_range a 0 0) as (R1 & R2 & _ & _); [done|apply is_u8_0..|].
    cbn [length forallb]. by rewrite !url_safe_token.
  - destruct bs as [|a [|b [|c bs]]]; simpl in Hl; try lia.
    apply Forall_cons_iff in Hu as [Ha Hu]. apply Forall_cons_iff in Hu as [Hb Hu]. apply Forall_cons_iff in Hu as [Hc Hu].
    destruct (IH bs Hu ltac:(lia)) as [IH1 IH2]. cbn [encode_base64]. rewrite sextet1, sextet2, sextet3, sextet4 by done.
    destruct (sextet_range a b c) as (R1 & R2 & R3 & R4); [done..|]. cbn [length forallb].
    rewrite !url_safe_token, IH1, IH2 by done. split; [lia|done].
Qed.

(** ** Properties *)

Lemma copy_integer_length v out : copy_integer_32 v = Ok out -> (length v <= 33)%nat.
Proof.
  unfold copy_integer_32. destruct (_ || _) eqn:Hl; [done|]. apply orb_false_iff in Hl as [_ Hl%Nat.ltb_ge]. intros _.
  destruct v as [|[| |] v]; simpl in *; lia.
Qed.

Lemma der_signature_inv der sig :
  Forall is_u8 der -> Z.of_nat (length der) <= usize_max -> p256_der_signature_to_p1363 der = Ok sig ->
  exists r s, is_scalar r /\ is_scalar s /\ der = der_signature r s /\ sig = be_bytes 32 r ++ be_bytes 32 s.
Proof.
  intros Hu Hsz H. unfold p256_der_signature_to_p1363 in H.
  pose proof (der_at_start der) as A0. rewrite (take_byte_spec der Hsz 0 der A0) in H.
  destruct der as [|tag der']; [done|]. set (der := tag :: der') in *. cbn [result_bind] in H.
  destruct (Z.eqb_spec tag 48) as [E48|]; [|done]. cbn [negb] in H. apply der_at_cons in A0.
  destruct (take_der_length der (0 + 1)) as [[len c1]|] eqn:Hlen; [|done]. cbn [result_bind] in H.
  destruct (_ <>b? _) eqn:Hs; [done|]. apply negb_false_iff, bool_decide_eq_true, checked_add_Some in Hs as [Hs _].
  destruct (take_der_length_at der Hsz _ _ _ _ A0 Hlen) as (rest1 & A1).
  destruct (take_der_integer der c1) as [[rv c2]|] eqn:Hr; [|done]. cbn [result_bind] in H.
  destruct (take_der_integer der c2) as [[sv c3]|] eqn:Hsi; [|done]. cbn [result_bind] in H.
  destruct (Z.eqb_spec c3 (Z.of_nat (length der))) as [Hc3|]; [|done]. cbn [negb] in H.
  destruct (copy_integer_32 rv) as [ro|] eqn:Hro; [|done]. cbn [result_bind] in H.
  destruct (copy_integer_32 sv) as [so|] eqn:Hso; [|done]. injection H as <-.
  destruct (take_der_integer_inv der Hu Hsz _ _ _ _ A1 Hr (copy_integer_length _ _ Hro)) as (rest2 & -> & A2 & Crv).
  destruct (take_der_integer_inv der Hu Hsz _ _ _ _ A2 Hsi (copy_integer_length _ _ Hso)) as (rest3 & -> & A3 & Csv).
  apply der_at_end in A3 as ->; [|done]. rewrite app_nil_r in *.
  pose proof (der_at_length _ _ _ A1) as Hl1. cbn [length] in Hl1. rewrite length_app in Hl1. cbn [length] in Hl1.
  pose proof (copy_integer_length _ _ Hro). pose proof (copy_integer_length _ _ Hso).
  destruct (take_der_length_short der Hsz _ _ _ _ A0 Hlen ltac:(lia)) as (rest' & E & ->).
  pose proof (der_at_cons _ _ _ _ (eq_ind _ (der_at der (0 + 1)) A0 _ E)) as A1'.
  pose proof (der_at_drop _ _ _ A1') as D1. rewrite (der_at_drop _ _ _ A1) in D1.
  pose proof (der_at_bytes _ _ _ Hu A1) as [_ [_ [Hrv [_ [_ Hsv]%Forall_cons_iff]%Forall_cons_iff]%Forall_app]%Forall_cons_iff]%Forall_cons_iff.
  destruct (copy_integer_inv rv ro Hrv Crv Hro) as (r & Kr & -> & -> & _).
  destruct (copy_integer_inv sv so Hsv Csv Hso) as (s & Ks & -> & -> & _).
  exists r, s. split_and!; [done|done| |done]. unfold der. rewrite E48, E, <- D1. unfold der_signature, der_body.
  cbn [app]. do 2 f_equal. cbn [length]. rewrite length_app. cbn [length]. lia.
Qed.

Lemma der_signature_shape r s : is_scalar r -> is_scalar s ->
  Forall is_u8 (der_signature r s) /\ (length (der_body r s) <= 70)%nat.
Proof.
  intros Hr Hs. pose proof (der_integer_ok r Hr) as (_ & Lr & _). pose proof (der_integer_ok s Hs) as (_ & Ls & _).
  assert (length (der_body r s) <= 70)%nat as Hl by (unfold der_body; rewrite length_app; cbn [length]; lia).
  assert (forall x, is_scalar x -> Forall is_u8 (der_integer x)) as Hint.
  { intros x Hx. destruct (scalar_strip x Hx) as (k & b & m & He & Hst & _). pose proof (be_bytes_u8 32 x) as Hu.
    rewrite He in Hu. apply Forall_app in Hu as [_ Hu]. unfold der_integer. rewrite Hst.
    destruct (128 <=? b); [|done]. constructor; [unfold in_width, u8_max; lia|done]. }
  split; [|done]. unfold der_signature. constructor; [unfold in_width, u8_max; lia|].
  constructor; [unfold in_width, u8_max; lia|]. unfold der_body. apply Forall_app.
  split; (constructor; [unfold in_width, u8_max; lia|]; constructor; [unfold in_width, u8_max; lia|by apply Hint]).
Qed.

Lemma der_signature_converts r s : is_scalar r -> is_scalar s ->
  p256_der_signature_to_p1363 (der_signature r s) = Ok (be_bytes 32 r ++ be_bytes 32 s).
Proof.
  intros Hr Hs. destruct (der_signature_shape r s Hr Hs) as [Hu Hl]. set (der := der_signature r s) in *.
  assert (length der = 2 + length (der_body r s))%nat as Hlen by done.
  assert (Z.of_nat (length der) <= usize_max) as Hsz by (unfold usize_max, u64_max; lia).
  pose proof (der_integer_ok r Hr) as (Cr & Lr & Kr). pose proof (der_integer_ok s Hs) as (Cs & Ls & Ks).
  pose proof (der_at_start der) as A0. unfold p256_der_signature_to_p1363.
  rewrite (take_byte_spec der Hsz 0 der A0). cbn [result_bind]. change (der_signature r s) with der.
  unfold der at 2 in A0. unfold der_signature in A0. apply der_at_cons in A0.
  unfold der at 1, der_signature at 1. cbn [result_bind]. rewrite Z.eqb_refl. cbn [negb].
  rewrite (take_der_length_ok der Hsz _ _ _ A0) by lia. cbn [result_bind]. apply der_at_cons in A0.
  unfold checked_add. rewrite (proj2 (Z.leb_le _ _)) by lia.
  rewrite bool_decide_eq_true_2 by (f_equal; lia). cbn [negb]. unfold der_body in A0. cbn [app] in A0. clearbody der.
  rewrite (take_der_integer_ok der Hu Hsz _ _ _ A0 ltac:(lia) Cr). cbn [result_bind].
  change (2 :: ?n :: ?v ++ ?w) with ([2; n] ++ v ++ w) in A0. rewrite app_assoc in A0. apply der_at_app in A0.
  rewrite length_app in A0. cbn [length] in A0.
  rewrite <- (app_nil_r (2 :: _ :: der_integer s)) in A0. cbn [app] in A0.
  replace (0 + 1 + 1 + Z.of_nat (2 + length (der_integer r))) with (0 + 1 + 1 + 2 + Z.of_nat (length (der_integer r))) in A0 by lia.
  rewrite (take_der_integer_ok der Hu Hsz _ _ _ A0 ltac:(lia) Cs). cbn [result_bind].
  assert (length (der_body r s) = 4 + length (der_integer r) + length (der_integer s))%nat as Hb
    by (unfold der_body; rewrite length_app; cbn [length]; lia).
  rewrite (proj2 (Z.eqb_eq _ (Z.of_nat (length der)))) by lia. cbn [negb]. by rewrite Kr, Ks.
Qed.

(** C23: The signature conversion accepts exactly the canonical DER form of a pair
    of scalars between 1 and [2 ^ 256 - 1], and yields their two 32-byte
    big-endian encodings; every other byte string (long-form or padded lengths,
    negative or padded integers, trailing bytes) is refused. *)
Theorem der_signature_exact der sig :
  Forall is_u8 der -> Z.of_nat (length der) <= usize_max ->
  (p256_der_signature_to_p1363 der = Ok sig <->
   exists r s, is_scalar r /\ is_scalar s /\ der = der_signature r s /\ sig = be_bytes 32 r ++ be_bytes 32 s).
Proof.
  intros Hu Hsz. split; [by apply der_signature_inv|]. intros (r & s & Hr & Hs & -> & ->).
  by apply der_signature_converts.
Qed.

(** What every text the device accepts as a nonce looks like. *)
Lemma parse_challenge_nonce json_parse raw nonce :
  parse_server_message json_parse raw = Ok (Challenge nonce) -> validate_nonce nonce = Ok tt.
Proof.
  unfold parse_server_message. destruct (validate_wire_text raw); [|done]. destruct (json_parse raw) as [[]|]; simpl; try done.
  all: destruct (require_version v); simpl; try done.
  2-4: by destruct (validate_request_id request_id).
  destruct (validate_nonce nonce0) as [[]|] eqn:E; simpl; [|done]. by intros [= <-].
Qed.

Lemma hex_device_byte b : is_u8 b ->
  forallb (fun c => is_ascii_hexdigit c && negb (is_ascii_uppercase c))
    [nth (Z.to_nat (Z.shiftr b 4)) HEX 0; nth (Z.to_nat (Z.land b 15)) HEX 0] = true.
Proof.
  apply (byte_ind (fun b => forallb _ [nth (Z.to_nat (Z.shiftr b 4)) HEX 0; nth (Z.to_nat (Z.land b 15)) HEX 0])).
  vm_compute. reflexivity.
Qed.

Lemma encode_hex_device bs : Forall is_u8 bs -> length bs = 32%nat -> validate_device_id (encode_hex bs) = Ok tt.
Proof.
  intros Hu Hl. unfold validate_device_id.
  assert (length (encode_hex bs) = 2 * length bs)%nat as ->.
  { clear. induction bs as [|b bs IH]; [done|]. cbn [encode_hex length]. lia. }
  rewrite Hl. cbn [Nat.mul Nat.add Nat.eqb].
  assert (forallb (fun b => is_ascii_hexdigit b && negb (is_ascii_uppercase b)) (encode_hex bs) = true) as ->; [|done].
  clear Hl. induction Hu as [|b bs Hb _ IH]; [done|]. pose proof (hex_device_byte b Hb) as H.
  cbn [encode_hex forallb] in *. apply andb_true_iff in H as [H1 H2]. rewrite andb_true_r in H2. by rewrite H1, H2, IH.
Qed.

(** The payload identifies its parts. *)
Lemma payload_inj id nonce id' nonce' payload :
  canonical_auth_payload id' nonce' = Ok payload -> canonical_auth_payload id nonce = Ok payload ->
  id' = id /\ nonce' = nonce.
Proof.
  unfold canonical_auth_payload, validate_device_id. intros H' H.
  destruct (_ && _) eqn:Hd' in H'; [|done]. destruct (_ && _) eqn:Hd in H; [|done]. cbn [result_bind] in *.
  destruct (validate_nonce nonce'); [|done]. destruct (validate_nonce nonce); [|done]. cbn [result_bind] in *.
  apply andb_true_iff in Hd as [Hd%Nat.eqb_eq _]. apply andb_true_iff in Hd' as [Hd'%Nat.eqb_eq _].
  assert (CONTROL_AUTH_DOMAIN ++ [10] ++ id' ++ [10] ++ nonce' = CONTROL_AUTH_DOMAIN ++ [10] ++ id ++ [10] ++ nonce) as E
    by congruence.
  apply app_inv_head in E. injection E as E. apply app_inj_1 in E as [-> E]; [|congruence]. by injection E.
Qed.

Section answering.
Context (sha256 : list Z -> list Z) (json_parse : str -> option WireServerMessage) (json_print : wire_message -> str).
(** A SHA-256 digest is 32 bytes. *)
Context (sha256_digest : forall m, Forall is_u8 (sha256 m) /\ length (sha256 m) = 32%nat).

(** A device can answer every challenge it accepts.  For an identity made
    from a public key, any accepted challenge and any signature in DER form, the
    payload to sign, the wire form of the signature and the validation of the
    answer all succeed, so the answer is sent unless it is over the size limit;
    and the signed payload determines the device and the nonce. *)
Theorem challenge_answered spki i raw nonce r s :
  from_public_key_spki sha256 spki = Ok i ->
  parse_server_message json_parse raw = Ok (Challenge nonce) ->
  is_scalar r -> is_scalar s ->
  exists payload signature,
    canonical_auth_payload (device_id i) nonce = Ok payload /\
    (forall id' nonce', canonical_auth_payload id' nonce' = Ok payload -> id' = device_id i /\ nonce' = nonce) /\
    p256_der_signature_to_p1363_b64url (der_signature r s) = Ok signature /\
    encode_auth_message json_print (device_id i) signature =
      encode_wire json_print (WireAuth CONTROL_PROTOCOL_VERSION (lit "AUTH") (device_id i) signature).
Proof using sha256_digest.
  intros Hi Hm Hr Hs. apply parse_challenge_nonce in Hm.
  unfold from_public_key_spki in Hi. destruct (_ || _); [done|]. injection Hi as <-. cbn [device_id].
  destruct (sha256_digest spki) as [Hu Hl]. pose proof (encode_hex_device _ Hu Hl) as Hid.
  pose proof (der_signature_converts r s Hr Hs) as Hsig.
  set (bytes := be_bytes 32 r ++ be_bytes 32 s) in *.
  destruct (encode_base64_url 21 bytes) as [Hbl Hbt].
  { apply Forall_app. split; apply be_bytes_u8. }
  { unfold bytes. by rewrite length_app, !be_bytes_length. }
  eexists _, _. split_and!.
  - unfold canonical_auth_payload. rewrite Hid, Hm. reflexivity.
  - intros id' nonce' H. refine (payload_inj _ _ _ _ _ H _). unfold canonical_auth_payload. by rewrite Hid, Hm.
  - unfold p256_der_signature_to_p1363_b64url. rewrite Hsig. reflexivity.
  - unfold encode_auth_message, validate_b64url. rewrite Hid, Hbl, Hbt. done.
Qed.
End answering.

Lemma der_signature_exact_witness :
  p256_der_signature_to_p1363 [48; 7; 2; 1; 9; 2; 2; 0; 200] = Ok (be_bytes 32 9 ++ be_bytes 32 200).
Proof.
  refine (proj2 (der_signature_exact [48; 7; 2; 1; 9; 2; 2; 0; 200] (be_bytes 32 9 ++ be_bytes 32 200) _ _) _).
  - repeat constructor; unfold u8_max; lia.
  - vm_compute. discriminate.
  - exists 9, 200. split_and!; [split; [lia|reflexivity]..|vm_compute; reflexivity|reflexivity].
Defined.

(** A digest, a JSON reader and a JSON printer for one exchange. *)
Definition demo_sha256 (_ : list Z) : list Z := replicate 32 171.
Definition demo_nonce : str := replicate 43 98.
Definition demo_json_parse (raw : str) : option WireServerMessage :=
  if raw =b? lit "challenge" then Some (WireChallenge 1 demo_nonce) else None.
Definition demo_json_print (m : wire_message) : str :=
  match m with WireAuth _ t d s => t ++ d ++ s | _ => [] end.

Lemma challenge_answered_witness :
  exists payload signature,
    canonical_auth_payload (encode_hex (replicate 32 171)) demo_nonce = Ok payload /\
    (forall id' nonce', canonical_auth_payload id' nonce' = Ok payload ->
       id' = encode_hex (replicate 32 171) /\ nonce' = demo_nonce) /\
    p256_der_signature_to_p1363_b64url (der_signature 9 200) = Ok signature /\
    encode_auth_message demo_json_print (encode_hex (replicate 32 171)) signature =
      encode_wire demo_json_print (WireAuth CONTROL_PROTOCOL_VERSION (lit "AUTH") (encode_hex (replicate 32 171)) signature).
Proof.
  refine (challenge_answered demo_sha256 demo_json_parse demo_json_print _ [1; 2; 3]
    {| device_id := encode_hex (replicate 32 171); public_key_spki := [1; 2; 3] |} (lit "challenge") demo_nonce 9 200 _ _ _ _).
  - intros m. split; [|reflexivity]. apply Forall_replicate. unfold in_width, u8_max. lia.
  - vm_compute. reflexivity.
  - vm_compute. reflexivity.
  - split; [lia|reflexivity].
  - split; [lia|reflexivity].
Defined.
