(* ===== verification/RootSession.v ===== *)
(** * Root session

    [src/crates/runtime/src/root_session.rs]: the one persistent root shell, the
    frame around each command, the loop that reads its output up to the
    command's marker, and the manager that starts and destroys shells.

    The process behind the pipes is a [RootDevice]: whether it starts, and how
    it reacts to a frame that was written to it. *)

From Stdlib Require Import String.
From S2P Require Import Prelude Net RustStr.

Definition MAX_OUTPUT_BYTES : Z := 4096.
Definition MARKER_PREFIX : str := lit "__MISH_ROOT_DONE_".

(** ** Commands *)

Inductive RootCommandKind := Observation | Mutation.

Record RootCommand := { kind : RootCommandKind; command : str }.

Inductive RootSessionError := InvalidCommand | SpawnUnavailable | StateUnavailable.

Definition command_new (k : RootCommandKind) (command : str) : result RootSessionError RootCommand :=
  if (command =b? []) || contains_byte 10 command || contains_byte 13 command || contains_byte 0 command
  then Err InvalidCommand
  else Ok {| kind := k; command := command |}.

Definition observation (command : str) : result RootSessionError RootCommand := command_new Observation command.
Definition mutation (command : str) : result RootSessionError RootCommand := command_new Mutation command.

Record RootCommandResult := {
  exit_code : Z;
  stdout : str;
  timed_out : bool;
  output_complete : bool;
  session_generation : Z }.

Record RootCommandOutcome := { outcome : RootCommandResult; transport_healthy : bool }.

(** ** The shell *)

(** One completed [read_line] on the shell's output: a line with its line feed,
    an I/O error, or the end with the exit code [try_wait] reports. *)
Inductive shell_read := ReadLine (line : str) | ReadFails | ReadEof (code : option Z).

(** What ends the wait when no further line arrives: the command's own timer, or
    the caller, who drops the future at a deadline of its own. *)
Inductive fate := Elapsed | Dropped.

Inductive reaction := WriteFails | WriteDropped | Wrote (reads : list shell_read) (wait : fate).

Class RootDevice (W : Type) := {
  spawn : W -> bool * W;
  respond : W -> str -> reaction * W;
  kill : W -> W }.

(** [unread] is what the buffered reader holds after a marker. *)
Record RootShellSession := {
  generation : Z;
  sequence : Z;
  unread : list shell_read }.

Definition shell_start (generation : Z) : RootShellSession :=
  {| generation := generation; sequence := 0; unread := [] |}.

Definition marker_of (generation sequence : Z) : str :=
  MARKER_PREFIX ++ to_decimal generation ++ lit "_" ++ to_decimal sequence.

(** The second line reports the status behind a line feed of its own; the
    backslashes are for [printf]. *)
Definition quote : str := [34].
Definition framed (command marker : str) : str :=
  command ++ [10] ++ lit "__mish_root_status=$?; printf '\n" ++ marker ++ lit ":%s\n' "
  ++ quote ++ lit "$__mish_root_status" ++ quote ++ [10].

Definition lost_outcome (generation : Z) (elapsed : bool) : RootCommandOutcome :=
  {| outcome := {| exit_code := -1; stdout := []; timed_out := elapsed; output_complete := false;
                   session_generation := generation |};
     transport_healthy := false |}.

Definition unavailable_outcome (s : RootShellSession) : RootCommandOutcome := lost_outcome (generation s) false.

(** [trim_end_matches] of carriage returns and line feeds. *)
Fixpoint trim_eol (line : str) : str :=
  match line with
  | [] => []
  | b :: rest =>
      match trim_eol rest with
      | [] => if (b =? 13) || (b =? 10) then [] else [b]
      | r => b :: r
      end
  end.

Definition i32_max : Z := 2147483647.

(** [str::parse::<i32>] *)
Definition parse_i32 (s : str) : option Z :=
  match s with
  | 45 :: [] => None
  | 45 :: r => Z.opp <$> digits_value 10 (i32_max + 1) 0 r
  | _ => from_str_radix 10 i32_max s
  end.

Definition at_eof (generation : Z) (captured : str) (complete : bool) (code : option Z) : RootCommandOutcome :=
  match code with
  | Some code =>
      if code =? 0 then lost_outcome generation false
      else {| outcome := {| exit_code := code; stdout := captured; timed_out := false;
                            output_complete := complete; session_generation := generation |};
              transport_healthy := false |}
  | None => lost_outcome generation false
  end.

Definition at_marker (generation : Z) (captured : str) (complete : bool) (raw_status : str) : RootCommandOutcome :=
  match parse_i32 raw_status with
  | None => lost_outcome generation false
  | Some code => {| outcome := {| exit_code := code; stdout := captured; timed_out := false;
                                  output_complete := complete; session_generation := generation |};
                    transport_healthy := true |}
  end.

(** The loop over the lines that arrive in time; [None] when they run out. *)
Fixpoint read_loop (generation : Z) (marker captured : str) (captured_bytes : Z) (complete : bool)
    (reads : list shell_read) : option RootCommandOutcome * list shell_read :=
  match reads with
  | [] => (None, [])
  | ReadFails :: rest => (Some (lost_outcome generation false), rest)
  | ReadEof code :: rest => (Some (at_eof generation captured complete code), rest)
  | ReadLine line :: rest =>
      if negb (utf8_valid line) then (Some (lost_outcome generation false), rest)
      else
        match strip_prefix (marker ++ lit ":") (trim_eol line) with
        | Some raw_status => (Some (at_marker generation captured complete raw_status), rest)
        | None =>
            let bytes := Z.of_nat (length line) in
            if Z.min (captured_bytes + bytes) usize_max <=? MAX_OUTPUT_BYTES
            then read_loop generation marker (captured ++ line) (captured_bytes + bytes) complete rest
            else read_loop generation marker captured captured_bytes false rest
        end
  end.

Section device.
Context {W : Type} `{RootDevice W}.

(** [RootShellSession::execute]; no outcome when the caller dropped it. *)
Definition shell_execute (s : RootShellSession) (c : RootCommand) (w : W)
    : option RootCommandOutcome * RootShellSession * W :=
  let sequence := Z.min (sequence s + 1) u64_max in
  let marker := marker_of (generation s) sequence in
  let s1 reads := {| generation := generation s; sequence := sequence; unread := reads |} in
  match respond w (framed (command c) marker) with
  | (WriteFails, w) => (Some (unavailable_outcome s), s1 (unread s), w)
  | (WriteDropped, w) => (None, s1 (unread s), w)
  | (Wrote reads wait, w) =>
      match read_loop (generation s) marker [] 0 true (unread s ++ reads) with
      | (Some o, rest) => (Some o, s1 rest, w)
      | (None, rest) =>
          match wait with
          | Elapsed => (Some (lost_outcome (generation s) true), s1 rest, kill w)
          | Dropped => (None, s1 rest, w)
          end
      end
  end.

(** ** The manager *)

Record RootSessionManager := {
  session : option RootShellSession;
  next_generation : Z }.

Definition manager_new : RootSessionManager := {| session := None; next_generation := 1 |}.

(** The live shell, or a new one under the next generation.  The generation is
    spent even when the process does not start. *)
Definition ensure_session (m : RootSessionManager) (w : W)
    : result RootSessionError RootShellSession * RootSessionManager * W :=
  match session m with
  | Some s => (Ok s, m, w)
  | None =>
      match checked_add u64_max (next_generation m) 1 with
      | None => (Err StateUnavailable, m, w)
      | Some next =>
          let m := {| session := None; next_generation := next |} in
          match spawn w with
          | (false, w) => (Err SpawnUnavailable, m, w)
          | (true, w) => (Ok (shell_start (next - 1)), m, w)
          end
      end
  end.

(** [None]: the caller dropped the future; the shell is still there. *)
Definition execute (m : RootSessionManager) (c : RootCommand) (w : W)
    : option (result RootSessionError RootCommandResult) * RootSessionManager * W :=
  match ensure_session m w with
  | (Err e, m, w) => (Some (Err e), m, w)
  | (Ok s, m, w) =>
      match shell_execute s c w with
      | (None, s, w) => (None, {| session := Some s; next_generation := next_generation m |}, w)
      | (Some o, s, w) =>
          if transport_healthy o
          then (Some (Ok (outcome o)), {| session := Some s; next_generation := next_generation m |}, w)
          else (Some (Ok (outcome o)), {| session := None; next_generation := next_generation m |}, kill w)
      end
  end.

Definition manager_generation (m : RootSessionManager) : option Z := generation <$> session m.

Definition shutdown (m : RootSessionManager) (w : W) : RootSessionManager * W :=
  match session m with
  | Some _ => ({| session := None; next_generation := next_generation m |}, kill w)
  | None => (m, w)
  end.
End device.

(** ** How a pipe cuts text into lines *)

Fixpoint cut (s : str) : list str :=
  match s with
  | [] => []
  | b :: r =>
      if b =? 10 then [10] :: cut r
      else match cut r with
           | [] => [[b]]
           | l :: ls => (b :: l) :: ls
           end
  end.

Lemma concat_cut s : concat (cut s) = s.
Proof.
  induction s as [|b s IH]; [done|]. cbn [cut]. destruct (Z.eqb_spec b 10) as [->|]; cbn [concat app].
  - by rewrite IH.
  - destruct (cut s); cbn [concat app] in *; by rewrite <- IH.
Qed.

Lemma cut_app a b : cut (a ++ 10 :: b) = cut (a ++ [10]) ++ cut b.
Proof.
  induction a as [|x a IH]; [done|]. cbn [app cut]. destruct (x =? 10); [by rewrite IH|].
  rewrite IH. destruct (cut (a ++ [10])) as [|l ls] eqn:E; [|done].
  apply (f_equal (@concat Z)) in E. rewrite concat_cut in E. by apply app_nil in E as [_ ?].
Qed.

Lemma cut_line body : contains_byte 10 body = false -> cut (body ++ [10]) = [body ++ [10]].
Proof.
  induction body as [|b body IH]; [done|]. cbn [contains_byte existsb app cut]. intros [H1 H2]%orb_false_iff.
  rewrite H1. unfold contains_byte in IH. by rewrite IH.
Qed.

(** ** Markers *)

Lemma trim_eol_app s : Forall (fun b => b <> 13 /\ b <> 10) s -> trim_eol (s ++ [10]) = s.
Proof.
  induction 1 as [|b s [H1 H2] Hs IH]; [done|]. cbn [app trim_eol]. rewrite IH.
  destruct s; [|done]. by rewrite (proj2 (Z.eqb_neq b 13)), (proj2 (Z.eqb_neq b 10)).
Qed.

Lemma strip_prefix_weaken p q s r : strip_prefix (p ++ q) s = Some r -> starts_with p s = true.
Proof.
  rewrite strip_prefix_Some. intros ->. apply starts_with_true. exists (q ++ r). by rewrite <- app_assoc.
Qed.

(** A run of digits up to a separator is determined. *)
Lemma digits_then_separator a b (x y : str) sep :
  Forall (fun c => is_ascii_digit c = true) a -> Forall (fun c => is_ascii_digit c = true) b ->
  is_ascii_digit sep = false -> a ++ sep :: x = b ++ sep :: y -> a = b /\ x = y.
Proof.
  intros Ha Hb Hs. revert b Hb. induction Ha as [|c a Hc Ha IH]; intros [|d b] Hb; cbn [app]; intros [= E].
  - done.
  - subst. apply Forall_cons_iff in Hb as [Hb _]. congruence.
  - subst. congruence.
  - subst. apply Forall_cons_iff in Hb as [_ Hb]. destruct (IH b Hb) as [-> ->]; done.
Qed.

Lemma to_decimal_inj a b : is_u64 a -> is_u64 b -> to_decimal a = to_decimal b -> a = b.
Proof.
  intros Ha Hb E. apply (f_equal (from_str_radix 10 u64_max)) in E.
  rewrite !parse_to_decimal in E; [by simplify_eq|done..].
Qed.

Lemma marker_inj g q g' q' x y :
  is_u64 g -> is_u64 q -> is_u64 g' -> is_u64 q' ->
  marker_of g q ++ lit ":" ++ x = marker_of g' q' ++ lit ":" ++ y -> g = g' /\ q = q' /\ x = y.
Proof.
  intros Hg Hq Hg' Hq'. unfold marker_of. rewrite <- !app_assoc. intros E%app_inv_head.
  cbn [lit app] in E.
  apply digits_then_separator in E as [E1 E]; [|apply to_decimal_digits|apply to_decimal_digits|done].
  apply digits_then_separator in E as [E2 ->]; [|apply to_decimal_digits|apply to_decimal_digits|done].
  split_and!; [by apply to_decimal_inj..|done].
Qed.

(** ** The read loop *)

(** A line of plain output, as the reader under [marker] takes it. *)
Definition plain (marker line : str) : Prop :=
  utf8_valid line = true /\ strip_prefix (marker ++ lit ":") (trim_eol line) = None.

Lemma plain_other_marker g q g' q' status :
  is_u64 g -> is_u64 q -> is_u64 g' -> is_u64 q' -> (g, q) <> (g', q') ->
  Forall (fun b => is_ascii_digit b = true) status ->
  plain (marker_of g q) (marker_of g' q' ++ lit ":" ++ status ++ [10]).
Proof.
  intros Hg Hq Hg' Hq' Hne Hs.
  assert (Forall (fun b => 33 <= b <= 126) (marker_of g' q' ++ lit ":" ++ status)) as Hp.
  { assert (printable (marker_of g' q' ++ lit ":" ++ status)) as Hp.
    { unfold marker_of. repeat apply Forall_app_2; try (apply digits_printable; apply to_decimal_digits || done);
        by apply printable_dec_intro. }
    eapply Forall_impl; [|exact Hp]. intros b Hb. by apply graphic_not_lead. }
  replace (marker_of g' q' ++ lit ":" ++ status ++ [10]) with ((marker_of g' q' ++ lit ":" ++ status) ++ [10])
    by (by rewrite <- !app_assoc).
  split.
  - apply utf8_valid_ascii. apply Forall_app_2; [|by repeat constructor].
    eapply Forall_impl; [|exact Hp]. intros b Hb. cbv beta in Hb. lia.
  - rewrite trim_eol_app by (eapply Forall_impl; [|exact Hp]; intros b Hb; cbv beta in Hb; lia).
    destruct (strip_prefix _ _) as [r|] eqn:E; [|done]. apply strip_prefix_Some in E.
    rewrite <- app_assoc in E. symmetry in E. apply marker_inj in E as (-> & -> & _); done.
Qed.

Lemma read_loop_plain g marker ls captured rest :
  Forall (plain marker) ls ->
  Z.of_nat (length captured) + Z.of_nat (length (concat ls)) <= MAX_OUTPUT_BYTES ->
  read_loop g marker captured (Z.of_nat (length captured)) true ((ReadLine <$> ls) ++ rest) =
  read_loop g marker (captured ++ concat ls) (Z.of_nat (length (captured ++ concat ls))) true rest.
Proof.
  intros Hp. revert captured. induction Hp as [|l ls [Hu Hm] Hp IH]; intros captured Hl.
  - cbn [concat fmap list_fmap app]. by rewrite app_nil_r.
  - cbn [fmap list_fmap app read_loop concat]. cbn [concat] in Hl. rewrite length_app in Hl.
    rewrite Hu, Hm. cbn [negb]. unfold usize_max, u64_max, MAX_OUTPUT_BYTES in *.
    rewrite (proj2 (Z.leb_le _ _)) by lia.
    rewrite <- Nat2Z.inj_add, <- length_app. rewrite IH by (rewrite length_app; lia).
    by rewrite <- !app_assoc.
Qed.

(** Once a line was left out, the result stays incomplete. *)
Lemma read_loop_incomplete g marker captured n reads o rest :
  read_loop g marker captured n false reads = (Some o, rest) -> output_complete (outcome o) = false.
Proof.
  revert captured n. induction reads as [|[line| |code] reads IH]; intros captured n; cbn [read_loop]; [done| | |].
  - destruct (negb (utf8_valid line)); [by intros [= <- _]|].
    destruct (strip_prefix _ _); [unfold at_marker; destruct (parse_i32 _); by intros [= <- _]|].
    destruct (_ <=? _); apply IH.
  - by intros [= <- _].
  - unfold at_eof. destruct code as [c|]; [destruct (c =? 0)|]; by intros [= <- _].
Qed.

(** What a healthy outcome is made of. *)
Lemma read_loop_healthy g marker captured n complete reads o rest :
  read_loop g marker captured n complete reads = (Some o, rest) -> transport_healthy o = true ->
  exists ls line status,
    reads = (ReadLine <$> ls) ++ ReadLine line :: rest /\ Forall (plain marker) ls /\
    trim_eol line = marker ++ lit ":" ++ status /\ parse_i32 status = Some (exit_code (outcome o)) /\
    session_generation (outcome o) = g /\ timed_out (outcome o) = false /\
    (output_complete (outcome o) = true -> stdout (outcome o) = captured ++ concat ls).
Proof.
  revert captured n complete.
  induction reads as [|[line| |code] reads IH]; intros captured n complete Hr Hh; cbn [read_loop] in Hr; [done| | |].
  - destruct (utf8_valid line) eqn:Hu; cbn [negb] in Hr; [|by injection Hr as <- _].
    destruct (strip_prefix _ _) as [status|] eqn:Hs.
    + injection Hr as Ho <-. unfold at_marker in Ho. destruct (parse_i32 status) as [c|] eqn:Hp; subst o; [|done].
      exists [], line, status. apply strip_prefix_Some in Hs. rewrite <- app_assoc in Hs.
      split_and!; try done. intros _. by rewrite app_nil_r.
    + destruct (_ <=? _).
      * destruct (IH _ _ _ Hr Hh) as (ls & l & st & -> & Hls & H1 & H2 & H3 & H4 & H5).
        exists (line :: ls), l, st. split_and!; try done; [by constructor|].
        intros Hc. cbn [concat]. rewrite H5 by done. by rewrite app_assoc.
      * destruct (IH _ _ _ Hr Hh) as (ls & l & st & -> & Hls & H1 & H2 & H3 & H4 & H5).
        exists (line :: ls), l, st. split_and!; try done; [by constructor|].
        apply read_loop_incomplete in Hr. congruence.
  - by injection Hr as <- _.
  - injection Hr as <- _. unfold at_eof in Hh. destruct code as [c|]; [destruct (c =? 0)|]; done.
Qed.

(** ** What a shell prints for a frame *)

Definition status_line (marker : str) (status : Z) : str := marker ++ lit ":" ++ to_decimal status ++ [10].
Definition shell_text (out marker : str) (status : Z) : str := out ++ [10] ++ status_line marker status.

Lemma marker_graphic g q : Forall (fun b => 33 <= b <= 126) (marker_of g q).
Proof.
  assert (printable (marker_of g q)) as Hp.
  { unfold marker_of. repeat apply Forall_app_2; try apply digits_printable, to_decimal_digits; by apply printable_dec_intro. }
  eapply Forall_impl; [|exact Hp]. intros b Hb. by apply graphic_not_lead.
Qed.

Lemma status_body_graphic g q status : Forall (fun b => 33 <= b <= 126) (marker_of g q ++ lit ":" ++ to_decimal status).
Proof.
  apply Forall_app_2; [apply marker_graphic|]. apply Forall_app_2; [by repeat constructor|].
  eapply Forall_impl; [|apply digits_printable, to_decimal_digits]. intros b Hb. by apply graphic_not_lead.
Qed.

Lemma status_line_cut g q status : cut (status_line (marker_of g q) status) = [status_line (marker_of g q) status].
Proof.
  unfold status_line. rewrite app_assoc, app_assoc. rewrite <- (app_assoc (marker_of g q)). apply cut_line.
  apply contains_byte_false. eapply Forall_impl; [|apply status_body_graphic]. intros b Hb. cbv beta in Hb. lia.
Qed.

Lemma parse_i32_to_decimal n : 0 <= n <= i32_max -> parse_i32 (to_decimal n) = Some n.
Proof.
  intros Hn. rewrite <- (parse_to_decimal i32_max n Hn) by (unfold i32_max, u64_max; lia).
  pose proof (to_decimal_digits n) as Hd. destruct (to_decimal n) as [|b r]; [done|].
  apply Forall_cons_iff in Hd as [Hb _]. unfold parse_i32.
  destruct b as [|p|p]; try done; repeat (destruct p as [p|p|]; try done).
Qed.

Lemma read_loop_status g q status captured n complete rest :
  0 <= status <= i32_max ->
  read_loop g (marker_of g q) captured n complete (ReadLine (status_line (marker_of g q) status) :: rest) =
  (Some {| outcome := {| exit_code := status; stdout := captured; timed_out := false; output_complete := complete;
                         session_generation := g |};
           transport_healthy := true |}, rest).
Proof.
  intros Hs. cbn [read_loop]. pose proof (status_body_graphic g q status) as Hb.
  unfold status_line. rewrite (app_assoc (marker_of g q)), (app_assoc (marker_of g q ++ _)).
  rewrite <- (app_assoc (marker_of g q)).
  rewrite utf8_valid_ascii.
  2: { apply Forall_app_2; [|by repeat constructor]. eapply Forall_impl; [|exact Hb]. intros b H. cbv beta in H. lia. }
  cbn [negb]. rewrite trim_eol_app by (eapply Forall_impl; [|exact Hb]; intros b H; cbv beta in H; lia).
  rewrite app_assoc, strip_prefix_app. unfold at_marker. by rewrite parse_i32_to_decimal.
Qed.

Definition quiet_output (marker out : str) : Prop :=
  Forall (plain marker) (cut (out ++ [10])) /\ Z.of_nat (length out) < MAX_OUTPUT_BYTES.

Lemma read_loop_text g q out status rest :
  quiet_output (marker_of g q) out -> 0 <= status <= i32_max ->
  read_loop g (marker_of g q) [] 0 true ((ReadLine <$> cut (shell_text out (marker_of g q) status)) ++ rest) =
  (Some {| outcome := {| exit_code := status; stdout := out ++ [10]; timed_out := false; output_complete := true;
                         session_generation := g |};
           transport_healthy := true |}, rest).
Proof.
  intros [Hp Hl] Hs. unfold shell_text. cbn [app]. rewrite cut_app, status_line_cut, fmap_app, <- app_assoc.
  change 0 with (Z.of_nat (length (@nil Z))).
  rewrite read_loop_plain; [|done|rewrite concat_cut, length_app; cbn [length]; lia].
  rewrite concat_cut. cbn [app fmap list_fmap]. by rewrite read_loop_status.
Qed.

(** Late text in front of an answer reads as part of that answer. *)
Lemma shell_text_app out1 m1 status1 out2 m2 status2 :
  shell_text out1 m1 status1 ++ shell_text out2 m2 status2 =
  shell_text (out1 ++ [10] ++ status_line m1 status1 ++ out2) m2 status2.
Proof. unfold shell_text. by rewrite <- !app_assoc. Qed.

Section properties.
Context {W : Type} `{RootDevice W}.

Definition next_marker (s : RootShellSession) : str := marker_of (generation s) (Z.min (sequence s + 1) u64_max).

(** A command's answer is exact.  When the shell prints less than the
    capture limit and no line that looks like this command's marker, the caller
    gets exactly the text, closed by one line feed, and the exit status; nothing
    is left over for the next command. *)
Theorem command_answer_exact m s c w w' out status wait :
  session m = Some s -> unread s = [] ->
  quiet_output (next_marker s) out -> 0 <= status <= i32_max ->
  respond w (framed (command c) (next_marker s)) =
    (Wrote (ReadLine <$> cut (shell_text out (next_marker s) status)) wait, w') ->
  execute m c w =
    (Some (Ok {| exit_code := status; stdout := out ++ [10]; timed_out := false; output_complete := true;
                 session_generation := generation s |}),
     {| session := Some {| generation := generation s; sequence := Z.min (sequence s + 1) u64_max; unread := [] |};
        next_generation := next_generation m |}, w').
Proof.
  intros Hs Hu Hq Hst Hr. unfold execute, ensure_session. rewrite Hs. unfold shell_execute.
  fold (next_marker s). rewrite Hr, Hu. cbn [app].
  pose proof (read_loop_text (generation s) (Z.min (sequence s + 1) u64_max) out status [] Hq Hst) as Hl.
  rewrite app_nil_r in Hl. fold (next_marker s) in Hl. by rewrite Hl.
Qed.

(** A dropped command speaks into the next one.  A caller that gives up on a
    command at its own deadline leaves the shell running; what the shell prints
    for it later, its status line included, becomes part of the next command's
    answer, which is still reported as complete. *)
Theorem dropped_output_reaches_next m s c1 c2 w w1 w2 out1 status1 out2 status2 wait m1 m2 :
  session m = Some s -> unread s = [] -> is_u64 (generation s) -> 0 <= sequence s < u64_max - 1 ->
  m1 = marker_of (generation s) (sequence s + 1) -> m2 = marker_of (generation s) (sequence s + 2) ->
  quiet_output m2 (out1 ++ [10] ++ status_line m1 status1 ++ out2) ->
  0 <= status2 <= i32_max ->
  respond w (framed (command c1) m1) = (Wrote [] Dropped, w1) ->
  respond w1 (framed (command c2) m2) =
    (Wrote (ReadLine <$> cut (shell_text out1 m1 status1 ++ shell_text out2 m2 status2)) wait, w2) ->
  let '(r1, m', w') := execute m c1 w in
  let '(r2, _, _) := execute m' c2 w' in
  r1 = None /\
  r2 = Some (Ok {| exit_code := status2; stdout := shell_text out1 m1 status1 ++ out2 ++ [10]; timed_out := false;
                   output_complete := true; session_generation := generation s |}).
Proof.
  intros Hs Hu Hg Hq -> -> Hquiet Hst Hr1 Hr2.
  unfold execute at 1, ensure_session. rewrite Hs. unfold shell_execute.
  rewrite Z.min_l by lia. rewrite Hr1, Hu. cbn [app read_loop].
  unfold execute, ensure_session, shell_execute. cbn [session generation sequence unread].
  replace (Z.min (sequence s + 1 + 1) u64_max) with (sequence s + 2) by lia. rewrite Hr2. cbn [app].
  rewrite shell_text_app.
  pose proof (read_loop_text (generation s) (sequence s + 2) _ status2 [] Hquiet Hst) as Hl.
  rewrite app_nil_r in Hl. rewrite Hl. cbn [transport_healthy outcome]. split; [done|].
  unfold shell_text. by rewrite <- !app_assoc.
Qed.
End properties.

(** ** One frame per command *)

(** A device whose frames are recorded. *)
#[export] Instance logged_device {W} `{RootDevice W} : RootDevice (W * list str) := {|
  spawn '(w, log) := let '(ok, w) := spawn w in (ok, (w, log));
  respond '(w, log) frame := let '(r, w) := respond w frame in (r, (w, log ++ [frame]));
  kill '(w, log) := (kill w, log) |}.

Fixpoint execute_all {W} `{RootDevice W} (m : RootSessionManager) (cs : list RootCommand) (w : W)
    : RootSessionManager * W :=
  match cs with
  | [] => (m, w)
  | c :: cs => let '(_, m, w) := execute m c w in execute_all m cs w
  end.

Definition frame_of (sent : str * (Z * Z)) : str := framed sent.1 (marker_of sent.2.1 sent.2.2).

Record manager_ok (m : RootSessionManager) (marks : list (Z * Z)) (n : Z) : Prop := {
  ok_count : 0 <= n;
  ok_next : 1 <= next_generation m <= u64_max;
  ok_session : forall s, session m = Some s -> 1 <= generation s < next_generation m /\ 0 <= sequence s <= n;
  ok_marks : forall g q, (g, q) ∈ marks ->
    1 <= g < next_generation m /\ 0 <= q <= n /\
    (forall s, session m = Some s -> g = generation s -> q <= sequence s);
  ok_nodup : NoDup marks }.

Lemma manager_ok_mono m m' marks n n' :
  manager_ok m marks n -> n <= n' -> next_generation m <= next_generation m' <= u64_max -> session m' = None ->
  manager_ok m' marks n'.
Proof.
  intros [H0 H1 H2 H3 H4] Hn Hg Hs. split; [lia|lia|congruence| |done].
  intros g q (? & ? & _)%H3. split_and!; [lia..|congruence].
Qed.

(** The shell that will take the command is ahead of every marker used. *)
Lemma ensure_session_ok {W} `{RootDevice W} m marks n (wl : W * list str) r m' wl' :
  manager_ok m marks n -> ensure_session m wl = (r, m', wl') ->
  wl'.2 = wl.2 /\
  match r with
  | Err _ => manager_ok m' marks n
  | Ok s => 1 <= next_generation m' <= u64_max /\ next_generation m <= next_generation m' /\
            1 <= generation s < next_generation m' /\ 0 <= sequence s <= n /\
            (forall q, (generation s, q) ∈ marks -> q <= sequence s)
  end.
Proof.
  intros [H0 H1 H2 H3 H4] He. unfold ensure_session in He. destruct (session m) as [s|] eqn:Hs.
  - simplify_eq/=. destruct (H2 s eq_refl). split_and!; try done; try lia. intros q (_ & _ & Hq)%H3. by apply Hq.
  - destruct (checked_add _ _ _) as [next|] eqn:Hn; [|simplify_eq/=; split; [done|by split; rewrite ?Hs]].
    apply checked_add_Some in Hn as [-> Hn]. destruct wl as [w log]. cbn [spawn logged_device] in He.
    destruct (spawn w) as [[] w2]; simplify_eq/=; (split; [done|]).
    + split_and!; try lia. intros q (Hg & _)%H3. lia.
    + split; cbn; [lia|lia|done| |done]. intros g q (? & ? & _)%H3. split_and!; [lia..|done].
Qed.

Lemma execute_logs {W} `{RootDevice W} m marks n c (wl : W * list str) r m' wl' :
  manager_ok m marks n -> n < u64_max -> execute m c wl = (r, m', wl') ->
  (wl'.2 = wl.2 /\ manager_ok m' marks (n + 1)) \/
  exists g q, wl'.2 = wl.2 ++ [frame_of (command c, (g, q))] /\ ((g, q) ∉ marks) /\ manager_ok m' (marks ++ [(g, q)]) (n + 1).
Proof.
  intros Hok Hn He. unfold execute in He. destruct (ensure_session m wl) as [[[s|e] m1] wl1] eqn:Hs.
  2: { destruct (ensure_session_ok _ _ _ _ _ _ _ Hok Hs) as [Hl Hok1]. simplify_eq/=. left. split; [done|].
    destruct Hok1 as [H0 H1 H2 H3 H4]. split; [lia|done| | |done].
    - intros s ?%H2. lia.
    - intros g q (? & ? & ?)%H3. split_and!; try lia. done. }
  destruct (ensure_session_ok _ _ _ _ _ _ _ Hok Hs) as (Hl & Hn1 & Hn2 & Hg & Hq & Hm). right.
  exists (generation s), (sequence s + 1). destruct Hok as [H0 H1 H2 H3 H4].
  assert ((generation s, sequence s + 1) ∉ marks) as Hfresh by (intros ?%Hm; lia).
  assert (forall mm, next_generation mm = next_generation m1 ->
    (forall s', session mm = Some s' -> generation s' = generation s /\ sequence s' = sequence s + 1) ->
    manager_ok mm (marks ++ [(generation s, sequence s + 1)]) (n + 1)) as Hmm.
  { intros mm E Hss. split; [lia|lia| | |].
    - intros s' [-> ->]%Hss. lia.
    - intros g q [Hin|[= -> ->]%list_elem_of_singleton]%elem_of_app.
      + destruct (H3 g q Hin) as (? & ? & _). split_and!; [lia..|]. intros s' [-> ->]%Hss ->. specialize (Hm q Hin). lia.
      + split_and!; [lia..|]. by intros s' [_ ->]%Hss _.
    - apply list.NoDup_app. split_and!; [done| |apply NoDup_singleton]. intros x Hx ->%list_elem_of_singleton. done. }
  destruct wl1 as [w1 log1]. unfold shell_execute in He. rewrite Z.min_l in He by lia.
  cbn [respond logged_device] in He.
  change (framed _ _) with (frame_of (command c, (generation s, sequence s + 1))) in He.
  destruct (respond w1 _) as [[| |reads wait] w2]; cbn [kill logged_device transport_healthy unavailable_outcome lost_outcome] in He.
  3: destruct (read_loop _ _ _ _ _ _) as [[o|] rest]; [destruct (transport_healthy o)|destruct wait].
  all: simplify_eq/=; (split_and!; [done|done|]); apply Hmm; [done|]; by intros ? [= <-].
Qed.

Lemma execute_all_logs {W} `{RootDevice W} cs m marks n (wl : W * list str) sent :
  manager_ok m marks n -> marks = sent.*2 -> n + Z.of_nat (length cs) <= u64_max -> wl.2 = frame_of <$> sent ->
  exists sent', (execute_all m cs wl).2.2 = frame_of <$> sent ++ sent' /\
    sent'.*1 `sublist_of` (command <$> cs) /\ NoDup (sent ++ sent').*2 /\
    Forall (fun x => is_u64 x.1 /\ is_u64 x.2) (sent ++ sent').*2.
Proof.
  revert m marks n wl sent. induction cs as [|c cs IH]; intros m marks n wl sent Hok -> Hn Hlog; cbn [execute_all].
  - exists []. rewrite app_nil_r. split_and!; [done|done|by destruct Hok|].
    apply Forall_forall. intros [g q] Hin%list_elem_of_In. destruct Hok as [_ H1 _ H3 _]. destruct (H3 g q Hin) as (? & ? & _).
    unfold in_width. cbn [fst snd length] in *. lia.
  - destruct (execute m c wl) as [[r m1] wl1] eqn:He. cbn [length] in Hn.
    destruct (execute_logs _ _ _ _ _ _ _ _ Hok ltac:(lia) He) as [[Hl Hok1]|(g & q & Hl & Hfresh & Hok1)].
    + destruct (IH m1 _ (n + 1) wl1 sent Hok1 eq_refl ltac:(lia) ltac:(congruence)) as (sent' & ? & ? & ? & ?).
      exists sent'. split_and!; try done. cbn [fmap list_fmap]. by apply sublist_cons.
    + destruct (IH m1 _ (n + 1) wl1 (sent ++ [(command c, (g, q))]) Hok1) as (sent' & H1 & H2 & H3 & H4).
      * by rewrite fmap_app.
      * lia.
      * by rewrite Hl, Hlog, fmap_app.
      * exists ((command c, (g, q)) :: sent'). rewrite <- app_assoc in H1, H3, H4. cbn [app] in *.
        split_and!; try done. cbn [fmap list_fmap]. by apply sublist_skip.
Qed.

Lemma manager_new_ok : manager_ok manager_new [] 0.
Proof. split; cbn; [lia|unfold u64_max; lia|done| |constructor]. by intros g q ?%not_elem_of_nil. Qed.

(** No command is ever sent twice, whatever the shells do.  Over any sequence
    of commands and any device, the frames written are those of a subsequence of
    the commands in their order, and no two of them carry the same marker, so
    that no shell's late answer can pass for another command's. *)
Theorem frames_never_repeat {W} `{RootDevice W} (cs : list RootCommand) (w : W) :
  Z.of_nat (length cs) <= u64_max ->
  exists sent : list (str * (Z * Z)),
    (execute_all manager_new cs (w, [])).2.2 = frame_of <$> sent /\
    sent.*1 `sublist_of` (command <$> cs) /\
    NoDup ((fun x => marker_of x.1 x.2 ++ lit ":") <$> sent.*2).
Proof.
  intros Hn. destruct (execute_all_logs cs manager_new [] 0 (w, []) [] manager_new_ok eq_refl ltac:(lia) eq_refl)
    as (sent & H1 & H2 & H3 & H4).
  exists sent. cbn [app] in *. split_and!; try done. clear H1 H2.
  induction H3 as [|[g q] marks Hx Hnd IH]; [constructor|]. apply Forall_cons_iff in H4 as [[Hg Hq] H4].
  cbn [fmap list_fmap]. constructor; [|by apply IH].
  intros ([g' q'] & E & Hin)%list_elem_of_fmap. apply Hx. rewrite Forall_forall in H4.
  destruct (H4 _ (proj1 (list_elem_of_In _ _) Hin)) as [Hg' Hq']. cbn [fst snd] in *.
  apply (f_equal (fun s => s ++ [])) in E. rewrite <- !app_assoc in E.
  apply marker_inj in E as (-> & -> & _); done.
Qed.

(** ** Witnesses *)

(** A device that starts every shell and reacts from a script. *)
#[export] Instance scripted : RootDevice (list reaction) := {|
  spawn w := (true, w);
  respond w _ := match w with [] => (Wrote [] Elapsed, []) | r :: w => (r, w) end;
  kill w := w |}.

Definition demo_command (s : str) : RootCommand := {| kind := Observation; command := s |}.
Definition demo_session : RootShellSession := {| generation := 1; sequence := 4; unread := [] |}.
Definition demo_manager : RootSessionManager := {| session := Some demo_session; next_generation := 2 |}.

Lemma command_answer_exact_witness :
  (execute demo_manager (demo_command (lit "id -u"))
     [Wrote (ReadLine <$> cut (shell_text (lit "0") (next_marker demo_session) 0)) Elapsed]).1.1 =
  Some (Ok {| exit_code := 0; stdout := lit "0" ++ [10]; timed_out := false; output_complete := true;
              session_generation := 1 |}).
Proof.
  rewrite (command_answer_exact demo_manager demo_session (demo_command (lit "id -u")) _ [] (lit "0") 0 Elapsed);
    [reflexivity|reflexivity|reflexivity| |unfold i32_max; lia|reflexivity].
  split; [|reflexivity]. constructor; [split; vm_compute; reflexivity|constructor].
Defined.

Definition late_reads : reaction :=
  Wrote (ReadLine <$> cut (shell_text [] (marker_of 1 5) 0 ++ shell_text (lit "0") (marker_of 1 6) 0)) Elapsed.

Lemma dropped_output_reaches_next_witness :
  let '(r1, m', w') := execute demo_manager (demo_command (lit "cmd phone data disable")) [Wrote [] Dropped; late_reads] in
  let '(r2, _, _) := execute m' (demo_command (lit "settings get global mobile_data")) w' in
  r1 = None /\
  r2 = Some (Ok {| exit_code := 0; stdout := shell_text [] (marker_of 1 5) 0 ++ lit "0" ++ [10]; timed_out := false;
                   output_complete := true; session_generation := 1 |}).
Proof.
  apply (dropped_output_reaches_next demo_manager demo_session (demo_command (lit "cmd phone data disable"))
    (demo_command (lit "settings get global mobile_data")) [Wrote [] Dropped; late_reads] [late_reads] []
    [] 0 (lit "0") 0 Elapsed (marker_of 1 5) (marker_of 1 6)); try reflexivity.
  - split; vm_compute; discriminate.
  - split; vm_compute; [discriminate|reflexivity].
  - split; [|vm_compute; reflexivity]. apply Forall_forall. intros x.
    vm_compute. intuition (subst; split; reflexivity).
  - split; vm_compute; discriminate.
Defined.

Lemma frames_never_repeat_witness :
  let cs := [demo_command (lit "a"); demo_command (lit "b")] in
  exists sent : list (str * (Z * Z)),
    (execute_all manager_new cs ([WriteFails], [])).2.2 = frame_of <$> sent /\
    sent.*1 `sublist_of` (command <$> cs) /\
    NoDup ((fun x => marker_of x.1 x.2 ++ lit ":") <$> sent.*2).
Proof. cbv zeta. apply (frames_never_repeat _ [WriteFails]). vm_compute. discriminate. Defined.
