(* ===== verification/Interaction.v ===== *)
(** * Programs that talk to their surroundings

    Asynchronous code is a program that issues requests and goes on with the
    replies.  A request is one point at which the surroundings act: a command
    sent to a root shell, a look at the clock, a section under a lock.  [interp]
    runs a program against a handler and keeps the trace; [sat] says what holds
    of every trace whatever the replies are. *)

From S2P Require Import Prelude.

Section programs.
Context {Req : Type} {Rep : Req -> Type}.

Inductive prog (A : Type) : Type :=
| Ret (a : A)
| Do (r : Req) (k : Rep r -> prog A).

Fixpoint prog_bind {A B} (p : prog A) (f : A -> prog B) : prog B :=
  match p with
  | Ret _ a => f a
  | Do _ r k => Do _ r (fun x => prog_bind (k x) f)
  end.

Definition request (r : Req) : prog (Rep r) := Do _ r (fun x => Ret _ x).

(** What happened, oldest first. *)
Abbreviation event := (sigT Rep).
Definition asked (e : event) : Req := projT1 e.

Section interp.
Context {W : Type} (handle : forall r : Req, W -> Rep r * W).

Fixpoint interp {A} (p : prog A) (w : W) : A * W * list event :=
  match p with
  | Ret _ a => (a, w, [])
  | Do _ r k =>
      let '(x, w) := handle r w in
      let '(a, w, t) := interp (k x) w in
      (a, w, existT r x :: t)
  end.
End interp.

(** Every trace of [p] after [t] ends in [Q]. *)
Fixpoint sat {A} (p : prog A) (t : list event) (Q : list event -> A -> Prop) : Prop :=
  match p with
  | Ret _ a => Q t a
  | Do _ r k => forall x, sat (k x) (t ++ [existT r x]) Q
  end.

Lemma sat_bind {A B} (p : prog A) (f : A -> prog B) t Q :
  sat (prog_bind p f) t Q <-> sat p t (fun t a => sat (f a) t Q).
Proof.
  revert t. induction p as [a|r k IH]; intros t; cbn [prog_bind sat]; [done|].
  split; intros H x; by apply IH.
Qed.

Lemma sat_mono {A} (p : prog A) t (Q Q' : list event -> A -> Prop) :
  (forall t a, Q t a -> Q' t a) -> sat p t Q -> sat p t Q'.
Proof. intros HQ. revert t. induction p as [a|r k IH]; intros t; cbn [sat]; auto. Qed.

Lemma interp_sat {W A} (handle : forall r : Req, W -> Rep r * W) (p : prog A) w t Q :
  sat p t Q -> Q (t ++ (interp handle p w).2) (interp handle p w).1.1.
Proof.
  revert w t. induction p as [a|r k IH]; intros w t; cbn [sat interp].
  - by rewrite app_nil_r.
  - intros H. destruct (handle r w) as [x w1]. specialize (IH x w1 _ (H x)).
    destruct (interp handle (k x) w1) as [[a w2] t2]. cbn [fst snd] in *. by rewrite <- app_assoc in IH.
Qed.

(** Where a sequence leaves its surroundings. *)
Lemma interp_bind {W A B} (handle : forall r : Req, W -> Rep r * W) (p : prog A) (f : A -> prog B) w :
  (interp handle (prog_bind p f) w).1.2 = (interp handle (f (interp handle p w).1.1) (interp handle p w).1.2).1.2.
Proof.
  revert w. induction p as [a|r k IH]; intros w; cbn [prog_bind interp]; [done|].
  destruct (handle r w) as [x w1]. specialize (IH x w1).
  destruct (interp handle (prog_bind (k x) f) w1) as [[b w2] t2].
  destruct (interp handle (k x) w1) as [[a w3] t3]. exact IH.
Qed.

(** What every trace of [p] on its own satisfies. *)
Definition emits {A} (p : prog A) (Q : list event -> A -> Prop) : Prop := sat p [] Q.

Lemma sat_emits {A} (p : prog A) t (Q : list event -> A -> Prop) :
  sat p t Q <-> emits p (fun t' a => Q (t ++ t') a).
Proof.
  unfold emits. cut (forall t0, sat p (t ++ t0) Q <-> sat p t0 (fun t' a => Q (t ++ t') a)).
  { intros H. specialize (H []). by rewrite app_nil_r in H. }
  induction p as [a|r k IH]; intros t0; cbn [sat]; [done|].
  split; intros H x; specialize (H x); [apply IH|apply IH in H]; by rewrite app_assoc in *.
Qed.

Lemma emits_ret {A} (a : A) Q : emits (Ret _ a) Q <-> Q [] a.
Proof. done. Qed.

Lemma emits_do {A} r (k : Rep r -> prog A) Q :
  emits (Do _ r k) Q <-> forall x, emits (k x) (fun t a => Q (existT r x :: t) a).
Proof. unfold emits at 1. cbn [sat app]. split; intros H x; [apply (sat_emits _ [existT r x]), H|apply (sat_emits _ [existT r x]), H]. Qed.

Lemma emits_bind {A B} (p : prog A) (f : A -> prog B) Q :
  emits (prog_bind p f) Q <-> emits p (fun t a => emits (f a) (fun t' b => Q (t ++ t') b)).
Proof.
  unfold emits at 1 2. rewrite sat_bind. split; apply sat_mono; intros t a; by rewrite sat_emits.
Qed.

Lemma emits_mono {A} (p : prog A) (Q Q' : list event -> A -> Prop) :
  (forall t a, Q t a -> Q' t a) -> emits p Q -> emits p Q'.
Proof. apply sat_mono. Qed.

Lemma emits_true {A} (p : prog A) : emits p (fun _ _ => True).
Proof. unfold emits. generalize (@nil event). induction p; intros t; cbn [sat]; auto. Qed.

Lemma emits_and {A} (p : prog A) (Q Q' : list event -> A -> Prop) :
  emits p Q -> emits p Q' -> emits p (fun t a => Q t a /\ Q' t a).
Proof.
  unfold emits. generalize (@nil event). induction p as [a|r k IH]; intros t; cbn [sat]; [done|].
  intros H1 H2 x. by apply IH.
Qed.

Lemma interp_emits {W A} (handle : forall r : Req, W -> Rep r * W) (p : prog A) w Q :
  emits p Q -> Q (interp handle p w).2 (interp handle p w).1.1.
Proof. apply (interp_sat handle p w []). Qed.

(** ** Traces *)

(** Every event is admissible after the ones before it. *)
Definition guarded (safe : list event -> event -> Prop) (t : list event) : Prop :=
  forall t1 e t2, t = t1 ++ e :: t2 -> safe t1 e.

Lemma guarded_nil safe : guarded safe [].
Proof. intros [] ? ?; done. Qed.

Lemma guarded_snoc safe t e : guarded safe (t ++ [e]) <-> guarded safe t /\ safe t e.
Proof.
  split.
  - intros H. split; [|by apply (H t e [])]. intros t1 e1 t2 ->. apply (H t1 e1 (t2 ++ [e])).
    by rewrite <- app_assoc.
  - intros [H1 H2] t1 e1 t2 E. destruct t2 as [|x t2 _] using rev_ind.
    + apply app_inj_tail in E as [-> ->]. done.
    + rewrite app_comm_cons, app_assoc in E. apply app_inj_tail in E as [-> ->]. by apply (H1 t1 e1 t2).
Qed.

(** ** Threads

    A program that has taken some of its steps. *)

Inductive follows {A} : prog A -> list event -> prog A -> Prop :=
| follows_refl p : follows p [] p
| follows_step p t r k x : follows p t (Do _ r k) -> follows p (t ++ [existT r x]) (k x).

Lemma emits_follows {A} (p : prog A) t (a : A) Q : emits p Q -> follows p t (Ret _ a) -> Q t a.
Proof.
  intros Hp Hf. change (sat (Ret _ a) t Q). revert Hp. induction Hf as [|p t r k x _ IH]; [done|].
  intros Hp. by apply (IH Hp).
Qed.

(** [safe t r x] of every step of [p] after [t], for replies that [rely] allows. *)
Fixpoint always {A} (rely : forall r, Rep r -> Prop) (safe : list event -> forall r, Rep r -> Prop)
    (p : prog A) (t : list event) : Prop :=
  match p with
  | Ret _ _ => True
  | Do _ r k => forall x, rely r x -> safe t r x /\ always rely safe (k x) (t ++ [existT r x])
  end.

Lemma always_follows {A} rely safe (p p' : prog A) t :
  always rely safe p [] -> follows p t p' -> Forall (fun e => rely (projT1 e) (projT2 e)) t -> always rely safe p' t.
Proof.
  intros Hp. induction 1 as [p|p t r k x _ IH]; [done|]. intros [H [Hx _]%Forall_cons_iff]%Forall_app.
  by apply (IH Hp H).
Qed.

Lemma always_bind {A B} rely safe (p : prog A) (f : A -> prog B) t :
  always rely safe p t ->
  (forall a t', always rely safe (f a) (t ++ t')) ->
  always rely safe (prog_bind p f) t.
Proof.
  revert t. induction p as [a|r k IH]; intros t Hp Hf; cbn [prog_bind always] in *.
  - specialize (Hf a []). by rewrite app_nil_r in Hf.
  - intros x Hx. destruct (Hp x Hx) as [H1 H2]. split; [done|]. apply IH; [done|].
    intros a t'. rewrite <- app_assoc. apply Hf.
Qed.

(** Every request of [p] satisfies [P]. *)
Fixpoint only {A} (P : Req -> Prop) (p : prog A) : Prop :=
  match p with
  | Ret _ _ => True
  | Do _ r k => P r /\ forall x, only P (k x)
  end.

Lemma only_bind {A B} P (p : prog A) (f : A -> prog B) :
  only P p -> (forall a, only P (f a)) -> only P (prog_bind p f).
Proof. induction p as [a|r k IH]; cbn [only prog_bind]; [auto|]. intros [H1 H2] Hf. split; auto. Qed.

(** What a program only asks for is all that its traces hold. *)
Lemma emits_only {A} (P : Req -> Prop) (p : prog A) :
  only P p -> emits p (fun t _ => Forall (fun e => P (projT1 e)) t).
Proof.
  induction p as [a|r k IH]; intros H; [by apply emits_ret|]. destruct H as [Hr Hk]. apply emits_do. intros x.
  eapply emits_mono; [|apply IH, Hk]. intros t b Ht. by constructor.
Qed.

Lemma only_mono {A} (P P' : Req -> Prop) (p : prog A) : (forall r, P r -> P' r) -> only P p -> only P' p.
Proof. intros HP. induction p as [a|r k IH]; cbn [only]; [done|]. intros [? ?]. split; auto. Qed.

Lemma only_always {A} (P : Req -> Prop) rely safe (p : prog A) t :
  (forall t r x, P r -> safe t r x) -> only P p -> always rely safe p t.
Proof.
  intros HP. revert t. induction p as [a|r k IH]; intros t; cbn [only always]; [done|].
  intros [H1 H2] x _. split; [by apply HP|by apply IH].
Qed.

(** Sequencing, when something is known of the first part's traces. *)
Lemma always_bind_emits {A B} (Q : list event -> A -> Prop) rely safe (p : prog A) (f : A -> prog B) t :
  emits p Q -> always rely safe p t ->
  (forall a t', Q t' a -> always rely safe (f a) (t ++ t')) ->
  always rely safe (prog_bind p f) t.
Proof.
  unfold emits. intros HQ Hp Hf. rewrite <- (app_nil_r t) in Hp |- *. revert HQ Hp. generalize (@nil event) as t1.
  induction p as [a|r k IH]; intros t1 HQ Hp; cbn [prog_bind always sat] in *; [by apply Hf|].
  intros x Hx. destruct (Hp x Hx) as [H1 H2]. split; [done|]. rewrite <- app_assoc in *. by apply IH.
Qed.

(** Sequencing, when the first part's requests are known. *)
Lemma always_bind_only {A B} (P : Req -> Prop) rely safe (p : prog A) (f : A -> prog B) t :
  only P p -> always rely safe p t ->
  (forall a t', Forall (fun e => P (projT1 e)) t' -> always rely safe (f a) (t ++ t')) ->
  always rely safe (prog_bind p f) t.
Proof.
  revert t. induction p as [a|r k IH]; intros t Ho Hp Hf; cbn [prog_bind always only] in *.
  - specialize (Hf a [] (Forall_nil_2 _)). by rewrite app_nil_r in Hf.
  - destruct Ho as [Hr Ho]. intros x Hx. destruct (Hp x Hx) as [H1 H2]. split; [done|]. apply IH; [done..|].
    intros a t' Ht'. rewrite <- app_assoc. apply Hf. by constructor.
Qed.
End programs.

Arguments prog : clear implicits.
Arguments Ret {Req Rep A} _.
Arguments Do {Req Rep A} _ _.

Abbreviation event Req Rep := (@sigT Req Rep).

Notation "'let>' x ':=' c 'in' k" := (prog_bind c (fun x => k))
  (at level 10, x pattern, c at level 100, k at level 200) : rust_scope.

(** ** Effects

    A method that keeps a local state [S], answers early with an [E], and talks
    to its surroundings.  [None] is a loop that has not come to an end yet. *)

Section effects.
Context {Req : Type} {Rep : Req -> Type} {S : Type}.

Definition act (E A : Type) : Type := S -> prog Req Rep (option (result E A) * S).

Definition act_ret {E A} (a : A) : act E A := fun s => Ret (Some (Ok a), s).
Definition throw {E A} (e : E) : act E A := fun s => Ret (Some (Err e), s).
Definition spin {E A} : act E A := fun s => Ret (None, s).

Definition act_bind {E A B} (m : act E A) (k : A -> act E B) : act E B := fun s =>
  prog_bind (m s) (fun '(r, s) =>
    match r with
    | Some (Ok a) => k a s
    | Some (Err e) => Ret (Some (Err e), s)
    | None => Ret (None, s)
    end).

(** The result as a value: [match m.await]. *)
Definition attempt {E F A} (m : act E A) : act F (result E A) := fun s =>
  prog_bind (m s) (fun '(r, s) => Ret (option_map Ok r, s)).

Definition act_map_err {E F A} (f : E -> F) (m : act E A) : act F A := fun s =>
  prog_bind (m s) (fun '(r, s) => Ret (option_map (map_err f) r, s)).

Definition ask {E} (r : Req) : act E (Rep r) := fun s => Do r (fun x => Ret (Some (Ok x), s)).
Definition get {E} : act E S := fun s => Ret (Some (Ok s), s).
Definition modify {E} (f : S -> S) : act E unit := fun s => Ret (Some (Ok tt), f s).
Definition lift_result {E A} (r : result E A) : act E A := fun s => Ret (Some r, s).

Lemma emits_act_bind {E A B} (m : act E A) (k : A -> act E B) s Q :
  emits (act_bind m k s) Q <->
  emits (m s) (fun t x =>
    match x.1 with
    | Some (Ok a) => emits (k a x.2) (fun t' y => Q (t ++ t') y)
    | Some (Err e) => Q t (Some (Err e), x.2)
    | None => Q t (None, x.2)
    end).
Proof.
  unfold act_bind. rewrite emits_bind. split; apply emits_mono; intros t' [[[a|e]|] s'];
    cbn [fst snd]; rewrite ?emits_ret, ?app_nil_r; done.
Qed.

Lemma sat_act_bind {E A B} (m : act E A) (k : A -> act E B) s t Q :
  sat (act_bind m k s) t Q <->
  sat (m s) t (fun t x =>
    match x.1 with
    | Some (Ok a) => sat (k a x.2) t Q
    | Some (Err e) => Q t (Some (Err e), x.2)
    | None => Q t (None, x.2)
    end).
Proof. unfold act_bind. rewrite sat_bind. split; apply sat_mono; intros t' [[[a|e]|] s']; done. Qed.

Lemma emits_attempt {E F A} (m : act E A) s (Q : _ -> option (result F (result E A)) * S -> Prop) :
  emits (attempt m s) Q <-> emits (m s) (fun t x => Q t (option_map Ok x.1, x.2)).
Proof.
  unfold attempt. rewrite emits_bind. split; apply emits_mono; intros t' [r s'];
    rewrite emits_ret, app_nil_r; done.
Qed.

Lemma emits_map_err {E F A} (f : E -> F) (m : act E A) s Q :
  emits (act_map_err f m s) Q <-> emits (m s) (fun t x => Q t (option_map (map_err f) x.1, x.2)).
Proof.
  unfold act_map_err. rewrite emits_bind. split; apply emits_mono; intros t' [r s'];
    rewrite emits_ret, app_nil_r; done.
Qed.

End effects.

Arguments act : clear implicits.

Notation "'let!' x ':=' c 'in' k" := (act_bind c (fun x => k))
  (at level 10, x pattern, c at level 100, k at level 200) : rust_scope.
Notation "c ';!' k" := (act_bind c (fun _ => k)) (at level 60, right associativity) : rust_scope.
