(* ===== verification/Threads.v ===== *)
(** * Interleaved programs

    Threads are programs of [Interaction] over one shared state.  A run is a
    sequence of scheduling decisions: a caller starts a new thread, or a thread
    takes its next request, answered from the shared state and from what the
    surroundings contribute.  A request may give birth to a task.  What holds of
    each step of every thread body holds of every event of every run. *)

From S2P Require Import Prelude Interaction.

Section threads.
Context {Req : Type} {Rep : Req -> Type} {State Input Caller Out : Type}.

(** [serve r s finished next x]: the answer to [r] and the state it leaves, or
    [None] when [x] does not fit the request.  [finished] says which threads have
    ended, [next] is the number a task born now would get. *)
Context (serve : forall r : Req, State -> (nat -> bool) -> nat -> Input -> option (Rep r * State))
        (born : forall r : Req, Rep r -> list (prog Req Rep Out))
        (body : Caller -> prog Req Rep Out).

Record world := { shared : State; threads : list (prog Req Rep Out) }.

Inductive sched := Call (c : Caller) | Advance (i : nat) (x : Input).

Abbreviation happening := (nat * sigT Rep)%type.

Definition finished (w : world) (i : nat) : bool :=
  match threads w !! i with Some (Ret _) => true | _ => false end.

Definition step (w : world) (e : sched) : option happening * world :=
  match e with
  | Call c => (None, {| shared := shared w; threads := threads w ++ [body c] |})
  | Advance i x =>
      match threads w !! i with
      | Some (Do r k) =>
          match serve r (shared w) (finished w) (length (threads w)) x with
          | Some (y, s) =>
              (Some (i, existT r y), {| shared := s; threads := <[i := k y]> (threads w) ++ born r y |})
          | None => (None, w)
          end
      | _ => (None, w)
      end
  end.

(** The events of a run, oldest first. *)
Fixpoint events (w : world) (es : list sched) : list happening :=
  match es with
  | [] => []
  | e :: es => option_list (step w e).1 ++ events (step w e).2 es
  end.

(** Where a run ends. *)
Definition runs (w : world) (es : list sched) : world := fold_left (fun w e => (step w e).2) es w.

Lemma events_app w es es' : events w (es ++ es') = events w es ++ events (runs w es) es'.
Proof. revert w. induction es as [|e es IH]; intros w; [done|]. cbn [events app]. by rewrite IH, app_assoc. Qed.

(** An invariant that the requests of a run keep. *)
Lemma runs_inv (P : Req -> Prop) (inv : State -> Prop) w es :
  (forall r s f n x y s', P r -> inv s -> serve r s f n x = Some (y, s') -> inv s') ->
  Forall (fun h : happening => P (projT1 h.2)) (events w es) ->
  inv (shared w) -> inv (shared (runs w es)).
Proof.
  intros Hserve. revert w. induction es as [|e es IH]; intros w He Hw; [done|]. cbn [events] in He.
  apply Forall_app in He as [H1 H2]. apply IH; [exact H2|]. clear IH H2. revert H1.
  destruct e as [c|i x]; [done|]. cbn [step]. destruct (threads w !! i) as [[a|r k]|]; try done.
  destruct (serve _ _ _ _ _) as [[y s]|] eqn:E; [|done]. intros [Hr _]%Forall_cons_iff. by eapply Hserve.
Qed.

(** The events of one thread. *)
Definition own (i : nat) (t : list happening) : list (sigT Rep) :=
  omap (fun '(j, e) => if decide (j = i) then Some e else None) t.

Lemma own_app i t t' : own i (t ++ t') = own i t ++ own i t'.
Proof. apply omap_app. Qed.

Lemma own_snoc i j e t : own i (t ++ [(j, e)]) = own i t ++ (if decide (j = i) then [e] else []).
Proof. rewrite own_app. cbn. by destruct (decide _). Qed.

(** ** From thread bodies to runs *)

Section lifting.
(** Rely and guarantee: a shared state that satisfies [inv] keeps its promises to
    a thread, and keeps [inv] when the thread keeps its own. *)
Context (inv : State -> Prop) (promised : forall r, Rep r -> Prop) (safe : list (sigT Rep) -> forall r, Rep r -> Prop).
Context (serve_promised : forall r s f n x y s', inv s -> serve r s f n x = Some (y, s') -> promised r y)
        (serve_inv : forall r s f n x y s' t, inv s -> serve r s f n x = Some (y, s') -> safe t r y -> inv s').

(** [B] is what is known of the bodies. *)
Context (B : prog Req Rep Out -> Prop) (B_safe : forall p, B p -> always promised safe p [])
        (body_B : forall c, B (body c)) (born_B : forall r y, Forall B (born r y)).

(** Every thread is some way through such a body. *)
Record tracked (w : world) (t : list happening) : Prop := {
  tracked_inv : inv (shared w);
  tracked_thread i p : threads w !! i = Some p ->
    exists b, B b /\ follows b (own i t) p;
  tracked_fresh i : (length (threads w) <= i)%nat -> own i t = [];
  tracked_promise i : Forall (fun e => promised (projT1 e) (projT2 e)) (own i t) }.

Lemma tracked_step w e t :
  tracked w t ->
  tracked (step w e).2 (t ++ option_list (step w e).1) /\
  (forall i r x, (step w e).1 = Some (i, existT r x) -> safe (own i t) r x).
Proof.
  intros [Hinv Ht Hf Hp]. destruct e as [c|i x]; cbn [step].
  - cbn [fst snd option_list]. rewrite app_nil_r. split; [|done]. split; cbn [threads shared]; [done| |intros i|done].
    + intros i p [H|[Hi H]]%lookup_app_Some; [by apply Ht|]. apply list_lookup_singleton_Some in H as [Hi' <-].
      exists (body c). split; [apply body_B|]. rewrite Hf by lia. constructor.
    + rewrite length_app. cbn. intros. apply Hf. lia.
  - destruct (threads w !! i) as [[a|r k]|] eqn:Hi; try (cbn [fst snd option_list]; rewrite app_nil_r; by split).
    destruct (serve _ _ _ _ _) as [[y s]|] eqn:Hs; [|cbn [fst snd option_list]; rewrite app_nil_r; by split].
    cbn [fst snd]. change (option_list (Some (i, existT r y))) with [(i, existT r y)].
    destruct (Ht i _ Hi) as (b & Hb & Hfol). pose proof (serve_promised _ _ _ _ _ _ _ Hinv Hs) as Hy.
    pose proof (always_follows _ _ _ _ _ (B_safe b Hb) Hfol (Hp i) y Hy) as [Hd _].
    pose proof (lookup_lt_Some _ _ _ Hi) as Hlt. split.
    2: { intros j r' x' E.
         apply (f_equal (fun o => match o with Some (j, e) => safe (own j t) (projT1 e) (projT2 e) | None => True end)) in E.
         cbn in E. by rewrite <- E. }
    split; cbn [threads shared].
    + by eapply serve_inv.
    + intros j p [H|[Hj H]]%lookup_app_Some; rewrite own_snoc.
      * apply list_lookup_insert_Some in H as [(<- & <- & _)|[Hne H]].
        -- rewrite decide_True by done. exists b. split; [done|]. by constructor.
        -- rewrite decide_False, app_nil_r by done. by apply Ht.
      * rewrite length_insert in Hj, H. rewrite decide_False, app_nil_r, Hf by lia.
        exists p. split; [|constructor]. pose proof (born_B r y) as HF. rewrite Forall_lookup in HF. by eapply HF.
    + intros j. rewrite length_app, length_insert, own_snoc. intros Hj.
      rewrite decide_False, app_nil_r by lia. apply Hf. lia.
    + intros j. rewrite own_snoc. apply Forall_app. split; [done|]. by destruct (decide _); repeat constructor.
Qed.

Lemma tracked_events es w t t1 i r x t2 :
  tracked w t -> events w es = t1 ++ (i, existT r x) :: t2 -> safe (own i (t ++ t1)) r x.
Proof.
  revert w t t1. induction es as [|e es IH]; intros w t t1 Hw E; [by destruct t1|].
  cbn [events] in E. destruct (tracked_step w e t Hw) as [Hw' Hd].
  destruct (step w e) as [[[j [r' x']]|] w'] eqn:Hs; cbn [fst snd option_list app] in *.
  - destruct t1 as [|e1 t1].
    + apply (f_equal head) in E. cbn [head app] in E. rewrite app_nil_r. by apply Hd.
    + injection E as <- E. rewrite cons_middle, app_assoc. by apply (IH w').
  - rewrite app_nil_r in Hw'. by apply (IH w').
Qed.

Lemma tracked_runs es w t : tracked w t -> tracked (runs w es) (t ++ events w es).
Proof.
  revert w t. induction es as [|e es IH]; intros w t Hw; cbn [events].
  - by rewrite app_nil_r.
  - rewrite app_assoc. apply (IH (step w e).2). by apply tracked_step.
Qed.

Lemma tracked_start s : inv s -> tracked {| shared := s; threads := [] |} [].
Proof. intros Hs. split; [done|by intros j p|done|constructor]. Qed.
End lifting.

(** The theorem of the section: from a world without threads. *)
Lemma events_safe (inv : State -> Prop) promised safe :
  (forall r s f n x y s', inv s -> serve r s f n x = Some (y, s') -> promised r y) ->
  (forall r s f n x y s' t, inv s -> serve r s f n x = Some (y, s') -> safe t r y -> inv s') ->
  (forall c, always promised safe (body c) []) ->
  (forall r y, Forall (fun p => always promised safe p []) (born r y)) ->
  forall s es t1 i r x t2,
  inv s -> events {| shared := s; threads := [] |} es = t1 ++ (i, existT r x) :: t2 -> safe (own i t1) r x.
Proof.
  intros Hp Hi Hb Hn s es t1 i r x t2 Hs. apply (tracked_events inv promised safe Hp Hi (fun p => always promised safe p [])
    (fun _ H => H) Hb Hn es _ []). by apply tracked_start.
Qed.

(** An invariant of the state and of what has happened, for runs in which each thread
    keeps to [safe]. *)
Lemma traced_inv (safe : list (sigT Rep) -> forall r, Rep r -> Prop) (inv : list happening -> State -> Prop) w es :
  (forall t i r s f n x y s', inv t s -> safe (own i t) r y -> serve r s f n x = Some (y, s') -> inv (t ++ [(i, existT r y)]) s') ->
  (forall t1 i r y t2, events w es = t1 ++ (i, existT r y) :: t2 -> safe (own i t1) r y) ->
  inv [] (shared w) -> inv (events w es) (shared (runs w es)).
Proof.
  intros Hstep. cut (forall t, (forall t1 i r y t2, events w es = t1 ++ (i, existT r y) :: t2 -> safe (own i (t ++ t1)) r y) ->
    inv t (shared w) -> inv (t ++ events w es) (shared (runs w es))); [intros H Hs; by apply (H [])|].
  revert w. induction es as [|e es IH]; intros w t Hs Hw; cbn [events] in *; [by rewrite app_nil_r|].
  rewrite app_assoc. apply (IH (step w e).2); clear IH.
  - intros t1 i r y t2 E. rewrite <- app_assoc. apply (Hs _ i r y t2). rewrite E. by rewrite <- app_assoc.
  - revert Hs. destruct e as [c|i x]; cbn [step]; [intros _; cbn; by rewrite app_nil_r|].
    destruct (threads w !! i) as [[a|r k]|]; try (intros _; cbn; by rewrite app_nil_r).
    destruct (serve _ _ _ _ _) as [[y s]|] eqn:E; [|intros _; cbn; by rewrite app_nil_r]. intros Hs. cbn [fst snd option_list shared].
    eapply Hstep; [exact Hw| |exact E]. specialize (Hs [] i r y _ eq_refl). by rewrite app_nil_r in Hs.
Qed.

(** The same at each event: the state that answered it satisfied the invariant. *)
Lemma traced_at (safe : list (sigT Rep) -> forall r, Rep r -> Prop) (inv : list happening -> State -> Prop) w es :
  (forall t i r s f n x y s', inv t s -> safe (own i t) r y -> serve r s f n x = Some (y, s') -> inv (t ++ [(i, existT r y)]) s') ->
  (forall t1 i r y t2, events w es = t1 ++ (i, existT r y) :: t2 -> safe (own i t1) r y) ->
  inv [] (shared w) ->
  forall t1 e t2, events w es = t1 ++ e :: t2 -> exists s f n x s',
    inv t1 s /\ serve (projT1 e.2) s f n x = Some (projT2 e.2, s').
Proof.
  intros Hstep. cut (forall t, (forall t1 i r y t2, events w es = t1 ++ (i, existT r y) :: t2 -> safe (own i (t ++ t1)) r y) ->
    inv t (shared w) -> forall t1 e t2, events w es = t1 ++ e :: t2 -> exists s f n x s',
    inv (t ++ t1) s /\ serve (projT1 e.2) s f n x = Some (projT2 e.2, s')); [intros H Hs; by apply (H [])|].
  revert w. induction es as [|e es IH]; intros w t Hs Hw t1 ev t2 E; cbn [events] in *; [by destruct t1|].
  revert Hs E. destruct e as [c|i x]; cbn [step]; [intros Hs E; exact (IH _ t Hs Hw t1 ev t2 E)|].
  destruct (threads w !! i) as [[a|r k]|]; try (intros Hs E; exact (IH _ t Hs Hw t1 ev t2 E)).
  destruct (serve _ _ _ _ _) as [[y s]|] eqn:Es; [|intros Hs E; exact (IH _ t Hs Hw t1 ev t2 E)]. cbn [fst snd option_list app]. intros Hs E.
  destruct t1 as [|e1 t1].
  - injection E as <- _. rewrite app_nil_r. eexists _, _, _, x, s. split; [exact Hw|exact Es].
  - injection E as <- E. rewrite cons_middle, app_assoc. eapply (IH {| shared := s; threads := _ |}); [| |exact E].
    + intros t3 j r' y' t4 E'. rewrite <- app_assoc. apply (Hs ((i, existT r y) :: t3) j r' y' t4). by rewrite E'.
    + eapply Hstep; [exact Hw| |exact Es]. specialize (Hs [] i r y _ eq_refl). by rewrite app_nil_r in Hs.
Qed.

(** What the bodies emit holds of every thread that has ended. *)
Lemma finished_emits (Q : list (sigT Rep) -> Out -> Prop) :
  (forall c, emits (body c) Q) -> (forall r y, Forall (fun p => emits p Q) (born r y)) ->
  forall s es i a, threads (runs {| shared := s; threads := [] |} es) !! i = Some (Ret a) ->
  Q (own i (events {| shared := s; threads := [] |} es)) a.
Proof.
  intros Hb Hn s es i a Hi.
  assert (tracked (fun _ => True) (fun _ _ => True) (fun p => emits p Q) (runs {| shared := s; threads := [] |} es)
    ([] ++ events {| shared := s; threads := [] |} es)) as Ht.
  { apply (tracked_runs (fun _ => True) (fun _ _ => True) (fun _ _ _ => True)); try done.
    intros p _. generalize (@nil (sigT Rep)). induction p as [b|r k IH]; intros t; cbn [always]; auto. }
  destruct (tracked_thread _ _ _ _ _ Ht i _ Hi) as (b & HB & Hf). by eapply emits_follows.
Qed.
End threads.

Arguments world : clear implicits.
Arguments sched : clear implicits.
Arguments Call {Input Caller} _.
Arguments Advance {Input Caller} _ _.
