(* ===== verification/RootPolicyRuntime.v ===== *)
(** * Root policy runtime

    [src/crates/runtime/src/root_policy_effect.rs] and
    [root_policy_runtime.rs]: the transaction that brings the kernel's rules and
    mangle tables to the policy of [RootPolicy], and the exact clean-up.

    The transaction talks to a [RootPolicyIo]: its methods are requests with the
    command window going in and coming out, next to the clock and to the
    caller's currentness predicate.  [RootPolicyEffectExecutor] is the
    implementation over the root session. *)

From Stdlib Require Import String.
From stdpp Require Import gmap.
From S2P Require Import Prelude Net RustStr MangleAudit RootPolicy RootSession Interaction.

(** ** Command window *)

Inductive RootPolicyEffectFailure :=
| EffectObservationUnavailable | EffectObservationIncomplete | EffectMutationRejected | EffectMutationUncertain.

Record RootPolicyCommandWindowDiagnostic := {
  commands : Z;
  observation_commands : Z;
  mutation_commands : Z;
  duplicate_observations : Z;
  incomplete_or_timed_out_commands : Z;
  mutation_failures : Z }.

Definition window_diagnostic_default : RootPolicyCommandWindowDiagnostic :=
  {| commands := 0; observation_commands := 0; mutation_commands := 0; duplicate_observations := 0;
     incomplete_or_timed_out_commands := 0; mutation_failures := 0 |}.

Record RootPolicyCommandWindow := {
  window_diagnostic : RootPolicyCommandWindowDiagnostic;
  seen_observations : gset str }.

Definition window_default : RootPolicyCommandWindow :=
  {| window_diagnostic := window_diagnostic_default; seen_observations := ∅ |}.

Definition saturating_add (a b : Z) : Z := Z.min (a + b) u64_max.
Definition saturating_sub (a b : Z) : Z := Z.max (a - b) 0.
Definition bump (n : Z) (b : bool) : Z := if b then saturating_add n 1 else n.

Definition non_authoritative (r : RootCommandResult) : bool := timed_out r || negb (output_complete r).

Definition record_observation (w : RootPolicyCommandWindow) (command : str) (r : RootCommandResult)
    : RootPolicyCommandWindow :=
  let d := window_diagnostic w in
  let seen := bool_decide (command ∈ seen_observations w) in
  {| window_diagnostic := {|
       commands := bump (commands d) true;
       observation_commands := bump (observation_commands d) true;
       mutation_commands := mutation_commands d;
       duplicate_observations := bump (duplicate_observations d) seen;
       incomplete_or_timed_out_commands := bump (incomplete_or_timed_out_commands d) (non_authoritative r);
       mutation_failures := mutation_failures d |};
     seen_observations := {[command]} ∪ seen_observations w |}.

Definition record_mutation (w : RootPolicyCommandWindow) (r : RootCommandResult) : RootPolicyCommandWindow :=
  let d := window_diagnostic w in
  {| window_diagnostic := {|
       commands := bump (commands d) true;
       observation_commands := observation_commands d;
       mutation_commands := bump (mutation_commands d) true;
       duplicate_observations := duplicate_observations d;
       incomplete_or_timed_out_commands := bump (incomplete_or_timed_out_commands d) (non_authoritative r);
       mutation_failures :=
         bump (mutation_failures d) (non_authoritative r || negb (exit_code r =? 0)) |};
     seen_observations := seen_observations w |}.

(** ** The executor over the root session *)

Inductive session_request := Execute (c : RootCommand) | CurrentGeneration.

Definition session_reply (r : session_request) : Type :=
  match r with
  | Execute _ => result RootSessionError RootCommandResult
  | CurrentGeneration => option Z
  end.

Definition parse_lines (stdout : str) : list str :=
  List.filter (fun line => line <>b? []) (trim <$> lines stdout).

Section executor.
Abbreviation eff := (act session_request session_reply RootPolicyCommandWindow).

Definition executor_generation {E} : eff E (option Z) := ask CurrentGeneration.

Definition executor_raw_observation (command : str) : eff RootSessionError RootCommandResult :=
  let! c := lift_result (observation command) in
  let! r := ask (Execute c) in
  lift_result r.

(** One attempt of [observe]. *)
Definition observe_once (command : str) : eff RootPolicyEffectFailure RootCommandResult :=
  let! c := lift_result (map_err (fun _ => EffectObservationUnavailable) (observation command)) in
  let! r := ask (Execute c) in
  let! r := lift_result (map_err (fun _ => EffectObservationUnavailable) r) in
  modify (fun w => record_observation w command r) ;! act_ret r.

Definition executor_observe (command : str) : eff RootPolicyEffectFailure RootCommandResult :=
  let! r := observe_once command in
  let! r := if non_authoritative r then observe_once command else act_ret r in
  if non_authoritative r then throw EffectObservationIncomplete else act_ret r.

Definition executor_lines (command : str) : eff RootPolicyEffectFailure (list str) :=
  let! r := executor_observe command in
  if negb (exit_code r =? 0) then throw EffectObservationUnavailable else act_ret (parse_lines (stdout r)).

Definition executor_mutate (command : str) : eff RootPolicyEffectFailure unit :=
  let! c := lift_result (map_err (fun _ => EffectMutationRejected) (mutation command)) in
  let! r := ask (Execute c) in
  match r with
  | Err _ => throw EffectMutationUncertain
  | Ok r =>
      modify (fun w => record_mutation w r) ;!
      if non_authoritative r then throw EffectMutationUncertain
      else if negb (exit_code r =? 0) then throw EffectMutationRejected
      else act_ret tt
  end.
End executor.

(** ** Results and diagnostics *)

Inductive RootAuthorityStatus := Ready | InteractiveGrantRequired | Denied | Unavailable | Incomplete.

#[export] Instance RootAuthorityStatus_eq_dec : EqDecision RootAuthorityStatus.
Proof. solve_decision. Defined.

Inductive RootPolicyFailure :=
| InvalidInterface | ReservedPolicyCollision | ObservationUnavailable | ObservationIncomplete
| StructuralMismatch | RouteTableDiscoveryFailed | MutationRejected | MutationUncertain
| LookupRuleCreationFailed | RouteLookupVerificationFailed | ExactCleanupFailed.

Inductive RootPolicyCleanupFailure :=
| CleanupIdentityUnavailable | IdentityCollision | Ipv4LookupDeleteFailed | Ipv4OutputJumpDeleteFailed
| Ipv4LegacySelectorDeleteFailed | Ipv4ChainDeleteFailed | Ipv4GuardDeleteFailed | Ipv6OutputJumpDeleteFailed
| Ipv6LegacySelectorDeleteFailed | Ipv6ChainDeleteFailed | Ipv6GuardDeleteFailed | FinalVerificationFailed.

Inductive RootPolicyResult :=
| Enforced
| FailClosed (f : option RootPolicyFailure)
| AuthorityUnavailable (s : RootAuthorityStatus).

Inductive RootPolicyReconcileOutcome := Completed (r : RootPolicyResult) | Superseded.

Definition retryable (r : RootPolicyResult) : bool :=
  match r with
  | AuthorityUnavailable (Unavailable | Incomplete) => true
  | FailClosed (Some (ObservationUnavailable | ObservationIncomplete | MutationUncertain)) => true
  | _ => false
  end.

Definition map_effect_failure (f : RootPolicyEffectFailure) : RootPolicyFailure :=
  match f with
  | EffectObservationUnavailable => ObservationUnavailable
  | EffectObservationIncomplete => ObservationIncomplete
  | EffectMutationRejected => MutationRejected
  | EffectMutationUncertain => MutationUncertain
  end.

Record RootPolicyPhaseDiagnostic := {
  ph_elapsed_ms : Z; ph_commands : Z; ph_observation_commands : Z; ph_mutation_commands : Z;
  ph_duplicate_observations : Z }.

Definition phase_default : RootPolicyPhaseDiagnostic :=
  {| ph_elapsed_ms := 0; ph_commands := 0; ph_observation_commands := 0; ph_mutation_commands := 0;
     ph_duplicate_observations := 0 |}.

Record RootPolicyPhaseDiagnostics := {
  initial_snapshot : RootPolicyPhaseDiagnostic;
  fail_closed_prepare : RootPolicyPhaseDiagnostic;
  fail_closed_verify : RootPolicyPhaseDiagnostic;
  table_discovery : RootPolicyPhaseDiagnostic;
  admitted_apply_verify : RootPolicyPhaseDiagnostic }.

Definition phases_default : RootPolicyPhaseDiagnostics :=
  {| initial_snapshot := phase_default; fail_closed_prepare := phase_default; fail_closed_verify := phase_default;
     table_discovery := phase_default; admitted_apply_verify := phase_default |}.

Record RootPolicyReconcileDiagnostic := {
  attempts : Z;
  total_executor_commands : Z; total_observation_commands : Z; total_mutation_commands : Z;
  total_duplicate_observations : Z;
  last_reconcile_elapsed_ms : Z; max_reconcile_elapsed_ms : Z;
  last_policy_effect_elapsed_ms : Z; max_policy_effect_elapsed_ms : Z;
  last_executor_commands : Z; last_observation_commands : Z; last_mutation_commands : Z;
  last_duplicate_observations : Z; last_incomplete_or_timed_out_commands : Z; last_mutation_failures : Z;
  last_phases : RootPolicyPhaseDiagnostics }.

Definition reconcile_diagnostic_default : RootPolicyReconcileDiagnostic :=
  {| attempts := 0; total_executor_commands := 0; total_observation_commands := 0; total_mutation_commands := 0;
     total_duplicate_observations := 0; last_reconcile_elapsed_ms := 0; max_reconcile_elapsed_ms := 0;
     last_policy_effect_elapsed_ms := 0; max_policy_effect_elapsed_ms := 0; last_executor_commands := 0;
     last_observation_commands := 0; last_mutation_commands := 0; last_duplicate_observations := 0;
     last_incomplete_or_timed_out_commands := 0; last_mutation_failures := 0; last_phases := phases_default |}.

(** Instants and durations are nanoseconds. *)
Definition duration_ms (duration : Z) : Z := Z.min (duration / 1000000) u64_max.
Definition elapsed (started now : Z) : Z := Z.max 0 (now - started).

Definition phase_diagnostic (started now : Z) (before after : RootPolicyCommandWindowDiagnostic)
    : RootPolicyPhaseDiagnostic :=
  {| ph_elapsed_ms := duration_ms (elapsed started now);
     ph_commands := saturating_sub (commands after) (commands before);
     ph_observation_commands := saturating_sub (observation_commands after) (observation_commands before);
     ph_mutation_commands := saturating_sub (mutation_commands after) (mutation_commands before);
     ph_duplicate_observations := saturating_sub (duplicate_observations after) (duplicate_observations before) |}.

Definition record_reconcile (d : RootPolicyReconcileDiagnostic) (reconcile_elapsed policy_elapsed : Z)
    (w : RootPolicyCommandWindowDiagnostic) (phases : RootPolicyPhaseDiagnostics) : RootPolicyReconcileDiagnostic :=
  let reconcile_ms := duration_ms reconcile_elapsed in
  let policy_ms := duration_ms policy_elapsed in
  {| attempts := saturating_add (attempts d) 1;
     total_executor_commands := saturating_add (total_executor_commands d) (commands w);
     total_observation_commands := saturating_add (total_observation_commands d) (observation_commands w);
     total_mutation_commands := saturating_add (total_mutation_commands d) (mutation_commands w);
     total_duplicate_observations := saturating_add (total_duplicate_observations d) (duplicate_observations w);
     last_reconcile_elapsed_ms := reconcile_ms;
     max_reconcile_elapsed_ms := Z.max (max_reconcile_elapsed_ms d) reconcile_ms;
     last_policy_effect_elapsed_ms := policy_ms;
     max_policy_effect_elapsed_ms := Z.max (max_policy_effect_elapsed_ms d) policy_ms;
     last_executor_commands := commands w;
     last_observation_commands := observation_commands w;
     last_mutation_commands := mutation_commands w;
     last_duplicate_observations := duplicate_observations w;
     last_incomplete_or_timed_out_commands := incomplete_or_timed_out_commands w;
     last_mutation_failures := mutation_failures w;
     last_phases := phases |}.

(** ** The runtime's surroundings and state *)

Inductive io_request :=
| SessionGeneration
| RawObservation (command : str)
| Observe (command : str) (w : RootPolicyCommandWindow)
| Lines (command : str) (w : RootPolicyCommandWindow)
| Mutate (command : str) (w : RootPolicyCommandWindow)
| IsCurrent
| Now.

Definition io_reply (r : io_request) : Type :=
  match r with
  | SessionGeneration => option Z
  | RawObservation _ => result RootSessionError RootCommandResult
  | Observe _ _ => result RootPolicyEffectFailure RootCommandResult * RootPolicyCommandWindow
  | Lines _ _ => result RootPolicyEffectFailure (list str) * RootPolicyCommandWindow
  | Mutate _ _ => result RootPolicyEffectFailure unit * RootPolicyCommandWindow
  | IsCurrent => bool
  | Now => Z
  end.

(** [RootPolicyState], with the locals of one call: its window and its trace. *)
Record rt := {
  contract : RootPolicyContract;
  ready_session_generation : option Z;
  terminal_authority : option RootAuthorityStatus;
  diagnostic : RootPolicyReconcileDiagnostic;
  window : RootPolicyCommandWindow;
  phases : RootPolicyPhaseDiagnostics;
  superseded : bool }.

Definition runtime_new (uid : Z) (ns : RootPolicyNamespace) : option rt :=
  match contract_new uid ns with
  | None => None
  | Some c => Some {| contract := c; ready_session_generation := None; terminal_authority := None;
                      diagnostic := reconcile_diagnostic_default; window := window_default;
                      phases := phases_default; superseded := false |}
  end.

Definition set_contract (s : rt) (c : RootPolicyContract) : rt :=
  {| contract := c; ready_session_generation := ready_session_generation s;
     terminal_authority := terminal_authority s; diagnostic := diagnostic s; window := window s;
     phases := phases s; superseded := superseded s |}.
Definition set_ready (s : rt) (g : option Z) : rt :=
  {| contract := contract s; ready_session_generation := g;
     terminal_authority := terminal_authority s; diagnostic := diagnostic s; window := window s;
     phases := phases s; superseded := superseded s |}.
Definition set_terminal (s : rt) (a : RootAuthorityStatus) : rt :=
  {| contract := contract s; ready_session_generation := ready_session_generation s;
     terminal_authority := Some a; diagnostic := diagnostic s; window := window s;
     phases := phases s; superseded := superseded s |}.
Definition set_diagnostic (s : rt) (d : RootPolicyReconcileDiagnostic) : rt :=
  {| contract := contract s; ready_session_generation := ready_session_generation s;
     terminal_authority := terminal_authority s; diagnostic := d; window := window s;
     phases := phases s; superseded := superseded s |}.
Definition set_window (s : rt) (w : RootPolicyCommandWindow) : rt :=
  {| contract := contract s; ready_session_generation := ready_session_generation s;
     terminal_authority := terminal_authority s; diagnostic := diagnostic s; window := w;
     phases := phases s; superseded := superseded s |}.
Definition set_phases (s : rt) (p : RootPolicyPhaseDiagnostics) : rt :=
  {| contract := contract s; ready_session_generation := ready_session_generation s;
     terminal_authority := terminal_authority s; diagnostic := diagnostic s; window := window s;
     phases := p; superseded := superseded s |}.
Definition set_superseded (s : rt) (b : bool) : rt :=
  {| contract := contract s; ready_session_generation := ready_session_generation s;
     terminal_authority := terminal_authority s; diagnostic := diagnostic s; window := window s;
     phases := phases s; superseded := b |}.

Abbreviation rio := (act io_request io_reply rt).

Definition with_window {E A} (f : RootPolicyCommandWindow -> io_request)
    (take : forall w, io_reply (f w) -> result RootPolicyEffectFailure A * RootPolicyCommandWindow)
    (into : RootPolicyEffectFailure -> E) : rio E A := fun s =>
  Do (f (window s)) (fun x =>
    let '(r, w) := take (window s) x in Ret (Some (map_err into r), set_window s w)).

(** [self.io.observe(command, window).await] and its sisters. *)
Definition io_observe {E} (into : RootPolicyEffectFailure -> E) (command : str) : rio E RootCommandResult :=
  with_window (Observe command) (fun _ x => x) into.
Definition io_lines {E} (into : RootPolicyEffectFailure -> E) (command : str) : rio E (list str) :=
  with_window (Lines command) (fun _ x => x) into.
Definition io_mutate {E} (into : RootPolicyEffectFailure -> E) (command : str) : rio E unit :=
  with_window (Mutate command) (fun _ x => x) into.

Abbreviation observe_ := (io_observe map_effect_failure).
Abbreviation lines_ := (io_lines map_effect_failure).
Abbreviation mutate_ := (io_mutate map_effect_failure).

Definition the_contract {E} : rio E RootPolicyContract := fun s => Ret (Some (Ok (contract s)), s).
Definition is_current {E} : rio E bool := ask IsCurrent.
Definition now_ {E} : rio E Z := ask Now.
Definition require {E} (b : bool) (e : E) : rio E unit := if b then act_ret tt else throw e.

Definition MAX_RECONCILE_PASSES : nat := 8.
Definition mangle_show (binary : str) : str := binary ++ lit " -t mangle -S".

(** ** Reading *)

Definition read_snapshot : rio RootPolicyFailure RootPolicySnapshot :=
  let! r4 := lines_ IPV4_RULE_SHOW in
  let! r6 := lines_ IPV6_RULE_SHOW in
  let! m4 := lines_ (mangle_show IPTABLES) in
  let! m6 := lines_ (mangle_show IP6TABLES) in
  act_ret {| ipv4_rules := r4; ipv6_rules := r6; ipv4_mangle := m4; ipv6_mangle := m6 |}.

(** ** Guards *)

Definition rule_show (ipv4 : bool) : str := if ipv4 then IPV4_RULE_SHOW else IPV6_RULE_SHOW.
Definition guard_present (c : RootPolicyContract) (ipv4 : bool) (rules : list str) : bool :=
  if ipv4 then existsb (is_owned_ipv4_guard c) rules else existsb (is_owned_ipv6_guard c) rules.

Definition ensure_guard (ipv4 : bool) : rio RootPolicyFailure unit :=
  let! c := the_contract in
  let! current := lines_ (rule_show ipv4) in
  if guard_present c ipv4 current then act_ret tt
  else
    let! add := lift_result (ok_or (if ipv4 then ipv4_guard_add c else ipv6_guard_add c) StructuralMismatch) in
    mutate_ add ;!
    let! verified := lines_ (rule_show ipv4) in
    require (guard_present c ipv4 verified) StructuralMismatch.

(** [n] passes; the source gives up after them. *)
Fixpoint remove_guard_passes (n : nat) (ipv4 : bool) : rio RootPolicyFailure unit :=
  match n with
  | O => throw ExactCleanupFailed
  | S n =>
      let! c := the_contract in
      let! rules := lines_ (rule_show ipv4) in
      if negb (guard_present c ipv4 rules) then act_ret tt
      else
        let! delete := lift_result (ok_or (if ipv4 then ipv4_guard_delete c else ipv6_guard_delete c) ExactCleanupFailed) in
        mutate_ delete ;! remove_guard_passes n ipv4
  end.
Definition remove_guard (ipv4 : bool) : rio RootPolicyFailure unit :=
  remove_guard_passes MAX_RECONCILE_PASSES ipv4.

(** ** Lookups *)

Fixpoint delete_lookups (c : RootPolicyContract) (missing : RootPolicyFailure) (tables : list str)
    : rio RootPolicyFailure unit :=
  match tables with
  | [] => act_ret tt
  | table :: tables =>
      let! delete := lift_result (ok_or (ipv4_lookup_delete c table) missing) in
      mutate_ delete ;! delete_lookups c missing tables
  end.

Fixpoint remove_lookups_passes (n : nat) : rio RootPolicyFailure unit :=
  let! c := the_contract in
  let! rules := lines_ IPV4_RULE_SHOW in
  match n with
  | O => require (owned_ipv4_lookup_tables c rules =b? []) MutationRejected
  | S n =>
      let tables := owned_ipv4_lookup_tables c rules in
      if tables =b? [] then act_ret tt
      else delete_lookups c MutationRejected tables ;! remove_lookups_passes n
  end.
Definition remove_owned_ipv4_lookups : rio RootPolicyFailure unit := remove_lookups_passes MAX_RECONCILE_PASSES.

Definition replace_ipv4_lookup (table : str) : rio RootPolicyFailure unit :=
  let! c := the_contract in
  let! rules := lines_ IPV4_RULE_SHOW in
  let existing := owned_ipv4_lookup_tables c rules in
  delete_lookups c LookupRuleCreationFailed (List.filter (fun e => e <>b? table) existing) ;!
  let! after_delete := lines_ IPV4_RULE_SHOW in
  if list_contains (owned_ipv4_lookup_tables c after_delete) table then act_ret tt
  else
    let! add := lift_result (ok_or (ipv4_lookup_add c table) LookupRuleCreationFailed) in
    mutate_ add ;!
    let! after_add := lines_ IPV4_RULE_SHOW in
    require (list_contains (owned_ipv4_lookup_tables c after_add) table) LookupRuleCreationFailed.

Definition route_show (table : str) : str := lit "ip -4 route show table " ++ table ++ lit " default".

Fixpoint matching_tables (interface : str) (tables : list str) : rio RootPolicyFailure (list str) :=
  match tables with
  | [] => act_ret []
  | table :: tables =>
      let! route := observe_ (route_show table) in
      let hit := (exit_code route =? 0) && route_has_default_on_interface (parse_lines (stdout route)) interface in
      let! rest := matching_tables interface tables in
      act_ret (if hit then table :: rest else rest)
  end.

Definition discover_validated_ipv4_table (rules : list str) (interface : str) : rio RootPolicyFailure str :=
  let! matching := matching_tables interface (referenced_tables rules) in
  match matching with
  | [table] => act_ret table
  | _ => throw RouteTableDiscoveryFailed
  end.

(** ** Mangle families *)

Definition family_state (ls : list str) (ipv4 : bool) : rio RootPolicyFailure MangleFamilyState :=
  let! c := the_contract in
  lift_result (ok_or (mangle_family_state c ls ipv4) StructuralMismatch).

(** The [while] loop over duplicate output jumps, for at most [fuel] turns. *)
Fixpoint drop_duplicate_jumps (fuel : nat) (binary : str) (snapshot : list str) : rio RootPolicyFailure (list str) :=
  let! c := the_contract in
  if (output_jump_count c snapshot <=? 1)%nat then act_ret snapshot
  else
    match fuel with
    | O => spin
    | S fuel =>
        let! deleted := attempt (io_mutate id (output_jump_delete c binary)) in
        match deleted with
        | Ok _ =>
            let! snapshot := lines_ (mangle_show binary) in
            drop_duplicate_jumps fuel binary snapshot
        | Err EffectMutationUncertain =>
            let! snapshot := lines_ (mangle_show binary) in
            if (output_jump_count c snapshot <=? 1)%nat then act_ret snapshot else throw MutationUncertain
        | Err error => throw (map_effect_failure error)
        end
    end.

Fixpoint append_rules (binary : str) (rules : list str) : rio RootPolicyFailure unit :=
  match rules with
  | [] => act_ret tt
  | rule :: rules => mutate_ (binary ++ lit " -t mangle " ++ rule) ;! append_rules binary rules
  end.

Definition owned_lines (c : RootPolicyContract) (ipv4 : bool) : option (list str) :=
  if ipv4 then ipv4_owned_chain_lines c else ipv6_owned_chain_lines c.

(** The steps of [ensure_mangle_family], each entered in the state the one
    before it left. *)
Definition create_if_missing (binary : str) (ipv4 : bool) (st : MangleFamilyState)
    : rio RootPolicyFailure MangleFamilyState :=
  if st =b? Missing then
    let! c := the_contract in
    mutate_ (create_chain_command c binary) ;!
    let! snapshot := lines_ (mangle_show binary) in
    family_state snapshot ipv4
  else act_ret st.

Definition rebuild_if_mismatched (binary : str) (ipv4 : bool) (st : MangleFamilyState)
    : rio RootPolicyFailure MangleFamilyState :=
  if st =b? DetachedMismatch then
    let! c := the_contract in
    mutate_ (flush_chain_command c binary) ;!
    let! expected := lift_result (ok_or (owned_lines c ipv4) StructuralMismatch) in
    append_rules binary expected ;!
    let! snapshot := lines_ (mangle_show binary) in
    family_state snapshot ipv4
  else act_ret st.

Definition attach (binary : str) (ipv4 : bool) : rio RootPolicyFailure unit :=
  let! c := the_contract in
  mutate_ (output_jump_add c binary) ;!
  let! verified := lines_ (mangle_show binary) in
  require (mangle_family_state c verified ipv4 =b? Some AttachedExact) StructuralMismatch.

Definition ensure_mangle_family (fuel : nat) (binary : str) (ipv4 : bool) : rio RootPolicyFailure unit :=
  let! snapshot := lines_ (mangle_show binary) in
  let! st := family_state snapshot ipv4 in
  if st =b? InvalidReferenced then throw StructuralMismatch
  else
    let! st :=
      if st =b? AttachedDuplicateExact then
        let! snapshot := drop_duplicate_jumps fuel binary snapshot in
        family_state snapshot ipv4
      else act_ret st in
    if st =b? AttachedExact then act_ret tt
    else
      let! st := create_if_missing binary ipv4 st in
      let! st := rebuild_if_mismatched binary ipv4 st in
      if st <>b? DetachedExact then throw StructuralMismatch else attach binary ipv4.

Fixpoint remove_exact_passes (n : nat) (check delete : str) : rio RootPolicyFailure unit :=
  let! observed := observe_ check in
  match n with
  | O => require (negb (exit_code observed =? 0)) MutationRejected
  | S n =>
      if negb (exit_code observed =? 0) then act_ret tt
      else mutate_ delete ;! remove_exact_passes n check delete
  end.
Definition remove_exact_rule (check delete : str) : rio RootPolicyFailure unit :=
  remove_exact_passes MAX_RECONCILE_PASSES check delete.

Fixpoint remove_jumps_passes (n : nat) (binary : str) : rio RootPolicyFailure unit :=
  let! c := the_contract in
  let! ls := lines_ (mangle_show binary) in
  match n with
  | O => require (output_jump_count c ls =? 0)%nat MutationRejected
  | S n =>
      if (output_jump_count c ls =? 0)%nat then act_ret tt
      else
        let! deleted := attempt (io_mutate id (output_jump_delete c binary)) in
        match deleted with
        | Ok _ => remove_jumps_passes n binary
        | Err EffectMutationUncertain =>
            let! fresh := lines_ (mangle_show binary) in
            require (output_jump_count c fresh =? 0)%nat MutationUncertain
        | Err error => throw (map_effect_failure error)
        end
  end.
Definition remove_all_output_jumps (binary : str) : rio RootPolicyFailure unit :=
  remove_jumps_passes MAX_RECONCILE_PASSES binary.

Definition remove_owned_chain (binary : str) (ipv4 : bool) : rio RootPolicyFailure unit :=
  let! c := the_contract in
  let! ls := lines_ (mangle_show binary) in
  if negb (existsb (fun l => l =b? chain_definition c) ls) then act_ret tt
  else
    let! expected := lift_result (ok_or (owned_lines c ipv4) ExactCleanupFailed) in
    if existsb (fun l => negb (list_contains expected l)) (chain_lines ls (chain_name c))
    then throw ExactCleanupFailed
    else
      mutate_ (flush_chain_command c binary) ;!
      mutate_ (delete_chain_command c binary) ;!
      let! fresh := lines_ (mangle_show binary) in
      require (negb (existsb (contains (chain_name c)) fresh)) ExactCleanupFailed.

(** ** Authority *)

(** A raw observation whose answer is complete and zero. *)
Definition raw_lines {E} (command : str) : rio E (option (list str)) :=
  let! r := ask (RawObservation command) in
  act_ret match r with
  | Ok r => if non_authoritative r || negb (exit_code r =? 0) then None else Some (parse_lines (stdout r))
  | Err _ => None
  end.

(** The deletions use a window of their own that is thrown away. *)
Fixpoint delete_stale {E} (c : RootPolicyContract) (binary : str) (uids : list Z) (w : RootPolicyCommandWindow)
    : rio E bool :=
  match uids with
  | [] => act_ret true
  | uid :: uids => fun s =>
      Do (Mutate (stale_owner_jump_delete c binary uid) w) (fun x =>
        match x with
        | (Ok _, w) => delete_stale c binary uids w s
        | (Err _, _) => Ret (Some (Ok false), s)
        end)
  end.

Definition bootstrap_family {E} (binary : str) (ipv4 : bool) : rio E bool :=
  let! c := the_contract in
  let! before := raw_lines (mangle_show binary) in
  match before with
  | None => act_ret false
  | Some before =>
      let stale := stale_owner_jump_uids c before in
      if stale =b? [] then act_ret true
      else if negb (is_exact_known_product_state c before ipv4) then act_ret true
      else
        let! deleted := delete_stale c binary stale window_default in
        if negb deleted then act_ret false
        else
          let! after := raw_lines (mangle_show binary) in
          act_ret match after with
          | None => false
          | Some after => stale_owner_jump_uids c after =b? []
          end
  end.

Definition bootstrap_stale_owner_jumps {E} : rio E bool :=
  let! v4 := bootstrap_family IPTABLES true in
  if negb v4 then act_ret false else bootstrap_family IP6TABLES false.

Definition probe_rules {E} : rio E RootAuthorityStatus :=
  let! rules := ask (RawObservation IPV4_RULE_SHOW) in
  match rules with
  | Err _ => act_ret Incomplete
  | Ok rules =>
      if non_authoritative rules || negb (exit_code rules =? 0) || (trim (stdout rules) =b? [])
      then act_ret Incomplete
      else
        let! clean := bootstrap_stale_owner_jumps in
        if negb clean then act_ret Incomplete
        else
          let! g := ask SessionGeneration in
          modify (fun s => set_ready s g) ;!
          act_ret (if is_some g then Ready else Incomplete)
  end.

Definition probe_authority {E} : rio E RootAuthorityStatus :=
  let! s := get in
  match terminal_authority s with
  | Some terminal => act_ret terminal
  | None =>
      let! current := ask SessionGeneration in
      if is_some current && (current =b? ready_session_generation s) then act_ret Ready
      else
        modify (fun s => set_ready s None) ;!
        let! identity := ask (RawObservation (lit "id -u")) in
        match identity with
        | Err _ => act_ret Unavailable
        | Ok identity =>
            if timed_out identity then
              modify (fun s => set_terminal s InteractiveGrantRequired) ;! act_ret InteractiveGrantRequired
            else if (exit_code identity =? 126) || (exit_code identity =? 127) then act_ret Unavailable
            else if (0 <? exit_code identity) || (trim (stdout identity) <>b? lit "0") then
              modify (fun s => set_terminal s Denied) ;! act_ret Denied
            else if negb (output_complete identity) || negb (exit_code identity =? 0) then act_ret Incomplete
            else probe_rules
        end
  end.

(** ** Reconciliation *)

Definition fail_closed {A} (m : rio RootPolicyFailure A) : rio RootPolicyResult A :=
  act_map_err (fun f => FailClosed (Some f)) m.

Definition unless {A} (skip : bool) (m : rio A unit) : rio A unit := if skip then act_ret tt else m.

(** Safe points: the caller may have moved on. *)
Definition stop_if_superseded : rio RootPolicyResult unit :=
  let! current := is_current in
  if current then act_ret tt
  else modify (fun s => set_superseded s true) ;! throw (FailClosed None).

(** [m] between two looks at the clock and the window; on success its phase is
    recorded. *)
Definition phase {A} (record : RootPolicyPhaseDiagnostics -> RootPolicyPhaseDiagnostic -> RootPolicyPhaseDiagnostics)
    (m : rio RootPolicyResult A) : rio RootPolicyResult A :=
  let! started := now_ in
  let! before := get in
  let! a := m in
  let! now := now_ in
  modify (fun s => set_phases s (record (phases s)
    (phase_diagnostic started now (window_diagnostic (window before)) (window_diagnostic (window s))))) ;!
  act_ret a.

Definition record_initial p d := {| initial_snapshot := d; fail_closed_prepare := fail_closed_prepare p;
  fail_closed_verify := fail_closed_verify p; table_discovery := table_discovery p; admitted_apply_verify := admitted_apply_verify p |}.
Definition record_prepare p d := {| initial_snapshot := initial_snapshot p; fail_closed_prepare := d;
  fail_closed_verify := fail_closed_verify p; table_discovery := table_discovery p; admitted_apply_verify := admitted_apply_verify p |}.
Definition record_verify p d := {| initial_snapshot := initial_snapshot p; fail_closed_prepare := fail_closed_prepare p;
  fail_closed_verify := d; table_discovery := table_discovery p; admitted_apply_verify := admitted_apply_verify p |}.
Definition record_discovery p d := {| initial_snapshot := initial_snapshot p; fail_closed_prepare := fail_closed_prepare p;
  fail_closed_verify := fail_closed_verify p; table_discovery := d; admitted_apply_verify := admitted_apply_verify p |}.
Definition record_apply p d := {| initial_snapshot := initial_snapshot p; fail_closed_prepare := fail_closed_prepare p;
  fail_closed_verify := fail_closed_verify p; table_discovery := table_discovery p; admitted_apply_verify := d |}.

Definition select_identity (initial : RootPolicySnapshot) : rio RootPolicyResult unit :=
  let! c := the_contract in
  let '(resolution, c) := resolve_identity c initial in
  modify (fun s => set_contract s c) ;!
  match resolution with
  | Selected _ => act_ret tt
  | ResolutionCollision =>
      let! cleaned := if is_some (active_identity c) then attempt remove_owned_ipv4_lookups else act_ret (Ok tt) in
      throw (FailClosed (Some (if is_ok cleaned then ReservedPolicyCollision else MutationRejected)))
  end.

Definition prepare_fail_closed (fuel : nat) (initial : RootPolicySnapshot) : rio RootPolicyFailure unit :=
  let! c := the_contract in
  unless (existsb (is_owned_ipv4_guard c) (ipv4_rules initial)) (ensure_guard true) ;!
  unless (existsb (is_owned_ipv6_guard c) (ipv6_rules initial)) (ensure_guard false) ;!
  unless (owned_ipv4_lookup_tables c (ipv4_rules initial) =b? []) remove_owned_ipv4_lookups ;!
  unless (mangle_family_state c (ipv4_mangle initial) true =b? Some AttachedExact)
    (ensure_mangle_family fuel IPTABLES true) ;!
  unless (mangle_family_state c (ipv6_mangle initial) false =b? Some AttachedExact)
    (ensure_mangle_family fuel IP6TABLES false) ;!
  remove_exact_rule (legacy_selector_check c IPTABLES) (legacy_selector_delete c IPTABLES) ;!
  remove_exact_rule (legacy_selector_check c IP6TABLES) (legacy_selector_delete c IP6TABLES).

Definition verify_base : rio RootPolicyResult RootPolicySnapshot :=
  let! snapshot := fail_closed read_snapshot in
  let! c := the_contract in
  if is_ok (verify_fail_closed_base c snapshot) then act_ret snapshot
  else throw (FailClosed (Some StructuralMismatch)).

Definition route_get (i : PolicyIdentity) : str := lit "ip -4 route get 1.1.1.1 mark " ++ mark_hex i.

Definition apply_admitted (table interface : str) : rio RootPolicyResult unit :=
  fail_closed (replace_ipv4_lookup table) ;!
  let! c := the_contract in
  match active_identity c with
  | None => throw (FailClosed (Some StructuralMismatch))
  | Some i =>
      let! route := fail_closed (observe_ (route_get i)) in
      if negb (exit_code route =? 0) || negb (route_get_uses_interface (stdout route) interface) then
        let! _ := attempt remove_owned_ipv4_lookups in
        throw (FailClosed (Some RouteLookupVerificationFailed))
      else act_ret tt
  end.

Definition reconcile_authorized (fuel : nat) (admitted : bool) (interface_name : option str)
    : rio RootPolicyResult RootPolicyResult :=
  let! initial := phase record_initial (fail_closed read_snapshot) in
  stop_if_superseded ;!
  select_identity initial ;!
  phase record_prepare (fail_closed (prepare_fail_closed fuel initial)) ;!
  let! base := phase record_verify verify_base in
  stop_if_superseded ;!
  if negb admitted then act_ret (FailClosed None)
  else
    match interface_name with
    | Some interface =>
        if negb (is_safe_interface_name interface) then act_ret (FailClosed (Some InvalidInterface))
        else
          let! table := phase record_discovery (fail_closed (discover_validated_ipv4_table (ipv4_rules base) interface)) in
          stop_if_superseded ;!
          phase record_apply (apply_admitted table interface) ;!
          act_ret Enforced
    | None => act_ret (FailClosed (Some InvalidInterface))
    end.

(** An early answer is an answer. *)
Definition settle {E A} (m : rio A A) : rio E A := fun s =>
  prog_bind (m s) (fun '(r, s) =>
    Ret (option_map (fun r => match r with Ok a | Err a => Ok a end) r, s)).

(** [record_reconcile] at the end of a call. *)
Definition record {E} (started : Z) (policy_started : option Z) : rio E unit :=
  let! policy_elapsed := match policy_started with
                         | None => act_ret 0
                         | Some p => let! now := now_ in act_ret (elapsed p now)
                         end in
  let! now := now_ in
  modify (fun s => set_diagnostic s (record_reconcile (diagnostic s) (elapsed started now) policy_elapsed
    (window_diagnostic (window s)) (phases s))).

(** The locals of a call are fresh. *)
Definition fresh_call (s : rt) : rt := set_superseded (set_phases (set_window s window_default) phases_default) false.

Definition reconcile_if_current (fuel : nat) (admitted : bool) (interface_name : option str)
    : rio unit RootPolicyReconcileOutcome :=
  modify fresh_call ;!
  let! started := now_ in
  let! current := is_current in
  if negb current then record started None ;! act_ret Superseded
  else
    let! authority := probe_authority in
    if authority <>b? Ready then record started None ;! act_ret (Completed (AuthorityUnavailable authority))
    else
      let! current := is_current in
      if negb current then record started None ;! act_ret Superseded
      else
        let! policy_started := now_ in
        let! r := settle (reconcile_authorized fuel admitted interface_name) in
        record started (Some policy_started) ;!
        let! s := get in
        act_ret (if superseded s then Superseded else Completed r).

(** ** Clean-up *)

Definition clean_up {A} (f : RootPolicyCleanupFailure) (m : rio RootPolicyFailure A) : rio RootPolicyCleanupFailure A :=
  act_map_err (fun _ => f) m.

(** The identity to clean up: the active one, or the one the tables show. *)
Definition cleanup_identity : rio RootPolicyCleanupFailure bool :=
  let! c := the_contract in
  if is_some (active_identity c) then act_ret true
  else
    let! snapshot := clean_up CleanupIdentityUnavailable read_snapshot in
    let '(resolution, c) := resolve_identity c snapshot in
    modify (fun s => set_contract s c) ;!
    match resolution with
    | Selected _ => act_ret true
    | ResolutionCollision =>
        let '(found, c) := has_any_product_signature c snapshot in
        modify (fun s => set_contract s c) ;!
        if found then throw IdentityCollision else act_ret false
    end.

(** One family: the chain and the guard go only behind the jump and the old
    selector. *)
Definition cleanup_family (binary : str) (ipv4 : bool) (chain_failed guard_failed : RootPolicyCleanupFailure)
    : rio RootPolicyCleanupFailure (bool * bool) :=
  let! c := the_contract in
  let! jump := attempt (remove_all_output_jumps binary) in
  let! legacy := attempt (remove_exact_rule (legacy_selector_check c binary) (legacy_selector_delete c binary)) in
  (if is_ok jump && is_ok legacy then
     clean_up chain_failed (remove_owned_chain binary ipv4) ;!
     clean_up guard_failed (remove_guard ipv4)
   else act_ret tt) ;!
  act_ret (is_ok jump, is_ok legacy).

Definition verify_clean : rio RootPolicyCleanupFailure unit :=
  let! authority := probe_authority in
  if authority <>b? Ready then throw FinalVerificationFailed
  else
    let! snapshot := clean_up FinalVerificationFailed read_snapshot in
    let! c := the_contract in
    if negb (verify_exact_cleanup c snapshot) then throw FinalVerificationFailed
    else modify (fun s => set_contract s (clear_active_identity (contract s))).

Definition cleanup_exact : rio RootPolicyCleanupFailure unit :=
  modify fresh_call ;!
  let! present := cleanup_identity in
  if negb present then act_ret tt
  else
    clean_up Ipv4LookupDeleteFailed remove_owned_ipv4_lookups ;!
    let! (jump4, legacy4) := cleanup_family IPTABLES true Ipv4ChainDeleteFailed Ipv4GuardDeleteFailed in
    let! (jump6, legacy6) := cleanup_family IP6TABLES false Ipv6ChainDeleteFailed Ipv6GuardDeleteFailed in
    if negb jump4 then throw Ipv4OutputJumpDeleteFailed
    else if negb legacy4 then throw Ipv4LegacySelectorDeleteFailed
    else if negb jump6 then throw Ipv6OutputJumpDeleteFailed
    else if negb legacy6 then throw Ipv6LegacySelectorDeleteFailed
    else verify_clean.
