(* ===== verification/RootPolicyTransaction.v ===== *)
(** * Root policy transaction

    What the transaction of [RootPolicyRuntime] does in any surroundings: which
    commands it sends and when, what a reported enforcement or clean-up rests
    on, and how authority is lost. *)

From Stdlib Require Import String.
From stdpp Require Import gmap.
From S2P Require Import Prelude Net RustStr MangleAudit RootPolicy RootSession Interaction RootPolicyRuntime.

(** ** What an operation may ask for

    [within c allowed m]: started under the contract [c], [m] only asks for what
    [allowed] holds of, and leaves the contract and the trace flag alone. *)

Definition within {E A} (c : RootPolicyContract) (allowed : io_request -> Prop) (m : rio E A) : Prop :=
  forall s, contract s = c ->
    emits (m s) (fun t x => Forall (fun e => allowed (asked e)) t /\ contract x.2 = c /\ superseded x.2 = superseded s).

Section within.
Context {E : Type} (c : RootPolicyContract) (allowed : io_request -> Prop).

Lemma within_pure {A} (m : rio E A) :
  (forall s, contract s = c -> exists r s', m s = Ret (r, s') /\ contract s' = c /\ superseded s' = superseded s) ->
  within c allowed m.
Proof. intros H s Hs. destruct (H s Hs) as (r & s' & -> & ? & ?). apply emits_ret. by split_and!. Qed.

Lemma within_ret {A} (a : A) : within c allowed (act_ret (E := E) a).
Proof. apply within_pure. intros s Hs. by eexists _, s. Qed.

Lemma within_throw {A} (e : E) : within c allowed (throw (A := A) e).
Proof. apply within_pure. intros s Hs. by eexists _, s. Qed.

Lemma within_spin {A} : within c allowed (spin (E := E) (A := A)).
Proof. apply within_pure. intros s Hs. by eexists _, s. Qed.

Lemma within_lift {A} (r : result E A) : within c allowed (lift_result r).
Proof. apply within_pure. intros s Hs. by eexists _, s. Qed.

Lemma within_bind {A B} (m : rio E A) (k : A -> rio E B) :
  within c allowed m -> (forall a, within c allowed (k a)) -> within c allowed (act_bind m k).
Proof.
  intros Hm Hk s Hs. apply emits_act_bind. eapply emits_mono; [|by apply Hm].
  intros t [[[a|e]|] s1]; cbn [fst snd]; intros (H1 & H2 & H3); [|done..].
  eapply emits_mono; [|by apply Hk]. intros t' [r s2]; cbn [fst snd]. intros (H4 & H5 & H6).
  split_and!; [by apply Forall_app_2|done|congruence].
Qed.

Lemma within_contract {A} (k : RootPolicyContract -> rio E A) :
  within c allowed (k c) -> within c allowed (act_bind the_contract k).
Proof.
  intros Hk s Hs. apply emits_act_bind. unfold the_contract. apply emits_ret. cbn [fst snd]. rewrite Hs.
  eapply emits_mono; [|by apply Hk]. intros t x. cbn [app]. done.
Qed.

Lemma within_get {A} (k : rt -> rio E A) :
  (forall s, contract s = c -> within c allowed (k s)) -> within c allowed (act_bind get k).
Proof.
  intros Hk s Hs. apply emits_act_bind, emits_ret. cbn [fst snd].
  eapply emits_mono; [|by apply Hk]. intros t x. cbn [app]. done.
Qed.

Lemma within_ask r : allowed r -> within c allowed (ask (E := E) r).
Proof. intros Hr s Hs. apply emits_do. intros x. apply emits_ret.
  split_and!; [apply Forall_singleton, Hr|done|done].
Qed.

Lemma within_with_window {A} f take (into : RootPolicyEffectFailure -> E) :
  (forall w, allowed (f w)) -> within c allowed (with_window (A := A) f take into).
Proof.
  intros Hf s Hs. apply emits_do. intros x. destruct (take (window s) x) as [r w]. apply emits_ret.
  split_and!; [apply Forall_singleton, Hf|done|done].
Qed.

Lemma within_modify f :
  (forall s, contract s = c -> contract (f s) = c /\ superseded (f s) = superseded s) ->
  within c allowed (modify (E := E) f).
Proof. intros H. apply within_pure. intros s Hs. eexists _, _. split; [done|]. by apply H. Qed.

Lemma within_if {A} (b : bool) (m1 m2 : rio E A) :
  within c allowed m1 -> within c allowed m2 -> within c allowed (if b then m1 else m2).
Proof. by destruct b. Qed.
End within.

Lemma within_attempt {E F A} c allowed (m : rio E A) : within c allowed m -> within c allowed (attempt (F := F) m).
Proof. intros Hm s Hs. apply emits_attempt. eapply emits_mono; [|by apply Hm]. by intros t [r s1]. Qed.

Lemma within_map_err {E F A} c allowed (f : E -> F) (m : rio E A) : within c allowed m -> within c allowed (act_map_err f m).
Proof. intros Hm s Hs. apply emits_map_err. eapply emits_mono; [|by apply Hm]. by intros t [r s1]. Qed.

Lemma within_mono {E A} c (allowed allowed' : io_request -> Prop) (m : rio E A) :
  (forall r, allowed r -> allowed' r) -> within c allowed m -> within c allowed' m.
Proof.
  intros H Hm s Hs. eapply emits_mono; [|by apply Hm]. intros t x (H1 & H2 & H3). split_and!; [|done..].
  eapply Forall_impl; [|exact H1]. intros e. apply H.
Qed.

Lemma within_lift_bind {E A B} c allowed (r : result E A) (k : A -> rio E B) :
  (forall a, r = Ok a -> within c allowed (k a)) -> within c allowed (act_bind (lift_result r) k).
Proof.
  intros Hk s Hs. apply emits_act_bind, emits_ret. cbn [fst snd]. destruct r as [a|e]; [|by split_and!].
  eapply emits_mono; [|by apply Hk]. done.
Qed.

(** Follows the syntax of an operation; leaves the requests it makes. *)
Ltac within_step :=
  match goal with
  | |- within _ _ (act_bind the_contract _) => apply within_contract
  | |- within _ _ (act_bind (lift_result _) _) => apply within_lift_bind; intros
  | |- within _ _ (act_bind get _) => apply within_get; intros
  | |- within _ _ (act_bind _ _) => apply within_bind; [|intros]
  | |- within _ _ (act_ret _) => apply within_ret
  | |- within _ _ (throw _) => apply within_throw
  | |- within _ _ spin => apply within_spin
  | |- within _ _ (lift_result _) => apply within_lift
  | |- within _ _ (attempt _) => apply within_attempt
  | |- within _ _ (act_map_err _ _) => apply within_map_err
  | |- within _ _ (io_lines _ _) => apply within_with_window; intros
  | |- within _ _ (io_observe _ _) => apply within_with_window; intros
  | |- within _ _ (io_mutate _ _) => apply within_with_window; intros
  | |- within _ _ (ask _) => apply within_ask
  | |- within _ _ (modify _) => apply within_modify; intros; done
  | |- within _ _ (if _ then _ else _) => apply within_if
  | |- within _ _ (match ?x with _ => _ end) => destruct x eqn:?
  | |- within _ _ _ => assumption || (match goal with H : _ |- _ => solve [apply H] end)
  end.
Ltac within := repeat within_step.

(** Requests that need no justification. *)
Ltac asks := first [exact I | assumption | solve [eauto 2] | idtac].

(** ** Owned commands *)

Definition is_binary (b : str) : Prop := b = IPTABLES \/ b = IP6TABLES.

Inductive owned_command (c : RootPolicyContract) : str -> Prop :=
| own_guard verb i :
    verb ∈ [lit "ip -4 rule add pref "; lit "ip -6 rule add pref "; lit "ip -4 rule del pref "; lit "ip -6 rule del pref "] ->
    i ∈ candidates c -> owned_command c (guard_command verb i)
| own_lookup_delete table i :
    i ∈ candidates c -> owned_command c (lookup_command (lit "ip -4 rule del pref ") table i)
| own_lookup_add table i :
    i ∈ candidates c -> owned_command c (lookup_command (lit "ip -4 rule add pref ") table i)
| own_jump_delete b : is_binary b -> owned_command c (output_jump_delete c b)
| own_stale_delete b uid : is_binary b -> owned_command c (stale_owner_jump_delete c b uid)
| own_jump_add b : is_binary b -> owned_command c (output_jump_add c b)
| own_create b : is_binary b -> owned_command c (create_chain_command c b)
| own_flush b : is_binary b -> owned_command c (flush_chain_command c b)
| own_delete b : is_binary b -> owned_command c (delete_chain_command c b)
| own_rule b i rule :
    is_binary b -> i ∈ candidates c ->
    rule ∈ ipv4_owned_chain_lines_for c i ++ ipv6_owned_chain_lines_for c i ->
    owned_command c (b ++ lit " -t mangle " ++ rule)
| own_legacy b : is_binary b -> owned_command c (legacy_selector_delete c b).

(** The command that opens the way past the guard. *)
Definition is_lookup_add (c : RootPolicyContract) (command : str) : bool :=
  existsb (fun i => starts_with (lit "ip -4 rule add pref " ++ to_decimal (lookup_priority i) ++ lit " ") command)
    (candidates c).

Definition contract_ok (c : RootPolicyContract) : Prop := forall i, active_identity c = Some i -> i ∈ candidates c.

(** The same product: only the active identity may differ. *)
Definition product (c : RootPolicyContract) : RootPolicyContract := clear_active_identity c.

Definition closes (c : RootPolicyContract) (r : io_request) : Prop :=
  match r with
  | Mutate command _ => owned_command (product c) command /\ is_lookup_add c command = false
  | IsCurrent => False
  | _ => True
  end.

Definition looks_up (c : RootPolicyContract) (r : io_request) : Prop :=
  match r with
  | Mutate command _ => exists table i verb,
      verb ∈ [lit "ip -4 rule add pref "; lit "ip -4 rule del pref "] /\ active_identity c = Some i /\
      command = lookup_command verb table i
  | IsCurrent => False
  | _ => True
  end.

Definition observes (r : io_request) : Prop :=
  match r with Mutate _ _ | IsCurrent => False | _ => True end.

Lemma not_add_binary c b rest : is_binary b -> is_lookup_add c (b ++ rest) = false.
Proof. unfold is_lookup_add, candidates. intros [-> | ->]; destruct (namespace c); reflexivity. Qed.

Lemma not_add_guard c verb i :
  verb ∈ [lit "ip -4 rule add pref "; lit "ip -6 rule add pref "; lit "ip -4 rule del pref "; lit "ip -6 rule del pref "] ->
  i ∈ candidates c -> is_lookup_add c (guard_command verb i) = false.
Proof.
  unfold is_lookup_add, candidates. intros Hv Hi.
  assert (forallb (fun v => forallb (fun i => negb (existsb (fun j =>
     starts_with (lit "ip -4 rule add pref " ++ to_decimal (lookup_priority j) ++ lit " ") (guard_command v i))
     match namespace c with Release => RELEASE_POLICY_CANDIDATES | Debug => DEBUG_POLICY_CANDIDATES end))
     match namespace c with Release => RELEASE_POLICY_CANDIDATES | Debug => DEBUG_POLICY_CANDIDATES end)
     [lit "ip -4 rule add pref "; lit "ip -6 rule add pref "; lit "ip -4 rule del pref "; lit "ip -6 rule del pref "] = true) as H
    by (destruct (namespace c); vm_compute; reflexivity).
  rewrite forallb_forall in H. specialize (H verb (proj1 (list_elem_of_In _ _) Hv)).
  rewrite forallb_forall in H. specialize (H i (proj1 (list_elem_of_In _ _) Hi)). by apply negb_true_iff in H.
Qed.

Lemma not_add_lookup_delete c table i : is_lookup_add c (lookup_command (lit "ip -4 rule del pref ") table i) = false.
Proof. unfold is_lookup_add, candidates. destruct (namespace c); reflexivity. Qed.

#[local] Opaque is_lookup_add.

Lemma lookup_command_some c table e a (verb : str) (o : option str) :
  o = (if negb (is_safe_table_token table) then None else lookup_command verb table <$> active_identity c) ->
  ok_or o (E := RootPolicyFailure) e = Ok a ->
  exists i, active_identity c = Some i /\ a = lookup_command verb table i.
Proof.
  intros ->. destruct (negb _); [done|]. destruct (active_identity c) as [i|]; [|done]. cbn. intros [= <-]. eauto.
Qed.

Section closing.
Context (c : RootPolicyContract) (Hok : contract_ok c).

Lemma closes_binary b command w :
  is_binary b -> owned_command (product c) command -> (exists rest, command = b ++ rest) -> closes c (Mutate command w).
Proof. intros Hb Ho [rest ->]. split; [done|]. by apply not_add_binary. Qed.

Lemma closes_jump_delete b w : is_binary b -> closes c (Mutate (output_jump_delete c b) w).
Proof. intros Hb. eapply closes_binary; [done|exact (own_jump_delete (product c) b Hb)|]. unfold output_jump_delete. eauto. Qed.
Lemma closes_jump_add b w : is_binary b -> closes c (Mutate (output_jump_add c b) w).
Proof. intros Hb. eapply closes_binary; [done|exact (own_jump_add (product c) b Hb)|]. unfold output_jump_add. eauto. Qed.
Lemma closes_stale b uid w : is_binary b -> closes c (Mutate (stale_owner_jump_delete c b uid) w).
Proof. intros Hb. eapply closes_binary; [done|exact (own_stale_delete (product c) b uid Hb)|]. unfold stale_owner_jump_delete. eauto. Qed.
Lemma closes_create b w : is_binary b -> closes c (Mutate (create_chain_command c b) w).
Proof. intros Hb. eapply closes_binary; [done|exact (own_create (product c) b Hb)|]. unfold create_chain_command. eauto. Qed.
Lemma closes_flush b w : is_binary b -> closes c (Mutate (flush_chain_command c b) w).
Proof. intros Hb. eapply closes_binary; [done|exact (own_flush (product c) b Hb)|]. unfold flush_chain_command. eauto. Qed.
Lemma closes_delete b w : is_binary b -> closes c (Mutate (delete_chain_command c b) w).
Proof. intros Hb. eapply closes_binary; [done|exact (own_delete (product c) b Hb)|]. unfold delete_chain_command. eauto. Qed.
Lemma closes_legacy b w : is_binary b -> closes c (Mutate (legacy_selector_delete c b) w).
Proof. intros Hb. eapply closes_binary; [done|exact (own_legacy (product c) b Hb)|]. unfold legacy_selector_delete. eauto. Qed.

Lemma closes_guard (e : RootPolicyFailure) verb (o : option str) a w :
  o = (guard_command verb <$> active_identity c) ->
  verb ∈ [lit "ip -4 rule add pref "; lit "ip -6 rule add pref "; lit "ip -4 rule del pref "; lit "ip -6 rule del pref "] ->
  ok_or o e = Ok a -> closes c (Mutate a w).
Proof.
  intros -> Hv. destruct (active_identity c) as [i|] eqn:Hi; [|done]. cbn. intros [= <-].
  specialize (Hok i Hi). split; [by apply own_guard|by apply not_add_guard].
Qed.

(** Both families, adding and deleting. *)
Lemma closes_guard_of (e : RootPolicyFailure) (ipv4 : bool) a w :
  ok_or (if ipv4 then ipv4_guard_add c else ipv6_guard_add c) e = Ok a \/
  ok_or (if ipv4 then ipv4_guard_delete c else ipv6_guard_delete c) e = Ok a -> closes c (Mutate a w).
Proof.
  intros [H|H]; destruct ipv4; (eapply closes_guard; [|..|exact H]); first [done|set_solver].
Qed.

Lemma within_ensure_guard ipv4 : within c (closes c) (ensure_guard ipv4).
Proof.
  unfold ensure_guard, require. within; asks.
  all: eapply closes_guard_of; eauto.
Qed.

Lemma within_remove_guard ipv4 : within c (closes c) (remove_guard ipv4).
Proof.
  unfold remove_guard. generalize MAX_RECONCILE_PASSES. intros n. induction n as [|n IH]; cbn [remove_guard_passes]; within; asks.
  all: eapply closes_guard_of; eauto.
Qed.

Lemma within_delete_lookups allowed e tables :
  (forall table i w, active_identity c = Some i -> allowed (Mutate (lookup_command (lit "ip -4 rule del pref ") table i) w)) ->
  within c allowed (delete_lookups c e tables).
Proof.
  intros Ha. induction tables as [|table tables IH]; cbn [delete_lookups]; [within|].
  apply within_lift_bind. intros a Hl. eapply lookup_command_some in Hl as (i & Hi & ->); [|done]. within; by apply Ha.
Qed.

Lemma closes_lookup_delete table i w :
  active_identity c = Some i -> closes c (Mutate (lookup_command (lit "ip -4 rule del pref ") table i) w).
Proof. intros Hi. split; [apply own_lookup_delete; by apply Hok|apply not_add_lookup_delete]. Qed.

Lemma looks_up_delete table i w :
  active_identity c = Some i -> looks_up c (Mutate (lookup_command (lit "ip -4 rule del pref ") table i) w).
Proof. intros Hi. exists table, i, (lit "ip -4 rule del pref "). split_and!; [set_solver|done|done]. Qed.

Lemma within_remove_lookups allowed :
  (forall w, allowed (Lines IPV4_RULE_SHOW w)) ->
  (forall table i w, active_identity c = Some i -> allowed (Mutate (lookup_command (lit "ip -4 rule del pref ") table i) w)) ->
  within c allowed remove_owned_ipv4_lookups.
Proof.
  intros Hl Ha. unfold remove_owned_ipv4_lookups. generalize MAX_RECONCILE_PASSES. intros n.
  induction n as [|n IH]; cbn [remove_lookups_passes]; unfold require; within; asks.
  by apply within_delete_lookups.
Qed.

Lemma within_drop_jumps fuel b ls : is_binary b -> within c (closes c) (drop_duplicate_jumps fuel b ls).
Proof.
  intros Hb. revert ls. induction fuel as [|fuel IH]; intros ls; cbn [drop_duplicate_jumps]; within; asks.
  all: by apply closes_jump_delete.
Qed.

Lemma within_append b rules (ipv4 : bool) i :
  is_binary b -> i ∈ candidates c ->
  Forall (fun rule => rule ∈ ipv4_owned_chain_lines_for c i ++ ipv6_owned_chain_lines_for c i) rules ->
  within c (closes c) (append_rules b rules).
Proof.
  intros Hb Hi. induction 1 as [|rule rules Hr Hrs IH]; cbn [append_rules]; within.
  split; [by apply (own_rule (product c) b i)|by apply not_add_binary].
Qed.

Lemma within_create b ipv4 st : is_binary b -> within c (closes c) (create_if_missing b ipv4 st).
Proof. intros Hb. unfold create_if_missing, family_state. within; asks. by apply closes_create. Qed.

Lemma owned_lines_some ipv4 a (e : RootPolicyFailure) :
  ok_or (owned_lines c ipv4) e = Ok a ->
  exists i, i ∈ candidates c /\ a = (if ipv4 then ipv4_owned_chain_lines_for c i else ipv6_owned_chain_lines_for c i).
Proof.
  unfold owned_lines, ipv4_owned_chain_lines, ipv6_owned_chain_lines. intros H.
  destruct (active_identity c) as [i|] eqn:Hi; [|by destruct ipv4]. exists i. split; [by apply Hok|].
  destruct ipv4; cbn in H; by simplify_eq.
Qed.

Lemma within_rebuild b ipv4 st : is_binary b -> within c (closes c) (rebuild_if_mismatched b ipv4 st).
Proof.
  intros Hb. unfold rebuild_if_mismatched, family_state. within; asks; [by apply closes_flush|].
  match goal with H : ok_or _ _ = Ok _ |- _ => apply owned_lines_some in H as (i & Hi & ->) end.
  eapply (within_append b _ ipv4 i); [done|done|]. apply Forall_forall. intros rule Hr%list_elem_of_In.
  apply elem_of_app. destruct ipv4; [by left|by right].
Qed.

Lemma within_attach b ipv4 : is_binary b -> within c (closes c) (attach b ipv4).
Proof. intros Hb. unfold attach, require. within; asks. by apply closes_jump_add. Qed.

Lemma within_ensure_mangle fuel b ipv4 : is_binary b -> within c (closes c) (ensure_mangle_family fuel b ipv4).
Proof.
  intros Hb. unfold ensure_mangle_family, family_state. within; asks.
  all: auto using within_drop_jumps, within_create, within_rebuild, within_attach.
Qed.

Lemma within_remove_exact check delete :
  (forall w, closes c (Mutate delete w)) -> within c (closes c) (remove_exact_rule check delete).
Proof.
  intros Hd. unfold remove_exact_rule. generalize MAX_RECONCILE_PASSES. intros n.
  induction n as [|n IH]; cbn [remove_exact_passes]; unfold require; within; asks.
Qed.

Lemma within_remove_jumps b : is_binary b -> within c (closes c) (remove_all_output_jumps b).
Proof.
  intros Hb. unfold remove_all_output_jumps. generalize MAX_RECONCILE_PASSES. intros n.
  induction n as [|n IH]; cbn [remove_jumps_passes]; unfold require; within; asks. by apply closes_jump_delete.
Qed.

Lemma within_remove_chain b ipv4 : is_binary b -> within c (closes c) (remove_owned_chain b ipv4).
Proof.
  intros Hb. unfold remove_owned_chain, require. within; asks; [by apply closes_flush|by apply closes_delete].
Qed.

Lemma within_delete_stale {E} b uids w : is_binary b -> within c (closes c) (delete_stale (E := E) c b uids w).
Proof.
  intros Hb. revert w. induction uids as [|uid uids IH]; intros w; cbn [delete_stale]; [within|].
  intros s Hs. apply emits_do. intros [[[]|e] w'].
  - eapply emits_mono; [|by apply IH]. intros t x (H1 & H2 & H3). split_and!; [|done..].
    constructor; [by apply closes_stale|done].
  - apply emits_ret. split_and!; [|done..]. apply Forall_singleton. by apply closes_stale.
Qed.

Lemma within_bootstrap {E} b ipv4 : is_binary b -> within c (closes c) (bootstrap_family (E := E) b ipv4).
Proof.
  intros Hb. unfold bootstrap_family, raw_lines. within; asks. all: by apply within_delete_stale.
Qed.

Lemma within_probe_authority {E} : within c (closes c) (probe_authority (E := E)).
Proof.
  unfold probe_authority, probe_rules, bootstrap_stale_owner_jumps. within; asks.
  all: apply within_bootstrap; unfold is_binary; auto.
Qed.

Lemma within_discover rules interface : within c observes (discover_validated_ipv4_table rules interface).
Proof.
  unfold discover_validated_ipv4_table. apply within_bind; [|intros; within].
  induction (referenced_tables rules); cbn [matching_tables]; within; asks.
Qed.

Lemma within_read_snapshot : within c observes read_snapshot.
Proof. unfold read_snapshot. within; asks. Qed.

Lemma within_replace table : within c (looks_up c) (replace_ipv4_lookup table).
Proof.
  unfold replace_ipv4_lookup, require. within; asks.
  - apply within_delete_lookups. apply looks_up_delete.
  - match goal with H : ok_or _ _ = Ok _ |- _ => eapply lookup_command_some in H as (i & Hi & ->); [|done] end.
    exists table, i, (lit "ip -4 rule add pref "). split_and!; [set_solver|done|done].
Qed.

Lemma within_apply table interface : within c (looks_up c) (apply_admitted table interface).
Proof.
  unfold apply_admitted, fail_closed. within; asks; [apply within_replace|].
  apply within_remove_lookups; [done|apply looks_up_delete].
Qed.

Lemma within_prepare fuel initial : within c (closes c) (prepare_fail_closed fuel initial).
Proof.
  unfold prepare_fail_closed, unless. within; asks.
  all: first [ apply within_ensure_guard | apply within_ensure_mangle; unfold is_binary; auto
             | apply within_remove_lookups; [done|apply closes_lookup_delete]
             | apply within_remove_exact; intros; apply closes_legacy; unfold is_binary; auto ].
Qed.
End closing.

(** ** Traces of a transaction *)

Abbreviation ev := (event io_request io_reply).
Abbreviation replied := (@existT io_request io_reply).

Definition still_current (e : ev) : Prop :=
  match e with existT IsCurrent false => False | _ => True end.

(** The four listings [snap], read one after the other. *)
Definition reads_snapshot (t : list ev) (snap : RootPolicySnapshot) : Prop :=
  exists w0 w1 w2 w3 w4 v1 v2 v3,
    t = [replied (Lines IPV4_RULE_SHOW w0) (Ok (ipv4_rules snap), w1);
         replied (Lines IPV6_RULE_SHOW v1) (Ok (ipv6_rules snap), w2);
         replied (Lines (mangle_show IPTABLES) v2) (Ok (ipv4_mangle snap), w3);
         replied (Lines (mangle_show IP6TABLES) v3) (Ok (ipv6_mangle snap), w4)].

(** Nothing but the lookup of the active identity changes. *)
Definition calm (c : RootPolicyContract) (e : ev) : Prop :=
  match asked e with
  | Mutate command _ => exists table i verb,
      verb ∈ [lit "ip -4 rule add pref "; lit "ip -4 rule del pref "] /\ active_identity c = Some i /\
      command = lookup_command verb table i
  | _ => True
  end.

(** The complete fail-closed base was read and verified, and has not been
    touched since. *)
Definition base_verified (c : RootPolicyContract) (t : list ev) : Prop :=
  exists t0 ts snap t1, t = t0 ++ ts ++ t1 /\ reads_snapshot ts snap /\
    verify_fail_closed_base c snap = Ok tt /\ Forall (calm c) t1.

Definition safe_mutation (c0 : RootPolicyContract) (t : list ev) (e : ev) : Prop :=
  match asked e with
  | Mutate command _ =>
      owned_command (product c0) command /\ Forall still_current t /\
      (is_lookup_add c0 command = true -> exists c, product c = product c0 /\ base_verified c t)
  | _ => True
  end.

Lemma guarded_app (safe : list ev -> ev -> Prop) t1 t2 :
  guarded safe t1 -> (forall ta e tb, t2 = ta ++ e :: tb -> safe (t1 ++ ta) e) -> guarded safe (t1 ++ t2).
Proof.
  intros H1. induction t2 as [|e t2 IH] using rev_ind; intros H2; [by rewrite app_nil_r|].
  rewrite app_assoc. apply guarded_snoc. split; [|by apply (H2 t2 e [])].
  apply IH. intros ta e' tb ->. apply (H2 ta e' (tb ++ [e])). by rewrite <- app_assoc.
Qed.

Lemma closes_current c (e : ev) : closes c (asked e) -> still_current e.
Proof. by destruct e as [[] x]. Qed.
Lemma observes_current (e : ev) : observes (asked e) -> still_current e.
Proof. by destruct e as [[] x]. Qed.
Lemma looks_up_current c (e : ev) : looks_up c (asked e) -> still_current e.
Proof. by destruct e as [[] x]. Qed.
Lemma looks_up_calm c (e : ev) : looks_up c (asked e) -> calm c e.
Proof. unfold calm. by destruct e as [[] x]. Qed.
Lemma observes_closes c r : observes r -> closes c r.
Proof. by destruct r. Qed.
Lemma observes_calm c (e : ev) : observes (asked e) -> calm c e.
Proof. unfold calm. by destruct e as [[] x]. Qed.

Record trace_ok (c0 : RootPolicyContract) (t : list ev) : Prop := {
  ok_guarded : guarded (safe_mutation c0) t;
  ok_current : Forall still_current t }.

Lemma is_lookup_add_product c c0 command : product c = product c0 -> is_lookup_add c command = is_lookup_add c0 command.
Proof. intros [= _ H]. Transparent is_lookup_add. unfold is_lookup_add, candidates. by rewrite H. Opaque is_lookup_add. Qed.

Lemma Forall_app_l {A} (P : A -> Prop) l1 l2 : Forall P (l1 ++ l2) -> Forall P l1.
Proof. by rewrite Forall_app; intros []. Qed.

Lemma trace_closes c0 c t1 t2 :
  product c = product c0 -> trace_ok c0 t1 -> Forall (fun e => closes c (asked e)) t2 -> trace_ok c0 (t1 ++ t2).
Proof.
  intros Hp [H1 H2] H. assert (Forall still_current t2) as Hc.
  { eapply Forall_impl; [|exact H]. apply closes_current. }
  split; [|by apply Forall_app_2]. apply guarded_app; [done|]. intros ta e tb ->.
  apply Forall_app in H as [_ [He _]%Forall_cons_iff]. unfold safe_mutation. unfold closes in He.
  destruct (asked e); try done. rewrite Hp, (is_lookup_add_product _ _ _ Hp) in He. destruct He as [He1 He2].
  split_and!; [done| |congruence]. apply Forall_app_2; [done|]. by apply Forall_app_l in Hc.
Qed.

Lemma trace_looks_up c0 c t1 t2 :
  product c = product c0 -> contract_ok c -> trace_ok c0 t1 -> base_verified c t1 ->
  Forall (fun e => looks_up c (asked e)) t2 -> trace_ok c0 (t1 ++ t2).
Proof.
  intros Hp Hok [H1 H2] (t0 & ts & snap & t3 & -> & Hs & Hv & Hcalm) H. assert (Forall still_current t2) as Hc.
  { eapply Forall_impl; [|exact H]. apply looks_up_current. }
  split; [|by apply Forall_app_2]. apply guarded_app; [done|]. intros ta e tb ->.
  apply Forall_app in H as [Hta [He _]%Forall_cons_iff]. unfold safe_mutation. unfold looks_up in He.
  destruct (asked e); try done. destruct He as (table & i & verb & Hv' & Hi & ->).
  split_and!.
  - rewrite <- Hp. specialize (Hok i Hi). apply elem_of_cons in Hv' as [-> | ->%list_elem_of_singleton];
      [by apply own_lookup_add|by apply own_lookup_delete].
  - apply Forall_app_2; [done|]. by apply Forall_app_l in Hc.
  - intros _. exists c. split; [done|]. exists t0, ts, snap, (t3 ++ ta). rewrite <- !app_assoc. split_and!; try done.
    apply Forall_app_2; [done|]. eapply Forall_impl; [|exact Hta]. apply looks_up_calm.
Qed.

Lemma base_verified_app c t1 t2 : base_verified c t1 -> Forall (calm c) t2 -> base_verified c (t1 ++ t2).
Proof.
  intros (t0 & ts & snap & t3 & -> & Hs & Hv & Hc) H. exists t0, ts, snap, (t3 ++ t2).
  rewrite <- !app_assoc. split_and!; try done. by apply Forall_app_2.
Qed.

(** Early answers. *)
Definition throws {E A} (P : E -> Prop) (m : rio E A) : Prop :=
  forall s, emits (m s) (fun _ x => forall e, x.1 = Some (Err e) -> P e).

Lemma throws_bind {E A B} (P : E -> Prop) (m : rio E A) (k : A -> rio E B) :
  throws P m -> (forall a, throws P (k a)) -> throws P (act_bind m k).
Proof.
  intros Hm Hk s. apply emits_act_bind. eapply emits_mono; [|apply Hm].
  intros t [[[a|e]|] s1]; cbn [fst snd]; intros H; [|by intros e0 [= <-]; apply H|done]. eapply emits_mono; [|apply Hk]. done.
Qed.

Lemma throws_map_err {E F A} (P : F -> Prop) (f : E -> F) (m : rio E A) : (forall e, P (f e)) -> throws P (act_map_err f m).
Proof.
  intros Hf s. apply emits_map_err. generalize (m s). intros p. unfold emits. generalize (@nil ev).
  induction p as [[r s1]|r k IH]; intros t; cbn [sat]; [|auto]. cbn [fst snd]. intros e.
  destruct r as [[|]|]; cbn; intros [= <-]. apply Hf.
Qed.

Lemma throws_throw {E A} (P : E -> Prop) e : P e -> throws P (throw (A := A) e : rio E A).
Proof. intros He s. apply emits_ret. by intros e' [= <-]. Qed.

Lemma throws_ret {E A} (P : E -> Prop) (a : A) : throws P (act_ret a : rio E A).
Proof. intros s. by apply emits_ret. Qed.

Lemma throws_pure {E A} (P : E -> Prop) (m : rio E A) :
  (forall s, emits (m s) (fun _ x => exists a, x.1 = Some (Ok a))) -> throws P m.
Proof. intros H s. eapply emits_mono; [|apply H]. intros t x [a ->]. done. Qed.

Lemma throws_if {E A} (P : E -> Prop) (b : bool) (m1 m2 : rio E A) : throws P m1 -> throws P m2 -> throws P (if b then m1 else m2).
Proof. by destruct b. Qed.

Lemma throws_attempt {E F A} (P : F -> Prop) (m : rio E A) : throws P (attempt m).
Proof.
  intros s. apply emits_attempt. generalize (m s). intros p. unfold emits. generalize (@nil ev).
  induction p as [[r s1]|r k IH]; intros t; cbn [sat]; [|auto]. intros e. by destruct r.
Qed.

Ltac throws_step :=
  match goal with
  | |- throws _ (act_bind _ _) => apply throws_bind; [|intros]
  | |- throws _ (act_ret _) => apply throws_ret
  | |- throws _ (throw _) => apply throws_throw
  | |- throws _ (act_map_err _ _) => apply throws_map_err; intros
  | |- throws _ (attempt _) => apply throws_attempt
  | |- throws _ (if _ then _ else _) => apply throws_if
  | |- throws _ (match ?x with _ => _ end) => destruct x eqn:?
  | |- throws _ (modify _) => apply throws_pure; intros; apply emits_ret; eauto
  | |- throws _ get => apply throws_pure; intros; apply emits_ret; eauto
  | |- throws _ the_contract => apply throws_pure; intros; apply emits_ret; eauto
  | |- throws _ now_ => apply throws_pure; intros; apply emits_do; intros; apply emits_ret; eauto
  | |- throws _ is_current => apply throws_pure; intros; apply emits_do; intros; apply emits_ret; eauto
  end.

Lemma reconcile_throws fuel admitted interface :
  throws (fun r => r <> Enforced) (reconcile_authorized fuel admitted interface).
Proof.
  unfold reconcile_authorized, phase, stop_if_superseded, select_identity, verify_base, apply_admitted, fail_closed.
  repeat throws_step; done.
Qed.

Lemma within_sat {E A} c allowed (m : rio E A) s t Q :
  within c allowed m -> contract s = c ->
  (forall t' r s', Forall (fun e => allowed (asked e)) t' -> contract s' = c -> superseded s' = superseded s ->
     Q (t ++ t') (r, s')) ->
  sat (m s) t Q.
Proof.
  intros Hm Hs HQ. apply sat_emits. eapply emits_mono; [|by apply Hm].
  intros t' [r s'] (H1 & H2 & H3). by apply HQ.
Qed.

Lemma sat_phase {A} record (m : rio RootPolicyResult A) s t Q :
  (forall x, sat (m s) (t ++ [replied Now x]) (fun t' y =>
     match y.1 with
     | Some (Ok a) => forall x s', contract s' = contract y.2 -> superseded s' = superseded y.2 ->
                        Q (t' ++ [replied Now x]) (Some (Ok a), s')
     | Some (Err e) => Q t' (Some (Err e), y.2)
     | None => Q t' (None, y.2)
     end)) ->
  sat (phase record m s) t Q.
Proof.
  intros H. unfold phase. apply sat_act_bind. intros x. cbn [fst snd sat]. apply sat_act_bind. cbn [sat get fst snd].
  apply sat_act_bind. eapply sat_mono; [|apply H]. intros t' [[[a|e]|] s1]; cbn [fst snd]; [|done..].
  intros HQ. apply sat_act_bind. intros y. cbn [fst snd sat]. apply sat_act_bind. cbn [sat modify fst snd act_ret].
  by apply HQ.
Qed.

Lemma read_snapshot_reads s :
  emits (read_snapshot s) (fun t x => forall snap, x.1 = Some (Ok snap) -> reads_snapshot t snap).
Proof.
  unfold read_snapshot, io_lines, with_window. apply emits_act_bind, emits_do. intros [[r4|e] w1]; apply emits_ret; [|done].
  cbn [map_err fst snd]. apply emits_act_bind, emits_do. intros [[r6|e] w2]; apply emits_ret; [|done].
  cbn [map_err fst snd]. apply emits_act_bind, emits_do. intros [[m4|e] w3]; apply emits_ret; [|done].
  cbn [map_err fst snd]. apply emits_act_bind, emits_do. intros [[m6|e] w4]; apply emits_ret; [|done].
  cbn [map_err fst snd]. apply emits_ret. cbn [fst snd app]. intros snap [= <-].
  unfold reads_snapshot. cbn. by repeat eexists.
Qed.

Lemma emits_any {A} (p : prog io_request io_reply A) : emits p (fun _ _ => True).
Proof. unfold emits. generalize (@nil ev). induction p; intros t; cbn [sat]; auto. Qed.

(** [m] is reached through something whose trace is kept abstract. *)
Lemma emits_after {E A B} (m : rio E A) (k : A -> rio E B) s Q c allowed :
  within c allowed m -> contract s = c ->
  (forall t a s', contract s' = c -> emits (k a s') (fun t' x => Q (t ++ t') x)) ->
  (forall t e s', Q t (Some (Err e), s')) -> (forall t s', Q t (None, s')) ->
  emits (act_bind m k s) Q.
Proof.
  intros Hm Hs Hk He Hn. apply emits_act_bind. eapply emits_mono; [|by apply Hm].
  intros t [[[a|e]|] s']; cbn [fst snd]; intros (_ & ? & _); auto.
Qed.

Lemma replace_evidence table s :
  emits (replace_ipv4_lookup table s) (fun t x => x.1 = Some (Ok tt) ->
    exists t1 v rules w, t = t1 ++ [replied (Lines IPV4_RULE_SHOW v) (Ok rules, w)] /\
      table ∈ owned_ipv4_lookup_tables (contract s) rules).
Proof.
  set (c := contract s). unfold replace_ipv4_lookup.
  apply emits_act_bind. unfold the_contract. apply emits_ret. cbn [fst snd app]. fold c.
  eapply (emits_after _ _ _ _ c (fun _ => True)); [by within|done| |done..].
  intros t rules s1 Hs1. eapply (emits_after _ _ _ _ c (fun _ => True)); [by apply within_delete_lookups|done| |done..].
  intros t2 _ s2 Hs2. apply emits_act_bind. unfold io_lines, with_window. apply emits_do. intros [[ad|e] w]; apply emits_ret; [|done].
  cbn [map_err fst snd]. destruct (list_contains _ table) eqn:Hc.
  - apply emits_ret. intros _. apply list_contains_true in Hc. eexists (t ++ t2), _, ad, w. split; [by rewrite app_assoc|done].
  - apply emits_act_bind. unfold lift_result. destruct (ok_or _ _) as [add|e]; apply emits_ret; cbn [fst snd]; [|done].
    apply emits_act_bind. unfold io_mutate, with_window. apply emits_do. intros [[[]|e] w']; apply emits_ret; [|done].
    cbn [map_err fst snd]. apply emits_act_bind, emits_do. intros [[aa|e] w'']; apply emits_ret; [|done].
    cbn [map_err fst snd]. unfold require.
    destruct (list_contains (owned_ipv4_lookup_tables c aa) table) eqn:Hc'; apply emits_ret; [|done].
    intros _. apply list_contains_true in Hc'. eexists (t ++ t2 ++ [_] ++ [_]), _, aa, w''. split; [|done].
    rewrite <- !app_assoc. reflexivity.
Qed.

Lemma apply_evidence table interface s :
  contract_ok (contract s) ->
  emits (apply_admitted table interface s) (fun t x => x.1 = Some (Ok tt) ->
    exists i t1 v rules w v' route w', t = t1 ++ [replied (Lines IPV4_RULE_SHOW v) (Ok rules, w);
                                                  replied (Observe (route_get i) v') (Ok route, w')] /\
      active_identity (contract s) = Some i /\ table ∈ owned_ipv4_lookup_tables (contract s) rules /\
      exit_code route = 0 /\ route_get_uses_interface (stdout route) interface = true).
Proof.
  intros Hok. unfold apply_admitted. apply emits_act_bind. unfold fail_closed at 1. apply emits_map_err.
  eapply emits_mono; [|apply emits_and; [apply replace_evidence|exact (within_replace (contract s) Hok table s eq_refl)]].
  intros t [[[[]|e]|] s1]; cbn [fst snd option_map map_err]; intros [Hr (_ & Hs1 & _)]; [|done..].
  destruct (Hr eq_refl) as (t1 & v & rules & w & -> & Ht). clear Hr.
  apply emits_act_bind. unfold the_contract. apply emits_ret. cbn [fst snd app]. rewrite Hs1.
  destruct (active_identity (contract s)) as [i|] eqn:Hi; [|by apply emits_ret].
  apply emits_act_bind. unfold fail_closed. apply emits_map_err. unfold io_observe, with_window. apply emits_do.
  intros [[route|e] w']; apply emits_ret; [|done]. cbn [map_err fst snd option_map].
  destruct (negb (exit_code route =? 0) || _) eqn:Hc.
  - apply emits_act_bind, emits_attempt. eapply emits_mono; [|apply emits_any]. intros t' [[r|] s2] _; [|done].
    cbn [fst snd option_map]. by apply emits_ret.
  - apply emits_ret. intros _. rust_bool. eexists i, t1, v, rules, w, _, route, w'.
    rewrite <- app_assoc. by split_and!.
Qed.

(** ** The transaction *)

Definition owned_state (c0 : RootPolicyContract) (s : rt) : Prop :=
  product (contract s) = product c0 /\ contract_ok (contract s).

Definition enforced_evidence (c0 : RootPolicyContract) (interface : str) (t : list ev) : Prop :=
  exists c i table t0 ts snap t1 v rules w v' route w' t2,
    t = t0 ++ ts ++ t1 ++ [replied (Lines IPV4_RULE_SHOW v) (Ok rules, w);
                           replied (Observe (route_get i) v') (Ok route, w')] ++ t2 /\
    product c = product c0 /\ active_identity c = Some i /\ i ∈ candidates c0 /\
    reads_snapshot ts snap /\ verify_fail_closed_base c snap = Ok tt /\ Forall (calm c) t1 /\
    table ∈ owned_ipv4_lookup_tables c rules /\ exit_code route = 0 /\
    route_get_uses_interface (stdout route) interface = true /\ Forall (fun e => observes (asked e)) t2.

Lemma resolve_identity_keeps c snap r c' :
  contract_ok c -> resolve_identity c snap = (r, c') -> product c' = product c /\ contract_ok c'.
Proof.
  intros Hok. unfold resolve_identity. destruct (_ || _); [by intros [= <- <-]|].
  destruct (_ && _); [by intros [= <- <-]|].
  destruct (active_identity c) as [a|] eqn:Ha; [repeat case_match; intros; by simplify_eq|].
  intros H. pose proof (first_clean_spec _ _ _ _ _ H) as Hs. clear H. destruct r as [i|]; [|by subst].
  destruct Hs as (-> & Hi & _). split; [done|]. intros j [= <-].
  destruct (_ || _) in Hi; [|done]. apply list_elem_of_In, filter_In in Hi as [Hi _]. by apply list_elem_of_In.
Qed.

Lemma resolve_selected c snap i c' : resolve_identity c snap = (Selected i, c') -> active_identity c' = Some i.
Proof.
  unfold resolve_identity. destruct (_ || _); [done|]. destruct (_ && _); [done|].
  destruct (active_identity c) as [a|] eqn:Ha.
  - repeat case_match; intros; by simplify_eq.
  - intros H. apply first_clean_spec in H as (-> & _). done.
Qed.

Section transaction.
Context (c0 : RootPolicyContract) {B : Type}.
Context (Q : list ev -> option (result RootPolicyResult B) * rt -> Prop).

(** Early answers and unfinished loops are accepted once the trace is sound. *)
Context (Hearly : forall t r s, guarded (safe_mutation c0) t -> owned_state c0 s ->
  (forall b, r <> Some (Ok b)) -> Q t (r, s)).

Lemma stage_closes {A} record (m : rio RootPolicyFailure A) (k : A -> rio RootPolicyResult B) s t :
  (contract_ok (contract s) -> within (contract s) (closes (contract s)) m) -> trace_ok c0 t -> owned_state c0 s ->
  (forall t' a s', trace_ok c0 t' -> owned_state c0 s' -> contract s' = contract s -> sat (k a s') t' Q) ->
  sat (act_bind (phase record (fail_closed m)) k s) t Q.
Proof.
  intros Hm Ht [Hp Hok] Hk. apply sat_act_bind, sat_phase. intros x. unfold fail_closed, act_map_err. apply sat_bind.
  eapply (within_sat (contract s) (closes (contract s))); [by apply Hm|done|].
  intros t' r s' Ht' Hs' _. cbn [sat fst snd].
  assert (owned_state c0 s') as Ho by (by rewrite <- Hs' in Hp, Hok).
  assert (trace_ok c0 ((t ++ [replied Now x]) ++ t')) as Hto.
  { eapply trace_closes; [exact Hp| |done]. eapply trace_closes; [exact Hp|done|]. by apply Forall_singleton. }
  destruct r as [[a|f]|]; cbn [option_map map_err]; [|by apply Hearly; [apply Hto|..]..].
  intros y s2 Hs2 _. apply Hk.
  - eapply trace_closes; [exact Hp|done|]. by apply Forall_singleton.
  - unfold owned_state. by rewrite Hs2, Hs'.
  - congruence.
Qed.

Lemma stage_current (k : unit -> rio RootPolicyResult B) s t :
  trace_ok c0 t -> owned_state c0 s ->
  (sat (k tt s) (t ++ [replied IsCurrent true]) Q) -> sat (act_bind stop_if_superseded k s) t Q.
Proof.
  intros Ht Ho Hk. apply sat_act_bind. unfold stop_if_superseded. apply sat_act_bind. intros [].
  - cbn [fst snd sat]. exact Hk.
  - cbn [fst snd sat act_bind modify prog_bind]. apply sat_act_bind. cbn. apply Hearly; [|done|done].
    apply guarded_snoc. split; [apply Ht|done].
Qed.

Lemma trace_current t : trace_ok c0 t -> trace_ok c0 (t ++ [replied IsCurrent true]).
Proof.
  intros [H1 H2]. split; [apply guarded_snoc; by split|]. apply Forall_app_2; [done|]. by apply Forall_singleton.
Qed.

Lemma stage_select initial (k : unit -> rio RootPolicyResult B) s t :
  trace_ok c0 t -> owned_state c0 s ->
  (forall s', owned_state c0 s' -> sat (k tt s') t Q) ->
  sat (act_bind (select_identity initial) k s) t Q.
Proof.
  intros Ht [Hp Hok] Hk. apply sat_act_bind. unfold select_identity. apply sat_act_bind. cbn [sat the_contract fst snd].
  destruct (resolve_identity (contract s) initial) as [r c'] eqn:Hr.
  destruct (resolve_identity_keeps _ _ _ _ Hok Hr) as [Hp' Hok']. rewrite Hp in Hp'.
  apply sat_act_bind. cbn [sat modify fst snd]. destruct r as [i|]; [by apply Hk|].
  apply sat_act_bind.
  eapply (within_sat c' (closes c')); [|done|].
  - within. apply within_remove_lookups; [done|by apply closes_lookup_delete].
  - intros t' r s' Ht' Hs' _. assert (owned_state c0 s') as Ho by (by unfold owned_state; rewrite Hs').
    assert (trace_ok c0 (t ++ t')) as Hto by (by eapply trace_closes).
    destruct r as [[r|f]|]; cbn [fst snd]; [cbn [sat throw fst snd]|..]; (apply Hearly; [apply Hto|done|done]).
Qed.

Lemma stage_verify record (k : RootPolicySnapshot -> rio RootPolicyResult B) s t :
  trace_ok c0 t -> owned_state c0 s ->
  (forall t' snap s', trace_ok c0 t' -> owned_state c0 s' -> contract s' = contract s ->
     base_verified (contract s') t' -> sat (k snap s') t' Q) ->
  sat (act_bind (phase record verify_base) k s) t Q.
Proof.
  intros Ht [Hp Hok] Hk. apply sat_act_bind, sat_phase. intros x. unfold verify_base. apply sat_act_bind.
  unfold fail_closed, act_map_err. apply sat_bind, sat_emits.
  eapply emits_mono; [|apply emits_and; [apply read_snapshot_reads|exact (within_read_snapshot (contract s) s eq_refl)]].
  intros t' [r s'] [Hr (Ht' & Hs' & _)]. cbn [fst snd sat] in *.
  assert (owned_state c0 s') as Ho by (by unfold owned_state; rewrite Hs').
  assert (trace_ok c0 ((t ++ [replied Now x]) ++ t')) as Hto.
  { eapply trace_closes; [exact Hp| |]; [eapply trace_closes; [exact Hp|done|by apply Forall_singleton]|].
    eapply Forall_impl; [|exact Ht']. intros e. apply observes_closes. }
  destruct r as [[snap|f]|]; cbn [option_map map_err]; [|by apply Hearly; [apply Hto|..]..].
  apply sat_act_bind. cbn [sat the_contract fst snd].
  destruct (verify_fail_closed_base (contract s') snap) as [[]|e] eqn:Hv; cbn [is_ok].
  2: { cbn [sat throw fst snd]. by apply Hearly; [apply Hto|..]. }
  cbn [sat act_ret fst snd]. intros y s2 Hs2 _. apply Hk.
  - eapply trace_closes; [exact Hp|done|by apply Forall_singleton].
  - unfold owned_state. by rewrite Hs2, Hs'.
  - congruence.
  - rewrite Hs2. exists (t ++ [replied Now x]), t', snap, [replied Now y]. split_and!; [by rewrite <- !app_assoc|by apply Hr|done|].
    by apply Forall_singleton.
Qed.
End transaction.

Definition transaction_post (c0 : RootPolicyContract) (iface : option str) (t : list ev)
    (x : option (result RootPolicyResult RootPolicyResult) * rt) : Prop :=
  guarded (safe_mutation c0) t /\ owned_state c0 x.2 /\
  (x.1 = Some (Ok Enforced) -> exists interface, iface = Some interface /\ enforced_evidence c0 interface t).

Lemma post_early c0 iface t r s :
  guarded (safe_mutation c0) t -> owned_state c0 s -> (forall b, r <> Some (Ok b)) -> transaction_post c0 iface t (r, s).
Proof. intros. split_and!; [done|done|]. cbn. congruence. Qed.

Lemma post_answer c0 iface t b s :
  trace_ok c0 t -> owned_state c0 s -> b <> Enforced -> transaction_post c0 iface t (Some (Ok b), s).
Proof. intros Ht Ho Hb. split_and!; [apply Ht|done|]. cbn. congruence. Qed.

(** The admitted part, behind the verified base. *)
Lemma admitted_traces c0 iface interface base s t :
  iface = Some interface -> trace_ok c0 t -> owned_state c0 s -> base_verified (contract s) t ->
  sat ((let! table := phase record_discovery (fail_closed (discover_validated_ipv4_table base interface)) in
        stop_if_superseded ;! phase record_apply (apply_admitted table interface) ;! act_ret Enforced) s) t
    (transaction_post c0 iface).
Proof.
  intros Hi Ht [Hp Hok] (t0 & ts & snap & t1 & -> & Hs & Hv & Hc). set (c := contract s) in *.
  apply sat_act_bind, sat_phase. intros x. unfold fail_closed, act_map_err. apply sat_bind.
  eapply (within_sat c observes); [apply within_discover; done|done|].
  intros t' r s' Ht' Hs' _. cbn [sat fst snd].
  assert (owned_state c0 s') as Ho by (by unfold owned_state; rewrite Hs').
  set (u := t1 ++ [replied Now x] ++ t').
  assert (Forall (calm c) u) as Hu.
  { apply Forall_app_2; [done|]. constructor; [done|]. eapply Forall_impl; [|exact Ht']. apply observes_calm. }
  assert (((t0 ++ ts ++ t1) ++ [replied Now x]) ++ t' = t0 ++ ts ++ u) as -> by (by unfold u; rewrite <- !app_assoc).
  assert (trace_ok c0 (t0 ++ ts ++ u)) as Hto.
  { replace (t0 ++ ts ++ u) with ((t0 ++ ts ++ t1) ++ [replied Now x] ++ t') by (by unfold u; rewrite <- !app_assoc).
    eapply trace_closes; [exact Hp|done|]. constructor; [done|].
    eapply Forall_impl; [|exact Ht']. intros e. apply observes_closes. }
  destruct r as [[table|f]|]; cbn [option_map map_err]; [|by apply post_early; [apply Hto|..]..].
  intros y s2 Hs2 _. assert (owned_state c0 s2) as Ho2 by (by unfold owned_state; rewrite Hs2).
  assert (trace_ok c0 ((t0 ++ ts ++ u) ++ [replied Now y])) as Hto2.
  { eapply trace_closes; [exact Hp|done|by apply Forall_singleton]. }
  apply (stage_current c0 _ (post_early c0 iface)); [done|done|].
  apply trace_current in Hto2. apply sat_act_bind, sat_phase. intros z. apply sat_emits.
  assert (contract s2 = c) as Hs2' by congruence.
  eapply emits_mono; [|apply emits_and; [apply apply_evidence; by rewrite Hs2'|
    exact (within_apply c Hok table interface s2 Hs2')]].
  intros t3 [r s3] [He (Ht3 & Hs3 & _)]. cbn [fst snd] in *.
  assert (owned_state c0 s3) as Ho3 by (by unfold owned_state; rewrite Hs3).
  set (pre := u ++ [replied Now y; replied IsCurrent true; replied Now z]).
  assert (Forall (calm c) pre) as Hpre.
  { apply Forall_app_2; [done|]. by repeat constructor. }
  assert ((((t0 ++ ts ++ u) ++ [replied Now y]) ++ [replied IsCurrent true]) ++ [replied Now z] = t0 ++ ts ++ pre) as E
    by (by unfold pre; rewrite <- !app_assoc).
  assert (trace_ok c0 ((t0 ++ ts ++ pre) ++ t3)) as Hto3.
  { eapply (trace_looks_up c0 c); [done|done| |by exists t0, ts, snap, pre|done].
    rewrite <- E. eapply trace_closes; [exact Hp|done|by apply Forall_singleton]. }
  rewrite E. destruct r as [[[]|f]|]; [|by apply post_early; [apply Hto3|..]..].
  intros q s4 Hs4 _. cbn [sat act_ret]. split_and!.
  - eapply trace_closes; [exact Hp|done|by apply Forall_singleton].
  - unfold owned_state. cbn [snd]. by rewrite Hs4.
  - intros _. exists interface. split; [done|]. destruct (He eq_refl) as (i & t4 & v & rules & w & v' & route & w' & -> & Hai & Htb & Hex & Hru).
    rewrite Hs2' in *. exists c, i, table, t0, ts, snap, (pre ++ t4), v, rules, w, v', route, w', [replied Now q].
    split_and!; try done.
    + rewrite <- !app_assoc. by cbn.
    + replace (candidates c0) with (candidates c); [by apply Hok|]. injection Hp as _ Hn. unfold candidates. by rewrite Hn.
    + apply Forall_app_2; [done|]. apply Forall_app_l in Ht3. eapply Forall_impl; [|exact Ht3]. apply looks_up_calm.
    + by apply Forall_singleton.
Qed.

Lemma reconcile_authorized_traces c0 fuel admitted iface s t :
  trace_ok c0 t -> owned_state c0 s ->
  sat (reconcile_authorized fuel admitted iface s) t (transaction_post c0 iface).
Proof.
  intros Ht Ho. unfold reconcile_authorized.
  apply (stage_closes c0 _ (post_early c0 iface)); [|done|done|].
  { intros _. eapply within_mono; [|apply within_read_snapshot]. apply observes_closes. }
  intros t1 initial s1 Ht1 Ho1 _. clear t s Ht Ho.
  apply (stage_current c0 _ (post_early c0 iface)); [done|done|]. apply trace_current in Ht1.
  apply (stage_select c0 _ (post_early c0 iface)); [done|done|]. clear s1 Ho1. intros s Ho.
  apply (stage_closes c0 _ (post_early c0 iface)); [|done|done|].
  { intros Hok. by apply within_prepare. }
  intros t2 _ s2 Ht2 Ho2 _. clear t1 s Ht1 Ho.
  apply (stage_verify c0 _ (post_early c0 iface)); [done|done|].
  intros t base s Ht Ho _ Hb. clear t2 s2 Ht2 Ho2.
  apply (stage_current c0 _ (post_early c0 iface)); [done|done|]. apply trace_current in Ht.
  assert (base_verified (contract s) (t ++ [replied IsCurrent true])) as Hb'.
  { apply base_verified_app; [done|]. by apply Forall_singleton. }
  destruct (negb admitted); [by apply post_answer|].
  destruct iface as [interface|] eqn:Hi; [|by apply post_answer].
  destruct (negb (is_safe_interface_name interface)); [by apply post_answer|].
  by apply admitted_traces.
Qed.

Definition call_post (c0 : RootPolicyContract) (iface : option str) (t : list ev)
    (x : option (result unit RootPolicyReconcileOutcome) * rt) : Prop :=
  guarded (safe_mutation c0) t /\ owned_state c0 x.2 /\
  (x.1 = Some (Ok (Completed Enforced)) -> exists interface, iface = Some interface /\ enforced_evidence c0 interface t).

Lemma guarded_observes c0 t t' :
  guarded (safe_mutation c0) t -> Forall (fun e => observes (asked e)) t' -> guarded (safe_mutation c0) (t ++ t').
Proof.
  intros Ht H. apply guarded_app; [done|]. intros ta e tb ->. apply Forall_app in H as [_ [He _]%Forall_cons_iff].
  unfold safe_mutation. unfold observes in He. by destruct (asked e).
Qed.

Lemma evidence_observes c0 interface t t' :
  enforced_evidence c0 interface t -> Forall (fun e => observes (asked e)) t' -> enforced_evidence c0 interface (t ++ t').
Proof.
  intros (c & i & table & t0 & ts & snap & t1 & v & rules & w & v' & route & w' & t2 & -> & H & Hi & Hc & Hs & Hv & Hcalm & Ht & He & Hr & Ho) Ho'.
  exists c, i, table, t0, ts, snap, t1, v, rules, w, v', route, w', (t2 ++ t').
  split_and!; try done; [by rewrite <- !app_assoc|by apply Forall_app_2].
Qed.

Lemma sat_record {E B} started ps (k : unit -> rio E B) s t Q :
  (forall t' s', Forall (fun e => observes (asked e)) t' -> contract s' = contract s -> superseded s' = superseded s ->
     sat (k tt s') (t ++ t') Q) ->
  sat (act_bind (record started ps) k s) t Q.
Proof.
  intros H. apply sat_act_bind. unfold record. destruct ps as [p|].
  - apply sat_act_bind. apply sat_act_bind. intros x. cbn [fst snd sat act_ret]. apply sat_act_bind. intros y.
    cbn [fst snd sat modify]. rewrite <- app_assoc. apply H; [by repeat constructor|done|done].
  - apply sat_act_bind. cbn [fst snd sat act_ret]. apply sat_act_bind. intros y.
    cbn [fst snd sat modify]. apply H; [by repeat constructor|done|done].
Qed.

Lemma call_passive c0 iface t s r :
  guarded (safe_mutation c0) t -> owned_state c0 s -> r <> Some (Ok (Completed Enforced)) -> call_post c0 iface t (r, s).
Proof. intros. by split_and!. Qed.

Lemma reconcile_traces c0 fuel admitted iface s :
  owned_state c0 s -> emits (reconcile_if_current fuel admitted iface s) (call_post c0 iface).
Proof.
  intros [Hp Hok]. unfold emits, reconcile_if_current. apply sat_act_bind. cbn [sat modify fst snd].
  assert (owned_state c0 (fresh_call s)) as Ho by done. clear Hp Hok. destruct Ho as [Hp Hok].
  set (s0 := fresh_call s) in *. clearbody s0. clear s.
  apply sat_act_bind. intros started. cbn [fst snd sat]. apply sat_act_bind. intros current. cbn [fst snd sat app].
  set (t0 := [_; _] : list ev). assert (guarded (safe_mutation c0) t0) as Hg0.
  { apply (guarded_snoc _ [_]). split; [|done]. apply (guarded_snoc _ []). by split; [apply guarded_nil|]. }
  destruct current; cbn [negb].
  2: { apply sat_record. intros t' s' Ht' Hs' _. cbn [sat act_ret]. apply call_passive; [by apply guarded_observes| |done].
    unfold owned_state. by rewrite Hs'. }
  assert (trace_ok c0 t0) as Ht0 by (split; [done|by repeat constructor]).
  apply sat_act_bind. eapply (within_sat (contract s0) (closes (contract s0))); [by apply within_probe_authority|done|].
  intros t1 r s1 Ht1 Hs1 _. cbn [fst snd].
  assert (owned_state c0 s1) as Ho1 by (by unfold owned_state; rewrite Hs1).
  assert (trace_ok c0 (t0 ++ t1)) as Hto1 by (by eapply trace_closes).
  destruct r as [[authority|e]|]; [|by apply call_passive; [apply Hto1|..]..].
  destruct (authority <>b? Ready).
  { apply sat_record. intros t' s' Ht' Hs' _. cbn [sat act_ret]. apply call_passive; [apply guarded_observes; [apply Hto1|done]| |done].
    unfold owned_state. by rewrite Hs', Hs1. }
  apply sat_act_bind. intros current. cbn [fst snd sat]. destruct current; cbn [negb].
  2: { apply sat_record. intros t' s' Ht' Hs' _. cbn [sat act_ret]. apply call_passive; [| |done].
    - apply guarded_observes; [|done]. apply guarded_snoc. split; [apply Hto1|done].
    - unfold owned_state. by rewrite Hs', Hs1. }
  apply trace_current in Hto1. apply sat_act_bind. intros policy_started. cbn [fst snd sat].
  apply sat_act_bind. unfold settle. apply sat_bind.
  eapply sat_mono; [|apply (sat_emits _ _ (fun t x => transaction_post c0 iface t x /\ (forall e, x.1 = Some (Err e) -> e <> Enforced)))].
  2: { apply emits_and; [apply (proj1 (sat_emits _ _ (transaction_post c0 iface))), reconcile_authorized_traces|apply reconcile_throws]; [|done].
    eapply trace_closes; [exact Hp|done|by apply Forall_singleton]. }
  intros t2 [r s2] [(Hg2 & Ho2 & He2) Hne]. cbn [fst snd sat] in *.
  destruct r as [r|]; cbn [option_map]; [|by apply call_passive].
  destruct r as [b|b]; (apply sat_record; intros t' s' Ht' Hs' _; apply sat_act_bind; cbn [sat get fst snd act_ret];
    split_and!; cbn [fst snd]; [by apply guarded_observes|unfold owned_state; by rewrite Hs'|];
    destruct (superseded s'); [done|]; intros [= Hr]; subst b).
  - destruct (He2 eq_refl) as (interface & -> & Hev). exists interface. split; [done|]. by apply evidence_observes.
  - by destruct (Hne _ eq_refl).
Qed.

(** ** Clean-up *)

Lemma within_cleanup_family c b ipv4 f1 f2 :
  contract_ok c -> is_binary b -> within c (closes c) (cleanup_family b ipv4 f1 f2).
Proof.
  intros Hok Hb. unfold cleanup_family, clean_up. within.
  - by apply within_remove_jumps.
  - apply within_remove_exact. intros w. by apply closes_legacy.
  - by apply within_remove_chain.
  - by apply within_remove_guard.
Qed.

Lemma signature_keeps c snap b c' : has_any_product_signature c snap = (b, c') -> c' = c.
Proof.
  unfold has_any_product_signature. destruct (_ || _); [by intros [= _ <-]|].
  destruct (any_candidate_signature c snap (candidates c)) as [found c1] eqn:E. intros [= _ <-].
  apply any_candidate_signature_spec in E as [_ ->]. by destruct c.
Qed.

Definition cleaned (c0 : RootPolicyContract) (t : list ev) (s' : rt) : Prop :=
  (exists t0 ts snap c, t = t0 ++ ts /\ reads_snapshot ts snap /\ product c = product c0 /\
     is_some (active_identity c) = true /\ verify_exact_cleanup c snap = true /\ active_identity (contract s') = None) \/
  (exists snap, reads_snapshot t snap /\ (has_any_product_signature (contract s') snap).1 = false).

Definition cleanup_post (c0 : RootPolicyContract) (t : list ev) (x : option (result RootPolicyCleanupFailure unit) * rt) : Prop :=
  trace_ok c0 t /\ owned_state c0 x.2 /\ (x.1 = Some (Ok tt) -> cleaned c0 t x.2).

Lemma cleanup_early c0 t r s :
  trace_ok c0 t -> owned_state c0 s -> r <> Some (Ok tt) -> cleanup_post c0 t (r, s).
Proof. intros. by split_and!. Qed.

(** A step of the clean-up that leaves the contract alone. *)
Lemma stage_cleanup {A} c0 (m : rio RootPolicyCleanupFailure A) (k : A -> rio RootPolicyCleanupFailure unit) s t :
  within (contract s) (closes (contract s)) m -> trace_ok c0 t -> owned_state c0 s ->
  (forall t' a s', trace_ok c0 t' -> owned_state c0 s' -> contract s' = contract s -> sat (k a s') t' (cleanup_post c0)) ->
  sat (act_bind m k s) t (cleanup_post c0).
Proof.
  intros Hm Ht [Hp Hok] Hk. apply sat_act_bind. eapply within_sat; [done|done|].
  intros t' r s' Ht' Hs' _. assert (owned_state c0 s') as Ho by (by unfold owned_state; rewrite Hs').
  assert (trace_ok c0 (t ++ t')) by (by eapply trace_closes).
  destruct r as [[a|e]|]; cbn [fst snd]; [by apply Hk|by apply cleanup_early..].
Qed.

Lemma verify_clean_traces c0 s t :
  trace_ok c0 t -> owned_state c0 s -> is_some (active_identity (contract s)) = true ->
  sat (verify_clean s) t (cleanup_post c0).
Proof.
  intros Ht Ho Hi. unfold verify_clean. apply stage_cleanup; [by apply within_probe_authority; destruct Ho|done|done|].
  intros t1 authority s1 Ht1 Ho1 Hs1. destruct (authority <>b? Ready); [by apply cleanup_early|].
  apply sat_act_bind. unfold clean_up, act_map_err. apply sat_bind, sat_emits.
  eapply emits_mono; [|apply emits_and; [apply read_snapshot_reads|exact (within_read_snapshot (contract s1) s1 eq_refl)]].
  intros t2 [r s2] [Hr (Ht2 & Hs2 & _)]. cbn [fst snd sat] in *.
  assert (owned_state c0 s2) as Ho2 by (by unfold owned_state; rewrite Hs2).
  assert (trace_ok c0 (t1 ++ t2)) as Hto.
  { eapply trace_closes; [apply Ho1|done|]. eapply Forall_impl; [|exact Ht2]. intros e. apply observes_closes. }
  destruct r as [[snap|f]|]; cbn [option_map map_err]; [|by apply cleanup_early..].
  apply sat_act_bind. cbn [sat the_contract fst snd].
  destruct (verify_exact_cleanup (contract s2) snap) eqn:Hv; cbn [negb]; [|by apply cleanup_early].
  cbn [sat modify]. split_and!; [done|by split; [apply Ho2|]|]. intros _. left.
  exists t1, t2, snap, (contract s2). split_and!; [done|by apply Hr|apply Ho2| |done|done].
  by rewrite Hs2, Hs1.
Qed.

Lemma cleanup_traces c0 s : owned_state c0 s -> emits (cleanup_exact s) (cleanup_post c0).
Proof.
  intros Ho. unfold emits, cleanup_exact. apply sat_act_bind. cbn [sat modify fst snd].
  assert (owned_state c0 (fresh_call s)) as Ho0 by done. set (s0 := fresh_call s) in *. clearbody s0. clear s Ho.
  assert (trace_ok c0 []) as Ht0 by (split; [apply guarded_nil|done]).
  assert (forall t s, trace_ok c0 t -> owned_state c0 s -> is_some (active_identity (contract s)) = true ->
    sat ((clean_up Ipv4LookupDeleteFailed remove_owned_ipv4_lookups ;!
    let! (jump4, legacy4) := cleanup_family IPTABLES true Ipv4ChainDeleteFailed Ipv4GuardDeleteFailed in
    let! (jump6, legacy6) := cleanup_family IP6TABLES false Ipv6ChainDeleteFailed Ipv6GuardDeleteFailed in
    if negb jump4 then throw Ipv4OutputJumpDeleteFailed
    else if negb legacy4 then throw Ipv4LegacySelectorDeleteFailed
    else if negb jump6 then throw Ipv6OutputJumpDeleteFailed
    else if negb legacy6 then throw Ipv6LegacySelectorDeleteFailed
    else verify_clean) s) t (cleanup_post c0)) as Hmain.
  { intros t s Ht Ho Hi. apply stage_cleanup; [|done|done|].
    { unfold clean_up. within. apply within_remove_lookups; [done|]. apply closes_lookup_delete, Ho. }
    intros t1 _ s1 Ht1 Ho1 Hs1. rewrite <- Hs1 in Hi. clear t s Ht Ho Hs1.
    apply stage_cleanup; [apply within_cleanup_family; [apply Ho1|by left]|done|done|].
    intros t2 [jump4 legacy4] s2 Ht2 Ho2 Hs2. rewrite <- Hs2 in Hi. clear t1 s1 Ht1 Ho1 Hs2.
    apply stage_cleanup; [apply within_cleanup_family; [apply Ho2|by right]|done|done|].
    intros t3 [jump6 legacy6] s3 Ht3 Ho3 Hs3. rewrite <- Hs3 in Hi.
    destruct (negb jump4), (negb legacy4), (negb jump6), (negb legacy6);
      try (by apply cleanup_early); by apply verify_clean_traces. }
  apply sat_act_bind. unfold cleanup_identity. apply sat_act_bind. cbn [sat the_contract fst snd].
  destruct (is_some (active_identity (contract s0))) eqn:Hi; [by apply Hmain|].
  apply sat_act_bind. unfold clean_up at 1, act_map_err. apply sat_bind.
  eapply sat_mono; [|apply emits_and; [apply read_snapshot_reads|exact (within_read_snapshot (contract s0) s0 eq_refl)]].
  intros t1 [r s1] [Hr (Ht1 & Hs1 & _)]. cbn [fst snd sat] in *.
  assert (owned_state c0 s1) as Ho1 by (by unfold owned_state; rewrite Hs1).
  assert (trace_ok c0 t1) as Hto.
  { apply (trace_closes c0 (contract s0) []); [apply Ho0|done|]. eapply Forall_impl; [|exact Ht1]. intros e. apply observes_closes. }
  destruct r as [[snap|f]|]; cbn [option_map map_err]; [|by apply cleanup_early..].
  destruct (resolve_identity (contract s0) snap) as [res c'] eqn:Hres.
  destruct (resolve_identity_keeps _ _ _ _ (proj2 Ho0) Hres) as [Hp' Hok']. rewrite (proj1 Ho0) in Hp'.
  apply sat_act_bind. cbn [sat modify fst snd].
  assert (owned_state c0 (set_contract s1 c')) as Ho' by done.
  destruct res as [i|]; cbn [sat act_ret fst snd negb].
  - apply Hmain; [done|done|]. cbn [contract set_contract]. by rewrite (resolve_selected _ _ _ _ Hres).
  - destruct (has_any_product_signature c' snap) as [found c2] eqn:Hsig. pose proof (signature_keeps _ _ _ _ Hsig) as ->.
    apply sat_act_bind. cbn [sat modify fst snd]. destruct found; [by apply cleanup_early|].
    cbn [sat act_ret fst snd negb]. split_and!; [done|done|]. intros _. right. exists snap. split; [by apply Hr|].
    cbn [snd contract set_contract]. by rewrite Hsig.
Qed.

(** ** Properties *)

(** The states of a runtime: any calls, in any surroundings. *)
Inductive rt_reachable : rt -> Prop :=
| reach_new uid ns s : runtime_new uid ns = Some s -> rt_reachable s
| reach_reconcile W (handle : forall r, W -> io_reply r * W) w fuel admitted iface s :
    rt_reachable s -> rt_reachable (interp handle (reconcile_if_current fuel admitted iface s) w).1.1.2
| reach_cleanup W (handle : forall r, W -> io_reply r * W) w s :
    rt_reachable s -> rt_reachable (interp handle (cleanup_exact s) w).1.1.2.

Lemma rt_reachable_ok s : rt_reachable s -> contract_ok (contract s).
Proof.
  induction 1 as [uid ns s H|W handle w fuel admitted iface s _ IH|W handle w s _ IH].
  - unfold runtime_new, contract_new in H. destruct (uid =? 0); simplify_eq. by intros i.
  - pose proof (interp_emits handle _ w _ (reconcile_traces (contract s) fuel admitted iface s (conj eq_refl IH))) as (_ & [_ Ho] & _).
    exact Ho.
  - pose proof (interp_emits handle _ w _ (cleanup_traces (contract s) s (conj eq_refl IH))) as (_ & [_ Ho] & _).
    exact Ho.
Qed.

Section any_surroundings.
Context {W : Type} (handle : forall r, W -> io_reply r * W).


(** The way past the guard is opened only above a verified base: whatever the
    device answers, before the lookup rule is added, all four listings were read
    in this transaction, passed the fail-closed verification, and nothing but
    lookup rules of the active identity was changed since. *)
Theorem lookup_added_above_verified_base s w fuel admitted iface t1 command win x t2 :
  rt_reachable s ->
  (interp handle (reconcile_if_current fuel admitted iface s) w).2 = t1 ++ replied (Mutate command win) x :: t2 ->
  is_lookup_add (contract s) command = true ->
  exists c, product c = product (contract s) /\ base_verified c t1.
Proof.
  intros Hs%rt_reachable_ok E.
  pose proof (interp_emits handle _ w _ (reconcile_traces (contract s) fuel admitted iface s (conj eq_refl Hs))) as (Hg & _).
  destruct (Hg _ _ _ E) as (_ & _ & H). exact H.
Qed.

(** Enforcement is never reported without evidence: a verified fail-closed
    base, untouched since but for the lookup; then a listing that shows the
    lookup of the active identity, and directly after it a route query under the
    identity's mark that leaves through the requested interface. *)
Theorem enforced_has_evidence s w fuel admitted iface :
  rt_reachable s ->
  (interp handle (reconcile_if_current fuel admitted iface s) w).1.1.1 = Some (Ok (Completed Enforced)) ->
  exists interface, iface = Some interface /\
    enforced_evidence (contract s) interface (interp handle (reconcile_if_current fuel admitted iface s) w).2.
Proof.
  intros Hs%rt_reachable_ok.
  by pose proof (interp_emits handle _ w _ (reconcile_traces (contract s) fuel admitted iface s (conj eq_refl Hs))) as (_ & _ & H).
Qed.

(** A successful clean-up is verified: the last thing it did was to read all
    four listings, and they show nothing of the identity that was active, which
    is given up only then; or no identity was active and the listings show no
    trace of the product.  Otherwise the identity is kept for the next attempt. *)
Theorem cleanup_success_verified s w :
  rt_reachable s ->
  let '(r, s', t) := ((interp handle (cleanup_exact s) w).1.1.1, (interp handle (cleanup_exact s) w).1.1.2,
                      (interp handle (cleanup_exact s) w).2) in
  (r = Some (Ok tt) -> cleaned (contract s) t s') /\ guarded (safe_mutation (contract s)) t.
Proof.
  intros Hs%rt_reachable_ok.
  pose proof (interp_emits handle _ w _ (cleanup_traces (contract s) s (conj eq_refl Hs))) as ([Hg _] & _ & H). done.
Qed.
End any_surroundings.

(** ** Authority *)

(** [id -u] was answered the way [RootSession] answers when the shell is lost
    under a command. *)
Definition id_lost (e : ev) : Prop :=
  match e with
  | existT (RawObservation command) (Ok r) => command = lit "id -u" /\ exists g, r = outcome (lost_outcome g false)
  | _ => False
  end.

Definition not_id (r : io_request) : Prop := r <> RawObservation (lit "id -u").

Lemma within_probe_rules {E} c : within c not_id (probe_rules (E := E)).
Proof.
  assert (forall b ipv4, is_binary b -> within c not_id (bootstrap_family (E := E) b ipv4)) as Hb.
  { intros b ipv4 Hb. unfold bootstrap_family, raw_lines. within.
    all: try (unfold not_id; destruct Hb as [-> | ->]; discriminate).
    generalize window_default. induction (stale_owner_jump_uids c l) as [|uid uids IH]; intros w; cbn [delete_stale]; [within|].
    intros s Hs. apply emits_do. intros [[[]|e] w'].
    - eapply emits_mono; [|by apply IH]. intros t x (H1 & H2 & H3). split_and!; [|done..]. by constructor.
    - apply emits_ret. split_and!; [|done..]. by apply Forall_singleton. }
  unfold probe_rules, bootstrap_stale_owner_jumps. within; try (unfold not_id; discriminate).
  all: apply Hb; unfold is_binary; auto.
Qed.

Lemma not_id_lost t : Forall (fun e => not_id (asked e)) t -> ~ Exists id_lost t.
Proof.
  intros H [e [He Hl]]%Exists_exists. rewrite Forall_forall in H. specialize (H _ He).
  destruct e as [[] x]; try done. destruct x as [r|]; [|done]. destruct Hl as [-> _]. by apply H.
Qed.

Lemma Exists_two {A} (P : A -> Prop) x y t : Exists P ([] ++ [x] ++ [] ++ [y] ++ t) -> P x \/ P y \/ Exists P t.
Proof. cbn [app]. rewrite !Exists_cons. tauto. Qed.

Lemma probe_lost {E} s :
  emits (probe_authority (E := E) s) (fun t x => Exists id_lost t ->
    x.1 = Some (Ok Denied) /\ terminal_authority x.2 = Some Denied).
Proof.
  unfold probe_authority. apply emits_act_bind, emits_ret. cbn [fst snd].
  destruct (terminal_authority s). { apply emits_ret. intros H. by inversion H. }
  apply emits_act_bind, emits_do. intros g. apply emits_ret. cbn [fst snd].
  destruct (is_some g && _). { apply emits_ret. intros [Hl|Hl]%Exists_cons; [done|by inversion Hl]. }
  apply emits_act_bind, emits_ret. cbn [fst snd]. apply emits_act_bind, emits_do. intros identity. apply emits_ret. cbn [fst snd].
  destruct identity as [r|e].
  2: { apply emits_ret. intros [H|[H|H]]%Exists_two; [done|done|by inversion H]. }
  destruct (timed_out r) eqn:H1.
  { cbn. intros [H|[H|H]]%Exists_two; [done| |by inversion H]. by destruct H as (_ & ? & ->). }
  destruct (_ || _) eqn:H2.
  { apply emits_ret. intros [H|[H|H]]%Exists_two; [done| |by inversion H]. by destruct H as (_ & ? & ->). }
  destruct ((0 <? exit_code r) || _) eqn:H3; [by cbn|].
  destruct (negb (output_complete r) || _).
  { apply emits_ret. intros [H|[H|H]]%Exists_two; [done| |by inversion H]. by destruct H as (_ & ? & ->). }
  eapply emits_mono; [|apply (within_probe_rules (contract s)); done].
  intros t x [Ht _] [H|[H|H]]%Exists_two; [done| |by destruct (not_id_lost _ Ht)]. by destruct H as (_ & ? & ->).
Qed.

Definition asks_no_root (r : io_request) : Prop := match r with Now | IsCurrent => True | _ => False end.

Lemma reconcile_terminal fuel admitted iface s a :
  terminal_authority s = Some a -> a <> Ready ->
  emits (reconcile_if_current fuel admitted iface s) (fun t x =>
    (x.1 = Some (Ok Superseded) \/ x.1 = Some (Ok (Completed (AuthorityUnavailable a)))) /\
    Forall (fun e => asks_no_root (asked e)) t).
Proof.
  intros Hs Ha. unfold emits, reconcile_if_current. apply sat_act_bind. cbn [sat modify fst snd].
  apply sat_act_bind. intros started. cbn [fst snd sat]. apply sat_act_bind. intros [].
  - cbn [fst snd sat negb]. apply sat_act_bind. unfold probe_authority. apply sat_act_bind. cbn [sat get fst snd].
    rewrite (Hs : terminal_authority (fresh_call s) = Some a). cbn [sat act_ret fst snd]. rewrite bool_decide_eq_false_2 by done. cbn [negb].
    unfold record. repeat (apply sat_act_bind; cbn [sat act_ret fst snd]). intros x. cbn. split; [by right|by repeat constructor].
  - cbn [fst snd sat negb]. unfold record. repeat (apply sat_act_bind; cbn [sat act_ret fst snd]).
    intros x. cbn. split; [by left|by repeat constructor].
Qed.

(** A shell that is lost while root is probed counts as a refusal for good:
    the probe answers [Denied], although nothing was refused, and from then on
    every reconciliation, in any surroundings, answers so without asking the
    device again; the answer is not retryable. *)
Theorem lost_shell_denies_forever {E W} (handle : forall r, W -> io_reply r * W) w s :
  Exists id_lost (interp handle (probe_authority (E := E) s) w).2 ->
  let s' := (interp handle (probe_authority (E := E) s) w).1.1.2 in
  forall W' (handle' : forall r, W' -> io_reply r * W') w' fuel admitted iface,
    let '(r, t) := ((interp handle' (reconcile_if_current fuel admitted iface s') w').1.1.1,
                    (interp handle' (reconcile_if_current fuel admitted iface s') w').2) in
    (r = Some (Ok Superseded) \/ r = Some (Ok (Completed (AuthorityUnavailable Denied)))) /\
    Forall (fun e => asks_no_root (asked e)) t /\ retryable (AuthorityUnavailable Denied) = false.
Proof.
  intros Hl. destruct (interp_emits handle _ w _ (probe_lost s) Hl) as [_ Ht]. cbv zeta.
  intros W' handle' w' fuel admitted iface.
  destruct (interp_emits handle' _ w' _ (reconcile_terminal fuel admitted iface _ Denied Ht ltac:(done))) as [H1 H2].
  by split_and!.
Qed.

(** ** The executor keeps mutations single *)

Definition authoritative (r : RootCommandResult) : Prop := timed_out r = false /\ output_complete r = true.

Lemma authoritative_iff r : non_authoritative r = false <-> authoritative r.
Proof. unfold non_authoritative, authoritative. rewrite orb_false_iff, negb_false_iff. done. Qed.

(** Commands reach the root session as the policy means them.  A mutation is
    sent at most once and succeeds exactly when the shell confirmed it with
    status zero; an observation is repeated at most once, only after an answer
    that was cut off, and what it returns is a complete answer.  Malformed
    commands are never sent. *)
Theorem executor_sends_faithfully {W} (handle : forall r, W -> session_reply r * W) command win w :
  let '(rm, tm) := ((interp handle (executor_mutate command win) w).1.1.1,
                    (interp handle (executor_mutate command win) w).2) in
  let '(ro, to) := ((interp handle (executor_observe command win) w).1.1.1,
                    (interp handle (executor_observe command win) w).2) in
  match command_new Mutation command, command_new Observation command with
  | Ok m, Ok o =>
      (exists r, tm = [existT (Execute m) r] /\
        (rm = Some (Ok tt) <-> exists a, r = Ok a /\ authoritative a /\ exit_code a = 0)) /\
      (exists r1 rest, to = existT (Execute o) r1 :: rest /\
        (rest = [] \/ exists a r2, r1 = Ok a /\ ~ authoritative a /\ rest = [existT (Execute o) r2]) /\
        (forall a, ro = Some (Ok a) -> authoritative a /\ List.last to (existT (Execute o) r1) = existT (Execute o) (Ok a)))
  | _, _ => tm = [] /\ to = [] /\ rm = Some (Err EffectMutationRejected) /\
            ro = Some (Err EffectObservationUnavailable)
  end.
Proof.
  unfold executor_mutate, executor_observe, observe_once, mutation, observation, command_new.
  destruct (_ || _); [done|]. cbn. split.
  - destruct (handle (Execute _) w) as [[r|e] w1]; cbn.
    + destruct (non_authoritative r) eqn:Hn; cbn; [|destruct (Z.eqb_spec (exit_code r) 0) as [E|E]; cbn].
      all: eexists; split; [done|]; split; [intros|intros (a & [= <-] & Ha%authoritative_iff & Hx)]; try congruence; try done.
      exists r. split_and!; [done|by apply authoritative_iff..|done].
    + eexists. split; [done|]. split; [done|]. by intros (a & ? & _).
  - destruct (handle (Execute _) w) as [[r|e] w1]; cbn.
    2: { eexists _, []. split_and!; [done|by left|done]. }
    destruct (non_authoritative r) eqn:Hn; cbn.
    2: { rewrite Hn. cbn. eexists _, []. split_and!; [done|by left|]. intros a [= <-]. split; [by apply authoritative_iff|done]. }
    destruct (handle (Execute _) w1) as [[r2|e] w2]; cbn.
    + destruct (non_authoritative r2) eqn:Hn2; cbn; eexists _, _; (split_and!; [done| |]);
        try (right; eexists _, _; split_and!; [done|by rewrite <- authoritative_iff, Hn|done]); [done|].
      intros a [= <-]. split; [by apply authoritative_iff|done].
    + eexists _, _. split_and!; [done| |done]. right. eexists _, _. split_and!; [done|by rewrite <- authoritative_iff, Hn|done].
Qed.

(** ** Witnesses

    A device that keeps the four listings and answers the commands on them. *)

Record kernel := { k_rules4 : list str; k_rules6 : list str; k_mangle4 : list str; k_mangle6 : list str }.

Fixpoint remove_first (x : str) (ls : list str) : list str :=
  match ls with [] => [] | y :: ls => if x =b? y then ls else y :: remove_first x ls end.

Definition rule_line (rest : str) : str :=
  match split_once 32 rest with
  | Some (prio, tail) => prio ++ [58; 9] ++ lit "from all " ++ tail
  | None => rest
  end.

Definition rule_edit (rest : str) (ls : list str) : list str :=
  match strip_prefix (lit "add pref ") rest, strip_prefix (lit "del pref ") rest with
  | Some r, _ => ls ++ [rule_line r]
  | _, Some r => remove_first (rule_line r) ls
  | _, _ => ls
  end.

Definition mangle_edit (rest : str) (ls : list str) : list str :=
  match strip_prefix (lit "-D ") rest, strip_prefix (lit "-F ") rest, strip_prefix (lit "-X ") rest with
  | Some r, _, _ => remove_first (lit "-A " ++ r) ls
  | _, Some chain, _ => List.filter (fun l => negb (starts_with (lit "-A " ++ chain ++ lit " ") l)) ls
  | _, _, Some chain => remove_first (lit "-N " ++ chain) ls
  | _, _, _ => ls ++ [rest]
  end.

Definition kernel_mutate (command : str) (k : kernel) : kernel :=
  match strip_prefix (lit "ip -4 rule ") command, strip_prefix (lit "ip -6 rule ") command,
        strip_prefix (lit "iptables -t mangle ") command, strip_prefix (lit "ip6tables -t mangle ") command with
  | Some r, _, _, _ => {| k_rules4 := rule_edit r (k_rules4 k); k_rules6 := k_rules6 k; k_mangle4 := k_mangle4 k; k_mangle6 := k_mangle6 k |}
  | _, Some r, _, _ => {| k_rules4 := k_rules4 k; k_rules6 := rule_edit r (k_rules6 k); k_mangle4 := k_mangle4 k; k_mangle6 := k_mangle6 k |}
  | _, _, Some r, _ => {| k_rules4 := k_rules4 k; k_rules6 := k_rules6 k; k_mangle4 := mangle_edit r (k_mangle4 k); k_mangle6 := k_mangle6 k |}
  | _, _, _, Some r => {| k_rules4 := k_rules4 k; k_rules6 := k_rules6 k; k_mangle4 := k_mangle4 k; k_mangle6 := mangle_edit r (k_mangle6 k) |}
  | _, _, _, _ => k
  end.

Definition kernel_lines (command : str) (k : kernel) : list str :=
  if command =b? IPV4_RULE_SHOW then k_rules4 k
  else if command =b? IPV6_RULE_SHOW then k_rules6 k
  else if command =b? mangle_show IPTABLES then k_mangle4 k
  else if command =b? mangle_show IP6TABLES then k_mangle6 k
  else if command =b? lit "id -u" then [lit "0"]
  else if command =b? route_show (lit "1001") then [lit "default dev rmnet0"]
  else if starts_with (lit "ip -4 route get ") command then [lit "1.1.1.1 dev rmnet0 src 10.0.0.2"]
  else [].

Definition kernel_answer (code : Z) (ls : list str) : RootCommandResult :=
  {| exit_code := code; stdout := join [10] ls; timed_out := false; output_complete := true; session_generation := 1 |}.

Definition kernel_handle (r : io_request) (k : kernel) : io_reply r * kernel :=
  match r with
  | SessionGeneration => (Some 1, k)
  | RawObservation command => (Ok (kernel_answer 0 (kernel_lines command k)), k)
  | Observe command w =>
      ((Ok (kernel_answer (if contains (lit " -C ") command then 1 else 0) (kernel_lines command k)), w), k)
  | Lines command w => ((Ok (kernel_lines command k), w), k)
  | Mutate command w => ((Ok tt, w), kernel_mutate command k)
  | IsCurrent => (true, k)
  | Now => (0, k)
  end.

Definition demo_kernel : kernel :=
  {| k_rules4 := [[48; 58; 9] ++ lit "from all lookup local"; lit "20000:" ++ [9] ++ lit "from all lookup 1001"];
     k_rules6 := [[48; 58; 9] ++ lit "from all lookup local"]; k_mangle4 := [lit "-P OUTPUT ACCEPT"]; k_mangle6 := [] |}.

Definition demo_rt : rt :=
  {| contract := {| product_uid := 10234; namespace := Release; active_identity := None |};
     ready_session_generation := None; terminal_authority := None; diagnostic := reconcile_diagnostic_default;
     window := window_default; phases := phases_default; superseded := false |}.

Definition demo_reconcile := interp kernel_handle (reconcile_if_current 8 true (Some (lit "rmnet0")) demo_rt) demo_kernel.

Lemma demo_rt_reachable : rt_reachable demo_rt.
Proof. apply (reach_new 10234 Release). reflexivity. Qed.

Fixpoint find_mutation (p : str -> bool) (t : list ev) : option (list ev * str * list ev) :=
  match t with
  | [] => None
  | e :: t =>
      let next := match find_mutation p t with Some (t1, c, t2) => Some (e :: t1, c, t2) | None => None end in
      match asked e with
      | Mutate c _ => if p c then Some ([], c, t) else next
      | _ => next
      end
  end.

Lemma find_mutation_spec p t t1 c t2 :
  find_mutation p t = Some (t1, c, t2) -> exists w x, t = t1 ++ replied (Mutate c w) x :: t2 /\ p c = true.
Proof.
  revert t1. induction t as [|[r y] t IH]; intros t1 H; [done|]. cbn [find_mutation asked projT1] in H.
  assert (forall t1, match find_mutation p t with Some (t1, c, t2) => Some (replied r y :: t1, c, t2) | None => None end
    = Some (t1, c, t2) -> exists w x, replied r y :: t = t1 ++ replied (Mutate c w) x :: t2 /\ p c = true) as Hn.
  { clear H t1. intros t1 H. destruct (find_mutation p t) as [[[t1' c'] t2']|]; [|done]. injection H as <- -> ->.
    destruct (IH _ eq_refl) as (w & x & -> & Hp). by exists w, x. }
  destruct r; try (by apply Hn). destruct (p command) eqn:Hp; [|by apply Hn].
  injection H as <- -> ->. by exists w, y.
Qed.


Lemma lookup_added_above_verified_base_witness :
  match find_mutation (is_lookup_add (contract demo_rt)) demo_reconcile.2 with
  | Some (t1, _, _) => exists c, product c = product (contract demo_rt) /\ base_verified c t1
  | None => False
  end.
Proof.
  unfold demo_reconcile.
  destruct (find_mutation _ _) as [[[t1 c] t2]|] eqn:E; [|vm_compute in E; discriminate].
  destruct (find_mutation_spec _ _ _ _ _ E) as (w & x & Ht & Hp).
  exact (lookup_added_above_verified_base kernel_handle demo_rt demo_kernel 8 true (Some (lit "rmnet0")) t1 c w x t2
    demo_rt_reachable Ht Hp).
Defined.

Lemma enforced_has_evidence_witness :
  exists interface, Some (lit "rmnet0") = Some interface /\
    enforced_evidence (contract demo_rt) interface demo_reconcile.2.
Proof.
  exact (enforced_has_evidence kernel_handle demo_rt demo_kernel 8 true (Some (lit "rmnet0")) demo_rt_reachable
    ltac:(vm_compute; reflexivity)).
Defined.

Definition demo_installed : rt := demo_reconcile.1.1.2.

Lemma demo_installed_reachable : rt_reachable demo_installed.
Proof. unfold demo_installed, demo_reconcile. apply reach_reconcile, demo_rt_reachable. Qed.

Lemma cleanup_success_verified_witness :
  (interp kernel_handle (cleanup_exact demo_installed) demo_reconcile.1.2).1.1.1 = Some (Ok tt) /\
  cleaned (contract demo_installed) (interp kernel_handle (cleanup_exact demo_installed) demo_reconcile.1.2).2
    (interp kernel_handle (cleanup_exact demo_installed) demo_reconcile.1.2).1.1.2.
Proof.
  pose proof (cleanup_success_verified kernel_handle demo_installed demo_reconcile.1.2 demo_installed_reachable) as [H _].
  assert ((interp kernel_handle (cleanup_exact demo_installed) demo_reconcile.1.2).1.1.1 = Some (Ok tt)) as E
    by (vm_compute; reflexivity).
  split; [exact E|exact (H E)].
Defined.

(** The shell dies under [id -u]. *)
Definition dying_handle (r : io_request) (k : kernel) : io_reply r * kernel :=
  match r with
  | RawObservation command => (Ok (outcome (lost_outcome 1 false)), k)
  | r => kernel_handle r k
  end.

Lemma lost_shell_denies_forever_witness :
  let s' := (interp dying_handle (probe_authority (E := unit) demo_rt) demo_kernel).1.1.2 in
  (interp kernel_handle (reconcile_if_current 8 true (Some (lit "rmnet0")) s') demo_kernel).1.1.1 =
    Some (Ok (Completed (AuthorityUnavailable Denied))).
Proof.
  cbv zeta.
  destruct (lost_shell_denies_forever (E := unit) dying_handle demo_kernel demo_rt
    ltac:(apply Exists_cons_tl, Exists_cons_hd; split; [reflexivity|by exists 1])
    kernel kernel_handle demo_kernel 8%nat true (Some (lit "rmnet0"))) as [[H|H] _]; [|exact H].
  vm_compute in H. discriminate H.
Defined.
