(* ===== verification/MobileData.v ===== *)
(** * Mobile data effect

    [src/crates/runtime/src/mobile_data_effect.rs]: observing and switching
    mobile data through the root session, and the flag that says whether this
    effect may owe a switch back on.

    Each access to the flag and each root command is one request; tasks that
    share the effect interleave at them. *)

From Stdlib Require Import String.
From S2P Require Import Prelude Net RustStr RootSession Interaction.

Inductive MobileDataState := Enabled | Disabled.

#[export] Instance MobileDataState_eq_dec : EqDecision MobileDataState.
Proof. solve_decision. Defined.

Inductive MobileDataEffectError :=
| SessionUnavailable | ObservationIncomplete | ObservationRejected | InvalidObservation
| MutationRejected | MutationUncertain | MutationNotOwned.

Inductive mobile_request :=
| ClaimCompensation              (* compare_exchange(false, true) *)
| ReleaseCompensation            (* store(false) *)
| CompensationOwned              (* load *)
| Root (c : RootCommand).

Definition mobile_reply (r : mobile_request) : Type :=
  match r with
  | ClaimCompensation => bool
  | ReleaseCompensation => unit
  | CompensationOwned => bool
  | Root _ => result RootSessionError RootCommandResult
  end.

Abbreviation mobile := (prog mobile_request mobile_reply).

Definition mobile_bind {A B} (p : mobile A) (k : A -> mobile B) : mobile B := prog_bind p k.
Notation "'do' x '<-' c ';' k" := (mobile_bind c (fun x => k))
  (at level 60, x pattern, c at level 55, right associativity) : rust_scope.

Definition root (c : RootCommand) : mobile (result RootSessionError RootCommandResult) := request (Root c).
Definition release : mobile unit := request ReleaseCompensation.

Definition OBSERVE : str := lit "settings get global mobile_data".
Definition DISABLE : str := lit "cmd phone data disable".
Definition ENABLE : str := lit "cmd phone data enable".

Definition map_session_error (_ : RootSessionError) : MobileDataEffectError := SessionUnavailable.

Definition parse_mobile_data_state (raw : str) : option MobileDataState :=
  if trim raw =b? lit "1" then Some Enabled
  else if trim raw =b? lit "0" then Some Disabled
  else None.

Definition incomplete (r : RootCommandResult) : bool := timed_out r || negb (output_complete r).

Definition classify_observation (r : result RootSessionError RootCommandResult)
    : result MobileDataEffectError MobileDataState :=
  let? r := map_err map_session_error r in
  if incomplete r then Err ObservationIncomplete
  else if negb (exit_code r =? 0) then Err ObservationRejected
  else ok_or (parse_mobile_data_state (stdout r)) InvalidObservation.

Definition observe : mobile (result MobileDataEffectError MobileDataState) :=
  match observation OBSERVE with
  | Err e => Ret (Err (map_session_error e))
  | Ok c => do r <- root c ; Ret (classify_observation r)
  end.

Definition disable : mobile (result MobileDataEffectError unit) :=
  do claimed <- request ClaimCompensation ;
  if negb claimed then Ret (Err MutationUncertain)
  else
    match mutation DISABLE with
    | Err e => do _ <- release ; Ret (Err (map_session_error e))
    | Ok c =>
        do r <- root c ;
        match r with
        | Err _ => Ret (Err MutationUncertain)
        | Ok r =>
            if incomplete r then Ret (Err MutationUncertain)
            else if negb (exit_code r =? 0) then do _ <- release ; Ret (Err MutationRejected)
            else Ret (Ok tt)
        end
    end.

Definition enable_outcome (r : result RootSessionError RootCommandResult) : MobileDataEffectError :=
  match r with
  | Ok r => if incomplete r then MutationUncertain
            else if negb (exit_code r =? 0) then MutationRejected
            else MutationUncertain
  | Err _ => MutationUncertain
  end.

Definition enable_and_verify : mobile (result MobileDataEffectError unit) :=
  do owned <- request CompensationOwned ;
  if negb owned then Ret (Err MutationNotOwned)
  else
    match mutation ENABLE with
    | Err e => Ret (Err (map_session_error e))
    | Ok c =>
        do mutation <- root c ;
        do seen <- observe ;
        match seen with
        | Ok Enabled => do _ <- release ; Ret (Ok tt)
        | Ok Disabled => Ret (Err (enable_outcome mutation))
        | Err _ => Ret (Err MutationUncertain)
        end
    end.

Definition set (state : MobileDataState) : mobile (result MobileDataEffectError unit) :=
  match state with
  | Disabled => disable
  | Enabled => enable_and_verify
  end.

(** ** The marker, and what it stands for

    The marker is one bit in memory; what it stands for is written in the
    commands the phone has answered.  [ledger] reads that off the answers alone:
    data may be off by our hand after a switch-off that was not plainly refused,
    until the look that follows a switch-on shows data on. *)

Inductive mobile_call := CallObserve | CallSet (s : MobileDataState).

Definition call_body (c : mobile_call) : mobile unit :=
  match c with
  | CallObserve => do _ <- observe ; Ret tt
  | CallSet s => do _ <- set s ; Ret tt
  end.

Fixpoint calls (cs : list mobile_call) : mobile unit :=
  match cs with
  | [] => Ret tt
  | c :: cs => do _ <- call_body c ; calls cs
  end.

Abbreviation mobile_event := (event mobile_request mobile_reply).

Definition marker_step (owned : bool) (e : mobile_event) : bool :=
  match e with
  | existT ClaimCompensation _ => true
  | existT ReleaseCompensation _ => false
  | _ => owned
  end.

(** The replies the marker itself determines. *)
Definition marker_agrees (owned : bool) (e : mobile_event) : Prop :=
  match e with
  | existT ClaimCompensation b => b = negb owned
  | existT CompensationOwned b => b = owned
  | _ => True
  end.

Fixpoint marker_run (owned : bool) (t : list mobile_event) : Prop :=
  match t with
  | [] => True
  | e :: t => marker_agrees owned e /\ marker_run (marker_step owned e) t
  end.

Definition refused (r : result RootSessionError RootCommandResult) : bool :=
  match r with Ok r => negb (incomplete r) && negb (exit_code r =? 0) | Err _ => false end.

(** May data be off by our hand; is the next look the one after a switch-on. *)
Definition ledger_step (l : bool * bool) (e : mobile_event) : bool * bool :=
  match e with
  | existT (Root c) r =>
      if command c =b? DISABLE then (negb (refused r), false)
      else if command c =b? ENABLE then (l.1, true)
      else (l.1 && negb (l.2 && match classify_observation r with Ok Enabled => true | _ => false end), false)
  | _ => l
  end.

(** No command is sent that the ledger forbids. *)
Definition allowed (l : bool * bool) (e : mobile_event) : Prop :=
  match e with
  | existT (Root c) _ => (command c = DISABLE -> l.1 = false) /\ (command c = ENABLE -> l.1 = true)
  | _ => True
  end.

Fixpoint ledger_run (l : bool * bool) (t : list mobile_event) : Prop :=
  match t with
  | [] => True
  | e :: t => allowed l e /\ ledger_run (ledger_step l e) t
  end.

Lemma ledger_run_app l t t' : ledger_run l (t ++ t') <-> ledger_run l t /\ ledger_run (fold_left ledger_step t l) t'.
Proof. revert l. induction t as [|e t IH]; intros l; cbn [app ledger_run fold_left]; [tauto|]. rewrite IH. tauto. Qed.

Lemma marker_run_app o t t' : marker_run o (t ++ t') <-> marker_run o t /\ marker_run (fold_left marker_step t o) t'.
Proof. revert o. induction t as [|e t IH]; intros o; cbn [app marker_run fold_left]; [tauto|]. rewrite IH. tauto. Qed.

(** One call keeps marker and ledger together. *)
Definition faithful {A} (p : mobile A) : Prop :=
  emits p (fun t _ => forall o, marker_run o t ->
    ledger_run (o, false) t /\ fold_left ledger_step t (o, false) = (fold_left marker_step t o, false)).

Lemma faithful_bind {A B} (p : mobile A) (k : A -> mobile B) :
  faithful p -> (forall a, faithful (k a)) -> faithful (mobile_bind p k).
Proof.
  intros Hp Hk. unfold faithful, mobile_bind. rewrite emits_bind. eapply emits_mono; [|exact Hp].
  intros t a Ht. eapply emits_mono; [|exact (Hk a)]. intros t' b Ht' o [H1 H2]%marker_run_app.
  destruct (Ht o H1) as [L1 E1]. destruct (Ht' _ H2) as [L2 E2].
  rewrite !fold_left_app, ledger_run_app, E1. done.
Qed.

Definition observe_command : RootCommand := {| kind := Observation; command := OBSERVE |}.
Definition disable_command : RootCommand := {| kind := Mutation; command := DISABLE |}.
Definition enable_command : RootCommand := {| kind := Mutation; command := ENABLE |}.

Lemma commands_valid :
  observation OBSERVE = Ok observe_command /\ mutation DISABLE = Ok disable_command /\ mutation ENABLE = Ok enable_command.
Proof. by split_and!. Qed.

Lemma commands_distinct : OBSERVE <> DISABLE /\ OBSERVE <> ENABLE /\ DISABLE <> ENABLE.
Proof. split_and!; discriminate. Qed.

(** The ledger on the three commands. *)
Lemma ledger_disable l r : ledger_step l (existT (Root disable_command) r) = (negb (refused r), false).
Proof. unfold ledger_step. cbn [command disable_command]. by rewrite bool_decide_eq_true_2. Qed.

Lemma ledger_enable l r : ledger_step l (existT (Root enable_command) r) = (l.1, true).
Proof.
  unfold ledger_step. cbn [command enable_command]. rewrite bool_decide_eq_false_2, bool_decide_eq_true_2; [done..|].
  intros E. by apply commands_distinct.
Qed.

Lemma ledger_observe l r : ledger_step l (existT (Root observe_command) r) =
  (l.1 && negb (l.2 && match classify_observation r with Ok Enabled => true | _ => false end), false).
Proof.
  unfold ledger_step. cbn [command observe_command]. rewrite !bool_decide_eq_false_2; [done|apply commands_distinct..].
Qed.

Lemma observe_allowed l r : allowed l (existT (Root observe_command) r).
Proof. split; cbn [command observe_command]; intros E; by destruct commands_distinct as (? & ? & ?). Qed.

Lemma faithful_observe : faithful observe.
Proof.
  unfold faithful, observe. rewrite (proj1 commands_valid). apply emits_do. intros r. apply emits_ret. intros o _.
  cbn [ledger_run fold_left]. split; [split; [apply observe_allowed|exact I]|].
  rewrite ledger_observe. cbn. by rewrite andb_true_r.
Qed.

Lemma faithful_disable : faithful disable.
Proof.
  unfold faithful, disable. rewrite (proj1 (proj2 commands_valid)). apply emits_do. intros []; cbn [negb].
  2: { apply emits_ret. intros o [H _]. by destruct o. }
  apply emits_do. intros r.
  assert (forall t o, marker_run o (existT ClaimCompensation true :: existT (Root disable_command) r :: t) ->
    o = false /\ allowed (o, false) (existT (Root disable_command) r)) as Ha.
  { intros t [] [H _]; [done|]. split; [done|]. split; [done|]. cbn [command disable_command].
    intros E. by destruct commands_distinct as (? & ? & ?). }
  assert (refused r = false -> forall o,
    marker_run o [existT ClaimCompensation true; existT (Root disable_command) r] ->
    ledger_run (o, false) [existT ClaimCompensation true; existT (Root disable_command) r] /\
    fold_left ledger_step [existT ClaimCompensation true; existT (Root disable_command) r] (o, false) = (true, false)) as Hkept.
  { intros Hr o [-> Ho]%Ha. split; [split; [exact I|by split]|]. cbn [fold_left]. by rewrite ledger_disable, Hr. }
  destruct r as [r|e]; [|apply emits_ret; by apply Hkept].
  destruct (incomplete r) eqn:Hi; [apply emits_ret; apply Hkept; cbn; by rewrite Hi|].
  destruct (exit_code r =? 0) eqn:Hx; cbn [negb]; [apply emits_ret; apply Hkept; cbn; by rewrite Hi, Hx|].
  apply emits_do. intros []. apply emits_ret. intros o [-> Ho]%Ha. split; [split; [exact I|split; [exact Ho|by split]]|].
  cbn [fold_left]. rewrite ledger_disable. cbn [refused]. by rewrite Hi, Hx.
Qed.

Lemma faithful_enable : faithful enable_and_verify.
Proof.
  unfold faithful, enable_and_verify. rewrite (proj2 (proj2 commands_valid)). apply emits_do. intros []; cbn [negb].
  2: { apply emits_ret. intros o [H _]. by destruct o. }
  apply emits_do. intros m. unfold observe. rewrite (proj1 commands_valid). apply emits_do. intros r.
  assert (forall t o, marker_run o (existT CompensationOwned true :: t) ->
    o = true /\ ledger_run (o, false)
      [existT CompensationOwned true; existT (Root enable_command) m; existT (Root observe_command) r]) as Ha.
  { intros t [] [H _]; [|done]. split; [done|]. split; [exact I|]. split.
    - split; cbn [command enable_command]; intros E; [by destruct commands_distinct as (? & ? & ?)|done].
    - split; [apply observe_allowed|exact I]. }
  destruct (classify_observation r) as [[|]|e] eqn:Hr.
  - apply emits_do. intros []. apply emits_ret. intros o [-> Ho]%Ha.
    split; [destruct Ho as (? & ? & ? & _); by repeat split|].
    cbn [fold_left]. rewrite ledger_enable, ledger_observe. by rewrite Hr.
  - apply emits_ret. intros o [-> Ho]%Ha. split; [exact Ho|].
    cbn [fold_left]. rewrite ledger_enable, ledger_observe. by rewrite Hr.
  - apply emits_ret. intros o [-> Ho]%Ha. split; [exact Ho|].
    cbn [fold_left]. rewrite ledger_enable, ledger_observe. by rewrite Hr.
Qed.

Lemma faithful_ret {A} (a : A) : faithful (Ret a).
Proof. apply emits_ret. by intros o _. Qed.

Lemma faithful_calls cs : faithful (calls cs).
Proof.
  induction cs as [|c cs IH]; cbn [calls]; [apply faithful_ret|]. apply faithful_bind; [|done].
  destruct c as [|[]]; cbn [call_body set]; apply faithful_bind;
    auto using faithful_ret, faithful_observe, faithful_disable, faithful_enable.
Qed.

(** The marker refines the ledger of what was sent and answered.  Through
    any sequence of calls, whatever the root session answers, the marker is
    taken exactly when data may be off by this effect's hand: a switch-off went
    out that was not plainly refused, and no look right after a switch-on has
    shown data on since.  No switch-off is sent while that is so, and no
    switch-on while it is not. *)
Theorem marker_refines_ledger cs :
  emits (calls cs) (fun t _ =>
    marker_run false t ->
    ledger_run (false, false) t /\ (fold_left ledger_step t (false, false)).1 = fold_left marker_step t false).
Proof.
  eapply emits_mono; [|exact (faithful_calls cs)]. intros t a H Ht. destruct (H false Ht) as [H1 H2].
  split; [done|]. by rewrite H2.
Qed.
