(* ===== verification/RotationRuntime.v ===== *)
(** * Rotation runtime

    [src/crates/runtime/src/rotation_runtime.rs]: the coordinator that runs one
    rotation operation on concurrent tasks, driving the machine of [Rotation]
    and the effect of [MobileData].

    A critical section of the coordinator's mutex is one [section]; a method or
    task is a program of sections, root commands and calls to its neighbours.
    [step] lets any thread take its next request, so that a run is an arbitrary
    interleaving of tasks and callers.  The timing evidence, which drives
    nothing, is added by [RotationTiming]. *)

From Stdlib Require Import String.
From S2P Require Import Prelude Net RustStr ProxyAuth Cellular RootSession Interaction Threads RootPolicyRuntime MobileData Rotation.

Definition ROTATION_SAFETY_DEADLINE : Z := 90 * 1000000000.
Definition instant_max : Z := u64_max * 1000000000.

Inductive RotationRuntimeStartError :=
| StartRuntimeNotRunning | StartAlreadyInProgress | StartNoCurrentCellular | StartRootPolicyUnavailable
| StartCredentialUnavailable | StartExecutorUnavailable | StartStateUnavailable.

Definition map_start_error (e : RotationStartError) : RotationRuntimeStartError :=
  match e with
  | AlreadyInProgress => StartAlreadyInProgress
  | InvalidGeneration | OperationIdExhausted => StartStateUnavailable
  end.

Inductive RotationAction := BeforeIp | DisableData | EnableData | AfterIp | RestoreEnabled.

#[export] Instance RotationAction_eq_dec : EqDecision RotationAction.
Proof. solve_decision. Defined.

(** [ProxyCredentialGuard] of [proxy_coordinator.rs]. *)
Record ProxyCredentialGuard := { guard_version : Z; guard_material : ProxyCredentialMaterial }.

(** [CellularPolicyPublication] of [cellular_policy_coordinator.rs]. *)
Record CellularPolicyPublication := {
  publication_admission : CellularAdmissionSnapshot;
  publication_result : RootPolicyResult }.

(** A spawned task: its program is found by its description. *)
Inductive task := TAction (a : RotationAction) (operation_id : Z) | TDeadline (operation_id deadline : Z).

(** Join handles, notifiers and observers are numbers. *)
Record RotationRuntimeState := {
  machine : RotationStateMachine;
  deadline : option (Z * Z);
  credential_guard : option ProxyCredentialGuard;
  claimed : list (Z * RotationAction);
  cancel : option nat;
  tasks : list nat;
  observer : option nat;
  internal_observers : list nat;
  closed : bool }.

Definition runtime_new : RotationRuntimeState :=
  {| machine := new; deadline := None; credential_guard := None; claimed := []; cancel := None; tasks := [];
     observer := None; internal_observers := []; closed := false |}.

Definition with_machine (s : RotationRuntimeState) (m : RotationStateMachine) : RotationRuntimeState :=
  {| machine := m; deadline := deadline s; credential_guard := credential_guard s; claimed := claimed s;
     cancel := cancel s; tasks := tasks s; observer := observer s; internal_observers := internal_observers s;
     closed := closed s |}.

(** What a section reads from outside while it holds the lock. *)
Record outlook := {
  guard_matches : ProxyCredentialGuard -> bool;   (* the proxy's current credential *)
  is_finished : nat -> bool;                      (* of a join handle *)
  spawned : option nat;                           (* the executor's answer to a spawn *)
  instant : Z;                                    (* the clock *)
  notifier : nat }.                               (* a fresh [Notify] *)

(** ** Critical sections *)

Definition admitted_generation (a : CellularAdmissionSnapshot) : option Z :=
  if adm_state a =b? IsAdmitted then Cellular.last_sequence a else None.

Definition operation_current (s : RotationRuntimeState) (operation_id : Z) : bool :=
  negb (closed s)
  && (snap_operation_id (snapshot (machine s)) =b? Some operation_id)
  && negb (terminal (snap_phase (snapshot (machine s)))).

Definition credential_guard_matches (s : RotationRuntimeState) (o : outlook) (operation_id : Z) : bool :=
  (snap_operation_id (snapshot (machine s)) =b? Some operation_id)
  && is_some_and (credential_guard s) (guard_matches o).

(** A machine call inside a section: its error is dropped by the callers. *)
Definition machine_call (s : RotationRuntimeState) (x : answer * RotationStateMachine)
    : option RotationSnapshot * RotationRuntimeState :=
  (result_ok x.1, with_machine s x.2).

(** The call when the operation is still current; [None] when it is not. *)
Definition if_current (s : RotationRuntimeState) (operation_id : Z) (x : answer * RotationStateMachine)
    : option (option RotationSnapshot) * RotationRuntimeState :=
  if operation_current s operation_id then let '(r, s) := machine_call s x in (Some r, s) else (None, s).

Definition prepare_section (s : RotationRuntimeState) (o : outlook) (before : Z) (guard : ProxyCredentialGuard)
    : result RotationRuntimeStartError Z * RotationRuntimeState :=
  if closed s then (Err StartStateUnavailable, s)
  else
    match start (machine s) before with
    | (Err e, m) => (Err (map_start_error e), with_machine s m)
    | (Ok operation_id, m) =>
        (Ok operation_id,
         {| machine := m; deadline := None; credential_guard := Some guard; claimed := []; cancel := None;
            tasks := List.filter (fun t => negb (is_finished o t)) (tasks s);
            observer := observer s; internal_observers := internal_observers s; closed := closed s |})
    end.

Definition activate_section (s : RotationRuntimeState) (o : outlook) (operation_id : Z)
    : result RotationRuntimeStartError (RotationSnapshot * Z) * RotationRuntimeState :=
  if closed s || is_some (deadline s) || is_some (cancel s)
     || (snap_operation_id (snapshot (machine s)) <>b? Some operation_id)
     || (snap_phase (snapshot (machine s)) <>b? Preparing)
  then (Err StartStateUnavailable, s)
  else
    match checked_add instant_max (instant o) ROTATION_SAFETY_DEADLINE with
    | None => (Err StartStateUnavailable, s)
    | Some d =>
        (Ok (snapshot (machine s), d),
         {| machine := machine s; deadline := Some (operation_id, d); credential_guard := credential_guard s;
            claimed := claimed s; cancel := Some (notifier o); tasks := tasks s; observer := observer s;
            internal_observers := internal_observers s; closed := closed s |})
    end.

Definition fail_prepared_section (s : RotationRuntimeState) (operation_id : Z)
    : option (option nat * RotationSnapshot) * RotationRuntimeState :=
  let current := snapshot (machine s) in
  if (snap_operation_id current <>b? Some operation_id) || (snap_phase current <>b? Preparing) then (None, s)
  else
    match fail (machine s) operation_id FailureStateUnavailable with
    | (Err _, m) => (None, with_machine s m)
    | (Ok snap, m) =>
        (Some (cancel s, snap),
         {| machine := m; deadline := None; credential_guard := None; claimed := []; cancel := None; tasks := tasks s;
            observer := observer s; internal_observers := internal_observers s; closed := closed s |})
    end.

(** Phases in which a refused admission is not yet the loss of the network. *)
Definition awaiting_loss (p : RotationPhase) : bool :=
  match p with DataDisabling | WaitingCellularLoss => true | _ => false end.

Definition observe_cellular_section (s : RotationRuntimeState) (a : CellularAdmissionSnapshot)
    : option RotationSnapshot * RotationRuntimeState :=
  match Cellular.last_sequence a with
  | None => (None, s)
  | Some generation =>
      let admitted := adm_state a =b? IsAdmitted in
      let authoritative_loss := negb admitted && match adm_reason a with Some NetworkLost => true | _ => false end in
      if closed s then (None, s)
      else
        let current := snapshot (machine s) in
        match snap_operation_id current with
        | None => (None, s)
        | Some operation_id =>
            if terminal (snap_phase current) then (None, s)
            else if negb admitted && negb authoritative_loss && awaiting_loss (snap_phase current) then (None, s)
            else machine_call s (observe_cellular (machine s) operation_id generation admitted)
        end
  end.

Definition observe_root_section (s : RotationRuntimeState) (p : CellularPolicyPublication)
    : option RotationSnapshot * RotationRuntimeState :=
  match Cellular.last_sequence (publication_admission p) with
  | None => (None, s)
  | Some generation =>
      let authorized := match publication_result p with Enforced => true | _ => false end in
      if closed s then (None, s)
      else
        let current := snapshot (machine s) in
        match snap_operation_id current with
        | None => (None, s)
        | Some operation_id =>
            if terminal (snap_phase current) then (None, s)
            else machine_call s (observe_root_policy (machine s) operation_id generation authorized)
        end
  end.

Definition deadline_section (s : RotationRuntimeState) (operation_id : Z)
    : option RotationSnapshot * RotationRuntimeState :=
  let current := snapshot (machine s) in
  if closed s || (snap_operation_id current <>b? Some operation_id) || terminal (snap_phase current)
  then (None, s)
  else machine_call s (deadline_exceeded (machine s) operation_id).

Definition fail_section (s : RotationRuntimeState) (o : outlook) (operation_id : Z) (f : RotationFailure)
    : option RotationSnapshot * RotationRuntimeState :=
  if negb (operation_current s operation_id) then (None, s)
  else
    let effective := if credential_guard_matches s o operation_id then f else CredentialChanged in
    machine_call s (fail (machine s) operation_id effective).

Definition claim_section (s : RotationRuntimeState) (operation_id : Z) (a : RotationAction)
    : bool * RotationRuntimeState :=
  if closed s || list_contains (claimed s) (operation_id, a) then (false, s)
  else
    (true,
     {| machine := machine s; deadline := deadline s; credential_guard := credential_guard s;
        claimed := (operation_id, a) :: claimed s; cancel := cancel s; tasks := tasks s; observer := observer s;
        internal_observers := internal_observers s; closed := closed s |}).

Definition spawn_section (s : RotationRuntimeState) (o : outlook) : option nat * RotationRuntimeState :=
  if closed s then (None, s)
  else
    match spawned o with
    | None => (None, s)
    | Some handle =>
        (Some handle,
         {| machine := machine s; deadline := deadline s; credential_guard := credential_guard s;
            claimed := claimed s; cancel := cancel s; tasks := tasks s ++ [handle]; observer := observer s;
            internal_observers := internal_observers s; closed := closed s |})
    end.

(** [None] when it was closed before. *)
Record closing := {
  closing_cancel : option nat; closing_tasks : list nat; closing_snapshot : RotationSnapshot; force_restore : bool }.

Definition close_section (s : RotationRuntimeState) : option closing * RotationRuntimeState :=
  if closed s then (None, s)
  else
    let current := snapshot (machine s) in
    let force := match snap_phase current with
                 | DataDisabling | WaitingCellularLoss | DataEnabling => true
                 | _ => false
                 end in
    let '(snap, m) :=
      match snap_operation_id current with
      | None => (current, machine s)
      | Some operation_id =>
          if terminal (snap_phase current) then (current, machine s)
          else match fail (machine s) operation_id FailureStateUnavailable with
               | (Ok snap, m) => (snap, m)
               | (Err _, m) => (current, m)
               end
      end in
    (Some {| closing_cancel := cancel s; closing_tasks := tasks s; closing_snapshot := snap; force_restore := force |},
     {| machine := m; deadline := deadline s; credential_guard := credential_guard s; claimed := claimed s;
        cancel := None; tasks := []; observer := observer s; internal_observers := internal_observers s;
        closed := true |}).

Definition restore_section (s : RotationRuntimeState) (operation_id : Z) (r : RotationRestoreResult)
    : option RotationSnapshot * RotationRuntimeState :=
  let current := snapshot (machine s) in
  if (snap_operation_id current <>b? Some operation_id) || (snap_phase current <>b? PhaseFailed) then (None, s)
  else machine_call s (record_restore (machine s) operation_id r).

Definition operation_deadline (s : RotationRuntimeState) (operation_id : Z) : option Z :=
  if closed s || (snap_operation_id (snapshot (machine s)) <>b? Some operation_id) then None
  else match deadline s with
       | Some (id, d) => if id =b? operation_id then Some d else None
       | None => None
       end.

Definition operation_generation_deadline (s : RotationRuntimeState) (operation_id : Z) (before : bool)
    : option (Z * Z) :=
  let snap := snapshot (machine s) in
  if closed s || (snap_operation_id snap <>b? Some operation_id) || terminal (snap_phase snap) then None
  else
    match (if before then snap_before_generation snap else snap_after_generation snap), deadline s with
    | Some generation, Some (id, d) => if id =b? operation_id then Some (generation, d) else None
    | _, _ => None
    end.

(** ** Requests *)

Inductive section :=
| LPrepare (before : Z) (guard : ProxyCredentialGuard)
| LActivate (operation_id : Z)
| LFailPrepared (operation_id : Z)
| LObserveCellular (a : CellularAdmissionSnapshot)
| LObserveRoot (p : CellularPolicyPublication)
| LDeadline (operation_id : Z)
| LFail (operation_id : Z) (f : RotationFailure)
| LClaim (operation_id : Z) (a : RotationAction)
| LSpawn (t : task)
| LClose
| LRestore (operation_id : Z) (r : RotationRestoreResult)
| LDeadlineOf (operation_id : Z)
| LGenerationOf (operation_id : Z) (before : bool)
| LSnapshot
| LBeforeIp (operation_id generation : Z) (address : IpAddr)
| LDisableStarted (operation_id : Z)
| LDisableDone (operation_id : Z) (outcome : RotationMutationOutcome)
| LEnableDone (operation_id : Z) (outcome : RotationMutationOutcome)
| LAfterIp (operation_id generation : Z) (address : IpAddr)
| LCredential (operation_id : Z)
| LCancelHandle
| LObservers
| LSetObserver (o : nat)
| LAddObserver (o : nat).

Definition section_reply (l : section) : Type :=
  match l with
  | LPrepare _ _ => result RotationRuntimeStartError Z
  | LActivate _ => result RotationRuntimeStartError (RotationSnapshot * Z)
  | LFailPrepared _ => option (option nat * RotationSnapshot)
  | LObserveCellular _ | LObserveRoot _ | LDeadline _ | LFail _ _ | LRestore _ _ => option RotationSnapshot
  | LClaim _ _ => bool
  | LSpawn _ => bool
  | LClose => option closing
  | LDeadlineOf _ => option Z
  | LGenerationOf _ _ => option (Z * Z)
  | LSnapshot | LSetObserver _ | LAddObserver _ => RotationSnapshot
  | LBeforeIp _ _ _ | LDisableStarted _ | LDisableDone _ _ | LEnableDone _ _ | LAfterIp _ _ _ =>
      option (option RotationSnapshot)
  | LCredential _ => bool
  | LCancelHandle => option nat
  | LObservers => option nat * list nat
  end.

Definition set_observers (s : RotationRuntimeState) (o : option nat) (internal : list nat) : RotationRuntimeState :=
  {| machine := machine s; deadline := deadline s; credential_guard := credential_guard s; claimed := claimed s;
     cancel := cancel s; tasks := tasks s; observer := o; internal_observers := internal; closed := closed s |}.

Definition enter (l : section) (o : outlook) (s : RotationRuntimeState) : section_reply l * RotationRuntimeState :=
  match l with
  | LPrepare before guard => prepare_section s o before guard
  | LActivate id => activate_section s o id
  | LFailPrepared id => fail_prepared_section s id
  | LObserveCellular a => observe_cellular_section s a
  | LObserveRoot p => observe_root_section s p
  | LDeadline id => deadline_section s id
  | LFail id f => fail_section s o id f
  | LClaim id a => claim_section s id a
  | LSpawn _ => let '(h, s) := spawn_section s o in (is_some h, s)
  | LClose => close_section s
  | LRestore id r => restore_section s id r
  | LDeadlineOf id => (operation_deadline s id, s)
  | LGenerationOf id before => (operation_generation_deadline s id before, s)
  | LSnapshot => (snapshot (machine s), s)
  | LBeforeIp id g a => if_current s id (record_before_ip (machine s) id g a)
  | LDisableStarted id => if_current s id (data_disable_mutation_started (machine s) id)
  | LDisableDone id outcome => if_current s id (data_disable_effect_completed (machine s) id outcome)
  | LEnableDone id outcome => if_current s id (data_enable_effect_completed (machine s) id outcome)
  | LAfterIp id g a => if_current s id (record_after_ip (machine s) id g a)
  | LCredential id => (credential_guard_matches s o id, s)
  | LCancelHandle => (cancel s, s)
  | LObservers => ((observer s, internal_observers s), s)
  | LSetObserver n => (snapshot (machine s), set_observers s (Some n) (internal_observers s))
  | LAddObserver n => (snapshot (machine s), set_observers s (observer s) (internal_observers s ++ [n]))
  end.

Inductive runtime_request :=
| Locked (l : section)
| Mobile (r : mobile_request)
| MobileUntil (c : RootCommand)                (* a root command whose caller may give up first *)
| PublicIp                                     (* the probe, against the deadline *)
| Wait                                         (* timeout_at(deadline, cancel.notified()) *)
| Notify (observer : nat) (snap : RotationSnapshot)
| NotifyWaiters (cancel : nat)
| Join (handle : nat)
| AdmissionSnapshot
| LastPublication
| CredentialGuard.

Definition runtime_reply (r : runtime_request) : Type :=
  match r with
  | Locked l => section_reply l
  | Mobile m => mobile_reply m
  | MobileUntil _ => option (result RootSessionError RootCommandResult)
  | PublicIp => option (result unit (Z * IpAddr))
  | Wait => bool
  | Notify _ _ | NotifyWaiters _ => unit
  | Join _ => bool
  | AdmissionSnapshot => result unit CellularAdmissionSnapshot
  | LastPublication => option CellularPolicyPublication
  | CredentialGuard => option ProxyCredentialGuard
  end.

Abbreviation rprog := (prog runtime_request runtime_reply).
Abbreviation rask := (@request runtime_request runtime_reply).

Definition locked (l : section) : rprog (section_reply l) := request (Locked l).

(** The effect under [timeout] or [timeout_at]: the caller may give up at each
    root command. *)
Fixpoint timed {A} (p : mobile A) : rprog (option A) :=
  match p with
  | Ret a => Ret (Some a)
  | Do (Root c) k => Do (MobileUntil c) (fun x => match x with Some x => timed (k x) | None => Ret None end)
  | Do r k => Do (Mobile r) (fun x => timed (k x))
  end.

(** ** Methods and tasks *)

Fixpoint notify_all (observers : list nat) (snap : RotationSnapshot) : rprog unit :=
  match observers with
  | [] => Ret tt
  | o :: observers => let> _ := rask (Notify o snap) in notify_all observers snap
  end.

Definition publish (snap : RotationSnapshot) : rprog unit :=
  let> (observer, internal) := locked LObservers in
  notify_all (option_list observer ++ internal) snap.

Definition action_for (snap : RotationSnapshot) : option RotationAction :=
  match snap_phase snap with
  | Preparing => Some BeforeIp
  | DataDisabling => Some DisableData
  | DataEnabling => Some EnableData
  | ProbingPublicIp => Some AfterIp
  | PhaseFailed => if snap_restore_required snap then Some RestoreEnabled else None
  | _ => None
  end.

Definition schedule_for (snap : RotationSnapshot) : rprog (result RotationRuntimeStartError unit) :=
  match snap_operation_id snap, action_for snap with
  | Some operation_id, Some action =>
      let> claimed := locked (LClaim operation_id action) in
      if negb claimed then Ret (Ok tt)
      else
        let> spawned := locked (LSpawn (TAction action operation_id)) in
        Ret (if spawned then Ok tt else Err StartExecutorUnavailable)
  | _, _ => Ret (Ok tt)
  end.

Definition notify_cancel (cancel : option nat) : rprog unit :=
  match cancel with
  | Some c => let> _ := rask (NotifyWaiters c) in Ret tt
  | None => Ret tt
  end.

Definition after_transition (snap : RotationSnapshot) : rprog unit :=
  let> _ :=
    (if terminal (snap_phase snap) then let> c := locked LCancelHandle in notify_cancel c else Ret tt) in
  let> _ := publish snap in
  let> _ := schedule_for snap in
  Ret tt.

Definition after_some (snap : option RotationSnapshot) : rprog unit :=
  match snap with Some snap => after_transition snap | None => Ret tt end.

Definition fail_ (operation_id : Z) (f : RotationFailure) : rprog unit :=
  let> snap := locked (LFail operation_id f) in after_some snap.

(** The end of a task: what the machine answered to its report. *)
Definition report (r : option (option RotationSnapshot)) (refused : rprog unit) : rprog unit :=
  match r with
  | None => Ret tt
  | Some None => refused
  | Some (Some snap) => after_transition snap
  end.

Definition run_before_ip (operation_id : Z) : rprog unit :=
  let> found := locked (LGenerationOf operation_id true) in
  match found with
  | None => Ret tt
  | Some (before_generation, _) =>
      let> observation := rask PublicIp in
      match observation with
      | None => fail_ operation_id DeadlineExceeded
      | Some (Err _) => fail_ operation_id BeforeIpFailed
      | Some (Ok (generation, address)) =>
          if generation <>b? before_generation then fail_ operation_id BeforeIpFailed
          else
            let> r := locked (LBeforeIp operation_id generation address) in
            report r (fail_ operation_id BeforeIpFailed)
      end
  end.

(** The outcome of a mobile-data mutation; [None] for an answer that is a bug. *)
Definition mutation_outcome (r : option (result MobileDataEffectError unit)) : option RotationMutationOutcome :=
  match r with
  | None => Some Uncertain
  | Some (Ok _) => Some Applied
  | Some (Err MutationRejected) => Some Rejected
  | Some (Err (MutationUncertain | SessionUnavailable)) => Some Uncertain
  | Some (Err _) => None
  end.

Definition run_disable_data (operation_id : Z) : rprog unit :=
  let> found := locked (LDeadlineOf operation_id) in
  match found with
  | None => Ret tt
  | Some _ =>
      let> observed := timed observe in
      match observed with
      | None => fail_ operation_id DeadlineExceeded
      | Some (Err _) | Some (Ok Disabled) => fail_ operation_id MobileDataObservationFailed
      | Some (Ok Enabled) =>
          let> started := locked (LDisableStarted operation_id) in
          match started with
          | Some (Some snap) =>
              let> _ := after_transition snap in
              let> now := locked LSnapshot in
              if terminal (snap_phase now) then Ret tt
              else
                let> effect := timed (set Disabled) in
                match mutation_outcome effect with
                | None => fail_ operation_id DataDisableFailed
                | Some outcome =>
                    let> r := locked (LDisableDone operation_id outcome) in
                    report r (Ret tt)
                end
          | _ => Ret tt
          end
      end
  end.

Definition run_enable_data (operation_id : Z) : rprog unit :=
  let> found := locked (LDeadlineOf operation_id) in
  match found with
  | None => Ret tt
  | Some _ =>
      let> effect := timed (set Enabled) in
      match mutation_outcome effect with
      | None => fail_ operation_id DataEnableFailed
      | Some outcome =>
          let> r := locked (LEnableDone operation_id outcome) in
          report r (Ret tt)
      end
  end.

Definition run_after_ip (operation_id : Z) : rprog unit :=
  let> found := locked (LGenerationOf operation_id false) in
  match found with
  | None => Ret tt
  | Some (after_generation, _) =>
      let> observation := rask PublicIp in
      match observation with
      | None => fail_ operation_id DeadlineExceeded
      | Some (Err _) => fail_ operation_id AfterIpFailed
      | Some (Ok (generation, address)) =>
          if generation <>b? after_generation then fail_ operation_id AfterIpFailed
          else
            let> unchanged := locked (LCredential operation_id) in
            if negb unchanged then fail_ operation_id CredentialChanged
            else
              let> r := locked (LAfterIp operation_id generation address) in
              report r (fail_ operation_id AfterIpFailed)
      end
  end.

(** The answer of the second look, after a switch back on. *)
Definition restore_readback (r : option (result MobileDataEffectError MobileDataState)) : RotationRestoreResult :=
  match r with
  | Some (Ok Enabled) => RestoredEnabled
  | Some (Ok Disabled) => RestoreFailed
  | _ => RestoreUncertain
  end.

Definition restore_effect : rprog RotationRestoreResult :=
  let> observed := timed observe in
  match observed with
  | Some (Ok Enabled) => Ret AlreadyEnabled
  | Some (Ok Disabled) =>
      let> effect := timed (set Enabled) in
      match effect with
      | Some (Ok _) | Some (Err (MutationUncertain | SessionUnavailable)) =>
          let> seen := timed observe in Ret (restore_readback seen)
      | _ => Ret RestoreFailed
      end
  | _ => Ret RestoreUncertain
  end.

Definition restore_enabled_direct (operation_id : Z) : rprog unit :=
  let> restore := restore_effect in
  let> snap := locked (LRestore operation_id restore) in
  match snap with Some snap => publish snap | None => Ret tt end.

Definition deadline_task (operation_id : Z) : rprog unit :=
  let> cancelled := rask Wait in
  if cancelled then Ret tt
  else let> snap := locked (LDeadline operation_id) in after_some snap.

Definition task_body (t : task) : rprog unit :=
  match t with
  | TAction BeforeIp id => run_before_ip id
  | TAction DisableData id => run_disable_data id
  | TAction EnableData id => run_enable_data id
  | TAction AfterIp id => run_after_ip id
  | TAction RestoreEnabled id => restore_enabled_direct id
  | TDeadline id _ => deadline_task id
  end.

Definition root_current (p : option CellularPolicyPublication) (before : Z) : bool :=
  is_some_and p (fun p =>
    is_some_and (Cellular.last_sequence (publication_admission p)) (fun s => s =? before)
    && match publication_result p with Enforced => true | _ => false end).

Definition prepare : rprog (result RotationRuntimeStartError Z) :=
  let> admission := rask AdmissionSnapshot in
  match admission with
  | Err _ => Ret (Err StartStateUnavailable)
  | Ok admission =>
      match admitted_generation admission with
      | None => Ret (Err StartNoCurrentCellular)
      | Some before =>
          let> publication := rask LastPublication in
          if negb (root_current publication before) then Ret (Err StartRootPolicyUnavailable)
          else
            let> guard := rask CredentialGuard in
            match guard with
            | None => Ret (Err StartCredentialUnavailable)
            | Some guard => locked (LPrepare before guard)
            end
      end
  end.

Definition fail_prepared_before_mutation (operation_id : Z) : rprog bool :=
  let> r := locked (LFailPrepared operation_id) in
  match r with
  | None => Ret false
  | Some (cancel, snap) =>
      let> _ := notify_cancel cancel in
      let> _ := publish snap in
      Ret true
  end.

Definition activate_prepared (operation_id : Z) : rprog (result RotationRuntimeStartError unit) :=
  let> r := locked (LActivate operation_id) in
  match r with
  | Err e => Ret (Err e)
  | Ok (snap, d) =>
      let> _ := publish snap in
      let> spawned := locked (LSpawn (TDeadline operation_id d)) in
      if negb spawned then
        let> _ := fail_prepared_before_mutation operation_id in Ret (Err StartExecutorUnavailable)
      else
        let> scheduled := schedule_for snap in
        match scheduled with
        | Ok _ => Ret (Ok tt)
        | Err e => let> _ := fail_prepared_before_mutation operation_id in Ret (Err e)
        end
  end.

Definition start_ : rprog (result RotationRuntimeStartError Z) :=
  let> prepared := prepare in
  match prepared with
  | Err e => Ret (Err e)
  | Ok operation_id =>
      let> activated := activate_prepared operation_id in
      match activated with
      | Ok _ => Ret (Ok operation_id)
      | Err e => let> _ := fail_prepared_before_mutation operation_id in Ret (Err e)
      end
  end.

Fixpoint join_all (handles : list nat) (clean : bool) : rprog bool :=
  match handles with
  | [] => Ret clean
  | h :: handles => let> joined := rask (Join h) in join_all handles (clean && joined)
  end.

Definition shutdown : rprog bool :=
  let> closing := locked LClose in
  match closing with
  | None => Ret true
  | Some c =>
      let> _ := notify_cancel (closing_cancel c) in
      let> _ := publish (closing_snapshot c) in
      let> clean := join_all (closing_tasks c) true in
      match snap_operation_id (closing_snapshot c) with
      | None => Ret clean
      | Some operation_id =>
          let> current := locked LSnapshot in
          if (snap_phase current =b? PhaseFailed) && (snap_restore_required current || force_restore c) then
            let> _ := restore_enabled_direct operation_id in Ret clean
          else Ret clean
      end
  end.

(** ** Interleavings *)

Inductive returned :=
| RUnit | RBool (b : bool) | RId (r : result RotationRuntimeStartError Z) | RActivated (r : result RotationRuntimeStartError unit).

(** The public methods, and the internal observer of the policy coordinator. *)
Inductive caller :=
| CallStart | CallPrepare | CallActivate (operation_id : Z) | CallFailPrepared (operation_id : Z)
| CallObserveCellular (a : CellularAdmissionSnapshot) | CallObserveRoot (p : CellularPolicyPublication)
| CallShutdown | CallSetObserver (n : nat) | CallAddObserver (n : nat).

Definition caller_body (c : caller) : rprog returned :=
  match c with
  | CallStart => let> r := start_ in Ret (RId r)
  | CallPrepare => let> r := prepare in Ret (RId r)
  | CallActivate id => let> r := activate_prepared id in Ret (RActivated r)
  | CallFailPrepared id => let> b := fail_prepared_before_mutation id in Ret (RBool b)
  | CallObserveCellular a => let> snap := locked (LObserveCellular a) in let> _ := after_some snap in Ret RUnit
  | CallObserveRoot p => let> snap := locked (LObserveRoot p) in let> _ := after_some snap in Ret RUnit
  | CallShutdown => let> b := shutdown in Ret (RBool b)
  | CallSetObserver n => let> snap := locked (LSetObserver n) in let> _ := rask (Notify n snap) in Ret RUnit
  | CallAddObserver n => let> snap := locked (LAddObserver n) in let> _ := rask (Notify n snap) in Ret RUnit
  end.

(** What the threads share. *)
Record coordinator := {
  st : RotationRuntimeState;
  compensation : bool }.                  (* [compensation_owned] of the effect *)

(** What the surroundings contribute to one request. *)
Inductive outside :=
| OSection (matches : ProxyCredentialGuard -> bool) (executor : bool) (now : Z) (notifier : nat)
| OSilent
| OBool (b : bool)
| ORoot (r : result RootSessionError RootCommandResult)
| OUntil (r : option (result RootSessionError RootCommandResult))
| OIp (r : option (result unit (Z * IpAddr)))
| OAdmission (r : result unit CellularAdmissionSnapshot)
| OPublication (p : option CellularPolicyPublication)
| OGuard (g : option ProxyCredentialGuard).

Definition serve_mobile (m : mobile_request) (owned : bool) (x : outside) : option (mobile_reply m * bool) :=
  match m, x with
  | ClaimCompensation, OSilent => Some (negb owned, true)
  | ReleaseCompensation, OSilent => Some (tt, false)
  | CompensationOwned, OSilent => Some (owned, owned)
  | Root _, ORoot r => Some (r, owned)
  | _, _ => None
  end.

Definition outlook_of (finished : nat -> bool) (next : nat) (matches : ProxyCredentialGuard -> bool) (executor : bool)
    (now : Z) (notifier : nat) : outlook :=
  {| guard_matches := matches; is_finished := finished; spawned := if executor then Some next else None;
     instant := now; notifier := notifier |}.

(** A join succeeds only on a finished task. *)
Definition serve (r : runtime_request) (w : coordinator) (finished : nat -> bool) (next : nat) (x : outside)
    : option (runtime_reply r * coordinator) :=
  match r, x with
  | Locked l, OSection matches executor now n =>
      let '(y, s) := enter l (outlook_of finished next matches executor now n) (st w) in
      Some (y, {| st := s; compensation := compensation w |})
  | Mobile m, x =>
      match serve_mobile m (compensation w) x with
      | Some (y, owned) => Some (y, {| st := st w; compensation := owned |})
      | None => None
      end
  | MobileUntil _, OUntil y => Some (y, w)
  | PublicIp, OIp y => Some (y, w)
  | Wait, OBool y => Some (y, w)
  | Notify _ _, OSilent => Some (tt, w)
  | NotifyWaiters _, OSilent => Some (tt, w)
  | Join h, OBool y => if y && negb (finished h) then None else Some (y, w)
  | AdmissionSnapshot, OAdmission y => Some (y, w)
  | LastPublication, OPublication y => Some (y, w)
  | CredentialGuard, OGuard y => Some (y, w)
  | _, _ => None
  end.

(** The task a request has started. *)
Definition born (r : runtime_request) : runtime_reply r -> list (rprog returned) :=
  match r with
  | Locked (LSpawn t) => fun y : bool => if y then [let> _ := task_body t in Ret RUnit] else []
  | _ => fun _ => []
  end.

Abbreviation rev := (event runtime_request runtime_reply).
Abbreviation step := (Threads.step serve born caller_body).
Abbreviation events := (Threads.events serve born caller_body).

Definition world_new : world runtime_request runtime_reply coordinator returned :=
  {| shared := {| st := runtime_new; compensation := false |}; threads := [] |}.
