(* ===== verification/RotationTasks.v ===== *)
(** * Interleavings of the rotation runtime

    What holds of every run of [RotationRuntime]: the machine it drives is the
    one of [Rotation], data is switched off and on only under the effect's
    discipline, and a closed runtime starts nothing.  The file ends with two
    runs that show the limits of that discipline. *)

From Stdlib Require Import String.
From S2P Require Import Prelude Net RustStr ProxyAuth Cellular RootSession Interaction Threads RootPolicyRuntime MobileData Rotation RotationRuntime.

(** ** Quiet programs: no mobile-data request *)

Definition quiet (r : runtime_request) : Prop :=
  match r with Mobile _ | MobileUntil _ => False | _ => True end.

Create HintDb quiet.

Lemma only_section {A} P l (k : section_reply l -> rprog A) :
  P (Locked l) -> (forall x, only P (k x)) -> only P (prog_bind (locked l) k).
Proof. by split. Qed.

Lemma only_request {A} P r (k : runtime_reply r -> rprog A) :
  P r -> (forall x, only P (k x)) -> only P (prog_bind (request r) k).
Proof. by split. Qed.

Ltac quiet :=
  repeat match goal with
  | |- only _ (Ret _) => exact I
  | |- only _ (prog_bind (locked _) _) => apply only_section; [exact I|intros ?]
  | |- only _ (prog_bind (request _) _) => apply only_request; [exact I|intros ?]
  | |- only _ (prog_bind _ _) => apply only_bind; [|intros ?]
  | |- only _ (locked _) => split; [exact I|intros ?; exact I]
  | |- only _ (match ?x with _ => _ end) => destruct x
  | |- only _ (if ?x then _ else _) => destruct x
  | |- only _ _ => solve [auto with quiet]
  end.

Lemma quiet_ret {A} (a : A) : only quiet (Ret a : rprog A).
Proof. exact I. Qed.
#[export] Hint Resolve quiet_ret : quiet.

Lemma quiet_notify_all os snap : only quiet (notify_all os snap).
Proof. induction os; cbn [notify_all]; quiet. Qed.
#[export] Hint Resolve quiet_notify_all : quiet.

Lemma quiet_publish snap : only quiet (publish snap).
Proof. unfold publish. quiet. Qed.
#[export] Hint Resolve quiet_publish : quiet.

Lemma quiet_schedule snap : only quiet (schedule_for snap).
Proof. unfold schedule_for. quiet. Qed.

Lemma quiet_notify_cancel c : only quiet (notify_cancel c).
Proof. unfold notify_cancel. quiet. Qed.
#[export] Hint Resolve quiet_schedule quiet_notify_cancel : quiet.

Lemma quiet_after_transition snap : only quiet (after_transition snap).
Proof. unfold after_transition. quiet. Qed.
#[export] Hint Resolve quiet_after_transition : quiet.

Lemma quiet_after_some snap : only quiet (after_some snap).
Proof. unfold after_some. quiet. Qed.
#[export] Hint Resolve quiet_after_some : quiet.

Lemma quiet_fail id f : only quiet (fail_ id f).
Proof. unfold fail_. quiet. Qed.
#[export] Hint Resolve quiet_fail : quiet.

Lemma quiet_report r refused : only quiet refused -> only quiet (report r refused).
Proof. intros. unfold report. quiet. Qed.
#[export] Hint Resolve quiet_report : quiet.

Lemma quiet_fail_prepared id : only quiet (fail_prepared_before_mutation id).
Proof. unfold fail_prepared_before_mutation. quiet. Qed.

Lemma quiet_prepare : only quiet prepare.
Proof. unfold prepare. quiet. Qed.
#[export] Hint Resolve quiet_fail_prepared quiet_prepare : quiet.

Lemma quiet_activate id : only quiet (activate_prepared id).
Proof. unfold activate_prepared. quiet. Qed.
#[export] Hint Resolve quiet_activate : quiet.

Lemma quiet_start : only quiet start_.
Proof. unfold start_. quiet. Qed.

Lemma quiet_before_ip id : only quiet (run_before_ip id).
Proof. unfold run_before_ip. quiet. Qed.

Lemma quiet_after_ip id : only quiet (run_after_ip id).
Proof. unfold run_after_ip. quiet. Qed.

Lemma quiet_deadline id : only quiet (deadline_task id).
Proof. unfold deadline_task. quiet. Qed.

Lemma quiet_join hs clean : only quiet (join_all hs clean).
Proof. revert clean. induction hs; intros; cbn [join_all]; quiet. Qed.
#[export] Hint Resolve quiet_start quiet_before_ip quiet_after_ip quiet_deadline quiet_join : quiet.

(** ** The discipline of the mobile-data effect *)

Abbreviation did := (@existT runtime_request runtime_reply).

(** Data was seen on, then the duty to restore was recorded. *)
Definition duty_recorded (t : list rev) : Prop :=
  exists t0 id snap t1 r, t = t0 ++ did (Locked (LDisableStarted id)) (Some (Some snap)) :: t1 /\
    snap_restore_required snap = true /\
    did (MobileUntil observe_command) (Some r) ∈ t0 /\ classify_observation r = Ok Enabled.

Definition sends (r : runtime_request) (c : str) : Prop :=
  match r with Mobile (Root x) => command x = c | MobileUntil x => command x = c | _ => False end.

Definition disciplined (t : list rev) (r : runtime_request) (_ : runtime_reply r) : Prop :=
  (sends r DISABLE -> exists t0, t = t0 ++ [did (Mobile ClaimCompensation) true] /\ duty_recorded t0) /\
  (sends r ENABLE -> exists t0, t = t0 ++ [did (Mobile CompensationOwned) true]).

(** What a section promises to the task that enters it. *)
Definition section_promise (l : section) : section_reply l -> Prop :=
  match l with
  | LDisableStarted _ => fun x : option (option RotationSnapshot) =>
      forall snap, x = Some (Some snap) -> snap_restore_required snap = true
  | _ => fun _ => True
  end.

Definition promised (r : runtime_request) : runtime_reply r -> Prop :=
  match r with
  | Locked l => fun x => section_promise l x
  | _ => fun _ => True
  end.

Lemma quiet_disciplined {A} (p : rprog A) t : only quiet p -> always promised disciplined p t.
Proof. apply only_always. intros t' r x Hr. by destruct r. Qed.

Lemma duty_recorded_app t t' : duty_recorded t -> duty_recorded (t ++ t').
Proof.
  intros (t0 & id & snap & t1 & r & -> & H). exists t0, id, snap, (t1 ++ t'), r. split; [|done].
  by rewrite <- app_assoc.
Qed.

(** The timed programs, request by request. *)
Lemma timed_observe : timed observe =
  Do (MobileUntil observe_command) (fun x => match x with Some r => Ret (Some (classify_observation r)) | None => Ret None end).
Proof. unfold observe. by rewrite (proj1 commands_valid). Qed.

Lemma sends_observe c : c = DISABLE \/ c = ENABLE -> ~ sends (MobileUntil observe_command) c.
Proof. intros [-> | ->]; vm_compute; discriminate. Qed.

Lemma observe_disciplined t x : disciplined t (MobileUntil observe_command) x.
Proof. split; intros H; exfalso; eapply sends_observe; [|done| |done]; auto. Qed.

Lemma disable_disciplined {A} (k : option (result MobileDataEffectError unit) -> rprog A) t :
  duty_recorded t -> (forall x, only quiet (k x)) -> always promised disciplined (prog_bind (timed (set Disabled)) k) t.
Proof.
  intros Ht Hk. cbn [set]. unfold disable, mobile_bind. rewrite (proj1 (proj2 commands_valid)).
  cbn [timed prog_bind request root always]. intros [] _; (split; [by split|]); cbn [negb].
  2: { apply quiet_disciplined, Hk. }
  cbn [timed prog_bind request root always]. intros x _. split.
  - split; cbn [sends disable_command command]; intros H; [|by destruct (proj2 (proj2 commands_distinct))]. by exists t.
  - destruct x as [[r|e]|]; cbn [prog_bind].
    + destruct (incomplete r); [apply quiet_disciplined, Hk|]. destruct (negb _); [|apply quiet_disciplined, Hk].
      cbn [timed prog_bind request release always]. intros [] _. split; [by split|]. apply quiet_disciplined, Hk.
    + apply quiet_disciplined, Hk.
    + apply quiet_disciplined, Hk.
Qed.

Lemma enable_disciplined {A} (k : option (result MobileDataEffectError unit) -> rprog A) t :
  (forall x t', always promised disciplined (k x) (t ++ t')) ->
  always promised disciplined (prog_bind (timed (set Enabled)) k) t.
Proof.
  intros Hk. cbn [set]. unfold enable_and_verify, mobile_bind. rewrite (proj2 (proj2 commands_valid)).
  cbn [timed prog_bind request root always]. intros [] _; (split; [by split|]); cbn [negb]; [|apply Hk].
  cbn [timed prog_bind request root always]. intros x _. split.
  { split; cbn [sends enable_command command]; intros H; [by destruct (proj2 (proj2 commands_distinct))|]. by exists t. }
  destruct x as [m|]; cbn [prog_bind]; [|rewrite <- app_assoc; apply Hk].
  unfold observe. rewrite (proj1 commands_valid). unfold mobile_bind. cbn [timed prog_bind request root always].
  intros y _. split; [apply observe_disciplined|]. rewrite <- !app_assoc.
  destruct y as [r|]; cbn [prog_bind]; [|apply Hk].
  destruct (classify_observation r) as [[|]|e]; cbn [timed prog_bind]; [|apply Hk..].
  intros [] _. split; [by split|]. rewrite <- !app_assoc. apply Hk.
Qed.

Lemma always_section {A} l (k : section_reply l -> rprog A) t :
  (forall x, section_promise l x -> always promised disciplined (k x) (t ++ [did (Locked l) x])) ->
  always promised disciplined (prog_bind (locked l) k) t.
Proof. intros H x Hx. split; [by split|by apply H]. Qed.

Lemma run_disable_disciplined id : always promised disciplined (run_disable_data id) [].
Proof.
  unfold run_disable_data. apply always_section. intros [d|] _; [|done]. cbn [app].
  rewrite timed_observe. cbn [prog_bind always]. intros x _. split; [apply observe_disciplined|].
  destruct x as [r|]; cbn [prog_bind]; [|apply quiet_disciplined, quiet_fail].
  destruct (classify_observation r) as [[|]|e] eqn:Hr; [|apply quiet_disciplined, quiet_fail..].
  apply always_section. intros [[snap|]|] Hp; [|done..]. cbn [section_promise] in Hp. specialize (Hp snap eq_refl).
  apply always_bind; [apply quiet_disciplined, quiet_after_transition|].
  intros _ t'. apply always_section. intros now _. destruct (terminal _); [done|].
  apply disable_disciplined.
  - do 2 apply duty_recorded_app. eexists _, id, snap, [], r. split_and!; [reflexivity|done| |done].
    apply elem_of_app. right. left.
  - intros effect. destruct (mutation_outcome effect); quiet.
Qed.

Lemma run_enable_disciplined id : always promised disciplined (run_enable_data id) [].
Proof.
  unfold run_enable_data. apply always_section. intros [d|] _; [|done]. apply enable_disciplined.
  intros effect t'. apply quiet_disciplined. destruct (mutation_outcome effect); quiet.
Qed.

Lemma timed_observe_disciplined {A} (k : option (result MobileDataEffectError MobileDataState) -> rprog A) t :
  (forall x t', always promised disciplined (k x) (t ++ t')) -> always promised disciplined (prog_bind (timed observe) k) t.
Proof.
  intros Hk. rewrite timed_observe. cbn [prog_bind always]. intros x _. split; [apply observe_disciplined|].
  destruct x as [r|]; cbn [prog_bind]; apply Hk.
Qed.

Lemma restore_disciplined id t : always promised disciplined (restore_enabled_direct id) t.
Proof.
  unfold restore_enabled_direct. apply always_bind.
  2: { intros r t2. apply quiet_disciplined. quiet. }
  unfold restore_effect. apply timed_observe_disciplined. intros [[[|]|e]|] t1; try exact I.
  apply enable_disciplined. intros [[x|[]]|] t2; try exact I.
  all: apply timed_observe_disciplined; intros y t3; exact I.
Qed.

Lemma task_disciplined t : always promised disciplined (let> _ := task_body t in Ret RUnit) [].
Proof.
  apply always_bind; [|done]. destruct t as [[] id|id d]; cbn [task_body];
    auto using run_disable_disciplined, run_enable_disciplined, restore_disciplined.
  all: apply quiet_disciplined; auto with quiet.
Qed.

Lemma shutdown_disciplined t : always promised disciplined shutdown t.
Proof.
  unfold shutdown. apply always_section. intros [c|] _; [|done].
  do 3 (apply always_bind; [apply quiet_disciplined; auto with quiet|intros ? ?]).
  destruct (snap_operation_id _) as [id|]; [|done].
  apply always_section. intros snap _. destruct (_ && _); [|done].
  apply always_bind; [apply restore_disciplined|done].
Qed.

Lemma caller_disciplined c : always promised disciplined (caller_body c) [].
Proof.
  destruct c; cbn [caller_body]; try solve [apply quiet_disciplined; quiet].
  apply always_bind; [apply shutdown_disciplined|done].
Qed.

(** ** From threads to runs *)

Lemma started_promise m id snap :
  (data_disable_mutation_started m id).1 = Ok snap -> snap_restore_required snap = true.
Proof.
  unfold data_disable_mutation_started, on_active, on_operation.
  destruct (active_operation m id) as [o|]; [|done]. destruct (_ <>b? _); [done|]. intros [= <-]. done.
Qed.

Lemma enter_promise l o s : section_promise l (enter l o s).1.
Proof.
  destruct l; cbn [section_promise]; try exact I. cbn [enter]. unfold if_current, machine_call.
  destruct (operation_current _ _); cbn [fst]; [|done]. intros snap [= Hs].
  destruct (data_disable_mutation_started _ _) as [[x|] m] eqn:E; [|done]. injection Hs as ->.
  eapply started_promise. by rewrite E.
Qed.

Lemma serve_promise r w f n x y w' : serve r w f n x = Some (y, w') -> promised r y.
Proof.
  destruct r; try exact (fun _ => I). destruct x; cbn [serve]; try discriminate.
  pose proof (enter_promise l (outlook_of f n matches executor now notifier) (st w)) as H.
  destruct (enter _ _ _). intros [= <- _]. exact H.
Qed.

Lemma born_disciplined r y : Forall (fun p => always promised disciplined p []) (born r y).
Proof.
  destruct r as [[]| | | | | | | | | |]; cbn [born]; try constructor. destruct y; [|constructor].
  constructor; [apply task_disciplined|constructor].
Qed.

(** ** The machine behind the runtime *)

Abbreviation reaches_machine := (fun m m' : RotationStateMachine =>
  exists cs, Forall call_wf cs /\ m' = run Rotation.step m cs).

(** Generations are [u64]. *)
Definition section_wf (l : section) : Prop :=
  match l with
  | LPrepare g _ | LBeforeIp _ g _ | LAfterIp _ g _ => is_u64 g
  | LObserveCellular a => from_option is_u64 True (Cellular.last_sequence a)
  | LObserveRoot p => from_option is_u64 True (Cellular.last_sequence (publication_admission p))
  | _ => True
  end.

Lemma reaches_refl m : reaches_machine m m.
Proof. by exists []. Qed.

Lemma reaches_call m c : call_wf c -> reaches_machine m (Rotation.step m c).2.
Proof. intros Hc. exists [c]. split; [by repeat constructor|done]. Qed.

(** A section calls the machine at most once; only [prepare] starts an operation. *)
Definition section_starts (l : section) (c : call) : Prop :=
  match l, c with LPrepare g _, CStart g' => g' = g | LPrepare _ _, _ => False | _, CStart _ => False | _, _ => True end.

Definition one_call (l : section) (m m' : RotationStateMachine) : Prop :=
  m' = m \/ exists c, call_wf c /\ section_starts l c /\ m' = (Rotation.step m c).2.

Lemma if_current_call l s id (x : answer * RotationStateMachine) c :
  call_wf c -> section_starts l c -> x.2 = (Rotation.step (machine s) c).2 ->
  one_call l (machine s) (machine (if_current s id x).2).
Proof. intros. unfold if_current. destruct (operation_current s id); [right; by exists c|by left]. Qed.

Lemma enter_call l o s : section_wf l -> one_call l (machine s) (machine (enter l o s).2).
Proof.
  intros Hl. assert (forall c m', call_wf c -> section_starts l c -> m' = (Rotation.step (machine s) c).2 -> one_call l (machine s) m')
    as Hc by (intros; right; eauto).
  destruct l; cbn [enter]; try (by left).
  - unfold prepare_section. destruct (closed s); [by left|]. apply (Hc (CStart before)); [done|done|].
    cbn [Rotation.step]. by destruct (start _ _) as [[i|e] m].
  - unfold activate_section. destruct (_ || _); [by left|]. destruct (checked_add _ _ _); by left.
  - unfold fail_prepared_section. destruct (_ || _); [by left|].
    apply (Hc (CFail operation_id FailureStateUnavailable)); [done|done|]. cbn [Rotation.step]. by destruct (fail _ _ _) as [[i|e] m].
  - unfold observe_cellular_section. cbn [section_wf] in Hl. destruct (Cellular.last_sequence a) as [g|]; [|by left].
    destruct (closed s); [by left|]. destruct (snap_operation_id _) as [id|]; [|by left].
    destruct (terminal _); [by left|]. destruct (_ && _); [by left|].
    by apply (Hc (CCellular id g (adm_state a =b? IsAdmitted))).
  - unfold observe_root_section. cbn [section_wf] in Hl. destruct (Cellular.last_sequence _) as [g|]; [|by left].
    destruct (closed s); [by left|]. destruct (snap_operation_id _) as [id|]; [|by left]. destruct (terminal _); [by left|].
    by apply (Hc (CRootPolicy id g (match publication_result p with Enforced => true | _ => false end))).
  - unfold deadline_section. destruct (_ || _); [by left|]. by apply (Hc (CDeadline operation_id)).
  - unfold fail_section. destruct (negb _); [by left|].
    by apply (Hc (CFail operation_id (if credential_guard_matches s o operation_id then f else CredentialChanged))).
  - unfold claim_section. destruct (_ || _); by left.
  - unfold spawn_section. destruct (closed s); [by left|]. destruct (spawned o); by left.
  - unfold close_section. destruct (closed s); [by left|]. destruct (snap_operation_id _) as [id|]; [|by left].
    destruct (terminal _); [by left|]. apply (Hc (CFail id FailureStateUnavailable)); [done|done|].
    cbn [Rotation.step]. by destruct (fail _ _ _) as [[i|e] m].
  - unfold restore_section. destruct (_ || _); [by left|]. by apply (Hc (CRestore operation_id r)).
  - by apply (if_current_call _ _ _ _ (CBeforeIp operation_id generation address)).
  - by apply (if_current_call _ _ _ _ (CDisableStarted operation_id)).
  - by apply (if_current_call _ _ _ _ (CDisableDone operation_id outcome)).
  - by apply (if_current_call _ _ _ _ (CEnableDone operation_id outcome)).
  - by apply (if_current_call _ _ _ _ (CAfterIp operation_id generation address)).
Qed.

Lemma enter_machine l o s : section_wf l -> reaches_machine (machine s) (machine (enter l o s).2).
Proof. intros Hl. destruct (enter_call l o s Hl) as [->|(c & Hc & _ & ->)]; [apply reaches_refl|by apply reaches_call]. Qed.

Lemma serve_state r w f n x y w' :
  serve r w f n x = Some (y, w') ->
  (st w' = st w /\ forall l, r <> Locked l) \/
  exists l o, r = Locked l /\ st w' = (enter l o (st w)).2 /\ existT r y = did (Locked l) (enter l o (st w)).1.
Proof.
  destruct r; cbn [serve].
  - destruct x; try discriminate. destruct (enter _ _ _) as [y' s'] eqn:E. intros [= <- <-]. right.
    exists l, (outlook_of f n matches executor now notifier). by rewrite E.
  - destruct (serve_mobile _ _ _) as [[]|]; [|discriminate]. intros [= _ <-]. left. split; [done|discriminate].
  - destruct x; try discriminate. intros [= _ <-]. left. split; [done|discriminate].
  - destruct x; try discriminate. intros [= _ <-]. left. split; [done|discriminate].
  - destruct x; try discriminate. intros [= _ <-]. left. split; [done|discriminate].
  - destruct x; try discriminate. intros [= _ <-]. left. split; [done|discriminate].
  - destruct x; try discriminate. intros [= _ <-]. left. split; [done|discriminate].
  - destruct x; try discriminate. destruct (_ && _); [discriminate|]. intros [= _ <-]. left. split; [done|discriminate].
  - destruct x; try discriminate. intros [= _ <-]. left. split; [done|discriminate].
  - destruct x; try discriminate. intros [= _ <-]. left. split; [done|discriminate].
  - destruct x; try discriminate. intros [= _ <-]. left. split; [done|discriminate].
Qed.

(** A step of the world is a section of the coordinator, or leaves its state alone. *)
Lemma step_state w e :
  (st (shared (step w e).2) = st (shared w) /\ forall i r y l, (step w e).1 = Some (i, did r y) -> r <> Locked l) \/
  exists i l o, (step w e).1 = Some (i, did (Locked l) (enter l o (st (shared w))).1) /\
    st (shared (step w e).2) = (enter l o (st (shared w))).2.
Proof.
  destruct e as [c|i x]; cbn [Threads.step]; [by left|].
  destruct (threads w !! i) as [[a|r k]|]; try (by left).
  destruct (serve _ _ _ _ _) as [[y s]|] eqn:Hs; [|by left]. cbn [fst snd shared].
  destruct (serve_state _ _ _ _ _ _ _ Hs) as [[-> Hr]|(l & o & -> & -> & E)]; [left|right].
  - split; [done|]. intros j r' y' l [= <- <- _]. apply Hr.
  - exists i, l, o. by rewrite E.
Qed.

Definition event_wf (e : nat * rev) : Prop :=
  match projT1 e.2 with Locked l => section_wf l | _ => True end.

#[export] Instance event_wf_dec e : Decision (event_wf e).
Proof.
  destruct e as [i [r y]]. unfold event_wf. cbn [snd projT1].
  destruct r as [[]| | | | | | | | | |]; cbn [section_wf]; try apply _; destruct (Cellular.last_sequence _); cbn; apply _.
Defined.

Lemma reaches_trans m1 m2 m3 : reaches_machine m1 m2 -> reaches_machine m2 m3 -> reaches_machine m1 m3.
Proof.
  intros (c1 & H1 & ->) (c2 & H2 & ->). exists (c1 ++ c2). split; [by apply Forall_app|]. by rewrite run_app.
Qed.

Lemma world_machine es w :
  Forall event_wf (events w es) -> reaches_machine (machine (st (shared w))) (machine (st (shared (run step w es)))).
Proof.
  revert w. induction es as [|e es IH]; intros w H; [apply reaches_refl|].
  cbn [events run] in *. apply Forall_app in H as [H1 H2].
  eapply reaches_trans; [|by apply IH]. destruct (step_state w e) as [[-> _]|(i & l & o & E & ->)]; [apply reaches_refl|].
  rewrite E in H1. apply Forall_inv in H1. by apply enter_machine.
Qed.

(** ** A closed runtime *)

Definition verdict (m : RotationStateMachine) : option (Z * RotationPhase) :=
  option_map (fun o => (id o, phase o)) (current m).

Definition settled (m : RotationStateMachine) : Prop :=
  match verdict m with Some (_, p) => terminal p = true | None => True end.

Lemma record_restore_verdict m i r : verdict (record_restore m i r).2 = verdict m.
Proof.
  unfold record_restore, on_current, on_operation, verdict, current_operation.
  destruct (current m) as [o|] eqn:Ho; [|cbn; by rewrite Ho]. cbn [ok_or result_bind].
  destruct (id o <>b? i); [cbn; by rewrite Ho|]. destruct (phase o <>b? PhaseFailed); [done|]. by destruct r.
Qed.

Lemma fail_settles m i f o : current m = Some o -> id o = i -> terminal (phase o) = false ->
  exists snap, (fail m i f).1 = Ok snap /\ settled (fail m i f).2.
Proof.
  intros Ho <- Ht. unfold fail, on_active, on_operation, active_operation, current_operation. rewrite Ho.
  cbn [ok_or result_bind]. rewrite bool_decide_eq_true_2 by done. cbn [negb result_bind]. rewrite Ht.
  eexists. by split.
Qed.

Lemma settled_not_preparing m : settled m -> snap_phase (snapshot m) <> Preparing.
Proof. unfold settled, verdict, snapshot. destruct (current m) as [o|]; [cbn; by intros ? ?; destruct (phase o)|done]. Qed.

(** A closed state is settled, whatever section runs. *)
Definition sealed (s : RotationRuntimeState) : Prop := closed s = true -> settled (machine s).

Lemma close_sealed s : sealed s -> sealed (close_section s).2.
Proof.
  unfold sealed, close_section. destruct (closed s) eqn:Hs; [auto|]. intros _ _.
  destruct (current (machine s)) as [o|] eqn:Ho.
  2: { replace (snapshot (machine s)) with snapshot_idle by (unfold snapshot; by rewrite Ho).
       unfold settled, verdict. cbn. by rewrite Ho. }
  replace (snapshot (machine s)) with (operation_snapshot o) by (unfold snapshot; by rewrite Ho).
  cbn [operation_snapshot snap_operation_id snap_phase]. destruct (terminal (phase o)) eqn:Ht.
  { unfold settled, verdict. cbn. by rewrite Ho. }
  destruct (fail_settles (machine s) (id o) FailureStateUnavailable o Ho eq_refl Ht) as (snap & H1 & H2).
  destruct (fail _ _ _) as [r m]. cbn [fst snd] in *. subst r. exact H2.
Qed.

Lemma enter_closed l o s :
  closed s = true -> settled (machine s) ->
  closed (enter l o s).2 = true /\ verdict (machine (enter l o s).2) = verdict (machine s) /\
  match l return section_reply l -> Prop with LSpawn _ => fun b : bool => b = false | _ => fun _ => True end (enter l o s).1.
Proof.
  intros Hs Hm. destruct l; cbn [enter];
    unfold prepare_section, activate_section, observe_cellular_section, observe_root_section, deadline_section,
      fail_section, claim_section, spawn_section, close_section, restore_section, if_current, operation_current;
    rewrite ?Hs; try by split_and!.
  - unfold fail_prepared_section.
    rewrite (bool_decide_eq_false_2 (snap_phase _ = _)) by (by apply settled_not_preparing).
    cbn [negb]. rewrite orb_true_r. by split_and!.
  - destruct (Cellular.last_sequence a); by split_and!.
  - destruct (Cellular.last_sequence _); by split_and!.
  - destruct (_ || _); [by split_and!|]. split_and!; [done| |done]. apply record_restore_verdict.
Qed.

Lemma enter_open l o s : closed s = false -> l <> LClose -> closed (enter l o s).2 = false.
Proof.
  intros Hs Hl. destruct l; try done; cbn [enter];
    unfold prepare_section, activate_section, fail_prepared_section, observe_cellular_section, observe_root_section,
      deadline_section, fail_section, claim_section, spawn_section, restore_section, if_current, machine_call;
    repeat match goal with |- context [match ?x with _ => _ end] => destruct x eqn:? end; cbn in *; try congruence.
  rewrite Hs in *. destruct (spawned o); by simplify_eq.
Qed.

Lemma enter_sealed l o s : sealed s -> sealed (enter l o s).2.
Proof.
  intros H. destruct (closed s) eqn:Hs.
  - destruct (enter_closed l o s Hs (H Hs)) as (_ & E & _). intros _. unfold settled. rewrite E. exact (H Hs).
  - destruct l; try (intros Hc; rewrite enter_open in Hc by done; discriminate). by apply close_sealed.
Qed.

Lemma world_sealed es : sealed (st (shared (run step world_new es))).
Proof.
  apply (run_invariant step (fun w => sealed (st (shared w)))); [|done].
  intros w e Hw. destruct (step_state w e) as [[-> _]|(i & l & o & _ & ->)]; [done|]. by apply enter_sealed.
Qed.

(** A spawn that was accepted. *)
Definition spawns (e : nat * rev) : Prop :=
  match e.2 with existT (Locked (LSpawn _)) y => y = true | _ => False end.

Lemma closed_run es w :
  closed (st (shared w)) = true -> settled (machine (st (shared w))) ->
  Forall (fun e => ~ spawns e) (events w es) /\
  closed (st (shared (run step w es))) = true /\ verdict (machine (st (shared (run step w es)))) = verdict (machine (st (shared w))).
Proof.
  revert w. induction es as [|e es IH]; intros w Hc Hm; [by repeat constructor|]. cbn [events run].
  destruct (step_state w e) as [E|(i & l & o & E1 & E2)].
  - destruct E as [E Hl]. rewrite <- E in Hc, Hm. destruct (IH _ Hc Hm) as (H1 & H2 & H3). split; [|by rewrite E in H3].
    apply Forall_app. split; [|done]. destruct (step w e).1 as [[i [r y]]|]; [|constructor].
    repeat constructor. destruct r; try exact (fun H => H). by destruct (Hl i _ y l eq_refl).
  - destruct (enter_closed l o _ Hc Hm) as (K1 & K2 & K3). rewrite <- E2 in K1, K2.
    destruct (IH _ K1) as (H1 & H2 & H3); [unfold settled; by rewrite K2|]. rewrite K2 in H3. split; [|done].
    rewrite E1. constructor; [|done]. unfold spawns. cbn [snd]. destruct l; try tauto. cbn [enter] in *.
    rewrite K3. discriminate.
Qed.

(** ** Runs *)

Definition demo_guard : ProxyCredentialGuard :=
  {| guard_version := 1; guard_material := {| username := lit "u"; password := lit "p" |} |}.
Definition demo_admission (g : Z) : CellularAdmissionSnapshot :=
  {| adm_state := IsAdmitted; adm_reason := None; admitted_network := Some 7; last_sequence := Some g |}.
Definition demo_publication (g : Z) : CellularPolicyPublication :=
  {| publication_admission := demo_admission g; publication_result := Enforced |}.
Definition demo_answer (out : string) : result RootSessionError RootCommandResult :=
  Ok {| exit_code := 0; stdout := lit out; timed_out := false; output_complete := true; session_generation := 1 |}.

Abbreviation enters i n := (repeat (Advance i (OSection (fun _ => true) true 0 0)) n).

(** Start, and run until the first address is recorded: thread 0 is the caller,
    1 the deadline, 2 the first probe, 3 the switch-off. *)
Definition demo_begin : list (sched outside caller) :=
  [Call CallStart; Advance 0 (OAdmission (Ok (demo_admission 10))); Advance 0 (OPublication (Some (demo_publication 10)));
   Advance 0 (OGuard (Some demo_guard))] ++ enters 0 6 ++
  enters 2 1 ++ [Advance 2 (OIp (Some (Ok (10, IpV4 1))))] ++ enters 2 4.

(** Data seen on, duty recorded, operation still running. *)
Definition demo_duty : list (sched outside caller) :=
  demo_begin ++ enters 3 1 ++ [Advance 3 (OUntil (Some (demo_answer "1")))] ++ enters 3 4.

(** The switch-off goes through. *)
Definition demo_disabled : list (sched outside caller) :=
  demo_duty ++ [Advance 3 OSilent; Advance 3 (OUntil (Some (demo_answer "")))].

(** Shut down in the middle of it: thread 4, which waits for the tasks and
    switches data back on. *)
Definition demo_shutdown : list (sched outside caller) :=
  demo_disabled ++ [Call CallShutdown] ++ enters 4 1 ++ [Advance 4 OSilent] ++ enters 4 1 ++
  enters 3 1 ++ [Advance 1 (OBool true); Advance 4 (OBool true); Advance 4 (OBool true); Advance 4 (OBool true)] ++
  enters 4 1 ++
  [Advance 4 (OUntil (Some (demo_answer "0"))); Advance 4 OSilent; Advance 4 (OUntil (Some (demo_answer "")));
   Advance 4 (OUntil (Some (demo_answer "1"))); Advance 4 OSilent; Advance 4 (OUntil (Some (demo_answer "1")))] ++
  enters 4 2.

(** The deadline passes between the check of the phase and the switch-off: the
    restore finds data still on, and the switch-off is sent after it. *)
Definition demo_race : list (sched outside caller) :=
  demo_duty ++ [Advance 1 (OBool false)] ++ enters 1 2 ++ [Advance 1 OSilent] ++ enters 1 3 ++
  [Advance 4 (OUntil (Some (demo_answer "1")))] ++ enters 4 2 ++
  [Advance 3 OSilent; Advance 3 (OUntil None)] ++ enters 3 1.

(** ** Properties *)





(** Once shutdown has closed the runtime, it stays closed: whatever tasks
    are still running and whoever calls, no task is started, and the operation
    and the phase it ended in never change again (only the result of the restore
    is still recorded). *)
Theorem closed_runtime_is_final es es' :
  closed (st (shared (run step world_new es))) = true ->
  Forall (fun e => ~ spawns e) (events (run step world_new es) es') /\
  closed (st (shared (run step world_new (es ++ es')))) = true /\
  verdict (machine (st (shared (run step world_new (es ++ es'))))) = verdict (machine (st (shared (run step world_new es)))).
Proof. intros H. rewrite run_app. apply closed_run; [done|]. by apply world_sealed. Qed.

Lemma closed_runtime_is_final_witness :
  let es := take 26 demo_shutdown in let es' := drop 26 demo_shutdown in
  verdict (machine (st (shared (run step world_new (es ++ es'))))) = Some (1, PhaseFailed).
Proof.
  intros es es'. assert (closed (st (shared (run step world_new es))) = true) as H by (vm_compute; reflexivity).
  destruct (closed_runtime_is_final es es' H) as (_ & _ & ->). vm_compute. reflexivity.
Defined.

(** The root commands of a run. *)
Definition commands (t : list (nat * rev)) : list str :=
  omap (fun e => match projT1 e.2 with Mobile (Root c) | MobileUntil c => Some (command c) | _ => None end) t.

(** The duty to restore can be lost.  There is a run in which the deadline
    passes after the switch-off task has checked the phase and before it sends
    its command: the restore task finds data still on and clears the duty, then
    the switch-off is sent.  Every thread ends, nothing is owed, and the last
    command the phone received is the switch-off, with the marker still taken. *)
Theorem deadline_race_leaves_data_off :
  exists es, let w := run step world_new es in
    Forall (fun p => exists v, p = Ret v) (threads w) /\
    snap_phase (snapshot (machine (st (shared w)))) = PhaseFailed /\
    snap_restore_required (snapshot (machine (st (shared w)))) = false /\
    snap_restore_result (snapshot (machine (st (shared w)))) = Some AlreadyEnabled /\
    list.last (commands (events world_new es)) = Some DISABLE /\
    ~ (ENABLE ∈ commands (events world_new es)) /\ compensation (shared w) = true.
Proof.
  exists demo_race. split_and!; try (vm_compute; reflexivity).
  - vm_compute. repeat constructor; eexists; reflexivity.
  - apply (bool_decide_unpack _). vm_compute. exact I.
Qed.
