(* ===== verification/RotationTiming.v ===== *)
(** * Timing evidence of a rotation

    [RotationRuntimeTiming] of [src/crates/runtime/src/rotation_runtime.rs]: when the
    steps of the current operation were reached, in milliseconds since the operation
    was prepared.

    A mark is written either inside a critical section that also moves the machine, or
    by a task through [mark_timing], in a critical section of its own.  A run is any
    sequence of the two; the sections are those of [RotationRuntime]. *)

From Stdlib Require Import String.
From S2P Require Import Prelude Net RustStr ProxyAuth Cellular RootSession Interaction Threads RootPolicyRuntime MobileData Rotation.
From S2P Require Import RotationRuntime RotationTasks.

(** ** The evidence *)

Record RotationRuntimeTimingSnapshot := {
  rt_operation_id : option Z;
  rt_operation_age_ms : option Z;
  activated_ms : option Z;
  pre_rotation_probe_started_ms : option Z;
  pre_rotation_probe_completed_ms : option Z;
  mobile_data_precondition_observed_ms : option Z;
  mobile_data_precondition_enabled : option bool;
  data_disable_started_ms : option Z;
  data_disable_effect_completed_ms : option Z;
  cellular_loss_observed_ms : option Z;
  data_enable_started_ms : option Z;
  data_enable_effect_completed_ms : option Z;
  fresh_cellular_observed_ms : option Z;
  rt_fresh_cellular_generation : option Z;
  root_authorized_ms : option Z;
  rt_root_authorized_generation : option Z;
  post_rotation_probe_started_ms : option Z;
  post_rotation_probe_completed_ms : option Z;
  terminal_ms : option Z;
  restore_completed_ms : option Z }.

Definition rotation_timing_default : RotationRuntimeTimingSnapshot :=
  {| rt_operation_id := None; rt_operation_age_ms := None; activated_ms := None; pre_rotation_probe_started_ms := None;
     pre_rotation_probe_completed_ms := None; mobile_data_precondition_observed_ms := None;
     mobile_data_precondition_enabled := None; data_disable_started_ms := None; data_disable_effect_completed_ms := None;
     cellular_loss_observed_ms := None; data_enable_started_ms := None; data_enable_effect_completed_ms := None;
     fresh_cellular_observed_ms := None; rt_fresh_cellular_generation := None; root_authorized_ms := None;
     rt_root_authorized_generation := None; post_rotation_probe_started_ms := None; post_rotation_probe_completed_ms := None;
     terminal_ms := None; restore_completed_ms := None |}.

Record RotationRuntimeTiming := { origin : Z; evidence : RotationRuntimeTimingSnapshot }.

Definition elapsed_ms_since (now then_ : Z) : Z := duration_ms (elapsed then_ now).

Definition set_once (slot : option Z) (elapsed_ms : Z) : option Z :=
  match slot with None => Some elapsed_ms | Some _ => slot end.

(** The marks that the tasks write through [mark_timing]. *)
Inductive task_mark :=
| PreProbeStarted | PreProbeCompleted | PreconditionObserved (enabled : bool)
| DisableStarted | DisableCompleted | EnableStarted | EnableCompleted
| PostProbeStarted | PostProbeCompleted | TerminalReached.

(** All marks; the others are written inside a section. *)
Inductive rotation_mark :=
| ByTask (m : task_mark)
| Activated | LossObserved | FreshCellular (generation : Z) | RootAuthorized (generation : Z) | RestoreCompleted.

(** A newer observation of the same or of a later generation takes the place. *)
Definition takes (known : option Z) (generation : Z) : bool :=
  match known with None => true | Some known => known <=? generation end.

Definition write_mark (m : rotation_mark) (ms : Z) (t : RotationRuntimeTimingSnapshot) : RotationRuntimeTimingSnapshot :=
  let once (b : bool) (slot : option Z) := if b then set_once slot ms else slot in
  {| rt_operation_id := rt_operation_id t; rt_operation_age_ms := rt_operation_age_ms t;
     activated_ms := once (match m with Activated => true | _ => false end) (activated_ms t);
     pre_rotation_probe_started_ms :=
       once (match m with ByTask PreProbeStarted => true | _ => false end) (pre_rotation_probe_started_ms t);
     pre_rotation_probe_completed_ms :=
       once (match m with ByTask PreProbeCompleted => true | _ => false end) (pre_rotation_probe_completed_ms t);
     mobile_data_precondition_observed_ms :=
       once (match m with ByTask (PreconditionObserved _) => true | _ => false end) (mobile_data_precondition_observed_ms t);
     mobile_data_precondition_enabled :=
       match m with ByTask (PreconditionObserved b) => Some b | _ => mobile_data_precondition_enabled t end;
     data_disable_started_ms := once (match m with ByTask DisableStarted => true | _ => false end) (data_disable_started_ms t);
     data_disable_effect_completed_ms :=
       once (match m with ByTask DisableCompleted => true | _ => false end) (data_disable_effect_completed_ms t);
     cellular_loss_observed_ms := once (match m with LossObserved => true | _ => false end) (cellular_loss_observed_ms t);
     data_enable_started_ms := once (match m with ByTask EnableStarted => true | _ => false end) (data_enable_started_ms t);
     data_enable_effect_completed_ms :=
       once (match m with ByTask EnableCompleted => true | _ => false end) (data_enable_effect_completed_ms t);
     fresh_cellular_observed_ms :=
       match m with
       | FreshCellular g => if takes (rt_fresh_cellular_generation t) g then Some ms else fresh_cellular_observed_ms t
       | _ => fresh_cellular_observed_ms t
       end;
     rt_fresh_cellular_generation :=
       match m with
       | FreshCellular g => if takes (rt_fresh_cellular_generation t) g then Some g else rt_fresh_cellular_generation t
       | _ => rt_fresh_cellular_generation t
       end;
     root_authorized_ms :=
       match m with
       | RootAuthorized g => if takes (rt_root_authorized_generation t) g then Some ms else root_authorized_ms t
       | _ => root_authorized_ms t
       end;
     rt_root_authorized_generation :=
       match m with
       | RootAuthorized g => if takes (rt_root_authorized_generation t) g then Some g else rt_root_authorized_generation t
       | _ => rt_root_authorized_generation t
       end;
     post_rotation_probe_started_ms :=
       once (match m with ByTask PostProbeStarted => true | _ => false end) (post_rotation_probe_started_ms t);
     post_rotation_probe_completed_ms :=
       once (match m with ByTask PostProbeCompleted => true | _ => false end) (post_rotation_probe_completed_ms t);
     terminal_ms := once (match m with ByTask TerminalReached => true | _ => false end) (terminal_ms t);
     restore_completed_ms := once (match m with RestoreCompleted => true | _ => false end) (restore_completed_ms t) |}.

Definition timing_new (operation_id now : Z) : RotationRuntimeTiming :=
  {| origin := now;
     evidence :=
       {| rt_operation_id := Some operation_id; rt_operation_age_ms := None; activated_ms := None;
          pre_rotation_probe_started_ms := None; pre_rotation_probe_completed_ms := None;
          mobile_data_precondition_observed_ms := None; mobile_data_precondition_enabled := None;
          data_disable_started_ms := None; data_disable_effect_completed_ms := None; cellular_loss_observed_ms := None;
          data_enable_started_ms := None; data_enable_effect_completed_ms := None; fresh_cellular_observed_ms := None;
          rt_fresh_cellular_generation := None; root_authorized_ms := None; rt_root_authorized_generation := None;
          post_rotation_probe_started_ms := None; post_rotation_probe_completed_ms := None; terminal_ms := None;
          restore_completed_ms := None |} |}.

Definition snapshot_at (now : Z) (t : RotationRuntimeTiming) : RotationRuntimeTimingSnapshot :=
  let e := evidence t in
  {| rt_operation_id := rt_operation_id e; rt_operation_age_ms := Some (elapsed_ms_since now (origin t));
     activated_ms := activated_ms e; pre_rotation_probe_started_ms := pre_rotation_probe_started_ms e;
     pre_rotation_probe_completed_ms := pre_rotation_probe_completed_ms e;
     mobile_data_precondition_observed_ms := mobile_data_precondition_observed_ms e;
     mobile_data_precondition_enabled := mobile_data_precondition_enabled e;
     data_disable_started_ms := data_disable_started_ms e; data_disable_effect_completed_ms := data_disable_effect_completed_ms e;
     cellular_loss_observed_ms := cellular_loss_observed_ms e; data_enable_started_ms := data_enable_started_ms e;
     data_enable_effect_completed_ms := data_enable_effect_completed_ms e;
     fresh_cellular_observed_ms := fresh_cellular_observed_ms e;
     rt_fresh_cellular_generation := rt_fresh_cellular_generation e; root_authorized_ms := root_authorized_ms e;
     rt_root_authorized_generation := rt_root_authorized_generation e;
     post_rotation_probe_started_ms := post_rotation_probe_started_ms e;
     post_rotation_probe_completed_ms := post_rotation_probe_completed_ms e; terminal_ms := terminal_ms e;
     restore_completed_ms := restore_completed_ms e |}.

Definition mark (operation_id : Z) (m : rotation_mark) (now : Z) (t : RotationRuntimeTiming) : RotationRuntimeTiming :=
  if rt_operation_id (evidence t) <>b? Some operation_id then t
  else {| origin := origin t; evidence := write_mark m (elapsed_ms_since now (origin t)) (evidence t) |}.

(** ** The coordinator with its evidence *)

Record timed_state := { coordinator_side : RotationRuntimeState; timing : option RotationRuntimeTiming }.

Definition timed_new : timed_state := {| coordinator_side := runtime_new; timing := None |}.

Definition mark_timing (operation_id : Z) (m : rotation_mark) (now : Z) (t : option RotationRuntimeTiming)
    : option RotationRuntimeTiming :=
  option_map (mark operation_id m now) t.

(** Phases in which a network that came back is worth a mark. *)
Definition awaiting_recovery (p : RotationPhase) : bool :=
  match p with DataEnabling | WaitingCellularRecovery | WaitingRootPolicy => true | _ => false end.

Definition is_fresh (current : RotationSnapshot) (generation : Z) : bool :=
  match snap_before_generation current with Some before => before <? generation | None => false end.

(** The marks of [observe_cellular], behind a machine that has taken the observation. *)
Definition cellular_marks (current : RotationSnapshot) (a : CellularAdmissionSnapshot) (generation : Z) : list rotation_mark :=
  let admitted := adm_state a =b? IsAdmitted in
  let authoritative_loss := negb admitted && match adm_reason a with Some NetworkLost => true | _ => false end in
  (if is_fresh current generation && authoritative_loss && awaiting_loss (snap_phase current) then [LossObserved] else [])
  ++ (if is_fresh current generation && admitted && awaiting_recovery (snap_phase current) then [FreshCellular generation] else []).

(** And of [observe_root_policy]. *)
Definition root_marks (current : RotationSnapshot) (p : CellularPolicyPublication) (generation : Z) : list rotation_mark :=
  let authorized := match publication_result p with Enforced => true | _ => false end in
  if is_fresh current generation && authorized && awaiting_recovery (snap_phase current) then [RootAuthorized generation] else [].

(** What a section that answered [y] marks, and for which operation. *)
Definition section_marks (l : section) (s : RotationRuntimeState) : section_reply l -> option (Z * list rotation_mark) :=
  let current := snapshot (machine s) in
  match l return section_reply l -> option (Z * list rotation_mark) with
  | LActivate operation_id => fun y => if is_ok y then Some (operation_id, [Activated]) else None
  | LObserveCellular a => fun y =>
      match y, snap_operation_id current, Cellular.last_sequence a with
      | Some _, Some operation_id, Some generation => Some (operation_id, cellular_marks current a generation)
      | _, _, _ => None
      end
  | LObserveRoot p => fun y =>
      match y, snap_operation_id current, Cellular.last_sequence (publication_admission p) with
      | Some _, Some operation_id, Some generation => Some (operation_id, root_marks current p generation)
      | _, _, _ => None
      end
  | LRestore operation_id _ => fun y => if is_some y then Some (operation_id, [RestoreCompleted]) else None
  | _ => fun _ => None
  end.

(** [prepare] begins fresh evidence. *)
Definition section_begins (l : section) : section_reply l -> option Z :=
  match l return section_reply l -> option Z with
  | LPrepare _ _ => fun y => result_ok y
  | _ => fun _ => None
  end.

(** One critical section: of a method, at the instant it reads for its marks, or of [mark_timing]. *)
Inductive timed_event :=
| TEnter (l : section) (o : outlook) (now : Z)
| TMark (operation_id : Z) (m : task_mark) (now : Z).

Definition marked (ms : option (Z * list rotation_mark)) (now : Z) (t : option RotationRuntimeTiming) : option RotationRuntimeTiming :=
  match ms with Some (operation_id, ms) => fold_left (fun t m => mark_timing operation_id m now t) ms t | None => t end.

Definition timed_step (w : timed_state) (e : timed_event) : unit * timed_state :=
  match e with
  | TEnter l o now =>
      let s := coordinator_side w in
      let y := enter l o s in
      (tt, {| coordinator_side := y.2;
              timing := match section_begins l y.1 with
                        | Some operation_id => Some (timing_new operation_id now)
                        | None => marked (section_marks l s y.1) now (timing w)
                        end |})
  | TMark operation_id m now =>
      (tt, {| coordinator_side := coordinator_side w; timing := mark_timing operation_id (ByTask m) now (timing w) |})
  end.

Definition timing_snapshot_at (w : timed_state) (now : Z) : RotationRuntimeTimingSnapshot :=
  match timing w with Some t => snapshot_at now t | None => rotation_timing_default end.

(** ** The operation behind the evidence *)

(** What a call that starts nothing leaves of the operation: its number, and the
    generation it began with. *)
Definition same_operation (o o' : RotationOperation) : Prop := id o' = id o /\ before_generation o' = before_generation o.

#[export] Instance same_operation_trans : Transitive same_operation.
Proof. intros o1 o2 o3 [Hi Hb] [Hi' Hb']. split; congruence. Qed.

Lemma advance_same o : same_operation o (maybe_advance_loss o) /\ same_operation o (maybe_advance_recovery o).
Proof.
  unfold maybe_advance_loss, maybe_advance_recovery. split; [by destruct (_ && _)|].
  destruct (phase o); try done; destruct (fresh_cellular_generation o); try done; by destruct (_ <>b? _).
Qed.

Lemma recovery_same o g b : same_operation o (observe_recovery_cellular o g b).
Proof. unfold observe_recovery_cellular. destruct b; [done|]. by destruct (_ =b? _), (_ =b? _). Qed.

Lemma owner_generation_same o g a o' : observe_owner_generation o g = (a, o') -> same_operation o o'.
Proof. unfold observe_owner_generation. destruct (g <? _); [by intros [= _ <-]|]. destruct (_ <? g); by intros [= _ <-]. Qed.

Lemma on_operation_same lookup m i body o :
  (forall o, lookup m i = Ok o -> current m = Some o) -> (forall o, same_operation o (body o).2) -> current m = Some o ->
  exists o', current (on_operation lookup m i body).2 = Some o' /\ same_operation o o'.
Proof.
  intros Hl Hb Ho. unfold on_operation. destruct (lookup m i) as [o1|]; [|by exists o].
  specialize (Hl o1 eq_refl). specialize (Hb o1). destruct (body o1) as [r o2]. simplify_eq/=. by exists o2.
Qed.

Lemma observed_same o g (body : RotationOperation -> answer * RotationOperation) :
  (forall o', same_operation o' (body o').2) ->
  same_operation o (let '(accepted, o) := observe_owner_generation o g in
                    if negb accepted then (Ok (operation_snapshot o), o) else body o).2.
Proof.
  intros Hb. destruct (observe_owner_generation o g) as [a o'] eqn:E. apply owner_generation_same in E.
  destruct a; cbn [negb]; [|done]. etrans; [exact E|apply Hb].
Qed.

Definition starts (c : call) : bool := match c with CStart _ => true | _ => false end.

Lemma step_same m c o : starts c = false -> current m = Some o ->
  exists o', current (Rotation.step m c).2 = Some o' /\ same_operation o o'.
Proof.
  intros Hc Ho.
  assert (forall i o, active_operation m i = Ok o -> current m = Some o) as Ha by (intros i o1 H; by apply active_operation_Ok in H as [? _]).
  assert (forall i o, current_operation m i = Ok o -> current m = Some o) as Hr by (intros i o1 H; by apply current_operation_Ok in H as [? _]).
  destruct c; [done|..]; cbn [Rotation.step]; apply on_operation_same; eauto; clear -o; intros o1; cbv beta.
  - by repeat case_match.
  - by repeat case_match.
  - case_bool_decide; [|done]. destruct o0; try done. cbn [snd negb]. etrans; [|apply advance_same]. done.
  - case_bool_decide; [|done]. destruct o0; try done. cbn [snd negb]. etrans; [|apply advance_same]. done.
  - destruct (g <=? _); [by destruct (phase o1)|]. apply (observed_same _ _ (fun o => match phase o with _ => _ end)).
    intros o'. destruct (phase o'); cbn [snd]; try done.
    1,2: etrans; [|apply advance_same]; by destruct admitted.
    1: apply recovery_same.
    all: etrans; [|apply advance_same]; apply recovery_same.
  - destruct (g <=? _); [by destruct (phase o1)|]. apply (observed_same _ _ (fun o => match phase o with _ => _ end)).
    intros o'. destruct (phase o') eqn:Hp; cbn [snd]; try done; case_bool_decide; try done; cbn [negb]; etrans; [|apply advance_same| |apply advance_same]; done.
  - by repeat case_match.
  - done.
  - done.
  - by repeat case_match.
Qed.

(** What a section that begins nothing leaves of the operation, and what one that begins leaves. *)
Lemma enter_keeps l x s o : section_wf l -> machine_ok (machine s) -> section_begins l (enter l x s).1 = None ->
  current (machine s) = Some o ->
  exists o', current (machine (enter l x s).2) = Some o' /\ same_operation o o' /\ forward o o'.
Proof.
  intros Hl Hm Hb Ho. assert (exists o', current (machine s) = Some o' /\ same_operation o o' /\ forward o o') as Hsame
    by (exists o; repeat split; auto with lia).
  destruct (enter_call l x s Hl) as [E|(c & Hc & Hs & E)]; rewrite E; [done|].
  destruct (starts c) eqn:Hst.
  - destruct c as [g| | | | | | | | | |]; try done. destruct l; try done. cbn in Hs. subst g.
    revert E Hb. cbn [enter section_begins Rotation.step]. unfold prepare_section. destruct (closed s).
    { cbn [snd]. intros <-. done. }
    pose proof (start_refused (machine s) before) as Hr. destruct (start (machine s) before) as [[i|e] m']; [done|].
    intros _ _. specialize (Hr e eq_refl). cbn [snd] in Hr |- *. by subst m'.
  - destruct (step_same _ _ _ Hst Ho) as (o' & Ho' & Hsame'). exists o'. split; [done|]. split; [done|].
    destruct (step_advances _ c Hm) as [_ Ha]. destruct (Ha _ Ho) as (o2 & Ho2 & Hcase). rewrite Ho' in Ho2. injection Ho2 as <-.
    destruct Hsame' as [Hid _]. destruct Hcase as [?|[_ ?]]; [lia|done].
Qed.

Lemma enter_begins l x s i : section_begins l (enter l x s).1 = Some i ->
  exists before, current (machine (enter l x s).2) = Some (fresh_operation i before).
Proof.
  destruct l; cbn [section_begins enter]; try discriminate. unfold prepare_section, start.
  repeat case_match; cbn; intros; simplify_eq/=; eauto.
Qed.

(** ** Slots *)

Inductive slot :=
| SActivated | SPreStarted | SPreCompleted | SPrecondition | SDisableStarted | SDisableCompleted | SLoss | SEnableStarted
| SEnableCompleted | SFresh | SRoot | SPostStarted | SPostCompleted | STerminal | SRestore.

#[export] Instance slot_eq_dec : EqDecision slot.
Proof. solve_decision. Defined.

Definition time_of (k : slot) (e : RotationRuntimeTimingSnapshot) : option Z :=
  match k with
  | SActivated => activated_ms e
  | SPreStarted => pre_rotation_probe_started_ms e
  | SPreCompleted => pre_rotation_probe_completed_ms e
  | SPrecondition => mobile_data_precondition_observed_ms e
  | SDisableStarted => data_disable_started_ms e
  | SDisableCompleted => data_disable_effect_completed_ms e
  | SLoss => cellular_loss_observed_ms e
  | SEnableStarted => data_enable_started_ms e
  | SEnableCompleted => data_enable_effect_completed_ms e
  | SFresh => fresh_cellular_observed_ms e
  | SRoot => root_authorized_ms e
  | SPostStarted => post_rotation_probe_started_ms e
  | SPostCompleted => post_rotation_probe_completed_ms e
  | STerminal => terminal_ms e
  | SRestore => restore_completed_ms e
  end.

(** The slot a mark writes. *)
Definition slot_of (m : rotation_mark) : slot :=
  match m with
  | ByTask PreProbeStarted => SPreStarted
  | ByTask PreProbeCompleted => SPreCompleted
  | ByTask (PreconditionObserved _) => SPrecondition
  | ByTask DisableStarted => SDisableStarted
  | ByTask DisableCompleted => SDisableCompleted
  | ByTask EnableStarted => SEnableStarted
  | ByTask EnableCompleted => SEnableCompleted
  | ByTask PostProbeStarted => SPostStarted
  | ByTask PostProbeCompleted => SPostCompleted
  | ByTask TerminalReached => STerminal
  | Activated => SActivated
  | LossObserved => SLoss
  | FreshCellular _ => SFresh
  | RootAuthorized _ => SRoot
  | RestoreCompleted => SRestore
  end.

(** Two slots follow the newest generation, the others keep their first time. *)
Definition kept (k : slot) : bool := match k with SFresh | SRoot => false | _ => true end.

Lemma write_mark_kept m ms e k : kept k = true ->
  time_of k (write_mark m ms e) = if decide (slot_of m = k) then set_once (time_of k e) ms else time_of k e.
Proof. by destruct k, m as [[]| | | | |]. Qed.

Lemma write_mark_time m ms e k :
  time_of k (write_mark m ms e) = time_of k e \/ slot_of m = k /\ time_of k (write_mark m ms e) = Some ms.
Proof.
  destruct (kept k) eqn:Hk.
  - rewrite write_mark_kept by done. destruct (decide (slot_of m = k)); [|by left]. destruct (time_of k e); [by left|by right].
  - destruct k; try done; destruct m as [| | |g|g|]; try (by left); cbn [write_mark time_of slot_of fresh_cellular_observed_ms root_authorized_ms];
      destruct (takes _ g); auto.
Qed.

Lemma elapsed_ms_mono last now origin : last <= now -> elapsed_ms_since last origin <= elapsed_ms_since now origin.
Proof. intros. unfold elapsed_ms_since, duration_ms, elapsed. apply Z.min_le_compat_r, Z.div_le_mono; lia. Qed.

(** ** The journal: what was marked, since the operation was prepared *)

Definition first (origin : Z) (k : slot) (log : list (rotation_mark * Z)) : option Z :=
  match List.find (fun entry => bool_decide (slot_of entry.1 = k)) log with
  | Some (_, now) => Some (elapsed_ms_since now origin)
  | None => None
  end.

(** The last of the entries with the largest generation. *)
Definition newest (origin : Z) (log : list (Z * Z)) (generation ms : option Z) : Prop :=
  (log = [] /\ generation = None /\ ms = None) \/
  exists log1 g now log2, log = log1 ++ (g, now) :: log2 /\ generation = Some g /\ ms = Some (elapsed_ms_since now origin) /\
    Forall (fun x => x.1 <= g) log1 /\ Forall (fun x => x.1 < g) log2.

Definition fresh_entry (entry : rotation_mark * Z) : option (Z * Z) :=
  match entry.1 with FreshCellular g => Some (g, entry.2) | _ => None end.

Definition root_entry (entry : rotation_mark * Z) : option (Z * Z) :=
  match entry.1 with RootAuthorized g => Some (g, entry.2) | _ => None end.

Lemma first_snoc origin k log m now :
  first origin k (log ++ [(m, now)]) =
    if decide (slot_of m = k) then set_once (first origin k log) (elapsed_ms_since now origin) else first origin k log.
Proof.
  unfold first. induction log as [|[m1 n1] log IH]; cbn [List.find app fst].
  - case_bool_decide; destruct (decide _); done.
  - case_bool_decide; [by destruct (decide _)|exact IH].
Qed.

Lemma newest_marked origin log g ms g' now :
  newest origin log g ms ->
  newest origin (log ++ [(g', now)]) (if takes g g' then Some g' else g) (if takes g g' then Some (elapsed_ms_since now origin) else ms).
Proof.
  intros [(-> & -> & ->)|(l1 & g1 & n1 & l2 & -> & -> & -> & H1 & H2)]; right; cbn [takes].
  - exists [], g', now, []. repeat constructor.
  - destruct (g1 <=? g') eqn:E.
    + exists (l1 ++ (g1, n1) :: l2), g', now, []. apply Z.leb_le in E. repeat split; [|constructor].
      apply Forall_app. split; [|constructor; [done|]]; eapply Forall_impl; eauto; cbn; lia.
    + exists l1, g1, n1, (l2 ++ [(g', now)]). apply Z.leb_gt in E. rewrite <- app_assoc. repeat split; [done|].
      apply Forall_app. split; [done|by repeat constructor].
Qed.

(** ** The invariant *)

(** The phase from which on a section may mark a slot. *)
Definition ranked (k : slot) : option Z :=
  match k with SActivated => Some 1 | SLoss => Some 2 | SFresh | SRoot => Some 4 | SRestore => Some 7 | _ => None end.

(** What a section has checked when it marks for the operation [o]. *)
Definition guarded (m : rotation_mark) (o : RotationOperation) : Prop :=
  match m with
  | ByTask _ => True
  | Activated => phase o = Preparing
  | LossObserved => awaiting_loss (phase o) = true
  | FreshCellular g | RootAuthorized g => awaiting_recovery (phase o) = true /\ before_generation o < g
  | RestoreCompleted => phase o = PhaseFailed
  end.

Lemma guarded_rank m o r : guarded m o -> ranked (slot_of m) = Some r ->
  r <= rank (phase o) /\ forall k r', ranked k = Some r' -> r < r' -> rank (phase o) < r'.
Proof.
  intros Hg Hr. assert (r <= rank (phase o) < match r with 1 => 2 | 2 => 4 | 4 => 7 | _ => 8 end) as H.
  { destruct m as [[]| | | | |]; cbn [slot_of ranked] in Hr; try discriminate; injection Hr as <-; cbn [guarded] in Hg;
      lazymatch type of Hg with _ /\ _ => destruct Hg as [Hg _] | _ => idtac end; destruct (phase o); try discriminate; cbn; lia. }
  split; [lia|]. intros k r' Hr' Hlt. destruct (slot_of m), k; cbn [ranked] in *; simplify_eq; cbn in H; lia.
Qed.

Record evidence_ok (last : Z) (o : RotationOperation) (t : RotationRuntimeTiming) (log : list (rotation_mark * Z)) : Prop := {
  ev_operation : rt_operation_id (evidence t) = Some (id o);
  ev_times : forall k v, time_of k (evidence t) = Some v -> v <= elapsed_ms_since last (origin t);
  ev_rank : forall k r v, ranked k = Some r -> time_of k (evidence t) = Some v -> r <= rank (phase o);
  ev_order : forall k k' r r' v v', ranked k = Some r -> ranked k' = Some r' -> r < r' ->
    time_of k (evidence t) = Some v -> time_of k' (evidence t) = Some v' -> v <= v';
  ev_fresh : forall g, rt_fresh_cellular_generation (evidence t) = Some g -> before_generation o < g;
  ev_root : forall g, rt_root_authorized_generation (evidence t) = Some g -> before_generation o < g;
  ev_first : forall k, kept k = true -> time_of k (evidence t) = first (origin t) k log;
  ev_newest_fresh : newest (origin t) (omap fresh_entry log) (rt_fresh_cellular_generation (evidence t)) (fresh_cellular_observed_ms (evidence t));
  ev_newest_root : newest (origin t) (omap root_entry log) (rt_root_authorized_generation (evidence t)) (root_authorized_ms (evidence t)) }.

Lemma evidence_new i before now : evidence_ok now (fresh_operation i before) (timing_new i now) [].
Proof. split; try done; try (by left); by intros []. Qed.

(** Time passes, and the machine moves forward. *)
Lemma evidence_later last now o o' t log :
  last <= now -> same_operation o o' -> forward o o' -> evidence_ok last o t log -> evidence_ok now o' t log.
Proof.
  intros Hl [Hi Hb] [Hr _] []. split; rewrite ?Hi, ?Hb; try done.
  - intros k v Hk. etrans; [by eapply ev_times0|by apply elapsed_ms_mono].
  - intros k r v Hk Hv. etrans; [by eapply ev_rank0|done].
Qed.

Lemma evidence_mark last now o t log m :
  last <= now -> guarded m o -> evidence_ok last o t log -> evidence_ok now o (mark (id o) m now t) (log ++ [(m, now)]).
Proof.
  intros Hl Hg []. unfold mark. rewrite ev_operation0, bool_decide_eq_true_2 by done. cbn [negb]. set (ms := elapsed_ms_since now (origin t)).
  assert (forall k v, time_of k (evidence t) = Some v -> v <= ms) as Hms.
  { intros k v Hk. etrans; [by eapply ev_times0|by apply elapsed_ms_mono]. }
  pose proof (write_mark_time m ms (evidence t)) as Hw. split; cbn [origin evidence].
  - done.
  - intros k v Hk. destruct (Hw k) as [E|[_ E]]; rewrite E in Hk; [by apply (Hms k)|]. injection Hk as <-. reflexivity.
  - intros k r v Hr Hk. destruct (Hw k) as [E|[<- E]]; [rewrite E in Hk; by eapply ev_rank0|]. by apply (guarded_rank m o r).
  - intros k k' r r' v v' Hr Hr' Hlt Hk Hk'. destruct (Hw k) as [E|[<- E]]; destruct (Hw k') as [E'|[<- E']].
    + rewrite E in Hk. rewrite E' in Hk'. by eapply (ev_order0 k k').
    + rewrite E in Hk. rewrite E' in Hk'. injection Hk' as <-. by eapply Hms.
    + rewrite E' in Hk'. pose proof (ev_rank0 _ _ _ Hr' Hk') as H7. destruct (guarded_rank m o r Hg Hr) as [_ Hn].
      specialize (Hn _ _ Hr' Hlt). lia.
    + rewrite Hr in Hr'. injection Hr' as <-. lia.
  - intros g. destruct m as [| | |g'|g'|]; cbn [write_mark rt_fresh_cellular_generation]; try apply ev_fresh0.
    destruct (takes _ g'); [|apply ev_fresh0]. intros [= <-]. apply Hg.
  - intros g. destruct m as [| | |g'|g'|]; cbn [write_mark rt_root_authorized_generation]; try apply ev_root0.
    destruct (takes _ g'); [|apply ev_root0]. intros [= <-]. apply Hg.
  - intros k Hk. rewrite write_mark_kept, first_snoc by done. by rewrite ev_first0.
  - rewrite omap_app. destruct m as [| | |g'|g'|]; cbn [omap list_omap fresh_entry fst snd]; rewrite ?app_nil_r; try exact ev_newest_fresh0.
    by apply newest_marked.
  - rewrite omap_app. destruct m as [| | |g'|g'|]; cbn [omap list_omap root_entry fst snd]; rewrite ?app_nil_r; try exact ev_newest_root0.
    by apply newest_marked.
Qed.

(** ** Runs *)

Definition event_time (e : timed_event) : Z := match e with TEnter _ _ now | TMark _ _ now => now end.

Definition event_wf (e : timed_event) : Prop := match e with TEnter l _ _ => section_wf l | TMark _ _ _ => True end.

(** The clock does not run backwards. *)
Fixpoint ticking (last : Z) (es : list timed_event) : Prop :=
  match es with e :: es => last <= event_time e /\ ticking (event_time e) es | [] => True end.

Definition event_begins (w : timed_state) (e : timed_event) : option Z :=
  match e with TEnter l o _ => section_begins l (enter l o (coordinator_side w)).1 | TMark _ _ _ => None end.

Definition event_marks (w : timed_state) (e : timed_event) : option (Z * list rotation_mark) :=
  match e with
  | TEnter l o _ => section_marks l (coordinator_side w) (enter l o (coordinator_side w)).1
  | TMark operation_id m _ => Some (operation_id, [ByTask m])
  end.

(** The operation, the instant it was prepared, and the marks for it. *)
Record journal := { about : Z; since : Z; entries : list (rotation_mark * Z) }.

Definition journal_step (w : timed_state) (j : option journal) (e : timed_event) : option journal :=
  match event_begins w e with
  | Some operation_id => Some {| about := operation_id; since := event_time e; entries := [] |}
  | None =>
      match j, event_marks w e with
      | Some j, Some (operation_id, ms) =>
          Some (if operation_id =? about j
                then {| about := about j; since := since j; entries := entries j ++ ((fun m => (m, event_time e)) <$> ms) |} else j)
      | j, _ => j
      end
  end.

Fixpoint journal_from (w : timed_state) (j : option journal) (es : list timed_event) : option journal :=
  match es with e :: es => journal_from (timed_step w e).2 (journal_step w j e) es | [] => j end.

Fixpoint clock (last : Z) (es : list timed_event) : Z := match es with e :: es => clock (event_time e) es | [] => last end.

Lemma snapshot_current m i : snap_operation_id (snapshot m) = Some i -> exists o, current m = Some o /\ id o = i.
Proof. unfold snapshot. destruct (current m) as [o|]; [|done]. cbn. intros [= <-]. by exists o. Qed.

Lemma section_guarded l x s i ms : section_marks l s (enter l x s).1 = Some (i, ms) ->
  exists o, current (machine s) = Some o /\ id o = i /\ Forall (fun m => guarded m o) ms.
Proof.
  destruct l; cbn [section_marks enter]; try discriminate.
  - unfold activate_section. destruct (_ || _) eqn:E; [done|]. repeat (apply orb_false_iff in E as [E ?]).
    destruct (checked_add _ _ _); [|done]. intros [= <- <-]. case_bool_decide; [|done]. case_bool_decide as Hi; [|done].
    destruct (snapshot_current _ _ Hi) as (o & Ho & <-). exists o. split; [done|]. split; [done|]. constructor; [|done]. cbn.
    unfold snapshot in *. by rewrite Ho in *.
  - destruct (observe_cellular_section s a) as [[y|] s']; [|done]. destruct (snap_operation_id _) as [i'|] eqn:Hi; [|done].
    destruct (Cellular.last_sequence a) as [g|]; [|done]. intros [= <- <-]. destruct (snapshot_current _ _ Hi) as (o & Ho & <-).
    exists o. split; [done|]. split; [done|]. unfold cellular_marks, is_fresh, snapshot. rewrite Ho. cbn [operation_snapshot snap_before_generation snap_phase].
    apply Forall_app. split; (destruct (_ && _) eqn:E; [|done]; apply andb_true_iff in E as [E ?]; apply andb_true_iff in E as [E ?];
      constructor; [|done]); cbn [guarded]; [done|]. split; [done|lia].
  - destruct (observe_root_section s p) as [[y|] s']; [|done]. destruct (snap_operation_id _) as [i'|] eqn:Hi; [|done].
    destruct (Cellular.last_sequence _) as [g|]; [|done]. intros [= <- <-]. destruct (snapshot_current _ _ Hi) as (o & Ho & <-).
    exists o. split; [done|]. split; [done|]. unfold root_marks, is_fresh, snapshot. rewrite Ho. cbn [operation_snapshot snap_before_generation snap_phase].
    destruct (_ && _) eqn:E; [|done]. apply andb_true_iff in E as [E ?]. apply andb_true_iff in E as [E ?].
    constructor; [|done]. split; [done|lia].
  - unfold restore_section. destruct (_ || _) eqn:E; [done|]. apply orb_false_iff in E as [Hi Hp]. destruct (is_some _); [|done].
    intros [= <- <-]. case_bool_decide as Hp'; [|done]. case_bool_decide as Hi'; [|done].
    destruct (snapshot_current _ _ Hi') as (o & Ho & <-). exists o. split; [done|]. split; [done|]. constructor; [|done]. cbn.
    unfold snapshot in Hp'. by rewrite Ho in Hp'.
Qed.

Lemma evidence_marks last now o t log ms :
  last <= now -> Forall (fun m => guarded m o) ms -> evidence_ok last o t log ->
  exists t', marked (Some (id o, ms)) now (Some t) = Some t' /\ origin t' = origin t /\
    evidence_ok now o t' (log ++ ((fun m => (m, now)) <$> ms)).
Proof.
  intros Hl Hg. revert last t log Hl. induction Hg as [|m ms Hm _ IH]; intros last t log Hl Ht; cbn [marked fold_left fmap list_fmap].
  - exists t. rewrite app_nil_r. split; [done|]. split; [done|]. by eapply evidence_later.
  - cbn [mark_timing option_map]. destruct (IH now (mark (id o) m now t) (log ++ [(m, now)])) as (t' & E & Ho & Hok).
    + reflexivity.
    + by eapply evidence_mark.
    + exists t'. rewrite <- app_assoc in Hok. split; [exact E|]. split; [|exact Hok]. rewrite Ho. unfold mark. by destruct (_ <>b? _).
Qed.

(** The evidence is that of the operation the machine is in, and of its journal. *)
Definition timed_ok (last : Z) (w : timed_state) (j : option journal) : Prop :=
  machine_ok (machine (coordinator_side w)) /\
  match timing w, j with
  | Some t, Some j => exists o, current (machine (coordinator_side w)) = Some o /\ about j = id o /\ since j = origin t /\
                        evidence_ok last o t (entries j)
  | None, None => True
  | _, _ => False
  end.

Lemma marked_other i ms now o t log :
  id o <> i -> evidence_ok now o t log -> marked (Some (i, ms)) now (Some t) = Some t.
Proof.
  intros Hi Ht. cbn [marked]. induction ms as [|m ms IH]; [done|]. cbn [fold_left mark_timing option_map].
  unfold mark. rewrite (ev_operation _ _ _ _ Ht), bool_decide_eq_false_2 by congruence. exact IH.
Qed.

Lemma marked_none ms now : marked ms now None = None.
Proof. destruct ms as [[i ms]|]; [|done]. cbn [marked]. by induction ms. Qed.

(** Marks for an operation, whether it is the one at hand or not. *)
Lemma evidence_marked last now o o' t j i ms :
  last <= now -> about j = id o -> since j = origin t -> (id o = i -> Forall (fun m => guarded m o) ms) ->
  same_operation o o' -> forward o o' -> evidence_ok last o t (entries j) ->
  let j' := if i =? about j then {| about := about j; since := since j; entries := entries j ++ ((fun m => (m, now)) <$> ms) |} else j in
  exists t', marked (Some (i, ms)) now (Some t) = Some t' /\ about j' = id o' /\ since j' = origin t' /\ evidence_ok now o' t' (entries j').
Proof.
  intros Hl Ha Hs Hg Hsame Hf Ht j'. subst j'. destruct (Z.eqb_spec i (about j)) as [->|Hi].
  - rewrite Ha in *. destruct (evidence_marks last now o t (entries j) ms Hl (Hg eq_refl) Ht) as (t' & E & Ho & Hok).
    exists t'. split; [done|]. cbn [about since entries]. split; [by rewrite (proj1 Hsame)|]. split; [congruence|].
    by eapply (evidence_later now now o).
  - assert (evidence_ok now o' t (entries j)) as Ht' by by eapply evidence_later. exists t.
    split; [|split; [by rewrite Ha, (proj1 Hsame)|done]]. eapply marked_other; [|exact Ht']. rewrite (proj1 Hsame). congruence.
Qed.

Lemma enter_machine_ok l x s : section_wf l -> machine_ok (machine s) -> machine_ok (machine (enter l x s).2).
Proof. intros Hl Hm. destruct (enter_call l x s Hl) as [->|(c & Hc & _ & ->)]; [done|by apply machine_step_ok]. Qed.

Lemma timed_step_ok last w j e :
  last <= event_time e -> event_wf e -> timed_ok last w j -> timed_ok (event_time e) (timed_step w e).2 (journal_step w j e).
Proof.
  intros Hl He [Hm Hw]. destruct e as [l x now|i m now]; cbn [event_time event_wf] in *; unfold journal_step, timed_ok;
    cbn [timed_step snd coordinator_side timing event_begins event_marks event_time].
  - split; [by apply enter_machine_ok|]. destruct (section_begins l _) as [i|] eqn:Hb.
    { destruct (enter_begins _ _ _ _ Hb) as (before & Hb'). exists (fresh_operation i before).
      split; [done|]. split; [done|]. split; [done|]. apply evidence_new. }
    destruct (timing w) as [t|], j as [j|]; try done.
    2:{ rewrite marked_none. by destruct (section_marks l (coordinator_side w) (enter l x (coordinator_side w)).1) as [[]|]. }
    destruct Hw as (o & Ho & Ha & Hs & Ht). destruct (enter_keeps _ _ _ _ He Hm Hb Ho) as (o' & Ho' & Hsame & Hf).
    destruct (section_marks l (coordinator_side w) (enter l x (coordinator_side w)).1) as [[i ms]|] eqn:Hms.
    + destruct (section_guarded _ _ _ _ _ Hms) as (o1 & Ho1 & <- & Hg). rewrite Ho in Ho1. injection Ho1 as <-.
      destruct (evidence_marked last now o o' t j (id o) ms) as (t' & -> & H1 & H2 & H3); try done. by exists o'.
    + exists o'. split; [done|]. split; [by rewrite Ha, (proj1 Hsame)|]. split; [done|]. by eapply evidence_later.
  - split; [done|]. destruct (timing w) as [t|], j as [j|]; try done. destruct Hw as (o & Ho & Ha & Hs & Ht).
    destruct (evidence_marked last now o o t j i [ByTask m]) as (t' & E & H1 & H2 & H3); try done; [by repeat constructor|].
    cbn [marked fold_left] in E. rewrite E. by exists o.
Qed.

Lemma timed_run_ok es last w j :
  ticking last es -> Forall event_wf es -> timed_ok last w j ->
  timed_ok (clock last es) (run timed_step w es) (journal_from w j es).
Proof.
  revert last w j. induction es as [|e es IH]; intros last w j Ht He Hw; [done|]. cbn [ticking clock run journal_from] in *.
  apply Forall_cons_iff in He as [He Hes]. destruct Ht as [Hl Ht]. apply IH; [done..|]. by apply (timed_step_ok last).
Qed.

(** ** Properties *)

Definition earlier (a b : option Z) : Prop := forall x y, a = Some x -> b = Some y -> x <= y.

(** C38: The timing evidence of a rotation is exact and in order.  In every sequence of
    critical sections and of marks by tasks, under a clock that does not run backwards:
    the evidence is of the operation the machine is in; every time is at most the age
    of the operation; every slot that is kept holds the time of the first mark of its
    kind since the operation was prepared, no matter which marks of other operations
    arrive late; the observed and the authorised generation are the newest that were
    marked, with the time of their last mark, and later than the generation the
    operation began with; and activation, loss, recovery and restoration were marked in
    that order. *)
Theorem rotation_evidence_exact es now t :
  ticking 0 es -> Forall event_wf es -> clock 0 es <= now -> timing (run timed_step timed_new es) = Some t ->
  let w := run timed_step timed_new es in
  let e := timing_snapshot_at w now in
  let current := snapshot (machine (coordinator_side w)) in
  exists j, journal_from timed_new None es = Some j /\
    rt_operation_id e = Some (about j) /\ snap_operation_id current = Some (about j) /\
    (forall k v, time_of k e = Some v -> exists age, rt_operation_age_ms e = Some age /\ v <= age) /\
    (forall k, kept k = true -> time_of k e = first (since j) k (entries j)) /\
    newest (since j) (omap fresh_entry (entries j)) (rt_fresh_cellular_generation e) (fresh_cellular_observed_ms e) /\
    newest (since j) (omap root_entry (entries j)) (rt_root_authorized_generation e) (root_authorized_ms e) /\
    (forall g, rt_fresh_cellular_generation e = Some g \/ rt_root_authorized_generation e = Some g ->
       exists before, snap_before_generation current = Some before /\ before < g) /\
    earlier (activated_ms e) (cellular_loss_observed_ms e) /\
    earlier (cellular_loss_observed_ms e) (fresh_cellular_observed_ms e) /\ earlier (cellular_loss_observed_ms e) (root_authorized_ms e) /\
    earlier (fresh_cellular_observed_ms e) (restore_completed_ms e) /\ earlier (root_authorized_ms e) (restore_completed_ms e).
Proof.
  intros Ht He Hn Hw w e cur. assert (timed_ok 0 timed_new None) as H0 by (split; [apply machine_new_ok|done]).
  destruct (timed_run_ok es 0 timed_new None Ht He H0) as [_ Hok]. rewrite Hw in Hok.
  destruct (journal_from timed_new None es) as [j|]; [|done]. destruct Hok as (o & Ho & Ha & Hs & []). exists j.
  unfold e, cur, timing_snapshot_at, snapshot, w. rewrite Hw, Ho. cbn [snapshot_at rt_operation_id rt_operation_age_ms operation_snapshot
    snap_operation_id snap_before_generation]. rewrite Hs, Ha.
  split; [done|]. split; [done|]. split; [done|]. split; [|split; [|split; [|split; [|split]]]]; try done.
  - intros k v Hv. assert (time_of k (evidence t) = Some v) by by destruct k. eexists. split; [done|]. etrans; [by eapply ev_times0|by apply elapsed_ms_mono].
  - intros g [Hg|Hg]; eexists; (split; [done|]); [by apply ev_fresh0|by apply ev_root0].
  - split_and!; intros x y Hx Hy;
      [eapply (ev_order0 SActivated SLoss)|eapply (ev_order0 SLoss SFresh)|eapply (ev_order0 SLoss SRoot)
      |eapply (ev_order0 SFresh SRestore)|eapply (ev_order0 SRoot SRestore)]; done.
Qed.

Definition timed_outlook (now : Z) : outlook :=
  {| guard_matches := fun _ => true; is_finished := fun _ => false; spawned := None; instant := now; notifier := 0%nat |}.

Definition demo_lost (g : Z) : CellularAdmissionSnapshot :=
  {| adm_state := NotAdmitted; adm_reason := Some NetworkLost; admitted_network := None; Cellular.last_sequence := Some g |}.

(** A rotation that is recovered, with a late mark of an operation that is not there. *)
Definition demo_timed : list timed_event :=
  let at_ ms := ms * 1000000 in
  let enter_at l ms := TEnter l (timed_outlook (at_ ms)) (at_ ms) in
  [enter_at (LPrepare 10 demo_guard) 100; enter_at (LActivate 1) 103; TMark 1 PreProbeStarted (at_ 104); TMark 7 TerminalReached (at_ 105);
   TMark 1 PreProbeCompleted (at_ 160); enter_at (LBeforeIp 1 10 (IpV4 1)) 161; TMark 1 (PreconditionObserved true) (at_ 170);
   enter_at (LDisableStarted 1) 171; TMark 1 DisableStarted (at_ 172); TMark 1 DisableCompleted (at_ 180); enter_at (LDisableDone 1 Applied) 181;
   enter_at (LObserveCellular (demo_lost 11)) 190; TMark 1 EnableStarted (at_ 191); TMark 1 EnableCompleted (at_ 200);
   enter_at (LEnableDone 1 Applied) 201; enter_at (LObserveCellular (demo_admission 12)) 300; enter_at (LObserveCellular (demo_admission 13)) 320;
   enter_at (LObserveRoot (demo_publication 13)) 350; TMark 1 PostProbeStarted (at_ 351)].

Lemma rotation_evidence_exact_witness :
  let w := run timed_step timed_new demo_timed in
  let e := timing_snapshot_at w 400000000 in
  rt_operation_age_ms e = Some 300 /\ activated_ms e = Some 3 /\ cellular_loss_observed_ms e = Some 90 /\
  rt_fresh_cellular_generation e = Some 13 /\ fresh_cellular_observed_ms e = Some 220 /\ terminal_ms e = None /\
  exists j, journal_from timed_new None demo_timed = Some j /\ (forall k, kept k = true -> time_of k e = first (since j) k (entries j)).
Proof.
  do 6 (split; [vm_compute; reflexivity|]).
  destruct (timing (run timed_step timed_new demo_timed)) as [t|] eqn:Ht; [|exfalso; revert Ht; vm_compute; discriminate].
  destruct (rotation_evidence_exact demo_timed 400000000 t) as (j & Hj & _ & _ & _ & Hk & _);
    [cbn; lia|repeat constructor; cbn; unfold u64_max; lia|cbn; lia|exact Ht|].
  exists j. split; [exact Hj|exact Hk].
Defined.
