(* ===== verification/ControlTransport.v ===== *)
(** * Control transport

    [src/crates/runtime/src/control_transport.rs] and [tls_client.rs]: reaching
    the control server within one deadline (name lookup, one address after the
    other, TLS, WebSocket upgrade), and which WebSocket messages and errors the
    session gets to see.

    Sockets, TLS and the WebSocket library are requests; the clock is in
    nanoseconds. *)

From Stdlib Require Import String.
From S2P Require Import Prelude Net RustStr Control Interaction.

Definition CONTROL_WEBSOCKET_FRAMING_HEADROOM_BYTES : Z := 256.
Definition CONTROL_WEBSOCKET_MAX_BYTES : Z := CONTROL_WIRE_MAX_BYTES + CONTROL_WEBSOCKET_FRAMING_HEADROOM_BYTES.
Definition CONTROL_READ_BUFFER_BYTES : Z := 4 * 1024.
Definition CONTROL_MAX_WRITE_BUFFER_BYTES : Z := 4 * 1024.
Definition CONTROL_USER_AGENT : str := lit "mobile-proxy-mish-control/1".

Inductive ControlTransportMessage := Text (text : str) | Closed.
Inductive ControlTransportError := Network | Tls | WebSocket | TransportProtocol.

(** ** The WebSocket library *)

Inductive Message := MText (text : str) | MBinary | MFrame | MClose | MPing | MPong.
Inductive WebSocketError := Capacity | WsProtocol | Utf8 | AttackAttempt | WsOther.

Record WebSocketConfig := {
  read_buffer_size : Z; write_buffer_size : Z; max_write_buffer_size : Z;
  max_message_size : option Z; max_frame_size : option Z }.

Definition websocket_config : WebSocketConfig :=
  {| read_buffer_size := CONTROL_READ_BUFFER_BYTES; write_buffer_size := 0;
     max_write_buffer_size := CONTROL_MAX_WRITE_BUFFER_BYTES;
     max_message_size := Some CONTROL_WEBSOCKET_MAX_BYTES; max_frame_size := Some CONTROL_WEBSOCKET_MAX_BYTES |}.

Definition classify_message (m : Message) : result ControlTransportError (option ControlTransportMessage) :=
  match m with
  | MText text =>
      if CONTROL_WIRE_MAX_BYTES <? Z.of_nat (length text) then Err TransportProtocol else Ok (Some (Text text))
  | MBinary | MFrame => Err TransportProtocol
  | MClose => Ok (Some Closed)
  | MPing | MPong => Ok None
  end.

Definition classify_websocket_error (e : WebSocketError) : ControlTransportError :=
  match e with
  | Capacity | WsProtocol | Utf8 | AttackAttempt => TransportProtocol
  | WsOther => WebSocket
  end.

(** One item of the socket's stream: [None] at its end, [Ok None] for the pings
    and pongs [read_message] passes over. *)
Definition classify_item (item : option (result WebSocketError Message))
    : result ControlTransportError (option ControlTransportMessage) :=
  match item with
  | None => Ok (Some Closed)
  | Some (Err e) => Err (classify_websocket_error e)
  | Some (Ok m) => classify_message m
  end.

(** ** Connecting *)

Inductive ProductTlsError := TlsConfiguration | InvalidServerName | TlsDeadlineExceeded | HandshakeFailed.

Inductive connect_request :=
| ConnectNow
| Lookup (host : str) (port remaining : Z)
| Dial (address : nat) (remaining : Z)
| TlsConfig
| ServerName (host : str)
| TlsHandshake (host : str) (remaining : Z)
| ParseRequest (uri user_agent : str)
| Upgrade (uri : str) (config : WebSocketConfig) (remaining : Z).

(** [None] where the [timeout] around the call ran out. *)
Definition connect_reply (r : connect_request) : Type :=
  match r with
  | ConnectNow => Z
  | Lookup _ _ _ => option (result unit (list nat))
  | Dial _ _ => option bool
  | TlsConfig => bool
  | ServerName _ => bool
  | TlsHandshake _ _ => option bool
  | ParseRequest _ _ => bool
  | Upgrade _ _ _ => option (result WebSocketError unit)
  end.

Abbreviation kprog := (prog connect_request connect_reply).
Definition kask (r : connect_request) : kprog (connect_reply r) := request r.

(** [c.await?] *)
Definition try_bind {Req : Type} {Rep : Req -> Type} {E A B} (c : prog Req Rep (result E A))
    (k : A -> prog Req Rep (result E B)) : prog Req Rep (result E B) :=
  prog_bind c (fun r => match r with Ok a => k a | Err e => Ret (Err e) end).

Notation "'try>' x ':=' c 'in' k" := (try_bind c (fun x => k))
  (at level 10, x pattern, c at level 100, k at level 200) : rust_scope.

(** [deadline.saturating_duration_since(Instant::now())] *)
Definition remaining_until (deadline : Z) : kprog Z :=
  let> now := kask ConnectNow in Ret (Z.max (deadline - now) 0).

Fixpoint dial_each (addresses : list nat) (deadline : Z) : kprog (result ControlTransportError unit) :=
  match addresses with
  | [] => Ret (Err Network)
  | a :: addresses =>
      let> remaining := remaining_until deadline in
      if remaining =? 0 then Ret (Err Network)
      else
        let> dialled := kask (Dial a remaining) in
        match dialled with
        | Some true => Ret (Ok tt)
        | _ => dial_each addresses deadline
        end
  end.

Definition connect_tcp (host : str) (port deadline : Z) : kprog (result ControlTransportError unit) :=
  let> remaining := remaining_until deadline in
  if remaining =? 0 then Ret (Err Network)
  else
    let> addresses := kask (Lookup host port remaining) in
    match addresses with
    | Some (Ok addresses) => dial_each addresses deadline
    | _ => Ret (Err Network)
    end.

Definition tls_connect (host : str) (remaining : Z) : kprog (result ProductTlsError unit) :=
  if remaining =? 0 then Ret (Err TlsDeadlineExceeded)
  else
    let> valid := kask (ServerName host) in
    if negb valid then Ret (Err InvalidServerName)
    else
      let> shaken := kask (TlsHandshake host remaining) in
      Ret (match shaken with
           | None => Err TlsDeadlineExceeded
           | Some true => Ok tt
           | Some false => Err HandshakeFailed
           end).

Definition request_uri (host : str) (port : Z) (path device_id : str) : str :=
  let authority := if port =? 443 then host else host ++ lit ":" ++ to_decimal port in
  lit "wss://" ++ authority ++ path ++ lit "?device_id=" ++ device_id.

Definition build_request (host : str) (port : Z) (path device_id : str) : kprog (result ControlTransportError str) :=
  let uri := request_uri host port path device_id in
  let> parsed := kask (ParseRequest uri CONTROL_USER_AGENT) in
  Ret (if parsed then Ok uri else Err TransportProtocol).

Definition connect (host : str) (port : Z) (path device_id : str) (operation_timeout : Z)
    : kprog (result ControlTransportError unit) :=
  let> start := kask ConnectNow in
  let deadline := start + operation_timeout in
  try> _ := connect_tcp host port deadline in
  let> remaining := remaining_until deadline in
  let> configured := kask TlsConfig in
  if negb configured then Ret (Err Tls)
  else
    let> secured := tls_connect host remaining in
    match secured with
    | Err _ => Ret (Err Tls)
    | Ok _ =>
        try> uri := build_request host port path device_id in
        let> remaining := remaining_until deadline in
        if remaining =? 0 then Ret (Err WebSocket)
        else
          let> upgraded := kask (Upgrade uri websocket_config remaining) in
          Ret (match upgraded with
               | None => Err WebSocket
               | Some (Err e) => Err (classify_websocket_error e)
               | Some (Ok _) => Ok tt
               end)
    end.

(** ** Bounds of a connection attempt *)

(** What a request may take at most. *)
Definition allowance (r : connect_request) : option Z :=
  match r with
  | Lookup _ _ n | Dial _ n | TlsHandshake _ n | Upgrade _ _ n => Some n
  | _ => None
  end.

Abbreviation kevent := (event connect_request connect_reply).

(** The readings of the clock, oldest first. *)
Definition readings (t : list kevent) : list Z :=
  omap (fun e => match e with existT ConnectNow now => Some now | _ => None end) t.

(** The time left at the last reading, of a budget that starts at the first. *)
Definition budget_left (budget : Z) (t : list kevent) : option Z :=
  match head (readings t), list.last (readings t) with
  | Some start, Some now => Some (Z.max (start + budget - now) 0)
  | _, _ => None
  end.

Definition within (budget : Z) (t : list kevent) (r : connect_request) : Prop :=
  match allowance r with
  | None => True
  | Some n => n <> 0 /\ budget_left budget t = Some n
  end.

Section budget.
Context (budget start : Z).

Abbreviation bounded p t := (always (fun _ _ => True) (fun t r _ => within budget t r) p t).

Lemma readings_snoc t r x :
  readings (t ++ [existT r x]) =
    readings t ++ match r return connect_reply r -> list Z with ConnectNow => fun now : Z => [now] | _ => fun _ => [] end x.
Proof. unfold readings. rewrite omap_app. by destruct r. Qed.

Lemma head_readings_app (t t' : list kevent) : head (readings t) = Some start -> head (readings (t ++ t')) = Some start.
Proof. unfold readings. rewrite omap_app. by destruct (omap _ t). Qed.

(** A reading, then the rest with the time that is left. *)
Lemma bounded_remaining {A} (k : Z -> kprog A) t :
  head (readings t) = Some start ->
  (forall n t', budget_left budget t' = Some n -> head (readings t') = Some start -> bounded (k n) t') ->
  bounded (prog_bind (remaining_until (start + budget)) k) t.
Proof.
  intros Ht Hk now _. split; [exact I|]. apply Hk; [|by apply head_readings_app].
  unfold budget_left. rewrite head_readings_app by done. rewrite readings_snoc. by rewrite list.last_snoc.
Qed.

(** Requests other than the clock leave the budget as it was. *)
Lemma budget_left_skip t r x : r <> ConnectNow -> budget_left budget (t ++ [existT r x]) = budget_left budget t.
Proof. intros Hr. unfold budget_left. rewrite readings_snoc. destruct r; try done; by rewrite app_nil_r. Qed.

Lemma bounded_ask {A} r (k : connect_reply r -> kprog A) t :
  r <> ConnectNow -> within budget t r -> head (readings t) = Some start ->
  (forall x t', budget_left budget t' = budget_left budget t -> head (readings t') = Some start -> bounded (k x) t') ->
  bounded (prog_bind (kask r) k) t.
Proof.
  intros Hr Hw Ht Hk x _. split; [done|]. apply Hk; [by apply budget_left_skip|by apply head_readings_app].
Qed.

Lemma bounded_bind {A B} (p : kprog A) (k : A -> kprog B) t :
  bounded p t -> head (readings t) = Some start ->
  (forall a t', head (readings t') = Some start -> bounded (k a) t') -> bounded (prog_bind p k) t.
Proof. intros Hp Ht Hk. apply always_bind; [done|]. intros a t'. by apply Hk, head_readings_app. Qed.

Lemma bounded_dial addresses t :
  head (readings t) = Some start -> bounded (dial_each addresses (start + budget)) t.
Proof.
  revert t. induction addresses as [|a addresses IH]; intros t Ht; [exact I|]. cbn [dial_each].
  apply bounded_remaining; [done|]. intros n t1 Hn Ht1. destruct (Z.eqb_spec n 0) as [|Hne]; [exact I|].
  apply bounded_ask; [done|by split|done|]. intros x t2 _ Ht2. destruct x as [[]|]; auto. exact I.
Qed.

Lemma bounded_tcp host port t : head (readings t) = Some start -> bounded (connect_tcp host port (start + budget)) t.
Proof.
  intros Ht. unfold connect_tcp. apply bounded_remaining; [done|]. intros n t1 Hn Ht1.
  destruct (Z.eqb_spec n 0) as [|Hne]; [exact I|].
  apply bounded_ask; [done|by split|done|]. intros [[addresses|]|] t2 _ Ht2; try exact I. by apply bounded_dial.
Qed.

Lemma bounded_tls host n t :
  budget_left budget t = Some n -> head (readings t) = Some start -> bounded (tls_connect host n) t.
Proof.
  intros Hn Ht. unfold tls_connect. destruct (Z.eqb_spec n 0) as [|Hne]; [exact I|].
  apply bounded_ask; [done|exact I|done|]. intros [] t1 H1 Ht1; [|exact I].
  apply bounded_ask; [done|split; [done|congruence]|done|]. intros x t2 _ _. exact I.
Qed.
End budget.

(** One connection attempt keeps to its budget.  Every step that can block
    (the lookup, each dial, the TLS handshake, the WebSocket upgrade) is given
    exactly what is left, at the last reading of the clock, of a budget that
    starts at the first reading, and none is started when nothing is left;
    whatever the answers are and however many addresses the lookup returns. *)
Theorem connect_keeps_budget host port path device_id budget :
  always (fun _ _ => True) (fun t r _ => within budget t r) (connect host port path device_id budget) [].
Proof.
  unfold connect, try_bind. intros start _. split; [exact I|]. cbn [app]. match goal with |- always _ _ (prog_bind (Ret ?a) ?f) _ => change (prog_bind (Ret a) f) with (f a) end. cbv beta.
  apply (bounded_bind budget start); [by apply bounded_tcp|done|]. intros [[]|e] t Ht; [|exact I].
  apply (bounded_remaining budget start); [done|]. intros n t1 Hn Ht1.
  apply (bounded_ask budget start); [done|exact I|done|]. intros [] t2 H2 Ht2; [|exact I].
  apply (bounded_bind budget start); [apply (bounded_tls budget start); [congruence|done]|done|].
  intros [[]|e] t3 Ht3; [|exact I].
  apply (bounded_bind budget start); [|done|].
  { apply (bounded_ask budget start); [done|exact I|done|]. intros [] t4 _ _; exact I. }
  intros [uri|e] t4 Ht4; [|exact I]. apply (bounded_remaining budget start); [done|]. intros n' t5 Hn' Ht5.
  destruct (Z.eqb_spec n' 0) as [|Hne]; [exact I|].
  apply (bounded_ask budget start); [done|by split|done|]. intros x t6 _ _. exact I.
Qed.
