(* ===== verification/ControlRuntime.v ===== *)
(** * Control runtime

    [src/crates/runtime/src/control_runtime.rs]: the one task that keeps the
    control session to the server alive, answers its requests, and correlates
    each remote rotation with the operation of the rotation runtime.

    Critical sections of the coordinator's mutex are [section]s; the socket, the
    signer and the neighbouring owners are requests.  The JSON library and the
    hash are parameters, as in [Control]. *)

From Stdlib Require Import String.
From S2P Require Import Prelude Net RustStr Rotation Readiness Lifecycle Transport ProxyAuth Configuration Control RootSession.
From S2P Require Import Interaction RootPolicyRuntime MobileData RotationRuntime.
From S2P Require Import ControlTransport.

Definition CONTROL_CONNECT_TIMEOUT : Z := 3 * 1000000000.
Definition CONTROL_HEARTBEAT_REQUEST : str := lit "MISH_CONTROL_HEARTBEAT_V1".
Definition CONTROL_HEARTBEAT_RESPONSE : str := lit "MISH_CONTROL_HEARTBEAT_ACK_V1".
Definition CONTROL_RECONNECT_DELAYS_MS : list Z := [500; 1000; 2000; 3000; 5000].
Definition CONTROL_RECENT_TERMINAL_REQUESTS : nat := 32.

Inductive ControlSessionState := SessionStopped | Connecting | Authenticating | SessionReady | Backoff.

#[export] Instance ControlSessionState_eq_dec : EqDecision ControlSessionState.
Proof. solve_decision. Defined.

Inductive ControlRuntimeStartError :=
| AlreadyStarted | InvalidIdentity | ControlExecutorUnavailable | ControlStateUnavailable.
Inductive ControlAuthSignError := KeystoreUnavailable | SignFailed.
Inductive ControlRunError := Cancelled | RunTransport | RunAuthentication | RunProtocol | RunState.

Definition from_transport_error (e : ControlTransportError) : ControlRunError :=
  match e with TransportProtocol => RunProtocol | Network | Tls | WebSocket => RunTransport end.

Definition map_rotation_start_error (_ : RotationRuntimeStartError) : RemoteRotationResult := RejectedRotation.

(** ** Reconnecting *)

Definition u32_saturating_add (a b : Z) : Z := Z.min (a + b) u32_max.

Definition next_reconnect_failure_count (previous_failures : Z) (last : ControlSessionState) : Z :=
  if last =b? SessionReady then 1 else u32_saturating_add previous_failures 1.

(** The index is clamped to the last delay. *)
Definition reconnect_delay_ms (failures : Z) : Z :=
  let index := Z.min (saturating_sub failures 1) (Z.of_nat (length CONTROL_RECONNECT_DELAYS_MS) - 1) in
  nth (Z.to_nat index) CONTROL_RECONNECT_DELAYS_MS 0.

(** ** Timing evidence *)

Record ControlOperationTimingSnapshot := {
  ct_operation_id : option Z;
  ct_operation_age_ms : option Z;
  operation_reserved_ms : option Z;
  accepted_sent_ms : option Z;
  reconnect_started_ms : option Z;
  reconnect_ready_ms : option Z;
  rotation_terminal_control_state : option ControlSessionState;
  post_terminal_connect_started_ms : option Z;
  post_terminal_connect_attempts : Z;
  post_terminal_transport_connected_ms : option Z;
  post_terminal_transport_connections : Z;
  rotation_terminal_ms : option Z;
  result_sent_ms : option Z;
  result_ack_ms : option Z;
  rotation_origin_from_command_ms : option Z }.

Definition timing_default : ControlOperationTimingSnapshot :=
  {| ct_operation_id := None; ct_operation_age_ms := None; operation_reserved_ms := None; accepted_sent_ms := None;
     reconnect_started_ms := None; reconnect_ready_ms := None; rotation_terminal_control_state := None;
     post_terminal_connect_started_ms := None; post_terminal_connect_attempts := 0;
     post_terminal_transport_connected_ms := None; post_terminal_transport_connections := 0;
     rotation_terminal_ms := None; result_sent_ms := None; result_ack_ms := None;
     rotation_origin_from_command_ms := None |}.

Record ControlOperationTiming := { origin : Z; timing_snapshot : ControlOperationTimingSnapshot }.

Definition elapsed_ms_since (now then_ : Z) : Z := duration_ms (elapsed then_ now).

Definition set_timing_once (slot : option Z) (elapsed_ms : Z) : option Z :=
  match slot with None => Some elapsed_ms | Some _ => slot end.

(** What a mark writes. *)
Inductive control_mark :=
| MarkReserved | MarkAcceptedSent | MarkResultSent | MarkResultAck | MarkReconnectStarted | MarkReconnectReady
| MarkRotationTerminal (s : ControlSessionState) | MarkConnectAttempt | MarkTransportConnected.

Definition write_mark (m : control_mark) (ms : Z) (t : ControlOperationTimingSnapshot) : ControlOperationTimingSnapshot :=
  let once (b : bool) (slot : option Z) := if b then set_timing_once slot ms else slot in
  {| ct_operation_id := ct_operation_id t; ct_operation_age_ms := ct_operation_age_ms t;
     operation_reserved_ms := once (match m with MarkReserved => true | _ => false end) (operation_reserved_ms t);
     accepted_sent_ms := once (match m with MarkAcceptedSent => true | _ => false end) (accepted_sent_ms t);
     reconnect_started_ms := once (match m with MarkReconnectStarted => true | _ => false end) (reconnect_started_ms t);
     reconnect_ready_ms := once (match m with MarkReconnectReady => true | _ => false end) (reconnect_ready_ms t);
     rotation_terminal_control_state :=
       match m, rotation_terminal_control_state t with
       | MarkRotationTerminal s, None => Some s
       | _, x => x
       end;
     post_terminal_connect_started_ms :=
       once (match m with MarkConnectAttempt => true | _ => false end) (post_terminal_connect_started_ms t);
     post_terminal_connect_attempts :=
       match m with
       | MarkConnectAttempt => u32_saturating_add (post_terminal_connect_attempts t) 1
       | _ => post_terminal_connect_attempts t
       end;
     post_terminal_transport_connected_ms :=
       once (match m with MarkTransportConnected => true | _ => false end) (post_terminal_transport_connected_ms t);
     post_terminal_transport_connections :=
       match m with
       | MarkTransportConnected => u32_saturating_add (post_terminal_transport_connections t) 1
       | _ => post_terminal_transport_connections t
       end;
     rotation_terminal_ms := once (match m with MarkRotationTerminal _ => true | _ => false end) (rotation_terminal_ms t);
     result_sent_ms := once (match m with MarkResultSent => true | _ => false end) (result_sent_ms t);
     result_ack_ms := once (match m with MarkResultAck => true | _ => false end) (result_ack_ms t);
     rotation_origin_from_command_ms := rotation_origin_from_command_ms t |}.

Definition mark (operation_id : Z) (m : control_mark) (now : Z) (t : ControlOperationTiming) : ControlOperationTiming :=
  if ct_operation_id (timing_snapshot t) <>b? Some operation_id then t
  else {| origin := origin t; timing_snapshot := write_mark m (elapsed_ms_since now (origin t)) (timing_snapshot t) |}.

Definition timing_new (operation_id origin now : Z) : ControlOperationTiming :=
  mark operation_id MarkReserved now
    {| origin := origin;
       timing_snapshot :=
         {| ct_operation_id := Some operation_id; ct_operation_age_ms := None; operation_reserved_ms := None;
            accepted_sent_ms := None; reconnect_started_ms := None; reconnect_ready_ms := None;
            rotation_terminal_control_state := None; post_terminal_connect_started_ms := None;
            post_terminal_connect_attempts := 0; post_terminal_transport_connected_ms := None;
            post_terminal_transport_connections := 0; rotation_terminal_ms := None; result_sent_ms := None;
            result_ack_ms := None; rotation_origin_from_command_ms := None |} |}.

(** ** State *)

Record PendingRemoteOperation := {
  request_id : str;
  operation_id : option Z;
  result_ : option RemoteRotationResult;
  timing : ControlOperationTiming }.

(** A join handle and a cancellation channel are numbers. *)
Record ControlState := {
  session_state : ControlSessionState;
  reconnect_attempts : Z;
  reconnect_count : Z;
  next_delay_ms : Z;
  session_ready_at : option Z;
  application_heartbeat_count : Z;
  payload_tx_bytes : Z;
  payload_rx_bytes : Z;
  last_tx_at : option Z;
  last_rx_at : option Z;
  pending : option PendingRemoteOperation;
  recent_terminal : list PendingRemoteOperation;
  last_terminal_result : option RemoteRotationResult;
  state_device_id : option str;
  task : option nat;
  cancel : option nat;
  closed : bool }.

Definition control_new : ControlState :=
  {| session_state := SessionStopped; reconnect_attempts := 0; reconnect_count := 0;
     next_delay_ms := nth 0 CONTROL_RECONNECT_DELAYS_MS 0; session_ready_at := None; application_heartbeat_count := 0;
     payload_tx_bytes := 0; payload_rx_bytes := 0; last_tx_at := None; last_rx_at := None; pending := None;
     recent_terminal := []; last_terminal_result := None; state_device_id := None; task := None; cancel := None;
     closed := false |}.

(** The correlation fields. *)
Definition with_ledger (s : ControlState) (p : option PendingRemoteOperation) (recent : list PendingRemoteOperation)
    (last : option RemoteRotationResult) : ControlState :=
  {| session_state := session_state s; reconnect_attempts := reconnect_attempts s; reconnect_count := reconnect_count s;
     next_delay_ms := next_delay_ms s; session_ready_at := session_ready_at s;
     application_heartbeat_count := application_heartbeat_count s; payload_tx_bytes := payload_tx_bytes s;
     payload_rx_bytes := payload_rx_bytes s; last_tx_at := last_tx_at s; last_rx_at := last_rx_at s; pending := p;
     recent_terminal := recent; last_terminal_result := last; state_device_id := state_device_id s; task := task s;
     cancel := cancel s; closed := closed s |}.

Definition with_pending (s : ControlState) (p : option PendingRemoteOperation) : ControlState :=
  with_ledger s p (recent_terminal s) (last_terminal_result s).

(** The counters of the session. *)
Definition with_counts (s : ControlState) (reconnects heartbeats tx rx : Z) (tx_at rx_at : option Z) : ControlState :=
  {| session_state := session_state s; reconnect_attempts := reconnect_attempts s; reconnect_count := reconnects;
     next_delay_ms := next_delay_ms s; session_ready_at := session_ready_at s;
     application_heartbeat_count := heartbeats; payload_tx_bytes := tx; payload_rx_bytes := rx; last_tx_at := tx_at;
     last_rx_at := rx_at; pending := pending s; recent_terminal := recent_terminal s;
     last_terminal_result := last_terminal_result s; state_device_id := state_device_id s; task := task s;
     cancel := cancel s; closed := closed s |}.

Definition with_session (s : ControlState) (st : ControlSessionState) (attempts delay : Z) (ready_at : option Z)
    : ControlState :=
  {| session_state := st; reconnect_attempts := attempts; reconnect_count := reconnect_count s; next_delay_ms := delay;
     session_ready_at := ready_at; application_heartbeat_count := application_heartbeat_count s;
     payload_tx_bytes := payload_tx_bytes s; payload_rx_bytes := payload_rx_bytes s; last_tx_at := last_tx_at s;
     last_rx_at := last_rx_at s; pending := pending s; recent_terminal := recent_terminal s;
     last_terminal_result := last_terminal_result s; state_device_id := state_device_id s; task := task s;
     cancel := cancel s; closed := closed s |}.

Definition with_task (s : ControlState) (t : option nat) : ControlState :=
  {| session_state := session_state s; reconnect_attempts := reconnect_attempts s; reconnect_count := reconnect_count s;
     next_delay_ms := next_delay_ms s; session_ready_at := session_ready_at s;
     application_heartbeat_count := application_heartbeat_count s; payload_tx_bytes := payload_tx_bytes s;
     payload_rx_bytes := payload_rx_bytes s; last_tx_at := last_tx_at s; last_rx_at := last_rx_at s;
     pending := pending s; recent_terminal := recent_terminal s; last_terminal_result := last_terminal_result s;
     state_device_id := state_device_id s; task := t; cancel := cancel s; closed := closed s |}.

Definition set_result (p : PendingRemoteOperation) (r : RemoteRotationResult) (t : ControlOperationTiming)
    : PendingRemoteOperation :=
  {| request_id := request_id p; operation_id := operation_id p; result_ := Some r; timing := t |}.

(** A mark on the pending operation, under its own number. *)
Definition mark_own (p : PendingRemoteOperation) (m : control_mark) (now : Z) : PendingRemoteOperation :=
  match operation_id p with
  | None => p
  | Some i => {| request_id := request_id p; operation_id := operation_id p; result_ := result_ p;
                 timing := mark i m now (timing p) |}
  end.

(** ** Critical sections *)

(** [Ok (Some _)]: already running for the same device. *)
Definition start_section (s : ControlState) (id : str) (task_running : bool) (channel : nat)
    : result ControlRuntimeStartError bool * ControlState :=
  if closed s then (Err ControlStateUnavailable, s)
  else if is_some (task s) && task_running then
    if state_device_id s =b? Some id then (Ok false, s) else (Err AlreadyStarted, s)
  else
    (Ok true,
     {| session_state := Connecting; reconnect_attempts := 0; reconnect_count := 0;
        next_delay_ms := nth 0 CONTROL_RECONNECT_DELAYS_MS 0; session_ready_at := None; application_heartbeat_count := 0;
        payload_tx_bytes := 0; payload_rx_bytes := 0; last_tx_at := None; last_rx_at := None; pending := pending s;
        recent_terminal := recent_terminal s; last_terminal_result := last_terminal_result s;
        state_device_id := Some id; task := task s; cancel := Some channel; closed := closed s |}).

(** [None] when it was closed before. *)
Definition close_section (s : ControlState) : option (option nat * option nat) * ControlState :=
  if closed s then (None, s)
  else
    (Some (cancel s, task s),
     {| session_state := SessionStopped; reconnect_attempts := reconnect_attempts s; reconnect_count := reconnect_count s;
        next_delay_ms := next_delay_ms s; session_ready_at := session_ready_at s;
        application_heartbeat_count := application_heartbeat_count s; payload_tx_bytes := payload_tx_bytes s;
        payload_rx_bytes := payload_rx_bytes s; last_tx_at := last_tx_at s; last_rx_at := last_rx_at s; pending := None;
        recent_terminal := recent_terminal s; last_terminal_result := last_terminal_result s;
        state_device_id := state_device_id s; task := None; cancel := None; closed := true |}).

Definition find_section (s : ControlState) (id : str) : option PendingRemoteOperation * option PendingRemoteOperation :=
  (pending s, List.find (fun item => request_id item =b? id) (recent_terminal s)).

(** [false] when another operation is pending. *)
Definition reserve_section (s : ControlState) (id : str) (operation received now : Z) : bool * ControlState :=
  match pending s with
  | Some _ => (false, s)
  | None =>
      (true, with_pending s (Some {| request_id := id; operation_id := Some operation; result_ := None;
                                     timing := timing_new operation received now |}))
  end.

Definition mark_acceptance_delivery_failed (s : ControlState) (id : str) (operation : Z) : bool * ControlState :=
  match pending s with
  | None => (false, s)
  | Some p =>
      if (request_id p <>b? id) || (operation_id p <>b? Some operation) || is_some (result_ p) then (false, s)
      else (true, with_ledger s (Some (set_result p RejectedRotation (timing p))) (recent_terminal s)
                    (Some RejectedRotation))
  end.

Definition activation_failed_section (s : ControlState) (id : str) (r : RemoteRotationResult) : ControlState :=
  match pending s with
  | Some p =>
      if request_id p =b? id then with_ledger s (Some (set_result p r (timing p))) (recent_terminal s) (Some r) else s
  | None => s
  end.

Definition ack_section (s : ControlState) (id : str) (now : Z) : ControlState :=
  match pending s with
  | Some p =>
      if (request_id p =b? id) && is_some (operation_id p) && is_some (result_ p) then
        let completed := mark_own p MarkResultAck now in
        let recent := completed :: List.filter (fun item => request_id item <>b? id) (recent_terminal s) in
        with_ledger s None (take CONTROL_RECENT_TERMINAL_REQUESTS recent) (last_terminal_result s)
      else s
  | None => s
  end.

Definition remote_result (r : RotationTerminalResult) : RemoteRotationResult :=
  match r with
  | Rotation.Changed => Control.Changed
  | Rotation.Unchanged => Control.Unchanged
  | Failed => FailedRotation
  end.

(** [true] when the result is new. *)
Definition observe_rotation_section (s : ControlState) (snap : RotationSnapshot) (now : Z) : bool * ControlState :=
  match snap_operation_id snap, snap_terminal_result snap, pending s with
  | Some operation, Some terminal, Some p =>
      if (operation_id p =b? Some operation) && is_none (result_ p) then
        let r := remote_result terminal in
        (true, with_ledger s (Some (set_result p r (mark operation (MarkRotationTerminal (session_state s)) now (timing p))))
                 (recent_terminal s) (Some r))
      else (false, s)
  | _, _, _ => (false, s)
  end.

Definition publish_connection_state (s : ControlState) (st : ControlSessionState) (attempts delay now : Z) : ControlState :=
  if closed s && (st <>b? SessionStopped) then s
  else
    let '(ready_at, p) :=
      if (st =b? SessionReady) && (session_state s <>b? SessionReady) then
        (Some now,
         match pending s with
         | Some p => Some (if is_some (reconnect_started_ms (timing_snapshot (timing p)))
                           then mark_own p MarkReconnectReady now else p)
         | None => None
         end)
      else if st <>b? SessionReady then (None, pending s)
      else (session_ready_at s, pending s) in
    with_session (with_pending s p) st attempts delay ready_at.

Definition record_reconnect (s : ControlState) (now : Z) : ControlState :=
  with_pending
    (with_counts s (saturating_add (reconnect_count s) 1) (application_heartbeat_count s) (payload_tx_bytes s)
       (payload_rx_bytes s) (last_tx_at s) (last_rx_at s))
    (option_map (fun p => mark_own p MarkReconnectStarted now) (pending s)).

(** Marks of the pending operation once it has a result. *)
Definition record_post_terminal (s : ControlState) (m : control_mark) (now : Z) : ControlState :=
  with_pending s (option_map (fun p => if is_some (result_ p) then mark_own p m now else p) (pending s)).

Definition mark_pending_timing (s : ControlState) (operation : Z) (m : control_mark) (now : Z) : ControlState :=
  with_pending s
    (option_map (fun p => if operation_id p =b? Some operation then mark_own p m now else p) (pending s)).

Definition record_heartbeat (s : ControlState) : ControlState :=
  with_counts s (reconnect_count s) (saturating_add (application_heartbeat_count s) 1) (payload_tx_bytes s)
    (payload_rx_bytes s) (last_tx_at s) (last_rx_at s).

Definition record_sent (s : ControlState) (bytes now : Z) : ControlState :=
  with_counts s (reconnect_count s) (application_heartbeat_count s) (saturating_add (payload_tx_bytes s) bytes)
    (payload_rx_bytes s) (Some now) (last_rx_at s).

Definition record_received (s : ControlState) (bytes now : Z) : ControlState :=
  with_counts s (reconnect_count s) (application_heartbeat_count s) (payload_tx_bytes s)
    (saturating_add (payload_rx_bytes s) bytes) (last_tx_at s) (Some now).

(** ** Requests *)

(** [ProxyConnectionSnapshot] of [proxy_coordinator.rs]. *)
Record ProxyConnectionSnapshot := { serving_generation : Z; credential_version : Z; material : ProxyCredentialMaterial }.

Inductive csection :=
| CStart (id : str) (channel : nat)
| CSetTask (t : nat)
| CClose
| CIsClosed
| CSessionState
| CPublish (st : ControlSessionState) (attempts delay : Z)
| CPostConnectAttempt
| CPostConnected
| CReconnect
| CHeartbeat
| CSent (bytes : Z)
| CReceived (bytes : Z)
| CFind (id : str)
| CReserve (id : str) (operation received : Z)
| CAcceptanceFailed (id : str) (operation : Z)
| CActivationFailed (id : str) (r : RemoteRotationResult)
| CLastResult (r : RemoteRotationResult)
| CPending
| CAck (id : str)
| CObserveRotation (snap : RotationSnapshot)
| CMark (operation : Z) (m : control_mark).

Definition csection_reply (l : csection) : Type :=
  match l with
  | CStart _ _ => result ControlRuntimeStartError bool
  | CClose => option (option nat * option nat)
  | CIsClosed => bool
  | CSessionState => ControlSessionState
  | CFind _ => option PendingRemoteOperation * option PendingRemoteOperation
  | CReserve _ _ _ => bool
  | CAcceptanceFailed _ _ => bool
  | CPending => option PendingRemoteOperation
  | CObserveRotation _ => bool
  | _ => unit
  end.

(** [running]: the stored task has not finished. *)
Definition center (l : csection) (running : bool) (now : Z) (s : ControlState) : csection_reply l * ControlState :=
  match l with
  | CStart id channel => start_section s id running channel
  | CSetTask t => (tt, with_task s (Some t))
  | CClose => close_section s
  | CIsClosed => (closed s, s)
  | CSessionState => (session_state s, s)
  | CPublish st attempts delay => (tt, publish_connection_state s st attempts delay now)
  | CPostConnectAttempt => (tt, record_post_terminal s MarkConnectAttempt now)
  | CPostConnected => (tt, record_post_terminal s MarkTransportConnected now)
  | CReconnect => (tt, record_reconnect s now)
  | CHeartbeat => (tt, record_heartbeat s)
  | CSent bytes => (tt, record_sent s bytes now)
  | CReceived bytes => (tt, record_received s bytes now)
  | CFind id => (find_section s id, s)
  | CReserve id operation received => reserve_section s id operation received now
  | CAcceptanceFailed id operation => mark_acceptance_delivery_failed s id operation
  | CActivationFailed id r => (tt, activation_failed_section s id r)
  | CLastResult r => (tt, with_ledger s (pending s) (recent_terminal s) (Some r))
  | CPending => (pending s, s)
  | CAck id => (tt, ack_section s id now)
  | CObserveRotation snap => observe_rotation_section s snap now
  | CMark operation m => (tt, mark_pending_timing s operation m now)
  end.

(** An item of the socket's stream. *)
Abbreviation item := (option (result WebSocketError Message)).

Inductive selected :=
| SelCancel (alive : bool)          (* cancel.changed(), and whether the sender lives *)
| SelResult                         (* result_changed.notified() *)
| SelTick                           (* heartbeat.tick() *)
| SelItem (i : item).

Inductive waited := WaitCancel (alive : bool) | WaitResult | WaitSlept.

Inductive control_request :=
| CLocked (l : csection)
| Connect (r : connect_request)               (* raced against cancel.changed() *)
| CancelValue                                 (* *cancel.borrow() *)
| Select
| SelectBackoff (delay_ms : Z)
| NextTimed                                   (* socket.next() under the authentication timeout *)
| Send (text : str)
| CNow
| Sign (payload : list Z)
| RotationPrepare
| RotationActivate (operation : Z)
| RotationFailPrepared (operation : Z)
| ReadinessOf
| MeshOf
| ProxyStateOf
| ConnectionOf
| ConnectionMatches (c : ProxyConnectionSnapshot)
| NotifyResult
| SpawnLoop
| SendCancel (channel : nat)
| JoinTimed (t : nat)
| Abort (t : nat).

Definition control_reply (r : control_request) : Type :=
  match r with
  | CLocked l => csection_reply l
  | Connect k => connect_reply k + bool       (* [inr alive]: cancel.changed() won *)
  | CancelValue => bool
  | Select => selected
  | SelectBackoff _ => waited
  | NextTimed => option item                  (* [None]: the timeout *)
  | Send _ => result WebSocketError unit
  | CNow => Z
  | Sign _ => result ControlAuthSignError (list Z)
  | RotationPrepare => result RotationRuntimeStartError Z
  | RotationActivate _ => result RotationRuntimeStartError unit
  | RotationFailPrepared _ => bool
  | ReadinessOf => Readiness
  | MeshOf => result MeshTransportError MeshTransportSnapshot
  | ProxyStateOf => ProxyServingState
  | ConnectionOf => option ProxyConnectionSnapshot
  | ConnectionMatches _ => bool
  | NotifyResult => unit
  | SpawnLoop => option nat
  | SendCancel _ => unit
  | JoinTimed _ => bool
  | Abort _ => unit
  end.

Abbreviation cprog := (prog control_request control_reply).
Abbreviation cio A := (cprog (result ControlRunError A)).

Definition cask (r : control_request) : cprog (control_reply r) := request r.
Definition clocked (l : csection) : cprog (csection_reply l) := cask (CLocked l).

(** [connect] inside [select!]: cancellation may win at each of its steps. *)
Fixpoint raced {A} (p : kprog A) : cprog (A + bool) :=
  match p with
  | Ret a => Ret (inl a)
  | Do r k => Do (Connect r) (fun x => match x with inl x => raced (k x) | inr alive => Ret (inr alive) end)
  end.

(** ** Reading and writing *)

Definition write_text_observed (text : str) : cio unit :=
  if CONTROL_WIRE_MAX_BYTES <? Z.of_nat (length text) then Ret (Err RunProtocol)
  else
    let> sent := cask (Send text) in
    match sent with
    | Err e => Ret (Err (from_transport_error (classify_websocket_error e)))
    | Ok _ => let> _ := clocked (CSent (Z.of_nat (length text))) in Ret (Ok tt)
    end.

Definition observe_message (m : ControlTransportMessage) : cprog ControlTransportMessage :=
  match m with
  | Text text => let> _ := clocked (CReceived (Z.of_nat (length text))) in Ret m
  | Closed => Ret m
  end.

(** A read under the authentication timeout.  Pings are passed over; [fuel]
    bounds how many. *)
Fixpoint read_timed (fuel : nat) : cprog (option (result ControlRunError ControlTransportMessage)) :=
  match fuel with
  | O => Ret None
  | S fuel =>
      let> x := cask NextTimed in
      match x with
      | None => Ret (Some (Err RunAuthentication))
      | Some i =>
          match classify_item i with
          | Err e => Ret (Some (Err (from_transport_error e)))
          | Ok None => read_timed fuel
          | Ok (Some m) => let> m := observe_message m in Ret (Some (Ok m))
          end
      end
  end.

(** A program with loops: [None] when the fuel ran out. *)
Abbreviation looping A := (cprog (option (result ControlRunError A))).

Definition loop_bind {A B} (c : looping A) (k : A -> looping B) : looping B :=
  prog_bind c (fun r => match r with
                        | Some (Ok a) => k a
                        | Some (Err e) => Ret (Some (Err e))
                        | None => Ret None
                        end).
Notation "'loop>' x ':=' c 'in' k" := (loop_bind c (fun x => k))
  (at level 10, x pattern, c at level 100, k at level 200) : rust_scope.

Definition finite {A} (c : cio A) : looping A := let> r := c in Ret (Some r).
Definition throw_ {A} (e : ControlRunError) : looping A := Ret (Some (Err e)).

#[export] Instance Readiness_eq_dec : EqDecision Readiness.
Proof. solve_decision. Defined.

Section session.
Context (sha256 : list Z -> list Z) (json_parse : str -> option WireServerMessage)
        (json_print : wire_message -> str).

(** ** Handlers *)

Definition proxy_connection_message (id : str) : cio str :=
  let unavailable reason :=
    Ret (map_err (fun _ => RunProtocol) (encode_proxy_unavailable_message json_print id reason)) in
  let> readiness := cask ReadinessOf in
  if readiness <>b? Readiness.Ready then unavailable NotReady
  else
    let> mesh := cask MeshOf in
    match mesh with
    | Err _ => unavailable InternalError
    | Ok mesh =>
        let admission := ts_admission mesh in
        match admitted_endpoint admission with
        | None => unavailable ProxyUnavailable
        | Some endpoint =>
            if (Transport.state admission <>b? Transport.IsAdmitted) || negb (ts_ingress_running mesh) then
              unavailable ProxyUnavailable
            else
              let> serving := cask ProxyStateOf in
              if serving <>b? ServingRunning then unavailable ProxyUnavailable
              else
                let> proxy := cask ConnectionOf in
                match proxy with
                | None => unavailable CredentialUnavailable
                | Some proxy =>
                    let> mesh_after := cask MeshOf in
                    match mesh_after with
                    | Err _ => unavailable InternalError
                    | Ok mesh_after =>
                        let after := ts_admission mesh_after in
                        let> readiness := cask ReadinessOf in
                        if (readiness <>b? Readiness.Ready)
                           || negb (ts_ingress_running mesh_after)
                           || (Transport.state after <>b? Transport.IsAdmitted)
                           || (admitted_endpoint after <>b? Some endpoint)
                           || (admission_epoch after <>b? admission_epoch admission)
                        then unavailable NotReady
                        else
                          let> matches := cask (ConnectionMatches proxy) in
                          if negb matches then unavailable NotReady
                          else
                            Ret (map_err (fun _ => RunProtocol)
                                   (encode_proxy_ready_message json_print id (ipv4_display endpoint)
                                      MIXED_PORT SOCKS5_PORT HTTP_CONNECT_PORT
                                      (username (material proxy)) (password (material proxy))))
                    end
                end
        end
    end.

Definition handle_get_proxy (id : str) : cio unit :=
  try> message := proxy_connection_message id in write_text_observed message.

Definition encoded {A} (r : result ControlProtocolError A) : cio A := Ret (map_err (fun _ => RunProtocol) r).

Definition send_known_operation (p : PendingRemoteOperation) : cio unit :=
  match operation_id p with
  | None => Ret (Err RunState)
  | Some operation =>
      try> accepted := encoded (encode_accepted_message json_print (request_id p) operation) in
      try> _ := write_text_observed accepted in
      let> _ := clocked (CMark operation MarkAcceptedSent) in
      match result_ p with
      | None => Ret (Ok tt)
      | Some r =>
          try> message := encoded (encode_result_message json_print (request_id p) r (Some operation)) in
          try> _ := write_text_observed message in
          let> _ := clocked (CMark operation MarkResultSent) in
          Ret (Ok tt)
      end
  end.

Definition send_pending_result_if_terminal : cio unit :=
  let> p := clocked CPending in
  match p with
  | None => Ret (Ok tt)
  | Some p =>
      match result_ p with
      | None => Ret (Ok tt)
      | Some r =>
          try> message := encoded (encode_result_message json_print (request_id p) r (operation_id p)) in
          try> _ := write_text_observed message in
          match operation_id p with
          | Some operation => let> _ := clocked (CMark operation MarkResultSent) in Ret (Ok tt)
          | None => Ret (Ok tt)
          end
      end
  end.

(** A prepared rotation: accept it on the wire, then let it run. *)
Definition accept_and_activate (id : str) (operation : Z) : cio unit :=
  try> accepted := encoded (encode_accepted_message json_print id operation) in
  let> written := write_text_observed accepted in
  match written with
  | Err e =>
      let> _ := cask (RotationFailPrepared operation) in
      let> _ := clocked (CAcceptanceFailed id operation) in
      Ret (Err e)
  | Ok _ =>
      let> _ := clocked (CMark operation MarkAcceptedSent) in
      let> activated := cask (RotationActivate operation) in
      match activated with
      | Ok _ => Ret (Ok tt)
      | Err e =>
          let> _ := cask (RotationFailPrepared operation) in
          let> _ := clocked (CActivationFailed id (map_rotation_start_error e)) in
          let> _ := cask NotifyResult in
          Ret (Ok tt)
      end
  end.

Definition handle_rotate_ip (id : str) : cio unit :=
  let> received := cask CNow in
  let> (active, recent) := clocked (CFind id) in
  match active with
  | Some existing =>
      if request_id existing =b? id then send_known_operation existing
      else
        try> rejected := encoded (encode_result_message json_print id RejectedRotation None) in
        write_text_observed rejected
  | None =>
      match recent with
      | Some existing => send_known_operation existing
      | None =>
          let> prepared := cask RotationPrepare in
          match prepared with
          | Err e =>
              let r := map_rotation_start_error e in
              try> rejected := encoded (encode_result_message json_print id r None) in
              try> _ := write_text_observed rejected in
              let> _ := clocked (CLastResult r) in
              Ret (Ok tt)
          | Ok operation =>
              let> reserved := clocked (CReserve id operation received) in
              if negb reserved then
                (* the source asks this while it still holds its own lock *)
                let> _ := cask (RotationFailPrepared operation) in Ret (Err RunState)
              else accept_and_activate id operation
          end
      end
  end.

Definition handle_server_message (text : str) : cio unit :=
  match parse_server_message json_parse text with
  | Err _ => Ret (Err RunProtocol)
  | Ok (RotateIp id) => handle_rotate_ip id
  | Ok (GetProxy id) => handle_get_proxy id
  | Ok (ResultAck id) => let> _ := clocked (CAck id) in Ret (Ok tt)
  | Ok (Challenge _ | Control.Ready) => Ret (Err RunProtocol)
  end.

(** ** The session *)

Definition authenticate (fuel : nat) (identity : ControlDeviceIdentity) : looping unit :=
  loop> challenge := read_timed fuel in
  match challenge with
  | Closed => throw_ RunTransport
  | Text text =>
      match parse_server_message json_parse text with
      | Ok (Challenge nonce) =>
          match canonical_auth_payload (device_id identity) nonce with
          | Err _ => throw_ RunProtocol
          | Ok payload =>
              let> signed := cask (Sign payload) in
              match signed with
              | Err _ => throw_ RunAuthentication
              | Ok der =>
                  match p256_der_signature_to_p1363_b64url der with
                  | Err _ => throw_ RunAuthentication
                  | Ok signature =>
                      loop> auth := finite (encoded (encode_auth_message json_print (device_id identity) signature)) in
                      loop> _ := finite (write_text_observed auth) in
                      loop> ready := read_timed fuel in
                      match ready with
                      | Text text =>
                          match parse_server_message json_parse text with
                          | Ok Control.Ready => Ret (Some (Ok tt))
                          | _ => throw_ RunAuthentication
                          end
                      | Closed => throw_ RunAuthentication
                      end
                  end
              end
          end
      | _ => throw_ RunProtocol
      end
  end.

(** One round of the loop of a ready session; [waiting]: inside [select!], where
    the cancellation flag is not looked at again after a ping. *)
Fixpoint session_loop (fuel : nat) (waiting heartbeat_outstanding : bool) : looping unit :=
  match fuel with
  | O => Ret None
  | S fuel =>
      let> cancelled := if waiting then Ret false else cask CancelValue in
      if cancelled then throw_ Cancelled
      else
        let> event := cask Select in
        match event with
        | SelCancel alive =>
            let> now := if alive then cask CancelValue else Ret true in
            if now then throw_ Cancelled else session_loop fuel false heartbeat_outstanding
        | SelResult =>
            loop> _ := finite send_pending_result_if_terminal in session_loop fuel false heartbeat_outstanding
        | SelTick =>
            if heartbeat_outstanding then throw_ RunTransport
            else loop> _ := finite (write_text_observed CONTROL_HEARTBEAT_REQUEST) in session_loop fuel false true
        | SelItem i =>
            match classify_item i with
            | Err e => throw_ (from_transport_error e)
            | Ok None => session_loop fuel true heartbeat_outstanding
            | Ok (Some m) =>
                let> m := observe_message m in
                match m with
                | Text text =>
                    if text =b? CONTROL_HEARTBEAT_RESPONSE then
                      let> _ := clocked CHeartbeat in session_loop fuel false false
                    else loop> _ := finite (handle_server_message text) in session_loop fuel false heartbeat_outstanding
                | Closed => throw_ RunTransport
                end
            end
        end
  end.

Definition connect_and_run (fuel : nat) (endpoint : ControlEndpoint) (identity : ControlDeviceIdentity) : looping unit :=
  let> connected :=
    raced (connect (control_hostname endpoint) (control_port endpoint) (control_path endpoint) (device_id identity)
             CONTROL_CONNECT_TIMEOUT) in
  match connected with
  | inr alive =>
      let> cancelled := if alive then cask CancelValue else Ret true in
      throw_ (if cancelled then Cancelled else RunTransport)
  | inl (Err e) => throw_ (from_transport_error e)
  | inl (Ok _) =>
      let> _ := clocked CPostConnected in
      let> _ := clocked (CPublish Authenticating 0 0) in
      loop> _ := authenticate fuel identity in
      let> _ := clocked (CPublish SessionReady 0 0) in
      loop> _ := finite send_pending_result_if_terminal in
      session_loop fuel false false
  end.

(** [*cancel.borrow() || self.is_closed()] *)
Definition should_stop : cprog bool :=
  let> cancelled := cask CancelValue in
  if cancelled then Ret true else clocked CIsClosed.

Definition stopped : looping unit :=
  let> _ := clocked (CPublish SessionStopped 0 (nth 0 CONTROL_RECONNECT_DELAYS_MS 0)) in Ret (Some (Ok tt)).

Fixpoint run_loop (fuel : nat) (endpoint : ControlEndpoint) (identity : ControlDeviceIdentity) (failures : Z)
    : looping unit :=
  match fuel with
  | O => Ret None
  | S fuel =>
      let> stop := should_stop in
      if stop then stopped
      else
        let> _ := clocked (CPublish Connecting failures 0) in
        let> _ := clocked CPostConnectAttempt in
        let> r := connect_and_run fuel endpoint identity in
        match r with
        | None => Ret None
        | Some (Err Cancelled) => stopped
        | Some _ =>
            let> stop := should_stop in
            if stop then stopped
            else
              let> last := clocked CSessionState in
              let failures := next_reconnect_failure_count failures last in
              let delay := reconnect_delay_ms failures in
              let> _ := clocked CReconnect in
              let> _ := clocked (CPublish Backoff failures delay) in
              let> event := cask (SelectBackoff delay) in
              match event with
              | WaitCancel alive =>
                  let> now := if alive then cask CancelValue else Ret true in
                  if now then stopped else run_loop fuel endpoint identity failures
              | WaitResult => run_loop fuel endpoint identity 0
              | WaitSlept => run_loop fuel endpoint identity failures
              end
        end
  end.

(** ** Start and shutdown *)

Definition start (spki : list Z) (channel : nat) : cprog (result ControlRuntimeStartError str) :=
  match from_public_key_spki sha256 spki with
  | Err _ => Ret (Err InvalidIdentity)
  | Ok identity =>
      let> began := clocked (CStart (device_id identity) channel) in
      match began with
      | Err e => Ret (Err e)
      | Ok false => Ret (Ok (device_id identity))
      | Ok true =>
          let> spawned := cask SpawnLoop in
          match spawned with
          | None => Ret (Err ControlExecutorUnavailable)
          | Some t => let> _ := clocked (CSetTask t) in Ret (Ok (device_id identity))
          end
      end
  end.

Definition shutdown : cprog bool :=
  let> closing := clocked CClose in
  match closing with
  | None => Ret true
  | Some (cancel, task) =>
      let> _ := match cancel with Some c => cask (SendCancel c) | None => Ret tt end in
      let> _ := cask NotifyResult in
      match task with
      | None => Ret true
      | Some t =>
          let> joined := cask (JoinTimed t) in
          if joined then Ret true else let> _ := cask (Abort t) in Ret false
      end
  end.

Definition observe_rotation (snap : RotationSnapshot) : cprog unit :=
  let> changed := clocked (CObserveRotation snap) in
  if changed then cask NotifyResult else Ret tt.
End session.
