(* ===== verification/ControlSession.v ===== *)
(** * The control session

    What holds of every execution of [ControlRuntime]'s task, whatever the
    server, the network and the neighbouring owners answer: when a rotation may
    start, when the session counts as ready, when it is given up; and what the
    ledger of remote operations records. *)

From Stdlib Require Import String.
From S2P Require Import Prelude Net RustStr Rotation Readiness Lifecycle Transport ProxyAuth Configuration Control RootSession.
From S2P Require Import Interaction RootPolicyRuntime MobileData RotationRuntime.
From S2P Require Import ControlTransport ControlRuntime.

Abbreviation cev := (event control_request control_reply).
Abbreviation cdid := (@existT control_request control_reply).

(** ** Plain requests *)

(** Requests no discipline of the session is about. *)
Definition plain (r : control_request) : Prop :=
  match r with
  | RotationActivate _ | RotationPrepare | Select | SelectBackoff _ => False
  | CLocked (CPublish _ _ _ | CHeartbeat | CReserve _ _ _ | CFind _) => False
  | _ => True
  end.

Create HintDb plain.

Lemma only_ask {A} P r (k : control_reply r -> cprog A) :
  P r -> (forall x, only P (k x)) -> only P (prog_bind (cask r) k).
Proof. by split. Qed.

Lemma only_clocked {A} P l (k : csection_reply l -> cprog A) :
  P (CLocked l) -> (forall x, only P (k x)) -> only P (prog_bind (clocked l) k).
Proof. by split. Qed.

Ltac plain :=
  repeat match goal with
  | |- only _ (Ret _) => exact I
  | |- only _ (throw_ _) => exact I
  | |- only _ (encoded _) => exact I
  | |- only _ (prog_bind (cask _) _) => apply only_ask; [exact I|intros ?]
  | |- only _ (prog_bind (clocked _) _) => apply only_clocked; [exact I|intros ?]
  | |- only _ (prog_bind _ _) => apply only_bind; [|intros ?]
  | |- only _ (try_bind _ _) => unfold try_bind
  | |- only _ (loop_bind _ _) => unfold loop_bind
  | |- only _ (finite _) => unfold finite
  | |- only _ (cask _) => split; [exact I|intros ?; exact I]
  | |- only _ (clocked _) => split; [exact I|intros ?; exact I]
  | |- only _ (match ?x with _ => _ end) => destruct x
  | |- only _ (if ?x then _ else _) => destruct x
  | |- only _ (let '(_, _) := ?x in _) => destruct x
  | |- only _ _ => solve [auto with plain]
  end.

Lemma plain_write text : only plain (write_text_observed text).
Proof. unfold write_text_observed. plain. Qed.

Lemma plain_observe m : only plain (observe_message m).
Proof. unfold observe_message. plain. Qed.
#[export] Hint Resolve plain_write plain_observe : plain.

Lemma plain_read fuel : only plain (read_timed fuel).
Proof. induction fuel; cbn [read_timed]; plain. Qed.
#[export] Hint Resolve plain_read : plain.

Lemma plain_raced {A} (p : kprog A) : only plain (raced p).
Proof. induction p as [a|r k IH]; cbn [raced only]; [exact I|]. split; [exact I|]. intros [x|b]; [apply IH|exact I]. Qed.
#[export] Hint Resolve plain_raced : plain.

Section discipline.
Context (sha256 : list Z -> list Z) (json_parse : str -> option WireServerMessage)
        (json_print : wire_message -> str).

Lemma plain_get_proxy id : only plain (handle_get_proxy json_print id).
Proof. unfold handle_get_proxy, proxy_connection_message. plain. Qed.

Lemma plain_known p : only plain (send_known_operation json_print p).
Proof. unfold send_known_operation. plain. Qed.

Lemma plain_result : only plain (send_pending_result_if_terminal json_print).
Proof. unfold send_pending_result_if_terminal. plain. Qed.

Lemma plain_authenticate fuel identity : only plain (authenticate json_parse json_print fuel identity).
Proof. unfold authenticate. plain. Qed.

Lemma plain_stop : only plain should_stop.
Proof. unfold should_stop. plain. Qed.
End discipline.
#[export] Hint Resolve plain_get_proxy plain_known plain_result plain_authenticate plain_stop : plain.

(** ** Disciplines that look back a fixed way *)

Section everywhere.
Context (safe : list cev -> control_request -> Prop).

(** Every step of [p] is safe, whatever came before. *)
Definition everywhere {A} (p : cprog A) : Prop := forall t, always (fun _ _ => True) (fun t r _ => safe t r) p t.

Lemma everywhere_bind {A B} (p : cprog A) (k : A -> cprog B) :
  everywhere p -> (forall a, everywhere (k a)) -> everywhere (prog_bind p k).
Proof. intros Hp Hk t. apply always_bind; [apply Hp|intros a t'; apply Hk]. Qed.

Lemma everywhere_only {A} (P : control_request -> Prop) (p : cprog A) :
  (forall t r, P r -> safe t r) -> only P p -> everywhere p.
Proof. intros HP Hp t. eapply only_always; [|exact Hp]. intros t' r _. apply HP. Qed.

Lemma everywhere_ask r : (forall t, safe t r) -> everywhere (cask r).
Proof. intros H t x _. split; [apply H|exact I]. Qed.

Lemma everywhere_ret {A} (a : A) : everywhere (Ret a).
Proof. intros t. exact I. Qed.
End everywhere.

Create HintDb everywhere.
#[export] Hint Resolve everywhere_ret : everywhere.

Ltac everywhere :=
  repeat match goal with
  | |- everywhere _ (Ret _) => apply everywhere_ret
  | |- everywhere _ (throw_ _) => apply everywhere_ret
  | |- everywhere _ (prog_bind _ _) => apply everywhere_bind; [|intros ?]
  | |- everywhere _ (loop_bind _ _) => unfold loop_bind
  | |- everywhere _ (try_bind _ _) => unfold try_bind
  | |- everywhere _ (finite _) => unfold finite
  | |- everywhere _ (match ?x with _ => _ end) => destruct x
  | |- everywhere _ (if ?x then _ else _) => destruct x
  | |- everywhere _ (clocked _) => unfold clocked
  | |- everywhere _ (cask _) => apply everywhere_ask; intros ?; exact I
  | |- everywhere _ _ => solve [auto with everywhere]
  end.

(** ** Acceptance before mutation *)

Section acceptance.
Context (sha256 : list Z -> list Z) (json_parse : str -> option WireServerMessage)
        (json_print : wire_message -> str).

Definition accepted_on_wire (id : str) (operation : Z) (t : list cev) : Prop :=
  exists text received t0, encode_accepted_message json_print id operation = Ok text /\
    t = t0 ++ [cdid (CLocked (CReserve id operation received)) true; cdid (Send text) (Ok tt);
               cdid (CLocked (CSent (Z.of_nat (length text)))) tt; cdid (CLocked (CMark operation MarkAcceptedSent)) tt].

Definition acceptance_safe (t : list cev) (r : control_request) : Prop :=
  match r with
  | RotationActivate operation => exists id, accepted_on_wire id operation t
  | RotationPrepare => exists id t0, t = t0 ++ [cdid (CLocked (CFind id)) (None, None)]
  | _ => True
  end.

Lemma plain_acceptance {A} (p : cprog A) : only plain p -> everywhere acceptance_safe p.
Proof. apply everywhere_only. intros t r. by destruct r. Qed.

Lemma accept_and_activate_safe id operation received t0 :
  always (fun _ _ => True) (fun t r _ => acceptance_safe t r) (accept_and_activate json_print id operation)
    (t0 ++ [cdid (CLocked (CReserve id operation received)) true]).
Proof.
  unfold accept_and_activate, try_bind, encoded. cbn [prog_bind].
  destruct (encode_accepted_message json_print id operation) as [text|e] eqn:He; [|exact I]. cbn [map_err prog_bind].
  unfold write_text_observed. destruct (CONTROL_WIRE_MAX_BYTES <? _).
  { cbn [prog_bind]. apply plain_acceptance. plain. }
  intros sent _. split; [exact I|]. destruct sent as [[]|e]; cbn [prog_bind].
  2: { apply plain_acceptance. plain. }
  intros [] _. split; [exact I|]. cbn [prog_bind]. intros [] _. split; [exact I|]. cbn [prog_bind].
  intros activated _. split.
  { exists id, text, received, t0. split; [done|]. by rewrite <- !app_assoc. }
  destruct activated; [exact I|]. apply plain_acceptance. plain.
Qed.

Lemma handle_rotate_ip_safe id : everywhere acceptance_safe (handle_rotate_ip json_print id).
Proof.
  intros t. unfold handle_rotate_ip. intros received _. split; [exact I|]. cbn [prog_bind].
  intros [[existing|] recent] _; (split; [exact I|]); cbn [prog_bind].
  { apply plain_acceptance. plain. }
  destruct recent as [existing|]; [apply plain_acceptance; plain|].
  intros prepared _. split; [by eexists _, _|]. destruct prepared as [operation|e]; cbn [prog_bind].
  2: { apply plain_acceptance. plain. }
  intros [] _; (split; [exact I|]); cbn [prog_bind negb].
  - apply accept_and_activate_safe.
  - apply plain_acceptance. plain.
Qed.

Lemma handle_server_message_safe text : everywhere acceptance_safe (handle_server_message json_parse json_print text).
Proof.
  unfold handle_server_message. destruct (parse_server_message _ _) as [[]|]; try apply everywhere_ret.
  - apply handle_rotate_ip_safe.
  - apply plain_acceptance. plain.
  - apply plain_acceptance. plain.
Qed.

Lemma session_loop_acceptance fuel w hb : everywhere acceptance_safe (session_loop json_parse json_print fuel w hb).
Proof.
  revert w hb. induction fuel as [|fuel IH]; intros w hb; cbn [session_loop]; [apply everywhere_ret|].
  pose proof handle_server_message_safe. pose proof (plain_acceptance _ (plain_result json_print)).
  pose proof (fun t => plain_acceptance _ (plain_write t)). pose proof (fun m => plain_acceptance _ (plain_observe m)).
  everywhere.
Qed.

Lemma run_loop_acceptance fuel endpoint identity failures :
  everywhere acceptance_safe (run_loop json_parse json_print fuel endpoint identity failures).
Proof.
  revert failures. induction fuel as [|fuel IH]; intros failures; cbn [run_loop]; [apply everywhere_ret|].
  pose proof (plain_acceptance _ plain_stop).
  assert (everywhere acceptance_safe (connect_and_run json_parse json_print fuel endpoint identity)).
  { unfold connect_and_run. pose proof (fun A (p : kprog A) => plain_acceptance _ (plain_raced p)).
    pose proof session_loop_acceptance. pose proof (plain_acceptance _ (plain_result json_print)).
    pose proof (plain_acceptance _ (plain_authenticate json_parse json_print fuel identity)). everywhere. }
  assert (everywhere acceptance_safe stopped) by (unfold stopped; everywhere). everywhere.
Qed.
End acceptance.

(** ** Ready means authenticated *)

Section login.
Context (json_parse : str -> option WireServerMessage) (json_print : wire_message -> str).
Context (identity : ControlDeviceIdentity).

Definition received (text : str) : list cev :=
  [cdid NextTimed (Some (Some (Ok (MText text)))); cdid (CLocked (CReceived (Z.of_nat (length text)))) tt].

(** Reads that were pings. *)
Definition passed_over (e : cev) : Prop :=
  match e with existT NextTimed (Some i) => classify_item i = Ok None | _ => False end.

(** A login: the server's challenge, its signature by the device key over the
    canonical payload, sent as this device, and the server's confirmation. *)
Definition login (t : list cev) : Prop :=
  exists challenge nonce payload der signature auth pings1 pings2 confirmation,
    t = pings1 ++ received challenge ++ [cdid (Sign payload) (Ok der)] ++
        [cdid (Send auth) (Ok tt); cdid (CLocked (CSent (Z.of_nat (length auth)))) tt] ++
        pings2 ++ received confirmation /\
    Forall passed_over pings1 /\ Forall passed_over pings2 /\
    parse_server_message json_parse challenge = Ok (Challenge nonce) /\
    canonical_auth_payload (device_id identity) nonce = Ok payload /\
    p256_der_signature_to_p1363_b64url der = Ok signature /\
    encode_auth_message json_print (device_id identity) signature = Ok auth /\
    parse_server_message json_parse confirmation = Ok Control.Ready.

Definition ready_safe (t : list cev) (r : control_request) : Prop :=
  match r with
  | CLocked (CPublish SessionReady _ _) => exists t0 t1, t = t0 ++ t1 /\ login t1
  | _ => True
  end.

Lemma emits_observe m : emits (observe_message m) (fun t m' => m' = m /\
  t = match m with Text text => [cdid (CLocked (CReceived (Z.of_nat (length text)))) tt] | Closed => [] end).
Proof. destruct m as [text|]; [|by split]. apply emits_do. intros []. by split. Qed.

Lemma emits_read fuel : emits (read_timed fuel) (fun t r => forall text, r = Some (Ok (Text text)) ->
  exists pings, t = pings ++ received text /\ Forall passed_over pings).
Proof.
  induction fuel as [|fuel IH]; cbn [read_timed]; [by intros text|].
  apply emits_do. intros [i|]; [|by intros text].
  destruct (classify_item i) as [[m|]|e] eqn:Hi; cbn [prog_bind]; [| |by intros text].
  - apply emits_bind. eapply emits_mono; [|apply emits_observe]. intros t m' [-> ->].
    apply emits_ret. intros text [= ->]. exists []. split; [|done]. cbn [app]. unfold received.
    destruct i as [[mm|]|]; cbn [classify_item] in Hi; [|discriminate..].
    destruct mm; cbn [classify_message] in Hi; try discriminate. destruct (_ <? _); [discriminate|]. by injection Hi as ->.
  - eapply emits_mono; [|exact IH]. intros t r H text Hr. destruct (H text Hr) as (pings & -> & Hp).
    exists (cdid NextTimed (Some i) :: pings). split; [done|]. by constructor.
Qed.

Lemma emits_write text : emits (write_text_observed text) (fun t r => r = Ok tt ->
  t = [cdid (Send text) (Ok tt); cdid (CLocked (CSent (Z.of_nat (length text)))) tt]).
Proof.
  unfold write_text_observed. destruct (_ <? _); [by intros|]. apply emits_do. intros [[]|e]; [|by intros].
  apply emits_do. by intros [] _.
Qed.

Lemma emits_authenticate fuel :
  emits (authenticate json_parse json_print fuel identity) (fun t r => r = Some (Ok tt) -> login t).
Proof.
  unfold authenticate, loop_bind. apply emits_bind. eapply emits_mono; [|apply emits_read].
  intros t1 [[[challenge|]|e]|] H1; try (apply emits_ret; by intros).
  destruct (H1 _ eq_refl) as (pings1 & -> & Hp1). clear H1.
  destruct (parse_server_message json_parse challenge) as [[nonce| | | |]|] eqn:Hc; try (apply emits_ret; by intros).
  destruct (canonical_auth_payload _ nonce) as [payload|] eqn:Hpay; [|apply emits_ret; by intros].
  apply emits_do. intros [der|]; cbn [prog_bind]; [|apply emits_ret; by intros].
  destruct (p256_der_signature_to_p1363_b64url der) as [signature|] eqn:Hs; [|apply emits_ret; by intros].
  unfold finite, encoded. cbn [prog_bind].
  destruct (encode_auth_message _ _ _) as [auth|] eqn:Ha; cbn [map_err]; [|apply emits_ret; by intros].
  apply emits_bind, emits_bind. eapply emits_mono; [|apply emits_write].
  intros t2 [[]|e] H2; apply emits_ret; [|apply emits_ret; by intros]. specialize (H2 eq_refl). subst t2.
  apply emits_bind. eapply emits_mono; [|apply emits_read].
  intros t3 [[[confirmation|]|e]|] H3; try (apply emits_ret; by intros).
  destruct (H3 _ eq_refl) as (pings2 & -> & Hp2).
  destruct (parse_server_message json_parse confirmation) as [[]|] eqn:Hr; apply emits_ret; try by intros.
  intros _. exists challenge, nonce, payload, der, signature, auth, pings1, pings2, confirmation. split_and!; try done.
  by rewrite ?app_nil_r, <- ?app_assoc.
Qed.

Lemma plain_ready {A} (p : cprog A) : only plain p -> everywhere ready_safe p.
Proof. apply everywhere_only. intros t r. by destruct r as [[]| | | | | | | | | | | | | | | | | | | | |]. Qed.

(** Requests that do not declare the session ready. *)
Definition undeclaring (r : control_request) : Prop :=
  match r with CLocked (CPublish SessionReady _ _) => False | _ => True end.

Lemma undeclaring_ready {A} (p : cprog A) : only undeclaring p -> everywhere ready_safe p.
Proof.
  apply everywhere_only. intros t r. destruct r as [[]| | | | | | | | | | | | | | | | | | | | |]; try done. by destruct st.
Qed.

Lemma plain_undeclaring {A} (p : cprog A) : only plain p -> only undeclaring p.
Proof. apply only_mono. intros r. by destruct r as [[]| | | | | | | | | | | | | | | | | | | | |]. Qed.

Lemma rotate_undeclaring id : only undeclaring (handle_rotate_ip json_print id).
Proof.
  pose proof (fun p => plain_undeclaring _ (plain_known json_print p)). pose proof (fun p => plain_undeclaring _ (plain_write p)).
  unfold handle_rotate_ip, accept_and_activate. plain; auto.
Qed.

Lemma session_loop_undeclaring fuel w hb : only undeclaring (session_loop json_parse json_print fuel w hb).
Proof.
  revert w hb. induction fuel as [|fuel IH]; intros w hb; cbn [session_loop]; [exact I|].
  pose proof rotate_undeclaring. pose proof (fun p => plain_undeclaring _ (plain_write p)).
  pose proof (fun p => plain_undeclaring _ (plain_get_proxy json_print p)).
  pose proof (fun m => plain_undeclaring _ (plain_observe m)). pose proof (plain_undeclaring _ (plain_result json_print)).
  unfold handle_server_message. plain; auto.
Qed.

Lemma connect_and_run_ready fuel endpoint :
  everywhere ready_safe (connect_and_run json_parse json_print fuel endpoint identity).
Proof.
  intros t. unfold connect_and_run. apply always_bind; [apply plain_ready, plain_raced|]. intros [[[]|e]|alive] t1; try exact I.
  2: { destruct alive; [|exact I]. apply plain_ready. plain. }
  intros [] _. split; [exact I|]. cbn [prog_bind]. intros [] _. split; [exact I|]. cbn [prog_bind].
  apply (always_bind_emits (fun t r => r = Some (Ok tt) -> login t)); [apply emits_authenticate| |].
  { apply plain_ready, plain_authenticate. }
  intros [[[]|e]|] t2 H2; try exact I. intros [] _. split; [by eexists _, _; split; [|apply H2]|]. cbn [prog_bind].
  apply everywhere_bind; [|intros [[[]|]|]; try apply everywhere_ret].
  - apply plain_ready. plain.
  - apply undeclaring_ready, session_loop_undeclaring.
Qed.

Lemma run_loop_ready fuel endpoint failures :
  everywhere ready_safe (run_loop json_parse json_print fuel endpoint identity failures).
Proof.
  revert failures. induction fuel as [|fuel IH]; intros failures; cbn [run_loop]; [apply everywhere_ret|].
  pose proof (plain_ready _ plain_stop). pose proof (connect_and_run_ready fuel endpoint).
  assert (everywhere ready_safe stopped) by (unfold stopped; everywhere). everywhere.
Qed.
End login.

(** ** Heartbeats and pauses *)

(** A heartbeat is out: a tick since the last acknowledgement, in this session. *)
Definition outstanding (t : list cev) : bool :=
  fold_left (fun out e =>
    match e with
    | existT Select SelTick => true
    | existT (CLocked CHeartbeat) _ => false
    | existT (CLocked (CPublish _ _ _)) _ => false
    | _ => out
    end) t false.

(** After a tick, something is sent only if the last heartbeat was answered; a
    pause is between half a second and five seconds. *)
Definition liveness_safe (t : list cev) (r : control_request) : Prop :=
  match r with
  | Send _ => forall t0, t = t0 ++ [cdid Select SelTick] -> outstanding t0 = false
  | SelectBackoff delay => 500 <= delay <= 5000
  | _ => True
  end.

Lemma reconnect_delay_range failures : 500 <= reconnect_delay_ms failures <= 5000.
Proof.
  unfold reconnect_delay_ms. set (i := Z.to_nat _). assert (i < 5)%nat as Hi.
  { unfold i, saturating_sub. cbn [length CONTROL_RECONNECT_DELAYS_MS]. lia. }
  unfold CONTROL_RECONNECT_DELAYS_MS. do 5 (destruct i as [|i]; [cbn; lia|]). lia.
Qed.

(** Whatever is done about a message leaves the heartbeat as it is. *)
Definition no_beat (r : control_request) : Prop :=
  match r with Select | CLocked (CHeartbeat | CPublish _ _ _) | SelectBackoff _ => False | _ => True end.

Lemma outstanding_app t t' : Forall (fun e => no_beat (projT1 e)) t' -> outstanding (t ++ t') = outstanding t.
Proof.
  intros H. unfold outstanding. rewrite fold_left_app. set (b := fold_left _ t false). clearbody b. revert b.
  induction H as [|[r x] t' Hr _ IH]; intros b; cbn [fold_left]; [done|].
  destruct r as [[]| | | | | | | | | | | | | | | | | | | | |]; cbn in Hr; try done; apply IH.
Qed.

Lemma plain_no_beat {A} (p : cprog A) : only plain p -> only no_beat p.
Proof. apply only_mono. intros r. by destruct r as [[]| | | | | | | | | | | | | | | | | | | | |]. Qed.

(** The last event is not a tick. *)
Definition calm (t : list cev) : Prop := forall t0, t <> t0 ++ [cdid Select SelTick].

Lemma calm_app t t' : calm t -> Forall (fun e => no_beat (projT1 e)) t' -> calm (t ++ t').
Proof.
  intros Ht Ht'. destruct t' as [|e t' _] using rev_ind; [by rewrite app_nil_r|].
  apply Forall_app in Ht' as [_ He%Forall_inv]. rewrite app_assoc. intros t0 [_ E]%app_inj_tail. subst e. done.
Qed.

Lemma calm_always {A} (p : cprog A) t :
  only no_beat p -> calm t -> always (fun _ _ => True) (fun t r _ => liveness_safe t r) p t.
Proof.
  revert t. induction p as [a|r k IH]; intros t Hp Ht; [exact I|]. destruct Hp as [Hr Hp]. intros x _. split.
  - destruct r; try exact I; [done|]. intros t0 E. by destruct (Ht t0).
  - apply IH; [apply Hp|]. apply calm_app; [done|]. by repeat constructor.
Qed.

Section liveness.
Context (json_parse : str -> option WireServerMessage) (json_print : wire_message -> str).

Abbreviation live p t := (always (fun _ _ => True) (fun t r _ => liveness_safe t r) p t).

(** A part that leaves the heartbeat alone, then the rest. *)
Lemma live_bind {A B} (p : cprog A) (k : A -> cprog B) t :
  only no_beat p -> calm t ->
  (forall a t', calm t' -> outstanding t' = outstanding t -> live (k a) t') -> live (prog_bind p k) t.
Proof.
  intros Hp Ht Hk. apply (always_bind_only no_beat); [done|by apply calm_always|].
  intros a t' Ht'. apply Hk; [by apply calm_app|by apply outstanding_app].
Qed.

Lemma handle_no_beat text : only no_beat (handle_server_message json_parse json_print text).
Proof.
  pose proof (fun p => plain_no_beat _ (plain_known json_print p)). pose proof (fun p => plain_no_beat _ (plain_write p)).
  pose proof (fun p => plain_no_beat _ (plain_get_proxy json_print p)).
  unfold handle_server_message, handle_rotate_ip, accept_and_activate. plain; auto.
Qed.

Lemma calm_event t r x : r <> Select -> calm (t ++ [cdid r x]).
Proof. intros Hr t0 [_ E]%app_inj_tail. apply Hr. by injection E. Qed.

Lemma calm_select t x : x <> SelTick -> calm (t ++ [cdid Select x]).
Proof.
  intros Hx t0 [_ E]%app_inj_tail. apply Hx.
  by apply (f_equal (fun e => match e with existT Select y => y | _ => x end)) in E.
Qed.

Lemma outstanding_select t x : x <> SelTick -> outstanding (t ++ [cdid Select x]) = outstanding t.
Proof. intros Hx. unfold outstanding. rewrite fold_left_app. by destruct x. Qed.

Lemma outstanding_tick t : outstanding (t ++ [cdid Select SelTick]) = true.
Proof. unfold outstanding. by rewrite fold_left_app. Qed.

Lemma outstanding_reset t st attempts delay x :
  outstanding (t ++ [cdid (CLocked (CPublish st attempts delay)) x]) = false /\
  outstanding (t ++ [cdid (CLocked CHeartbeat) x]) = false.
Proof. unfold outstanding. by rewrite !fold_left_app. Qed.

Lemma session_loop_live fuel w hb t :
  calm t -> outstanding t = hb -> live (session_loop json_parse json_print fuel w hb) t.
Proof.
  revert w hb t. induction fuel as [|fuel IH]; intros w hb t Hc Ho; cbn [session_loop]; [exact I|].
  apply live_bind; [destruct w; plain|done|]. intros [] t1 Hc1 Ho1; [exact I|].
  intros ev _. split; [exact I|]. cbn [prog_bind]. destruct ev as [alive| | |i].
  - apply live_bind; [destruct alive; plain|by apply calm_select|]. intros [] t2 Hc2 Ho2; [exact I|].
    apply IH; [done|]. rewrite Ho2, outstanding_select by done. congruence.
  - unfold loop_bind. apply live_bind; [apply plain_no_beat; plain|by apply calm_select|].
    intros [[[]|]|] t2 Hc2 Ho2; try exact I. apply IH; [done|]. rewrite Ho2, outstanding_select by done. congruence.
  - destruct hb; [exact I|]. unfold loop_bind, finite, write_text_observed. destruct (_ <? _); [exact I|].
    intros sent _. split.
    { intros t0 [-> _]%app_inj_tail. congruence. }
    destruct sent as [[]|e]; [|exact I]. cbn [prog_bind]. intros [] _. split; [exact I|]. cbn [prog_bind].
    apply IH; [by apply calm_event|]. rewrite <- app_assoc, outstanding_app; [apply outstanding_tick|by repeat constructor].
  - destruct (classify_item i) as [[m|]|e]; [| |exact I].
    2: { apply IH; [by apply calm_select|]. rewrite outstanding_select by done. congruence. }
    apply live_bind; [apply plain_no_beat; plain|by apply calm_select|].
    intros [text|] t2 Hc2 Ho2; [|exact I]. rewrite outstanding_select in Ho2 by done. destruct (text =b? _).
    + intros [] _. split; [exact I|]. cbn [prog_bind]. apply IH; [by apply calm_event|].
      by apply (outstanding_reset t2 SessionReady 0 0).
    + unfold loop_bind, finite. apply live_bind; [|done|].
      { apply only_bind; [apply handle_no_beat|intros ?; exact I]. }
      intros [[[]|]|] t3 Hc3 Ho3; try exact I. apply IH; [done|]. congruence.
Qed.

Lemma connect_and_run_live fuel endpoint identity t :
  calm t -> live (connect_and_run json_parse json_print fuel endpoint identity) t.
Proof.
  intros Hc. unfold connect_and_run. apply live_bind; [apply plain_no_beat, plain_raced|done|].
  intros [[[]|e]|alive] t1 Hc1 _; try exact I.
  2: { apply calm_always; [|done]. destruct alive; [plain|exact I]. }
  intros [] _. split; [exact I|]. cbn [prog_bind]. intros [] _. split; [exact I|]. cbn [prog_bind].
  apply live_bind; [apply plain_no_beat, plain_authenticate|by apply calm_event|].
  intros [[[]|e]|] t2 Hc2 _; try exact I. intros [] _. split; [exact I|]. cbn [prog_bind].
  unfold loop_bind. apply live_bind; [apply plain_no_beat; plain|by apply calm_event|].
  intros [[[]|]|] t3 Hc3 Ho3; try exact I. apply session_loop_live; [done|]. rewrite Ho3. by apply outstanding_reset.
Qed.

(** The first request of [should_stop] is a look at the flag. *)
Lemma live_should_stop {A} (k : bool -> cprog A) t :
  (forall b t', calm t' -> live (k b) t') -> live (prog_bind should_stop k) t.
Proof.
  intros Hk. unfold should_stop. intros c _. split; [exact I|]. cbn [prog_bind]. destruct c; cbn [prog_bind].
  - apply Hk. by apply calm_event.
  - intros b _. split; [exact I|]. apply Hk. by apply calm_event.
Qed.

Lemma stopped_live t : live stopped t.
Proof. intros [] _. split; exact I. Qed.

Lemma run_loop_live fuel endpoint identity failures t :
  live (run_loop json_parse json_print fuel endpoint identity failures) t.
Proof.
  revert failures t. induction fuel as [|fuel IH]; intros failures t; cbn [run_loop]; [exact I|].
  apply live_should_stop. intros [] t1 Hc1; [apply stopped_live|].
  intros [] _. split; [exact I|]. cbn [prog_bind]. intros [] _. split; [exact I|]. cbn [prog_bind].
  apply always_bind; [apply connect_and_run_live; by apply calm_event|]. intros r t2.
  assert (forall t, live (prog_bind should_stop (fun stop =>
    if stop then stopped else
    let> last := clocked CSessionState in
    let failures := next_reconnect_failure_count failures last in
    let delay := reconnect_delay_ms failures in
    let> _ := clocked CReconnect in
    let> _ := clocked (CPublish Backoff failures delay) in
    let> event := cask (SelectBackoff delay) in
    match event with
    | WaitCancel alive =>
        let> now := if alive then cask CancelValue else Ret true in
        if now then stopped else run_loop json_parse json_print fuel endpoint identity failures
    | WaitResult => run_loop json_parse json_print fuel endpoint identity 0
    | WaitSlept => run_loop json_parse json_print fuel endpoint identity failures
    end)) t) as Hpause.
  { intros t3. apply live_should_stop. intros [] t4 Hc4; [apply stopped_live|].
    intros last _. split; [exact I|]. cbn [prog_bind]. intros [] _. split; [exact I|]. cbn [prog_bind].
    intros [] _. split; [exact I|]. cbn [prog_bind]. intros ev _. split; [apply reconnect_delay_range|]. cbn [prog_bind].
    destruct ev as [alive| |]; [|apply IH..]. apply always_bind; [destruct alive; [by intros ? _|exact I]|].
    intros [] t5; [apply stopped_live|apply IH]. }
  destruct r as [[[]|[]]|]; [apply Hpause|apply stopped_live|apply Hpause..|exact I].
Qed.
End liveness.

(** ** What the handlers do *)

Section handlers.
Context (json_print : wire_message -> str).

(** A prepared rotation is let run, or failed. *)
Definition resolved (t : list cev) : Prop :=
  forall operation, cdid RotationPrepare (Ok operation) ∈ t -> operation <> 0 ->
    cdid (RotationActivate operation) (Ok tt) ∈ t \/ exists b, cdid (RotationFailPrepared operation) b ∈ t.

Definition no_prepare (r : control_request) : Prop := match r with RotationPrepare => False | _ => True end.

Lemma resolved_no_prepare t : Forall (fun e => no_prepare (projT1 e)) t -> resolved t.
Proof. intros H operation Hin. rewrite Forall_forall in H. apply list_elem_of_In in Hin. by destruct (H _ Hin). Qed.

Lemma plain_resolved {A} (p : cprog A) t0 :
  only plain p -> Forall (fun e => no_prepare (projT1 e)) t0 -> emits p (fun t _ => resolved (t0 ++ t)).
Proof.
  intros Hp Ht0. eapply emits_mono; [|apply (emits_only no_prepare)].
  - intros t a Ht. apply resolved_no_prepare, Forall_app. by split.
  - eapply only_mono; [|exact Hp]. intros r. by destruct r.
Qed.

Lemma prepare_inj a b : cdid RotationPrepare (Ok a) = cdid RotationPrepare (Ok b) -> a = b.
Proof. intros E. by apply (f_equal (fun e => match e with existT RotationPrepare (Ok o) => o | _ => a end)) in E. Qed.

Lemma prepare_err a e : cdid RotationPrepare (Ok a) <> cdid RotationPrepare (Err e).
Proof.
  intros E. by apply (f_equal (fun e => match e with existT RotationPrepare (Ok _) => true | _ => false end)) in E.
Qed.

(** A prepare among the events of [pre], at its head or in [t]. *)
Lemma resolved_prepared pre operation t :
  Forall (fun e => no_prepare (projT1 e)) pre -> Forall (fun e => no_prepare (projT1 e)) t ->
  (operation <> 0 -> cdid (RotationActivate operation) (Ok tt) ∈ t \/ exists b, cdid (RotationFailPrepared operation) b ∈ t) ->
  resolved (pre ++ cdid RotationPrepare (Ok operation) :: t).
Proof.
  intros Hpre Ht H o Hin Ho. apply elem_of_app in Hin as [Hin|[Hin|Hin]%elem_of_cons].
  - rewrite Forall_forall in Hpre. apply list_elem_of_In in Hin. by destruct (Hpre _ Hin).
  - apply prepare_inj in Hin as ->. destruct (H Ho) as [Ha|[b Hb]]; [left|right; exists b];
      apply elem_of_app; right; by apply elem_of_cons; right.
  - rewrite Forall_forall in Ht. apply list_elem_of_In in Hin. by destruct (Ht _ Hin).
Qed.

Lemma rotate_resolved id :
  validate_request_id id = Ok tt ->
  (forall operation, Z.of_nat (length (json_print (WireAccepted CONTROL_PROTOCOL_VERSION (lit "ACCEPTED") id operation)))
     <= CONTROL_WIRE_MAX_BYTES) ->
  emits (handle_rotate_ip json_print id) (fun t _ => resolved t).
Proof.
  intros Hid Hsize. unfold handle_rotate_ip. apply emits_do. intros received. cbn [prog_bind]. apply emits_do.
  intros [[existing|] recent]; cbn [prog_bind].
  { apply (plain_resolved _ [_; _]); [plain|by repeat constructor]. }
  destruct recent as [existing|]; [apply (plain_resolved _ [_; _]); [plain|by repeat constructor]|].
  apply emits_do. intros [operation|e]; cbn [prog_bind].
  2: { eapply emits_mono; [|apply (emits_only no_prepare); plain; auto].
       - intros t a Ht o Hin Ho. exfalso. rewrite !elem_of_cons in Hin.
         destruct Hin as [Hin|[Hin|[Hin%prepare_err|Hin]]]; try discriminate Hin; [done|].
         rewrite Forall_forall in Ht. apply list_elem_of_In in Hin. by destruct (Ht _ Hin).
       - eapply only_mono; [|apply plain_write]. intros r. by destruct r. }
  apply emits_do. intros [].
  2: { apply emits_do. intros b. apply emits_ret. apply (resolved_prepared [_; _]); [by repeat constructor..|].
       intros _. right. exists b. rewrite !elem_of_cons. auto. }
  cbn [prog_bind negb]. unfold accept_and_activate, try_bind, encoded. cbn [prog_bind].
  unfold encode_accepted_message. rewrite Hid. cbn [result_bind]. destruct (Z.eqb_spec operation 0) as [->|Ho].
  { apply emits_ret. by apply (resolved_prepared [_; _]); [by repeat constructor..|]. }
  unfold encode_wire. destruct (Z.ltb_spec CONTROL_WIRE_MAX_BYTES (Z.of_nat (length (json_print
    (WireAccepted CONTROL_PROTOCOL_VERSION (lit "ACCEPTED") id operation))))) as [Hl|Hl]; [specialize (Hsize operation); lia|].
  cbn [map_err]. unfold write_text_observed. rewrite (proj2 (Z.ltb_ge _ _)) by done.
  apply emits_do. intros [[]|e]; cbn [prog_bind].
  2: { apply emits_do. intros b. apply emits_do. intros b'. apply emits_ret.
       apply (resolved_prepared [_; _]); [by repeat constructor..|]. intros _. right. exists b. rewrite !elem_of_cons. auto. }
  apply emits_do. intros []. apply emits_do. intros []. apply emits_do. intros [[]|e]; cbn [prog_bind].
  { apply emits_ret. apply (resolved_prepared [_; _]); [by repeat constructor..|]. intros _. left. rewrite !elem_of_cons. tauto. }
  apply emits_do. intros b. apply emits_do. intros []. apply emits_do. intros []. apply emits_ret.
  apply (resolved_prepared [_; _]); [by repeat constructor..|]. intros _. right. exists b. rewrite !elem_of_cons. tauto.
Qed.

(** The proxy's address and secret were read, and then found unchanged. *)
Definition offered (id text : str) (t : list cev) : Prop :=
  exists mesh mesh' proxy endpoint,
    t = [cdid ReadinessOf Readiness.Ready; cdid MeshOf (Ok mesh); cdid ProxyStateOf ServingRunning;
         cdid ConnectionOf (Some proxy); cdid MeshOf (Ok mesh'); cdid ReadinessOf Readiness.Ready;
         cdid (ConnectionMatches proxy) true] /\
    Forall (fun m => Transport.state (ts_admission m) = Transport.IsAdmitted /\ ts_ingress_running m = true /\
                     admitted_endpoint (ts_admission m) = Some endpoint) [mesh; mesh'] /\
    admission_epoch (ts_admission mesh') = admission_epoch (ts_admission mesh) /\
    encode_proxy_ready_message json_print id (ipv4_display endpoint) MIXED_PORT SOCKS5_PORT HTTP_CONNECT_PORT
      (username (material proxy)) (password (material proxy)) = Ok text.

Lemma proxy_message_exact id :
  emits (proxy_connection_message json_print id) (fun t r => forall text, r = Ok text ->
    offered id text t \/ exists reason, encode_proxy_unavailable_message json_print id reason = Ok text).
Proof.
  assert (forall t reason text,
    map_err (fun _ => RunProtocol) (encode_proxy_unavailable_message json_print id reason) = Ok text ->
    offered id text t \/ exists reason, encode_proxy_unavailable_message json_print id reason = Ok text) as Hun.
  { intros t reason text H. right. exists reason. destruct (encode_proxy_unavailable_message _ _ _); [|done].
    by injection H as ->. }
  unfold proxy_connection_message. apply emits_do. intros readiness. cbn [prog_bind].
  destruct (bool_decide_reflect (readiness = Readiness.Ready)) as [->|]; [|apply emits_ret; by apply Hun].
  apply emits_do. intros [mesh|]; cbn [prog_bind]; [|apply emits_ret; by apply Hun].
  destruct (admitted_endpoint (ts_admission mesh)) as [endpoint|] eqn:He; [|apply emits_ret; by apply Hun].
  destruct (_ || _) eqn:Hm; [apply emits_ret; by apply Hun|]. rust_bool.
  apply emits_do. intros serving. cbn [prog_bind].
  destruct (bool_decide_reflect (serving = ServingRunning)) as [->|]; [|apply emits_ret; by apply Hun].
  apply emits_do. intros [proxy|]; cbn [prog_bind]; [|apply emits_ret; by apply Hun].
  apply emits_do. intros [mesh'|]; cbn [prog_bind]; [|apply emits_ret; by apply Hun].
  apply emits_do. intros readiness. cbn [prog_bind].
  destruct (_ || _) eqn:Hm'; [apply emits_ret; by apply Hun|]. rust_bool. subst readiness.
  apply emits_do. intros []; apply emits_ret; [|by apply Hun].
  intros text Ht. left. exists mesh, mesh', proxy, endpoint. split_and!; [done|by repeat constructor|done|].
  destruct (encode_proxy_ready_message _ _ _ _ _ _ _ _); [|done]. by injection Ht as ->.
Qed.
End handlers.

(** ** The ledger of remote operations

    However the tasks and callers interleave, the coordinator's state goes
    through a sequence of critical sections. *)

Definition entry : Type := csection * bool * Z.

Definition ledger_step (s : ControlState) (e : entry) : unit * ControlState :=
  (tt, (center e.1.1 e.1.2 e.2 s).2).

Definition taken (log : list entry) (l : csection) : Prop := exists running now, (l, running, now) ∈ log.

(** Where a result can come from. *)
Definition justified (log : list entry) (id : str) (operation : Z) (r : RemoteRotationResult) : Prop :=
  (exists snap terminal, taken log (CObserveRotation snap) /\ snap_operation_id snap = Some operation /\
     snap_terminal_result snap = Some terminal /\ r = remote_result terminal) \/
  (taken log (CAcceptanceFailed id operation) /\ r = RejectedRotation) \/
  taken log (CActivationFailed id r).

Record recorded (log : list entry) (p : PendingRemoteOperation) : Prop := {
  recorded_operation : exists operation received, operation_id p = Some operation /\
    taken log (CReserve (request_id p) operation received);
  recorded_result operation r : operation_id p = Some operation -> result_ p = Some r ->
    justified log (request_id p) operation r }.

Record ledger_ok (log : list entry) (s : ControlState) : Prop := {
  ledger_pending p : pending s = Some p -> recorded log p;
  ledger_recent : Forall (recorded log) (recent_terminal s);
  ledger_results : Forall (fun p => is_some (result_ p) = true) (recent_terminal s);
  ledger_unique : NoDup (request_id <$> recent_terminal s);
  ledger_bounded : (length (recent_terminal s) <= CONTROL_RECENT_TERMINAL_REQUESTS)%nat }.

Lemma taken_app log e l : taken log l -> taken (log ++ [e]) l.
Proof. intros (b & n & H). exists b, n. apply elem_of_app. by left. Qed.

Lemma taken_last log l b n : taken (log ++ [(l, b, n)]) l.
Proof. exists b, n. apply elem_of_app. right. by left. Qed.

Lemma justified_app log e id o r : justified log id o r -> justified (log ++ [e]) id o r.
Proof.
  intros [(snap & tr & H & Hs)|[[H Hr]|H]]; [left; exists snap, tr|right; left|right; right].
  - split; [by apply taken_app|exact Hs].
  - split; [by apply taken_app|exact Hr].
  - by apply taken_app.
Qed.

Lemma recorded_app log e p : recorded log p -> recorded (log ++ [e]) p.
Proof.
  intros [(o & rc & H1 & H2) Hr]. split.
  - exists o, rc. split; [done|by apply taken_app].
  - intros. by apply justified_app, Hr.
Qed.

(** Marks change the timing alone. *)
Definition same_entry (p p' : PendingRemoteOperation) : Prop :=
  request_id p' = request_id p /\ operation_id p' = operation_id p /\ result_ p' = result_ p.

Lemma recorded_same log p p' : same_entry p p' -> recorded log p -> recorded log p'.
Proof. intros (E1 & E2 & E3) [H1 H2]. split; rewrite ?E1, ?E2, ?E3; [done|]. exact H2. Qed.

Lemma mark_own_same p m now : same_entry p (mark_own p m now).
Proof. unfold mark_own. by destruct (operation_id p) eqn:E. Qed.

(** Sections that leave the ledger alone, up to marks. *)
Lemma ledger_keep log e s s' :
  ledger_ok log s -> recent_terminal s' = recent_terminal s ->
  (forall p', pending s' = Some p' -> exists p, pending s = Some p /\ same_entry p p') -> ledger_ok (log ++ [e]) s'.
Proof.
  intros [H1 H2 H3 H4 H5] E Hp. split; rewrite ?E; try done.
  - intros p' Hp'. destruct (Hp p' Hp') as (p & Hq & Hs). eapply recorded_same; [exact Hs|]. by apply recorded_app, H1.
  - eapply Forall_impl; [|exact H2]. intros p. apply recorded_app.
Qed.

Lemma same_refl p : same_entry p p.
Proof. done. Qed.

(** A section that gives the pending operation a result. *)
Lemma ledger_settle log e s p r tm last :
  ledger_ok log s -> pending s = Some p ->
  (forall operation, operation_id p = Some operation -> justified (log ++ [e]) (request_id p) operation r) ->
  ledger_ok (log ++ [e]) (with_ledger s (Some (set_result p r tm)) (recent_terminal s) last).
Proof.
  intros [H1 H2 H3 H4 H5] Hp Hj. split; cbn [pending with_ledger recent_terminal]; try done.
  - intros p' [= <-]. destruct (recorded_app _ e _ (H1 p Hp)) as [Ho _]. split; [done|].
    intros o r' Hop [= <-]. by apply Hj.
  - eapply Forall_impl; [|exact H2]. intros q. apply recorded_app.
Qed.

Lemma NoDup_filter_ids (f : PendingRemoteOperation -> bool) l :
  NoDup (request_id <$> l) -> NoDup (request_id <$> List.filter f l).
Proof.
  induction l as [|p l IH]; cbn; [done|]. intros [Hn Hd]%list.NoDup_cons. destruct (f p); [|by apply IH].
  cbn. apply list.NoDup_cons. split; [|by apply IH]. intros (q & E & Hq)%list_elem_of_fmap. apply Hn.
  apply list_elem_of_fmap. exists q. split; [done|]. apply list_elem_of_In in Hq. apply List.filter_In in Hq as [Hq _].
  by apply list_elem_of_In.
Qed.

Lemma Forall_filter_ids (P : PendingRemoteOperation -> Prop) f l : Forall P l -> Forall P (List.filter f l).
Proof. rewrite !Forall_forall. intros H x [Hx _]%List.filter_In. by apply H. Qed.

Lemma fmap_take_ids n (l : list PendingRemoteOperation) : NoDup (request_id <$> l) -> NoDup (request_id <$> take n l).
Proof. rewrite fmap_take. intros H. rewrite <- (take_drop n (request_id <$> l)) in H. by apply list.NoDup_app in H as [? _]. Qed.

Lemma ledger_section log l running now s :
  ledger_ok log s -> ledger_ok (log ++ [(l, running, now)]) (center l running now s).2.
Proof.
  intros Hs. assert (forall s', recent_terminal s' = recent_terminal s -> pending s' = pending s ->
    ledger_ok (log ++ [(l, running, now)]) s') as Hkeep.
  { intros s' E1 E2. apply (ledger_keep _ _ s); [done..|]. intros p' Hp'. exists p'. rewrite <- E2. by split. }
  destruct l; cbn [center snd]; try (by apply Hkeep).
  - unfold start_section. destruct (closed s); [by apply Hkeep|]. destruct (_ && _); [destruct (_ =b? _)|]; by apply Hkeep.
  - unfold close_section. destruct (closed s); [by apply Hkeep|]. by apply (ledger_keep _ _ s).
  - unfold publish_connection_state. destruct (_ && _); [by apply Hkeep|].
    destruct (_ && _); [|destruct (negb _); by apply Hkeep]. apply (ledger_keep _ _ s); [done..|].
    cbn [pending with_session with_pending with_ledger]. intros p'. destruct (pending s) as [p|]; [|done]. intros [= <-].
    exists p. split; [done|]. destruct (is_some _); [apply mark_own_same|apply same_refl].
  - apply (ledger_keep _ _ s); [done..|]. cbn. intros p'. destruct (pending s) as [p|]; [|done]. intros [= <-].
    exists p. split; [done|]. destruct (is_some _); [apply mark_own_same|apply same_refl].
  - apply (ledger_keep _ _ s); [done..|]. cbn. intros p'. destruct (pending s) as [p|]; [|done]. intros [= <-].
    exists p. split; [done|]. destruct (is_some _); [apply mark_own_same|apply same_refl].
  - apply (ledger_keep _ _ s); [done..|]. cbn. intros p'. destruct (pending s) as [p|]; [|done]. intros [= <-].
    exists p. split; [done|apply mark_own_same].
  - unfold reserve_section. destruct (pending s) as [p|] eqn:Hp; [by apply Hkeep|].
    destruct Hs as [H1 H2 H3 H4 H5]. split; cbn; try done.
    + intros p' [= <-]. split; cbn; [|done]. exists operation, received0. split; [done|apply taken_last].
    + eapply Forall_impl; [|exact H2]. intros q. apply recorded_app.
  - unfold mark_acceptance_delivery_failed. destruct (pending s) as [p|] eqn:Hp; [|by apply Hkeep].
    destruct (_ || _) eqn:Hc; [by apply Hkeep|]. rust_bool. apply ledger_settle; [done..|].
    intros o Ho. right; left. split; [|done]. replace o with operation by congruence. rewrite H. apply taken_last.
  - unfold activation_failed_section. destruct (pending s) as [p|] eqn:Hp; [|by apply Hkeep].
    destruct (bool_decide_reflect (request_id p = id)) as [<-|]; [|by apply Hkeep]. apply ledger_settle; [done..|].
    intros o Ho. right; right. apply taken_last.
  - unfold ack_section. destruct (pending s) as [p|] eqn:Hp; [|by apply Hkeep].
    destruct (_ && _) eqn:Hc; [|by apply Hkeep]. rust_bool. subst id.
    pose proof (mark_own_same p MarkResultAck now) as Hsame. set (q := mark_own p MarkResultAck now) in *. clearbody q.
    destruct Hs as [H1' H2' H3' H4' H5']. split; cbn [with_ledger pending recent_terminal]; [done|..].
    + apply Forall_take. constructor; [eapply recorded_same; [exact Hsame|]; by apply recorded_app, H1'|].
      apply Forall_filter_ids. eapply Forall_impl; [|exact H2']. intros x. apply recorded_app.
    + apply Forall_take. constructor; [destruct Hsame as (_ & _ & ->); done|by apply Forall_filter_ids].
    + apply fmap_take_ids. cbn. destruct Hsame as (-> & _). apply list.NoDup_cons. split; [|by apply NoDup_filter_ids].
      intros (x & E & Hx)%list_elem_of_fmap. apply list_elem_of_In in Hx. apply List.filter_In in Hx as [_ Hx]. by rust_bool.
    + rewrite length_take. lia.
  - unfold observe_rotation_section. destruct (snap_operation_id snap) as [o|] eqn:Hid; [|by apply Hkeep].
    destruct (snap_terminal_result snap) as [tr|] eqn:Ht; [|by apply Hkeep].
    destruct (pending s) as [p|] eqn:Hp; [|by apply Hkeep]. destruct (_ && _) eqn:Hc; [|by apply Hkeep]. rust_bool.
    apply ledger_settle; [done..|]. intros o' Ho'. left. exists snap, tr. split_and!; [apply taken_last|congruence|done..].
  - apply (ledger_keep _ _ s); [done..|]. cbn. intros p'. destruct (pending s) as [p|]; [|done]. intros [= <-].
    exists p. split; [done|]. destruct (_ =b? _); [apply mark_own_same|apply same_refl].
Qed.

Lemma ledger_run log : ledger_ok log (run ledger_step control_new log).
Proof.
  induction log as [|[[l b] n] log IH] using rev_ind.
  - split; cbn; try done; try constructor. lia.
  - rewrite run_app. cbn [run ledger_step fst snd]. by apply ledger_section.
Qed.

(** ** Control and rotation together

    The control task calls the rotation runtime directly, and the rotation
    runtime calls its observers before it returns: here each such call runs the
    other side's program to its end. *)

Record pair := { rotation_side : RotationRuntimeState; control_side : ControlState; wire : list str }.

Definition on_control (w : pair) (s : ControlState) : pair :=
  {| rotation_side := rotation_side w; control_side := s; wire := wire w |}.
Definition on_rotation (w : pair) (s : RotationRuntimeState) : pair :=
  {| rotation_side := s; control_side := control_side w; wire := wire w |}.

Section composed.
(** What the surroundings answer: the admission, its policy, the credential, and
    whether the socket takes a text. *)
Context (admission : Cellular.CellularAdmissionSnapshot) (publication : CellularPolicyPublication)
        (guard : ProxyCredentialGuard) (takes : str -> bool) (control_observer : nat) (json_print : wire_message -> str).

Definition observer_handle (r : control_request) (w : pair) : control_reply r * pair :=
  match r return control_reply r * pair with
  | CLocked l => let y := center l false 0 (control_side w) in (y.1, on_control w y.2)
  | Connect _ => (inr false, w)
  | CancelValue => (false, w)
  | Select => (SelCancel false, w)
  | SelectBackoff _ => (WaitSlept, w)
  | NextTimed => (None, w)
  | Send text =>
      if takes text then (Ok tt, {| rotation_side := rotation_side w; control_side := control_side w; wire := wire w ++ [text] |})
      else (Err WsOther, w)
  | CNow => (0, w)
  | Sign _ => (Err SignFailed, w)
  | RotationPrepare => (Err StartStateUnavailable, w)
  | RotationActivate _ => (Err StartStateUnavailable, w)
  | RotationFailPrepared _ => (false, w)
  | ReadinessOf => (Unknown, w)
  | MeshOf => (Err Transport.StateUnavailable, w)
  | ProxyStateOf => (ServingStopped, w)
  | ConnectionOf => (None, w)
  | ConnectionMatches _ => (false, w)
  | NotifyResult => (tt, w)
  | SpawnLoop => (None, w)
  | SendCancel _ => (tt, w)
  | JoinTimed _ => (true, w)
  | Abort _ => (tt, w)
  end.

(** The rotation side, whose observers include the control runtime. *)
Definition rotation_handle (r : runtime_request) (w : pair) : runtime_reply r * pair :=
  match r return runtime_reply r * pair with
  | Locked l =>
      let y := enter l {| guard_matches := fun _ => true; is_finished := fun _ => false; spawned := Some 0%nat;
                                instant := 0; notifier := 0 |} (rotation_side w) in (y.1, on_rotation w y.2)
  | Mobile m => match m return mobile_reply m * pair with
                | ClaimCompensation => (true, w) | ReleaseCompensation => (tt, w) | CompensationOwned => (false, w)
                | Root _ => (Err RootSession.StateUnavailable, w)
                end
  | MobileUntil _ => (None, w)
  | PublicIp => (None, w)
  | Wait => (true, w)
  | Notify n snap =>
      (tt, if decide (n = control_observer) then (interp observer_handle (observe_rotation snap) w).1.2 else w)
  | NotifyWaiters _ => (tt, w)
  | Join _ => (true, w)
  | AdmissionSnapshot => (Ok admission, w)
  | LastPublication => (Some publication, w)
  | CredentialGuard => (Some guard, w)
  end.

Definition control_handle (r : control_request) (w : pair) : control_reply r * pair :=
  match r return control_reply r * pair with
  | RotationPrepare => (interp rotation_handle prepare w).1
  | RotationActivate o => (interp rotation_handle (activate_prepared o) w).1
  | RotationFailPrepared o => (interp rotation_handle (fail_prepared_before_mutation o) w).1
  | r => observer_handle r w
  end.

Definition serve_rotate (id : str) (w : pair) : result ControlRunError unit * pair :=
  (interp control_handle (handle_rotate_ip json_print id) w).1.
End composed.

(** ** Properties *)


(** The session is declared ready only after a login in that session: the
    server's challenge was read, the canonical payload for this device and that
    nonce was signed by the device key, the signature was sent in its wire form,
    and the server's confirmation was read. *)
Theorem ready_means_authenticated json_parse json_print fuel endpoint identity failures :
  always (fun _ _ => True) (fun t r _ => ready_safe json_parse json_print identity t r)
    (run_loop json_parse json_print fuel endpoint identity failures) [].
Proof. apply run_loop_ready. Qed.

(** The session is given up when the server is silent, and retried at a
    bounded pace: after a heartbeat tick something is sent only if the heartbeat
    before it was acknowledged in this session, and the pause before a new
    attempt always lies between 500 and 5000 milliseconds. *)
Theorem heartbeat_and_pause_bounded json_parse json_print fuel endpoint identity failures :
  always (fun _ _ => True) (fun t r _ => liveness_safe t r)
    (run_loop json_parse json_print fuel endpoint identity failures) [].
Proof. apply run_loop_live. Qed.

(** C28: A prepared rotation is never left behind.  For a valid request whose
    ACCEPTED messages fit the wire bound, whatever fails on the way, an operation
    that was prepared has been activated or failed by the time the handler
    returns. *)
Theorem prepared_rotation_resolved json_print id :
  validate_request_id id = Ok tt ->
  (forall operation, Z.of_nat (length (json_print (WireAccepted CONTROL_PROTOCOL_VERSION (lit "ACCEPTED") id operation)))
     <= CONTROL_WIRE_MAX_BYTES) ->
  emits (handle_rotate_ip json_print id) (fun t _ => resolved t).
Proof. apply rotate_resolved. Qed.

Lemma prepared_rotation_resolved_witness :
  emits (handle_rotate_ip (fun _ => lit "{}") (lit "req-1")) (fun t _ => resolved t).
Proof.
  apply prepared_rotation_resolved; [vm_compute; reflexivity|]. intros operation. vm_compute. discriminate.
Defined.

(** The proxy's address and secret leave the device only when they are
    current: a PROXY message is the unavailable one, or readiness was seen before
    and after, the mesh was admitted with its ingress running before and after at
    the same endpoint and admission epoch, the proxy was serving, and the
    credential it hands out was still the proxy's own at the end. *)
Theorem proxy_offered_only_when_current json_print id :
  emits (proxy_connection_message json_print id) (fun t r => forall text, r = Ok text ->
    offered json_print id text t \/ exists reason, encode_proxy_unavailable_message json_print id reason = Ok text).
Proof. apply proxy_message_exact. Qed.

(** The ledger of remote operations is faithful after any sequence of
    critical sections, in whatever order tasks, observers and callers enter them:
    every entry was reserved for its request, every result comes from the
    rotation it names (or is the rejection of an acceptance or an activation that
    failed), finished entries have a result and distinct requests, and at most 32
    are kept. *)
Theorem remote_ledger_faithful log : ledger_ok log (run ledger_step control_new log).
Proof. apply ledger_run. Qed.

Definition demo_admission : Cellular.CellularAdmissionSnapshot :=
  {| Cellular.adm_state := Cellular.IsAdmitted; Cellular.adm_reason := None; Cellular.admitted_network := Some 7;
     Cellular.last_sequence := Some 10 |}.
Definition demo_pair : pair :=
  {| rotation_side := set_observers runtime_new None [3%nat]; control_side := control_new; wire := [] |}.

(** The result of an acceptance that could not be written is FAILED, not
    REJECTED.  With the two runtimes composed as they are (the control runtime an
    observer of the rotation runtime), failing the prepared operation notifies
    the control runtime first, which records FAILED; the rejection meant for this
    case then finds a result and does nothing. *)
Theorem undelivered_acceptance_reads_failed :
  let '(r, w) := serve_rotate demo_admission {| publication_admission := demo_admission; publication_result := Enforced |}
    {| guard_version := 1; guard_material := {| username := lit "u"; password := lit "p" |} |} (fun _ => false) 3
    (fun _ => lit "{}") (lit "req-1") demo_pair in
  r = Err RunTransport /\ wire w = [] /\ snap_phase (Rotation.snapshot (machine (rotation_side w))) = PhaseFailed /\
  option_map result_ (pending (control_side w)) = Some (Some FailedRotation) /\
  last_terminal_result (control_side w) = Some FailedRotation.
Proof. vm_compute. by split_and!. Qed.
