(* ===== verification/CellularConnector.v ===== *)
(** * Cellular connector

    [src/crates/runtime/src/cellular_connector.rs]: the one way from the proxy to
    the network.  A connection takes one authority from the cellular owner,
    resolves and dials under it within one deadline, and validates it again
    around every outside effect.

    Looks at the owner (under its lock), the clock (nanoseconds), the platform's
    resolver and the dial are requests; the diagnostic counters are a record of
    atomics that only receives notes. *)

From S2P Require Import Prelude Net RustStr ProxyAuth Cellular Stream Socks5 HttpConnect ProxySession.
From S2P Require Import Interaction.

Definition MAX_IPV4_CANDIDATES : nat := 8.
Definition DNS_SLOW_OBSERVATION_THRESHOLD : Z := 5 * 1000000000.

(** ** Diagnostics *)

Inductive DnsResultDisposition :=
| DnsResolverFailed | DiscardedAfterDeadline | DiscardedStale | AuthorityValidationFailed | DnsUnusableResult
| AcceptedCurrent.

Record DnsDiagnosticsTracker := {
  dns_started : Z; dns_completed : Z; dns_active : Z; dns_peak_active : Z; slow_completions : Z; resolver_failed : Z;
  discarded_after_deadline : Z; completed_after_owner_change : Z; discarded_stale : Z;
  authority_validation_failed : Z; unusable_result : Z; accepted_current : Z; max_native_elapsed_ms : Z;
  last_started_owner_sequence : Z; last_completed_start_owner_sequence : Z; last_completed_current_owner_sequence : Z }.

Definition tracker_new : DnsDiagnosticsTracker :=
  {| dns_started := 0; dns_completed := 0; dns_active := 0; dns_peak_active := 0; slow_completions := 0;
     resolver_failed := 0; discarded_after_deadline := 0; completed_after_owner_change := 0; discarded_stale := 0;
     authority_validation_failed := 0; unusable_result := 0; accepted_current := 0; max_native_elapsed_ms := 0;
     last_started_owner_sequence := 0; last_completed_start_owner_sequence := 0;
     last_completed_current_owner_sequence := 0 |}.

(** [fetch_add] and [fetch_sub] wrap. *)
Definition fetch_add (n : Z) (b : bool) : Z := if b then (n + 1) mod (u64_max + 1) else n.
Definition fetch_sub (n : Z) : Z := (n - 1) mod (u64_max + 1).

Definition record_disposition (t : DnsDiagnosticsTracker) (d : DnsResultDisposition) : DnsDiagnosticsTracker :=
  let hit b := match d, b with
              | DnsResolverFailed, 0 | DiscardedAfterDeadline, 1 | DiscardedStale, 2 | AuthorityValidationFailed, 3
              | DnsUnusableResult, 4 | AcceptedCurrent, 5 => true
              | _, _ => false
              end%nat in
  {| dns_started := dns_started t; dns_completed := dns_completed t; dns_active := dns_active t;
     dns_peak_active := dns_peak_active t; slow_completions := slow_completions t;
     resolver_failed := fetch_add (resolver_failed t) (hit 0%nat);
     discarded_after_deadline := fetch_add (discarded_after_deadline t) (hit 1%nat);
     completed_after_owner_change := completed_after_owner_change t;
     discarded_stale := fetch_add (discarded_stale t) (hit 2%nat);
     authority_validation_failed := fetch_add (authority_validation_failed t) (hit 3%nat);
     unusable_result := fetch_add (unusable_result t) (hit 4%nat);
     accepted_current := fetch_add (accepted_current t) (hit 5%nat);
     max_native_elapsed_ms := max_native_elapsed_ms t; last_started_owner_sequence := last_started_owner_sequence t;
     last_completed_start_owner_sequence := last_completed_start_owner_sequence t;
     last_completed_current_owner_sequence := last_completed_current_owner_sequence t |}.

Definition tracker_start (t : DnsDiagnosticsTracker) (a : CellularNetworkAuthority) : DnsDiagnosticsTracker :=
  let active := fetch_add (dns_active t) true in
  {| dns_started := fetch_add (dns_started t) true; dns_completed := dns_completed t; dns_active := active;
     dns_peak_active := Z.max (dns_peak_active t) active; slow_completions := slow_completions t;
     resolver_failed := resolver_failed t; discarded_after_deadline := discarded_after_deadline t;
     completed_after_owner_change := completed_after_owner_change t; discarded_stale := discarded_stale t;
     authority_validation_failed := authority_validation_failed t; unusable_result := unusable_result t;
     accepted_current := accepted_current t; max_native_elapsed_ms := max_native_elapsed_ms t;
     last_started_owner_sequence := observation_sequence a;
     last_completed_start_owner_sequence := last_completed_start_owner_sequence t;
     last_completed_current_owner_sequence := last_completed_current_owner_sequence t |}.

(** [DnsCallObservation::complete], once per call. *)
Definition tracker_complete (t : DnsDiagnosticsTracker) (a : CellularNetworkAuthority) (elapsed : Z)
    (current_owner_sequence : option Z) : DnsDiagnosticsTracker :=
  {| dns_started := dns_started t; dns_completed := fetch_add (dns_completed t) true;
     dns_active := fetch_sub (dns_active t); dns_peak_active := dns_peak_active t;
     slow_completions := fetch_add (slow_completions t) (DNS_SLOW_OBSERVATION_THRESHOLD <=? elapsed);
     resolver_failed := resolver_failed t; discarded_after_deadline := discarded_after_deadline t;
     completed_after_owner_change :=
       fetch_add (completed_after_owner_change t) (current_owner_sequence <>b? Some (observation_sequence a));
     discarded_stale := discarded_stale t; authority_validation_failed := authority_validation_failed t;
     unusable_result := unusable_result t; accepted_current := accepted_current t;
     max_native_elapsed_ms := Z.max (max_native_elapsed_ms t) (Z.min (elapsed / 1000000) u64_max);
     last_started_owner_sequence := last_started_owner_sequence t;
     last_completed_start_owner_sequence := observation_sequence a;
     last_completed_current_owner_sequence := default 0 current_owner_sequence |}.

(** ** Requests *)

Inductive CellularDnsPrepareError := DnsAuthorityUnavailable | ResolverFailed | DnsDeadlineExceeded | StaleAuthority | UnusableResult.

Definition from_dns_error (e : CellularDnsPrepareError) : ProxyOutboundConnectError :=
  match e with
  | DnsAuthorityUnavailable | DnsDeadlineExceeded | StaleAuthority => Unavailable
  | ResolverFailed | UnusableResult => OutboundFailed
  end.

Definition map_authority_error (e : CellularNetworkAuthorityError) : ProxyOutboundConnectError :=
  match e with NoAdmittedNetwork | NetworkChanged => Unavailable end.

Inductive dial_failure := DialTimedOut | DialFailed.

Inductive egress_request :=
| IssueAuthority
| ValidateAuthority (a : CellularNetworkAuthority)
| OwnerSequence
| EgressNow
| Resolve (a : CellularNetworkAuthority) (hostname : str)
| DialSocket (address : SocketAddr) (timeout : Z)
| NoteStart (a : CellularNetworkAuthority)
| NoteComplete (a : CellularNetworkAuthority) (current : option Z)
| NoteDisposition (d : DnsResultDisposition).

Definition egress_reply (r : egress_request) : Type :=
  match r with
  | IssueAuthority => result CellularNetworkAuthorityError CellularNetworkAuthority
  | ValidateAuthority _ => result CellularNetworkAuthorityError unit
  | OwnerSequence => option Z
  | EgressNow => Z
  | Resolve _ _ => result ProxyOutboundConnectError (list IpAddr)
  | DialSocket _ _ => result dial_failure unit
  | NoteStart _ | NoteComplete _ _ | NoteDisposition _ => unit
  end.

Abbreviation eprog := (prog egress_request egress_reply).
Definition eask (r : egress_request) : eprog (egress_reply r) := request r.

Definition ebind {E A B} (c : eprog (result E A)) (k : A -> eprog (result E B)) : eprog (result E B) :=
  prog_bind c (fun r => match r with Ok a => k a | Err e => Ret (Err e) end).

Notation "'try>' x ':=' c 'in' k" := (ebind c (fun x => k))
  (at level 10, x pattern, c at level 100, k at level 200) : rust_scope.

(** ** Owner and deadline *)

Definition issue_authority : eprog (result ProxyOutboundConnectError CellularNetworkAuthority) :=
  let> r := eask IssueAuthority in Ret (map_err map_authority_error r).

Definition validate_authority (a : CellularNetworkAuthority) : eprog (result ProxyOutboundConnectError unit) :=
  let> r := eask (ValidateAuthority a) in Ret (map_err map_authority_error r).

Definition remaining (deadline : Z) : eprog (result ProxyOutboundConnectError Z) :=
  let> now := eask EgressNow in
  Ret (if deadline - now <=? 0 then Err Unavailable else Ok (deadline - now)).

Definition ensure_deadline (deadline : Z) : eprog (result ProxyOutboundConnectError unit) :=
  try> _ := remaining deadline in Ret (Ok tt).

(** The share of one candidate, of those that are left. *)
Definition per_candidate_deadline (operation_deadline attempts_remaining : Z) : eprog (result ProxyOutboundConnectError Z) :=
  try> budget := remaining operation_deadline in
  if u32_max <? attempts_remaining then Ret (Err Rejected)
  else if attempts_remaining =? 0 then Ret (Err Rejected)
  else
    let> now := eask EgressNow in
    Ret (Ok (Z.min (now + budget / attempts_remaining) operation_deadline)).

(** ** Name resolution *)

Definition is_ipv4_addr (a : IpAddr) : bool := match a with IpV4 _ => true | IpV6 _ => false end.

Fixpoint collect_candidates (addresses candidates : list IpAddr) : list IpAddr :=
  match addresses with
  | [] => candidates
  | a :: addresses =>
      if negb (is_ipv4_addr a) || list_contains candidates a then collect_candidates addresses candidates
      else
        let candidates := candidates ++ [a] in
        if Nat.eqb (length candidates) MAX_IPV4_CANDIDATES then candidates else collect_candidates addresses candidates
  end.

Definition bounded_ipv4_candidates (addresses : list IpAddr) : result ProxyOutboundConnectError (list IpAddr) :=
  match collect_candidates addresses [] with
  | [] => Err OutboundFailed
  | candidates => Ok candidates
  end.

Record PreparedCellularDnsTarget := { dns_authority : CellularNetworkAuthority; dns_addresses : list IpAddr }.

Definition note {A} (d : DnsResultDisposition) (e : CellularDnsPrepareError) : eprog (result CellularDnsPrepareError A) :=
  let> _ := eask (NoteDisposition d) in Ret (Err e).

Definition resolve_current_domain (a : CellularNetworkAuthority) (domain : str) (deadline : Z)
    : eprog (result CellularDnsPrepareError PreparedCellularDnsTarget) :=
  let> in_time := ensure_deadline deadline in
  match in_time with
  | Err _ => Ret (Err DnsDeadlineExceeded)
  | Ok _ =>
      let> valid := validate_authority a in
      match valid with
      | Err _ => Ret (Err DnsAuthorityUnavailable)
      | Ok _ =>
          let> _ := eask (NoteStart a) in
          let> resolved := eask (Resolve a domain) in
          let> current := eask OwnerSequence in
          let> _ := eask (NoteComplete a current) in
          match resolved with
          | Err _ => note DnsResolverFailed ResolverFailed
          | Ok addresses =>
              let> in_time := ensure_deadline deadline in
              if negb (is_ok in_time) then note DiscardedAfterDeadline DnsDeadlineExceeded
              else
                let> valid := validate_authority a in
                if negb (is_ok valid) then
                  let> sequence := eask OwnerSequence in
                  if is_some_and sequence (fun s => s <>b? observation_sequence a)
                  then note DiscardedStale StaleAuthority
                  else note AuthorityValidationFailed DnsAuthorityUnavailable
                else
                  match bounded_ipv4_candidates addresses with
                  | Err _ => note DnsUnusableResult UnusableResult
                  | Ok addresses =>
                      let> _ := eask (NoteDisposition AcceptedCurrent) in
                      Ret (Ok {| dns_authority := a; dns_addresses := addresses |})
                  end
          end
      end
  end.

(** ** Connecting *)

Definition connect_root_policy_socket (address : SocketAddr) (deadline : Z) : eprog (result ProxyOutboundConnectError unit) :=
  try> timeout := remaining deadline in
  let> dialled := eask (DialSocket address timeout) in
  Ret (map_err (fun e => match e with DialTimedOut => Unavailable | DialFailed => OutboundFailed end) dialled).

Fixpoint connect_each (a : CellularNetworkAuthority) (port deadline : Z) (candidates : list IpAddr)
    (last_error : ProxyOutboundConnectError) : eprog (result ProxyOutboundConnectError SocketAddr) :=
  match candidates with
  | [] => Ret (Err last_error)
  | address :: rest =>
      try> _ := ensure_deadline deadline in
      try> _ := validate_authority a in
      try> attempt_deadline := per_candidate_deadline deadline (Z.of_nat (length candidates)) in
      let socket := {| sa_ip := address; sa_port := port |} in
      let> connected := connect_root_policy_socket socket attempt_deadline in
      match connected with
      | Ok _ =>
          try> _ := ensure_deadline deadline in
          try> _ := validate_authority a in
          Ret (Ok socket)
      | Err Rejected => Ret (Err Rejected)
      | Err error =>
          try> _ := validate_authority a in
          connect_each a port deadline rest error
      end
  end.

Definition connect_host_with (host : ProxyTargetHost) (port deadline : Z)
    : eprog (result ProxyOutboundConnectError SocketAddr) :=
  if port =? 0 then Ret (Err Rejected)
  else
    try> _ := ensure_deadline deadline in
    try> a := issue_authority in
    match host with
    | HostIpv4 address => connect_each a port deadline [IpV4 address] OutboundFailed
    | HostIpv6 _ => Ret (Err Rejected)
    | HostDomain domain =>
        let> prepared := resolve_current_domain a domain deadline in
        match prepared with
        | Err e => Ret (Err (from_dns_error e))
        | Ok prepared =>
            if (network (dns_authority prepared) <>b? network a) || (sequence (dns_authority prepared) <>b? sequence a)
            then Ret (Err Unavailable)
            else connect_each a port deadline (dns_addresses prepared) OutboundFailed
        end
    end.

Definition instant_limit : Z := u64_max * 1000000000.

(** [ProxyOutboundConnector::connect] of the connector: the address it reached. *)
Definition connect (operation_timeout : Z) (target : ProxyConnectTarget)
    : eprog (result ProxyOutboundConnectError SocketAddr) :=
  let> now := eask EgressNow in
  match checked_add instant_limit now operation_timeout with
  | None => Ret (Err Rejected)
  | Some deadline => connect_host_with (host target) (target_port target) deadline
  end.

(** ** Candidates *)

(** IPv4, distinct, from the answer, at most eight. *)
Record candidates_of (addresses candidates : list IpAddr) : Prop := {
  cand_ipv4 : Forall (fun a => is_ipv4_addr a = true) candidates;
  cand_distinct : NoDup candidates;
  cand_from a : a ∈ candidates -> a ∈ addresses;
  cand_bounded : (length candidates <= MAX_IPV4_CANDIDATES)%nat }.

Lemma collect_candidates_of all addresses candidates :
  (forall a, a ∈ addresses -> a ∈ all) -> candidates_of all candidates ->
  (length candidates < MAX_IPV4_CANDIDATES)%nat -> candidates_of all (collect_candidates addresses candidates).
Proof.
  revert candidates. induction addresses as [|a addresses IH]; intros candidates Hall Hc Hl; cbn [collect_candidates]; [done|].
  destruct (negb (is_ipv4_addr a) || list_contains candidates a) eqn:Hskip.
  { apply IH; [|done..]. intros b Hb. apply Hall. by right. }
  apply orb_false_iff in Hskip as [H4 Hn]. apply negb_false_iff in H4.
  assert (~ a ∈ candidates) as Hfresh by (rewrite <- list_contains_true; by rewrite Hn).
  assert (candidates_of all (candidates ++ [a])) as Hc'.
  { destruct Hc as [H1 H2 H3 H5]. split.
    - apply Forall_app. by split; [|repeat constructor].
    - apply list.NoDup_app. split_and!; [done| |apply NoDup_singleton]. by intros b Hb ->%list_elem_of_singleton.
    - intros b [Hb| ->%list_elem_of_singleton]%elem_of_app; [by apply H3|]. apply Hall. by left.
    - rewrite length_app. cbn. lia. }
  destruct (Nat.eqb_spec (length (candidates ++ [a])) MAX_IPV4_CANDIDATES) as [|Hne]; [done|].
  apply IH; [|done|].
  - intros b Hb. apply Hall. by right.
  - pose proof (cand_bounded _ _ Hc'). lia.
Qed.

Lemma bounded_ipv4_candidates_of addresses candidates :
  bounded_ipv4_candidates addresses = Ok candidates -> candidates_of addresses candidates /\ candidates <> [].
Proof.
  unfold bounded_ipv4_candidates. assert (candidates_of addresses (collect_candidates addresses [])) as H.
  { apply collect_candidates_of; [done| |unfold MAX_IPV4_CANDIDATES; cbn; lia]. split; [constructor|constructor|by intros a ?%elem_of_nil|unfold MAX_IPV4_CANDIDATES; cbn; lia]. }
  destruct (collect_candidates addresses []) as [|c l]; [done|]. intros [= <-]. by split.
Qed.

(** ** One authority, one deadline *)

Abbreviation eev := (event egress_request egress_reply).
Abbreviation edid := (@existT egress_request egress_reply).

(** The addresses a target may be dialled at, given what was resolved. *)
Definition address_of (h : ProxyTargetHost) (a : CellularNetworkAuthority) (t : list eev) (address : IpAddr) : Prop :=
  match h with
  | HostIpv4 x => address = IpV4 x
  | HostIpv6 _ => False
  | HostDomain domain => exists addresses, edid (Resolve a domain) (Ok addresses) ∈ t /\ address ∈ addresses
  end.

(** A dial is right after the authority was found valid and three looks at the
    clock, and ends before the deadline. *)
Definition dial_safe (h : ProxyTargetHost) (port deadline : Z) (t : list eev) (r : egress_request) : Prop :=
  match r with
  | DialSocket s timeout => exists a t0 n1 n2 n3,
      t = t0 ++ [edid (ValidateAuthority a) (Ok tt); edid EgressNow n1; edid EgressNow n2; edid EgressNow n3] /\
      edid IssueAuthority (Ok a) ∈ t0 /\ address_of h a t0 (sa_ip s) /\ is_ipv4_addr (sa_ip s) = true /\ sa_port s = port /\
      0 < timeout /\ n3 + timeout <= deadline
  | _ => True
  end.

Section connecting.
Context (h : ProxyTargetHost) (port deadline : Z).

Abbreviation careful p t := (always (fun _ _ => True) (fun seen r _ => dial_safe h port deadline seen r) p t).

Lemma careful_remaining {A} d (k : result ProxyOutboundConnectError Z -> eprog A) t :
  (forall n, careful (k (if d - n <=? 0 then Err Unavailable else Ok (d - n))) (t ++ [edid EgressNow n])) ->
  careful (prog_bind (remaining d) k) t.
Proof. intros H n _. split; [exact I|]. apply H. Qed.

Lemma careful_deadline {A} d (k : result ProxyOutboundConnectError unit -> eprog A) t :
  (forall n, d - n <= 0 -> careful (k (Err Unavailable)) (t ++ [edid EgressNow n])) ->
  (forall n, n < d -> careful (k (Ok tt)) (t ++ [edid EgressNow n])) ->
  careful (prog_bind (ensure_deadline d) k) t.
Proof.
  intros H1 H2 n _. split; [exact I|]. cbn [prog_bind]. destruct (Z.leb_spec (d - n) 0); [by apply H1|].
  apply H2. lia.
Qed.

Lemma careful_validate {A} a (k : result ProxyOutboundConnectError unit -> eprog A) t :
  careful (k (Ok tt)) (t ++ [edid (ValidateAuthority a) (Ok tt)]) ->
  (forall e, careful (k (Err Unavailable)) (t ++ [edid (ValidateAuthority a) (Err e)])) ->
  careful (prog_bind (validate_authority a) k) t.
Proof. intros H1 H2 [[]|e] _; (split; [exact I|]); [exact H1|]. destruct e; apply H2. Qed.

Lemma address_of_app a t t' x : address_of h a t x -> address_of h a (t ++ t') x.
Proof. destruct h; cbn; try done. intros (l & H1 & H2). exists l. split; [|done]. apply elem_of_app. by left. Qed.

Lemma careful_each a candidates e t :
  edid IssueAuthority (Ok a) ∈ t -> Forall (fun x => is_ipv4_addr x = true /\ address_of h a t x) candidates ->
  careful (connect_each a port deadline candidates e) t.
Proof.
  revert e t. induction candidates as [|x candidates IH]; intros e t Ha Hc; [exact I|]. cbn [connect_each].
  assert (forall t', Forall (fun x => is_ipv4_addr x = true /\ address_of h a (t ++ t') x) (x :: candidates)) as Hc'.
  { intros t'. eapply Forall_impl; [|exact Hc]. intros y [? ?]. split; [done|by apply address_of_app]. }
  assert (forall t', edid IssueAuthority (Ok a) ∈ t ++ t') as Ha' by (intros; apply elem_of_app; by left).
  assert (forall err t', careful (try> _ := validate_authority a in connect_each a port deadline candidates err) (t ++ t')) as Hnext.
  { intros err t'. unfold ebind at 1. apply careful_validate; [|intros; exact I]. rewrite <- app_assoc.
    apply IH; [apply Ha'|eapply Forall_inv_tail, Hc']. }
  unfold ebind at 1. apply careful_deadline; [intros; exact I|]. intros n0 _.
  unfold ebind at 1. apply careful_validate; [|intros; exact I].
  unfold ebind at 1, per_candidate_deadline, ebind at 1. rewrite <- app_assoc.
  intros n1 _. split; [exact I|]. cbn [prog_bind]. destruct (Z.leb_spec (deadline - n1) 0); [exact I|]. cbn [prog_bind].
  destruct (u32_max <? _); [exact I|]. destruct (_ =? 0); [exact I|].
  intros n2 _. split; [exact I|]. cbn [prog_bind].
  unfold connect_root_policy_socket, ebind at 1. intros n3 _. split; [exact I|]. cbn [prog_bind].
  set (att := Z.min _ deadline). destruct (Z.leb_spec (att - n3) 0); cbn [prog_bind]; [rewrite <- !app_assoc; apply Hnext|].
  intros dialled _. split.
  { exists a, (t ++ [edid EgressNow n0]), n1, n2, n3. pose proof (Forall_inv (Hc' [edid EgressNow n0])) as [H4 Hx].
    split_and!; [by rewrite <- !app_assoc|by apply Ha'|exact Hx|exact H4|done|lia|lia]. }
  destruct dialled as [[]|f]; cbn [prog_bind map_err].
  { unfold ebind at 1. apply careful_deadline; [intros; exact I|]. intros n4 _. unfold ebind at 1.
    apply careful_validate; [exact I|intros; exact I]. }
  destruct f; rewrite <- !app_assoc; apply Hnext.
Qed.

(** Nothing is dialled while a name is resolved. *)
Definition no_dial (r : egress_request) : Prop := match r with DialSocket _ _ => False | _ => True end.

Lemma careful_no_dial {A} (p : eprog A) t : only no_dial p -> careful p t.
Proof. apply only_always. intros t' r x. by destruct r. Qed.

Lemma resolve_no_dial a domain d : only no_dial (resolve_current_domain a domain d).
Proof.
  unfold resolve_current_domain, ensure_deadline, remaining, validate_authority, ebind, note, eask, request.
  repeat first
    [ exact I
    | match goal with
      | |- only _ (prog_bind _ _) => apply only_bind; [|intros ?]
      | |- only _ (Do _ _) => split; [exact I|intros ?]
      | |- only _ (match ?x with _ => _ end) => destruct x
      end ].
Qed.

Lemma emits_deadline d : emits (ensure_deadline d) (fun t r => r = Ok tt -> exists n, n < d /\ t = [edid EgressNow n]).
Proof.
  unfold ensure_deadline, remaining, ebind. apply emits_do. intros n. cbn [prog_bind].
  destruct (Z.leb_spec (d - n) 0); apply emits_ret; intros; [done|]. exists n. split; [lia|done].
Qed.

Lemma emits_validate a : emits (validate_authority a) (fun t r => r = Ok tt -> t = [edid (ValidateAuthority a) (Ok tt)]).
Proof. apply emits_do. intros [[]|e]; apply emits_ret; by intros. Qed.

Lemma emits_note {A} d e (Q : list eev -> result CellularDnsPrepareError A -> Prop) :
  (forall t, Q t (Err e)) -> emits (note d e) Q.
Proof. intros H. apply emits_do. intros []. apply emits_ret, H. Qed.

Lemma emits_resolve a domain d :
  emits (resolve_current_domain a domain d) (fun t r => forall p, r = Ok p -> dns_authority p = a /\
    exists addresses, edid (Resolve a domain) (Ok addresses) ∈ t /\ candidates_of addresses (dns_addresses p)).
Proof.
  unfold resolve_current_domain. apply emits_bind. eapply emits_mono; [|apply (emits_deadline d)].
  intros t1 [[]|] _; [|apply emits_ret; by intros].
  apply emits_bind. eapply emits_mono; [|apply emits_validate]. intros t2 [[]|] _; [|apply emits_ret; by intros].
  apply emits_do. intros []. apply emits_do. intros resolved. apply emits_do. intros cur. apply emits_do. intros [].
  cbn [prog_bind]. destruct resolved as [addresses|]; [|by apply emits_note].
  apply emits_bind. eapply emits_mono; [|apply (emits_deadline d)]. intros t3 in_time _.
  destruct (negb _); [by apply emits_note|].
  apply emits_bind. eapply emits_mono; [|apply emits_validate]. intros t4 valid _. destruct (negb _).
  { apply emits_do. intros s. cbn [prog_bind]. destruct (is_some_and _ _); by apply emits_note. }
  destruct (bounded_ipv4_candidates addresses) as [c|] eqn:Hc; [|by apply emits_note].
  apply emits_do. intros []. apply emits_ret. intros p [= <-]. split; [done|].
  exists addresses. split; [|by apply bounded_ipv4_candidates_of]. do 2 (apply elem_of_app; right). right. by left.
Qed.
End connecting.

Lemma connect_host_careful h port deadline :
  always (fun _ _ => True) (fun t r _ => dial_safe h port deadline t r) (connect_host_with h port deadline) [].
Proof.
  unfold connect_host_with. destruct (port =? 0); [exact I|]. unfold ebind at 1.
  apply careful_deadline; [intros; exact I|]. intros n _. unfold ebind at 1, issue_authority.
  intros [a|e] _; (split; [exact I|]); [|exact I]. cbn [prog_bind map_err]. set (t := _ ++ _).
  assert (edid IssueAuthority (Ok a) ∈ t) as Ha by (apply elem_of_app; right; by left).
  destruct h as [x|x|domain] eqn:Hh; [|exact I|].
  - apply careful_each; [done|]. repeat constructor.
  - apply (always_bind_emits (fun t r => forall p, r = Ok p -> dns_authority p = a /\
      exists addresses, edid (Resolve a domain) (Ok addresses) ∈ t /\ candidates_of addresses (dns_addresses p))).
    + apply emits_resolve.
    + apply careful_no_dial, resolve_no_dial.
    + intros [p|e] t' Hp; [|exact I]. destruct (_ || _); [exact I|].
      destruct (Hp p eq_refl) as (_ & addresses & Hin & [H4 _ Hfrom _]). apply careful_each.
      * apply elem_of_app. by left.
      * rewrite Forall_forall in H4 |- *. intros y Hy. split; [by apply H4|]. exists addresses.
        split; [apply elem_of_app; by right|]. apply Hfrom. by apply list_elem_of_In.
Qed.

(** The end of a connection that was made. *)
Definition connected (deadline : Z) (a : CellularNetworkAuthority) (s : SocketAddr) (t : list eev) : Prop :=
  exists t0 timeout n, n < deadline /\
    t = t0 ++ [edid (DialSocket s timeout) (Ok tt); edid EgressNow n; edid (ValidateAuthority a) (Ok tt)].

Lemma connected_app deadline a s t t' : connected deadline a s t' -> connected deadline a s (t ++ t').
Proof. intros (t0 & to & n & Hn & ->). exists (t ++ t0), to, n. split; [done|]. by rewrite <- app_assoc. Qed.

Lemma emits_each a port deadline candidates e :
  emits (connect_each a port deadline candidates e) (fun t r => forall s, r = Ok s -> connected deadline a s t).
Proof.
  revert e. induction candidates as [|x candidates IH]; intros e; [apply emits_ret; by intros|]. cbn [connect_each].
  unfold ebind at 1. apply emits_bind. eapply emits_mono; [|apply (emits_deadline deadline)].
  intros t1 [[]|] _; [|apply emits_ret; by intros].
  unfold ebind at 1. apply emits_bind. eapply emits_mono; [|apply emits_validate].
  intros t2 [[]|] _; [|apply emits_ret; by intros].
  unfold ebind at 1. apply emits_bind. eapply (emits_mono _ (fun _ _ => True)); [|by apply emits_true].
  intros t3 [att|] _; [|apply emits_ret; by intros].
  apply emits_bind. apply (emits_mono _ (fun t r => r = Ok tt -> exists t0 timeout,
    t = t0 ++ [edid (DialSocket {| sa_ip := x; sa_port := port |} timeout) (Ok tt)])).
  2: { unfold connect_root_policy_socket, ebind, remaining. apply emits_do. intros n. cbn [prog_bind].
       destruct (_ <=? _); [apply emits_ret; by intros|]. apply emits_do. intros [[]|[]]; apply emits_ret; try by intros.
       intros _. by exists [edid EgressNow n], (att - n). }
  intros t4 [[]|err] H4.
  - destruct (H4 eq_refl) as (t0 & timeout & ->). unfold ebind at 1. apply emits_bind.
    eapply emits_mono; [|apply (emits_deadline deadline)]. intros t5 [[]|] H5; [|apply emits_ret; by intros].
    destruct (H5 eq_refl) as (n & Hn & ->). unfold ebind at 1. apply emits_bind.
    eapply emits_mono; [|apply emits_validate]. intros t6 [[]|] H6; [|apply emits_ret; by intros].
    rewrite (H6 eq_refl). apply emits_ret. intros s [= <-]. do 3 apply connected_app. exists t0, timeout, n.
    split; [done|]. by rewrite <- app_assoc.
  - assert (emits (try> _ := validate_authority a in connect_each a port deadline candidates err)
      (fun t r => forall s, r = Ok s -> connected deadline a s t)) as Hnext.
    { unfold ebind at 1. apply emits_bind. eapply emits_mono; [|apply emits_validate].
      intros t5 [[]|] _; [|apply emits_ret; by intros]. eapply emits_mono; [|apply IH].
      intros t6 r H s Hs. by apply connected_app, H. }
    destruct err; [| |]; try (apply emits_ret; by intros);
      (eapply emits_mono; [|exact Hnext]; intros t5 r H s Hs; do 4 apply connected_app; by apply H).
Qed.

(** C9: Every socket is dialled under one current authority and one deadline.
    Whatever the owner, the clock, the resolver and the network answer, a dial
    comes right after the authority that was issued at the start was found valid
    again; the address is the IPv4 target itself or an IPv4 address that the
    platform resolved for the target's name under that same authority; and the
    time the dial is given is positive and ends before the deadline. *)
Theorem dialled_under_one_authority h port deadline :
  always (fun _ _ => True) (fun t r _ => dial_safe h port deadline t r) (connect_host_with h port deadline) [].
Proof. apply connect_host_careful. Qed.

(** A connection is handed out only under the authority it was made with:
    when the connector succeeds, its last three steps were the dial of exactly
    that address, a look at the clock before the deadline, and a validation of
    the authority issued at the start; everything that changes the owner's
    admission in between makes it fail. *)
Theorem connection_still_current h port deadline :
  emits (connect_host_with h port deadline) (fun t r => forall s, r = Ok s ->
    exists a, edid IssueAuthority (Ok a) ∈ t /\ connected deadline a s t).
Proof.
  unfold connect_host_with. destruct (port =? 0); [apply emits_ret; by intros|]. unfold ebind at 1.
  apply emits_bind. eapply emits_mono; [|apply (emits_deadline deadline)]. intros t1 [[]|] _; [|apply emits_ret; by intros].
  unfold ebind at 1, issue_authority. apply emits_bind. apply emits_do. intros [a|e]; [|apply emits_ret, emits_ret; by intros].
  apply emits_ret. cbn [map_err].
  assert (forall t2 t3 t s, connected deadline a s t3 -> t = t1 ++ [edid IssueAuthority (Ok a)] ++ t2 ++ t3 ->
    exists a, edid IssueAuthority (Ok a) ∈ t /\ connected deadline a s t) as Hfin.
  { intros t2 t3 t s Hc ->. exists a. split; [|by do 3 apply connected_app].
    apply elem_of_app. right. by left. }
  destruct h as [x|x|domain]; [|apply emits_ret; by intros|].
  - eapply emits_mono; [|apply emits_each]. intros t r H s Hs. by apply (Hfin [] t); [apply H|].
  - apply emits_bind. eapply emits_mono; [|apply emits_true]. intros t2 [p|e] _; [|apply emits_ret; by intros].
    destruct (_ || _); [apply emits_ret; by intros|]. eapply emits_mono; [|apply emits_each].
    intros t r H s Hs. by apply (Hfin t2 t); [apply H|].
Qed.
