(* ===== verification/CellularRuntime.v ===== *)
(** * Cellular runtime

    [src/crates/runtime/src/cellular_runtime.rs] with [public_ip.rs] and
    [public_ip_network.rs]: the cellular owner together with the gate that lets
    effects through only while the root policy is enforced for the current
    admission, the gated connector, and the observation of the public address.

    The owner's lock is held over a whole operation on owner and gate, so each of
    those is one step.  Programs of the connector and of the probe are over
    [cell_request]. *)

From Stdlib Require Import String.
From S2P Require Import Prelude Net RustStr ProxyAuth Cellular Stream Socks5 HttpConnect ProxySession Readiness ReadinessProbe.
From S2P Require Import Interaction Threads CellularConnector.

Definition OPERATION_TIMEOUT_MAX_MS : Z := 120000.
Definition usize_limit : Z := 2 ^ 64 - 1.

Inductive CellularRuntimeError := InvalidOperationTimeout | ConnectorUnavailable | StateUnavailable.

(** Durations are in nanoseconds. *)
Definition validate_operation_timeout (timeout : Z) : result CellularRuntimeError unit :=
  if (timeout =? 0) || (OPERATION_TIMEOUT_MAX_MS <? timeout / 1000000) then Err InvalidOperationTimeout else Ok tt.

(** ** The gate *)

Record RootPolicyEffectGateState := { ready : bool; in_flight : Z }.

Definition gate_new : RootPolicyEffectGateState := {| ready := false; in_flight := 0 |}.

Definition set_ready (g : RootPolicyEffectGateState) (r : bool) : RootPolicyEffectGateState :=
  {| ready := r; in_flight := in_flight g |}.

(** [false] without a permit. *)
Definition acquire (g : RootPolicyEffectGateState) : bool * RootPolicyEffectGateState :=
  if negb (ready g) then (false, g)
  else match checked_add usize_limit (in_flight g) 1 with
       | None => (false, g)
       | Some n => (true, {| ready := ready g; in_flight := n |})
       end.

(** The drop of a permit. *)
Definition permit_drop (g : RootPolicyEffectGateState) : RootPolicyEffectGateState :=
  if in_flight g =? 0 then g else {| ready := ready g; in_flight := in_flight g - 1 |}.

(** ** Owner and gate *)

Record CellularRuntimeCoordinator := { owner : CellularEgress; gate : RootPolicyEffectGateState }.

Definition coordinator_new : CellularRuntimeCoordinator := {| owner := Cellular.new; gate := gate_new |}.

Definition admission_snapshot (c : CellularRuntimeCoordinator) : CellularAdmissionSnapshot := admission (owner c).

Definition observe_network (c : CellularRuntimeCoordinator) (o : NetworkObservation)
    : CellularAdmissionSnapshot * CellularRuntimeCoordinator :=
  let g := set_ready (gate c) false in
  let e := (observe (owner c) o).2 in
  (admission e, {| owner := e; gate := g |}).

Definition network_lost (c : CellularRuntimeCoordinator) (s : ObservationSequence) (h : NetworkHandle)
    : CellularAdmissionSnapshot * CellularRuntimeCoordinator :=
  let g := set_ready (gate c) false in
  let e := (lost (owner c) s h).2 in
  (admission e, {| owner := e; gate := g |}).

Definition close_root_policy_gate (c : CellularRuntimeCoordinator) : CellularRuntimeCoordinator :=
  {| owner := owner c; gate := set_ready (gate c) false |}.

Definition authorize_root_policy (c : CellularRuntimeCoordinator) (s : ObservationSequence) (h : NetworkHandle)
    : bool * CellularRuntimeCoordinator :=
  let snapshot := admission (owner c) in
  let current := (adm_state snapshot =b? IsAdmitted) && (last_sequence snapshot =b? Some s)
                 && (admitted_network snapshot =b? Some h) in
  (current, {| owner := owner c; gate := set_ready (gate c) current |}).

(** Steps of any of its clients. *)
Inductive cellular_call :=
| GObserve (o : NetworkObservation)
| GLost (s : ObservationSequence) (h : NetworkHandle)
| GClose
| GAuthorize (s : ObservationSequence) (h : NetworkHandle)
| GAcquire
| GRelease.

Definition cellular_step (c : CellularRuntimeCoordinator) (e : cellular_call) : bool * CellularRuntimeCoordinator :=
  match e with
  | GObserve o => (true, (observe_network c o).2)
  | GLost s h => (true, (network_lost c s h).2)
  | GClose => (true, close_root_policy_gate c)
  | GAuthorize s h => authorize_root_policy c s h
  | GAcquire => let '(b, g) := acquire (gate c) in (b, {| owner := owner c; gate := g |})
  | GRelease => (true, {| owner := owner c; gate := permit_drop (gate c) |})
  end.

(** ** Waiting for effects to drain *)

Inductive gate_request := Idle | GateNow | Notified (remaining : Z).
Definition gate_reply (r : gate_request) : Type :=
  match r with Idle => bool | GateNow => Z | Notified _ => bool end.

Definition gask (r : gate_request) : prog gate_request gate_reply (gate_reply r) := request r.

(** [None] when the fuel ran out; a turn ends in a notification. *)
Fixpoint wait_quiesced_loop (fuel : nat) (deadline : Z) : prog gate_request gate_reply (option bool) :=
  match fuel with
  | O => Ret None
  | S fuel =>
      let> idle := gask Idle in
      if idle then Ret (Some true)
      else
        let> idle := gask Idle in
        if idle then Ret (Some true)
        else
          let> now := gask GateNow in
          if deadline <=? now then Ret (Some false)
          else
            let> notified := gask (Notified (deadline - now)) in
            if negb notified then Ret (Some false) else wait_quiesced_loop fuel deadline
  end.

Definition wait_quiesced_async (fuel : nat) (timeout : Z) : prog gate_request gate_reply (option bool) :=
  let> now := gask GateNow in wait_quiesced_loop fuel (now + timeout).

Abbreviation gdid := (@existT gate_request gate_reply).

(** It says yes right after it saw nothing in flight, and no only when the time is
    over: by the clock, or by a wait that was given what was left of it. *)
Lemma wait_quiesced_exact fuel timeout :
  emits (wait_quiesced_async fuel timeout) (fun t r =>
    (r = Some true -> list.last t = Some (gdid Idle true)) /\
    (r = Some false -> exists start t0, t = gdid GateNow start :: t0 /\
      ((exists n, start + timeout <= n /\ list.last t = Some (gdid GateNow n)) \/
       (exists n, list.last t = Some (gdid (Notified (start + timeout - n)) false))))).
Proof.
  apply emits_do. intros start. cbn [prog_bind].
  eapply (emits_mono _ (fun t r => (r = Some true -> list.last t = Some (gdid Idle true)) /\
    (r = Some false -> (exists n, start + timeout <= n /\ list.last t = Some (gdid GateNow n)) \/
       (exists n, list.last t = Some (gdid (Notified (start + timeout - n)) false))))).
  { intros t r [H1 H2]. destruct t as [|e t]; cbn [list.last] in *.
    - split; [intros H; by specialize (H1 H)|]. intros H. by destruct (H2 H) as [(n & _ & ?)|(n & ?)].
    - split; [done|]. intros H. exists start, (e :: t). split; [done|]. by apply H2. }
  generalize (start + timeout) as deadline. intros deadline.
  induction fuel as [|fuel IH]; cbn [wait_quiesced_loop]; [by apply emits_ret|].
  apply emits_do. intros []; cbn [prog_bind]; [by apply emits_ret|].
  apply emits_do. intros []; cbn [prog_bind]; [by apply emits_ret|].
  apply emits_do. intros now. cbn [prog_bind]. destruct (Z.leb_spec deadline now).
  { apply emits_ret. split; [done|]. intros _. left. by exists now. }
  apply emits_do. intros []; cbn [prog_bind negb].
  - eapply emits_mono; [|exact IH]. intros t r [H1 H2]. destruct t as [|e t].
    + split; [intros Hr; by specialize (H1 Hr)|]. intros Hr. by destruct (H2 Hr) as [(n & _ & ?)|(n & ?)].
    + split; [exact H1|exact H2].
  - apply emits_ret. split; [done|]. intros _. right. by exists now.
Qed.

(** ** Requests of gated effects *)

Inductive cell_request :=
| Egress (r : egress_request)
| AcquirePermit
| ReleasePermit
| GateReady
| TlsConfig
| ProbeTcp (a : SocketAddr) (ms : Z)
| ProbeTls (host : str) (ms : Z)
| ProbeWrite (text : str) (ms : Z)
| ProbeFlush (ms : Z)
| ProbeRead (limit ms : Z).

Definition cell_reply (r : cell_request) : Type :=
  match r with
  | Egress r => egress_reply r
  | AcquirePermit => bool
  | ReleasePermit => unit
  | GateReady => bool
  | TlsConfig => bool
  | ProbeTcp _ _ => step_result
  | ProbeTls _ _ => result ProductTlsError unit
  | ProbeWrite _ _ => step_result
  | ProbeFlush _ => step_result
  | ProbeRead _ _ => option (option str)        (* [None]: timeout, [Some None]: error *)
  end.

Abbreviation cellprog := (prog cell_request cell_reply).
Definition cellask (r : cell_request) : cellprog (cell_reply r) := request r.

Fixpoint egress {A} (p : eprog A) : cellprog A :=
  match p with
  | Ret a => Ret a
  | Do r k => Do (Egress r) (fun x => egress (k x))
  end.

(** [RootPolicyGatedConnector::connect]: the permit lives as long as the call. *)
Definition gated_connect (operation_timeout : Z) (target : ProxyConnectTarget)
    : cellprog (result ProxyOutboundConnectError SocketAddr) :=
  let> permit := cellask AcquirePermit in
  if negb permit then Ret (Err Unavailable)
  else
    let> r := egress (CellularConnector.connect operation_timeout target) in
    let> _ := cellask ReleasePermit in
    Ret r.

(** ** The public address *)

Definition PUBLIC_IP_ENDPOINT_HOST : str := lit "checkip.amazonaws.com".
Definition PUBLIC_IP_ENDPOINT_PORT : Z := 443.
Definition PUBLIC_IP_ENDPOINT_PATH : str := lit "/".
Definition PUBLIC_IP_RESPONSE_BODY_MAX_BYTES : Z := 64.
Definition HTTP_RESPONSE_MAX_BYTES : Z := 2048.

Inductive PublicIpProbeEffectFailure :=
| EffectSocketConnect | EffectSocketTimeout | EffectTlsHandshake | EffectTlsHostname | EffectHttpStatus
| EffectResponseTooLarge | EffectResponseMalformed | EffectIo.

Inductive PublicIpProbeFailure :=
| NoCurrentCellular | RootPolicyUnavailable | DnsUnavailable | ProbeDeadlineExceeded | StaleGeneration
| InvalidResponse | SocketConnect | SocketTimeout | TlsHandshake | TlsHostname | HttpStatus | ResponseTooLarge
| ResponseMalformed | ProbeIo.

Record PublicEgressIpObservation := { address : IpAddr; generation : Z }.

Record PreparedPublicIpProbe := { probe_authority : CellularNetworkAuthority; addresses : list IpAddr; deadline : Z }.

Definition map_dns_failure (e : CellularDnsPrepareError) : PublicIpProbeFailure :=
  match e with
  | DnsAuthorityUnavailable => NoCurrentCellular
  | ResolverFailed | UnusableResult => DnsUnavailable
  | DnsDeadlineExceeded => ProbeDeadlineExceeded
  | StaleAuthority => StaleGeneration
  end.

Definition prepare (timeout : Z) : eprog (result PublicIpProbeFailure PreparedPublicIpProbe) :=
  let> now := eask EgressNow in
  match checked_add instant_limit now timeout with
  | None => Ret (Err ProbeDeadlineExceeded)
  | Some deadline =>
      let> issued := issue_authority in
      match issued with
      | Err _ => Ret (Err NoCurrentCellular)
      | Ok a =>
          let> prepared := resolve_current_domain a PUBLIC_IP_ENDPOINT_HOST deadline in
          Ret (match prepared with
               | Err e => Err (map_dns_failure e)
               | Ok p => Ok {| probe_authority := dns_authority p; addresses := dns_addresses p; deadline := deadline |}
               end)
      end
  end.

Definition ensure_current (p : PreparedPublicIpProbe) : eprog (result PublicIpProbeFailure unit) :=
  let> r := validate_authority (probe_authority p) in Ret (map_err (fun _ => StaleGeneration) r).

Definition ensure_probe_deadline (p : PreparedPublicIpProbe) : eprog (result PublicIpProbeFailure unit) :=
  let> now := eask EgressNow in
  Ret (if deadline p - now <=? 0 then Err ProbeDeadlineExceeded else Ok tt).

Definition prepared_remaining_ms (p : PreparedPublicIpProbe) : eprog (result PublicIpProbeFailure Z) :=
  try> _ := ensure_current p in
  let> now := eask EgressNow in
  Ret (if deadline p - now <=? 0 then Err ProbeDeadlineExceeded
       else Ok (Z.max (Z.min ((deadline p - now) / 1000000) u64_max) 1)).

Fixpoint trim_ascii_start (s : str) : str :=
  match s with
  | b :: r => if is_ascii_whitespace b then trim_ascii_start r else s
  | [] => []
  end.

(** [trim_matches(char::is_ascii_whitespace)] *)
Definition trim_ascii (s : str) : str := rev (trim_ascii_start (rev (trim_ascii_start s))).

Definition parse_body (raw_body : str) : result PublicIpProbeFailure IpAddr :=
  if PUBLIC_IP_RESPONSE_BODY_MAX_BYTES <? Z.of_nat (length raw_body) then Err ResponseTooLarge
  else
    let value := trim_ascii raw_body in
    if (value =b? []) || existsb is_ascii_whitespace value then Err InvalidResponse
    else ok_or (parse_ip value) InvalidResponse.

Definition prepared_complete (p : PreparedPublicIpProbe) (raw_body : str)
    : eprog (result PublicIpProbeFailure PublicEgressIpObservation) :=
  try> _ := ensure_current p in
  try> _ := ensure_probe_deadline p in
  match parse_body raw_body with
  | Err e => Ret (Err e)
  | Ok a =>
      try> _ := ensure_current p in
      try> _ := ensure_probe_deadline p in
      Ret (Ok {| address := a; generation := observation_sequence (probe_authority p) |})
  end.

Definition effect_failure (e : PublicIpProbeEffectFailure) : PublicIpProbeFailure :=
  match e with
  | EffectSocketConnect => SocketConnect | EffectSocketTimeout => SocketTimeout | EffectTlsHandshake => TlsHandshake
  | EffectTlsHostname => TlsHostname | EffectHttpStatus => HttpStatus | EffectResponseTooLarge => ResponseTooLarge
  | EffectResponseMalformed => ResponseMalformed | EffectIo => ProbeIo
  end.

Definition prepared_effect_failed (p : PreparedPublicIpProbe) (e : PublicIpProbeEffectFailure) : eprog PublicIpProbeFailure :=
  let> current := ensure_current p in
  match current with
  | Err _ => Ret StaleGeneration
  | Ok _ =>
      let> in_time := ensure_probe_deadline p in
      Ret (match in_time with Err _ => ProbeDeadlineExceeded | Ok _ => effect_failure e end)
  end.


(** ** The gated ticket *)

Definition cbind {E A B} (c : cellprog (result E A)) (k : A -> cellprog (result E B)) : cellprog (result E B) :=
  prog_bind c (fun r => match r with Ok a => k a | Err e => Ret (Err e) end).

Notation "'gated>' x ':=' c 'in' k" := (cbind c (fun x => k))
  (at level 10, x pattern, c at level 100, k at level 200) : rust_scope.

(** [RuntimePublicIpProbe]: the prepared probe together with its permit. *)
Definition ensure_current_policy (p : PreparedPublicIpProbe) : cellprog (result PublicIpProbeFailure unit) :=
  let> current := egress (ensure_current p) in
  if negb (is_ok current) then Ret (Err StaleGeneration)
  else
    let> is_ready := cellask GateReady in
    Ret (if is_ready then Ok tt else Err RootPolicyUnavailable).

Definition remaining_timeout_ms (p : PreparedPublicIpProbe) : cellprog (result PublicIpProbeFailure Z) :=
  gated> _ := ensure_current_policy p in egress (prepared_remaining_ms p).

(** The permit goes with either way of ending the probe. *)
Definition complete (p : PreparedPublicIpProbe) (raw_body : str)
    : cellprog (result PublicIpProbeFailure PublicEgressIpObservation) :=
  let> result :=
    gated> _ := ensure_current_policy p in
    gated> observation := egress (prepared_complete p raw_body) in
    gated> _ := ensure_current_policy p in
    Ret (Ok observation) in
  let> _ := cellask ReleasePermit in
  Ret result.

Definition effect_failed (p : PreparedPublicIpProbe) (e : PublicIpProbeEffectFailure) : cellprog PublicIpProbeFailure :=
  let> current := ensure_current_policy p in
  let> failure := match current with Ok _ => egress (prepared_effect_failed p e) | Err f => Ret f end in
  let> _ := cellask ReleasePermit in
  Ret failure.

Definition prepare_public_ip_probe (operation_timeout : Z) : cellprog (result PublicIpProbeFailure PreparedPublicIpProbe) :=
  match validate_operation_timeout operation_timeout with
  | Err _ => Ret (Err ProbeDeadlineExceeded)
  | Ok _ =>
      let> permit := cellask AcquirePermit in
      if negb permit then Ret (Err RootPolicyUnavailable)
      else
        let> inner := egress (prepare operation_timeout) in
        match inner with
        | Err e => let> _ := cellask ReleasePermit in Ret (Err e)
        | Ok p => Ret (Ok p)
        end
  end.

(** ** The request over TLS *)

Inductive CandidateFailure := Retryable (e : PublicIpProbeEffectFailure) | Terminal (e : PublicIpProbeEffectFailure).

Definition remaining_failure (e : PublicIpProbeFailure) : PublicIpProbeEffectFailure :=
  match e with ProbeDeadlineExceeded => EffectSocketTimeout | _ => EffectIo end.

Definition probe_remaining (p : PreparedPublicIpProbe) : cellprog (result CandidateFailure Z) :=
  let> r := remaining_timeout_ms p in Ret (map_err (fun e => Terminal (remaining_failure e)) r).

Definition map_tls_failure (e : ProductTlsError) : CandidateFailure :=
  match e with
  | InvalidServerName => Terminal EffectTlsHostname
  | Configuration | HandshakeFailed => Retryable EffectTlsHandshake
  | DeadlineExceeded => Retryable EffectSocketTimeout
  end.

(** The answer of an effect under a timeout, [failed] when it came and was an error. *)
Definition timed (failed : PublicIpProbeEffectFailure) (s : step_result) : result CandidateFailure unit :=
  match s with
  | StepOk => Ok tt
  | StepFailed => Err (Retryable failed)
  | StepTimeout => Err (Retryable EffectSocketTimeout)
  end.

Definition parse_http_200_body (response : str) (max_body_bytes : Z) : result PublicIpProbeEffectFailure str :=
  match window_position [13; 10; 13; 10] response with
  | None => Err EffectResponseMalformed
  | Some separator =>
      let header := take separator response in
      if negb (utf8_valid header) then Err EffectResponseMalformed
      else
        match lines header with
        | [] => Err EffectResponseMalformed
        | status :: _ =>
            match split_whitespace status with
            | [] => Err EffectResponseMalformed
            | protocol :: parts =>
                match (match parts with [] => None | raw :: _ => parse_u16 raw end) with
                | None => Err EffectResponseMalformed
                | Some status_code =>
                    if negb ((protocol =b? lit "HTTP/1.0") || (protocol =b? lit "HTTP/1.1")) || (status_code <>b? 200)
                    then Err EffectHttpStatus
                    else
                      let body := drop (separator + 4) response in
                      if max_body_bytes <? Z.of_nat (length body) then Err EffectResponseTooLarge
                      else if utf8_valid body then Ok body else Err EffectResponseMalformed
                end
            end
        end
  end.

Definition probe_request_text : str :=
  lit "GET " ++ PUBLIC_IP_ENDPOINT_PATH ++ lit " HTTP/1.1" ++ [13; 10] ++ lit "Host: " ++ PUBLIC_IP_ENDPOINT_HOST ++ [13; 10]
  ++ lit "Connection: close" ++ [13; 10] ++ lit "User-Agent: mobile-proxy-mish-u4" ++ [13; 10]
  ++ lit "Accept: text/plain" ++ [13; 10; 13; 10].

Definition execute_candidate (p : PreparedPublicIpProbe) (address : IpAddr) : cellprog (result CandidateFailure str) :=
  gated> ms := probe_remaining p in
  let> connected := cellask (ProbeTcp {| sa_ip := address; sa_port := PUBLIC_IP_ENDPOINT_PORT |} ms) in
  gated> _ := Ret (timed EffectSocketConnect connected) in
  gated> ms := probe_remaining p in
  let> shaken := cellask (ProbeTls PUBLIC_IP_ENDPOINT_HOST ms) in
  gated> _ := Ret (map_err map_tls_failure shaken) in
  gated> ms := probe_remaining p in
  let> written := cellask (ProbeWrite probe_request_text ms) in
  gated> _ := Ret (timed EffectIo written) in
  gated> ms := probe_remaining p in
  let> flushed := cellask (ProbeFlush ms) in
  gated> _ := Ret (timed EffectIo flushed) in
  gated> ms := probe_remaining p in
  let> read := cellask (ProbeRead (HTTP_RESPONSE_MAX_BYTES + 1) ms) in
  match read with
  | None => Ret (Err (Retryable EffectSocketTimeout))
  | Some None => Ret (Err (Retryable EffectIo))
  | Some (Some response) =>
      if HTTP_RESPONSE_MAX_BYTES <? Z.of_nat (length response) then Ret (Err (Terminal EffectResponseTooLarge))
      else Ret (map_err Terminal (parse_http_200_body response PUBLIC_IP_RESPONSE_BODY_MAX_BYTES))
  end.

Definition fail_probe (p : PreparedPublicIpProbe) (e : PublicIpProbeEffectFailure)
    : cellprog (result PublicIpProbeFailure PublicEgressIpObservation) :=
  let> failure := effect_failed p e in Ret (Err failure).

Fixpoint probe_each (p : PreparedPublicIpProbe) (numeric : list str) (last_retryable : PublicIpProbeEffectFailure)
    : cellprog (result PublicIpProbeFailure PublicEgressIpObservation) :=
  match numeric with
  | [] => fail_probe p last_retryable
  | raw :: numeric =>
      match parse_ip raw with
      | None => fail_probe p EffectResponseMalformed
      | Some address =>
          let> tried := execute_candidate p address in
          match tried with
          | Ok body => complete p body
          | Err (Retryable failure) => probe_each p numeric failure
          | Err (Terminal failure) => fail_probe p failure
          end
      end
  end.

Definition execute_public_ip_probe (p : PreparedPublicIpProbe)
    : cellprog (result PublicIpProbeFailure PublicEgressIpObservation) :=
  match ip_display <$> addresses p with
  | [] => fail_probe p EffectResponseMalformed
  | numeric => probe_each p numeric EffectSocketConnect
  end.

Definition observe_public_egress_ip_async (operation_timeout : Z)
    : cellprog (result PublicIpProbeFailure PublicEgressIpObservation) :=
  let> tls := cellask TlsConfig in
  if negb tls then Ret (Err TlsHandshake)
  else
    gated> p := prepare_public_ip_probe operation_timeout in
    execute_public_ip_probe p.

(** ** The gate and the admission *)

Definition cellular_run (c : CellularRuntimeCoordinator) (es : list cellular_call) : CellularRuntimeCoordinator :=
  fold_left (fun c e => (cellular_step c e).2) es c.

Definition is_permit_call (e : cellular_call) : Prop :=
  match e with GAcquire | GRelease => True | _ => False end.

(** The gate is open by the last decision only. *)
Record gate_ok (es : list cellular_call) (c : CellularRuntimeCoordinator) : Prop := {
  gate_by : ready (gate c) = true -> exists s h pre post,
    es = pre ++ GAuthorize s h :: post /\ Forall is_permit_call post /\
    validate_network_authority (owner c) {| network := h; sequence := s |} = Ok tt }.

Lemma acquire_ready g : ready (acquire g).2 = ready g.
Proof. unfold acquire. destruct (ready g) eqn:E; cbn [negb]; [|done]. destruct (checked_add _ _ _); done. Qed.

Lemma permit_drop_ready g : ready (permit_drop g) = ready g.
Proof. unfold permit_drop. by destruct (_ =? 0). Qed.

Lemma cellular_step_gate es c e : gate_ok es c -> gate_ok (es ++ [e]) (cellular_step c e).2.
Proof.
  intros [H]. split.
  assert (is_permit_call e -> owner (cellular_step c e).2 = owner c -> ready (gate c) = true ->
    exists s h pre post, es ++ [e] = pre ++ GAuthorize s h :: post /\ Forall is_permit_call post /\
      validate_network_authority (owner (cellular_step c e).2) {| network := h; sequence := s |} = Ok tt) as Hkeep.
  { intros He Ho Hr. destruct (H Hr) as (s & h & pre & post & -> & Hp & Hv). exists s, h, pre, (post ++ [e]).
    rewrite Ho, <- app_assoc. split_and!; [done| |done]. apply Forall_app. by repeat constructor. }
  destruct e as [o|s h| |s h| |]; try done.
  - cbn. intros Hc. exists s, h, es, []. split_and!; [done|constructor|]. unfold validate_network_authority. cbn.
    apply andb_true_iff in Hc as [[H1 H2]%andb_true_iff H3]. by rewrite H1, H2, H3.
  - intros Hr. apply Hkeep; [done| |]; revert Hr; cbn; destruct (acquire (gate c)) as [b g] eqn:E; cbn; [done|].
    intros Hr. rewrite <- (acquire_ready (gate c)), E. done.
  - intros Hr. apply Hkeep; [done|done|]. revert Hr. cbn. by rewrite permit_drop_ready.
Qed.

Lemma cellular_run_gate es : gate_ok es (cellular_run coordinator_new es).
Proof.
  induction es as [|e es IH] using rev_ind; [by split|]. unfold cellular_run. rewrite fold_left_app.
  by apply cellular_step_gate.
Qed.

(** ** Permits

    What one caller holds, by its own events. *)

Abbreviation cev := (event cell_request cell_reply).
Abbreviation cdid := (@existT cell_request cell_reply).

Definition permit_delta (e : cev) : Z :=
  match e with
  | existT AcquirePermit true => 1
  | existT ReleasePermit _ => -1
  | _ => 0
  end.

Fixpoint holding (t : list cev) : Z := match t with [] => 0 | e :: t => permit_delta e + holding t end.

(** Effects that leave the process. *)
Definition outside (r : cell_request) : bool :=
  match r with
  | Egress (Resolve _ _) | Egress (DialSocket _ _) => true
  | ProbeTcp _ _ | ProbeTls _ _ | ProbeWrite _ _ | ProbeFlush _ | ProbeRead _ _ => true
  | _ => false
  end.

Definition permit_safe (t : list cev) (r : cell_request) (_ : cell_reply r) : Prop :=
  match r with
  | AcquirePermit => holding t = 0
  | ReleasePermit => holding t = 1
  | r => outside r = true -> holding t = 1
  end.

Definition plain (r : cell_request) : Prop := match r with AcquirePermit | ReleasePermit => False | _ => True end.

Lemma holding_app t t' : holding (t ++ t') = holding t + holding t'.
Proof. induction t as [|e t IH]; cbn [app holding]; [done|]. rewrite IH. lia. Qed.

Lemma holding_plain t : Forall (fun e : cev => plain (projT1 e)) t -> holding t = 0.
Proof. induction 1 as [|[r x] t He _ IH]; cbn [holding]; [done|]. rewrite IH. by destruct r. Qed.

Abbreviation permitted p t := (always (fun _ _ => True) permit_safe p t).

Lemma permitted_plain {A} (p : cellprog A) t : only plain p -> holding t = 1 -> permitted p t.
Proof.
  revert t. induction p as [a|r k IH]; intros t Ho Ht; [exact I|]. destruct Ho as [Hr Ho]. intros x _. split.
  - destruct r; try exact Ht; try done; by intros _.
  - apply IH; [done|]. rewrite holding_app, Ht. cbn. by destruct r.
Qed.

(** Plain steps under the permit, then the rest. *)
Lemma permitted_bind {A B} (p : cellprog A) (k : A -> cellprog B) t :
  only plain p -> holding t = 1 -> (forall a t, holding t = 1 -> permitted (k a) t) -> permitted (prog_bind p k) t.
Proof.
  intros Ho Ht Hk. eapply always_bind_only; [exact Ho|by apply permitted_plain|].
  intros a t' Hp. apply Hk. by rewrite holding_app, Ht, holding_plain.
Qed.

Lemma permitted_release {A} (a : A) t : holding t = 1 -> permitted (let> _ := cellask ReleasePermit in Ret a) t.
Proof. intros Ht [] _. by split. Qed.

Lemma egress_plain {A} (p : eprog A) : only plain (egress p).
Proof. induction p as [a|r k IH]; by split. Qed.

Ltac plain_steps :=
  repeat first
    [ exact I
    | match goal with
      | |- only _ (egress _) => apply egress_plain
      | |- only _ (prog_bind _ _) => apply only_bind; [|intros ?]
      | |- only _ (request _) => split; [exact I|intros ?]
      | |- only _ (Do _ _) => split; [exact I|intros ?]
      | |- only _ (match ?x with _ => _ end) => destruct x
      end ].

Lemma ensure_current_policy_plain p : only plain (ensure_current_policy p).
Proof. unfold ensure_current_policy, cellask. plain_steps. Qed.

Lemma remaining_plain p : only plain (probe_remaining p).
Proof.
  unfold probe_remaining, remaining_timeout_ms, cbind. apply only_bind; [|intros ?; exact I].
  apply only_bind; [apply ensure_current_policy_plain|]. intros []; plain_steps.
Qed.

Lemma execute_candidate_plain p a : only plain (execute_candidate p a).
Proof.
  unfold execute_candidate, cbind, cellask.
  repeat first [apply remaining_plain | progress plain_steps].
Qed.

(** How a probe ends. *)
Lemma permitted_complete p body t : holding t = 1 -> permitted (complete p body) t.
Proof.
  intros Ht. unfold complete, cbind. apply permitted_bind; [|done|intros; by apply permitted_release].
  repeat first [apply ensure_current_policy_plain | progress plain_steps].
Qed.

Lemma permitted_fail p e t : holding t = 1 -> permitted (fail_probe p e) t.
Proof.
  intros Ht. unfold fail_probe, effect_failed.
  apply always_bind; [|intros; exact I]. apply permitted_bind; [apply ensure_current_policy_plain|done|].
  intros c t' Ht'. apply permitted_bind; [destruct c; plain_steps|done|]. intros; by apply permitted_release.
Qed.

Lemma permitted_each p numeric last t : holding t = 1 -> permitted (probe_each p numeric last) t.
Proof.
  revert last t. induction numeric as [|raw numeric IH]; intros last t Ht; cbn [probe_each]; [by apply permitted_fail|].
  destruct (parse_ip raw); [|by apply permitted_fail].
  apply permitted_bind; [apply execute_candidate_plain|done|]. intros [body|[]] t' Ht'.
  - by apply permitted_complete.
  - by apply IH.
  - by apply permitted_fail.
Qed.

Lemma permitted_connect timeout target : permitted (gated_connect timeout target) [].
Proof.
  intros permit _. split; [done|]. cbn [prog_bind]. destruct permit; cbn [negb]; [|exact I].
  apply permitted_bind; [apply egress_plain|done|]. intros; by apply permitted_release.
Qed.

(** The permit is part of a prepared probe. *)
Lemma emits_plain {A} (p : cellprog A) : only plain p -> emits p (fun t _ => holding t = 0).
Proof.
  induction p as [a|r k IH]; intros Ho; [by apply emits_ret|]. destruct Ho as [Hr Ho]. apply emits_do. intros x.
  eapply emits_mono; [|by apply IH]. intros t a Ht. cbn [holding]. rewrite Ht. by destruct r.
Qed.

Lemma emits_plain_bind {A B} (p : cellprog A) (k : A -> cellprog B) n :
  only plain p -> (forall a, emits (k a) (fun t _ => holding t = n)) -> emits (prog_bind p k) (fun t _ => holding t = n).
Proof.
  intros Ho Hk. apply emits_bind. eapply emits_mono; [|by apply emits_plain]. intros t a Ht.
  eapply emits_mono; [|apply Hk]. intros t' b Ht'. by rewrite holding_app, Ht.
Qed.

Lemma emits_release {A} (a : A) : emits (let> _ := cellask ReleasePermit in Ret a) (fun t _ => holding t = -1).
Proof. apply emits_do. intros []. by apply emits_ret. Qed.

Lemma emits_prepare timeout :
  emits (prepare_public_ip_probe timeout) (fun t r => holding t = match r with Ok _ => 1 | Err _ => 0 end).
Proof.
  unfold prepare_public_ip_probe. destruct (validate_operation_timeout timeout); [|by apply emits_ret].
  apply emits_do. intros []; cbn [prog_bind negb]; [|by apply emits_ret].
  apply emits_bind. eapply emits_mono; [|apply emits_plain, egress_plain]. intros t [p|e] Ht.
  - apply emits_ret. cbn [holding]. rewrite app_nil_r, Ht. done.
  - apply emits_do. intros []. apply emits_ret. cbn [holding]. by rewrite holding_app, Ht.
Qed.

Lemma permitted_prepare timeout t : holding t = 0 -> permitted (prepare_public_ip_probe timeout) t.
Proof.
  intros Ht. unfold prepare_public_ip_probe. destruct (validate_operation_timeout timeout); [|exact I].
  intros permit _. split; [done|]. cbn [prog_bind]. destruct permit; cbn [negb]; [|exact I].
  apply permitted_bind; [apply egress_plain|by rewrite holding_app, Ht|].
  intros [p|e] t' Ht'; [exact I|by apply permitted_release].
Qed.

Lemma permitted_execute p t : holding t = 1 -> permitted (execute_public_ip_probe p) t.
Proof.
  intros Ht. unfold execute_public_ip_probe.
  destruct (ip_display <$> addresses p) as [|x l]; [by apply permitted_fail|by apply permitted_each].
Qed.

Lemma permitted_observe timeout : permitted (observe_public_egress_ip_async timeout) [].
Proof.
  intros tls _. split; [done|]. cbn [prog_bind]. destruct tls; cbn [negb]; [|exact I].
  unfold cbind. eapply always_bind_emits; [apply emits_prepare|by apply permitted_prepare|].
  intros [p|e] t Ht; [|exact I]. apply permitted_execute. by rewrite holding_app, Ht.
Qed.

(** Every way out gives the permit back. *)
Lemma emits_complete p body : emits (complete p body) (fun t _ => holding t = -1).
Proof.
  unfold complete. apply emits_plain_bind; [|intros; apply emits_release]. unfold cbind.
  repeat first [apply ensure_current_policy_plain | progress plain_steps].
Qed.

Lemma emits_fail p e : emits (fail_probe p e) (fun t _ => holding t = -1).
Proof.
  unfold fail_probe, effect_failed. apply emits_bind. eapply emits_mono.
  2: { apply (emits_plain_bind _ _ (-1)); [apply ensure_current_policy_plain|]. intros c.
       apply (emits_plain_bind _ _ (-1)); [destruct c; plain_steps|]. intros; apply emits_release. }
  intros t a Ht. apply emits_ret. by rewrite app_nil_r.
Qed.

Lemma emits_execute p : emits (execute_public_ip_probe p) (fun t _ => holding t = -1).
Proof.
  assert (forall numeric last, emits (probe_each p numeric last) (fun t _ => holding t = -1)) as H.
  { induction numeric as [|raw numeric IH]; intros last; cbn [probe_each]; [apply emits_fail|].
    destruct (parse_ip raw); [|apply emits_fail].
    apply emits_plain_bind; [apply execute_candidate_plain|]. intros [body|[]]; [apply emits_complete|apply IH|apply emits_fail]. }
  unfold execute_public_ip_probe. destruct (ip_display <$> addresses p); [apply emits_fail|apply H].
Qed.

Lemma emits_observe_ip timeout : emits (observe_public_egress_ip_async timeout) (fun t _ => holding t = 0).
Proof.
  apply emits_do. intros []; cbn [prog_bind negb]; [|by apply emits_ret]. unfold cbind. apply emits_bind.
  eapply emits_mono; [|apply emits_prepare]. intros t [p|e] Ht; [|by apply emits_ret; rewrite app_nil_r].
  eapply emits_mono; [|apply emits_execute]. intros t' r Ht'. cbn [holding]. by rewrite holding_app, Ht, Ht'.
Qed.

Lemma emits_connect timeout target : emits (gated_connect timeout target) (fun t _ => holding t = 0).
Proof.
  apply emits_do. intros []; cbn [prog_bind negb]; [|by apply emits_ret].
  eapply emits_mono; [|apply emits_plain_bind; [apply egress_plain|intros; apply emits_release]].
  intros t r Ht. cbn [holding]. by rewrite Ht.
Qed.

(** ** Callers at once

    Any number of connections and observations, with the owner's and the root
    policy's calls between their steps. *)

Definition is_policy_call (e : cellular_call) : bool := match e with GAcquire | GRelease => false | _ => true end.

Record cell_input := { before : list cellular_call; answer : forall r, cell_reply r }.

Definition policy_run (c : CellularRuntimeCoordinator) (es : list cellular_call) : CellularRuntimeCoordinator :=
  cellular_run c (List.filter is_policy_call es).

Definition cell_answer (r : cell_request) (c : CellularRuntimeCoordinator) (x : cell_input)
    : cell_reply r * CellularRuntimeCoordinator :=
  match r return cell_reply r * CellularRuntimeCoordinator with
  | AcquirePermit => cellular_step c GAcquire
  | ReleasePermit => (tt, (cellular_step c GRelease).2)
  | GateReady => (ready (gate c), c)
  | Egress IssueAuthority => (admitted_network_authority (owner c), c)
  | Egress (ValidateAuthority a) => (validate_network_authority (owner c) a, c)
  | Egress OwnerSequence => (last_sequence (admission_snapshot c), c)
  | r => (answer x r, c)
  end.

Definition cell_serve (r : cell_request) (c : CellularRuntimeCoordinator) (_ : nat -> bool) (_ : nat) (x : cell_input)
    : option (cell_reply r * CellularRuntimeCoordinator) :=
  Some (cell_answer r (policy_run c (before x)) x).

Inductive cell_caller := CConnect (operation_timeout : Z) (target : ProxyConnectTarget) | CObserve (operation_timeout : Z).

Definition cell_body (c : cell_caller)
    : cellprog (result ProxyOutboundConnectError SocketAddr + result PublicIpProbeFailure PublicEgressIpObservation) :=
  match c with
  | CConnect timeout target => let> r := gated_connect timeout target in Ret (inl r)
  | CObserve timeout => let> r := observe_public_egress_ip_async timeout in Ret (inr r)
  end.

Abbreviation cell_step := (step cell_serve (fun _ _ => []) cell_body).
Abbreviation cell_events := (events cell_serve (fun _ _ => []) cell_body).

Definition cell_world := world cell_request cell_reply CellularRuntimeCoordinator
  (result ProxyOutboundConnectError SocketAddr + result PublicIpProbeFailure PublicEgressIpObservation).

Definition cell_run (w : cell_world) (es : list (sched cell_input cell_caller)) : cell_world :=
  fold_left (fun w e => (cell_step w e).2) es w.

Definition cell_world_new : cell_world := {| shared := coordinator_new; threads := [] |}.

Lemma permitted_body c : permitted (cell_body c) [].
Proof. destruct c; (apply always_bind; [apply permitted_connect || apply permitted_observe|intros; exact I]). Qed.

Lemma emits_body c : emits (cell_body c) (fun t _ => holding t = 0).
Proof.
  destruct c; apply emits_bind; (eapply emits_mono; [|apply emits_connect || apply emits_observe_ip]);
    intros t r Ht; apply emits_ret; by rewrite app_nil_r.
Qed.

(** Policy calls leave the permits alone. *)
Lemma policy_run_in_flight es c : in_flight (gate (policy_run c es)) = in_flight (gate c).
Proof.
  unfold policy_run, cellular_run. revert c. induction es as [|e es IH]; intros c; cbn [List.filter]; [done|].
  destruct e; cbn [is_policy_call fold_left]; rewrite IH; try done.
Qed.

(** *** All permits together *)

Fixpoint sum_over (f : nat -> Z) (n : nat) : Z := match n with O => 0 | S n => sum_over f n + f n end.

Lemma sum_over_ge f n i : (forall j, 0 <= f j) -> (i < n)%nat -> f i <= sum_over f n.
Proof.
  intros Hf. assert (forall m, 0 <= sum_over f m) as Hs.
  { induction m as [|m IH]; cbn [sum_over]; [lia|]. specialize (Hf m). lia. }
  induction n as [|n IH]; intros Hi; [lia|]. cbn [sum_over]. pose proof (Hs n). pose proof (Hf n).
  destruct (decide (i = n)) as [->|]; [lia|]. specialize (IH ltac:(lia)). lia.
Qed.

Lemma sum_over_bump f g n i d :
  (i < n)%nat -> g i = f i + d -> (forall j, j <> i -> g j = f j) -> sum_over g n = sum_over f n + d.
Proof.
  intros Hi Hgi Hg. induction n as [|n IH]; [lia|]. cbn [sum_over]. destruct (decide (n = i)) as [->|Hne].
  - rewrite Hgi. assert (forall m, (m <= i)%nat -> sum_over g m = sum_over f m) as Hs.
    { induction m as [|m IHm]; intros Hm; cbn [sum_over]; [done|]. by rewrite IHm, Hg by lia. }
    rewrite Hs by lia. lia.
  - rewrite IH, Hg by lia. lia.
Qed.

(** Every thread is some way through its body, within its permits, and the gate
    counts the permits of all. *)
Record ledger (w : cell_world) (t : list (nat * cev)) : Prop := {
  ledger_tracked : tracked (fun _ => True) (fun _ _ => True) (fun p => permitted p []) w t;
  ledger_body i p : threads w !! i = Some p -> exists c, follows (cell_body c) (own i t) p;
  ledger_holds i : 0 <= holding (own i t) <= 1;
  ledger_total : in_flight (gate (shared w)) = sum_over (fun i => holding (own i t)) (length (threads w)) }.

Lemma holding_own_snoc i j e t :
  holding (own i (t ++ [(j, e)])) = holding (own i t) + if decide (j = i) then permit_delta e else 0.
Proof. rewrite own_snoc, holding_app. destruct (decide (j = i)); cbn [holding]; lia. Qed.

Lemma own_fresh_sum (w : cell_world) t n : tracked (fun _ => True) (fun _ _ => True) (fun p => permitted p []) w t -> (length (threads w) <= n)%nat ->
  sum_over (fun i => holding (own i t)) n = sum_over (fun i => holding (own i t)) (length (threads w)).
Proof.
  intros [_ _ Hf _] Hn. induction n as [|n IH]; [by replace (length (threads w)) with 0%nat by lia|].
  destruct (decide (length (threads w) = S n)) as [->|]; [done|]. cbn [sum_over]. rewrite IH, Hf by lia. cbn. lia.
Qed.

(** What one answer does to the count. *)
Lemma cell_answer_in_flight r c x :
  0 <= in_flight (gate c) -> (r = ReleasePermit -> 1 <= in_flight (gate c)) ->
  in_flight (gate (cell_answer r c x).2) = in_flight (gate c) + permit_delta (cdid r (cell_answer r c x).1).
Proof.
  intros H0 Hr. destruct r as [e| | | | | | | | |]; try (cbn; lia).
  - destruct e; cbn; lia.
  - cbn. unfold acquire, checked_add. destruct (ready (gate c)); cbn; [|lia]. destruct (_ <=? _); cbn; lia.
  - cbn. unfold permit_drop. specialize (Hr eq_refl). rewrite (proj2 (Z.eqb_neq _ _)) by lia. cbn. lia.
Qed.

Lemma ledger_step w e t : ledger w t -> ledger (cell_step w e).2 (t ++ option_list (cell_step w e).1).
Proof.
  intros [Ht Hb Hh Htot].
  destruct (tracked_step cell_serve (fun _ _ => []) cell_body (fun _ => True) (fun _ _ => True) permit_safe
    (fun _ _ _ _ _ _ _ _ _ => I) (fun _ _ _ _ _ _ _ _ _ _ _ => I) (fun p => permitted p []) (fun _ H => H)
    permitted_body (fun _ _ => Forall_nil_2 _) w e t Ht) as [Ht' Hsafe].
  destruct e as [c|i x]; cbn [step] in *.
  { cbn [fst snd option_list shared threads] in *. rewrite app_nil_r in *. split; [done| |done|]; cbn [shared threads].
    { intros i p [H|[Hi H]]%lookup_app_Some; [by apply Hb|]. apply list_lookup_singleton_Some in H as [Hi' <-].
      exists c. rewrite (tracked_fresh _ _ _ _ _ Ht) by lia. constructor. }
    rewrite Htot. symmetry. apply own_fresh_sum; [done|]. rewrite length_app. lia. }
  destruct (threads w !! i) as [[a|r k]|] eqn:Hi; try (cbn [fst snd option_list] in *; rewrite app_nil_r in *; by split).
  unfold cell_serve in *. destruct (cell_answer r (policy_run (shared w) (before x)) x) as [y c] eqn:Ha.
  cbn [fst snd] in *. change (option_list (Some (i, cdid r y))) with [(i, cdid r y)] in *.
  specialize (Hsafe i r y eq_refl). pose proof (lookup_lt_Some _ _ _ Hi) as Hlt.
  pose proof (sum_over_ge (fun i => holding (own i t)) _ i (fun j => proj1 (Hh j)) Hlt) as Hge. cbv beta in Hge.
  split; [done| | |].
  - intros j p. cbn [threads]. rewrite app_nil_r, own_snoc. intros [(<- & <- & _)|[Hne H]]%list_lookup_insert_Some.
    + rewrite decide_True by done. destruct (Hb i _ Hi) as (b & Hf). exists b. by constructor.
    + rewrite decide_False, app_nil_r by done. by apply Hb.
  - intros j. rewrite holding_own_snoc. pose proof (Hh j). destruct (decide (i = j)) as [<-|]; [|lia].
    destruct r as [e| | | | | | | | |]; try (cbn; lia).
    + cbn in Hsafe. rewrite Hsafe. destruct y; cbn; lia.
    + cbn in Hsafe. rewrite Hsafe. cbn. lia.
  - cbn [shared threads]. rewrite app_nil_r, length_insert.
    rewrite (sum_over_bump (fun i => holding (own i t)) _ _ i (permit_delta (cdid r y)) Hlt).
    + rewrite <- Htot. pose proof (cell_answer_in_flight r (policy_run (shared w) (before x)) x) as Hd.
      rewrite policy_run_in_flight, Ha in Hd. apply Hd; [pose proof (Hh i); lia|]. intros ->. cbn in Hsafe. lia.
    + by rewrite holding_own_snoc, decide_True.
    + intros j Hj. rewrite holding_own_snoc, decide_False by done. lia.
Qed.

Lemma cell_events_app es es' w : cell_events w (es ++ es') = cell_events w es ++ cell_events (cell_run w es) es'.
Proof.
  unfold cell_run. revert w. induction es as [|e es IH]; intros w; cbn [app events fold_left]; [done|]. by rewrite IH, app_assoc.
Qed.

Lemma permit_ledger_run es : ledger (cell_run cell_world_new es) (cell_events cell_world_new es).
Proof.
  induction es as [|e es IH] using rev_ind.
  - split; [|by intros i p|done|done]. split; [done|by intros i p|done|constructor].
  - rewrite cell_events_app. unfold cell_run at 1. rewrite fold_left_app. cbn [fold_left events]. rewrite app_nil_r.
    by apply ledger_step.
Qed.

(** A thread that has ended gave its permit back. *)
Lemma ledger_finished w t i a : ledger w t -> threads w !! i = Some (Ret a) -> holding (own i t) = 0.
Proof.
  intros [_ Hb _ _] Hi. destruct (Hb i _ Hi) as (c & Hf).
  apply (emits_follows _ _ _ _ (emits_body c) Hf).
Qed.

(** *** Quiescence *)

Definition quiesced (c : CellularRuntimeCoordinator) : Prop := ready (gate c) = false /\ in_flight (gate c) = 0.

Definition no_authorize (e : sched cell_input cell_caller) : Prop :=
  match e with
  | Advance _ x => Forall (fun e => match e with GAuthorize _ _ => False | _ => True end) (before x)
  | Call _ => True
  end.

Lemma policy_run_quiesced es c :
  Forall (fun e => match e with GAuthorize _ _ => False | _ => True end) es -> quiesced c -> quiesced (policy_run c es).
Proof.
  intros Hes. revert c. unfold policy_run, cellular_run.
  induction Hes as [|e es He _ IH]; intros c Hc; cbn [List.filter]; [done|].
  destruct e; try done; cbn [is_policy_call fold_left]; apply IH; try done; by destruct Hc.
Qed.

Lemma cell_answer_quiesced r c x : quiesced c -> quiesced (cell_answer r c x).2.
Proof.
  intros [Hr Hf]. destruct r as [e| | | | | | | | |]; try done; [by destruct e| |]; cbn.
  - unfold acquire. by rewrite Hr.
  - unfold permit_drop. rewrite Hf. by split.
Qed.

Lemma quiesced_step w e t :
  ledger w t -> quiesced (shared w) -> no_authorize e ->
  quiesced (shared (cell_step w e).2) /\
  (forall i r x, (cell_step w e).1 = Some (i, cdid r x) -> outside r = false).
Proof.
  intros HL Hq He. destruct e as [c|i x]; cbn [step].
  { by split. }
  destruct (threads w !! i) as [[a|r k]|] eqn:Hi; try (by split).
  unfold cell_serve. destruct (cell_answer r (policy_run (shared w) (before x)) x) as [y c] eqn:Ha. cbn [fst snd shared].
  split.
  { replace c with (cell_answer r (policy_run (shared w) (before x)) x).2 by (by rewrite Ha).
    by apply cell_answer_quiesced, policy_run_quiesced. }
  intros j r' y' E. assert (r' = r) as -> by (by injection E).
  destruct (outside r) eqn:Ho; [|done]. exfalso.
  destruct (tracked_step cell_serve (fun _ _ => []) cell_body (fun _ => True) (fun _ _ => True) permit_safe
    (fun _ _ _ _ _ _ _ _ _ => I) (fun _ _ _ _ _ _ _ _ _ _ _ => I) (fun p => permitted p []) (fun _ H => H)
    permitted_body (fun _ _ => Forall_nil_2 _) w (Advance i x) t (ledger_tracked _ _ HL)) as [_ Hsafe].
  cbn [step] in Hsafe. rewrite Hi in Hsafe. unfold cell_serve in Hsafe. rewrite Ha in Hsafe. specialize (Hsafe i r y eq_refl).
  pose proof (sum_over_ge (fun i => holding (own i t)) _ i (fun j => proj1 (ledger_holds _ _ HL j)) (lookup_lt_Some _ _ _ Hi)) as Hge.
  cbv beta in Hge. rewrite <- (ledger_total _ _ HL) in Hge. destruct Hq as [_ Hq]. rewrite Hq in Hge.
  assert (holding (own i t) = 1) by (destruct r; try done; by apply Hsafe). lia.
Qed.

Lemma quiesced_events es w t :
  ledger w t -> quiesced (shared w) -> Forall no_authorize es ->
  Forall (fun '(_, e) => outside (asked e) = false) (cell_events w es).
Proof.
  revert w t. induction es as [|e es IH]; intros w t HL Hq Hes; cbn [events]; [constructor|].
  apply Forall_cons_iff in Hes as [He Hes]. destruct (quiesced_step w e t HL Hq He) as [Hq' Hev]. apply Forall_app. split.
  - destruct (cell_step w e).1 as [[i [r x]]|] eqn:E; [|constructor]. constructor; [|constructor]. by apply (Hev i r x).
  - by apply (IH _ _ (ledger_step w e t HL)).
Qed.

(** ** The observed address *)

Definition lift_event (e : eev) : cev := cdid (Egress (projT1 e)) (projT2 e).

Lemma emits_egress {A} (p : eprog A) Q :
  emits p Q -> emits (egress p) (fun t a => exists te, t = lift_event <$> te /\ Q te a).
Proof.
  revert Q. induction p as [a|r k IH]; intros Q H; cbn [egress].
  - apply emits_ret. exists []. split; [done|]. by apply emits_ret in H.
  - rewrite emits_do in H. apply emits_do. intros x. specialize (H x). eapply emits_mono; [|apply IH, H].
    intros t a (te & -> & HQ). by exists (edid r x :: te).
Qed.

Lemma emits_cbind {E A B} (c : cellprog (result E A)) (k : A -> cellprog (result E B)) P Q :
  emits c P -> (forall t e, P t (Err e) -> Q t (Err e)) ->
  (forall t a, P t (Ok a) -> emits (k a) (fun t' r => Q (t ++ t') r)) -> emits (cbind c k) Q.
Proof.
  intros Hc HE HO. unfold cbind. apply emits_bind. eapply emits_mono; [|exact Hc]. intros t [a|e] H; [by apply HO|].
  apply emits_ret. rewrite app_nil_r. by apply HE.
Qed.

(** The deadline and the authority at the end of a successful probe. *)
Lemma emits_prepared_complete p body :
  emits (prepared_complete p body) (fun t r => forall o, r = Ok o ->
    parse_body body = Ok (address o) /\ generation o = observation_sequence (probe_authority p) /\
    exists t0 n, n < deadline p /\ t = t0 ++ [edid (ValidateAuthority (probe_authority p)) (Ok tt); edid EgressNow n]).
Proof.
  unfold prepared_complete, ensure_current, ensure_probe_deadline, validate_authority, ebind.
  apply emits_do. intros [[]|e]; cbn [prog_bind map_err]; [|apply emits_ret; by intros].
  apply emits_do. intros n0. cbn [prog_bind]. destruct (deadline p - n0 <=? 0); [apply emits_ret; by intros|].
  destruct (parse_body body) as [a|e]; [|apply emits_ret; by intros].
  apply emits_do. intros [[]|e]; cbn [prog_bind map_err]; [|apply emits_ret; by intros].
  apply emits_do. intros n. cbn [prog_bind]. destruct (Z.leb_spec (deadline p - n) 0); [apply emits_ret; by intros|].
  apply emits_ret. intros o [= <-]. split_and!; [done..|].
  exists [edid (ValidateAuthority (probe_authority p)) (Ok tt); edid EgressNow n0], n. split; [lia|done].
Qed.

Lemma emits_policy p :
  emits (ensure_current_policy p) (fun t r => r = Ok tt ->
    t = [cdid (Egress (ValidateAuthority (probe_authority p))) (Ok tt); cdid GateReady true]).
Proof.
  unfold ensure_current_policy, ensure_current, validate_authority.
  apply emits_do. intros [[]|e]; cbn [egress prog_bind map_err is_ok negb]; [|apply emits_ret; by intros].
  apply emits_do. intros []; cbn [prog_bind]; apply emits_ret; by intros.
Qed.

(** The last five steps of an observation. *)
Definition observed_under (p : PreparedPublicIpProbe) (t : list cev) : Prop :=
  exists t0 n, n < deadline p /\
    t = t0 ++ [cdid (Egress (ValidateAuthority (probe_authority p))) (Ok tt); cdid (Egress EgressNow) n;
               cdid (Egress (ValidateAuthority (probe_authority p))) (Ok tt); cdid GateReady true; cdid ReleasePermit tt].

Lemma observed_under_app p t t' : observed_under p t' -> observed_under p (t ++ t').
Proof. intros (t0 & n & Hn & ->). exists (t ++ t0), n. split; [done|]. by rewrite <- app_assoc. Qed.

Lemma emits_completed p body :
  emits (complete p body) (fun t r => forall o, r = Ok o ->
    parse_body body = Ok (address o) /\ generation o = observation_sequence (probe_authority p) /\ observed_under p t).
Proof.
  unfold complete. apply emits_bind.
  eapply (emits_mono _ (fun t r => forall o, r = Ok o -> parse_body body = Ok (address o) /\
    generation o = observation_sequence (probe_authority p) /\ observed_under p (t ++ [cdid ReleasePermit tt]))).
  { intros t r H. apply emits_do. intros []. apply emits_ret. exact H. }
  eapply emits_cbind; [apply emits_policy|by intros|]. intros t1 [] _.
  eapply emits_cbind; [apply emits_egress, emits_prepared_complete|by intros|]. cbv beta. intros t2 o2 (te & -> & H2).
  eapply emits_cbind; [apply emits_policy|by intros|]. cbv beta. intros t3 [] H3. apply emits_ret. intros o [= <-].
  destruct (H2 o2 eq_refl) as (Hb & Hg & t0 & n & Hn & ->). split_and!; [done..|].
  rewrite app_nil_r, <- !app_assoc. apply observed_under_app. rewrite fmap_app, H3, <- !app_assoc by done.
  apply observed_under_app. exists [], n. split; [done|]. done.
Qed.

(** What an answer was read from: a TLS session with the endpoint. *)
Definition read_over_tls (t : list cev) (body : str) : Prop :=
  exists ms ms' response,
    cdid (ProbeTls PUBLIC_IP_ENDPOINT_HOST ms) (Ok tt) ∈ t /\
    cdid (ProbeRead (HTTP_RESPONSE_MAX_BYTES + 1) ms') (Some (Some response)) ∈ t /\
    Z.of_nat (length response) <= HTTP_RESPONSE_MAX_BYTES /\
    parse_http_200_body response PUBLIC_IP_RESPONSE_BODY_MAX_BYTES = Ok body.

Lemma read_over_tls_app t t' body : read_over_tls t body \/ read_over_tls t' body -> read_over_tls (t ++ t') body.
Proof.
  intros [(ms & ms' & x & H1 & H2 & H3)|(ms & ms' & x & H1 & H2 & H3)]; exists ms, ms', x;
    (split_and!; [apply elem_of_app; auto..|apply H3|apply H3]).
Qed.

Lemma emits_skip {E A B} (c : cellprog (result E A)) (k : A -> cellprog (result E B)) (Q : list cev -> B -> Prop) :
  (forall t a, emits (k a) (fun t' r => forall b, r = Ok b -> Q (t ++ t') b)) ->
  emits (cbind c k) (fun t r => forall b, r = Ok b -> Q t b).
Proof. intros H. eapply emits_cbind; [apply emits_true|by intros|]. intros t a _. apply H. Qed.

Lemma emits_candidate p a : emits (execute_candidate p a) (fun t r => forall body, r = Ok body -> read_over_tls t body).
Proof.
  unfold execute_candidate.
  apply emits_skip. intros t1 ms1. apply emits_do. intros c1. apply emits_skip. intros t2 [].
  apply emits_skip. intros t3 ms2. apply emits_do. intros c2.
  destruct c2 as [[]|e]; [|apply emits_ret; by intros].
  change (cbind (Ret (map_err map_tls_failure (Ok tt))) ?k) with (k tt). cbv beta.
  apply emits_skip. intros t4 ms3. apply emits_do. intros c3. apply emits_skip. intros t5 [].
  apply emits_skip. intros t6 ms4. apply emits_do. intros c4. apply emits_skip. intros t7 [].
  apply emits_skip. intros t8 ms5. apply emits_do. intros [[response|]|]; cbn [prog_bind]; try (apply emits_ret; by intros).
  destruct (Z.ltb_spec HTTP_RESPONSE_MAX_BYTES (Z.of_nat (length response))); [apply emits_ret; by intros|].
  apply emits_ret. intros body Hb. exists ms2, ms5, response. split_and!.
  - repeat first [by left | right | apply elem_of_app; right].
  - repeat first [by left | right | apply elem_of_app; right].
  - done.
  - destruct (parse_http_200_body _ _); [by injection Hb as ->|done].
Qed.

Lemma emits_failed p e Q : (forall t f, Q t (Err f)) -> emits (fail_probe p e) Q.
Proof.
  intros HQ. unfold fail_probe. apply emits_bind. eapply emits_mono; [|apply emits_true]. intros t f _. apply emits_ret, HQ.
Qed.

Lemma emits_probe_each p numeric last :
  emits (probe_each p numeric last) (fun t r => forall o, r = Ok o ->
    generation o = observation_sequence (probe_authority p) /\ observed_under p t /\
    exists body, read_over_tls t body /\ parse_body body = Ok (address o)).
Proof.
  revert last. induction numeric as [|raw numeric IH]; intros last; cbn [probe_each]; [apply emits_failed; by intros|].
  destruct (parse_ip raw); [|apply emits_failed; by intros]. apply emits_bind. eapply emits_mono; [|apply emits_candidate].
  intros t [body|[f|f]] Hb; [| |apply emits_failed; by intros].
  - eapply emits_mono; [|apply emits_completed]. intros t' r H o Ho. destruct (H o Ho) as (H1 & H2 & H3).
    split_and!; [done|by apply observed_under_app|]. exists body. split; [|done]. apply read_over_tls_app. left. by apply Hb.
  - eapply emits_mono; [|apply IH]. intros t' r H o Ho. destruct (H o Ho) as (H1 & H2 & b & H3 & H4).
    split_and!; [done|by apply observed_under_app|]. exists b. split; [|done]. apply read_over_tls_app. by right.
Qed.

Lemma emits_prepare_inner timeout :
  emits (prepare timeout) (fun t r => forall p, r = Ok p ->
    edid IssueAuthority (Ok (probe_authority p)) ∈ t /\ exists n, edid EgressNow n ∈ t /\ deadline p = n + timeout).
Proof.
  unfold prepare. apply emits_do. intros n. cbn [prog_bind]. unfold checked_add.
  destruct (n + timeout <=? instant_limit); [|apply emits_ret; by intros].
  apply emits_do. intros [a|e]; cbn [prog_bind map_err]; [|apply emits_ret; by intros].
  apply emits_bind. eapply emits_mono; [|apply emits_resolve]. intros t [d|e] H; apply emits_ret; [|by intros].
  intros p [= <-]. cbn [probe_authority deadline]. destruct (H d eq_refl) as [-> _]. split; [right; by left|].
  exists n. split; [by left|done].
Qed.

Lemma emits_prepared timeout :
  emits (prepare_public_ip_probe timeout) (fun t r => forall p, r = Ok p ->
    cdid AcquirePermit true ∈ t /\ cdid (Egress IssueAuthority) (Ok (probe_authority p)) ∈ t /\
    exists n, cdid (Egress EgressNow) n ∈ t /\ deadline p = n + timeout).
Proof.
  unfold prepare_public_ip_probe. destruct (validate_operation_timeout timeout); [|apply emits_ret; by intros].
  apply emits_do. intros []; cbn [prog_bind negb]; [|apply emits_ret; by intros].
  apply emits_bind. eapply emits_mono; [|apply emits_egress, emits_prepare_inner].
  cbv beta. intros t [p|e] (te & -> & H); [|apply emits_do; intros []; apply emits_ret; by intros].
  apply emits_ret. intros p' [= <-]. destruct (H p eq_refl) as (Hi & n & Hn & Hd). rewrite app_nil_r.
  split; [by left|]. split; [right; by apply (list_elem_of_fmap_2 lift_event) in Hi|].
  exists n. split; [right; by apply (list_elem_of_fmap_2 lift_event) in Hn|done].
Qed.

(** ** Properties *)

(** C27: The gate is open only by the last word of the root policy.  After any
    sequence of observations, losses, closings, authorisations and permits, an
    open gate means that the latest of these calls other than permit traffic was
    an authorisation, and that the owner still admits exactly the network and the
    sequence number that authorisation named. *)
Theorem gate_open_only_when_authorized es :
  ready (gate (cellular_run coordinator_new es)) = true -> exists s h pre post,
    es = pre ++ GAuthorize s h :: post /\ Forall is_permit_call post /\
    validate_network_authority (owner (cellular_run coordinator_new es)) {| network := h; sequence := s |} = Ok tt.
Proof. apply cellular_run_gate. Qed.

Lemma gate_open_only_when_authorized_witness :
  exists s h pre post,
    [GObserve (demo_obs 1 42 true); GAuthorize 1 42; GAcquire] = pre ++ GAuthorize s h :: post /\ Forall is_permit_call post /\
    validate_network_authority
      (owner (cellular_run coordinator_new [GObserve (demo_obs 1 42 true); GAuthorize 1 42; GAcquire]))
      {| network := h; sequence := s |} = Ok tt.
Proof. apply gate_open_only_when_authorized. vm_compute. reflexivity. Defined.

(** C8: A quiesced gate means silence.  Whatever connections and address
    observations run at once, in whatever interleaving and with whatever owner and
    policy calls between their steps: once the gate is closed and counts no permit,
    no connection and no observation, old or new, resolves a name, dials, or speaks
    to a peer until the root policy authorises a network again. *)
Theorem quiesced_means_silence es es' :
  let w := cell_run cell_world_new es in
  quiesced (shared w) -> Forall no_authorize es' ->
  Forall (fun '(_, e) => outside (asked e) = false) (cell_events w es').
Proof. intros w Hq. apply (quiesced_events es' w (cell_events cell_world_new es)); [apply permit_ledger_run|done]. Qed.

Definition demo_answer (r : cell_request) : cell_reply r :=
  match r with
  | Egress r =>
      match r return egress_reply r with
      | IssueAuthority => Err NoAdmittedNetwork
      | ValidateAuthority _ => Err NoAdmittedNetwork
      | OwnerSequence => None
      | EgressNow => 0
      | Resolve _ _ => Err OutboundFailed
      | DialSocket _ _ => Err DialFailed
      | NoteStart _ | NoteComplete _ _ | NoteDisposition _ => tt
      end
  | AcquirePermit | GateReady | TlsConfig => true
  | ReleasePermit => tt
  | ProbeTcp _ _ | ProbeWrite _ _ | ProbeFlush _ => StepOk
  | ProbeTls _ _ => Ok tt
  | ProbeRead _ _ => None
  end.

Definition demo_turn (es : list cellular_call) : sched cell_input cell_caller :=
  Advance 0 {| before := es; answer := demo_answer |}.

Definition demo_target : ProxyConnectTarget := {| host := HostIpv4 3405803777; target_port := 443 |}.

(** A connection that dialled, failed and gave its permit back; then the gate closed. *)
Definition demo_history : list (sched cell_input cell_caller) :=
  Call (CConnect 1000 demo_target) :: demo_turn [GObserve (demo_obs 1 42 true); GAuthorize 1 42] ::
  replicate 11 (demo_turn []) ++ [Call (CConnect 1000 demo_target); Advance 1 {| before := [GClose]; answer := demo_answer |}].

Example demo_history_dials :
  existsb (fun '(_, e) => outside (asked e)) (cell_events cell_world_new demo_history) = true /\
  existsb (fun '(_, e) => match asked e with ReleasePermit => true | _ => false end)
    (cell_events cell_world_new demo_history) = true.
Proof. vm_compute. split; reflexivity. Qed.

Lemma quiesced_means_silence_witness :
  Forall (fun '(_, e) => outside (asked e) = false)
    (cell_events (cell_run cell_world_new demo_history)
       [Call (CObserve 1000000000); Advance 2 {| before := [GObserve (demo_obs 2 42 true)]; answer := demo_answer |};
        Advance 2 {| before := []; answer := demo_answer |}]).
Proof.
  apply quiesced_means_silence.
  - split; vm_compute; reflexivity.
  - repeat constructor.
Defined.

(** The gate's count is the callers' permits.  In any interleaving of
    connections and observations the number of effects in flight is exactly the
    sum of the permits that the callers hold by their own requests, each of them
    holds none or one, and a caller that has ended holds none: every way out of
    a connection or an observation gives the permit back, and only once. *)
Theorem permits_balanced es :
  let w := cell_run cell_world_new es in
  let t := cell_events cell_world_new es in
  in_flight (gate (shared w)) = sum_over (fun i => holding (own i t)) (length (threads w)) /\
  (forall i, 0 <= holding (own i t) <= 1) /\
  (forall i, finished w i = true -> holding (own i t) = 0).
Proof.
  intros w t. pose proof (permit_ledger_run es) as HL. split_and!; [apply HL|apply HL|]. intros i Hi. unfold finished in Hi.
  destruct (threads w !! i) as [[a|r k]|] eqn:E; try done. by apply (ledger_finished _ _ _ a HL).
Qed.

(** An observed public address belongs to the network it is attributed to.
    Whatever the clock, the owner, the gate, the resolver and the endpoint answer:
    an observation is returned only after a permit was taken, carries the sequence
    number of the authority that was issued at its start, is what the text read
    over TLS from the endpoint parses to, and its last steps are a validation of
    that authority, a look at the clock before the deadline, a second validation,
    a look at the open gate, and the return of the permit. *)
Theorem public_ip_observed_currently timeout :
  emits (observe_public_egress_ip_async timeout) (fun t r => forall o, r = Ok o -> exists p n body,
    cdid AcquirePermit true ∈ t /\ cdid (Egress IssueAuthority) (Ok (probe_authority p)) ∈ t /\
    cdid (Egress EgressNow) n ∈ t /\ deadline p = n + timeout /\
    generation o = observation_sequence (probe_authority p) /\
    read_over_tls t body /\ parse_body body = Ok (address o) /\ observed_under p t).
Proof.
  apply emits_do. intros []; cbn [prog_bind negb]; [|apply emits_ret; by intros].
  eapply emits_cbind; [apply emits_prepared|by intros|]. cbv beta. intros t1 p H1.
  destruct (H1 p eq_refl) as (Ha & Hi & n & Hn & Hd). unfold execute_public_ip_probe.
  destruct (ip_display <$> addresses p); [apply emits_failed; by intros|].
  eapply emits_mono; [|apply emits_probe_each]. intros t2 r H o Ho. destruct (H o Ho) as (Hg & Hu & body & Hr & Hp).
  exists p, n, body. split_and!; try done.
  1-3: right; apply elem_of_app; by left.
  - apply (read_over_tls_app [_]). right. apply read_over_tls_app. by right.
  - apply (observed_under_app p [_]), observed_under_app, Hu.
Qed.
