(* ===== verification/PolicyCoordinator.v ===== *)
(** * Cellular policy coordinator

    [src/crates/runtime/src/cellular_policy_coordinator.rs]: takes each network
    generation from the cellular runtime, waits until the effects of the one
    before have drained, runs the root policy transaction for it, and opens the
    gate.

    A critical section of the coordinator's mutex is one [psection]; methods and
    tasks are programs over sections, calls of [CellularRuntime], the root
    policy's own requests and the spawning of tasks.  The root policy runtime is
    the one of [RootPolicyRuntime], its currentness predicate answered from the
    cellular owner, under its own mutex. *)

From Stdlib Require Import String.
From stdpp Require Import gmap.
From S2P Require Import RotationRuntime.
From S2P Require Import Prelude Net RustStr ProxyAuth Cellular RootSession Interaction Threads MobileData.
From S2P Require Import CellularConnector CellularRuntime RootPolicy RootPolicyRuntime RootPolicyTransaction.

Definition EFFECT_DRAIN_TIMEOUT : Z := 15 * 1000000000.
Definition RECOVERY_DELAYS_MS : list Z := [0; 1000; 5000; 15000; 30000; 60000].

#[export] Instance CellularAdmissionReason_eq_dec : EqDecision CellularAdmissionReason.
Proof. solve_decision. Defined.
#[export] Instance CellularAdmissionSnapshot_eq_dec : EqDecision CellularAdmissionSnapshot.
Proof. solve_decision. Defined.

Record ReconcileRequest := { req_admission : CellularAdmissionSnapshot; interface_name : option str }.

(** ** State *)

(** Observers are numbers. *)
Record CoordinatorState := {
  latest : option ReconcileRequest;
  latest_enqueued_at : option Z;
  drain_scheduled : bool;
  requested : Z;
  executed : Z;
  coalesced : Z;
  last_owner_sequence : option Z;
  last_dequeue_wait_ms : Z;
  max_dequeue_wait_ms : Z;
  last_quiesce_wait_ms : Z;
  max_quiesce_wait_ms : Z;
  stale_after_reconcile : Z;
  superseded_during_reconcile : Z;
  interface_hints : gmap Z str;
  recovery_pending : bool;
  recovery_attempts : Z;
  recovery_epoch : Z;
  last_policy_result : option RootPolicyResult;
  last_publication : option CellularPolicyPublication;
  last_admission : option CellularAdmissionSnapshot;
  observer : option nat;
  internal_observers : list nat;
  admission_observers : list nat;
  closed : bool }.

Definition policy_new : CoordinatorState :=
  {| latest := None; latest_enqueued_at := None; drain_scheduled := false; requested := 0; executed := 0;
     coalesced := 0; last_owner_sequence := None; last_dequeue_wait_ms := 0; max_dequeue_wait_ms := 0;
     last_quiesce_wait_ms := 0; max_quiesce_wait_ms := 0; stale_after_reconcile := 0;
     superseded_during_reconcile := 0; interface_hints := ∅; recovery_pending := false; recovery_attempts := 0;
     recovery_epoch := 0; last_policy_result := None; last_publication := None; last_admission := None;
     observer := None; internal_observers := []; admission_observers := []; closed := false |}.

(** The queue and the recovery timer. *)
Definition with_queue (s : CoordinatorState) (l : option ReconcileRequest) (at_ : option Z) (drain : bool) (req coal : Z)
    (pending : bool) (attempts epoch : Z) (shut : bool) : CoordinatorState :=
  {| latest := l; latest_enqueued_at := at_; drain_scheduled := drain; requested := req; executed := executed s;
     coalesced := coal; last_owner_sequence := last_owner_sequence s; last_dequeue_wait_ms := last_dequeue_wait_ms s;
     max_dequeue_wait_ms := max_dequeue_wait_ms s; last_quiesce_wait_ms := last_quiesce_wait_ms s;
     max_quiesce_wait_ms := max_quiesce_wait_ms s; stale_after_reconcile := stale_after_reconcile s;
     superseded_during_reconcile := superseded_during_reconcile s; interface_hints := interface_hints s;
     recovery_pending := pending; recovery_attempts := attempts; recovery_epoch := epoch;
     last_policy_result := last_policy_result s; last_publication := last_publication s;
     last_admission := last_admission s; observer := observer s; internal_observers := internal_observers s;
     admission_observers := admission_observers s; closed := shut |}.

(** The counters. *)
Definition with_counters (s : CoordinatorState) (exec : Z) (owner_sequence : option Z)
    (dequeue max_dequeue quiesce max_quiesce stale superseded : Z) : CoordinatorState :=
  {| latest := latest s; latest_enqueued_at := latest_enqueued_at s; drain_scheduled := drain_scheduled s;
     requested := requested s; executed := exec; coalesced := coalesced s; last_owner_sequence := owner_sequence;
     last_dequeue_wait_ms := dequeue; max_dequeue_wait_ms := max_dequeue; last_quiesce_wait_ms := quiesce;
     max_quiesce_wait_ms := max_quiesce; stale_after_reconcile := stale; superseded_during_reconcile := superseded;
     interface_hints := interface_hints s; recovery_pending := recovery_pending s;
     recovery_attempts := recovery_attempts s; recovery_epoch := recovery_epoch s;
     last_policy_result := last_policy_result s; last_publication := last_publication s;
     last_admission := last_admission s; observer := observer s; internal_observers := internal_observers s;
     admission_observers := admission_observers s; closed := closed s |}.

(** Hints, publications and observers. *)
Definition with_public (s : CoordinatorState) (hints : gmap Z str) (p : option CellularPolicyPublication)
    (res : option RootPolicyResult) (a : option CellularAdmissionSnapshot) (o : option nat) (internal admissions : list nat)
    : CoordinatorState :=
  {| latest := latest s; latest_enqueued_at := latest_enqueued_at s; drain_scheduled := drain_scheduled s;
     requested := requested s; executed := executed s; coalesced := coalesced s;
     last_owner_sequence := last_owner_sequence s; last_dequeue_wait_ms := last_dequeue_wait_ms s;
     max_dequeue_wait_ms := max_dequeue_wait_ms s; last_quiesce_wait_ms := last_quiesce_wait_ms s;
     max_quiesce_wait_ms := max_quiesce_wait_ms s; stale_after_reconcile := stale_after_reconcile s;
     superseded_during_reconcile := superseded_during_reconcile s; interface_hints := hints;
     recovery_pending := recovery_pending s; recovery_attempts := recovery_attempts s;
     recovery_epoch := recovery_epoch s; last_policy_result := res; last_publication := p; last_admission := a;
     observer := o; internal_observers := internal; admission_observers := admissions; closed := closed s |}.

Definition with_hints (s : CoordinatorState) (hints : gmap Z str) : CoordinatorState :=
  with_public s hints (last_publication s) (last_policy_result s) (last_admission s) (observer s) (internal_observers s)
    (admission_observers s).

Definition with_counted (s : CoordinatorState) (exec stale superseded : Z) : CoordinatorState :=
  with_counters s exec (last_owner_sequence s) (last_dequeue_wait_ms s) (max_dequeue_wait_ms s) (last_quiesce_wait_ms s)
    (max_quiesce_wait_ms s) stale superseded.

Definition wrapping_succ (n : Z) : Z := (n + 1) mod (u64_max + 1).
Definition saturating_succ_u32 (n : Z) : Z := Z.min (n + 1) u32_max.

Definition recovery_delay_ms (attempt : Z) : Z :=
  default 0 (RECOVERY_DELAYS_MS !! Nat.min (Z.to_nat attempt) (length RECOVERY_DELAYS_MS - 1)).

Definition same_generation (expected current : CellularAdmissionSnapshot) : bool :=
  if negb (is_some (last_sequence expected)) then
    (adm_state expected =b? Unknown) && (adm_state current =b? Unknown) && negb (is_some (last_sequence current))
    && negb (is_some (admitted_network expected)) && negb (is_some (admitted_network current))
  else
    (last_sequence expected =b? last_sequence current) && (adm_state expected =b? adm_state current)
    && (admitted_network expected =b? admitted_network current).

(** ** Critical sections *)

Definition hint_section (s : CoordinatorState) (h : NetworkHandle) (name : option str) : CoordinatorState :=
  match name with Some n => with_hints s (<[h := n]> (interface_hints s)) | None => s end.

Definition unhint_section (s : CoordinatorState) (h : NetworkHandle) : CoordinatorState :=
  with_hints s (delete h (interface_hints s)).

(** [None] when closed. *)
Definition enqueue_section (s : CoordinatorState) (a : CellularAdmissionSnapshot) : option ReconcileRequest :=
  if closed s then None
  else Some {| req_admission := a;
               interface_name := match admitted_network a with Some h => interface_hints s !! h | None => None end |}.

(** Whether to spawn a drain; [None] when closed. *)
Definition offer_section (s : CoordinatorState) (r : ReconcileRequest) (now : Z) : option bool * CoordinatorState :=
  if closed s then (None, s)
  else
    (Some (negb (drain_scheduled s)),
     with_queue s (Some r) (Some now) true (saturating_add (requested s) 1)
       (if is_some (latest s) then saturating_add (coalesced s) 1 else coalesced s)
       false 0 (wrapping_succ (recovery_epoch s)) false).

Definition take_section (s : CoordinatorState) (now : Z) : option (ReconcileRequest * Z) * CoordinatorState :=
  let requeue l at_ drain :=
    with_queue s l at_ drain (requested s) (coalesced s) (recovery_pending s) (recovery_attempts s) (recovery_epoch s)
      (closed s) in
  if closed s then (None, requeue None None false)
  else match latest s with
       | Some r => (Some (r, default now (latest_enqueued_at s)), requeue None None (drain_scheduled s))
       | None => (None, requeue None None false)
       end.

Definition executed_section (s : CoordinatorState) : CoordinatorState :=
  with_counted s (saturating_add (executed s) 1) (stale_after_reconcile s) (superseded_during_reconcile s).

Definition waits_section (s : CoordinatorState) (r : ReconcileRequest) (dequeue quiesce : Z) : CoordinatorState :=
  with_counters s (executed s) (last_sequence (req_admission r)) dequeue (Z.max (max_dequeue_wait_ms s) dequeue)
    quiesce (Z.max (max_quiesce_wait_ms s) quiesce) (stale_after_reconcile s) (superseded_during_reconcile s).

Definition superseded_section (s : CoordinatorState) : CoordinatorState :=
  with_counted s (executed s) (stale_after_reconcile s) (saturating_add (superseded_during_reconcile s) 1).

Definition stale_section (s : CoordinatorState) : CoordinatorState :=
  with_counted s (executed s) (saturating_add (stale_after_reconcile s) 1) (superseded_during_reconcile s).

Definition with_recovery (s : CoordinatorState) (pending : bool) (attempts epoch : Z) : CoordinatorState :=
  with_queue s (latest s) (latest_enqueued_at s) (drain_scheduled s) (requested s) (coalesced s) pending attempts epoch
    (closed s).

Definition reset_section (s : CoordinatorState) : CoordinatorState :=
  with_recovery s false 0 (wrapping_succ (recovery_epoch s)).

(** The epoch and the delay. *)
Definition schedule_section (s : CoordinatorState) : option (Z * Z) * CoordinatorState :=
  if closed s || recovery_pending s then (None, s)
  else (Some (recovery_epoch s, recovery_delay_ms (recovery_attempts s)),
        with_recovery s true (saturating_succ_u32 (recovery_attempts s)) (recovery_epoch s)).

Definition spawn_failed_section (s : CoordinatorState) : CoordinatorState :=
  with_recovery s false (recovery_attempts s) (recovery_epoch s).

(** Whether to spawn a drain. *)
Definition fire_section (s : CoordinatorState) (epoch : Z) (r : ReconcileRequest) (current : CellularAdmissionSnapshot)
    (now : Z) : bool * CoordinatorState :=
  if closed s || (recovery_epoch s <>b? epoch) || negb (recovery_pending s) then (false, s)
  else if negb (same_generation (req_admission r) current)
  then (false, with_recovery s false (recovery_attempts s) (recovery_epoch s))
  else
    (negb (drain_scheduled s),
     with_queue s (Some r) (Some now) true (requested s)
       (if is_some (latest s) then saturating_add (coalesced s) 1 else coalesced s)
       false (recovery_attempts s) (recovery_epoch s) false).

(** The observers, [None] when nothing is new. *)
Definition publish_admission_section (s : CoordinatorState) (a : CellularAdmissionSnapshot)
    : option (list nat) * CoordinatorState :=
  if last_admission s =b? Some a then (None, s)
  else (Some (admission_observers s),
        with_public s (interface_hints s) (last_publication s) (last_policy_result s) (Some a) (observer s)
          (internal_observers s) (admission_observers s)).

Definition publish_section (s : CoordinatorState) (p : CellularPolicyPublication) : list nat * CoordinatorState :=
  (option_list (observer s) ++ internal_observers s,
   with_public s (interface_hints s) (Some p) (Some (publication_result p)) (last_admission s) (observer s)
     (internal_observers s) (admission_observers s)).

Definition close_section (s : CoordinatorState) : CoordinatorState :=
  with_queue s None None (drain_scheduled s) (requested s) (coalesced s) false (recovery_attempts s)
    (wrapping_succ (recovery_epoch s)) true.

Definition add_observers (s : CoordinatorState) (o : option nat) (internal admissions : list nat) : CoordinatorState :=
  with_public s (interface_hints s) (last_publication s) (last_policy_result s) (last_admission s) o internal admissions.

Inductive psection :=
| SHint (h : NetworkHandle) (name : option str)
| SUnhint (h : NetworkHandle)
| SEnqueue (a : CellularAdmissionSnapshot)
| SOffer (r : ReconcileRequest)
| STake
| SExecuted
| SWaits (r : ReconcileRequest) (dequeue quiesce : Z)
| SSuperseded
| SStale
| SReset
| SSchedule
| SSpawnFailed
| SFire (epoch : Z) (r : ReconcileRequest)
| SPublishAdmission (a : CellularAdmissionSnapshot)
| SPublish (p : CellularPolicyPublication)
| SClose
| SSetObserver (o : nat)
| SAddInternal (o : nat)
| SAddAdmission (o : nat).

Definition psection_reply (l : psection) : Type :=
  match l with
  | SEnqueue _ => option ReconcileRequest
  | SOffer _ => option bool
  | STake => option (ReconcileRequest * Z)
  | SSchedule => option (Z * Z)
  | SFire _ _ => bool
  | SPublishAdmission _ => option (list nat)
  | SPublish _ => list nat
  | SSetObserver _ | SAddInternal _ => option CellularPolicyPublication
  | SAddAdmission _ => option CellularAdmissionSnapshot
  | _ => unit
  end.

(** [now] and [current]: the clock and the owner's admission, read inside the section. *)
Definition penter (l : psection) (now : Z) (current : CellularAdmissionSnapshot) (s : CoordinatorState)
    : psection_reply l * CoordinatorState :=
  match l return psection_reply l * CoordinatorState with
  | SHint h name => (tt, hint_section s h name)
  | SUnhint h => (tt, unhint_section s h)
  | SEnqueue a => (enqueue_section s a, s)
  | SOffer r => offer_section s r now
  | STake => take_section s now
  | SExecuted => (tt, executed_section s)
  | SWaits r d q => (tt, waits_section s r d q)
  | SSuperseded => (tt, superseded_section s)
  | SStale => (tt, stale_section s)
  | SReset => (tt, reset_section s)
  | SSchedule => schedule_section s
  | SSpawnFailed => (tt, spawn_failed_section s)
  | SFire epoch r => fire_section s epoch r current now
  | SPublishAdmission a => publish_admission_section s a
  | SPublish p => publish_section s p
  | SClose => (tt, close_section s)
  | SSetObserver o => (last_publication s, add_observers s (Some o) (internal_observers s) (admission_observers s))
  | SAddInternal o => (last_publication s, add_observers s (observer s) (internal_observers s ++ [o]) (admission_observers s))
  | SAddAdmission o => (last_admission s, add_observers s (observer s) (internal_observers s) (admission_observers s ++ [o]))
  end.

(** ** Programs *)

Inductive policy_task := DrainTask | RecoveryTask (epoch delay_ms : Z) (r : ReconcileRequest).

Inductive policy_request :=
| PLocked (l : psection)
| PObserve (o : NetworkObservation)
| PLost (s : ObservationSequence) (h : NetworkHandle)
| PSnapshot
| PCloseGate
| PAuthorize (s : ObservationSequence) (h : NetworkHandle)
| PQuiesced (timeout : Z)
| PClock
| PSleep (ms : Z)
| PRootLock
| PRootUnlock (s : rt)
| PRoot (r : io_request)
| PSpawn (t : policy_task)
| PNotify (o : nat) (p : CellularPolicyPublication)
| PNotifyAdmission (o : nat) (a : CellularAdmissionSnapshot)
| PRootSessionShutdown.

Definition policy_reply (r : policy_request) : Type :=
  match r with
  | PLocked l => psection_reply l
  | PObserve _ | PLost _ _ | PSnapshot => CellularAdmissionSnapshot
  | PAuthorize _ _ | PQuiesced _ | PSpawn _ => bool
  | PClock => Z
  | PRootLock => rt
  | PRoot r => io_reply r
  | _ => unit
  end.

Abbreviation pprog := (prog policy_request policy_reply).
Definition pask (r : policy_request) : pprog (policy_reply r) := request r.
Definition plock (l : psection) : pprog (psection_reply l) := request (PLocked l).

Definition request_is_current (r : ReconcileRequest) : pprog bool :=
  let> current := pask PSnapshot in Ret (same_generation (req_admission r) current).

(** The root policy's requests, its currentness predicate answered by [is_current]. *)
Fixpoint with_root {A} (is_current : pprog bool) (p : prog io_request io_reply A) : pprog A :=
  match p with
  | Ret a => Ret a
  | Do r k =>
      match r return (io_reply r -> prog io_request io_reply A) -> (io_reply r -> pprog A) -> pprog A with
      | IsCurrent => fun _ k => prog_bind is_current k
      | r => fun _ k => Do (PRoot r) k
      end k (fun x => with_root is_current (k x))
  end.

(** A method of the root policy runtime, under its mutex; [None] when one of its
    loops has not ended. *)
Definition root_call {E A} (is_current : pprog bool) (m : rio E A) : pprog (option (result E A)) :=
  let> s := pask PRootLock in
  let> x := with_root is_current (m s) in
  match x.1 with
  | None => Ret None
  | Some r => let> _ := pask (PRootUnlock x.2) in Ret (Some r)
  end.

Fixpoint notify_each (os : list nat) (p : CellularPolicyPublication) : pprog unit :=
  match os with [] => Ret tt | o :: os => let> _ := pask (PNotify o p) in notify_each os p end.

Fixpoint notify_admissions (os : list nat) (a : CellularAdmissionSnapshot) : pprog unit :=
  match os with [] => Ret tt | o :: os => let> _ := pask (PNotifyAdmission o a) in notify_admissions os a end.

Definition publish_admission (a : CellularAdmissionSnapshot) : pprog unit :=
  let> os := plock (SPublishAdmission a) in
  match os with Some os => notify_admissions os a | None => Ret tt end.

Definition publish (a : CellularAdmissionSnapshot) (r : RootPolicyResult) : pprog unit :=
  let p := {| publication_admission := a; publication_result := r |} in
  let> os := plock (SPublish p) in
  notify_each os p.

(** [false] is the error. *)
Definition offer_new_owner_request (r : ReconcileRequest) : pprog bool :=
  let> schedule := plock (SOffer r) in
  match schedule with
  | None => Ret false
  | Some true => pask (PSpawn DrainTask)
  | Some false => Ret true
  end.

Definition enqueue_owner_generation (a : CellularAdmissionSnapshot) : pprog bool :=
  let> r := plock (SEnqueue a) in
  match r with None => Ret false | Some r => offer_new_owner_request r end.

Definition start : pprog bool :=
  let> a := pask PSnapshot in
  let> _ := publish_admission a in
  enqueue_owner_generation a.

Definition observe_network (o : NetworkObservation) (h : NetworkHandle) (name : option str)
    : pprog (option CellularAdmissionSnapshot) :=
  let> a := pask (PObserve o) in
  let> _ := plock (SHint h name) in
  let> _ := publish_admission a in
  let> ok := enqueue_owner_generation a in
  Ret (if ok then Some a else None).

Definition network_lost (s : ObservationSequence) (h : NetworkHandle) : pprog (option CellularAdmissionSnapshot) :=
  let> a := pask (PLost s h) in
  let> _ := plock (SUnhint h) in
  let> _ := publish_admission a in
  let> ok := enqueue_owner_generation a in
  Ret (if ok then Some a else None).

Definition set_observer (o : nat) : pprog unit :=
  let> p := plock (SSetObserver o) in match p with Some p => pask (PNotify o p) | None => Ret tt end.

Definition add_internal_observer (o : nat) : pprog unit :=
  let> p := plock (SAddInternal o) in match p with Some p => pask (PNotify o p) | None => Ret tt end.

Definition add_internal_admission_observer (o : nat) : pprog unit :=
  let> a := plock (SAddAdmission o) in match a with Some a => pask (PNotifyAdmission o a) | None => Ret tt end.

Definition schedule_recovery (r : ReconcileRequest) : pprog unit :=
  let> scheduled := plock SSchedule in
  match scheduled with
  | None => Ret tt
  | Some (epoch, delay_ms) =>
      let> spawned := pask (PSpawn (RecoveryTask epoch delay_ms r)) in
      if negb spawned then plock SSpawnFailed else Ret tt
  end.

Definition fire_recovery (epoch : Z) (r : ReconcileRequest) : pprog unit :=
  let> schedule_drain := plock (SFire epoch r) in
  if schedule_drain then let> _ := pask (PSpawn DrainTask) in Ret tt else Ret tt.

Definition recovery_task (epoch delay_ms : Z) (r : ReconcileRequest) : pprog unit :=
  let> _ := pask (PSleep delay_ms) in fire_recovery epoch r.

Definition duration_ms (from to : Z) : Z := Z.min ((to - from) / 1000000) u64_max.

(** What follows a transaction that was not superseded. *)
Definition conclude (r : ReconcileRequest) (result : RootPolicyResult) : pprog unit :=
  match result with
  | Enforced =>
      match last_sequence (req_admission r), admitted_network (req_admission r) with
      | Some s, Some h =>
          let> authorized := pask (PAuthorize s h) in
          if authorized then
            let> _ := plock SReset in
            publish (req_admission r) result
          else Ret tt
      | _, _ => Ret tt
      end
  | _ =>
      if (match result with FailClosed None => true | _ => false end)
         && (adm_state (req_admission r) <>b? IsAdmitted) then
        let> _ := plock SReset in
        publish (req_admission r) result
      else if retryable result then
        let> _ := publish (req_admission r) result in
        schedule_recovery r
      else
        let> _ := plock SReset in
        publish (req_admission r) result
  end.

(** [None] when the transaction has not ended. *)
Definition process_request (fuel : nat) (r : ReconcileRequest) (enqueued_at : Z) : pprog (option unit) :=
  let> current := request_is_current r in
  if negb current then Ret (Some tt)
  else
    let> now := pask PClock in
    let dequeue_wait_ms := duration_ms enqueued_at now in
    let> quiesce_started := pask PClock in
    let> quiesced := pask (PQuiesced EFFECT_DRAIN_TIMEOUT) in
    let> now := pask PClock in
    let quiesce_wait_ms := duration_ms quiesce_started now in
    if negb quiesced then Ret (Some tt)
    else
      let> current := request_is_current r in
      if negb current then Ret (Some tt)
      else
        let> _ := plock (SWaits r dequeue_wait_ms quiesce_wait_ms) in
        let> outcome := root_call (request_is_current r)
          (reconcile_if_current fuel (adm_state (req_admission r) =b? IsAdmitted) (interface_name r)) in
        match outcome with
        | None | Some (Err _) => Ret None
        | Some (Ok Superseded) => let> _ := plock SSuperseded in Ret (Some tt)
        | Some (Ok (Completed result)) =>
            let> current := request_is_current r in
            if negb current then let> _ := plock SStale in Ret (Some tt)
            else let> _ := conclude r result in Ret (Some tt)
        end.

(** [None] when it is still at it. *)
Fixpoint drain (turns fuel : nat) : pprog (option unit) :=
  match turns with
  | O => Ret None
  | S turns =>
      let> next := plock STake in
      match next with
      | None => Ret (Some tt)
      | Some (r, enqueued_at) =>
          let> done := process_request fuel r enqueued_at in
          match done with
          | None => Ret None
          | Some _ => let> _ := plock SExecuted in drain turns fuel
          end
      end
  end.

(** [EFFECT_DRAIN_TIMEOUT] is a valid timeout, so the waiting itself never fails. *)
Definition shutdown : pprog (option bool) :=
  let> _ := plock SClose in
  let> _ := pask PCloseGate in
  let> quiesced := pask (PQuiesced EFFECT_DRAIN_TIMEOUT) in
  if quiesced then
    let> cleanup := root_call (Ret true) cleanup_exact in
    match cleanup with
    | None => Ret None
    | Some r => let> _ := pask PRootSessionShutdown in Ret (Some (is_ok r))
    end
  else let> _ := pask PRootSessionShutdown in Ret (Some false).

(** ** Callers, tasks and the shared state *)

Inductive policy_returned := RUnit | RBool (b : bool) | RSnapshot (a : option CellularAdmissionSnapshot) | RSpinning.

Inductive policy_caller :=
| CallStart
| CallObserve (o : NetworkObservation) (h : NetworkHandle) (name : option str)
| CallLost (s : ObservationSequence) (h : NetworkHandle)
| CallSetObserver (o : nat)
| CallAddInternal (o : nat)
| CallAddAdmission (o : nat)
| CallShutdown.

Definition policy_body (c : policy_caller) : pprog policy_returned :=
  match c with
  | CallStart => let> b := start in Ret (RBool b)
  | CallObserve o h name => let> a := observe_network o h name in Ret (RSnapshot a)
  | CallLost s h => let> a := network_lost s h in Ret (RSnapshot a)
  | CallSetObserver o => let> _ := set_observer o in Ret RUnit
  | CallAddInternal o => let> _ := add_internal_observer o in Ret RUnit
  | CallAddAdmission o => let> _ := add_internal_admission_observer o in Ret RUnit
  | CallShutdown => let> b := shutdown in Ret (match b with Some b => RBool b | None => RSpinning end)
  end.

Definition policy_task_body (turns fuel : nat) (t : policy_task) : pprog policy_returned :=
  match t with
  | DrainTask => let> d := drain turns fuel in Ret (match d with Some _ => RUnit | None => RSpinning end)
  | RecoveryTask epoch delay_ms r => let> _ := recovery_task epoch delay_ms r in Ret RUnit
  end.

(** [root] is [None] while its mutex is held. *)
Record policy_state := {
  coordinator_state : CoordinatorState;
  cellular : CellularRuntimeCoordinator;
  root : option rt }.

(** What a step gets from outside: permits taken and given back before it, the
    time, whether the executor runs, whether a wait has timed out, and the
    answers of the device. *)
Record policy_input := {
  permits : list cellular_call;
  time : Z;
  executor : bool;
  waited : bool;
  device : forall r, io_reply r }.

Definition permit_run (c : CellularRuntimeCoordinator) (es : list cellular_call) : CellularRuntimeCoordinator :=
  cellular_run c (List.filter (fun e => negb (is_policy_call e)) es).

Definition policy_answer (r : policy_request) (w : policy_state) (x : policy_input) : option (policy_reply r * policy_state) :=
  let and_cell c := {| coordinator_state := coordinator_state w; cellular := c; root := root w |} in
  match r return option (policy_reply r * policy_state) with
  | PLocked l =>
      let y := penter l (time x) (admission_snapshot (cellular w)) (coordinator_state w) in
      Some (y.1, {| coordinator_state := y.2; cellular := cellular w; root := root w |})
  | PObserve o => let y := CellularRuntime.observe_network (cellular w) o in Some (y.1, and_cell y.2)
  | PLost s h => let y := CellularRuntime.network_lost (cellular w) s h in Some (y.1, and_cell y.2)
  | PSnapshot => Some (admission_snapshot (cellular w), w)
  | PCloseGate => Some (tt, and_cell (close_root_policy_gate (cellular w)))
  | PAuthorize s h => let y := authorize_root_policy (cellular w) s h in Some (y.1, and_cell y.2)
  | PQuiesced _ =>
      if in_flight (gate (cellular w)) =? 0 then Some (true, w) else if waited x then Some (false, w) else None
  | PClock => Some (time x, w)
  | PRootLock =>
      match root w with
      | Some s => Some (s, {| coordinator_state := coordinator_state w; cellular := cellular w; root := None |})
      | None => None
      end
  | PRootUnlock s => Some (tt, {| coordinator_state := coordinator_state w; cellular := cellular w; root := Some s |})
  | PRoot r => Some (device x r, w)
  | PSpawn _ => Some (executor x, w)
  | PSleep _ | PNotify _ _ | PNotifyAdmission _ _ | PRootSessionShutdown => Some (tt, w)
  end.

Definition policy_serve (r : policy_request) (w : policy_state) (_ : nat -> bool) (_ : nat) (x : policy_input)
    : option (policy_reply r * policy_state) :=
  policy_answer r {| coordinator_state := coordinator_state w; cellular := permit_run (cellular w) (permits x); root := root w |} x.

Definition policy_born (turns fuel : nat) (r : policy_request) : policy_reply r -> list (pprog policy_returned) :=
  match r return policy_reply r -> list (pprog policy_returned) with
  | PSpawn t => fun spawned => if spawned then [policy_task_body turns fuel t] else []
  | _ => fun _ => []
  end.

Abbreviation policy_step turns fuel := (Threads.step policy_serve (policy_born turns fuel) policy_body).
Abbreviation policy_events turns fuel := (Threads.events policy_serve (policy_born turns fuel) policy_body).

Definition policy_start (s : rt) : policy_state :=
  {| coordinator_state := policy_new; cellular := coordinator_new; root := Some s |}.

Definition policy_world_new (s : rt) : world policy_request policy_reply policy_state policy_returned :=
  {| shared := policy_start s; threads := [] |}.
