(* ===== verification/PolicyTasks.v ===== *)
(** * Interleavings of the cellular policy coordinator

    What holds of every run of [PolicyCoordinator], whatever tasks, callers and
    permits do in between: the kernel's rules are changed only behind an
    observed quiescence, the gate is opened only on the evidence of a finished
    transaction for the generation it is opened for, and enforcement is
    published only behind that.  The file ends with runs that show where the
    coordination falls short. *)

From Stdlib Require Import String.
From stdpp Require Import gmap.
From S2P Require Import RotationRuntime.
From S2P Require Import Prelude Net RustStr ProxyAuth Cellular RootSession Interaction Threads MobileData.
From S2P Require Import CellularConnector CellularRuntime RootPolicy RootPolicyRuntime RootPolicyTransaction PolicyCoordinator.

Abbreviation pev := (event policy_request policy_reply).
Abbreviation pdid := (@existT policy_request policy_reply).

(** ** The root policy's events among the coordinator's *)

(** A currentness question is a look at the owner. *)
Definition as_policy (g : CellularAdmissionSnapshot) (e : ev) (pe : pev) : Prop :=
  match e with
  | existT IsCurrent b => exists a, pe = pdid PSnapshot a /\ same_generation g a = b
  | existT r x => pe = pdid (PRoot r) x
  end.

Lemma emits_with_root {A} r (p : prog io_request io_reply A) Q :
  emits p Q ->
  emits (with_root (request_is_current r) p) (fun t a => exists te, Forall2 (as_policy (req_admission r)) te t /\ Q te a).
Proof.
  revert Q. induction p as [a|q k IH]; intros Q H; cbn [with_root].
  - apply emits_ret. exists []. split; [constructor|]. by apply emits_ret in H.
  - rewrite emits_do in H.
    assert (forall x pe, as_policy (req_admission r) (replied q x) pe ->
      emits (with_root (request_is_current r) (k x)) (fun t a => exists te,
        Forall2 (as_policy (req_admission r)) te (pe :: t) /\ Q te a)) as Hk.
    { intros x pe He. eapply emits_mono; [|apply IH, H]. intros t a (te & Ht & HQ). exists (replied q x :: te).
      split; [by constructor|done]. }
    destruct q; try (apply emits_do; intros x; by apply Hk).
    apply emits_bind, emits_do. intros a. apply emits_ret, Hk. by exists a.
Qed.

Lemma emits_with_root_result {A} ic (p : prog io_request io_reply A) (P : A -> Prop) :
  emits p (fun _ a => P a) -> emits (with_root ic p) (fun _ a => P a).
Proof.
  induction p as [a|q k IH]; intros H; cbn [with_root]; [by apply emits_ret in H; apply emits_ret|].
  rewrite emits_do in H. destruct q; try (apply emits_do; intros x; by apply IH).
  apply emits_bind. eapply emits_mono; [|apply emits_true]. intros t a _. by apply IH.
Qed.

(** ** What a thread promises *)

Section promises.
Context (c0 : RootPolicyContract).

(** The evidence of a transaction for [a], and a last look at the owner. *)
Definition enforced_for (a : CellularAdmissionSnapshot) (t : list pev) : Prop :=
  exists t0 te tp s s' interface now,
    t = t0 ++ [pdid PRootLock s] ++ tp ++ [pdid (PRootUnlock s') tt; pdid PSnapshot now] /\
    pdid (PQuiesced EFFECT_DRAIN_TIMEOUT) true ∈ t0 /\
    Forall2 (as_policy a) te tp /\ enforced_evidence c0 interface te /\ same_generation a now = true.

Definition policy_safe (t : list pev) (r : policy_request) (_ : policy_reply r) : Prop :=
  match r with
  | PRoot (Mutate command _) => pdid (PQuiesced EFFECT_DRAIN_TIMEOUT) true ∈ t
  | PRootUnlock s => owned_state c0 s
  | PAuthorize s h => exists a, last_sequence a = Some s /\ admitted_network a = Some h /\ enforced_for a t
  | PLocked (SPublish p) => publication_result p = Enforced -> exists t0 s h,
      t = t0 ++ [pdid (PAuthorize s h) true; pdid (PLocked SReset) tt] /\
      last_sequence (publication_admission p) = Some s /\ admitted_network (publication_admission p) = Some h /\
      enforced_for (publication_admission p) t0
  | _ => True
  end.

Definition policy_promised (r : policy_request) : policy_reply r -> Prop :=
  match r return policy_reply r -> Prop with PRootLock => fun s => owned_state c0 s | _ => fun _ => True end.

Abbreviation keeps p t := (always policy_promised policy_safe p t).

(** Requests that promise nothing. *)
Definition calm_request (r : policy_request) : Prop :=
  match r with
  | PRoot _ | PRootUnlock _ | PAuthorize _ _ => False
  | PLocked (SPublish p) => publication_result p <> Enforced
  | _ => True
  end.

Lemma keeps_calm {A} (p : pprog A) t : only calm_request p -> keeps p t.
Proof.
  apply only_always. intros t' r x Hr. destruct r; try done. destruct l; try done. intros E. by destruct (Hr E).
Qed.

Ltac calm :=
  repeat first
    [ exact I
    | match goal with
      | |- only _ (prog_bind _ _) => apply only_bind; [|intros ?]
      | |- only _ (request _) => split; [try exact I|intros ?]
      | |- only _ (pask _) => split; [try exact I|intros ?]
      | |- only _ (plock _) => split; [try exact I|intros ?]
      | |- only _ (Do _ _) => split; [try exact I|intros ?]
      | |- only _ (match ?x with _ => _ end) => destruct x
      end ].

Lemma calm_notify os p : only calm_request (notify_each os p).
Proof. induction os; cbn [notify_each]; calm; done. Qed.

Lemma calm_notify_admissions os a : only calm_request (notify_admissions os a).
Proof. induction os; cbn [notify_admissions]; calm; done. Qed.

Lemma calm_publish_admission a : only calm_request (publish_admission a).
Proof. unfold publish_admission. calm. apply calm_notify_admissions. Qed.

Lemma calm_enqueue a : only calm_request (enqueue_owner_generation a).
Proof. unfold enqueue_owner_generation, offer_new_owner_request. calm. Qed.

Lemma calm_publish a r : r <> Enforced -> only calm_request (publish a r).
Proof. intros Hr. unfold publish. apply only_bind; [split; [done|intros ?; exact I]|]. intros os. apply calm_notify. Qed.

Lemma calm_schedule r : only calm_request (schedule_recovery r).
Proof. unfold schedule_recovery. calm. Qed.

Lemma calm_recovery epoch delay r : only calm_request (recovery_task epoch delay r).
Proof. unfold recovery_task, fire_recovery. calm. Qed.

(** Root requests behind an observed quiescence. *)
Definition rooty (r : policy_request) : Prop := match r with PRoot _ | PSnapshot => True | _ => False end.

Lemma only_with_root {A} ic (p : prog io_request io_reply A) : only rooty ic -> only rooty (with_root ic p).
Proof.
  intros Hic. induction p as [a|q k IH]; cbn [with_root]; [done|].
  destruct q; try (split; [exact I|done]). by apply only_bind.
Qed.

Lemma keeps_rooty {A} (p : pprog A) t : only rooty p -> pdid (PQuiesced EFFECT_DRAIN_TIMEOUT) true ∈ t -> keeps p t.
Proof.
  revert t. induction p as [a|r k IH]; intros t Ho Ht; [exact I|]. destruct Ho as [Hr Ho]. intros x _. split.
  - destruct r as [| | | | | | | | | | |q| | | |]; try done. by destruct q.
  - apply IH; [done|]. apply elem_of_app. by left.
Qed.

(** The trace of a transaction that ended with enforcement. *)
Definition transacted (a : CellularAdmissionSnapshot) (t : list pev) : Prop :=
  exists (te : list ev) (tp : list pev) (s s' : rt) (interface : str),
    t = [pdid PRootLock s] ++ tp ++ [pdid (PRootUnlock s') tt] /\
    Forall2 (as_policy a) te tp /\ enforced_evidence c0 interface te.

(** The mutex is given back with a state of the same product. *)
Lemma keeps_unlock {E A} ic (m : rio E A) s t :
  pdid (PQuiesced EFFECT_DRAIN_TIMEOUT) true ∈ t -> only rooty ic -> emits (m s) (fun _ x => owned_state c0 x.2) ->
  keeps (let> x := with_root ic (m s) in
         match x.1 with None => Ret None | Some r => let> _ := pask (PRootUnlock x.2) in Ret (Some r) end) t.
Proof.
  intros Ht Hic Hm. eapply always_bind_emits; [apply emits_with_root_result, Hm|apply keeps_rooty; [by apply only_with_root|done]|].
  intros [[r|] s'] t' Ho; [|exact I]. intros [] _. split; [exact Ho|exact I].
Qed.

Lemma keeps_reconcile {A} r fuel admitted iface (k : _ -> pprog A) t :
  pdid (PQuiesced EFFECT_DRAIN_TIMEOUT) true ∈ t ->
  (forall outcome t', (outcome = Some (Ok (Completed Enforced)) -> transacted (req_admission r) t') ->
     keeps (k outcome) (t ++ t')) ->
  keeps (prog_bind (root_call (request_is_current r) (reconcile_if_current fuel admitted iface)) k) t.
Proof.
  intros Ht Hk s Hs. split; [exact I|]. cbn [prog_bind].
  change (policy_promised PRootLock s) with (owned_state c0 s) in Hs.
  pose proof (reconcile_traces c0 fuel admitted iface s Hs) as Hr.
  eapply (always_bind_emits (fun t' outcome => outcome = Some (Ok (Completed Enforced)) ->
    transacted (req_admission r) ([pdid PRootLock s] ++ t'))).
  - apply emits_bind. eapply emits_mono; [|apply emits_with_root, Hr]. cbv beta.
    intros tp [[o|] s'] (te & Hl & (_ & _ & He)); cbn [fst snd]; [|apply emits_ret; by intros].
    apply emits_do. intros []. apply emits_ret. intros [= ->]. destruct (He eq_refl) as (i & _ & Hev).
    by exists te, tp, s, s', i.
  - apply keeps_unlock; [apply elem_of_app; by left|unfold request_is_current; calm|]. eapply emits_mono; [|exact Hr]. by intros ? ? (_ & ? & _).
  - intros outcome t' Ho. rewrite <- app_assoc. by apply Hk.
Qed.

Lemma enforced_for_intro a t t1 now :
  pdid (PQuiesced EFFECT_DRAIN_TIMEOUT) true ∈ t -> transacted a t1 -> same_generation a now = true ->
  enforced_for a ((t ++ t1) ++ [pdid PSnapshot now]).
Proof.
  intros Hq (te & tp & s & s' & i & -> & Hl & He) Hn. exists t, te, tp, s, s', i, now.
  split_and!; [|done..]. by rewrite <- !app_assoc.
Qed.

Lemma keeps_conclude r result t :
  (result = Enforced -> enforced_for (req_admission r) t) -> keeps (conclude r result) t.
Proof.
  intros He. destruct result as [| |]; cbn [conclude].
  2-3: apply keeps_calm; repeat first [apply calm_publish; done | apply calm_schedule | progress calm].
  destruct (last_sequence (req_admission r)) as [s|] eqn:Hs; [|exact I].
  destruct (admitted_network (req_admission r)) as [h|] eqn:Hh; [|exact I].
  intros authorized _. split; [exists (req_admission r); auto|]. cbn [prog_bind].
  destruct authorized; [|exact I]. intros [] _. split; [exact I|]. cbn [prog_bind]. intros os _. split.
  - intros _. exists t, s, h. rewrite <- app_assoc. auto.
  - apply keeps_calm, calm_notify.
Qed.

Lemma calm_current r : only calm_request (request_is_current r).
Proof. unfold request_is_current. calm. Qed.

(** A request that is not one of the promising kinds. *)
Lemma keeps_step {A} r (k : policy_reply r -> pprog A) t :
  calm_request r -> (forall x, keeps (k x) (t ++ [pdid r x])) -> keeps (prog_bind (pask r) k) t.
Proof.
  intros Hr Hk x _. split; [|apply Hk]. destruct r; try done. destruct l; try done. intros E. by destruct (Hr E).
Qed.

Lemma keeps_process fuel r at_ t : keeps (process_request fuel r at_) t.
Proof.
  unfold process_request, request_is_current.
  intros a1 _. split; [exact I|]. cbn [prog_bind]. destruct (same_generation (req_admission r) a1); cbn [negb]; [|exact I].
  do 2 (apply keeps_step; [exact I|]; intros ?). apply keeps_step; [exact I|]. intros quiesced.
  apply keeps_step; [exact I|]. intros n3. destruct quiesced; cbn [negb]; [|exact I].
  intros a2 _. split; [exact I|]. cbn [prog_bind]. destruct (same_generation (req_admission r) a2); cbn [negb]; [|exact I].
  intros [] _. split; [exact I|]. cbn [prog_bind]. set (t1 := _ ++ _).
  assert (pdid (PQuiesced EFFECT_DRAIN_TIMEOUT) true ∈ t1) as Hq.
  { unfold t1. do 3 (apply elem_of_app; left). apply elem_of_app. right. by left. }
  apply keeps_reconcile; [done|]. intros [[[result|]|]|] t' He; try exact I.
  - intros a3 _. split; [exact I|]. cbn [prog_bind].
    destruct (same_generation (req_admission r) a3) eqn:Hg; cbn [negb]; [|apply keeps_calm; calm].
    apply always_bind; [|intros; exact I]. apply keeps_conclude. intros ->. apply enforced_for_intro; auto.
  - apply keeps_calm. calm.
Qed.

Lemma keeps_drain turns fuel t : keeps (drain turns fuel) t.
Proof.
  revert t. induction turns as [|turns IH]; intros t; cbn [drain]; [exact I|].
  intros next _. split; [exact I|]. cbn [prog_bind]. destruct next as [[r at_]|]; [|exact I].
  apply always_bind; [apply keeps_process|]. intros [u|] t'; [|exact I]. intros [] _. split; [exact I|]. apply IH.
Qed.

Lemma keeps_shutdown t : keeps shutdown t.
Proof.
  intros [] _. split; [exact I|]. intros [] _. split; [exact I|]. intros quiesced _. split; [exact I|]. cbn [prog_bind].
  set (t1 := _ ++ _). destruct quiesced; [|apply keeps_calm; calm].
  assert (pdid (PQuiesced EFFECT_DRAIN_TIMEOUT) true ∈ t1) as Hq by (apply elem_of_app; right; by left). clearbody t1.
  apply always_bind; [|intros [r|] t'; apply keeps_calm; calm].
  intros s Hs. split; [exact I|]. cbn [prog_bind]. apply keeps_unlock; [apply elem_of_app; by left|exact I|].
  eapply emits_mono; [|apply (cleanup_traces c0 s Hs)]. by intros ? ? (_ & ? & _).
Qed.

Lemma keeps_task turns fuel task : keeps (policy_task_body turns fuel task) [].
Proof.
  destruct task; cbn [policy_task_body]; (apply always_bind; [|intros; exact I]).
  - apply keeps_drain.
  - apply keeps_calm, calm_recovery.
Qed.

Lemma keeps_caller c : keeps (policy_body c) [].
Proof.
  destruct c; cbn [policy_body]; (apply always_bind; [|intros; exact I]); try (apply keeps_shutdown);
    apply keeps_calm; unfold start, observe_network, network_lost, set_observer, add_internal_observer,
      add_internal_admission_observer;
    repeat first [apply calm_publish_admission | apply calm_enqueue | progress calm].
Qed.

Lemma keeps_born turns fuel r (y : policy_reply r) : Forall (fun p => keeps p []) (policy_born turns fuel r y).
Proof. destruct r; try constructor. cbn. destruct y; repeat constructor. apply keeps_task. Qed.

(** ** What the shared state promises *)

Definition root_owned (w : policy_state) : Prop := forall s, root w = Some s -> owned_state c0 s.

Lemma policy_serve_promised r w f n x y w' : root_owned w -> policy_serve r w f n x = Some (y, w') -> policy_promised r y.
Proof.
  intros Hw. destruct r; try done. unfold policy_serve, policy_answer. cbn [root coordinator_state cellular].
  destruct (root w) as [s|] eqn:E; [|done]. intros [= -> _]. by apply Hw.
Qed.

Lemma policy_serve_owned r w f n x y w' t :
  root_owned w -> policy_serve r w f n x = Some (y, w') -> policy_safe t r y -> root_owned w'.
Proof.
  intros Hw H Hs. unfold policy_serve, policy_answer in H. cbn [root coordinator_state cellular] in H.
  assert (root w' = root w \/ root w' = None \/ exists s, root w' = Some s /\ owned_state c0 s) as [E|[E|(s & E & Ho)]].
  { destruct r; try (apply (f_equal (option_map snd)) in H; cbn in H; injection H as <-; by left).
    - destruct (_ =? 0); [|destruct (waited x)]; try done;
        (apply (f_equal (option_map snd)) in H; cbn in H; injection H as <-; by left).
    - destruct (root w); [|done]. apply (f_equal (option_map snd)) in H; cbn in H; injection H as <-. right. by left.
    - apply (f_equal (option_map snd)) in H; cbn in H; injection H as <-. right. right. eauto. }
  - unfold root_owned. by rewrite E.
  - unfold root_owned. by rewrite E.
  - unfold root_owned. rewrite E. by intros ? [= <-].
Qed.

Lemma policy_events_safe turns fuel s es t1 i r x t2 :
  owned_state c0 s -> policy_events turns fuel (policy_world_new s) es = t1 ++ (i, pdid r x) :: t2 ->
  policy_safe (own i t1) r x.
Proof.
  intros Hs. apply (events_safe policy_serve (policy_born turns fuel) policy_body root_owned policy_promised policy_safe
    policy_serve_promised policy_serve_owned keeps_caller (keeps_born turns fuel)).
  intros s' [= <-]. done.
Qed.
End promises.

(** ** Recovery timers *)

(** Sections that start a new epoch. *)
Definition new_epoch (s : CoordinatorState) (l : psection) : bool :=
  match l with SOffer _ => negb (closed s) | SReset | SClose => true | _ => false end.

Definition sections_run (s : CoordinatorState) (ls : list (psection * Z * CellularAdmissionSnapshot)) : CoordinatorState :=
  fold_left (fun s '(l, now, a) => (penter l now a s).2) ls s.

Fixpoint epochs (s : CoordinatorState) (ls : list (psection * Z * CellularAdmissionSnapshot)) : Z :=
  match ls with
  | [] => 0
  | (l, now, a) :: ls => (if new_epoch s l then 1 else 0) + epochs (penter l now a s).2 ls
  end.

Lemma epoch_section s l now a :
  recovery_epoch (penter l now a s).2 = (recovery_epoch s + if new_epoch s l then 1 else 0) mod (u64_max + 1) \/
  (new_epoch s l = false /\ recovery_epoch (penter l now a s).2 = recovery_epoch s).
Proof.
  destruct l; cbn [penter new_epoch]; try (right; split; reflexivity).
  - right. split; [done|]. unfold hint_section. by destruct name.
  - unfold offer_section. destruct (closed s); cbn; [by right|by left].
  - right. split; [done|]. unfold take_section. destruct (closed s); [done|]. by destruct (latest s).
  - by left.
  - right. split; [done|]. unfold schedule_section. by destruct (closed s || recovery_pending s).
  - right. split; [done|]. unfold fire_section. destruct (_ || _ || _); [done|]. by destruct (negb _).
  - right. split; [done|]. unfold publish_admission_section. by destruct (_ =b? _).
  - by left.
Qed.

Lemma epochs_nonneg ls : forall s, 0 <= epochs s ls.
Proof.
  induction ls as [|[[l now] a] ls IH]; intros s; cbn [epochs]; [lia|]. specialize (IH (penter l now a s).2).
  destruct (new_epoch s l); lia.
Qed.

Lemma epoch_run ls : forall s, 0 <= recovery_epoch s <= u64_max ->
  0 <= recovery_epoch (sections_run s ls) <= u64_max /\
  recovery_epoch (sections_run s ls) mod (u64_max + 1) = (recovery_epoch s + epochs s ls) mod (u64_max + 1).
Proof.
  induction ls as [|[[l now] a] ls IH]; intros s Hs; cbn [epochs].
  - unfold sections_run. cbn [fold_left]. by rewrite Z.add_0_r.
  - change (sections_run s ((l, now, a) :: ls)) with (sections_run (penter l now a s).2 ls).
    destruct (epoch_section s l now a) as [E|[E1 E2]].
    + destruct (IH (penter l now a s).2) as [H1 H2].
      { rewrite E. pose proof (Z.mod_pos_bound (recovery_epoch s + if new_epoch s l then 1 else 0) (u64_max + 1)).
        unfold u64_max in *. lia. }
      split; [done|]. rewrite H2, E, Z.add_mod_idemp_l by done. f_equal. lia.
    + destruct (IH (penter l now a s).2) as [H1 H2]; [by rewrite E2|]. split; [done|]. rewrite H2, E2, E1. f_equal.
Qed.

Lemma epoch_moved ls s : 0 <= recovery_epoch s <= u64_max -> 0 < epochs s ls <= u64_max ->
  recovery_epoch (sections_run s ls) <> recovery_epoch s.
Proof.
  intros Hs He E. destruct (epoch_run ls s Hs) as [_ H]. rewrite E in H.
  rewrite (Z.mod_small (recovery_epoch s)) in H by lia.
  destruct (Z_lt_ge_dec (recovery_epoch s + epochs s ls) (u64_max + 1)) as [Hlt|Hge].
  - rewrite Z.mod_small in H by lia. lia.
  - rewrite <- (Z.mod_add _ (-1)) in H by (unfold u64_max; lia). rewrite Z.mod_small in H by lia. lia.
Qed.

(** ** Runs for examples

    A driver that lets one thread go on against a kernel, as far as it goes. *)

Definition policy_world := world policy_request policy_reply policy_state policy_returned.
Abbreviation demo_step := (policy_step 4 8).

Definition demo_input (handle : forall r, kernel -> io_reply r * kernel) (k : kernel) : policy_input :=
  {| permits := []; time := 0; executor := true; waited := true; device := fun r => (handle r k).1 |}.

Fixpoint drive (steps : nat) (handle : forall r, kernel -> io_reply r * kernel) (i : nat) (w : policy_world) (k : kernel)
    : list (sched policy_input policy_caller) * policy_world * kernel :=
  match steps with
  | O => ([], w, k)
  | S steps =>
      match threads w !! i with
      | Some (Do r _) =>
          let e := Advance i (demo_input handle k) in
          let k' := match r with PRoot q => (handle q k).2 | _ => k end in
          let '(es, w', k'') := drive steps handle i (demo_step w e).2 k' in
          (e :: es, w', k'')
      | _ => ([], w, k)
      end
  end.

(** A script: a new caller, a thread that goes on, or one step of a thread after
    permit traffic. *)
Inductive demo_act :=
| New (c : policy_caller)
| Go (i steps : nat) (handle : forall r, kernel -> io_reply r * kernel)
| Traffic (i : nat) (es : list cellular_call).

Fixpoint play (acts : list demo_act) (w : policy_world) (k : kernel) : list (sched policy_input policy_caller) * policy_world :=
  match acts with
  | [] => ([], w)
  | New c :: acts => let '(es, w') := play acts (demo_step w (Call c)).2 k in (Call c :: es, w')
  | Go i steps handle :: acts =>
      let '(es, w1, k1) := drive steps handle i w k in
      let '(es', w2) := play acts w1 k1 in
      (es ++ es', w2)
  | Traffic i ps :: acts =>
      let e := Advance i {| permits := ps; time := 0; executor := true; waited := true;
                            device := fun r => (kernel_handle r k).1 |} in
      let '(es, w') := play acts (demo_step w e).2 k in
      (e :: es, w')
  end.

Definition policy_run (w : policy_world) (es : list (sched policy_input policy_caller)) : policy_world :=
  fold_left (fun w e => (demo_step w e).2) es w.

(** A device whose listings cannot be read. *)
Definition mute_handle (r : io_request) (k : kernel) : io_reply r * kernel :=
  match r return io_reply r * kernel with
  | Lines _ w => ((Err EffectObservationUnavailable, w), k)
  | r => kernel_handle r k
  end.

Definition observation (n : Z) : policy_caller := CallObserve (demo_obs n 42 true) 42 (Some (lit "rmnet0")).

(** One observation, and the drain it spawned. *)
Definition demo_enforced : list (sched policy_input policy_caller) :=
  (play [New (observation 1); Go 0 20 kernel_handle; Go 1 600 kernel_handle] (policy_world_new demo_rt) demo_kernel).1.

Fixpoint split_authorize (t : list (nat * pev)) : option (list (nat * pev) * nat * Z * Z * bool * list (nat * pev)) :=
  match t with
  | [] => None
  | (i, e) :: t =>
      match e with
      | existT (PAuthorize s h) b => Some ([], i, s, h, b, t)
      | e => match split_authorize t with
             | Some (t1, j, s, h, b, t2) => Some ((i, e) :: t1, j, s, h, b, t2)
             | None => None
             end
      end
  end.

Lemma split_authorize_spec t t1 i s h b t2 :
  split_authorize t = Some (t1, i, s, h, b, t2) -> t = t1 ++ (i, pdid (PAuthorize s h) b) :: t2.
Proof.
  revert t1. induction t as [|[j [r x]] t IH]; intros t1 H; [done|].
  assert (forall t1, match split_authorize t with
    | Some (t1, j', s, h, b, t2) => Some ((j, pdid r x) :: t1, j', s, h, b, t2) | None => None end
    = Some (t1, i, s, h, b, t2) -> (j, pdid r x) :: t = t1 ++ (i, pdid (PAuthorize s h) b) :: t2) as Hn.
  { intros t1' H'. destruct (split_authorize t) as [[[[[[t1'' i'] s'] h'] b'] t2']|]; [|done]. injection H' as <- -> -> -> -> ->.
    cbn. f_equal. by apply IH. }
  destruct r; try (by apply Hn). cbn in H. injection H as <- -> -> -> -> ->. done.
Qed.

(** Nothing is queued, running or scheduled, and the gate is closed. *)
Definition idle_and_closed (w : policy_state) : Prop :=
  latest (coordinator_state w) = None /\ drain_scheduled (coordinator_state w) = false /\
  recovery_pending (coordinator_state w) = false /\ ready (gate (cellular w)) = false.

(** ** Properties *)

(** C5: In every interleaving of observations, losses, drains, recovery timers,
    shutdown, permit traffic and device answers, the coordinator keeps the order
    of enforcement.  The kernel's rules are changed only by a thread that has seen
    the effects in flight drained.  The gate is opened for a sequence number and
    a network only as the next step after a root policy transaction for exactly
    that admission was run under its mutex, ended with the full evidence of
    enforcement, and the owner was found unchanged.  Enforcement is published only
    directly behind an authorisation that was granted.  And the root policy's state
    is always given back as a state of the same product. *)
Theorem policy_discipline turns fuel s es t1 i r x t2 :
  rt_reachable s ->
  policy_events turns fuel (policy_world_new s) es = t1 ++ (i, pdid r x) :: t2 ->
  policy_safe (contract s) (own i t1) r x.
Proof. intros Hs%rt_reachable_ok. apply policy_events_safe. by split. Qed.

Lemma policy_discipline_witness :
  match split_authorize (policy_events 4 8 (policy_world_new demo_rt) demo_enforced) with
  | Some (t1, i, s, h, granted, _) =>
      granted = true /\ s = 1 /\ h = 42 /\ exists a, last_sequence a = Some s /\ admitted_network a = Some h /\
      enforced_for (contract demo_rt) a (own i t1)
  | None => False
  end.
Proof.
  destruct (split_authorize _) as [[[[[[t1 i] s] h] b] t2]|] eqn:E; [|vm_compute in E; discriminate].
  assert (b = true /\ s = 1 /\ h = 42) as (-> & -> & ->).
  { apply (f_equal (option_map (fun '(_, _, s, h, b, _) => (s, h, b)))) in E. vm_compute in E. by injection E. }
  do 3 (split; [reflexivity|]). apply split_authorize_spec in E.
  exact (policy_discipline 4 8 demo_rt demo_enforced t1 i (PAuthorize 1 42) true t2 demo_rt_reachable E).
Defined.

(** A recovery timer that was overtaken does nothing.  Whatever critical
    sections run between the scheduling of a recovery and its firing: when at
    least one of them accepted a new generation, reset the recovery or closed the
    coordinator (and fewer than 2^64 did), the firing neither queues the old
    request, nor asks for a drain, nor changes anything. *)
Theorem overtaken_recovery_inert s ls r now a :
  0 <= recovery_epoch s <= u64_max -> 0 < epochs s ls <= u64_max ->
  penter (SFire (recovery_epoch s) r) now a (sections_run s ls) = (false, sections_run s ls).
Proof.
  intros Hs He. cbn [penter]. unfold fire_section.
  assert ((recovery_epoch (sections_run s ls) <>b? recovery_epoch s) = true) as ->.
  { apply negb_true_iff, bool_decide_eq_false_2, epoch_moved; done. }
  by rewrite orb_true_r.
Qed.

Lemma overtaken_recovery_inert_witness :
  let r := {| req_admission := admission Cellular.new; interface_name := None |} in
  let ls := [(SReset, 0, admission Cellular.new)] in
  penter (SFire 0 r) 5 (admission Cellular.new) (sections_run (schedule_section policy_new).2 ls) =
  (false, sections_run (schedule_section policy_new).2 ls).
Proof.
  intros r ls. apply (overtaken_recovery_inert (schedule_section policy_new).2 ls r).
  - vm_compute. split; discriminate.
  - vm_compute. split; [reflexivity|discriminate].
Defined.

(** The gate can stand open over a policy that was just reported fail-closed.
    A second report of the same observation closes the gate when it reaches the
    owner, but queues its request only later; when the drain of the first report
    finishes in between, it opens the gate, and the queued request then runs its
    transaction with the gate open.  No outcome of that transaction other than
    enforcement touches the gate: here the rules cannot be read, fail-closed is
    published, and the gate stays open. *)
Theorem gate_open_over_fail_closed :
  exists es, let w := shared (policy_run (policy_world_new demo_rt) es) in
    ready (gate (cellular w)) = true /\
    option_map publication_result (last_publication (coordinator_state w)) = Some (FailClosed (Some ObservationUnavailable)) /\
    option_map publication_admission (last_publication (coordinator_state w)) = Some (admission_snapshot (cellular w)).
Proof.
  exists (play [New (observation 1); Go 0 20 kernel_handle; New (observation 1); Go 2 1 kernel_handle;
                Go 1 600 kernel_handle; Go 2 20 kernel_handle; Go 3 600 mute_handle]
            (policy_world_new demo_rt) demo_kernel).1.
  vm_compute. split_and!; reflexivity.
Qed.

(** A generation can be left behind.  In two runs the owner ends up with an
    admitted network, the gate closed, and nothing queued, running or scheduled
    that would ever open it.  First: two observations are reported at once and
    queued in the wrong order, so that the older replaces the newer and is then
    dropped as stale.  Second: an effect in flight outlasts the drain timeout, the
    request is dropped, and nothing retries it when the effect ends. *)
Theorem generation_left_behind :
  (exists es, let w := shared (policy_run (policy_world_new demo_rt) es) in
     adm_state (admission_snapshot (cellular w)) = IsAdmitted /\
     last_sequence (admission_snapshot (cellular w)) = Some 2 /\ idle_and_closed w /\
     last_publication (coordinator_state w) = None) /\
  (exists es, let w := shared (policy_run (policy_world_new demo_rt) es) in
     adm_state (admission_snapshot (cellular w)) = IsAdmitted /\
     last_sequence (admission_snapshot (cellular w)) = Some 2 /\ idle_and_closed w /\
     in_flight (gate (cellular w)) = 0).
Proof.
  split.
  - exists (play [New (observation 1); New (observation 2); Go 0 1 kernel_handle; Go 1 20 kernel_handle;
                  Go 0 20 kernel_handle; Go 2 600 kernel_handle] (policy_world_new demo_rt) demo_kernel).1.
    vm_compute. split_and!; reflexivity.
  - exists (play [New (observation 1); Go 0 20 kernel_handle; Go 1 600 kernel_handle; New (observation 2);
                  Traffic 2 [GAcquire]; Go 2 20 kernel_handle; Go 3 600 kernel_handle; New (CallAddInternal 0);
                  Traffic 4 [GRelease]] (policy_world_new demo_rt) demo_kernel).1.
    vm_compute. split_and!; reflexivity.
Qed.
