(* ===== verification/MeshComposition.v ===== *)
(** * Mesh composition

    [src/crates/runtime/src/mesh_composition.rs]: the owner that turns the mesh
    admission, the installed proxy and the readiness bit into the effect "ingress
    should be running".

    A critical section of the composition's mutex is one [msection], a call of
    the transport coordinator (the one of [Transport], under its own mutex) is one
    request; methods are programs over both.  Whether a proxy is healthy, and what
    its listeners do when started or stopped, comes from outside. *)

From S2P Require Import Prelude Net RustStr Transport ProxyAuth Configuration Interaction Threads.

(** [mesh_ingress_serving_allowed] of [mesh_serving.rs]. *)
Definition mesh_ingress_serving_allowed (proxy_running readiness_ready mesh_admitted admission_epoch_present : bool) : bool :=
  proxy_running && readiness_ready && mesh_admitted && admission_epoch_present.

Definition proxy_transport_mappings : list MeshPortForward :=
  (fun listener => port_forward_same (port listener)) <$> canonical_listeners.

(** ** State *)

(** Proxies are executor identities, observers numbers. *)
Record MeshCompositionState := {
  proxy : option executor_id;
  readiness_ready : bool;
  last_failure : option MeshTransportError;
  observer : option nat }.

Definition composition_new : MeshCompositionState :=
  {| proxy := None; readiness_ready := false; last_failure := None; observer := None |}.

Definition set_proxy (p : option executor_id) (s : MeshCompositionState) : MeshCompositionState :=
  {| proxy := p; readiness_ready := readiness_ready s; last_failure := last_failure s; observer := observer s |}.
Definition set_ready (b : bool) (s : MeshCompositionState) : MeshCompositionState :=
  {| proxy := proxy s; readiness_ready := b; last_failure := last_failure s; observer := observer s |}.
Definition set_failure (e : option MeshTransportError) (s : MeshCompositionState) : MeshCompositionState :=
  {| proxy := proxy s; readiness_ready := readiness_ready s; last_failure := e; observer := observer s |}.
Definition set_observed (o : option nat) (s : MeshCompositionState) : MeshCompositionState :=
  {| proxy := proxy s; readiness_ready := readiness_ready s; last_failure := last_failure s; observer := o |}.

(** ** Requests *)

Inductive msection :=
| MSetProxy (p : option executor_id)
| MSetReady (b : bool)
| MSetFailure (e : option MeshTransportError)
| MSetObserver (o : nat)
| MClear
| MRead
| MReadFailure
| MReadObserver.

Definition msection_reply (l : msection) : Type :=
  match l with
  | MRead => option executor_id * bool
  | MReadFailure => option MeshTransportError
  | MReadObserver => option nat
  | _ => unit
  end.

Definition menter (l : msection) (s : MeshCompositionState) : msection_reply l * MeshCompositionState :=
  match l return msection_reply l * MeshCompositionState with
  | MSetProxy p => (tt, set_proxy p s)
  | MSetReady b => (tt, set_ready b s)
  | MSetFailure e => (tt, set_failure e s)
  | MSetObserver o => (tt, set_observed (Some o) s)
  | MClear => (tt, set_ready false (set_proxy None s))
  | MRead => ((proxy s, readiness_ready s), s)
  | MReadFailure => (last_failure s, s)
  | MReadObserver => (observer s, s)
  end.

Inductive mesh_request :=
| MLocked (l : msection)
| MSnapshot
| MObserveVpn (sequence : Z) (ob : MeshVpnObservation)
| MStart (epoch : Z) (mappings : list MeshPortForward) (p : executor_id)
| MStop
| MHealthy (p : executor_id)
| MNotify (o : nat) (s : MeshTransportSnapshot).

Definition mesh_reply (r : mesh_request) : Type :=
  match r with
  | MLocked l => msection_reply l
  | MSnapshot => MeshTransportSnapshot
  | MObserveVpn _ _ => result MeshTransportError MeshTransportSnapshot
  | MStart _ _ _ => result MeshTransportError bool
  | MStop => result MeshTransportError unit
  | MHealthy _ => bool
  | MNotify _ _ => unit
  end.

Abbreviation mprog := (prog mesh_request mesh_reply).
Abbreviation mask r := (@request mesh_request mesh_reply r).
Abbreviation mlock l := (@request mesh_request mesh_reply (MLocked l)).

(** ** Methods *)

Definition notify_current : mprog unit :=
  let> observer := mlock MReadObserver in
  let> snapshot := mask MSnapshot in
  match observer with Some o => mask (MNotify o snapshot) | None => Ret tt end.

(** The transport's result, recorded. *)
Definition settle (r : result MeshTransportError unit) : mprog (result MeshTransportError MeshTransportSnapshot) :=
  match r with
  | Ok _ =>
      let> _ := mlock (MSetFailure None) in
      let> snapshot := mask MSnapshot in
      Ret (Ok snapshot)
  | Err e =>
      let> _ := mlock (MSetFailure (Some e)) in
      Ret (Err e)
  end.

Definition reconcile : mprog (result MeshTransportError MeshTransportSnapshot) :=
  let> snapshot := mask MSnapshot in
  let admission := ts_admission snapshot in
  let> (proxy, readiness_ready) := mlock MRead in
  let> proxy_running := match proxy with Some p => mask (MHealthy p) | None => Ret false end in
  let allowed := mesh_ingress_serving_allowed proxy_running readiness_ready
    (state admission =b? IsAdmitted) (is_some (admission_epoch admission)) in
  let finish (result : result MeshTransportError unit) :=
    let> outcome := settle result in
    let> _ := notify_current in
    Ret outcome in
  if allowed then
    match proxy, admission_epoch admission with
    | Some p, Some epoch =>
        let> started := mask (MStart epoch proxy_transport_mappings p) in
        finish (let? _ := started in Ok tt)
    | _, _ => Ret (Err IngressUnavailable)
    end
  else
    let> stopped := mask MStop in
    finish stopped.

Definition set_observer (o : nat) : mprog unit :=
  let> _ := mlock (MSetObserver o) in
  let> snapshot := mask MSnapshot in
  mask (MNotify o snapshot).

Definition observe_vpn (sequence : Z) (ob : MeshVpnObservation) : mprog (result MeshTransportError MeshTransportSnapshot) :=
  let> r := mask (MObserveVpn sequence ob) in
  match r with Ok _ => reconcile | Err e => Ret (Err e) end.

Definition install_proxy (p : executor_id) : mprog (result MeshTransportError MeshTransportSnapshot) :=
  let> _ := mlock (MSetProxy (Some p)) in reconcile.

Definition clear_proxy : mprog (result MeshTransportError MeshTransportSnapshot) :=
  let> _ := mlock (MSetProxy None) in reconcile.

Definition set_readiness_ready (b : bool) : mprog (result MeshTransportError MeshTransportSnapshot) :=
  let> _ := mlock (MSetReady b) in reconcile.

Definition shutdown : mprog (result MeshTransportError unit) :=
  let> _ := mlock MClear in
  let> result := mask MStop in
  let> _ := notify_current in
  Ret result.

(** ** Answers *)

Record mesh_world := { composition : MeshCompositionState; transport : Transport.world }.

Definition mesh_world_new : result MeshTransportError mesh_world :=
  match cidr_deployment with
  | Err _ => Err StateUnavailable
  | Ok accepted =>
      match coordinator_new (cidr_network accepted) (cidr_prefix accepted) with
      | Err e => Err (Owner e)
      | Ok t => Ok {| composition := composition_new; transport := t |}
      end
  end.

(** What a step gets from outside: the session tasks that ran before it, whether
    the proxy and the current executor are healthy, and what the listeners do. *)
Record mesh_input := {
  traffic : list (nat * session_event);
  proxy_healthy : bool;
  executor_healthy : bool;
  stopping : stop_effect;
  starting : result MeshIngressError unit }.

Definition with_traffic (t : Transport.world) (es : list (nat * session_event)) : Transport.world :=
  {| coordinator := coordinator t; store := run sessions_event (store t) es |}.

Definition mesh_answer (r : mesh_request) (w : mesh_world) (x : mesh_input) : mesh_reply r * mesh_world :=
  let t := with_traffic (transport w) (traffic x) in
  let and_transport t := {| composition := composition w; transport := t |} in
  match r return mesh_reply r * mesh_world with
  | MLocked l => let y := menter l (composition w) in (y.1, {| composition := y.2; transport := t |})
  | MSnapshot => (snapshot_locked t (executor_healthy x), and_transport t)
  | MObserveVpn sequence ob =>
      let y := Transport.observe_vpn t sequence ob (executor_healthy x) (stopping x) in (y.1, and_transport y.2)
  | MStart epoch _ p =>
      let y := start_ingress t epoch p (executor_healthy x) (stopping x) (starting x) in (y.1, and_transport y.2)
  | MStop => let y := stop_ingress t (stopping x) in (y.1, and_transport y.2)
  | MHealthy _ => (proxy_healthy x, and_transport t)
  | MNotify _ _ => (tt, and_transport t)
  end.

(** ** One caller at a time *)

Inductive mesh_call :=
| CallSetObserver (o : nat)
| CallObserveVpn (sequence : Z) (ob : MeshVpnObservation)
| CallInstall (p : executor_id)
| CallClear
| CallReady (b : bool)
| CallShutdown.

Definition forget {A} (p : mprog A) : mprog unit := let> _ := p in Ret tt.

Definition mesh_body (c : mesh_call) : mprog unit :=
  match c with
  | CallSetObserver o => set_observer o
  | CallObserveVpn sequence ob => forget (observe_vpn sequence ob)
  | CallInstall p => forget (install_proxy p)
  | CallClear => forget clear_proxy
  | CallReady b => forget (set_readiness_ready b)
  | CallShutdown => forget shutdown
  end.

(** The inputs of the steps, one after the other. *)
Definition mesh_handle (r : mesh_request) (w : mesh_world * (nat -> mesh_input)) : mesh_reply r * (mesh_world * (nat -> mesh_input)) :=
  let y := mesh_answer r w.1 (w.2 0%nat) in (y.1, (y.2, fun n => w.2 (S n))).

Definition mesh_alone (w : mesh_world) (ci : mesh_call * (nat -> mesh_input)) : unit * mesh_world :=
  (tt, (interp mesh_handle (mesh_body ci.1) (w, ci.2)).1.2.1).

(** An ingress that runs has a proxy and the readiness bit behind it. *)
Definition backed (w : mesh_world) : Prop :=
  is_Some (executor (coordinator (transport w))) -> is_Some (proxy (composition w)) /\ readiness_ready (composition w) = true.

Record composition_ok (w : mesh_world) : Prop := {
  mc_transport : world_ok (transport w);
  mc_backed : backed w }.

(** Every answer of the transport is a step of it. *)
Lemma traffic_ok t es : world_ok t -> world_ok (with_traffic t es).
Proof.
  revert t. induction es as [|[i e] es IH]; intros t Ht.
  - destruct t. exact Ht.
  - apply (IH {| coordinator := coordinator t; store := (sessions_event (store t) (i, e)).2 |}).
    by apply (world_step_ok t (Session i e)).
Qed.

Lemma mesh_answer_ok r w x : world_ok (transport w) -> world_ok (transport (mesh_answer r w x).2).
Proof.
  intros Hw. apply (traffic_ok _ (traffic x)) in Hw. destruct r; cbn [mesh_answer fst snd transport]; try done.
  - by apply (world_step_ok _ (ObserveVpn sequence ob (executor_healthy x) (stopping x))).
  - by apply (world_step_ok _ (StartIngress epoch p (executor_healthy x) (stopping x) (starting x))).
  - by apply (world_step_ok _ (StopIngress (stopping x))).
Qed.

Definition ingress (w : mesh_world) : option executor_id := executor (coordinator (transport w)).

Lemma stop_silences t fx : executor (coordinator (stop_ingress t fx).2) = None.
Proof. unfold stop_ingress, stop_ingress_locked. destruct (stop_executor _ _ _). by destruct (_ || _). Qed.

(** Only a start brings an executor. *)
Lemma answer_ingress r w x :
  match r with MStart _ _ _ => False | _ => True end ->
  ingress (mesh_answer r w x).2 = ingress w \/ ingress (mesh_answer r w x).2 = None.
Proof.
  unfold ingress. destruct r; cbn [mesh_answer fst snd transport]; try (by left); try done; intros _.
  - set (t := with_traffic _ _). change (executor (coordinator (transport w))) with (executor (coordinator t)).
    unfold Transport.observe_vpn. destruct (observe_local_ipv4 _ _ _) as [[a|e] o]; [|by left].
    destruct (_ && _); [|by left]. pose proof (stop_silences (set_owner t o) (stopping x)) as Hs. unfold stop_ingress in Hs.
    destruct (stop_ingress_locked _ _) as [[]]; by right.
  - right. apply stop_silences.
Qed.

Lemma answer_composition r w x :
  match r with MLocked _ => False | _ => True end -> composition (mesh_answer r w x).2 = composition w.
Proof. by destruct r. Qed.

(** Requests that neither change what backs the ingress nor start it. *)
Definition inert (r : mesh_request) : Prop :=
  match r with
  | MLocked (MSetProxy _) | MLocked (MSetReady _) | MLocked MClear | MStart _ _ _ => False
  | _ => True
  end.

Lemma inert_ok r w x : inert r -> composition_ok w -> composition_ok (mesh_answer r w x).2.
Proof.
  intros Hr [Ht Hb]. split; [by apply mesh_answer_ok|]. unfold backed.
  assert (proxy (composition (mesh_answer r w x).2) = proxy (composition w) /\
          readiness_ready (composition (mesh_answer r w x).2) = readiness_ready (composition w)) as [-> ->].
  { destruct r as [[]| | | | | |]; done. }
  assert (match r with MStart _ _ _ => False | _ => True end) as Hs by by destruct r.
  destruct (answer_ingress r w x Hs) as [E|E]; unfold ingress in E; rewrite E; [done|by intros [? ?]].
Qed.

Lemma interp_inert {A} (p : mprog A) w xs :
  only inert p -> composition_ok w -> composition_ok (interp mesh_handle p (w, xs)).1.2.1.
Proof.
  revert w xs. induction p as [a|r k IH]; intros w xs; cbn [only interp]; [done|]. intros [Hr Hk] Hw.
  unfold mesh_handle at 1. cbn [fst snd]. specialize (IH (mesh_answer r w (xs 0%nat)).1 (mesh_answer r w (xs 0%nat)).2 (fun n => xs (S n)) (Hk _)).
  destruct (interp _ _ _) as [[a' w'] t']. cbn [fst snd] in *. apply IH. by apply inert_ok.
Qed.

Lemma only_inert_notify : only inert notify_current.
Proof. split; [exact I|]. intros [o|]; (split; [exact I|]); intros; repeat (split || intro). Qed.

Lemma only_inert_settle r : only inert (settle r).
Proof. destruct r; repeat (split || intro). Qed.

Definition finish_ok {A} (p : mprog A) : Prop :=
  forall w xs, composition_ok w -> composition_ok (interp mesh_handle p (w, xs)).1.2.1.

(** The end of [reconcile]. *)
Lemma finish_inert r : only inert (let> outcome := settle r in let> _ := notify_current in Ret outcome).
Proof. apply only_bind; [apply only_inert_settle|]. intros o. apply only_bind; [apply only_inert_notify|done]. Qed.

Lemma interp_do {A} r (k : mesh_reply r -> mprog A) w xs :
  (interp mesh_handle (Do r k) (w, xs)).1.2 =
  (interp mesh_handle (k (mesh_answer r w (xs 0%nat)).1) ((mesh_answer r w (xs 0%nat)).2, fun n => xs (S n))).1.2.
Proof. cbn [interp]. unfold mesh_handle at 1. cbn [fst snd]. by destruct (interp _ _ _) as [[? ?] ?]. Qed.

(** Whatever it starts from, a reconciliation that is not disturbed leaves an
    ingress that is backed. *)
Lemma reconcile_backs w xs :
  world_ok (transport w) -> composition_ok (interp mesh_handle reconcile (w, xs)).1.2.1.
Proof.
  intros Hw. unfold reconcile. cbn [prog_bind request]. rewrite interp_do.
  set (a := ts_admission _). clearbody a. set (w1 := (mesh_answer MSnapshot _ _).2).
  assert (composition w1 = composition w /\ world_ok (transport w1)) as [Hc1 Hw1] by (split; [done|by apply mesh_answer_ok]).
  clearbody w1. rewrite interp_do. cbn [mesh_answer menter fst snd]. rewrite Hc1.
  set (w2 := {| composition := composition w; transport := _ |}).
  assert (composition w2 = composition w /\ world_ok (transport w2)) as [Hc2 Hw2] by (split; [done|by apply traffic_ok]).
  clearbody w2. generalize (fun n : nat => xs (S (S n))) as ys. intros ys.
  assert (forall w' ys', world_ok (transport w') -> composition_ok (interp mesh_handle (
    let> stopped := mask MStop in
    let> outcome := settle stopped in let> _ := notify_current in Ret outcome) (w', ys')).1.2.1) as Hstop.
  { intros w' ys' Hw'. cbn [prog_bind request]. rewrite interp_do. apply interp_inert; [apply finish_inert|].
    split; [by apply mesh_answer_ok|]. unfold backed. cbn [mesh_answer snd transport]. rewrite stop_silences. by intros [? ?]. }
  destruct (proxy (composition w)) as [p|] eqn:Hp; cbn [prog_bind request]; [|by apply Hstop].
  rewrite interp_do. set (w3 := (mesh_answer (MHealthy p) _ _).2).
  assert (composition w3 = composition w /\ world_ok (transport w3)) as [Hc3 Hw3] by (split; [done|by apply mesh_answer_ok]).
  clearbody w3. unfold mesh_ingress_serving_allowed. destruct (mesh_answer (MHealthy p) _ _).1; [|by apply Hstop].
  destruct (readiness_ready (composition w)) eqn:Hr; [|by apply Hstop].
  destruct (state a =b? IsAdmitted); [|by apply Hstop].
  destruct (admission_epoch a) as [epoch|]; [|by apply Hstop]. cbn [andb is_some prog_bind request].
  rewrite interp_do. apply interp_inert; [apply finish_inert|]. split; [by apply mesh_answer_ok|].
  intros _. cbn [mesh_answer snd composition]. rewrite Hc3. eauto.
Qed.

Lemma mesh_alone_ok w ci : composition_ok w -> composition_ok (mesh_alone w ci).2.
Proof.
  intros Hw. destruct ci as [c xs]. unfold mesh_alone. cbn [fst snd].
  assert (forall l, composition_ok (interp mesh_handle (forget (let> _ := mlock l in reconcile)) (w, xs)).1.2.1) as Hset.
  { intros l. unfold forget. rewrite interp_bind. cbn [interp fst snd]. cbn [prog_bind request]. rewrite interp_do.
    apply reconcile_backs. apply mesh_answer_ok, Hw. }
  destruct c; try apply Hset; cbn [mesh_body].
  - apply interp_inert; [|done]. repeat (split || intro).
  - unfold forget. rewrite interp_bind. cbn [interp fst snd]. unfold observe_vpn. cbn [prog_bind request]. rewrite interp_do.
    destruct (mesh_answer _ _ _).1 as [s|e]; [apply reconcile_backs, mesh_answer_ok, Hw|]. cbn [interp fst snd].
    by apply inert_ok.
  - unfold forget. rewrite interp_bind. cbn [interp fst snd]. unfold shutdown. cbn [prog_bind request]. rewrite 2 interp_do.
    apply interp_inert; [apply only_bind; [apply only_inert_notify|done]|].
    split; [apply mesh_answer_ok, mesh_answer_ok, Hw|]. unfold backed. cbn [mesh_answer snd transport].
    rewrite stop_silences. by intros [? ?].
Qed.

Lemma mesh_world_new_ok w : mesh_world_new = Ok w -> composition_ok w.
Proof.
  unfold mesh_world_new. destruct cidr_deployment as [c|]; [|done]. destruct (coordinator_new _ _) as [t|] eqn:E; [|done].
  intros [= <-]. apply coordinator_new_ok in E as Hok. split; [done|]. unfold backed. cbn [transport composition].
  unfold coordinator_new in E. destruct (endpoint_owner_new _ _); [|done]. injection E as <-. by intros [? ?].
Qed.

(** Requests that leave the transport coordinator alone. *)
Definition quiet (r : mesh_request) : Prop :=
  match r with MLocked _ | MSnapshot | MHealthy _ | MNotify _ _ => True | _ => False end.

Lemma quiet_answer r w x : quiet r -> coordinator (transport (mesh_answer r w x).2) = coordinator (transport w).
Proof. by destruct r. Qed.

Lemma interp_quiet {A} (p : mprog A) w xs :
  only quiet p -> coordinator (transport (interp mesh_handle p (w, xs)).1.2.1) = coordinator (transport w).
Proof.
  revert w xs. induction p as [a|r k IH]; intros w xs; [done|]. intros [Hr Hk]. rewrite interp_do, IH by done.
  by apply quiet_answer.
Qed.

Lemma finish_quiet r : only quiet (let> outcome := settle r in let> _ := notify_current in Ret outcome).
Proof.
  apply only_bind; [destruct r; repeat (split || intro)|]. intros o. apply only_bind; [|done].
  split; [exact I|]. intros [n|]; (split; [exact I|]); intros; repeat (split || intro).
Qed.

(** A start for the admitted epoch, with healthy listeners. *)
Lemma start_opens t epoch p fx :
  world_ok t -> cleanup_failed (coordinator t) = false -> state (snapshot (owner (coordinator t))) = IsAdmitted ->
  admission_epoch (snapshot (owner (coordinator t))) = Some epoch ->
  let t' := (start_ingress t epoch p true fx (Ok tt)).2 in
  is_Some (executor (coordinator t')) /\ ingress_epoch (coordinator t') = Some epoch.
Proof.
  intros Ht Hc Ha He. unfold start_ingress. rewrite Hc, Ha, He, !bool_decide_eq_true_2 by done. cbn [negb orb].
  destruct (oo_snapshot _ (wo_owner _ Ht)) as [H1 _ _ _]. pose proof (proj1 H1 Ha) as [a Hend].
  destruct (ingress_epoch (coordinator t)) as [e|] eqn:Hi.
  - destruct (wo_epoch _ Ht _ Hi) as (E & [ex Hx] & _). assert (e = epoch) as -> by congruence.
    rewrite bool_decide_eq_true_2 by done. rewrite Hx. cbn. rewrite Hx. eauto.
  - rewrite bool_decide_eq_false_2 by done.
    assert (executor (coordinator t) = None) as Hx.
    { destruct (executor (coordinator t)) eqn:E; [|done]. destruct (wo_executor _ Ht) as [? ?]; [by rewrite E|congruence]. }
    rewrite Hx, (wo_idle _ Ht Hc Hi). cbn [is_some orb]. unfold start_generation. rewrite Hend. cbn. eauto.
Qed.

(** Nothing that happens on the device keeps the ingress shut. *)
Definition benign (x : mesh_input) : Prop := proxy_healthy x = true /\ executor_healthy x = true /\ starting x = Ok tt.

(** ** Properties *)

(** While calls do not overlap, the mesh ingress never outlives what allows it.
    After any sequence of VPN observations, proxy installations and removals,
    readiness changes and shutdowns, each run to its end, whatever the listeners
    and their sessions did meanwhile: when an ingress executor is running, a proxy
    is installed, the readiness bit is set, and the ingress belongs to the epoch
    that is admitted right now. *)
Theorem ingress_backed w cis :
  mesh_world_new = Ok w -> let w' := run mesh_alone w cis in
  is_Some (ingress w') ->
  is_Some (proxy (composition w')) /\ readiness_ready (composition w') = true /\
  exists e, ingress_epoch (coordinator (transport w')) = Some e /\
    admission_epoch (snapshot (owner (coordinator (transport w')))) = Some e /\
    state (snapshot (owner (coordinator (transport w')))) = IsAdmitted.
Proof.
  intros Hw w' Hi. assert (composition_ok w') as [Ht Hb].
  { apply run_invariant; [intros; by apply mesh_alone_ok|by apply mesh_world_new_ok]. }
  destruct (Hb Hi) as [Hp Hr]. split_and!; [done..|]. destruct (wo_executor _ Ht Hi) as [e He].
  destruct (wo_epoch _ Ht _ He) as (Ha & _). exists e. split_and!; [done..|].
  destruct (oo_snapshot _ (wo_owner _ Ht)) as [H1 H2 _ _]. apply H1, H2. by rewrite Ha.
Qed.

Definition demo_mesh : mesh_world :=
  match mesh_world_new with
  | Ok w => w
  | Err _ => {| composition := composition_new; transport := demo_start |}
  end.

Definition fine : mesh_input :=
  {| traffic := []; proxy_healthy := true; executor_healthy := true; stopping := clean_stop; starting := Ok tt |}.

(** [100.96.2.4]. *)
Definition demo_address : Ipv4Addr := mesh_addr (Z.shiftl 96 16 + Z.shiftl 2 8 + 4).

Definition demo_opening : list (mesh_call * (nat -> mesh_input)) :=
  (fun c => (c, fun _ => fine)) <$> [CallObserveVpn 1 (UniqueVpn [demo_address]); CallInstall 7; CallReady true].

Lemma ingress_backed_witness :
  let w' := run mesh_alone demo_mesh demo_opening in
  ingress w' = Some 7 /\ readiness_ready (composition w') = true.
Proof.
  intros w'. assert (ingress w' = Some 7) as E by (vm_compute; reflexivity). split; [done|].
  apply (ingress_backed demo_mesh demo_opening); [vm_compute; reflexivity|]. exists 7. exact E.
Defined.

(** Readiness opens the ingress, and its loss closes it.  A composition with an
    admitted address, an installed proxy and no failed cleanup, told that the
    product is ready, ends with an ingress that serves the admitted epoch, if the
    proxy is healthy and its listeners start; told that it is not ready, it ends
    without an ingress whatever happens. *)
Theorem readiness_decides_ingress w xs :
  composition_ok w -> cleanup_failed (coordinator (transport w)) = false -> is_Some (proxy (composition w)) ->
  state (snapshot (owner (coordinator (transport w)))) = IsAdmitted ->
  ((forall n, benign (xs n)) ->
     let w' := (mesh_alone w (CallReady true, xs)).2 in
     is_Some (ingress w') /\
     ingress_epoch (coordinator (transport w')) = admission_epoch (snapshot (owner (coordinator (transport w))))) /\
  (let w' := (mesh_alone w (CallReady false, xs)).2 in ingress w' = None).
Proof.
  intros Hw Hc [p Hp] Ha. split.
  - intros Hx. unfold mesh_alone, ingress. cbn [fst snd mesh_body]. unfold forget. rewrite interp_bind. cbn [interp fst snd].
    unfold set_readiness_ready, reconcile. cbn [prog_bind request]. rewrite 3 interp_do.
    cbn [mesh_answer menter fst snd]. cbn [composition set_ready proxy readiness_ready]. rewrite Hp. cbn [prog_bind request].
    rewrite interp_do. cbn [mesh_answer fst snd]. rewrite (proj1 (Hx 3%nat)).
    unfold mesh_ingress_serving_allowed. cbn [transport snapshot_locked ts_admission with_traffic coordinator].
    rewrite Ha, bool_decide_eq_true_2 by done.
    pose proof (oo_snapshot _ (wo_owner _ (mc_transport _ Hw))) as [H1 H2 _ _]. pose proof (proj1 H2 (proj1 H1 Ha)) as [e He].
    rewrite He. cbn [andb is_some prog_bind request]. rewrite interp_do, interp_quiet by apply finish_quiet.
    cbn [mesh_answer snd transport]. destruct (Hx 4%nat) as (_ & -> & ->). apply start_opens; try done.
    do 5 apply traffic_ok. apply Hw.
  - unfold mesh_alone, ingress. cbn [fst snd mesh_body]. unfold forget. rewrite interp_bind. cbn [interp fst snd].
    unfold set_readiness_ready, reconcile. cbn [prog_bind request]. rewrite 3 interp_do.
    cbn [mesh_answer menter fst snd]. cbn [composition set_ready proxy readiness_ready]. rewrite Hp. cbn [prog_bind request].
    rewrite interp_do. unfold mesh_ingress_serving_allowed. rewrite andb_false_r. cbn [andb prog_bind request].
    rewrite interp_do, interp_quiet by apply finish_quiet. apply stop_silences.
Qed.

Lemma readiness_decides_ingress_witness :
  let w := run mesh_alone demo_mesh (take 2 demo_opening) in
  is_Some (ingress (mesh_alone w (CallReady true, fun _ => fine)).2) /\
  ingress (mesh_alone w (CallReady false, fun _ => fine)).2 = None.
Proof.
  intros w. destruct (readiness_decides_ingress w (fun _ => fine)) as [H1 H2].
  - apply run_invariant; [intros; by apply mesh_alone_ok|]. apply mesh_world_new_ok. vm_compute. reflexivity.
  - vm_compute. reflexivity.
  - exists 7. vm_compute. reflexivity.
  - vm_compute. reflexivity.
  - split; [apply H1|exact H2]. intros n. repeat split.
Defined.
