(* ===== verification/ReadinessRuntime.v ===== *)
(** * Readiness runtime

    [src/crates/runtime/src/readiness_runtime.rs]: collects the facts of the other
    owners, probes the egress path with the credentials the proxy serves, projects
    both to a readiness, and tells the mesh composition.

    A critical section of the mutex is one [rsection]; methods and tasks are
    programs over sections, the requests of [MeshComposition], the spawning of
    tasks and the probe itself, which is the one of [ReadinessProbe]. *)

From Stdlib Require Import String.
From S2P Require Import RotationRuntime.
From S2P Require Import Prelude Net RustStr ProxyAuth Configuration Cellular RootPolicyRuntime Transport Readiness EgressProbe ReadinessProbe.
From S2P Require Import Interaction Threads MeshComposition.

Inductive ReadinessRuntimeError := InvalidRuntimeGeneration | InvalidOwnerKey | RuntimeStateUnavailable | RuntimeExecutorUnavailable.
Inductive ReadinessNetworkError := InvalidTarget | InvalidCredentials | NetworkExecutorUnavailable | TlsConfiguration.

#[export] Instance Readiness_eq_dec : EqDecision Readiness.
Proof. solve_decision. Defined.
#[export] Instance CellularReadinessFact_eq_dec : EqDecision CellularReadinessFact.
Proof. unfold EqDecision, Decision. decide equality; apply Z.eq_dec || apply bool_eq_dec. Defined.
#[export] Instance RuntimeReadinessFact_eq_dec : EqDecision RuntimeReadinessFact.
Proof. unfold EqDecision, Decision. decide equality; apply Z.eq_dec. Defined.
#[export] Instance ProxyReadinessFact_eq_dec : EqDecision ProxyReadinessFact.
Proof. unfold EqDecision, Decision, generation_key. solve_decision. Defined.
#[export] Instance CredentialReadinessFact_eq_dec : EqDecision CredentialReadinessFact.
Proof. unfold EqDecision, Decision. decide equality; apply Z.eq_dec || apply bool_eq_dec. Defined.
#[export] Instance MeshReadinessFact_eq_dec : EqDecision MeshReadinessFact.
Proof. unfold EqDecision, Decision, generation_key. solve_decision. Defined.

(** ** State *)

Record ProbeCredentials := { probe_version : generation_key; probe_username : str; probe_password : str }.

Record StructuralFacts := {
  cellular : option CellularReadinessFact;
  runtime : RuntimeReadinessFact;
  proxy : option ProxyReadinessFact;
  credential : option CredentialReadinessFact;
  mesh : option MeshReadinessFact }.

#[export] Instance StructuralFacts_eq_dec : EqDecision StructuralFacts.
Proof. solve_decision. Defined.

Record ReadinessRuntimeState := {
  facts : StructuralFacts;
  probe : EgressProbeCoordinator;
  observation : option EgressProbeObservation;
  projected : Readiness;
  probe_in_flight : bool;
  refresh_epoch : Z;
  refresh_pending : bool;
  credentials : option ProbeCredentials;
  observer : option nat;
  closed : bool }.

Definition input_for (f : StructuralFacts) (p : EgressProbeCoordinator) (o : option EgressProbeObservation)
    : ProductReadinessInput :=
  {| in_cellular := cellular f; in_runtime := Some (runtime f); in_proxy := proxy f; in_credential := credential f;
     in_mesh := mesh f; in_expected_freshness := expected_freshness p; in_probe := o |}.

Definition readiness_new (runtime_generation : Z) : result ReadinessRuntimeError ReadinessRuntimeState :=
  let? generation := ok_or (generation_key_new runtime_generation) InvalidRuntimeGeneration in
  let f := {| cellular := None; runtime := {| rf_generation := generation |}; proxy := None; credential := None; mesh := None |} in
  Ok {| facts := f; probe := EgressProbe.new; observation := None; projected := project (input_for f EgressProbe.new None);
        probe_in_flight := false; refresh_epoch := 0; refresh_pending := false; credentials := None; observer := None;
        closed := false |}.

(** The facts and the credentials. *)
Definition with_facts (s : ReadinessRuntimeState) (f : StructuralFacts) (c : option ProbeCredentials) : ReadinessRuntimeState :=
  {| facts := f; probe := probe s; observation := observation s; projected := projected s;
     probe_in_flight := probe_in_flight s; refresh_epoch := refresh_epoch s; refresh_pending := refresh_pending s;
     credentials := c; observer := observer s; closed := closed s |}.

(** The probe and what came of it. *)
Definition with_probe (s : ReadinessRuntimeState) (p : EgressProbeCoordinator) (o : option EgressProbeObservation)
    (r : Readiness) (in_flight : bool) : ReadinessRuntimeState :=
  {| facts := facts s; probe := p; observation := o; projected := r; probe_in_flight := in_flight;
     refresh_epoch := refresh_epoch s; refresh_pending := refresh_pending s; credentials := credentials s;
     observer := observer s; closed := closed s |}.

(** The refresh timer, the observer and the end. *)
Definition with_refresh (s : ReadinessRuntimeState) (epoch : Z) (pending : bool) (o : option nat) (shut : bool)
    : ReadinessRuntimeState :=
  {| facts := facts s; probe := probe s; observation := observation s; projected := projected s;
     probe_in_flight := probe_in_flight s; refresh_epoch := epoch; refresh_pending := pending;
     credentials := credentials s; observer := o; closed := shut |}.

Definition set_pending (s : ReadinessRuntimeState) (b : bool) : ReadinessRuntimeState :=
  with_refresh s (refresh_epoch s) b (observer s) (closed s).

Definition wrapping_succ (n : Z) : Z := (n + 1) mod (u64_max + 1).

(** ** Observations *)

Definition cellular_fact (a : CellularAdmissionSnapshot) (root_policy_verified : bool)
    : result ReadinessRuntimeError (option CellularReadinessFact) :=
  match Cellular.last_sequence a with
  | None => Ok None
  | Some sequence =>
      match generation_key_new sequence with
      | None => Err InvalidOwnerKey
      | Some owner_generation =>
          Ok (Some {| cf_owner_generation := owner_generation;
                      cf_admitted := adm_state a =b? Cellular.IsAdmitted;
                      cf_root_policy_verified := root_policy_verified && (adm_state a =b? Cellular.IsAdmitted) |})
      end
  end.

(** The closures handed to [update_structural]. *)
Inductive update :=
| UCellular (f : option CellularReadinessFact)
| UMesh (f : MeshReadinessFact)
| UProxyStarted (runtime_generation serving_generation version : generation_key) (username password : str)
| UProxyStopped
| UCredential (c : option CredentialReadinessFact) (active : bool).

Definition apply_update (u : update) (s : ReadinessRuntimeState) : ReadinessRuntimeState :=
  let f := facts s in
  match u with
  | UCellular c =>
      with_facts s {| cellular := c; runtime := runtime f; proxy := proxy f; credential := credential f; mesh := mesh f |}
        (credentials s)
  | UMesh m =>
      with_facts s {| cellular := cellular f; runtime := runtime f; proxy := proxy f; credential := credential f; mesh := Some m |}
        (credentials s)
  | UProxyStarted generation serving version u p =>
      with_facts s
        {| cellular := cellular f; runtime := runtime f;
           proxy := Some {| pf_runtime_generation := generation; pf_serving_generation := Some serving;
                            pf_credential_version := Some version; pf_healthy := true |};
           credential := Some {| cr_version := version; cr_active := true |}; mesh := mesh f |}
        (Some {| probe_version := version; probe_username := u; probe_password := p |})
  | UProxyStopped =>
      with_facts s
        {| cellular := cellular f; runtime := runtime f;
           proxy := (fun p => {| pf_runtime_generation := pf_runtime_generation p; pf_serving_generation := None;
                                 pf_credential_version := None; pf_healthy := false |}) <$> proxy f;
           credential := None; mesh := mesh f |}
        None
  | UCredential c active =>
      with_facts s {| cellular := cellular f; runtime := runtime f; proxy := proxy f; credential := c; mesh := mesh f |}
        (if active then credentials s else None)
  end.

(** ** Critical sections *)

Definition credentials_current (s : ReadinessRuntimeState) (b : ProbeBinding) : bool :=
  is_some_and (credentials s) (fun c => probe_version c =? pb_credential_version b).

(** [Ok None] is the early return when nothing changed. *)
Definition update_section (u : update) (s : ReadinessRuntimeState)
    : result ReadinessRuntimeError (option (Readiness * option ProbeTicket)) * ReadinessRuntimeState :=
  if closed s then (Err RuntimeStateUnavailable, s)
  else
    let s1 := apply_update u s in
    if facts s1 =b? facts s then (Ok None, s1)
    else
      let s2 := with_refresh s1 (wrapping_succ (refresh_epoch s1)) false (observer s1) (closed s1) in
      match invalidate (probe s2) with
      | (Err _, p) => (Err RuntimeStateUnavailable, with_probe s2 p (observation s2) (projected s2) false)
      | (Ok _, p) =>
          let input := input_for (facts s2) p None in
          let s3 := with_probe s2 p None (project input) false in
          match probe_eligibility input with
          | Eligible binding =>
              if credentials_current s3 binding then
                match begin p binding with
                | (Err _, p) => (Err RuntimeStateUnavailable, with_probe s3 p None (projected s3) false)
                | (Ok ticket, p) => (Ok (Some (projected s3, Some ticket)), with_probe s3 p None (projected s3) true)
                end
              else (Ok (Some (projected s3, None)), s3)
          | EligibilityNotReady | EligibilityUnknown => (Ok (Some (projected s3, None)), s3)
          end
      end.

Definition lookup_section (t : ProbeTicket) (s : ReadinessRuntimeState) : result ReadinessRuntimeError ProbeCredentials :=
  match credentials s with
  | Some c =>
      if probe_version c =? pb_credential_version (ticket_binding t) then Ok c else Err RuntimeStateUnavailable
  | None => Err RuntimeStateUnavailable
  end.

Definition complete_section (t : ProbeTicket) (outcome : ProbeOutcome) (elapsed : Duration) (s : ReadinessRuntimeState)
    : option (Readiness * option (Z * ProbeBinding)) * ReadinessRuntimeState :=
  if closed s then (None, s)
  else
    match complete_bounded (probe s) t outcome elapsed DEFAULT_EGRESS_PROBE_BUDGET with
    | (None, p) => (None, with_probe s p (observation s) (projected s) (probe_in_flight s))
    | (Some o, p) =>
        let input := input_for (facts s) p (Some o) in
        let s1 := with_probe s p (Some o) (project input) false in
        let binding_current := match probe_eligibility input with Eligible b => b =b? obs_binding o | _ => false end in
        if binding_current then
          let s2 := with_refresh s1 (wrapping_succ (refresh_epoch s1)) true (observer s1) (closed s1) in
          (Some (projected s2, Some (refresh_epoch s2, obs_binding o)), s2)
        else (Some (projected s1, None), set_pending s1 false)
    end.

Definition refresh_failed_section (epoch : Z) (s : ReadinessRuntimeState) : ReadinessRuntimeState :=
  if refresh_epoch s =? epoch then set_pending s false else s.

Definition fire_section (epoch : Z) (expected : ProbeBinding) (s : ReadinessRuntimeState)
    : option ProbeTicket * ReadinessRuntimeState :=
  if closed s || negb (refresh_pending s) || negb (refresh_epoch s =? epoch) then (None, s)
  else
    match probe_eligibility (input_for (facts s) (probe s) (observation s)) with
    | EligibilityNotReady | EligibilityUnknown => (None, set_pending s false)
    | Eligible current =>
        if current <>b? expected then (None, set_pending s false)
        else
          let s1 := set_pending s false in
          match begin (probe s1) current with
          | (Err _, p) => (None, with_probe s1 p (observation s1) (projected s1) (probe_in_flight s1))
          | (Ok ticket, p) => (Some ticket, with_probe s1 p (observation s1) (projected s1) true)
          end
    end.

Definition shutdown_section (s : ReadinessRuntimeState) : option Readiness * ReadinessRuntimeState :=
  if closed s then (None, s)
  else
    let s1 := with_refresh s (wrapping_succ (refresh_epoch s)) false (observer s) true in
    let f := facts s1 in
    let s2 := with_facts s1 {| cellular := cellular f; runtime := runtime f; proxy := proxy f; credential := None; mesh := mesh f |} None in
    let s3 := with_probe s2 (invalidate (probe s2)).2 None Unknown false in
    (Some (projected s3), s3).

Record ReadinessDiagnosticSnapshot := {
  diag_state : Readiness;
  diag_root_policy_verified : bool;
  diag_proxy_healthy : bool;
  diag_credential_active : bool;
  diag_mesh_admitted : bool;
  diag_binding_eligible : bool;
  diag_binding : option ProbeBinding;
  diag_expected_freshness : option generation_key;
  diag_observed_freshness : option generation_key;
  diag_probe_in_flight : bool;
  diag_refresh_pending : bool }.

Definition diagnostic_snapshot (s : ReadinessRuntimeState) : ReadinessDiagnosticSnapshot :=
  let input := input_for (facts s) (probe s) (observation s) in
  let binding := match probe_eligibility input with Eligible b => Some b | _ => None end in
  {| diag_state := projected s;
     diag_root_policy_verified := is_some_and (cellular (facts s)) cf_root_policy_verified;
     diag_proxy_healthy := is_some_and (proxy (facts s)) pf_healthy;
     diag_credential_active := is_some_and (credential (facts s)) cr_active;
     diag_mesh_admitted := is_some_and (mesh (facts s)) mf_admitted;
     diag_binding_eligible := is_some binding;
     diag_binding := binding;
     diag_expected_freshness := expected_freshness (probe s);
     diag_observed_freshness := obs_freshness <$> observation s;
     diag_probe_in_flight := probe_in_flight s;
     diag_refresh_pending := refresh_pending s |}.

(** ** Requests *)

Inductive rsection :=
| SUpdate (u : update)
| SCredentials (t : ProbeTicket)
| SComplete (t : ProbeTicket) (outcome : ProbeOutcome) (elapsed : Duration)
| SRefreshFailed (epoch : Z)
| SFire (epoch : Z) (expected : ProbeBinding)
| SShutdown
| SSetObserver (o : nat)
| SObserver
| SGeneration
| SProjected
| SDiagnostic.

Definition rsection_reply (l : rsection) : Type :=
  match l with
  | SUpdate _ => result ReadinessRuntimeError (option (Readiness * option ProbeTicket))
  | SCredentials _ => result ReadinessRuntimeError ProbeCredentials
  | SComplete _ _ _ => option (Readiness * option (Z * ProbeBinding))
  | SRefreshFailed _ => unit
  | SFire _ _ => option ProbeTicket
  | SShutdown => option Readiness
  | SSetObserver _ => Readiness
  | SObserver => option nat
  | SGeneration => generation_key
  | SProjected => Readiness
  | SDiagnostic => ReadinessDiagnosticSnapshot
  end.

Definition renter (l : rsection) (s : ReadinessRuntimeState) : rsection_reply l * ReadinessRuntimeState :=
  match l return rsection_reply l * ReadinessRuntimeState with
  | SUpdate u => update_section u s
  | SCredentials t => (lookup_section t s, s)
  | SComplete t outcome elapsed => complete_section t outcome elapsed s
  | SRefreshFailed epoch => (tt, refresh_failed_section epoch s)
  | SFire epoch expected => fire_section epoch expected s
  | SShutdown => shutdown_section s
  | SSetObserver o => (projected s, with_refresh s (refresh_epoch s) (refresh_pending s) (Some o) (closed s))
  | SObserver => (observer s, s)
  | SGeneration => (rf_generation (runtime (facts s)), s)
  | SProjected => (projected s, s)
  | SDiagnostic => (diagnostic_snapshot s, s)
  end.

Inductive readiness_task :=
| ProbeTask (t : ProbeTicket) (c : ProbeCredentials)
| RefreshTask (epoch : Z) (binding : ProbeBinding).

Inductive readiness_request :=
| RLocked (l : rsection)
| RMesh (r : mesh_request)
| RSpawn (t : readiness_task)
| RNotify (o : nat) (r : Readiness)
| RClock
| RNetwork (username password : str)
| RSleep (d : Duration).

(** A probe gets a TLS configuration, or none, and what the network does. *)
Definition readiness_reply (r : readiness_request) : Type :=
  match r with
  | RLocked l => rsection_reply l
  | RMesh r => mesh_reply r
  | RSpawn _ => bool
  | RNotify _ _ | RSleep _ => unit
  | RClock => Instant
  | RNetwork _ _ => bool * probe_env
  end.

Abbreviation rprog := (prog readiness_request readiness_reply).
Abbreviation rask r := (@request readiness_request readiness_reply r).
Abbreviation rlock l := (@request readiness_request readiness_reply (RLocked l)).

(** A method of the mesh composition. *)
Fixpoint with_mesh {A} (p : mprog A) : rprog A :=
  match p with
  | Ret a => Ret a
  | Do r k => @Do readiness_request readiness_reply A (RMesh r) (fun x => with_mesh (k x))
  end.

(** ** Methods and tasks *)

Definition notify_readiness (notification : option (nat * Readiness)) : rprog unit :=
  match notification with Some (o, r) => rask (RNotify o r) | None => Ret tt end.

Definition publish_readiness (r : Readiness) : rprog unit :=
  let> _ := with_mesh (set_readiness_ready (r =b? Ready)) in
  let> observer := rlock SObserver in
  notify_readiness ((fun o => (o, r)) <$> observer).

Definition spawn_refresh (epoch : Z) (binding : ProbeBinding) : rprog unit :=
  let> spawned := rask (RSpawn (RefreshTask epoch binding)) in
  if spawned then Ret tt else rlock (SRefreshFailed epoch).

Definition complete_probe (t : ProbeTicket) (outcome : ProbeOutcome) (elapsed : Duration) : rprog unit :=
  let> completed := rlock (SComplete t outcome elapsed) in
  match completed with
  | None => Ret tt
  | Some (readiness, refresh) =>
      let> _ := publish_readiness readiness in
      match refresh with Some (epoch, binding) => spawn_refresh epoch binding | None => Ret tt end
  end.

Definition spawn_probe (t : ProbeTicket) : rprog (result ReadinessRuntimeError unit) :=
  let> found := rlock (SCredentials t) in
  match found with
  | Err e => Ret (Err e)
  | Ok c =>
      let> spawned := rask (RSpawn (ProbeTask t c)) in
      Ret (if spawned then Ok tt else Err RuntimeExecutorUnavailable)
  end.

Definition update_structural (u : update) : rprog (result ReadinessRuntimeError unit) :=
  let> updated := rlock (SUpdate u) in
  match updated with
  | Err e => Ret (Err e)
  | Ok None => Ret (Ok tt)
  | Ok (Some (readiness, ticket)) =>
      let> _ := publish_readiness readiness in
      match ticket with
      | None => Ret (Ok tt)
      | Some ticket =>
          let> spawned := spawn_probe ticket in
          match spawned with
          | Ok _ => Ret (Ok tt)
          | Err e =>
              let> _ := complete_probe ticket TransportFailed 0 in
              Ret (Err e)
          end
      end
  end.

(** [execute_readiness_probe_async] of [readiness_network.rs]. *)
Definition execute_readiness_probe_async (username password : str) (network : bool * probe_env)
    : result ReadinessNetworkError ProbeOutcome :=
  match probe_target_deployment with
  | Err _ => Err InvalidTarget
  | Ok _ =>
      match material_new username password with
      | Err _ => Err InvalidCredentials
      | Ok _ => if network.1 then Ok (execute_probe network.2) else Err TlsConfiguration
      end
  end.

Definition map_network_error (e : ReadinessNetworkError) : ProbeOutcome :=
  match e with
  | TlsConfiguration => TlsFailed
  | InvalidTarget | InvalidCredentials | NetworkExecutorUnavailable => TransportFailed
  end.

Definition unwrap_or_else {E A} (f : E -> A) (r : result E A) : A := match r with Ok a => a | Err e => f e end.

(** [Instant::elapsed] saturates at zero. *)
Definition elapsed (started now : Instant) : Duration := Z.max 0 (now - started).

Definition probe_task (t : ProbeTicket) (c : ProbeCredentials) : rprog unit :=
  let> started := rask RClock in
  let> network := rask (RNetwork (probe_username c) (probe_password c)) in
  let outcome := unwrap_or_else map_network_error
    (execute_readiness_probe_async (probe_username c) (probe_password c) network) in
  let> now := rask RClock in
  complete_probe t outcome (elapsed started now).

Definition fire_refresh (epoch : Z) (expected : ProbeBinding) : rprog unit :=
  let> ticket := rlock (SFire epoch expected) in
  match ticket with
  | None => Ret tt
  | Some ticket => let> _ := spawn_probe ticket in Ret tt
  end.

Definition refresh_task (epoch : Z) (binding : ProbeBinding) : rprog unit :=
  let> _ := rask (RSleep DEFAULT_EGRESS_PROBE_REFRESH_DELAY) in
  fire_refresh epoch binding.

Definition set_observer (o : nat) : rprog unit :=
  let> current := rlock (SSetObserver o) in notify_readiness (Some (o, current)).

Definition observe_cellular_admission (a : CellularAdmissionSnapshot) : rprog (result ReadinessRuntimeError unit) :=
  match cellular_fact a false with
  | Err e => Ret (Err e)
  | Ok fact => update_structural (UCellular fact)
  end.

Definition observe_cellular (p : CellularPolicyPublication) : rprog (result ReadinessRuntimeError unit) :=
  match cellular_fact (publication_admission p) (match publication_result p with Enforced => true | _ => false end) with
  | Err e => Ret (Err e)
  | Ok fact => update_structural (UCellular fact)
  end.

(** A key that has to be one, if it is there at all. *)
Definition optional_key (raw : option Z) : result ReadinessRuntimeError (option generation_key) :=
  match raw with
  | None => Ok None
  | Some raw => match generation_key_new raw with Some k => Ok (Some k) | None => Err InvalidOwnerKey end
  end.

Definition observe_mesh (s : MeshTransportSnapshot) : rprog (result ReadinessRuntimeError unit) :=
  let> runtime_generation := rlock SGeneration in
  let admission := ts_admission s in
  match optional_key (admission_epoch admission) with
  | Err e => Ret (Err e)
  | Ok epoch =>
      update_structural (UMesh {| mf_runtime_generation := runtime_generation; mf_admission_epoch := epoch;
                                  mf_admitted := state admission =b? Transport.IsAdmitted; mf_ingress_running := false |})
  end.

Definition observe_proxy_started (serving_generation credential_version : Z) (username password : str)
    : rprog (result ReadinessRuntimeError unit) :=
  match generation_key_new credential_version with
  | None => Ret (Err InvalidOwnerKey)
  | Some version =>
      let> runtime_generation := rlock SGeneration in
      match generation_key_new serving_generation with
      | None => Ret (Err InvalidOwnerKey)
      | Some serving => update_structural (UProxyStarted runtime_generation serving version username password)
      end
  end.

Definition observe_proxy_stopped : rprog (result ReadinessRuntimeError unit) := update_structural UProxyStopped.

Definition observe_credential (version : option Z) (active : bool) : rprog (result ReadinessRuntimeError unit) :=
  match optional_key version with
  | Err e => Ret (Err e)
  | Ok v => update_structural (UCredential ((fun v => {| cr_version := v; cr_active := active |}) <$> v) active)
  end.

Definition shutdown : rprog unit :=
  let> readiness := rlock SShutdown in
  match readiness with
  | None => Ret tt
  | Some r => let> _ := with_mesh (set_readiness_ready (r =b? Ready)) in Ret tt
  end.

(** ** Callers and the shared state *)

Inductive readiness_caller :=
| CallCellularAdmission (a : CellularAdmissionSnapshot)
| CallCellular (p : CellularPolicyPublication)
| CallMeshFact (s : MeshTransportSnapshot)
| CallProxyStarted (serving_generation credential_version : Z) (username password : str)
| CallProxyStopped
| CallCredential (version : option Z) (active : bool)
| CallReadinessObserver (o : nat)
| CallReadinessShutdown
| CallMeshVpn (sequence : Z) (ob : MeshVpnObservation)
| CallMeshInstall (p : executor_id)
| CallMeshClear
| CallMeshObserver (o : nat)
| CallMeshShutdown.

Definition finish_with {A} (p : rprog A) : rprog unit := let> _ := p in Ret tt.

(** The readiness bit of the composition is set by this runtime only. *)
Definition readiness_body (c : readiness_caller) : rprog unit :=
  match c with
  | CallCellularAdmission a => finish_with (observe_cellular_admission a)
  | CallCellular p => finish_with (observe_cellular p)
  | CallMeshFact s => finish_with (observe_mesh s)
  | CallProxyStarted g v u p => finish_with (observe_proxy_started g v u p)
  | CallProxyStopped => finish_with observe_proxy_stopped
  | CallCredential v a => finish_with (observe_credential v a)
  | CallReadinessObserver o => set_observer o
  | CallReadinessShutdown => shutdown
  | CallMeshVpn n ob => finish_with (with_mesh (MeshComposition.observe_vpn n ob))
  | CallMeshInstall p => finish_with (with_mesh (install_proxy p))
  | CallMeshClear => finish_with (with_mesh clear_proxy)
  | CallMeshObserver o => with_mesh (MeshComposition.set_observer o)
  | CallMeshShutdown => finish_with (with_mesh MeshComposition.shutdown)
  end.

Definition readiness_task_body (t : readiness_task) : rprog unit :=
  match t with
  | ProbeTask t c => probe_task t c
  | RefreshTask epoch binding => refresh_task epoch binding
  end.

Record readiness_world := { readiness : ReadinessRuntimeState; mesh_side : mesh_world }.

Record readiness_input := {
  mesh_in : mesh_input;
  now : Instant;
  executor_runs : bool;
  network_in : bool * probe_env }.

Definition readiness_answer (r : readiness_request) (w : readiness_world) (x : readiness_input)
    : readiness_reply r * readiness_world :=
  match r return readiness_reply r * readiness_world with
  | RLocked l => let y := renter l (readiness w) in (y.1, {| readiness := y.2; mesh_side := mesh_side w |})
  | RMesh r => let y := mesh_answer r (mesh_side w) (mesh_in x) in (y.1, {| readiness := readiness w; mesh_side := y.2 |})
  | RSpawn _ => (executor_runs x, w)
  | RNotify _ _ | RSleep _ => (tt, w)
  | RClock => (now x, w)
  | RNetwork _ _ => (network_in x, w)
  end.

Definition readiness_serve (r : readiness_request) (w : readiness_world) (_ : nat -> bool) (_ : nat) (x : readiness_input)
    : option (readiness_reply r * readiness_world) := Some (readiness_answer r w x).

Definition readiness_born (r : readiness_request) : readiness_reply r -> list (rprog unit) :=
  match r return readiness_reply r -> list (rprog unit) with
  | RSpawn t => fun spawned => if spawned then [readiness_task_body t] else []
  | _ => fun _ => []
  end.

Abbreviation readiness_step := (Threads.step readiness_serve readiness_born readiness_body).
Abbreviation readiness_events := (Threads.events readiness_serve readiness_born readiness_body).

Definition readiness_start (s : ReadinessRuntimeState) (m : mesh_world)
    : Threads.world readiness_request readiness_reply readiness_world unit :=
  {| shared := {| readiness := s; mesh_side := m |}; threads := [] |}.
