(* ===== verification/ReadinessTasks.v ===== *)
(** * Interleavings of the readiness runtime

    What holds of every run of [ReadinessRuntime] together with [MeshComposition]:
    READY is projected only on the evidence of a successful probe of the binding
    the facts form, the mesh is told so only behind such a probe, and ingress is
    started only on what the starting thread has read.  The file ends with runs
    that show what the order of publication does not guarantee. *)

From Stdlib Require Import String.
From S2P Require Import RotationRuntime.
From S2P Require Import Prelude Net RustStr ProxyAuth Configuration Cellular RootPolicyRuntime Transport Readiness EgressProbe ReadinessProbe.
From S2P Require Import Interaction Threads MeshComposition ReadinessRuntime.

(** ** The state *)

(** The facts form the binding [b]. *)
Definition formed (f : StructuralFacts) (b : ProbeBinding) : Prop := coherent (input_for f EgressProbe.new None) b.

Lemma formed_eligible f p o b : probe_eligibility (input_for f p o) = Eligible b <-> formed f b.
Proof. unfold formed. rewrite <- probe_eligibility_Eligible. done. Qed.

Record readiness_ok (s : ReadinessRuntimeState) : Prop := {
  ro_probe : coordinator_ok (probe s);
  ro_observation o : observation s = Some o -> formed (facts s) (obs_binding o) /\ closed s = false;
  ro_ready : projected s = Ready -> exists o, observation s = Some o /\ obs_outcome o = Succeeded;
  ro_ticket t : EgressProbe.current (probe s) = Some t ->
    formed (facts s) (ticket_binding t) /\ closed s = false /\ refresh_pending s = false;
  ro_flight : probe_in_flight s = is_some (EgressProbe.current (probe s));
  ro_pending : refresh_pending s = true -> is_Some (observation s);
  ro_closed : closed s = true -> projected s = Unknown /\ credentials s = None;
  ro_credentials c : credentials s = Some c ->
    exists p, proxy (facts s) = Some p /\ pf_credential_version p = Some (probe_version c) }.

(** Every freshness marker has been used. *)
Definition exhausted (s : ReadinessRuntimeState) : Prop := last_freshness (probe s) = u64_max.

(** *** Markers *)

Lemma invalidate_spec p r p' : coordinator_ok p -> invalidate p = (r, p') ->
  coordinator_ok p' /\ last_freshness p <= last_freshness p' /\
  match r with Ok _ => EgressProbe.current p' = None | Err _ => p' = p /\ last_freshness p = u64_max end.
Proof.
  intros Hp E. pose proof (probe_step_ok p CInvalidate Hp) as Hp'. cbn in Hp'. rewrite E in Hp'. split; [done|].
  unfold invalidate in E. destruct (next_freshness p) as [x c'] eqn:Hn. apply next_freshness_spec in Hn; [|apply Hp].
  destruct x; injection E as <- <-; destruct Hn as (? & -> & ?); cbn; (split; [lia|]); done.
Qed.

Lemma begin_spec p b r p' : coordinator_ok p -> begin p b = (r, p') ->
  coordinator_ok p' /\ last_freshness p <= last_freshness p' /\
  match r with
  | Ok t => EgressProbe.current p' = Some t /\ ticket_binding t = b
  | Err _ => p' = p /\ last_freshness p = u64_max
  end.
Proof.
  intros Hp E. pose proof (probe_step_ok p (CBegin b) Hp) as Hp'. cbn in Hp'. rewrite E in Hp'. split; [done|].
  unfold begin in E. destruct (next_freshness p) as [x c'] eqn:Hn. apply next_freshness_spec in Hn; [|apply Hp].
  destruct x; injection E as <- <-; destruct Hn as (? & -> & ?); cbn; (split; [lia|]); done.
Qed.

Lemma complete_spec p t outcome el bu r p' : coordinator_ok p -> complete_bounded p t outcome el bu = (r, p') ->
  coordinator_ok p' /\ last_freshness p = last_freshness p' /\
  match r with
  | Some o => EgressProbe.current p = Some t /\ EgressProbe.current p' = None /\ obs_binding o = ticket_binding t /\
      obs_freshness o = last_freshness p /\ obs_outcome o = classify_outcome outcome (bu <=? el)
  | None => p' = p
  end.
Proof.
  intros Hp E. pose proof (probe_step_ok p (CComplete t outcome el bu) Hp) as Hp'. cbn in Hp'. rewrite E in Hp'.
  split; [done|]. unfold complete_bounded in E. case_bool_decide as Hc; injection E as <- <-; [|done].
  destruct (co_current _ Hp t Hc) as [? _]. by split_and!.
Qed.

(** *** Sections keep the state in order *)

Lemma apply_update_other u s :
  probe (apply_update u s) = probe s /\ observation (apply_update u s) = observation s /\
  projected (apply_update u s) = projected s /\ probe_in_flight (apply_update u s) = probe_in_flight s /\
  refresh_pending (apply_update u s) = refresh_pending s /\ closed (apply_update u s) = closed s.
Proof. by destruct u. Qed.

Lemma apply_update_credentials u s c :
  readiness_ok s -> credentials (apply_update u s) = Some c ->
  exists p, proxy (facts (apply_update u s)) = Some p /\ pf_credential_version p = Some (probe_version c).
Proof.
  intros Hs. destruct u as [f|f|g v n us pw| |k active]; cbn; try (by apply Hs); try done.
  - intros [= <-]. eauto.
  - destruct active; [by apply Hs|done].
Qed.

Lemma project_unobserved f p : project (input_for f p None) <> Ready.
Proof. intros (b & x & _ & _ & E)%project_ready_iff. done. Qed.

Lemma update_ok u s : readiness_ok s -> let s' := (update_section u s).2 in readiness_ok s' \/ exhausted s'.
Proof.
  intros Hs. unfold update_section. destruct (closed s) eqn:Hc; [by left|]. cbn zeta.
  destruct (apply_update_other u s) as (E1 & E2 & E3 & E4 & E5 & E6).
  pose proof (apply_update_credentials u s) as Hcr.
  case_bool_decide as Hf.
  - left. cbn [snd]. split; rewrite ?Hf, ?E1, ?E2, ?E3, ?E4, ?E5, ?E6; try apply Hs; [congruence|]. intros c Hk.
    rewrite <- Hf. by apply Hcr.
  - set (s1 := apply_update u s) in *. cbn [with_refresh probe facts observer refresh_epoch]. rewrite E1.
    destruct (invalidate (probe s)) as [[m|e] p] eqn:Hi; apply invalidate_spec in Hi as (Hp & Hle & Hi); [|apply Hs|right; by destruct Hi as [-> ?]|apply Hs].
    assert (forall fl p', coordinator_ok p' -> EgressProbe.current p' = None \/
        (exists t, EgressProbe.current p' = Some t /\ formed (facts s1) (ticket_binding t)) ->
      fl = is_some (EgressProbe.current p') ->
      readiness_ok (with_probe (with_refresh s1 (wrapping_succ (refresh_epoch s1)) false (observer s1) (closed s1)) p' None
        (project (input_for (facts s1) p None)) fl)) as Hok.
    { intros fl p' Hp' Hcur ->. split; cbn; try done.
      - intros Hr. by apply project_unobserved in Hr.
      - intros t Ht. rewrite E6. destruct Hcur as [|(t' & Ht' & Hb)]; [congruence|]. by simplify_eq.
      - rewrite E6. congruence.
      - intros c. by apply Hcr. }
    destruct (probe_eligibility _) as [b| |] eqn:He; try (left; apply Hok; [done|by left|by rewrite Hi]).
    apply formed_eligible in He. destruct (credentials_current _ b); [|left; apply Hok; [done|by left|by rewrite Hi]].
    destruct (begin p b) as [[t|e] p'] eqn:Hb; apply begin_spec in Hb as (Hp' & Hle' & Hb); [|done| |done].
    + destruct Hb as [Ht Hb]. left. apply Hok; [done| |by rewrite Ht]. right. exists t. by rewrite Hb.
    + right. by destruct Hb as [-> ?].
Qed.

Lemma project_ready_observation f p o : project (input_for f p (Some o)) = Ready -> obs_outcome o = Succeeded.
Proof. by intros (b & x & _ & _ & [= ->])%project_ready_iff. Qed.

Lemma complete_ok t outcome el s : readiness_ok s -> readiness_ok (complete_section t outcome el s).2.
Proof.
  intros Hs. unfold complete_section. destruct (closed s) eqn:Hc; [done|].
  destruct (complete_bounded _ _ _ _ _) as [[o|] p] eqn:E; apply complete_spec in E as (Hp & _ & E); try apply Hs.
  2: { subst p. cbn [snd]. destruct Hs; by split. }
  destruct E as (Ht & Hn & Hb & _). destruct (ro_ticket _ Hs t Ht) as (Hform & _ & Hpend).
  assert (forall e b, (b = true -> True) -> readiness_ok (with_refresh
    (with_probe s p (Some o) (project (input_for (facts s) p (Some o))) false) e b (observer s) (closed s))) as Hok.
  { intros e b _. split; cbn; try done.
    - intros o' [= <-]. by rewrite Hb.
    - intros Hr. exists o. split; [done|]. by apply project_ready_observation in Hr.
    - by rewrite Hn.
    - by rewrite Hn.
    - congruence.
    - apply Hs. }
  destruct (match probe_eligibility _ with Eligible _ => _ | _ => _ end); cbn [snd]; by apply Hok.
Qed.

Lemma set_pending_ok s : readiness_ok s -> readiness_ok (set_pending s false).
Proof. intros [H1 H2 H3 H4 H5 H6 H7 H8]. split; cbn; try done. intros t Ht. by destruct (H4 t Ht) as (? & ? & _). Qed.

Lemma fire_ok epoch b s : readiness_ok s -> let s' := (fire_section epoch b s).2 in readiness_ok s' \/ exhausted s'.
Proof.
  intros Hs. unfold fire_section. cbn zeta. pose proof (set_pending_ok s Hs) as Hs1.
  destruct (closed s) eqn:Hc; [by left|]. destruct (refresh_pending s); [|by left]. destruct (_ =? _); [|by left]. cbn [orb negb].
  destruct (probe_eligibility _) as [b'| |] eqn:He; try (by left). case_bool_decide as Hb; cbn [negb]; [|by left]. subst b'.
  apply formed_eligible in He.
  destruct (begin _ b) as [[t|e] p] eqn:E; apply begin_spec in E as (Hp & _ & E); try apply Hs1.
  - left. cbn [snd]. destruct E as [Ht Hb]. destruct Hs1 as [H1 H2 H3 H4 H5 H6 H7 H8]. split; cbn; try done.
    + intros t' Ht'. simplify_eq. by rewrite Hc.
    + by rewrite Ht.
  - right. by destruct E as [-> ?].
Qed.

Lemma shutdown_ok s : readiness_ok s -> let s' := (shutdown_section s).2 in readiness_ok s' \/ exhausted s'.
Proof.
  intros Hs. unfold shutdown_section. cbn zeta. destruct (closed s) eqn:Hc; [by left|]. cbn [with_refresh with_facts probe].
  destruct (invalidate (probe s)) as [[m|e] p] eqn:E; apply invalidate_spec in E as (Hp & _ & E); try apply Hs.
  - left. split; cbn; try done; by rewrite E.
  - right. by destruct E as [-> ?].
Qed.

Lemma renter_ok l s : readiness_ok s -> readiness_ok (renter l s).2 \/ exhausted (renter l s).2.
Proof.
  intros Hs. destruct l; cbn [renter snd]; try (by left).
  - by apply update_ok.
  - left. by apply complete_ok.
  - left. unfold refresh_failed_section. destruct (_ =? _); [by apply set_pending_ok|done].
  - by apply fire_ok.
  - by apply shutdown_ok.
  - left. destruct Hs; by split.
Qed.

(** *** Runs *)

Lemma renter_markers l s : coordinator_ok (probe s) ->
  coordinator_ok (probe (renter l s).2) /\ last_freshness (probe s) <= last_freshness (probe (renter l s).2).
Proof.
  intros Hs. assert (forall p, coordinator_ok p -> coordinator_ok p /\ last_freshness p <= last_freshness p) as Hrefl by done.
  destruct l; cbn [renter snd]; try (by apply Hrefl).
  - unfold update_section. destruct (closed s); [by apply Hrefl|]. cbn zeta.
    destruct (apply_update_other u s) as (E1 & _). case_bool_decide; [cbn [snd]; rewrite E1; by apply Hrefl|].
    cbn [with_refresh probe]. rewrite E1.
    destruct (invalidate (probe s)) as [r p] eqn:Hi. apply invalidate_spec in Hi as (Hp & Hle & _); [|done].
    destruct r; [|done]. destruct (probe_eligibility _); [|done..]. destruct (credentials_current _ _); [|done].
    destruct (begin p b) as [r p'] eqn:Hb. apply begin_spec in Hb as (Hp' & Hle' & _); [|done].
    destruct r; cbn; (split; [done|lia]).
  - unfold complete_section. destruct (closed s); [by apply Hrefl|].
    destruct (complete_bounded _ _ _ _ _) as [r p] eqn:E. apply complete_spec in E as (Hp & Hle & _); [|done].
    destruct r as [o|]; [|split; [done|cbn; lia]].
    destruct (match probe_eligibility _ with Eligible _ => _ | _ => _ end); cbn; (split; [done|lia]).
  - unfold refresh_failed_section. destruct (_ =? _); by apply Hrefl.
  - unfold fire_section. destruct (_ || _ || _); [by apply Hrefl|].
    destruct (probe_eligibility _); try (by apply Hrefl). destruct (negb _); [by apply Hrefl|].
    destruct (begin _ _) as [r p] eqn:Hb. apply begin_spec in Hb as (Hp & Hle & _); [|done]. by destruct r.
  - unfold shutdown_section. destruct (closed s); [by apply Hrefl|]. cbn.
    destruct (invalidate (probe s)) as [r p] eqn:Hi. by apply invalidate_spec in Hi as (Hp & Hle & _).
Qed.

Lemma renter_exhausted l s : coordinator_ok (probe s) -> exhausted s -> exhausted (renter l s).2.
Proof.
  intros Hs He. destruct (renter_markers l s Hs) as [[Hr _] Hle]. unfold exhausted, in_width in *. lia.
Qed.

(** An invariant of open markers, and what becomes of it when they run out. *)
Definition until_exhausted (I : ReadinessRuntimeState -> Prop) (s : ReadinessRuntimeState) : Prop :=
  coordinator_ok (probe s) /\ (exhausted s \/ I s).

Section runs.
Context (I : ReadinessRuntimeState -> Prop).
Context (section_keeps : forall l s, I s -> I (renter l s).2 \/ exhausted (renter l s).2).

Lemma readiness_runs_inv w es :
  until_exhausted I (readiness (shared w)) ->
  until_exhausted I (readiness (shared (Threads.runs readiness_serve readiness_born readiness_body w es))).
Proof.
  apply (runs_inv readiness_serve readiness_born readiness_body (fun _ => True) (fun w => until_exhausted I (readiness w)));
    [|by apply Forall_true].
  intros r s f n x y s' _ [Hc HI] H. injection H as H.
  destruct r as [l|m|t|o r| |u p|d]; cbn in H; try (injection H as <- <-; by split).
  injection H as <- <-. cbn. split; [by apply renter_markers|]. destruct HI as [HI|HI]; [left; by apply renter_exhausted|].
  destruct (section_keeps l (readiness s) HI); auto.
Qed.
End runs.

Lemma readiness_new_ok g s : readiness_new g = Ok s -> readiness_ok s.
Proof.
  unfold readiness_new. destruct (generation_key_new g); [|done]. intros [= <-]. by split.
Qed.

(** ** What a thread promises *)

Abbreviation rev := (event readiness_request readiness_reply).
Abbreviation rdid := (@existT readiness_request readiness_reply).

(** A probe that succeeded within its budget, and whose completion was READY. *)
Definition probed (t : list rev) : Prop :=
  exists t0 username password a env b ticket refresh,
    t = t0 ++ [rdid RClock a; rdid (RNetwork username password) (true, env); rdid RClock b;
               rdid (RLocked (SComplete ticket Succeeded (elapsed a b))) (Some (Ready, refresh))] /\
    execute_probe env = Succeeded /\ elapsed a b < DEFAULT_EGRESS_PROBE_BUDGET.

(** The three facts a start rests on, read one after the other. *)
Definition ingress_allowed (epoch : Z) (p : executor_id) (t : list rev) : Prop :=
  exists t0 s,
    t = t0 ++ [rdid (RMesh MSnapshot) s; rdid (RMesh (MLocked MRead)) (Some p, true); rdid (RMesh (MHealthy p)) true] /\
    state (ts_admission s) = Transport.IsAdmitted /\ admission_epoch (ts_admission s) = Some epoch.

Definition readiness_safe (t : list rev) (r : readiness_request) (_ : readiness_reply r) : Prop :=
  match r with
  | RMesh (MLocked (MSetReady true)) => probed t
  | RMesh (MStart epoch mappings p) => ingress_allowed epoch p t /\ mappings = proxy_transport_mappings
  | RSpawn (ProbeTask ticket c) => probe_version c = pb_credential_version (ticket_binding ticket)
  | _ => True
  end.

Definition readiness_promised (r : readiness_request) : readiness_reply r -> Prop :=
  match r return readiness_reply r -> Prop with
  | RLocked (SUpdate u) => fun y => forall x, y = Ok (Some x) -> x.1 <> Ready
  | RLocked (SComplete t outcome el) => fun y =>
      forall refresh, y = Some (Ready, refresh) -> outcome = Succeeded /\ el < DEFAULT_EGRESS_PROBE_BUDGET
  | RLocked (SCredentials t) => fun y => forall c, y = Ok c -> probe_version c = pb_credential_version (ticket_binding t)
  | RLocked SShutdown => fun y => forall r, y = Some r -> r = Unknown
  | _ => fun _ => True
  end.

Abbreviation keeps p t := (always readiness_promised readiness_safe p t).

(** Requests that promise nothing. *)
Definition calm_request (r : readiness_request) : Prop :=
  match r with
  | RMesh (MLocked (MSetReady true)) | RMesh (MStart _ _ _) | RSpawn (ProbeTask _ _) => False
  | _ => True
  end.

Lemma readiness_keeps_calm {A} (p : rprog A) t : only calm_request p -> keeps p t.
Proof. apply only_always. intros t' r x Hr. destruct r as [|[[| [] | | | | | |]| | | | | |]|[]| | | |]; try done. Qed.

Lemma calm_with_mesh {A} (p : mprog A) : only (fun r => calm_request (RMesh r)) p -> only calm_request (with_mesh p).
Proof. induction p as [a|r k IH]; cbn [with_mesh only]; [done|]. intros [Hr Hk]. split; auto. Qed.

(** One step that promises nothing, whatever it answers. *)
Lemma readiness_keeps_step {A} r (k : readiness_reply r -> rprog A) t :
  calm_request r -> (forall x, readiness_promised r x -> keeps (k x) (t ++ [rdid r x])) -> keeps (Do r k) t.
Proof.
  intros Hr Hk x Hx. split; [|by apply Hk]. destruct r as [|[[| [] | | | | | |]| | | | | |]|[]| | | |]; done.
Qed.

Lemma calm_finish r : only (fun r => calm_request (RMesh r)) (let> outcome := settle r in let> _ := notify_current in Ret outcome).
Proof.
  apply only_bind; [destruct r; repeat (split || intro)|]. intros o. apply only_bind; [|done].
  split; [exact I|]. intros [n|]; (split; [exact I|]); intros; repeat (split || intro).
Qed.

Lemma keeps_mesh_reconcile t : keeps (with_mesh reconcile) t.
Proof.
  unfold reconcile. cbn [prog_bind request with_mesh]. apply readiness_keeps_step; [exact I|]. intros s _.
  cbn [with_mesh prog_bind]. apply readiness_keeps_step; [exact I|]. intros [proxy ready] _.
  assert (forall t, keeps (with_mesh (let> stopped := mask MStop in
    let> outcome := settle stopped in let> _ := notify_current in Ret outcome)) t) as Hstop.
  { intros t'. apply readiness_keeps_calm, calm_with_mesh. split; [exact I|]. intros x. apply calm_finish. }
  destruct proxy as [p|]; cbn [prog_bind request with_mesh]; [|apply Hstop].
  apply readiness_keeps_step; [exact I|]. intros healthy _. unfold mesh_ingress_serving_allowed.
  destruct healthy; [|apply Hstop]. destruct ready; [|apply Hstop]. case_bool_decide as Ha; [|apply Hstop].
  destruct (admission_epoch (ts_admission s)) as [epoch|] eqn:He; [|apply Hstop]. cbn [andb is_some prog_bind request with_mesh].
  intros started _. split; [|apply readiness_keeps_calm, calm_with_mesh, calm_finish].
  split; [|done]. exists t, s. by rewrite <- !app_assoc.
Qed.

Lemma keeps_then_reconcile r t : calm_request (RMesh r) -> keeps (with_mesh (let> _ := mask r in reconcile)) t.
Proof. intros Hr. cbn [prog_bind request with_mesh]. apply readiness_keeps_step; [done|]. intros x _. apply keeps_mesh_reconcile. Qed.

Lemma keeps_set_ready r t : (r = Ready -> probed t) -> keeps (with_mesh (set_readiness_ready (r =b? Ready))) t.
Proof.
  intros Hr. case_bool_decide as E; [|by apply keeps_then_reconcile].
  unfold set_readiness_ready. cbn [prog_bind request with_mesh]. intros [] _. split; [by apply Hr|apply keeps_mesh_reconcile].
Qed.

Lemma readiness_keeps_publish {A} r (k : unit -> rprog A) t :
  (r = Ready -> probed t) -> (forall x t', keeps (k x) (t ++ t')) -> keeps (prog_bind (publish_readiness r) k) t.
Proof.
  intros Hr Hk. apply always_bind; [|done]. unfold publish_readiness. apply always_bind; [by apply keeps_set_ready|].
  intros y t'. cbn [prog_bind request]. apply readiness_keeps_step; [exact I|]. intros [o|] _; [|exact I].
  apply readiness_keeps_step; [exact I|]. intros; exact I.
Qed.

Lemma keeps_spawn_refresh epoch b t : keeps (spawn_refresh epoch b) t.
Proof.
  apply readiness_keeps_calm. split; [exact I|]. intros [|]; cbn; [done|]. split; [exact I|]. done.
Qed.

(** A completion, when a success comes from a probe. *)
Lemma keeps_complete ticket outcome el t :
  (outcome = Succeeded -> exists t0 username password a env b,
     t = t0 ++ [rdid RClock a; rdid (RNetwork username password) (true, env); rdid RClock b] /\
     el = elapsed a b /\ execute_probe env = Succeeded) ->
  keeps (complete_probe ticket outcome el) t.
Proof.
  intros Ho. unfold complete_probe. cbn [prog_bind request]. apply readiness_keeps_step; [exact I|]. cbn [readiness_promised].
  intros [[r refresh]|] Hx; [|exact I]. apply readiness_keeps_publish.
  - intros ->. destruct (Hx refresh eq_refl) as [-> Hel]. destruct (Ho eq_refl) as (t0 & u & p & a & env & b & -> & -> & He).
    exists t0, u, p, a, env, b, ticket, refresh. by rewrite <- app_assoc.
  - intros _ t'. destruct refresh as [[epoch b]|]; [apply keeps_spawn_refresh|exact I].
Qed.

Lemma keeps_spawn_probe {A} ticket (k : _ -> rprog A) t :
  (forall x t', keeps (k x) (t ++ t')) -> keeps (prog_bind (spawn_probe ticket) k) t.
Proof.
  intros Hk. apply always_bind; [|done]. unfold spawn_probe. cbn [prog_bind request]. apply readiness_keeps_step; [exact I|].
  cbn [readiness_promised]. intros [c|e] Hc; [|exact I]. intros spawned _. split; [by apply Hc|exact I].
Qed.

Lemma keeps_update u t : keeps (update_structural u) t.
Proof.
  unfold update_structural. cbn [prog_bind request]. apply readiness_keeps_step; [exact I|]. cbn [readiness_promised].
  intros [[[r ticket]|]|e] Hx; [|exact I..]. apply readiness_keeps_publish; [intros ->; by destruct (Hx _ eq_refl)|].
  intros _ t'. destruct ticket as [ticket|]; [|exact I]. apply keeps_spawn_probe. intros [u'|e] t''; [exact I|].
  apply always_bind; [|intros; exact I]. by apply keeps_complete.
Qed.

Lemma probe_succeeded u p (network : bool * probe_env) :
  unwrap_or_else map_network_error (execute_readiness_probe_async u p network) = Succeeded ->
  exists env, network = (true, env) /\ execute_probe env = Succeeded.
Proof.
  unfold execute_readiness_probe_async. destruct probe_target_deployment; [|done]. destruct (material_new u p); [|done].
  destruct network as [[] env]; cbn; [|done]. eauto.
Qed.

Lemma readiness_keeps_task task : keeps (readiness_task_body task) [].
Proof.
  destruct task as [ticket c|epoch b]; cbn [readiness_task_body].
  - unfold probe_task. cbn [prog_bind request]. apply readiness_keeps_step; [exact I|]. intros a _. cbn [prog_bind].
    apply readiness_keeps_step; [exact I|]. intros network _. cbn [prog_bind]. apply readiness_keeps_step; [exact I|]. intros b _.
    apply keeps_complete. intros (env & -> & He)%probe_succeeded. by eexists [], _, _, a, env, b.
  - unfold refresh_task. cbn [prog_bind request]. apply readiness_keeps_step; [exact I|]. intros [] _. unfold fire_refresh.
    cbn [prog_bind request]. apply readiness_keeps_step; [exact I|]. intros [ticket|] _; [|exact I].
    apply keeps_spawn_probe. intros; exact I.
Qed.

Lemma readiness_keeps_finish {A} (p : rprog A) t : keeps p t -> keeps (finish_with p) t.
Proof. intros Hp. apply always_bind; [done|]. intros; exact I. Qed.

Lemma readiness_keeps_caller c : keeps (readiness_body c) [].
Proof.
  destruct c; cbn [readiness_body]; try (apply readiness_keeps_finish).
  - unfold observe_cellular_admission. destruct (cellular_fact _ _); [apply keeps_update|exact I].
  - unfold observe_cellular. destruct (cellular_fact _ _); [apply keeps_update|exact I].
  - unfold observe_mesh. cbn [prog_bind request]. apply readiness_keeps_step; [exact I|]. intros g _.
    destruct (optional_key _); [apply keeps_update|exact I].
  - unfold observe_proxy_started. destruct (generation_key_new credential_version); [|exact I].
    cbn [prog_bind request]. apply readiness_keeps_step; [exact I|]. intros n _.
    destruct (generation_key_new serving_generation); [apply keeps_update|exact I].
  - apply keeps_update.
  - unfold observe_credential. destruct (optional_key _); [apply keeps_update|exact I].
  - apply readiness_keeps_calm. repeat (split || intro).
  - unfold shutdown. cbn [prog_bind request]. apply readiness_keeps_step; [exact I|]. cbn [readiness_promised]. intros [r|] Hr; [|exact I].
    rewrite (Hr r eq_refl). apply always_bind; [by apply keeps_set_ready|]. intros; exact I.
  - unfold MeshComposition.observe_vpn. cbn [prog_bind request with_mesh]. apply readiness_keeps_step; [exact I|]. intros [s|e] _; [apply keeps_mesh_reconcile|exact I].
  - by apply keeps_then_reconcile.
  - by apply keeps_then_reconcile.
  - apply readiness_keeps_calm, calm_with_mesh. repeat (split || intro).
  - apply readiness_keeps_calm, calm_with_mesh. unfold MeshComposition.shutdown. cbn [prog_bind request].
    do 2 (split; [exact I|]; intros ?). apply only_bind; [|done]. split; [exact I|]. intros [n|]; repeat (split || intro).
Qed.

Lemma readiness_keeps_born r (y : readiness_reply r) : Forall (fun p => keeps p []) (readiness_born r y).
Proof. destruct r; try constructor. cbn. destruct y; repeat constructor. apply readiness_keeps_task. Qed.

(** ** What the state promises *)

Lemma update_section_promise u s x : (update_section u s).1 = Ok (Some x) -> x.1 <> Ready.
Proof.
  unfold update_section. destruct (closed s); [done|]. cbn zeta. case_bool_decide; [done|].
  destruct (invalidate _) as [[m|e] p]; [|done]. destruct (probe_eligibility _) as [b| |];
    try (intros [= <-]; apply project_unobserved).
  destruct (credentials_current _ b); [|intros [= <-]; apply project_unobserved].
  destruct (begin p b) as [[t|e] p']; [|done]. intros [= <-]. apply project_unobserved.
Qed.

Lemma complete_section_promise t outcome el s refresh :
  (complete_section t outcome el s).1 = Some (Ready, refresh) -> outcome = Succeeded /\ el < DEFAULT_EGRESS_PROBE_BUDGET.
Proof.
  unfold complete_section. destruct (closed s); [done|]. unfold complete_bounded. destruct (_ <>b? _); [done|].
  set (o := {| obs_outcome := _; obs_binding := _; obs_freshness := _ |}). set (p := {| last_freshness := _; EgressProbe.current := _ |}).
  intros H. assert (project (input_for (facts s) p (Some o)) = Ready) as Hr.
  { destruct (match probe_eligibility _ with Eligible _ => _ | _ => _ end); cbn in H; by injection H. }
  apply project_ready_observation in Hr. cbn in Hr. unfold classify_outcome in Hr.
  destruct (Z.leb_spec DEFAULT_EGRESS_PROBE_BUDGET el); [done|]. split; [done|lia].
Qed.

Lemma readiness_serve_promised r w f n x y w' :
  True -> readiness_serve r w f n x = Some (y, w') -> readiness_promised r y.
Proof.
  intros _ H. injection H as H. assert (y = (readiness_answer r w x).1) as -> by by rewrite H. clear H.
  destruct r as [l| | | | | |]; try done. cbn [readiness_answer fst]. destruct l; try done; cbn [renter readiness_promised].
  - intros z. apply update_section_promise.
  - intros c. cbn [fst]. unfold lookup_section. destruct (credentials _) as [c'|]; [|done].
    destruct (Z.eqb_spec (probe_version c') (pb_credential_version (ticket_binding t))); [|done]. by intros [= <-].
  - intros z. apply complete_section_promise.
  - intros z. unfold shutdown_section. destruct (closed _); [done|]. by intros [= <-].
Qed.

Lemma readiness_events_safe w es t1 i r x t2 :
  readiness_events {| shared := w; threads := [] |} es = t1 ++ (i, rdid r x) :: t2 -> readiness_safe (own i t1) r x.
Proof.
  by apply (events_safe readiness_serve readiness_born readiness_body (fun _ => True) readiness_promised readiness_safe
    readiness_serve_promised (fun _ _ _ _ _ _ _ _ _ _ _ => I) readiness_keeps_caller readiness_keeps_born).
Qed.

(** ** Runs for examples *)

Abbreviation readiness_threads := (Threads.world readiness_request readiness_reply readiness_world unit).
Abbreviation readiness_runs := (Threads.runs readiness_serve readiness_born readiness_body).

Definition good_network : probe_env :=
  {| tcp_connect := StepOk; write_request := StepOk; flush_request := StepOk;
     response_events := [Chunk (lit "HTTP/1.1 200 OK" ++ [13; 10; 13; 10])]; remaining_is_zero := false; tls_connect := Ok tt |}.

Definition good_input : readiness_input :=
  {| mesh_in := fine; now := 0; executor_runs := true; network_in := (true, good_network) |}.

Inductive demo_act := New (c : readiness_caller) | Go (i steps : nat).

Definition play (acts : list demo_act) : list (sched readiness_input readiness_caller) :=
  concat ((fun a => match a with New c => [Call c] | Go i n => repeat (Advance i good_input) n end) <$> acts).

Definition demo_admission (admitted : bool) (sequence : Z) : CellularAdmissionSnapshot :=
  {| adm_state := if admitted then Cellular.IsAdmitted else Cellular.NotAdmitted; adm_reason := None;
     admitted_network := if admitted then Some 42 else None; Cellular.last_sequence := Some sequence |}.

Definition demo_readiness : ReadinessRuntimeState :=
  match readiness_new 21 with
  | Ok s => s
  | Err _ =>
      let f := {| cellular := None; runtime := {| rf_generation := 21 |}; proxy := None; credential := None; mesh := None |} in
      {| facts := f; probe := EgressProbe.new; observation := None; projected := Unknown; probe_in_flight := false;
         refresh_epoch := 0; refresh_pending := false; credentials := None; observer := None; closed := false |}
  end.

Definition demo_world : readiness_threads := readiness_start demo_readiness demo_mesh.

(** The mesh admits an address, a proxy is installed and starts, the cellular
    policy is enforced: thread 5 is the probe. *)
Definition demo_setup : list demo_act :=
  [New (CallMeshVpn 1 (UniqueVpn [demo_address])); Go 0 20;
   New (CallMeshInstall 7); Go 1 20;
   New (CallCellular {| publication_admission := demo_admission true 11; publication_result := Enforced |}); Go 2 20;
   New (CallMeshFact (snapshot_locked (MeshComposition.transport (run mesh_alone demo_mesh (take 1 demo_opening))) true)); Go 3 20;
   New (CallProxyStarted 31 51 (lit "user") (lit "secret")); Go 4 20].

Definition all_finished (w : readiness_threads) : bool :=
  forallb (fun p => match p with Ret _ => true | Do _ _ => false end) (threads w).

Definition demo_ready : list (sched readiness_input readiness_caller) := play (demo_setup ++ [Go 5 40]).

(** The first start of an ingress. *)
Fixpoint split_start (t : list (nat * rev))
    : option (list (nat * rev) * nat * (Z * list MeshPortForward * executor_id) * result MeshTransportError bool * list (nat * rev)) :=
  match t with
  | [] => None
  | (i, e) :: t =>
      match e with
      | existT (RMesh (MStart epoch m p)) x => Some ([], i, (epoch, m, p), x, t)
      | e => match split_start t with
             | Some (t1, j, a, x, t2) => Some ((i, e) :: t1, j, a, x, t2)
             | None => None
             end
      end
  end.

Lemma split_start_spec t t1 i epoch m p x t2 :
  split_start t = Some (t1, i, (epoch, m, p), x, t2) -> t = t1 ++ (i, rdid (RMesh (MStart epoch m p)) x) :: t2.
Proof.
  revert t1. induction t as [|[j [r y]] t IH]; intros t1 H; [done|].
  assert (match split_start t with
    | Some (t1, j', a, x, t2) => Some ((j, rdid r y) :: t1, j', a, x, t2) | None => None end
    = Some (t1, i, (epoch, m, p), x, t2) -> (j, rdid r y) :: t = t1 ++ (i, rdid (RMesh (MStart epoch m p)) x) :: t2) as Hn.
  { intros H'. destruct (split_start t) as [[[[[t1' i'] a'] x'] t2']|]; [|done]. injection H' as <- -> -> -> ->.
    cbn. f_equal. by apply IH. }
  destruct r as [|[]| | | | |]; try (by apply Hn). cbn in H. injection H as <- -> -> -> -> -> ->. done.
Qed.

(** ** Properties *)

(** The facts the runtime holds agree on this binding. *)
Definition binds (s : ReadinessRuntimeState) (b : ProbeBinding) : Prop :=
  coherent (input_for (facts s) (probe s) (observation s)) b.

(** C4: READY is always justified.  Whatever observations, probes, refresh timers,
    mesh calls and shutdowns interleave, as long as a freshness marker is left:
    when the runtime projects READY, the facts it holds are coherent and bind
    exactly the probe that succeeded, and it is not shut down; a probe that is
    outstanding is one for the binding the facts form now, is reported as in
    flight, and no refresh is pending beside it; and a runtime that was shut down
    projects UNKNOWN and has forgotten the credentials. *)
Theorem ready_justified g s m es :
  readiness_new g = Ok s ->
  let s' := readiness (shared (readiness_runs (readiness_start s m) es)) in
  last_freshness (probe s') < u64_max ->
  (projected s' = Ready -> closed s' = false /\ exists b f,
     binds s' b /\
     observation s' = Some {| obs_outcome := Succeeded; obs_binding := b; obs_freshness := f |}) /\
  (forall t, EgressProbe.current (probe s') = Some t ->
     binds s' (ticket_binding t) /\
     probe_in_flight s' = true /\ refresh_pending s' = false /\ closed s' = false) /\
  (closed s' = true -> projected s' = Unknown /\ credentials s' = None).
Proof.
  intros Hs s' Hf. assert (until_exhausted readiness_ok s') as [_ [He|Hok]].
  { apply readiness_runs_inv; [exact renter_ok|]. apply readiness_new_ok in Hs. split; [apply Hs|by right]. }
  { unfold exhausted in He. lia. }
  split_and!.
  - intros (o & Ho & Hsucc)%(ro_ready _ Hok). destruct (ro_observation _ Hok o Ho) as [Hform Hc]. split; [done|].
    exists (obs_binding o), (obs_freshness o). split; [|destruct o; cbn in *; by subst].
    by apply probe_eligibility_Eligible, formed_eligible.
  - intros t Ht. destruct (ro_ticket _ Hok t Ht) as (Hform & Hc & Hp). split_and!; try done.
    + by apply probe_eligibility_Eligible, formed_eligible.
    + rewrite (ro_flight _ Hok), Ht. done.
  - apply (ro_closed _ Hok).
Qed.

Lemma ready_justified_witness :
  let s' := readiness (shared (readiness_runs demo_world demo_ready)) in
  projected s' = Ready /\ closed s' = false /\ exists b f,
    binds s' b /\
    observation s' = Some {| obs_outcome := Succeeded; obs_binding := b; obs_freshness := f |}.
Proof.
  intros s'. assert (projected s' = Ready) as Hr by (vm_compute; reflexivity). split; [exact Hr|].
  refine (proj1 (ready_justified 21 demo_readiness demo_mesh demo_ready _ _) Hr); vm_compute; reflexivity.
Defined.

(** Ingress and readiness rest on evidence.  In every interleaving: the mesh is
    told that the product is ready only by a thread whose last four steps were a
    look at the clock, a network probe that succeeded, another look at the clock
    less than the probe budget later, and the completion section answering READY.
    The ingress is started only by a thread whose last three steps saw the mesh
    admission, a proxy installed with the readiness bit set, and that proxy
    healthy; it is started for exactly that proxy, that admission epoch and the
    canonical ports.  And a probe is spawned only with credentials of the version
    its ticket is bound to. *)
Theorem serving_discipline w es t1 i r x t2 :
  readiness_events {| shared := w; threads := [] |} es = t1 ++ (i, rdid r x) :: t2 -> readiness_safe (own i t1) r x.
Proof. apply readiness_events_safe. Qed.

Lemma serving_discipline_witness :
  match split_start (readiness_events demo_world demo_ready) with
  | Some (t1, i, (epoch, m, p), started, _) =>
      started = Ok true /\ epoch = 1 /\ p = 7 /\ ingress_allowed epoch p (own i t1) /\ m = proxy_transport_mappings
  | None => False
  end.
Proof.
  destruct (split_start _) as [[[[[t1 i] [[epoch m] p]] started] t2]|] eqn:E; [|vm_compute in E; discriminate].
  assert (started = Ok true /\ epoch = 1 /\ p = 7) as (-> & -> & ->).
  { apply (f_equal (option_map (fun '(_, _, (epoch, _, p), x, _) => (x, epoch, p)))) in E. vm_compute in E. by injection E. }
  do 3 (split; [reflexivity|]). apply split_start_spec in E.
  exact (serving_discipline (shared demo_world) demo_ready t1 i (RMesh (MStart 1 m 7)) (Ok true) t2 E).
Defined.

(** The mesh can be left open over a product that is not ready.  The runtime
    publishes after it has let go of its mutex: a probe completes READY, before it
    is published the cellular network is lost, NOT_READY is projected and published
    and the ingress stopped, and then the older READY is published and starts the
    ingress.  All threads have ended, the runtime projects NOT_READY, and the
    ingress is up. *)
Theorem ingress_over_not_ready :
  exists es, let w := readiness_runs demo_world es in
    all_finished w = true /\ projected (readiness (shared w)) = NotReady /\
    readiness_ready (composition (mesh_side (shared w))) = true /\ is_Some (ingress (mesh_side (shared w))) /\
    is_some_and (cellular (facts (readiness (shared w)))) cf_admitted = false.
Proof.
  exists (play (demo_setup ++ [Go 5 4; New (CallCellularAdmission (demo_admission false 12)); Go 6 40; Go 5 40; Go 7 40])).
  vm_compute. split_and!; try reflexivity. by eexists.
Qed.
