(* ===== verification/Pools.v ===== *)
(** * Task pools

    What the serving runtimes share: counting over the places a list of tasks is at,
    a task's children being over, and the counters they are checked against. *)

From S2P Require Import Prelude.

(** [fetch_add] and [fetch_sub] on an [AtomicUsize]. *)
Definition atomic_add (n d : Z) : Z := (n + d) mod (usize_max + 1).

Lemma atomic_exact n d : 0 <= n + d <= usize_max -> atomic_add n d = n + d.
Proof. unfold atomic_add. intros. apply Z.mod_small. lia. Qed.

(** ** Sums *)

Section sums.
Context {A : Type} (f : A -> Z).

Fixpoint zsum (l : list A) : Z := match l with [] => 0 | x :: l => f x + zsum l end.

Lemma zsum_app l l' : zsum (l ++ l') = zsum l + zsum l'.
Proof. induction l as [|x l IH]; cbn; lia. Qed.

Lemma zsum_insert l i x y : l !! i = Some x -> zsum (<[i := y]> l) = zsum l - f x + f y.
Proof.
  revert i. induction l as [|z l IH]; intros [|i] H; [done|done|injection H as <-; cbn; lia|].
  change (<[S i := y]> (z :: l)) with (z :: <[i := y]> l). cbn [zsum]. rewrite (IH i H). lia.
Qed.

Lemma zsum_nonneg l : (forall x, 0 <= f x) -> 0 <= zsum l.
Proof. intros Hf. induction l as [|x l IH]; cbn; [lia|]. specialize (Hf x). lia. Qed.

Lemma zsum_lookup l i x : (forall x, 0 <= f x) -> l !! i = Some x -> f x <= zsum l.
Proof.
  intros Hf. revert i. induction l as [|z l IH]; intros [|i] H; cbn in *; [done|done|injection H as <-|].
  - pose proof (zsum_nonneg l Hf). lia.
  - specialize (IH i H). pose proof (Hf z). lia.
Qed.

Lemma zsum_zero l : Forall (fun x => f x = 0) l -> zsum l = 0.
Proof. induction 1 as [|x l Hx _ IH]; cbn; lia. Qed.
End sums.

Lemma zsum_le {A} (f g : A -> Z) l : (forall j x, l !! j = Some x -> f x <= g x) -> zsum f l <= zsum g l.
Proof.
  induction l as [|x l IH]; intros H; cbn; [lia|]. pose proof (H 0%nat x eq_refl). assert (zsum f l <= zsum g l); [|lia].
  apply IH. intros j. apply (H (S j)).
Qed.

Lemma zsum_plus {A} (f g : A -> Z) l : zsum (fun x => f x + g x) l = zsum f l + zsum g l.
Proof. induction l as [|x l IH]; cbn; lia. Qed.

(** ** Children *)

Section children.
Context {A : Type} (over : A -> bool).

(** Every child of task [i] is over. *)
Definition children_over (i : nat) (l : list (nat * A)) : bool := forallb (fun s => (s.1 <>b? i) || over s.2) l.

Lemma children_over_spec i l :
  children_over i l = true <-> forall j pc, l !! j = Some (i, pc) -> over pc = true.
Proof.
  unfold children_over. rewrite forallb_forall. split.
  - intros H j pc Hj. apply list_elem_of_lookup_2, list_elem_of_In, H in Hj. cbn in Hj.
    apply orb_true_iff in Hj as [Hj|Hj]; [|done]. apply negb_true_iff, bool_decide_eq_false in Hj. done.
  - intros H [i' pc] Hin. apply list_elem_of_In, list_elem_of_lookup_1 in Hin as [j Hj]. cbn.
    destruct (decide (i' = i)) as [->|Hne]; [|by rewrite bool_decide_eq_false_2]. rewrite (H j pc Hj). by rewrite orb_true_r.
Qed.

Lemma children_left i l : children_over i l = false -> exists j pc, l !! j = Some (i, pc) /\ over pc = false.
Proof.
  unfold children_over. induction l as [|[i' pc] l IH]; cbn; [done|].
  intros [[Hi Ho]%orb_false_iff|H]%andb_false_iff.
  - apply negb_false_iff, bool_decide_eq_true in Hi as ->. by exists 0%nat, pc.
  - destruct (IH H) as (j & pc' & Hj & Ho). by exists (S j), pc'.
Qed.
End children.

Lemma forallb_lookup {A} (f : A -> bool) l : forallb f l = true <-> forall i x, l !! i = Some x -> f x = true.
Proof. rewrite forallb_Forall. apply Forall_lookup. Qed.
