(* ===== verification/MeshServing.v ===== *)
(** * Mesh serving runtime

    [src/crates/runtime/src/mesh_serving.rs]: the listeners of one mesh ingress
    generation, the sessions they relay to the loopback proxy, and the way down.

    The capacity is the session owner of [Transport], driven by its own events: a
    listener inside [try_admit] is one of the owner's callers.  As in [ProxyServing],
    one event is one access to shared state.  [MeshExecutionOwner::start] is only
    called under the transport coordinator's lock, so that a generation is followed
    from the start that made it; [in_slot] says whether the owner retains it. *)

From S2P Require Import Prelude Net RustStr Pools Transport.

(** ** Tasks *)

Inductive listener_pc :=
| LEnter                                    (* the guard counts the listener *)
| LAck                                      (* acknowledge to [start] *)
| LTop                                      (* look at the stop flag *)
| LTopAccepting                             (* and at the owner *)
| LAccept                                   (* wait for a client *)
| LClient                                   (* the same looks again *)
| LClientAccepting
| LAdmit (caller : nat)                     (* inside [try_admit] *)
| LSpawn                                    (* spawn the session with its lease *)
| LDrain                                    (* abort and join the sessions *)
| LLeave                                    (* the guard is dropped *)
| LEnded.

#[export] Instance listener_pc_eq_dec : EqDecision listener_pc.
Proof. solve_decision. Defined.

Inductive relay_pc :=
| RSpawned                                  (* the lease is captured *)
| RConnect                                  (* current: connect to the backend *)
| RRelay
| RDrop                                     (* the lease is dropped *)
| RDone.

(** [ret] is what [start] answers after a clean stop of its own. *)
Inductive owner_pc :=
| OStore
| OWait
| OHealthy                                  (* retained, and the owner accepting *)
| OLive                                     (* and every listener counted *)
| OTake (ret : option MeshIngressError)
| ORevoke (ret : option MeshIngressError)
| OSend (ret : option MeshIngressError)
| OJoin (ret : option MeshIngressError)
| OPutBack (ret : option MeshIngressError)
| OActive (ret : option MeshIngressError)
| OReturned (r : result MeshIngressError unit) (took : bool).

Record ingress := {
  owner : MeshSessionOwner;
  stop : bool;
  in_slot : bool;
  live_listeners : Z;
  acks : Z;
  receiving : bool;                         (* [start] still has the receiver *)
  listeners : list listener_pc;
  relays : list (nat * relay_pc);           (* with their listener *)
  methods : list owner_pc }.

(** *** Assignments *)

Definition with_owner (w : ingress) (o : MeshSessionOwner) : ingress :=
  {| owner := o; stop := stop w; in_slot := in_slot w; live_listeners := live_listeners w; acks := acks w; receiving := receiving w;
     listeners := listeners w; relays := relays w; methods := methods w |}.

Definition with_flags (w : ingress) (s slot r : bool) : ingress :=
  {| owner := owner w; stop := s; in_slot := slot; live_listeners := live_listeners w; acks := acks w; receiving := r;
     listeners := listeners w; relays := relays w; methods := methods w |}.

Definition with_counts (w : ingress) (live acked : Z) : ingress :=
  {| owner := owner w; stop := stop w; in_slot := in_slot w; live_listeners := live; acks := acked; receiving := receiving w;
     listeners := listeners w; relays := relays w; methods := methods w |}.

Definition with_tasks (w : ingress) (l : list listener_pc) (r : list (nat * relay_pc)) (m : list owner_pc) : ingress :=
  {| owner := owner w; stop := stop w; in_slot := in_slot w; live_listeners := live_listeners w; acks := acks w; receiving := receiving w;
     listeners := l; relays := r; methods := m |}.

(** *** Listeners *)

Inductive accepted := AcceptTimeout | AcceptClient | AcceptInterrupted | AcceptError.

Definition relay_ended (pc : relay_pc) : bool := match pc with RDone => true | _ => false end.

Definition drained (w : ingress) (i : nat) : bool :=
  children_over relay_ended i (relays w).

(** One access of [try_admit], and where the listener goes on. *)
Definition admit_step (w : ingress) (caller : nat) (spurious : bool) : listener_pc * ingress :=
  let o := (session_step (owner w) (Advance caller spurious)).2 in
  (match callers o !! caller with
   | Some (Returned true) => LSpawn
   | Some (Returned false) => LTop
   | _ => LAdmit caller
   end, with_owner w o).

Definition listener_step (w : ingress) (i : nat) (pc : listener_pc) (a : accepted) (spurious : bool) : listener_pc * ingress :=
  match pc with
  | LEnter => (LAck, with_counts w (atomic_add (live_listeners w) 1) (acks w))
  | LAck => if receiving w then (LTop, with_counts w (live_listeners w) (acks w + 1)) else (LLeave, w)
  | LTop => (if stop w then LDrain else LTopAccepting, w)
  | LTopAccepting => (if is_accepting (owner w) then LAccept else LDrain, w)
  | LAccept =>
      (match a with AcceptTimeout | AcceptInterrupted => LTop | AcceptClient => LClient | AcceptError => LDrain end, w)
  | LClient => (if stop w then LDrain else LClientAccepting, w)
  | LClientAccepting =>
      if is_accepting (owner w)
      then (LAdmit (length (callers (owner w))), with_owner w (session_step (owner w) Enter).2)
      else (LDrain, w)
  | LAdmit caller => admit_step w caller spurious
  | LSpawn => (LTop, with_tasks w (listeners w) (relays w ++ [(i, RSpawned)]) (methods w))
  | LDrain => (if drained w i then LLeave else LDrain, w)
  | LLeave => (LEnded, with_counts w (atomic_add (live_listeners w) (-1)) (acks w))
  | LEnded => (LEnded, w)
  end.

(** *** Sessions *)

Inductive relay_move := RelayGoOn | RelayFailed | RelayAborted.

Definition draining (w : ingress) (i : nat) : bool :=
  match listeners w !! i with Some LDrain => true | _ => false end.

Definition relay_step (w : ingress) (i : nat) (pc : relay_pc) (m : relay_move) : relay_pc * ingress :=
  match pc, m with
  | RDrop, _ => (RDone, with_owner w (session_step (owner w) DropLease).2)
  | RDone, _ => (RDone, w)
  | _, RelayAborted => (if draining w i then RDrop else pc, w)
  | RSpawned, _ => (if lease_is_current (owner w) then RConnect else RDrop, w)
  | RConnect, RelayGoOn => (RRelay, w)
  | RConnect, RelayFailed => (RDrop, w)
  | RRelay, _ => (RDrop, w)
  end.

(** *** The owner's methods *)

Definition all_ended (w : ingress) : bool :=
  forallb (fun pc => match pc with LEnded => true | _ => false end) (listeners w).

Definition expected_listeners (w : ingress) : Z := Z.of_nat (length (listeners w)).

(** [start] answers its own error unless the stop it had to make failed. *)
Definition returned (ret : option MeshIngressError) (r : result MeshIngressError unit) : result MeshIngressError unit :=
  match ret, r with Some e, Ok _ => Err e | _, r => r end.

(** The receiver goes when [start] returns. *)
Definition finish (ret : option MeshIngressError) (r : result MeshIngressError unit) (took : bool) (w : ingress) : owner_pc * ingress :=
  (OReturned (returned ret r) took, if is_some ret then with_flags w (stop w) (in_slot w) false else w).

Definition owner_step (w : ingress) (pc : owner_pc) (timed_out : bool) : owner_pc * ingress :=
  match pc with
  | OStore => (OWait, with_flags w (stop w) true (receiving w))
  | OWait =>
      if acks w =? expected_listeners w then (OHealthy, w)
      else if timed_out then (OTake (Some ExecutorUnavailable), w) else (OWait, w)
  | OHealthy =>
      (if in_slot w && is_accepting (owner w) && negb (expected_listeners w =? 0) then OLive else OTake (Some ExecutorUnavailable), w)
  | OLive =>
      if live_listeners w =? expected_listeners w then (OReturned (Ok tt) false, with_flags w (stop w) (in_slot w) false)
      else (OTake (Some ExecutorUnavailable), w)
  | OTake ret =>
      if in_slot w then (ORevoke ret, with_flags w (stop w) false (receiving w)) else finish ret (Ok tt) false w
  | ORevoke ret => (OSend ret, with_owner w (session_step (owner w) Revoke).2)
  | OSend ret => (OJoin ret, with_flags w true (in_slot w) (receiving w))
  | OJoin ret =>
      if all_ended w then (OActive ret, w) else if timed_out then (OPutBack ret, w) else (OJoin ret, w)
  | OPutBack ret => finish ret (Err ShutdownTimedOut) true (with_flags w (stop w) true (receiving w))
  | OActive ret => finish ret (if active_sessions (owner w) =? 0 then Ok tt else Err ShutdownTimedOut) true w
  | OReturned _ _ => (pc, w)
  end.

(** *** Events *)

Inductive ingress_event :=
| EListener (i : nat) (a : accepted) (spurious : bool)
| ERelay (j : nat) (m : relay_move)
| EMethod (k : nat) (timed_out : bool)
| EStop.

Definition step (w : ingress) (e : ingress_event) : ingress :=
  match e with
  | EListener i a spurious =>
      match listeners w !! i with
      | None => w
      | Some pc =>
          let '(pc', w') := listener_step w i pc a spurious in
          with_tasks w' (<[i := pc']> (listeners w')) (relays w') (methods w')
      end
  | ERelay j m =>
      match relays w !! j with
      | None => w
      | Some (i, pc) =>
          let '(pc', w') := relay_step w i pc m in
          with_tasks w' (listeners w') (<[j := (i, pc')]> (relays w')) (methods w')
      end
  | EMethod k timed_out =>
      match methods w !! k with
      | None => w
      | Some pc =>
          let '(pc', w') := owner_step w pc timed_out in
          with_tasks w' (listeners w') (relays w') (<[k := pc']> (methods w'))
      end
  | EStop => with_tasks w (listeners w) (relays w) (methods w ++ [OTake None])
  end.

Definition run (w : ingress) (es : list ingress_event) : ingress := fold_left step es w.

(** ** Start *)

Definition invalid_endpoint (endpoint : Ipv4Addr) : bool :=
  ipv4_is_unspecified endpoint || ipv4_is_multicast endpoint || (endpoint =? ipv4_broadcast).

Definition invalid_mappings (ms : list MeshPortForward) : bool :=
  bool_decide (ms = []) || existsb (fun m => (ingress_port m =? 0) || (backend_port m =? 0)) ms.

(** What the platform does with a listener. *)
Inductive bound := BoundFailed | BoundBlocking | BoundReady.

Fixpoint bind_all (ms : list MeshPortForward) (binds : MeshPortForward -> bound) : result MeshIngressError unit :=
  match ms with
  | [] => Ok tt
  | m :: ms =>
      match binds m with
      | BoundFailed => Err BindFailed
      | BoundBlocking => Err ListenerConfigurationFailed
      | BoundReady => bind_all ms binds
      end
  end.

(** The generation [start] goes on with, as far as its listeners are spawned. *)
Definition start (endpoint : Ipv4Addr) (ms : list MeshPortForward) (taken : bool) (binds : MeshPortForward -> bound)
    (converts : MeshPortForward -> bool) (sessions : MeshSessionOwner) : result MeshIngressError ingress :=
  if invalid_endpoint endpoint then Err InvalidEndpoint
  else if invalid_mappings ms then Err InvalidPortMapping
  else if taken then Err ExecutorUnavailable
  else
    let? _ := bind_all ms binds in
    if negb (forallb converts ms) then Err ListenerConfigurationFailed
    else Ok {| owner := sessions; stop := false; in_slot := false; live_listeners := 0; acks := 0; receiving := true;
               listeners := (fun _ => LEnter) <$> ms; relays := []; methods := [OStore] |}.

(** ** Invariant *)

Definition listener_lease (pc : listener_pc) : Z := match pc with LSpawn => 1 | _ => 0 end.
Definition listener_live (pc : listener_pc) : Z := match pc with LEnter | LEnded => 0 | _ => 1 end.
Definition relay_lease (s : nat * relay_pc) : Z := match s.2 with RDone => 0 | _ => 1 end.

(** It has no session. *)
Definition quiet (pc : listener_pc) : bool := match pc with LEnter | LAck | LLeave | LEnded => true | _ => false end.

Definition joined (pc : owner_pc) : bool := match pc with OActive _ | OReturned (Ok _) true => true | _ => false end.
Definition revoking (pc : owner_pc) : bool :=
  match pc with OSend _ | OJoin _ | OPutBack _ | OActive _ | OReturned _ true => true | _ => false end.

Definition pending (o : MeshSessionOwner) (c : nat) : Prop := exists pc, callers o !! c = Some pc /\ forall b, pc <> Returned b.

Record ingress_ok (w : ingress) : Prop := {
  io_owner : sessions_ok (owner w);
  io_leases : leases (owner w) = zsum listener_lease (listeners w) + zsum relay_lease (relays w);
  io_live : live_listeners w = zsum listener_live (listeners w);
  io_few : Z.of_nat (length (listeners w)) <= usize_max;
  io_parent j i pc : relays w !! j = Some (i, pc) -> (i < length (listeners w))%nat;
  io_admit i c : listeners w !! i = Some (LAdmit c) -> pending (owner w) c;
  io_distinct i j c : listeners w !! i = Some (LAdmit c) -> listeners w !! j = Some (LAdmit c) -> i = j;
  io_callers c : pending (owner w) c -> exists i, listeners w !! i = Some (LAdmit c);
  io_quiet i pc : listeners w !! i = Some pc -> quiet pc = true -> drained w i = true;
  io_joined k pc : methods w !! k = Some pc -> joined pc = true -> all_ended w = true;
  io_revoked k pc : methods w !! k = Some pc -> revoking pc = true -> accepting (owner w) = false }.

Lemma lease_nonneg_l pc : 0 <= listener_lease pc. Proof. by destruct pc. Qed.
Lemma lease_nonneg_r s : 0 <= relay_lease s. Proof. by destruct s as [? []]. Qed.
Lemma live_range pc : 0 <= listener_live pc <= 1. Proof. destruct pc; cbn; lia. Qed.

Lemma mesh_live_le_length l : 0 <= zsum listener_live l <= Z.of_nat (length l).
Proof. induction l as [|pc l IH]; cbn [zsum length]; [lia|]. pose proof (live_range pc). lia. Qed.

Lemma mesh_ended_lookup w i pc : listeners w !! i = Some pc -> all_ended w = true -> pc = LEnded.
Proof. unfold all_ended. rewrite forallb_lookup. intros Hi H. specialize (H i pc Hi). by destruct pc. Qed.

Lemma mesh_drained_spec w i : drained w i = true <-> forall j pc, relays w !! j = Some (i, pc) -> relay_ended pc = true.
Proof. apply children_over_spec. Qed.

(** *** The session owner *)

Lemma session_step_accepting o e : accepting o = false -> accepting (session_step o e).2 = false.
Proof. intros H. by apply (accepting_antitone o [e]). Qed.

Lemma dropped_callers o : callers (session_step o DropLease).2 = callers o.
Proof. cbn. unfold lease_drop. by case_match. Qed.

(** An access of [try_admit] changes its own caller, and hands out a lease exactly
    when it returns one. *)
Lemma advance_effect o c spurious :
  pending o c ->
  let o' := (session_step o (Advance c spurious)).2 in
  (forall c', c' <> c -> callers o' !! c' = callers o !! c') /\
  match callers o' !! c with
  | Some (Returned true) => leases o' = leases o + 1
  | Some _ => leases o' = leases o
  | None => False
  end.
Proof.
  intros (pc & Hc & Hr). cbn. rewrite Hc. pose proof (lookup_lt_Some _ _ _ Hc) as Hlt.
  assert (callers (try_admit_step o pc spurious).2 = callers o) as Hcs by (destruct pc; cbn; repeat case_match; done).
  assert (match (try_admit_step o pc spurious).1 with
          | Returned true => leases (try_admit_step o pc spurious).2 = leases o + 1
          | _ => leases (try_admit_step o pc spurious).2 = leases o
          end) as Hl.
  { destruct pc as [| |cur| | | |b]; cbn; repeat case_match; simplify_eq/=; try done. by destruct (Hr true). }
  destruct (try_admit_step o pc spurious) as [pc' o']. cbn in *. rewrite Hcs. split.
  - intros c' Hne. by rewrite list_lookup_insert_ne.
  - rewrite list_lookup_insert_eq by done. by destruct pc' as [| | | | | |[]].
Qed.

(** *** Listeners *)

(** The callers of the owner after a listener's move. *)
Definition calls_on (pc pc' : listener_pc) (o o' : MeshSessionOwner) : Prop :=
  (forall c, pending o' c <-> (pending o c /\ pc <> LAdmit c) \/ pc' = LAdmit c) /\
  (forall c, pc' = LAdmit c -> pc = LAdmit c \/ ~ pending o c).

Lemma calls_apart pc pc' o : (forall c, pc <> LAdmit c) -> (forall c, pc' <> LAdmit c) -> calls_on pc pc' o o.
Proof. intros H1 H2. split; [|intros c E; by apply H2 in E]. intros c. specialize (H1 c). specialize (H2 c). tauto. Qed.

Lemma calls_enter pc o :
  (forall c, pc <> LAdmit c) -> calls_on pc (LAdmit (length (callers o))) o (session_step o Enter).2.
Proof.
  intros Hpc. assert (~ pending o (length (callers o))) as Hnew.
  { intros (p & Hp & _). by apply lookup_lt_Some, Nat.lt_irrefl in Hp. }
  split; [|intros c [= <-]; by right]. intros c. unfold pending. cbn. split.
  - intros (p & [Hp|[Hle Hp]]%lookup_app_Some & Hr); [left; split; [by exists p|done]|right].
    apply lookup_lt_Some in Hp. cbn in Hp. f_equal. lia.
  - intros [[(p & Hp & Hr) _]|[= <-]]; [exists p; split; [by apply lookup_app_l_Some|done]|].
    exists FirstCheck. split; [|done]. by rewrite lookup_app_r, Nat.sub_diag.
Qed.

Lemma calls_advance c o spurious pc' :
  pending o c -> let o' := (session_step o (Advance c spurious)).2 in
  pc' = match callers o' !! c with Some (Returned true) => LSpawn | Some (Returned false) => LTop | _ => LAdmit c end ->
  calls_on (LAdmit c) pc' o o'.
Proof.
  intros Hp o' ->. destruct (advance_effect o c spurious Hp) as [Hother Hself]. fold o' in Hother, Hself.
  assert (forall c', c' <> c -> pending o' c' <-> pending o c') as Hne by (intros c' Hc; unfold pending; by rewrite Hother).
  split.
  - intros c'. destruct (decide (c' = c)) as [->|Hc]; [|rewrite Hne by done].
    + unfold pending. destruct (callers o' !! c) as [[| | | | | |[]]|]; try done; split; try naive_solver; intros _; eexists; naive_solver.
    + destruct (callers o' !! c) as [[| | | | | |[]]|]; naive_solver.
  - intros c'. destruct (callers o' !! c) as [[| | | | | |[]]|]; try done; intros [= <-]; by left.
Qed.

Lemma listener_moved_ok w i pc pc' w' new :
  ingress_ok w -> listeners w !! i = Some pc ->
  listeners w' = listeners w -> relays w' = relays w ++ new -> methods w' = methods w ->
  sessions_ok (owner w') -> calls_on pc pc' (owner w) (owner w') -> (accepting (owner w) = false -> accepting (owner w') = false) ->
  leases (owner w') = leases (owner w) - listener_lease pc + listener_lease pc' + zsum relay_lease new ->
  live_listeners w' = live_listeners w - listener_live pc + listener_live pc' ->
  (quiet pc' = true -> quiet pc = true \/ drained w i = true) -> (pc = LEnded -> pc' = LEnded) ->
  new = [] \/ new = [(i, RSpawned)] /\ quiet pc' = false ->
  ingress_ok (with_tasks w' (<[i := pc']> (listeners w')) (relays w') (methods w')).
Proof.
  intros [H1 H2 H3 H4 H5 H6 H7 H8 H9 H10 H11] Hi E1 E2 E3 Ho [Hc1 Hc2] Hacc El Elv Hq He Hnew.
  pose proof (lookup_lt_Some _ _ _ Hi) as Hlt.
  assert (forall j i' p, (relays w ++ new) !! j = Some (i', p) -> relays w !! j = Some (i', p) \/ i' = i /\ quiet pc' = false) as Hin.
  { intros j i' p [Hj|[_ Hj]]%lookup_app_Some; [by left|right]. destruct Hnew as [->|[-> Hq']]; [done|].
    apply list_elem_of_lookup_2, list_elem_of_singleton in Hj as [= -> ->]. done. }
  split; cbn -[drained all_ended]; rewrite ?E1, ?E2, ?E3; rewrite ?length_insert; try done.
  - rewrite (zsum_insert _ _ _ _ _ Hi), zsum_app. lia.
  - rewrite (zsum_insert _ _ _ _ _ Hi). lia.
  - intros j i' p [Hj|[-> _]]%Hin; [by eapply H5|done].
  - intros i' c [(<- & -> & _)|[Hne Hi']]%list_lookup_insert_Some; [apply Hc1; by right|].
    apply Hc1. left. split; [by eapply H6|]. intros ->. by destruct (Hne (H7 _ _ _ Hi Hi')).
  - intros i1 i2 c [(<- & -> & _)|[Hn1 Hi1]]%list_lookup_insert_Some [(<- & E & _)|[Hn2 Hi2]]%list_lookup_insert_Some; try done.
    + destruct (Hc2 c eq_refl) as [->|Hp]; [by eapply H7|by destruct (Hp (H6 _ _ Hi2))].
    + subst pc'. destruct (Hc2 c eq_refl) as [->|Hp]; [by eapply H7|by destruct (Hp (H6 _ _ Hi1))].
    + by eapply H7.
  - intros c [[Hp Hne]| ->]%Hc1; [|exists i; by apply list_lookup_insert_eq]. destruct (H8 c Hp) as [i' Hi']. exists i'.
    rewrite list_lookup_insert_ne; [done|]. intros <-. rewrite Hi in Hi'. by injection Hi'.
  - intros i' p Hi' Hqp. apply mesh_drained_spec. cbn -[drained]. rewrite ?E2. intros j rp Hj.
    apply list_lookup_insert_Some in Hi' as [(<- & <- & _)|[Hne Hi']]; destruct (Hin _ _ _ Hj) as [Hj'|[Ei Hnq]];
      [|congruence|by eapply (proj1 (mesh_drained_spec _ _) (H9 _ _ Hi' Hqp))|done].
    destruct (Hq Hqp) as [Hold|Hold]; [apply (H9 _ _ Hi) in Hold|]; by apply (proj1 (mesh_drained_spec _ _) Hold j).
  - intros k p Hk Hj. pose proof (H10 k p Hk Hj) as Hall. pose proof (mesh_ended_lookup _ _ _ Hi Hall) as ->.
    unfold all_ended. cbn. rewrite He by done. by rewrite list_insert_id.
  - intros k p Hk Hr. by eapply Hacc, H11.
Qed.

Lemma admit_step_ok w i c spurious :
  ingress_ok w -> listeners w !! i = Some (LAdmit c) ->
  let '(pc', w') := admit_step w c spurious in
  ingress_ok (with_tasks w' (<[i := pc']> (listeners w')) (relays w') (methods w')).
Proof.
  intros Hw Hi. pose proof (io_admit w Hw i c Hi) as Hp. destruct (advance_effect _ _ spurious Hp) as [_ Hself].
  pose proof (io_owner w Hw) as Ho. unfold admit_step. cbn zeta.
  eapply (listener_moved_ok _ _ _ _ _ [] Hw Hi); cbn -[drained session_step]; rewrite ?app_nil_r; try done; auto with mish.
  - by apply calls_advance.
  - apply session_step_accepting.
  - destruct (callers _ !! c) as [[| | | | | |[]]|]; cbn -[session_step] in *; done || lia.
  - destruct (callers _ !! c) as [[| | | | | |[]]|]; cbn in *; done || lia.
  - destruct (callers _ !! c) as [[| | | | | |[]]|]; done.
Qed.

Lemma listener_event_ok w i a spurious : ingress_ok w -> ingress_ok (step w (EListener i a spurious)).
Proof.
  intros Hw. pose proof (io_live w Hw) as Hlive. pose proof (io_few w Hw) as Hfew. pose proof (mesh_live_le_length (listeners w)) as Hll.
  pose proof (io_owner w Hw) as Ho. cbn [step]. destruct (listeners w !! i) as [pc|] eqn:Hi; [|done].
  pose proof (zsum_lookup _ _ _ _ (fun x => proj1 (live_range x)) Hi) as Hl.
  assert (zsum listener_live (listeners w) - listener_live pc + 1 <= Z.of_nat (length (listeners w))) as Hroom.
  { pose proof (mesh_live_le_length (<[i := LTop]> (listeners w))) as Hr. rewrite (zsum_insert _ _ _ _ _ Hi), length_insert in Hr. cbn in Hr. lia. }
  destruct pc as [| | | | | | |c| | | |]; cbn [listener_step]; [..|by apply admit_step_ok| | | |].
  all: repeat case_match; simplify_eq; cbn [fst snd].
  all: try (eapply (listener_moved_ok _ _ _ _ _ [] Hw Hi); cbn -[drained session_step] in *; rewrite ?app_nil_r; try done; try lia;
            try (by apply calls_apart); try (rewrite atomic_exact; lia); auto with mish; done).
  - eapply (listener_moved_ok _ _ _ _ _ [] Hw Hi); cbn -[drained session_step]; rewrite ?app_nil_r; try done; auto with mish;
      try (by apply calls_enter); cbn; lia.
  - eapply (listener_moved_ok _ _ _ _ _ [(i, RSpawned)] Hw Hi); cbn -[drained]; try done; try lia; [by apply calls_apart|by right].
Qed.

(** *** Sessions and methods *)

Lemma relay_moved_ok w j i pc pc' w' :
  ingress_ok w -> relays w !! j = Some (i, pc) ->
  listeners w' = listeners w -> relays w' = relays w -> methods w' = methods w -> live_listeners w' = live_listeners w ->
  sessions_ok (owner w') -> callers (owner w') = callers (owner w) -> accepting (owner w') = accepting (owner w) ->
  leases (owner w') = leases (owner w) - relay_lease (i, pc) + relay_lease (i, pc') ->
  (relay_ended pc = true -> relay_ended pc' = true) ->
  ingress_ok (with_tasks w' (listeners w') (<[j := (i, pc')]> (relays w')) (methods w')).
Proof.
  intros [H1 H2 H3 H4 H5 H6 H7 H8 H9 H10 H11] Hj E1 E2 E3 E4 Ho Ec Ea El Hd.
  split; unfold pending in *; cbn -[drained all_ended]; rewrite ?E1, ?E2, ?E3, ?E4, ?Ec, ?Ea; try done.
  - rewrite (zsum_insert _ _ _ _ _ Hj). lia.
  - intros j' i' p [(<- & [= <- <-] & _)|[_ Hj']]%list_lookup_insert_Some; by eapply H5.
  - intros i' p Hi Hq. apply mesh_drained_spec. cbn -[drained]. pose proof (proj1 (mesh_drained_spec _ _) (H9 i' p Hi Hq)) as Hall.
    intros j' p' [(<- & [= <- <-] & _)|[_ Hj']]%list_lookup_insert_Some; [by apply Hd, (Hall j)|by apply (Hall j')].
Qed.

Lemma relay_event_ok w j m : ingress_ok w -> ingress_ok (step w (ERelay j m)).
Proof.
  intros Hw. pose proof (io_owner w Hw) as Ho. cbn [step]. destruct (relays w !! j) as [[i pc]|] eqn:Hj; [|done].
  assert (0 < relay_lease (i, pc) -> 0 < leases (owner w)) as Hpos.
  { rewrite (io_leases w Hw). pose proof (zsum_nonneg _ (listeners w) lease_nonneg_l).
    pose proof (zsum_lookup _ _ _ _ lease_nonneg_r Hj). lia. }
  destruct pc, m; cbn [relay_step]; repeat case_match; eapply (relay_moved_ok _ _ _ _ _ _ Hw Hj);
    cbn -[session_step] in *; try done; try lia; auto with mish.
  all: cbn; unfold lease_drop; rewrite (proj2 (Z.ltb_lt _ _)) by lia; cbn; done || lia.
Qed.

Lemma mesh_method_moved_ok w k pc pc' w' :
  ingress_ok w -> methods w !! k = Some pc ->
  listeners w' = listeners w -> relays w' = relays w -> methods w' = methods w -> live_listeners w' = live_listeners w ->
  sessions_ok (owner w') -> callers (owner w') = callers (owner w) -> leases (owner w') = leases (owner w) ->
  (accepting (owner w) = false -> accepting (owner w') = false) ->
  (joined pc' = true -> joined pc = true \/ all_ended w = true) ->
  (revoking pc' = true -> revoking pc = true \/ accepting (owner w') = false) ->
  ingress_ok (with_tasks w' (listeners w') (relays w') (<[k := pc']> (methods w'))).
Proof.
  intros [H1 H2 H3 H4 H5 H6 H7 H8 H9 H10 H11] Hk E1 E2 E3 E4 Ho Ec El Ha Hj Hr.
  split; unfold pending, drained, all_ended in *; cbn; rewrite ?E1, ?E2, ?E3, ?E4, ?Ec, ?El; try done.
  - intros k' p [(<- & <- & _)|[_ Hk']]%list_lookup_insert_Some Hp; [|by eapply H10].
    destruct (Hj Hp) as [Hold|]; [by eapply H10|done].
  - intros k' p [(<- & <- & _)|[_ Hk']]%list_lookup_insert_Some Hp; [|by eapply Ha, H11].
    destruct (Hr Hp) as [Hold|]; [by eapply Ha, H11|done].
Qed.

Lemma mesh_method_event_ok w k timed_out : ingress_ok w -> ingress_ok (step w (EMethod k timed_out)).
Proof.
  intros Hw. pose proof (io_owner w Hw) as Ho. cbn [step]. destruct (methods w !! k) as [pc|] eqn:Hk; [|done].
  destruct pc; cbn [owner_step]; unfold finish; repeat case_match; simplify_eq; cbn [fst snd];
    eapply (mesh_method_moved_ok _ _ _ _ _ Hw Hk); cbn -[all_ended session_step]; try done; auto with mish;
    unfold returned; repeat case_match; cbn; auto; done.
Qed.

Lemma mesh_step_ok w e : ingress_ok w -> ingress_ok (step w e).
Proof.
  intros Hw. destruct e as [i a sp|j m|k t|].
  - by apply listener_event_ok.
  - by apply relay_event_ok.
  - by apply mesh_method_event_ok.
  - destruct Hw as [H1 H2 H3 H4 H5 H6 H7 H8 H9 H10 H11]. split; try done; cbn [step with_tasks methods].
    + intros k p [Hk|[_ Hk]]%lookup_app_Some Hp; [by eapply H10|].
      apply list_elem_of_lookup_2, list_elem_of_singleton in Hk as ->. done.
    + intros k p [Hk|[_ Hk]]%lookup_app_Some Hp; [by eapply H11|].
      apply list_elem_of_lookup_2, list_elem_of_singleton in Hk as ->. done.
Qed.

Lemma mesh_run_ok w es : ingress_ok w -> ingress_ok (run w es).
Proof. revert w. induction es as [|e es IH]; intros w Hw; [done|]. by apply IH, mesh_step_ok. Qed.

Lemma start_fresh endpoint ms taken binds converts sessions w :
  start endpoint ms taken binds converts sessions = Ok w ->
  w = {| owner := sessions; stop := false; in_slot := false; live_listeners := 0; acks := 0; receiving := true;
         listeners := (fun _ => LEnter) <$> ms; relays := []; methods := [OStore] |}.
Proof.
  unfold start. destruct (invalid_endpoint endpoint); [done|]. destruct (invalid_mappings ms); [done|]. destruct taken; [done|].
  destruct (bind_all ms binds); [|done]. cbn. destruct (negb _); [done|]. by intros [= <-].
Qed.

Lemma mesh_start_ok endpoint ms taken binds converts w :
  start endpoint ms taken binds converts product_generation = Ok w -> Z.of_nat (length ms) <= usize_max -> ingress_ok w.
Proof.
  intros ->%start_fresh Hlen.
  assert (forall i pc, ((fun _ => LEnter) <$> ms) !! i = Some pc -> pc = LEnter) as Hl.
  { intros i pc. rewrite list_lookup_fmap. destruct (ms !! i); [by intros [= <-]|done]. }
  assert (forall f : listener_pc -> Z, f LEnter = 0 -> zsum f ((fun _ => LEnter) <$> ms) = 0) as Hz.
  { intros f Hf. apply zsum_zero, Forall_lookup. intros i pc Hi. by rewrite (Hl i pc Hi). }
  split; cbn -[drained all_ended]; try done; rewrite ?length_fmap, ?Hz by done; try done.
  - intros i c Hi. by apply Hl in Hi.
  - intros i j c Hi. by apply Hl in Hi.
  - by intros c (p & Hp & _).
  - intros [|k] p; [intros [= <-]|]; done.
  - intros [|k] p; [intros [= <-]|]; done.
Qed.

(** ** Theorems *)

Definition live_relays (w : ingress) : list (nat * relay_pc) := List.filter (fun s => negb (relay_ended s.2)) (relays w).

Lemma live_relays_leases w : Z.of_nat (length (live_relays w)) = zsum relay_lease (relays w).
Proof.
  unfold live_relays. induction (relays w) as [|[i pc] l IH]; [done|].
  destruct pc; cbn [List.filter relay_ended negb snd length zsum]; unfold relay_lease at 1; cbn [snd]; lia.
Qed.

(** What a generation whose listeners are over has left. *)
Lemma ended_at_rest w : ingress_ok w -> all_ended w = true -> live_relays w = [] /\ active (owner w) = 0.
Proof.
  intros Hw He. assert (forall i pc, listeners w !! i = Some pc -> pc = LEnded) as Hl.
  { intros i pc Hi. by apply (mesh_ended_lookup w i). }
  assert (zsum relay_lease (relays w) = 0) as Hr.
  { apply zsum_zero, Forall_lookup. intros j [i pc] Hj. destruct (lookup_lt_is_Some_2 _ _ (io_parent w Hw _ _ _ Hj)) as [p Hi].
    pose proof (Hl i p Hi) as ->. pose proof (proj1 (mesh_drained_spec w i) (io_quiet w Hw i _ Hi eq_refl) j pc Hj). by destruct pc. }
  assert (zsum listener_lease (listeners w) = 0) as Hz.
  { apply zsum_zero, Forall_lookup. intros i pc Hi. by rewrite (Hl i pc Hi). }
  assert (slots (callers (owner w)) = 0) as Hs.
  { assert (forall l, (forall c pc, l !! c = Some pc -> exists b, pc = Returned b) -> slots l = 0) as Hall.
    { induction l as [|pc l IH]; intros H; [done|]. destruct (H 0%nat pc eq_refl) as [b ->]. cbn. apply IH. intros c. apply (H (S c)). }
    apply Hall. intros c pc Hc. destruct pc as [| | | | | |b]; [..|by exists b];
      (destruct (io_callers w Hw c) as [i Hi]; [by eexists; split; [exact Hc|]|by apply Hl in Hi]). }
  split; [apply nil_length_inv; pose proof (live_relays_leases w); lia|].
  rewrite (sn_count _ (io_owner w Hw)), (io_leases w Hw). lia.
Qed.

(** However listeners, sessions, starts and stops interleave: every session that has
    not ended holds a lease of its own, so that no more than 512 run at once; the
    owner's count is exactly the leases out and the admissions under way; and the
    count of live listeners is exact. *)
Theorem mesh_sessions_leased endpoint ms taken binds converts w es :
  start endpoint ms taken binds converts product_generation = Ok w -> Z.of_nat (length ms) <= usize_max ->
  let w' := run w es in
  Z.of_nat (length (live_relays w')) <= leases (owner w') /\ active (owner w') = leases (owner w') + slots (callers (owner w')) /\
  active (owner w') <= MAX_MESH_SESSIONS /\ Z.of_nat (length (live_relays w')) <= MAX_MESH_SESSIONS /\
  live_listeners w' = zsum listener_live (listeners w').
Proof.
  intros Hs Hlen w'. assert (ingress_ok w') as Hw by (by eapply mesh_run_ok, mesh_start_ok). rewrite live_relays_leases.
  pose proof (io_leases w' Hw). pose proof (zsum_nonneg _ (listeners w') lease_nonneg_l). pose proof (slots_nonneg (callers (owner w'))).
  destruct (io_owner w' Hw) as [Hc Hl Hb _]. repeat split; try lia. apply (io_live w' Hw).
Qed.

(** C34: A stop that joins the listeners finds nothing left: when it comes to look at the
    count of active sessions, the count is zero, so that it fails only when the join
    itself ran out of time. *)
Theorem mesh_stop_fails_only_on_timeout endpoint ms taken binds converts w es k ret timed_out :
  start endpoint ms taken binds converts product_generation = Ok w -> Z.of_nat (length ms) <= usize_max ->
  methods (run w es) !! k = Some (OActive ret) ->
  methods (step (run w es) (EMethod k timed_out)) !! k = Some (OReturned (returned ret (Ok tt)) true) /\
  live_relays (run w es) = [] /\ accepting (owner (run w es)) = false.
Proof.
  intros Hs Hlen Hk. assert (ingress_ok (run w es)) as Hw by (by eapply mesh_run_ok, mesh_start_ok).
  destruct (ended_at_rest _ Hw (io_joined _ Hw k _ Hk eq_refl)) as [Hr Ha]. split_and!; [|done|by eapply io_revoked].
  cbn [step]. rewrite Hk. cbn [owner_step finish]. unfold active_sessions. rewrite Ha. cbn.
  destruct ret; cbn; apply list_lookup_insert_eq; by eapply lookup_lt_Some.
Qed.

(** No session begins to connect to the proxy once the owner is revoked: afterwards a
    session that connects or relays is one that already did. *)
Theorem mesh_revocation_fences w es j i pc :
  accepting (owner w) = false -> relays (run w es) !! j = Some (i, pc) -> pc = RConnect \/ pc = RRelay ->
  relays w !! j = Some (i, RConnect) \/ relays w !! j = Some (i, RRelay).
Proof.
  revert w. induction es as [|e es IH]; intros w Ha Hj Hpc; [cbn in Hj; destruct Hpc as [-> | ->]; auto|].
  assert (accepting (owner (step w e)) = false) as Ha'.
  { destruct e as [i' a sp|j' m|k t|]; cbn [step]; try done.
    - destruct (listeners w !! i') as [p|]; [|done]. destruct p; cbn -[session_step]; repeat case_match; simplify_eq/=; try done.
      all: by apply (session_step_accepting _ (Advance _ _)).
    - destruct (relays w !! j') as [[i0 p]|]; [|done]. destruct p, m; cbn; unfold lease_drop; repeat case_match; done.
    - destruct (methods w !! k) as [p|]; [|done]. destruct p; cbn; unfold finish; repeat case_match; simplify_eq/=; done. }
  specialize (IH _ Ha' Hj Hpc). clear Hj Hpc Ha'. revert IH. destruct e as [i' a sp|j' m|k t|]; cbn [step]; try done.
  - destruct (listeners w !! i') as [p|]; [|done].
    assert (relays (listener_step w i' p a sp).2 = relays w \/ relays (listener_step w i' p a sp).2 = relays w ++ [(i', RSpawned)]) as Hr.
    { destruct p; cbn; repeat case_match; auto. }
    destruct (listener_step w i' p a sp) as [p' w']. cbn in *. destruct Hr as [-> | ->]; [done|].
    intros [[Hj|[_ Hj]]%lookup_app_Some|[Hj|[_ Hj]]%lookup_app_Some]; auto;
      apply list_elem_of_lookup_2, list_elem_of_singleton in Hj; done.
  - destruct (relays w !! j') as [[i0 p]|] eqn:Hj'; [|done]. unfold lease_is_current, is_accepting.
    destruct p, m; cbn; unfold lease_is_current, is_accepting; rewrite ?Ha; repeat case_match; cbn;
      rewrite !list_lookup_insert_Some; naive_solver.
  - destruct (methods w !! k) as [p|]; [|done]. destruct p; cbn; unfold finish; repeat case_match; simplify_eq/=; done.
Qed.

(** ** A stop can always finish *)

(** How far an admission is from its answer when nobody interferes. *)
Definition admit_rank (o : MeshSessionOwner) (pc : option admit_pc) : Z :=
  match pc with
  | Some FirstCheck => 7
  | Some LoadActive => 6
  | Some (Loop current) => if (MAX_MESH_SESSIONS <=? current) || (active o =? current) then 4 else 5
  | Some SecondCheck => 2
  | _ => 1
  end.

(** How far a listener is from its end once the stop flag is up. *)
Definition listener_rank (o : MeshSessionOwner) (pc : listener_pc) : Z :=
  match pc with
  | LEnded => 0
  | LLeave => 1
  | LDrain => 2
  | LTop | LClient => 3
  | LAccept | LAck => 4
  | LTopAccepting | LEnter => 5
  | LSpawn => 6
  | LAdmit c => 6 + admit_rank o (callers o !! c)
  | LClientAccepting => 14
  end.

Definition relay_rank (i : nat) (s : nat * relay_pc) : Z :=
  if s.1 =b? i then match s.2 with RDone => 0 | RDrop => 1 | _ => 2 end else 0.

Definition rank (w : ingress) (i : nat) : Z :=
  match listeners w !! i with
  | Some LEnded => 0
  | Some pc => listener_rank (owner w) pc + zsum (relay_rank i) (relays w)
  | None => 0
  end.

Lemma relay_rank_nonneg i s : 0 <= relay_rank i s.
Proof. unfold relay_rank. case_bool_decide; [|done]. by destruct (s.2). Qed.

Lemma admit_rank_pos o pc : 1 <= admit_rank o pc.
Proof. unfold admit_rank. repeat case_match; lia. Qed.

Lemma listener_rank_pos o pc : pc <> LEnded -> 0 < listener_rank o pc.
Proof. destruct pc; cbn; try done; try lia. intros _. pose proof (admit_rank_pos o (callers o !! caller)). lia. Qed.

(** Only this listener and its sessions move. *)
Definition moved (w w' : ingress) (i : nat) : Prop :=
  stop w' = stop w /\ methods w' = methods w /\ length (listeners w') = length (listeners w) /\
  forall i', i' <> i -> listeners w' !! i' = listeners w !! i'.

(** An admission goes on: the listener's next access brings it nearer. *)
Lemma admit_nearer w c :
  pending (owner w) c -> listener_rank (owner (admit_step w c false).2) (admit_step w c false).1 < listener_rank (owner w) (LAdmit c).
Proof.
  intros (pc & Hc & Hr). unfold admit_step. cbn. rewrite Hc. pose proof (lookup_lt_Some _ _ _ Hc) as Hlt.
  assert (callers (try_admit_step (owner w) pc false).2 = callers (owner w)) as Hcs by (destruct pc; cbn; repeat case_match; done).
  assert (match (try_admit_step (owner w) pc false).1 with
          | Returned b => True
          | pc' => admit_rank (try_admit_step (owner w) pc false).2 (Some pc') < admit_rank (owner w) (Some pc)
          end) as Hrank.
  { destruct pc as [| |cur| | | |b]; [..|by destruct (Hr b)]; cbn; repeat case_match; cbn in *; simplify_eq/=;
      repeat match goal with H : context [?a =? ?b] |- _ => destruct (Z.eqb_spec a b) end; cbn in *; try done; try lia. }
  destruct (try_admit_step (owner w) pc false) as [pc' o']. cbn in *. rewrite Hcs, list_lookup_insert_eq by done.
  pose proof (admit_rank_pos (owner w) (Some pc)).
  destruct pc' as [| | | | | |[]]; cbn in *; rewrite ?Hcs, ?list_lookup_insert_eq by done; cbn in *; lia.
Qed.

(** A listener's step brings it nearer its end, unless it waits for a session. *)
Lemma listener_nearer w i pc :
  ingress_ok w -> stop w = true -> listeners w !! i = Some pc -> pc <> LEnded -> (pc = LDrain -> drained w i = true) ->
  rank (step w (EListener i AcceptTimeout false)) i < rank w i /\ moved w (step w (EListener i AcceptTimeout false)) i.
Proof.
  intros Hw Hst Hi Hne Hdr. pose proof (lookup_lt_Some _ _ _ Hi) as Hlt.
  pose proof (zsum_nonneg _ (relays w) (relay_rank_nonneg i)) as Hsum.
  assert (forall pc' w', listeners w' = listeners w -> stop w' = stop w -> methods w' = methods w ->
    listener_rank (owner w') pc' + zsum (relay_rank i) (relays w') < listener_rank (owner w) pc + zsum (relay_rank i) (relays w) ->
    let w'' := with_tasks w' (<[i := pc']> (listeners w')) (relays w') (methods w') in
    rank w'' i < rank w i /\ moved w w'' i) as Hstep.
  { intros pc' w' E1 E2 E3 Hr. cbn zeta. split.
    - unfold rank. cbn. rewrite E1, list_lookup_insert_eq, Hi by done. pose proof (listener_rank_pos (owner w) pc Hne).
      destruct pc', pc; cbn in *; try done; lia.
    - repeat split; cbn; rewrite ?E1; [done..|by rewrite length_insert|]. intros i' Hi'. by rewrite list_lookup_insert_ne. }
  cbn [step]. rewrite Hi. destruct pc as [| | | | | | |c| | | |]; try done; cbn [listener_step]; rewrite ?Hst;
    try match goal with |- context [if ?b then _ else _] => destruct b eqn:? end;
    try (apply Hstep; cbn; done || lia).
  - apply Hstep; [done..|]. cbn. rewrite lookup_app_r, Nat.sub_diag by done. cbn. lia.
  - pose proof (admit_nearer w c (io_admit w Hw i c Hi)) as Hn.
    destruct (admit_step w c false) as [pc' w'] eqn:E. cbn in Hn.
    assert (listeners w' = listeners w /\ stop w' = stop w /\ methods w' = methods w /\ relays w' = relays w) as (E1 & E2 & E3 & E4).
    { unfold admit_step in E. by injection E as <- <-. }
    apply Hstep; [done..|]. rewrite E4. cbn. lia.
  - apply Hstep; [done..|]. cbn. rewrite zsum_app. cbn. unfold relay_rank at 2. cbn. case_bool_decide; lia.
  - exfalso. specialize (Hdr eq_refl). congruence.
Qed.

(** A draining listener waits for a session that can be brought nearer its end. *)
Lemma relay_nearer w i :
  listeners w !! i = Some LDrain -> drained w i = false ->
  exists j m, rank (step w (ERelay j m)) i < rank w i /\ moved w (step w (ERelay j m)) i.
Proof.
  intros Hi Hd. destruct (children_left _ _ _ Hd) as (j & pc & Hj & Hpc).
  exists j, RelayAborted. cbn [step]. rewrite Hj. assert (draining w i = true) as Hdr by (unfold draining; by rewrite Hi).
  assert (forall pc' w', listeners w' = listeners w -> stop w' = stop w -> methods w' = methods w -> relays w' = relays w ->
    relay_rank i (i, pc') < relay_rank i (i, pc) ->
    let w'' := with_tasks w' (listeners w') (<[j := (i, pc')]> (relays w')) (methods w') in rank w'' i < rank w i /\ moved w w'' i) as Hstep.
  { intros pc' w' E1 E2 E3 E4 Hr. cbn zeta. split; [|repeat split; cbn; rewrite ?E1; done].
    unfold rank. cbn. rewrite E1, E4, Hi, (zsum_insert _ _ _ _ _ Hj). cbn. lia. }
  unfold relay_rank in Hstep. cbn in Hstep. rewrite bool_decide_true in Hstep by done.
  destruct pc; try done; cbn [relay_step]; rewrite ?Hdr; apply Hstep; cbn; done || lia.
Qed.

Lemma rank_nonneg w i : 0 <= rank w i.
Proof.
  unfold rank. pose proof (zsum_nonneg _ (relays w) (relay_rank_nonneg i)). destruct (listeners w !! i) as [pc|]; [|done].
  destruct (decide (pc = LEnded)) as [->|Hne]; [done|]. pose proof (listener_rank_pos (owner w) pc Hne). destruct pc; done || lia.
Qed.

Lemma mesh_run_app w es es' : run w (es ++ es') = run (run w es) es'.
Proof. apply fold_left_app. Qed.

(** One listener can be brought to its end without disturbing the others. *)
Lemma listener_can_end w i :
  ingress_ok w -> stop w = true -> (i < length (listeners w))%nat ->
  exists es, moved w (run w es) i /\ listeners (run w es) !! i = Some LEnded.
Proof.
  intros Hw Hst Hi. remember (Z.to_nat (rank w i)) as n eqn:En.
  revert w Hw Hst Hi En. induction n as [n IH] using lt_wf_ind. intros w Hw Hst Hi ->.
  destruct (lookup_lt_is_Some_2 _ _ Hi) as [pc Hpc]. destruct (decide (pc = LEnded)) as [->|Hne]; [by exists []|].
  assert (exists e, rank (step w e) i < rank w i /\ moved w (step w e) i) as (e & Hr & Hm).
  { destruct (decide (pc = LDrain /\ drained w i = false)) as [[-> Hd]|Hd].
    - destruct (relay_nearer w i Hpc Hd) as (j & m & H). by exists (ERelay j m).
    - exists (EListener i AcceptTimeout false). apply (listener_nearer w i pc); try done. intros ->.
      destruct (drained w i); [done|]. by destruct Hd. }
  destruct Hm as (M1 & M2 & M3 & M4). pose proof (rank_nonneg (step w e) i).
  destruct (IH (Z.to_nat (rank (step w e) i)) ltac:(lia) (step w e)) as (es & (N1 & N2 & N3 & N4) & He);
    [by apply mesh_step_ok|congruence|lia|done|].
  exists (e :: es). change (run w (e :: es)) with (run (step w e) es). split; [|done]. repeat split; try congruence.
  intros i' Hi'. rewrite N4 by done. by apply M4.
Qed.

Lemma listeners_can_end w n :
  ingress_ok w -> stop w = true -> (n <= length (listeners w))%nat ->
  exists es, methods (run w es) = methods w /\ stop (run w es) = true /\ length (listeners (run w es)) = length (listeners w) /\
    forall i, (i < n)%nat -> listeners (run w es) !! i = Some LEnded.
Proof.
  intros Hw Hst. induction n as [|n IH]; intros Hn; [exists []; repeat split; [done|lia]|].
  destruct IH as (es & E1 & E2 & E3 & E4); [lia|].
  destruct (listener_can_end (run w es) n) as (es' & (M1 & M2 & M3 & M4) & He); [by apply mesh_run_ok|done|lia|].
  exists (es ++ es'). rewrite mesh_run_app. repeat split; try congruence. intros i Hi.
  destruct (decide (i = n)) as [->|Hne]; [done|]. rewrite M4 by done. apply E4. lia.
Qed.

(** A stop waiting for the listeners has raised the flag. *)
Definition stop_sent (w : ingress) : Prop :=
  forall k pc, methods w !! k = Some pc -> match pc with OJoin _ => stop w = true | _ => True end.

Lemma stop_sent_step w e : stop_sent w -> stop_sent (step w e).
Proof.
  intros H. destruct e as [i a sp|j m|k t|]; cbn [step]; try done.
  - destruct (listeners w !! i) as [pc|]; [|done]. destruct pc; cbn; repeat case_match; simplify_eq/=; done.
  - destruct (relays w !! j) as [[i pc]|]; [|done]. destruct pc, m; cbn; repeat case_match; simplify_eq/=; done.
  - destruct (methods w !! k) as [pc|] eqn:Hk; [|done]. pose proof (H k pc Hk) as Hpc.
    assert (methods (owner_step w pc t).2 = methods w /\ (stop w = true -> stop (owner_step w pc t).2 = true) /\
      match (owner_step w pc t).1 with OJoin _ => stop (owner_step w pc t).2 = true | _ => True end) as (E & Hs & Hj).
    { destruct pc; cbn; unfold finish; repeat case_match; simplify_eq/=; done. }
    destruct (owner_step w pc t) as [pc1 w1]. cbn in *. intros k' pc'. cbn. rewrite E.
    intros [(_ & <- & _)|[_ Hk']]%list_lookup_insert_Some; [done|]. specialize (H _ _ Hk'). destruct pc'; auto.
  - intros k pc [Hk|[_ Hk]]%lookup_app_Some; [by apply (H k)|].
    apply list_elem_of_lookup_2, list_elem_of_singleton in Hk as ->. done.
Qed.

Lemma stop_sent_run w es : stop_sent w -> stop_sent (run w es).
Proof. revert w. induction es as [|e es IH]; intros w Hw; [done|]. by apply IH, stop_sent_step. Qed.


(** ** Concrete runs *)

Definition sample_mappings : list MeshPortForward := [port_forward_same 1080].

(** 100.96.2.4 *)
Definition sample_endpoint : Ipv4Addr := 1684013572.

Definition sample_ingress : ingress :=
  {| owner := product_generation; stop := false; in_slot := false; live_listeners := 0; acks := 0; receiving := true;
     listeners := [LEnter]; relays := []; methods := [OStore] |}.

Lemma sample_started :
  start sample_endpoint sample_mappings false (fun _ => BoundReady) (fun _ => true) product_generation = Ok sample_ingress.
Proof. reflexivity. Qed.

(** The listener runs, [start] returns, and a client is admitted and relayed. *)
Definition one_relay : list ingress_event :=
  replicate 2 (EListener 0 AcceptTimeout false) ++ replicate 4 (EMethod 0 false)
  ++ replicate 10 (EListener 0 AcceptClient false) ++ [ERelay 0 RelayGoOn; ERelay 0 RelayGoOn].

(** A stop waits for the listener. *)
Definition one_stop : list ingress_event := EStop :: replicate 3 (EMethod 1 false).

(** The listener aborts the relay and ends; the stop has joined it. *)
Definition one_end : list ingress_event :=
  [EListener 0 AcceptTimeout false; ERelay 0 RelayAborted; ERelay 0 RelayGoOn; EListener 0 AcceptTimeout false;
   EListener 0 AcceptTimeout false; EMethod 1 false].

Lemma mesh_sessions_leased_witness :
  length (live_relays (run sample_ingress one_relay)) = 1%nat /\
  Z.of_nat (length (live_relays (run sample_ingress one_relay))) <= leases (owner (run sample_ingress one_relay)).
Proof.
  split; [vm_compute; reflexivity|].
  apply (mesh_sessions_leased sample_endpoint sample_mappings false (fun _ => BoundReady) (fun _ => true) sample_ingress one_relay
    sample_started). vm_compute. discriminate.
Defined.

Lemma mesh_stop_fails_only_on_timeout_witness :
  let w := run sample_ingress (one_relay ++ one_stop ++ one_end) in
  methods (step w (EMethod 1 true)) !! 1%nat = Some (OReturned (Ok tt) true).
Proof.
  intros w. apply (mesh_stop_fails_only_on_timeout sample_endpoint sample_mappings false (fun _ => BoundReady) (fun _ => true) sample_ingress
    (one_relay ++ one_stop ++ one_end) 1 None true sample_started); [vm_compute; discriminate|vm_compute; reflexivity].
Defined.

Lemma mesh_revocation_fences_witness :
  let w := run sample_ingress (one_relay ++ one_stop) in
  relays w !! 0%nat = Some (0%nat, RConnect) \/ relays w !! 0%nat = Some (0%nat, RRelay).
Proof.
  intros w. apply (mesh_revocation_fences w [] 0 0 RRelay); [vm_compute; reflexivity|vm_compute; reflexivity|by right].
Defined.

