(* ===== verification/ProxyCoordinator.v ===== *)
(** * Proxy coordinator

    [src/crates/runtime/src/proxy_coordinator.rs] and [proxy_recovery.rs]: one
    current proxy serving generation, its composition with the mesh and the
    readiness runtime, the publication of terminal failures and bounded restarts.

    A critical section of the mutex is one [psection]; methods and tasks are
    programs over sections, the requests of [ReadinessRuntime] (and through it of
    [MeshComposition]), and calls of a proxy serving runtime, which is an identity
    here: whether it starts, stops cleanly, takes a temporary credential or has
    failed comes from outside. *)

From Stdlib Require Import String.
From S2P Require Import RotationRuntime.
From S2P Require Import ControlRuntime.
From S2P Require Import Prelude Net RustStr ProxyAuth Lifecycle Configuration Cellular Transport Readiness EgressProbe ReadinessProbe.
From S2P Require Import Interaction Threads MeshComposition ReadinessRuntime.

#[export] Instance ProxyServingFailure_eq_dec : EqDecision ProxyServingFailure.
Proof. solve_decision. Defined.
#[export] Instance ProxyCredentialMaterial_eq_dec : EqDecision ProxyCredentialMaterial.
Proof. solve_decision. Defined.

(** ** Recovery policy *)

Definition proxy_serving_failure_recoverable (f : ProxyServingFailure) : bool :=
  match f with
  | MixedListenerUnavailable | Socks5ListenerUnavailable | HttpConnectListenerUnavailable
  | Lifecycle.ExecutorUnavailable | ServingUnhealthy => true
  | _ => false
  end.

Definition proxy_recovery_delay_ms (attempt : Z) : Z :=
  if attempt =? 0 then 1000
  else if attempt =? 1 then 5000
  else if attempt =? 2 then 15000
  else if attempt =? 3 then 30000
  else 60000.

(** [ProxyServingRuntimeError::lifecycle_failure] of [proxy_runtime.rs]. *)
Inductive ProxyServingRuntimeError :=
| NonLoopbackListen | ListenerUnavailable (p : ProxyProtocol) | ThreadUnavailable | ServingStateUnavailable | ServingShutdownTimedOut.

Definition lifecycle_failure (e : ProxyServingRuntimeError) : ProxyServingFailure :=
  match e with
  | NonLoopbackListen => ProxyConfigurationRejected
  | ListenerUnavailable Mixed => MixedListenerUnavailable
  | ListenerUnavailable Socks5 => Socks5ListenerUnavailable
  | ListenerUnavailable Http => HttpConnectListenerUnavailable
  | ThreadUnavailable => Lifecycle.ExecutorUnavailable
  | ServingStateUnavailable => Lifecycle.RuntimeStateUnavailable
  | ServingShutdownTimedOut => ShutdownFailed
  end.

(** ** State *)

Record ProxyRuntimePublication := {
  pub_state : ProxyServingState;
  pub_failure : option ProxyServingFailure;
  pub_serving_generation : option Z;
  pub_credential_version : option Z;
  pub_recovery_pending : bool;
  pub_recovery_operation_id : Z;
  pub_recovery_attempts_since_success : Z;
  pub_recovery_next_delay_ms : Z }.

(** The authorization check is a callback of the credentials owner: a number. *)
Record TemporaryCredentialSnapshot := { temporary_material : ProxyCredentialMaterial; temporary_available : nat }.

Record ProxyCoordinatorState := {
  current : option executor_id;
  state : ProxyServingState;
  failure : option ProxyServingFailure;
  serving_generation : option Z;
  next_serving_generation : Z;
  credential_version : option Z;
  credentials : option ProxyCredentialMaterial;
  temporary : option TemporaryCredentialSnapshot;
  recovery_pending : bool;
  recovery_attempts : Z;
  recovery_epoch : Z;
  observer : option nat;
  closed : bool }.

Definition proxy_new : ProxyCoordinatorState :=
  {| current := None; state := ServingStopped; failure := None; serving_generation := None; next_serving_generation := 1;
     credential_version := None; credentials := None; temporary := None; recovery_pending := false; recovery_attempts := 0;
     recovery_epoch := 0; observer := None; closed := false |}.

(** The serving generation and its phase. *)
Definition with_serving (s : ProxyCoordinatorState) (c : option executor_id) (st : ProxyServingState)
    (f : option ProxyServingFailure) (g : option Z) (next : Z) : ProxyCoordinatorState :=
  {| current := c; state := st; failure := f; serving_generation := g; next_serving_generation := next;
     credential_version := credential_version s; credentials := credentials s; temporary := temporary s;
     recovery_pending := recovery_pending s; recovery_attempts := recovery_attempts s; recovery_epoch := recovery_epoch s;
     observer := observer s; closed := closed s |}.

(** What the generation serves with. *)
Definition with_credentials (s : ProxyCoordinatorState) (v : option Z) (c : option ProxyCredentialMaterial)
    (t : option TemporaryCredentialSnapshot) : ProxyCoordinatorState :=
  {| current := current s; state := state s; failure := failure s; serving_generation := serving_generation s;
     next_serving_generation := next_serving_generation s; credential_version := v; credentials := c; temporary := t;
     recovery_pending := recovery_pending s; recovery_attempts := recovery_attempts s; recovery_epoch := recovery_epoch s;
     observer := observer s; closed := closed s |}.

(** The recovery timer, the observer and the end. *)
Definition with_recovery (s : ProxyCoordinatorState) (pending : bool) (attempts epoch : Z) (o : option nat) (shut : bool)
    : ProxyCoordinatorState :=
  {| current := current s; state := state s; failure := failure s; serving_generation := serving_generation s;
     next_serving_generation := next_serving_generation s; credential_version := credential_version s;
     credentials := credentials s; temporary := temporary s; recovery_pending := pending; recovery_attempts := attempts;
     recovery_epoch := epoch; observer := o; closed := shut |}.

Definition phase (s : ProxyCoordinatorState) (st : ProxyServingState) (f : option ProxyServingFailure) : ProxyCoordinatorState :=
  with_serving s (current s) st f (serving_generation s) (next_serving_generation s).

Definition set_recovery (s : ProxyCoordinatorState) (pending : bool) (attempts epoch : Z) : ProxyCoordinatorState :=
  with_recovery s pending attempts epoch (observer s) (closed s).

Definition saturating_pred (n : Z) : Z := Z.max 0 (n - 1).
Definition saturating_succ_u32 (n : Z) : Z := Z.min (n + 1) u32_max.

Definition publication (s : ProxyCoordinatorState) : ProxyRuntimePublication :=
  {| pub_state := state s; pub_failure := failure s; pub_serving_generation := serving_generation s;
     pub_credential_version := credential_version s; pub_recovery_pending := recovery_pending s;
     pub_recovery_operation_id := recovery_epoch s; pub_recovery_attempts_since_success := recovery_attempts s;
     pub_recovery_next_delay_ms := proxy_recovery_delay_ms (saturating_pred (recovery_attempts s)) |}.

Definition schedule_recovery_state (s : ProxyCoordinatorState) (f : ProxyServingFailure)
    : ProxyRuntimePublication * ProxyCoordinatorState :=
  let s1 :=
    if proxy_serving_failure_recoverable f && is_some (credentials s)
    then set_recovery s true (saturating_succ_u32 (recovery_attempts s)) (wrapping_succ (recovery_epoch s))
    else set_recovery s false (recovery_attempts s) (recovery_epoch s) in
  (publication s1, s1).

(** ** Critical sections *)

Definition credential_guard (s : ProxyCoordinatorState) : option ProxyCredentialGuard :=
  match credential_version s, credentials s with
  | Some v, Some m => Some {| guard_version := v; guard_material := m |}
  | _, _ => None
  end.

Definition credential_guard_matches (g : ProxyCredentialGuard) (s : ProxyCoordinatorState) : bool :=
  (credential_version s =b? Some (guard_version g)) && (credentials s =b? Some (guard_material g)).

Definition connection_snapshot (s : ProxyCoordinatorState) : option ProxyConnectionSnapshot :=
  if closed s || (state s <>b? ServingRunning) || is_some (failure s) then None
  else
    match serving_generation s, credential_version s, credentials s with
    | Some g, Some v, Some m =>
        Some {| ControlRuntime.serving_generation := g; ControlRuntime.credential_version := v; material := m |}
    | _, _, _ => None
    end.

Definition connection_snapshot_matches (c : ProxyConnectionSnapshot) (s : ProxyCoordinatorState) : bool :=
  negb (closed s) && (state s =b? ServingRunning) && negb (is_some (failure s))
  && (serving_generation s =b? Some (ControlRuntime.serving_generation c))
  && (credential_version s =b? Some (ControlRuntime.credential_version c))
  && (credentials s =b? Some (material c)).

(** [takes] is what the runtime answers under the lock. *)
Definition set_temporary_section (expected : option Z) (m : ProxyCredentialMaterial) (available : nat) (takes : bool)
    (s : ProxyCoordinatorState) : bool * ProxyCoordinatorState :=
  if closed s || (state s <>b? ServingRunning) || is_some_and expected (fun e => serving_generation s <>b? Some e)
  then (false, s)
  else
    match current s with
    | None => (false, s)
    | Some _ =>
        if negb takes then (false, s)
        else (true, with_credentials s (credential_version s) (credentials s)
                      (Some {| temporary_material := m; temporary_available := available |}))
    end.

Definition clear_temporary_section (takes : bool) (s : ProxyCoordinatorState) : bool * ProxyCoordinatorState :=
  if is_some (current s) && negb takes then (false, s)
  else (true, with_credentials s (credential_version s) (credentials s) None).

(** [false] is the early return. *)
Definition start_section (version : Z) (m : ProxyCredentialMaterial) (s : ProxyCoordinatorState)
    : (bool * ProxyRuntimePublication) * ProxyCoordinatorState :=
  if closed s then ((false, publication s), s)
  else if is_some (current s) && ((state s =b? ServingStarting) || (state s =b? ServingRunning))
  then ((false, publication s), s)
  else
    let s1 := set_recovery s false (recovery_attempts s) (wrapping_succ (recovery_epoch s)) in
    let s2 := with_credentials s1 (Some version) (Some m) None in
    let s3 := phase s2 ServingStarting None in
    ((true, publication s3), s3).

Inductive finished_start := FinishClosed | FinishExhausted | FinishInstalled (generation : Z).

Definition finish_section (runtime : executor_id) (version : Z) (takes : bool) (s : ProxyCoordinatorState)
    : finished_start * ProxyCoordinatorState :=
  if closed s then (FinishClosed, s)
  else
    let generation := next_serving_generation s in
    match checked_add u64_max generation 1 with
    | None => (FinishExhausted, s)
    | Some next =>
        let s1 := with_serving s (Some runtime) ServingStarting None (Some generation) next in
        let s2 := with_credentials s1 (Some version) (credentials s1) (temporary s1) in
        let s3 := set_recovery s2 false (recovery_attempts s2) (recovery_epoch s2) in
        let s4 :=
          if is_some (temporary s3) && negb takes
          then with_credentials s3 (credential_version s3) (credentials s3) None
          else s3 in
        (FinishInstalled generation, s4)
    end.

Definition still_current (generation : Z) (runtime : executor_id) (s : ProxyCoordinatorState) : bool :=
  (serving_generation s =b? Some generation) && (current s =b? Some runtime) && negb (is_some (failure s)).

(** [false] is the early return. *)
Definition running_section (generation : Z) (s : ProxyCoordinatorState)
    : (bool * ProxyRuntimePublication) * ProxyCoordinatorState :=
  if (serving_generation s <>b? Some generation) || is_some (failure s) then ((false, publication s), s)
  else
    let s1 := set_recovery (phase s ServingRunning None) false 0 (recovery_epoch s) in
    ((true, publication s1), s1).

(** [false] is the early return. *)
Definition start_failure_section (f : ProxyServingFailure) (s : ProxyCoordinatorState)
    : (bool * ProxyRuntimePublication) * ProxyCoordinatorState :=
  if closed s then ((false, publication s), s)
  else
    let '(p, s1) := schedule_recovery_state (with_serving s None ServingFailed (Some f) None (next_serving_generation s)) f in
    ((true, p), s1).

Definition terminal_section (generation : Z) (f : ProxyServingFailure) (s : ProxyCoordinatorState)
    : option (option executor_id * ProxyRuntimePublication) * ProxyCoordinatorState :=
  if closed s || (serving_generation s <>b? Some generation) then (None, s)
  else
    let '(p, s1) := schedule_recovery_state (with_serving s None ServingFailed (Some f) None (next_serving_generation s)) f in
    (Some (current s, p), s1).

Definition recovery_plan (s : ProxyCoordinatorState) : option (Z * Z) :=
  if closed s || negb (recovery_pending s) then None
  else Some (recovery_epoch s, proxy_recovery_delay_ms (saturating_pred (recovery_attempts s))).

Definition recover_section (epoch : Z) (s : ProxyCoordinatorState)
    : option (Z * ProxyCredentialMaterial) * ProxyCoordinatorState :=
  if closed s || negb (recovery_pending s) || negb (recovery_epoch s =? epoch) then (None, s)
  else
    let s1 := set_recovery s false (recovery_attempts s) (recovery_epoch s) in
    match credential_version s1, credentials s1 with
    | Some v, Some m => (Some (v, m), phase s1 ServingStarting None)
    | _, _ => (None, s1)
    end.

Definition stop_section (close : bool) (s : ProxyCoordinatorState)
    : (option executor_id * ProxyRuntimePublication) * ProxyCoordinatorState :=
  let s1 := with_serving s None ServingStopped None None (next_serving_generation s) in
  let s2 := with_credentials s1 None None None in
  let s3 := with_recovery s2 false 0 (wrapping_succ (recovery_epoch s)) (observer s) (closed s || close) in
  ((current s, publication s3), s3).

Definition stop_failed_section (s : ProxyCoordinatorState) : ProxyRuntimePublication * ProxyCoordinatorState :=
  let s1 := phase s ServingFailed (Some ShutdownFailed) in (publication s1, s1).

(** ** Requests *)

Inductive psection :=
| SSetObserver (o : nat)
| SObserver
| SSnapshot
| SGuard
| SGuardMatches (g : ProxyCredentialGuard)
| SConnection
| SConnectionMatches (c : ProxyConnectionSnapshot)
| STemporary (expected : option Z) (m : ProxyCredentialMaterial) (available : nat)
| SClearTemporary
| SStart (version : Z) (m : ProxyCredentialMaterial)
| SFinish (runtime : executor_id) (version : Z)
| SStillCurrent (generation : Z) (runtime : executor_id)
| SCredentials
| SRunning (generation : Z)
| SStartFailure (f : ProxyServingFailure)
| STerminal (generation : Z) (f : ProxyServingFailure)
| SPlan
| SRecover (epoch : Z)
| SStop (close : bool)
| SStopFailed.

Definition psection_reply (l : psection) : Type :=
  match l with
  | SSetObserver _ | SSnapshot | SStopFailed => ProxyRuntimePublication
  | SObserver => option nat
  | SGuard => option ProxyCredentialGuard
  | SConnection => option ProxyConnectionSnapshot
  | SGuardMatches _ | SConnectionMatches _ | STemporary _ _ _ | SClearTemporary | SStillCurrent _ _ => bool
  | SStart _ _ | SRunning _ | SStartFailure _ => bool * ProxyRuntimePublication
  | SFinish _ _ => finished_start
  | SCredentials => option ProxyCredentialMaterial
  | STerminal _ _ => option (option executor_id * ProxyRuntimePublication)
  | SPlan => option (Z * Z)
  | SRecover _ => option (Z * ProxyCredentialMaterial)
  | SStop _ => option executor_id * ProxyRuntimePublication
  end.

Definition penter (l : psection) (takes : bool) (s : ProxyCoordinatorState) : psection_reply l * ProxyCoordinatorState :=
  match l return psection_reply l * ProxyCoordinatorState with
  | SSetObserver o =>
      (publication s, with_recovery s (recovery_pending s) (recovery_attempts s) (recovery_epoch s) (Some o) (closed s))
  | SObserver => (observer s, s)
  | SSnapshot => (publication s, s)
  | SGuard => (credential_guard s, s)
  | SGuardMatches g => (credential_guard_matches g s, s)
  | SConnection => (connection_snapshot s, s)
  | SConnectionMatches c => (connection_snapshot_matches c s, s)
  | STemporary expected m available => set_temporary_section expected m available takes s
  | SClearTemporary => clear_temporary_section takes s
  | SStart version m => start_section version m s
  | SFinish runtime version => finish_section runtime version takes s
  | SStillCurrent generation runtime => (still_current generation runtime s, s)
  | SCredentials => (credentials s, s)
  | SRunning generation => running_section generation s
  | SStartFailure f => start_failure_section f s
  | STerminal generation f => terminal_section generation f s
  | SPlan => (recovery_plan s, s)
  | SRecover epoch => recover_section epoch s
  | SStop close => stop_section close s
  | SStopFailed => stop_failed_section s
  end.

Inductive proxy_task :=
| RecoverTask (old : option executor_id) (epoch delay_ms : Z).

Inductive proxy_request :=
| PLocked (l : psection)
| PReady (r : readiness_request)
| PConnector
| PLaunch (plan : ProxyServingPlan)
| PStopRuntime (runtime : executor_id)
| PWatch (runtime : executor_id) (generation : Z)
| PSpawn (t : proxy_task)
| PJoined
| PNotify (o : nat) (p : ProxyRuntimePublication)
| PSleep (ms : Z).

Definition proxy_reply (r : proxy_request) : Type :=
  match r with
  | PLocked l => psection_reply l
  | PReady r => readiness_reply r
  | PConnector | PStopRuntime _ | PSpawn _ | PJoined => bool
  | PLaunch _ => result ProxyServingRuntimeError executor_id
  | PWatch _ _ => option ProxyServingFailure
  | PNotify _ _ | PSleep _ => unit
  end.

Abbreviation pprog := (prog proxy_request proxy_reply).
Abbreviation pask r := (@request proxy_request proxy_reply r).
Abbreviation plock l := (@request proxy_request proxy_reply (PLocked l)).

(** A method of the readiness runtime, or of the mesh behind it. *)
Fixpoint with_readiness {A} (p : rprog A) : pprog A :=
  match p with
  | Ret a => Ret a
  | Do r k => @Do proxy_request proxy_reply A (PReady r) (fun x => with_readiness (k x))
  end.

Definition mesh_call {A} (p : mprog A) : pprog A := with_readiness (with_mesh p).

(** ** Methods and tasks *)

Definition notify (p : ProxyRuntimePublication) : pprog unit :=
  let> observer := plock SObserver in
  match observer with Some o => pask (PNotify o p) | None => Ret tt end.

Definition set_observer (o : nat) : pprog unit :=
  let> p := plock (SSetObserver o) in pask (PNotify o p).

Definition set_temporary_credential_if_generation (expected : option Z) (username password : str) (available : nat) : pprog bool :=
  match material_new username password with
  | Err _ => Ret false
  | Ok m => plock (STemporary expected m available)
  end.

Definition clear_temporary_credential : pprog bool := plock SClearTemporary.

Definition LOOPBACK : IpAddr := IpV4 (Z.shiftl 127 24 + 1).

Definition start_candidate (m : ProxyCredentialMaterial) : pprog (result ProxyServingFailure executor_id) :=
  match plan_canonical LOOPBACK m with
  | Err _ => Ret (Err ProxyConfigurationRejected)
  | Ok plan =>
      let> connector := pask PConnector in
      if negb connector then Ret (Err CellularConnectorUnavailable)
      else let> launched := pask (PLaunch plan) in Ret (map_err lifecycle_failure launched)
  end.

Definition spawn_recovery (old : option executor_id) : pprog unit :=
  let> plan := plock SPlan in
  match plan with
  | None => Ret tt
  | Some (epoch, delay) => let> _ := pask (PSpawn (RecoverTask old epoch delay)) in Ret tt
  end.

Definition publish_start_failure (f : ProxyServingFailure) : pprog ProxyRuntimePublication :=
  let> (failed, p) := plock (SStartFailure f) in
  if negb failed then Ret p
  else
    let> _ := notify p in
    let> _ := spawn_recovery None in
    Ret p.

Definition on_terminal_failure (generation : Z) (f : ProxyServingFailure) : pprog unit :=
  let> taken := plock (STerminal generation f) in
  match taken with
  | None => Ret tt
  | Some (old, p) =>
      let> _ := with_readiness observe_proxy_stopped in
      let> cleared := mesh_call clear_proxy in
      let> _ := match cleared with
                | Ok snapshot => let> _ := with_readiness (observe_mesh snapshot) in Ret tt
                | Err _ => Ret tt
                end in
      let> _ := notify p in
      spawn_recovery old
  end.

(** Mesh and readiness learn of the generation; [false] when one of them fails. *)
Definition compose_started (runtime : executor_id) (generation version : Z) : pprog bool :=
  let> installed := mesh_call (install_proxy runtime) in
  match installed with
  | Err _ => Ret false
  | Ok snapshot =>
      let> observed := with_readiness (observe_mesh snapshot) in
      match observed with
      | Err _ => Ret false
      | Ok _ =>
          let> m := plock SCredentials in
          match m with
          | None => Ret false
          | Some m =>
              let> started := with_readiness (observe_proxy_started generation version (username m) (password m)) in
              Ret (is_ok started)
          end
      end
  end.

Definition finish_started (runtime : executor_id) (version : Z) : pprog ProxyRuntimePublication :=
  let> finish := plock (SFinish runtime version) in
  match finish with
  | FinishClosed => let> _ := pask (PStopRuntime runtime) in plock SSnapshot
  | FinishExhausted =>
      let> _ := pask (PStopRuntime runtime) in
      publish_start_failure Lifecycle.RuntimeStateUnavailable
  | FinishInstalled generation =>
      let> failed := pask (PWatch runtime generation) in
      let> _ := match failed with Some f => on_terminal_failure generation f | None => Ret tt end in
      let> current := plock (SStillCurrent generation runtime) in
      if negb current then plock SSnapshot
      else
        let> composed := compose_started runtime generation version in
        if negb composed then
          let> _ := on_terminal_failure generation Lifecycle.RuntimeStateUnavailable in
          plock SSnapshot
        else
          let> (running, p) := plock (SRunning generation) in
          if negb running then Ret p
          else let> _ := notify p in Ret p
  end.

Definition start (version : option Z) (user pass : option str) : pprog ProxyRuntimePublication :=
  match version, user, pass with
  | None, None, None => publish_start_failure ExternalCredentialUnavailable
  | Some version, Some user, Some pass =>
      if negb (0 <? version) then publish_start_failure ProxyConfigurationRejected
      else
        match material_new user pass with
        | Err _ => publish_start_failure ProxyConfigurationRejected
        | Ok m =>
            let> (starting, p) := plock (SStart version m) in
            if negb starting then Ret p
            else
              let> _ := notify p in
              let> candidate := start_candidate m in
              match candidate with
              | Ok runtime => finish_started runtime version
              | Err f => publish_start_failure f
              end
        end
  | _, _, _ => publish_start_failure ProxyConfigurationRejected
  end.

Definition recover (epoch : Z) : pprog unit :=
  let> go := plock (SRecover epoch) in
  match go with
  | None => Ret tt
  | Some (version, m) =>
      let> p := plock SSnapshot in
      let> _ := notify p in
      let> joined := pask PJoined in
      if negb joined then let> _ := publish_start_failure Lifecycle.ExecutorUnavailable in Ret tt
      else
        let> candidate := start_candidate m in
        match candidate with
        | Ok runtime => let> _ := finish_started runtime version in Ret tt
        | Err f => let> _ := publish_start_failure f in Ret tt
        end
  end.

Definition recover_task (old : option executor_id) (epoch delay_ms : Z) : pprog unit :=
  let> _ := match old with Some runtime => pask (PStopRuntime runtime) | None => Ret true end in
  let> _ := pask (PSleep delay_ms) in
  recover epoch.

Definition stop_internal (close : bool) : pprog ProxyRuntimePublication :=
  let> (runtime, stopped) := plock (SStop close) in
  let> readiness_clean := with_readiness observe_proxy_stopped in
  let> cleared := mesh_call clear_proxy in
  let> mesh_clean := match cleared with
                     | Err _ => Ret false
                     | Ok snapshot => let> r := with_readiness (observe_mesh snapshot) in Ret (is_ok r)
                     end in
  let> proxy_clean := match runtime with Some runtime => pask (PStopRuntime runtime) | None => Ret true end in
  let> p := if is_ok readiness_clean && mesh_clean && proxy_clean then Ret stopped else plock SStopFailed in
  let> _ := notify p in
  Ret p.

(** ** Callers and the shared state *)

Inductive proxy_caller :=
| CallStart (version : option Z) (user pass : option str)
| CallStop (close : bool)
| CallTerminal (generation : Z) (f : ProxyServingFailure)
| CallTemporary (expected : option Z) (user pass : str) (available : nat)
| CallClearTemporary
| CallProxyObserver (o : nat)
| CallReadiness (c : readiness_caller).

Definition ended {A} (p : pprog A) : pprog unit := let> _ := p in Ret tt.

(** The readiness runtime learns of the proxy from this coordinator only. *)
Definition proxy_body (c : proxy_caller) : pprog unit :=
  match c with
  | CallStart v u p => ended (start v u p)
  | CallStop close => ended (stop_internal close)
  | CallTerminal g f => on_terminal_failure g f
  | CallTemporary e u p a => ended (set_temporary_credential_if_generation e u p a)
  | CallClearTemporary => ended clear_temporary_credential
  | CallProxyObserver o => set_observer o
  | CallReadiness (CallProxyStarted _ _ _ _) | CallReadiness CallProxyStopped
  | CallReadiness (CallMeshInstall _) | CallReadiness CallMeshClear => Ret tt
  | CallReadiness c => with_readiness (readiness_body c)
  end.

Definition proxy_task_body (t : proxy_task) : pprog unit :=
  match t with RecoverTask old epoch delay => recover_task old epoch delay end.

Record proxy_world := { proxy_state : ProxyCoordinatorState; readiness_side : readiness_world }.

(** What a step gets from outside; [takes] is the runtime's answer about a
    temporary credential. *)
Record proxy_input := {
  readiness_in : readiness_input;
  takes : bool;
  connector_ready : bool;
  launched : result ProxyServingRuntimeError executor_id;
  stopped_cleanly : bool;
  already_failed : option ProxyServingFailure;
  executor_takes : bool;
  blocking_joined : bool }.

Definition proxy_answer (r : proxy_request) (w : proxy_world) (x : proxy_input) : proxy_reply r * proxy_world :=
  match r return proxy_reply r * proxy_world with
  | PLocked l =>
      let y := penter l (takes x) (proxy_state w) in (y.1, {| proxy_state := y.2; readiness_side := readiness_side w |})
  | PReady r =>
      let y := readiness_answer r (readiness_side w) (readiness_in x) in
      (y.1, {| proxy_state := proxy_state w; readiness_side := y.2 |})
  | PConnector => (connector_ready x, w)
  | PLaunch _ => (launched x, w)
  | PStopRuntime _ => (stopped_cleanly x, w)
  | PWatch _ _ => (already_failed x, w)
  | PSpawn _ => (executor_takes x, w)
  | PJoined => (blocking_joined x, w)
  | PNotify _ _ | PSleep _ => (tt, w)
  end.

Definition proxy_serve (r : proxy_request) (w : proxy_world) (_ : nat -> bool) (_ : nat) (x : proxy_input)
    : option (proxy_reply r * proxy_world) := Some (proxy_answer r w x).

Definition proxy_born (r : proxy_request) : proxy_reply r -> list (pprog unit) :=
  match r return proxy_reply r -> list (pprog unit) with
  | PSpawn t => fun spawned => if spawned then [proxy_task_body t] else []
  | PReady r => fun y => with_readiness <$> readiness_born r y
  | _ => fun _ => []
  end.

Abbreviation proxy_step := (Threads.step proxy_serve proxy_born proxy_body).
Abbreviation proxy_events := (Threads.events proxy_serve proxy_born proxy_body).
Abbreviation proxy_runs := (Threads.runs proxy_serve proxy_born proxy_body).

Definition proxy_start (s : ReadinessRuntimeState) (m : mesh_world)
    : Threads.world proxy_request proxy_reply proxy_world unit :=
  {| shared := {| proxy_state := proxy_new; readiness_side := {| readiness := s; mesh_side := m |} |}; threads := [] |}.
