(* ===== verification/ProxyTasks.v ===== *)
(** * Interleavings of the proxy coordinator

    What holds of every run of [ProxyCoordinator] with the readiness runtime and
    the mesh composition underneath: the invariant of its state, and what a thread
    has done before it installs, publishes or schedules.  The file ends with a run
    in which a failed generation is reported as started. *)

From Stdlib Require Import String.
From S2P Require Import RotationRuntime.
From S2P Require Import ControlRuntime.
From S2P Require Import Prelude Net RustStr ProxyAuth Lifecycle Configuration Cellular RootPolicyRuntime Transport Readiness EgressProbe ReadinessProbe.
From S2P Require Import Interaction Threads MeshComposition ReadinessRuntime ReadinessTasks ProxyCoordinator.

(** ** The state *)

Record proxy_ok (s : ProxyCoordinatorState) : Prop := {
  po_next : 1 <= next_serving_generation s <= u64_max;
  po_generation g : serving_generation s = Some g -> 1 <= g /\ g + 1 = next_serving_generation s;
  po_current : is_Some (current s) <-> is_Some (serving_generation s);
  po_failed : state s = ServingFailed <-> is_Some (failure s);
  po_running : state s = ServingRunning -> is_Some (current s);
  po_pending : recovery_pending s = true -> current s = None /\ is_Some (credentials s);
  po_attempts : 0 <= recovery_attempts s <= u32_max;
  po_closed : closed s = true ->
    current s = None /\ credentials s = None /\ temporary s = None /\ recovery_pending s = false /\
    (state s = ServingStopped \/ failure s = Some ShutdownFailed) }.

Lemma proxy_new_ok : proxy_ok proxy_new.
Proof. split; cbn; try done; try (unfold u64_max, u32_max; lia). all: split; done || by intros [? ?]. Qed.

Lemma schedule_ok s f : proxy_ok s -> closed s = false -> current s = None ->
  proxy_ok (schedule_recovery_state s f).2.
Proof.
  intros [H1 H2 H3 H4 H5 H6 H7 H8] Hc Hn. unfold schedule_recovery_state. cbn [snd].
  destruct (proxy_serving_failure_recoverable f); [|split; cbn; done || congruence].
  destruct (credentials s) as [m|] eqn:Hm; [|split; cbn; try done; congruence].
  split; cbn; try done; try congruence.
  unfold saturating_succ_u32. lia.
Qed.

Lemma failed_ok s f : proxy_ok s -> closed s = false ->
  proxy_ok (with_serving s None ServingFailed (Some f) None (next_serving_generation s)).
Proof.
  intros [H1 H2 H3 H4 H5 H6 H7 H8] Hc. split; cbn; try done; [|congruence]. intros Hp. by destruct (H6 Hp).
Qed.

Lemma penter_ok l takes s : proxy_ok s -> proxy_ok (penter l takes s).2.
Proof.
  intros Hs. pose proof Hs as [H1 H2 H3 H4 H5 H6 H7 H8].
  destruct l as [| | | | | | |e m a| |v m|r v|g r| |g|f|g f| |e|c|]; cbn [penter snd]; try done.
  - unfold set_temporary_section. destruct (_ || _ || _) eqn:Hg; [done|]. destruct (current s) eqn:Hcur; [|done].
    destruct takes; [|done]. apply orb_false_iff in Hg as [[Hc _]%orb_false_iff _]. split; cbn; rewrite ?Hcur in *; try done. congruence.
  - unfold clear_temporary_section. destruct (_ && _); [done|]. split; cbn; try done. intros Hc. destruct (H8 Hc) as (? & ? & ? & ? & ?). done.
  - unfold start_section. destruct (closed s) eqn:Hc; [done|]. destruct (is_some (current s) && _) eqn:Hg; [done|].
    split; cbn; try done; try congruence.
  - unfold finish_section. destruct (closed s) eqn:Hc; [done|]. destruct (checked_add _ _ _) as [next|] eqn:Hn; [|done].
    apply checked_add_Some in Hn as [-> Hle].
    assert (proxy_ok (set_recovery (with_credentials (with_serving s (Some r) ServingStarting None (Some (next_serving_generation s))
      (next_serving_generation s + 1)) (Some v) (credentials s) (temporary s)) false (recovery_attempts s) (recovery_epoch s))) as Hok.
    { split; cbn; try done; try congruence; try lia.
      intros g [= <-]. lia. }
    destruct (is_some _ && negb takes); [|exact Hok]. destruct Hok as [K1 K2 K3 K4 K5 K6 K7 K8]. split; cbn in *; try done. congruence.
  - unfold running_section. destruct (_ || _) eqn:Hg; [done|]. apply orb_false_iff in Hg as [Hg Hf].
    apply negb_false_iff, bool_decide_eq_true in Hg.
    assert (is_Some (current s)) as Hcur by (apply H3; rewrite Hg; eauto).
    split; cbn; try done.
    intros Hc. destruct (H8 Hc) as (E & _). rewrite E in Hcur. by destruct Hcur.
  - unfold start_failure_section. destruct (closed s) eqn:Hc; [done|].
    pose proof (schedule_ok _ f (failed_ok s f Hs Hc) Hc eq_refl) as Hok.
    by destruct (schedule_recovery_state _ f) as [p s1].
  - unfold terminal_section. destruct (closed s) eqn:Hc; [done|]. destruct (false || _); [done|].
    pose proof (schedule_ok _ f (failed_ok s f Hs Hc) Hc eq_refl) as Hok.
    by destruct (schedule_recovery_state _ f) as [p s1].
  - unfold recover_section. destruct (closed s) eqn:Hc; [done|]. destruct (recovery_pending s) eqn:Hp; [|done].
    destruct (recovery_epoch s =? e); [|done]. cbn [orb negb]. cbn zeta. destruct (H6 eq_refl) as [Hn _].
    assert (proxy_ok (set_recovery s false (recovery_attempts s) (recovery_epoch s))) as Hok.
    { split; cbn; try done. congruence. }
    destruct (credential_version _); [|done]. destruct (credentials _); [|done]. cbn [snd].
    destruct Hok as [K1 K2 K3 K4 K5 K6 K7 K8]. split; cbn in *; try done; try congruence.
  - split; cbn; try done; try (unfold u32_max; lia).
    intros _. split_and!; try done. by left.
  - split; cbn; try done.
    intros Hc. destruct (H8 Hc) as (? & ? & ? & ? & _). split_and!; try done. by right.
Qed.

Lemma closed_stays l takes s : closed s = true -> closed (penter l takes s).2 = true.
Proof.
  intros Hc. destruct l; cbn [penter snd]; try done; unfold set_temporary_section, clear_temporary_section, start_section,
    finish_section, running_section, start_failure_section, terminal_section, recover_section, stop_section, stop_failed_section;
    rewrite ?Hc; try done.
  - by destruct (_ && _).
  - by destruct (_ || _).
Qed.

Lemma proxy_runs_ok w es : proxy_ok (proxy_state (shared w)) -> proxy_ok (proxy_state (shared (proxy_runs w es))).
Proof.
  apply (runs_inv proxy_serve proxy_born proxy_body (fun _ => True) (fun w => proxy_ok (proxy_state w))); [|by apply Forall_true].
  intros r s f n x y s' _ Hs H. injection H as H. assert (s' = (proxy_answer r s x).2) as -> by by rewrite H.
  destruct r; try done. cbn [proxy_answer snd proxy_state]. by apply penter_ok.
Qed.

(** ** Embedded methods *)

Abbreviation pev := (event proxy_request proxy_reply).
Abbreviation pdid := (@existT proxy_request proxy_reply).

Definition of_readiness (e : rev) : pev := pdid (PReady (projT1 e)) (projT2 e).
Definition of_mesh (e : event mesh_request mesh_reply) : rev := rdid (RMesh (projT1 e)) (projT2 e).

Lemma emits_with_readiness {A} (p : rprog A) Q :
  emits p Q -> emits (with_readiness p) (fun t a => exists t', t = of_readiness <$> t' /\ Q t' a).
Proof.
  revert Q. induction p as [a|r k IH]; intros Q H; cbn [with_readiness].
  - apply emits_ret. exists []. split; [done|]. by apply emits_ret in H.
  - rewrite emits_do in H. apply emits_do. intros x. eapply emits_mono; [|apply IH, H].
    intros t a (t' & -> & HQ). by exists (rdid r x :: t').
Qed.

Lemma emits_with_mesh {A} (p : mprog A) Q :
  emits p Q -> emits (with_mesh p) (fun t a => exists t', t = of_mesh <$> t' /\ Q t' a).
Proof.
  revert Q. induction p as [a|r k IH]; intros Q H; cbn [with_mesh].
  - apply emits_ret. exists []. split; [done|]. by apply emits_ret in H.
  - rewrite emits_do in H. apply emits_do. intros x. eapply emits_mono; [|apply IH, H].
    intros t a (t' & -> & HQ). by exists (existT r x :: t').
Qed.

(** Readiness accepted the generation. *)
Definition told_started (g v : Z) (m : ProxyCredentialMaterial) (t : list pev) : Prop :=
  exists gen y, pdid (PReady (RLocked (SUpdate (UProxyStarted gen g v (username m) (password m))))) (Ok y) ∈ t.

Lemma update_structural_ok u :
  emits (update_structural u) (fun t r => is_ok r = true -> exists y, rdid (RLocked (SUpdate u)) (Ok y) ∈ t).
Proof.
  unfold update_structural. cbn [prog_bind request]. apply emits_do. intros [y|e]; [|by apply emits_ret].
  eapply emits_mono; [|apply emits_true]. intros t r _ _. exists y. by left.
Qed.

Lemma observe_proxy_started_ok g v m :
  emits (with_readiness (observe_proxy_started g v (username m) (password m)))
    (fun t r => is_ok r = true -> told_started g v m t).
Proof.
  eapply emits_mono; [|apply (emits_with_readiness _ (fun t r => is_ok r = true -> exists gen y,
    rdid (RLocked (SUpdate (UProxyStarted gen g v (username m) (password m)))) (Ok y) ∈ t))].
  - intros t r (t' & -> & H) Hr. destruct (H Hr) as (gen & y & Hy). exists gen, y.
    by apply (list_elem_of_fmap_2 of_readiness) in Hy.
  - unfold observe_proxy_started, generation_key_new. destruct (v =? 0); [by apply emits_ret|].
    cbn [prog_bind request]. apply emits_do. intros gen. destruct (g =? 0); [by apply emits_ret|].
    eapply emits_mono; [|apply update_structural_ok]. intros t r H Hr. destruct (H Hr) as [y Hy]. exists gen, y. by right.
Qed.

Lemma install_proxy_sets rt :
  emits (mesh_call (install_proxy rt)) (fun t _ => pdid (PReady (RMesh (MLocked (MSetProxy (Some rt))))) tt ∈ t).
Proof.
  unfold mesh_call, install_proxy. cbn [prog_bind request with_mesh with_readiness]. apply emits_do. intros [].
  eapply emits_mono; [|apply emits_true]. intros. by left.
Qed.

(** ** What a thread promises *)

Definition launched_for (rt : executor_id) (v : Z) (t : list pev) : Prop :=
  exists m, pdid (PLaunch {| listen_address := LOOPBACK; plan_credentials := m |}) (Ok rt) ∈ t /\
    ((exists p, pdid (PLocked (SStart v m)) (true, p) ∈ t) \/ (exists e, pdid (PLocked (SRecover e)) (Some (v, m)) ∈ t)).

Definition composed (g : Z) (t : list pev) : Prop :=
  exists rt v m,
    pdid (PLocked (SFinish rt v)) (FinishInstalled g) ∈ t /\
    pdid (PReady (RMesh (MLocked (MSetProxy (Some rt))))) tt ∈ t /\
    pdid (PLocked SCredentials) (Some m) ∈ t /\ told_started g v m t.

Definition proxy_safe (t : list pev) (r : proxy_request) (_ : proxy_reply r) : Prop :=
  match r with
  | PLocked (SFinish rt v) => launched_for rt v t
  | PLocked (SRunning g) => composed g t
  | PLaunch plan => listen_address plan = LOOPBACK
  | PSpawn (RecoverTask old epoch delay) =>
      1000 <= delay <= 60000 /\ exists t0, t = t0 ++ [pdid (PLocked SPlan) (Some (epoch, delay))]
  | _ => True
  end.

Definition proxy_promised (r : proxy_request) : proxy_reply r -> Prop :=
  match r return proxy_reply r -> Prop with
  | PLocked SPlan => fun y => forall epoch delay, y = Some (epoch, delay) -> 1000 <= delay <= 60000
  | _ => fun _ => True
  end.

Abbreviation keeps p t := (always proxy_promised proxy_safe p t).

Definition calm_request (r : proxy_request) : Prop :=
  match r with PLocked (SFinish _ _) | PLocked (SRunning _) | PLaunch _ | PSpawn _ => False | _ => True end.

Lemma proxy_keeps_calm {A} (p : pprog A) t : only calm_request p -> keeps p t.
Proof. apply only_always. intros t' r x Hr. destruct r as [[]| | | | | | | | |]; done. Qed.

Lemma proxy_keeps_step {A} r (k : proxy_reply r -> pprog A) t :
  calm_request r -> (forall x, proxy_promised r x -> keeps (k x) (t ++ [pdid r x])) -> keeps (Do r k) t.
Proof. intros Hr Hk x Hx. split; [|by apply Hk]. destruct r as [[]| | | | | | | | |]; done. Qed.

Lemma calm_readiness {A} (p : rprog A) : only calm_request (with_readiness p).
Proof. induction p as [a|r k IH]; cbn [with_readiness]; [done|]. by split. Qed.

Lemma keeps_readiness {A B} (p : rprog A) (k : A -> pprog B) t :
  (forall a t', keeps (k a) (t ++ t')) -> keeps (prog_bind (with_readiness p) k) t.
Proof. intros Hk. apply always_bind; [apply proxy_keeps_calm, calm_readiness|done]. Qed.

Lemma keeps_notify {A} p (k : unit -> pprog A) t :
  (forall t', keeps (k tt) (t ++ t')) -> keeps (prog_bind (notify p) k) t.
Proof.
  intros Hk. apply always_bind; [|by intros []]. apply proxy_keeps_calm. split; [exact I|]. intros [o|]; repeat (split || intro).
Qed.

Lemma keeps_spawn_recovery old t : keeps (spawn_recovery old) t.
Proof.
  unfold spawn_recovery. cbn [prog_bind request]. apply proxy_keeps_step; [exact I|]. cbn [proxy_promised].
  intros [[epoch delay]|] Hx; [|exact I]. intros spawned _. split; [|exact I]. split; [by eapply Hx|eauto].
Qed.

Lemma keeps_start_failure f t : keeps (publish_start_failure f) t.
Proof.
  unfold publish_start_failure. cbn [prog_bind request]. apply proxy_keeps_step; [exact I|].
  intros [[] p] _; cbn [negb]; [|exact I]. apply keeps_notify. intros t'.
  apply always_bind; [apply keeps_spawn_recovery|]. intros; exact I.
Qed.

Lemma keeps_terminal g f t : keeps (on_terminal_failure g f) t.
Proof.
  unfold on_terminal_failure. cbn [prog_bind request]. apply proxy_keeps_step; [exact I|].
  intros [[old p]|] _; [|exact I]. apply keeps_readiness. intros _ t1. apply keeps_readiness. intros cleared t2.
  apply always_bind; [|intros _ t3; apply keeps_notify; intros t4; apply keeps_spawn_recovery].
  destruct cleared as [s|e]; [|exact I]. apply keeps_readiness. intros; exact I.
Qed.

Lemma compose_started_traces rt g v :
  emits (compose_started rt g v) (fun t ok => ok = true -> exists m,
    pdid (PReady (RMesh (MLocked (MSetProxy (Some rt))))) tt ∈ t /\ pdid (PLocked SCredentials) (Some m) ∈ t /\ told_started g v m t).
Proof.
  unfold compose_started. apply emits_bind. eapply emits_mono; [|apply install_proxy_sets]. intros t1 [s|e] H1; [|by apply emits_ret].
  apply emits_bind. eapply emits_mono; [|apply emits_true]. intros t2 [u|e] _; [|by apply emits_ret].
  cbn [prog_bind request]. apply emits_do. intros [m|]; [|by apply emits_ret].
  apply emits_bind. eapply emits_mono; [|apply observe_proxy_started_ok]. intros t3 r H3. apply emits_ret. intros Hr.
  exists m. rewrite app_nil_r. split_and!.
  - apply elem_of_app. by left.
  - apply elem_of_app. right. apply elem_of_app. right. by left.
  - destruct (H3 Hr) as (gen & y & Hy). exists gen, y. apply elem_of_app. right. apply elem_of_app. right. by right.
Qed.

Lemma calm_compose rt g v : only calm_request (compose_started rt g v).
Proof.
  unfold compose_started. apply only_bind; [apply calm_readiness|]. intros [s|e]; [|done].
  apply only_bind; [apply calm_readiness|]. intros [u|e]; [|done]. split; [exact I|]. intros [m|]; [|done]. cbn [prog_bind].
  apply only_bind; [apply calm_readiness|]. done.
Qed.

Lemma proxy_keeps_finish rt v t : launched_for rt v t -> keeps (finish_started rt v) t.
Proof.
  intros Hl. unfold finish_started. cbn [prog_bind request]. intros [| |g] _; (split; [exact Hl|]); cbn [prog_bind].
  - apply proxy_keeps_calm. repeat (split || intro).
  - apply proxy_keeps_step; [exact I|]. intros ok _. apply keeps_start_failure.
  - apply proxy_keeps_step; [exact I|]. intros failed _. cbn [prog_bind]. set (t1 := _ ++ _).
    assert (pdid (PLocked (SFinish rt v)) (FinishInstalled g) ∈ t1) as Hin.
    { unfold t1. apply elem_of_app. left. apply elem_of_app. right. by left. }
    clearbody t1. apply always_bind; [destruct failed; [apply keeps_terminal|exact I]|]. intros _ t2.
    apply proxy_keeps_step; [exact I|]. intros [] _; cbn [negb]; [|apply proxy_keeps_calm; repeat (split || intro)].
    eapply always_bind_emits; [apply compose_started_traces|apply proxy_keeps_calm, calm_compose|].
    intros [] t3 Hc; cbn [negb].
    + intros [running p] _. split.
      * destruct (Hc eq_refl) as (m & H1 & H2 & (gen & y & Hy)). exists rt, v, m.
        split_and!; [|apply elem_of_app; by right..|exists gen, y; apply elem_of_app; by right].
        apply elem_of_app. left. apply elem_of_app. left. apply elem_of_app. by left.
      * destruct running; cbn [negb]; [|exact I]. apply keeps_notify. intros; exact I.
    + apply always_bind; [apply keeps_terminal|]. intros _ t4. apply proxy_keeps_calm. repeat (split || intro).
Qed.

Lemma keeps_candidate {A} v m (k : _ -> pprog A) t :
  ((exists p, pdid (PLocked (SStart v m)) (true, p) ∈ t) \/ (exists e, pdid (PLocked (SRecover e)) (Some (v, m)) ∈ t)) ->
  (forall rt t', launched_for rt v (t ++ t') -> keeps (k (Ok rt)) (t ++ t')) ->
  (forall f t', keeps (k (Err f)) (t ++ t')) ->
  keeps (prog_bind (start_candidate m) k) t.
Proof.
  intros Hm Hok Herr. unfold start_candidate. destruct (plan_canonical LOOPBACK m) as [plan|e] eqn:Hp.
  2: { specialize (Herr ProxyConfigurationRejected []). by rewrite app_nil_r in Herr. }
  assert (plan = {| listen_address := LOOPBACK; plan_credentials := m |}) as ->.
  { unfold plan_canonical in Hp. change (ip_is_unspecified LOOPBACK) with false in Hp. congruence. }
  cbn [prog_bind request]. apply proxy_keeps_step; [exact I|]. intros [] _; cbn [negb prog_bind]; [|apply Herr].
  intros [rt|e] _; (split; [done|]); cbn [map_err prog_bind]; rewrite <- app_assoc; [|apply Herr]. apply Hok.
  exists m. split; [apply elem_of_app; right; right; by left|].
  destruct Hm as [[p Hm]|[e Hm]]; [left; exists p|right; exists e]; apply elem_of_app; by left.
Qed.

Lemma keeps_start version user pass t : keeps (start version user pass) t.
Proof.
  unfold start. destruct version as [v|], user as [u|], pass as [p|]; try apply keeps_start_failure.
  destruct (negb _); [apply keeps_start_failure|]. destruct (material_new u p) as [m|e]; [|apply keeps_start_failure].
  cbn [prog_bind request]. apply proxy_keeps_step; [exact I|]. intros [[] q] _; cbn [negb]; [|exact I].
  apply keeps_notify. intros t1. apply (keeps_candidate v m).
  - left. exists q. apply elem_of_app. left. apply elem_of_app. right. by left.
  - intros rt t2 Hl. by apply proxy_keeps_finish.
  - intros f t2. apply keeps_start_failure.
Qed.

Lemma keeps_recover epoch t : keeps (recover epoch) t.
Proof.
  unfold recover. cbn [prog_bind request]. apply proxy_keeps_step; [exact I|]. intros [[v m]|] _; [|exact I]. cbn [prog_bind].
  apply proxy_keeps_step; [exact I|]. intros p _. apply keeps_notify. intros t1. cbn [prog_bind]. apply proxy_keeps_step; [exact I|].
  intros [] _; cbn [negb]; [|apply always_bind; [apply keeps_start_failure|intros; exact I]].
  apply (keeps_candidate v m).
  - right. exists epoch. do 3 (apply elem_of_app; left). apply elem_of_app. right. by left.
  - intros rt t2 Hl. apply always_bind; [by apply proxy_keeps_finish|intros; exact I].
  - intros f t2. apply always_bind; [apply keeps_start_failure|intros; exact I].
Qed.

Lemma keeps_stop close t : keeps (stop_internal close) t.
Proof.
  unfold stop_internal. cbn [prog_bind request]. apply proxy_keeps_step; [exact I|]. intros [rt p] _.
  apply keeps_readiness. intros rc t1. apply keeps_readiness. intros cleared t2. apply always_bind.
  { destruct cleared; [|exact I]. apply keeps_readiness. intros; exact I. }
  intros mc t3. apply always_bind; [destruct rt; apply proxy_keeps_calm; repeat (split || intro)|]. intros pc t4.
  apply always_bind; [apply proxy_keeps_calm; destruct (_ && _ && _); repeat (split || intro)|]. intros q t5.
  apply keeps_notify. intros; exact I.
Qed.

Lemma proxy_keeps_caller c : keeps (proxy_body c) [].
Proof.
  assert (forall {A} (p : pprog A), keeps p [] -> keeps (ended p) []) as Hend.
  { intros A p Hp. apply always_bind; [done|]. intros; exact I. }
  destruct c as [v u p|close|g f|e u p a| |o|c]; cbn [proxy_body].
  - apply Hend, keeps_start.
  - apply Hend, keeps_stop.
  - apply keeps_terminal.
  - apply Hend. unfold set_temporary_credential_if_generation. destruct (material_new u p); [|exact I].
    apply proxy_keeps_calm. repeat (split || intro).
  - apply Hend, proxy_keeps_calm. repeat (split || intro).
  - apply proxy_keeps_calm. repeat (split || intro).
  - destruct c; try exact I; apply proxy_keeps_calm, calm_readiness.
Qed.

Lemma proxy_keeps_born r (y : proxy_reply r) : Forall (fun p => keeps p []) (proxy_born r y).
Proof.
  destruct r; try constructor; cbn [proxy_born].
  - apply Forall_fmap, Forall_true. intros p. apply proxy_keeps_calm, calm_readiness.
  - destruct y; repeat constructor. destruct t as [old epoch delay]. cbn [proxy_task_body]. unfold recover_task.
    apply always_bind; [destruct old; apply proxy_keeps_calm; repeat (split || intro)|]. intros _ t1. cbn [prog_bind request].
    apply proxy_keeps_step; [exact I|]. intros [] _. apply keeps_recover.
Qed.

Lemma delay_bounds n : 1000 <= proxy_recovery_delay_ms n <= 60000.
Proof. unfold proxy_recovery_delay_ms. repeat (destruct (_ =? _); [lia|]). lia. Qed.

Lemma proxy_events_safe w es t1 i r x t2 :
  proxy_events {| shared := w; threads := [] |} es = t1 ++ (i, pdid r x) :: t2 -> proxy_safe (own i t1) r x.
Proof.
  apply (events_safe proxy_serve proxy_born proxy_body (fun _ => True) proxy_promised proxy_safe); try done.
  - intros r' s f n x' y s' _ H. injection H as H. assert (y = (proxy_answer r' s x').1) as -> by by rewrite H.
    destruct r' as [[]| | | | | | | | |]; try done. cbn. unfold recovery_plan. destruct (_ || _); [done|].
    intros epoch delay [= _ <-]. apply delay_bounds.
  - apply proxy_keeps_caller.
  - apply proxy_keeps_born.
Qed.

(** ** No runtime is forgotten *)

(** A runtime that was launched was handed to the state, or stopped. *)
Definition kept_or_stopped (t : list pev) : Prop :=
  forall plan rt, pdid (PLaunch plan) (Ok rt) ∈ t ->
  (exists v g, pdid (PLocked (SFinish rt v)) (FinishInstalled g) ∈ t) \/ (exists ok, pdid (PStopRuntime rt) ok ∈ t).

(** Programs that launch nothing. *)
Definition no_launch (r : proxy_request) : Prop := match r with PLaunch _ => False | _ => True end.

Lemma no_launch_kept t : Forall (fun e : pev => no_launch (projT1 e)) t -> kept_or_stopped t.
Proof. intros Ht plan rt H. rewrite Forall_forall in Ht. by apply list_elem_of_In, Ht in H. Qed.

Lemma no_launch_readiness {A} (p : rprog A) : only no_launch (with_readiness p).
Proof. induction p as [a|r k IH]; cbn [with_readiness]; [done|]. by split. Qed.

Ltac no_launch :=
  repeat first
    [ exact I | apply no_launch_readiness
    | match goal with
      | |- only _ (prog_bind _ _) => apply only_bind; [|intros ?]
      | |- only _ (request _) => split; [exact I|intros ?]
      | |- only _ (match ?x with _ => _ end) => destruct x
      | |- only _ (mesh_call _) => unfold mesh_call
      end ].

Lemma no_launch_recovery old : only no_launch (spawn_recovery old).
Proof. unfold spawn_recovery. no_launch. Qed.

Lemma no_launch_failure f : only no_launch (publish_start_failure f).
Proof. unfold publish_start_failure, notify. no_launch; apply no_launch_recovery. Qed.

Lemma no_launch_terminal g f : only no_launch (on_terminal_failure g f).
Proof. unfold on_terminal_failure, notify. no_launch; apply no_launch_recovery. Qed.

Lemma no_launch_finish rt v : only no_launch (finish_started rt v).
Proof.
  unfold finish_started, compose_started, notify. no_launch; try apply no_launch_terminal; apply no_launch_failure.
Qed.

(** What becomes of a runtime in [finish_started]. *)
Lemma finish_settles rt v :
  emits (finish_started rt v) (fun t _ =>
    (exists v g, pdid (PLocked (SFinish rt v)) (FinishInstalled g) ∈ t) \/ (exists ok, pdid (PStopRuntime rt) ok ∈ t)).
Proof.
  unfold finish_started. cbn [prog_bind request]. apply emits_do. intros [| |g]; cbn [prog_bind].
  - apply emits_do. intros ok. eapply emits_mono; [|apply emits_true]. intros t a _. right. exists ok. right. by left.
  - apply emits_do. intros ok. eapply emits_mono; [|apply emits_true]. intros t a _. right. exists ok. right. by left.
  - eapply emits_mono; [|apply emits_true]. intros t a _. left. exists v, g. by left.
Qed.

Abbreviation keeps_runtimes p := (emits p (fun t _ => kept_or_stopped t)).

Lemma kept_no_launch {A} (p : pprog A) : only no_launch p -> keeps_runtimes p.
Proof. intros H. eapply emits_mono; [|apply emits_only, H]. intros t a. apply no_launch_kept. Qed.

Lemma kept_app t1 t2 : Forall (fun e : pev => no_launch (projT1 e)) t1 -> kept_or_stopped t2 -> kept_or_stopped (t1 ++ t2).
Proof.
  intros H1 H2 plan rt [H|H]%elem_of_app.
  - rewrite Forall_forall in H1. by apply list_elem_of_In, H1 in H.
  - destruct (H2 plan rt H) as [(v & g & Hin)|(ok & Hin)]; [left; exists v, g|right; exists ok]; apply elem_of_app; by right.
Qed.

Lemma kept_bind {A B} (p : pprog A) (f : A -> pprog B) :
  only no_launch p -> (forall a, keeps_runtimes (f a)) -> keeps_runtimes (prog_bind p f).
Proof.
  intros Hp Hf. apply emits_bind. eapply emits_mono; [|apply emits_only, Hp]. intros t a Ht. eapply emits_mono; [|apply Hf].
  intros t' b. by apply kept_app.
Qed.

Lemma kept_then {A B} (p : pprog A) (f : A -> pprog B) :
  keeps_runtimes p -> (forall a, only no_launch (f a)) -> keeps_runtimes (prog_bind p f).
Proof.
  intros Hp Hf. apply emits_bind. eapply emits_mono; [|exact Hp]. intros t a Ht. eapply emits_mono; [|apply emits_only, Hf].
  intros t' b Ht' plan rt [H|H]%elem_of_app.
  - destruct (Ht plan rt H) as [(v & g & Hin)|(ok & Hin)]; [left; exists v, g|right; exists ok]; apply elem_of_app; by left.
  - rewrite Forall_forall in Ht'. by apply list_elem_of_In, Ht' in H.
Qed.

(** What follows a candidate. *)
Definition conclude_start (v : Z) (candidate : result ProxyServingFailure executor_id) : pprog ProxyRuntimePublication :=
  match candidate with Ok runtime => finish_started runtime v | Err f => publish_start_failure f end.

Lemma kept_candidate m v : keeps_runtimes (prog_bind (start_candidate m) (conclude_start v)).
Proof.
  unfold start_candidate. destruct (plan_canonical _ _) as [plan|e]; [|apply kept_no_launch, no_launch_failure].
  apply (kept_bind (pask PConnector)); [split; [exact I|done]|]. intros []; cbn [negb]; [|apply kept_no_launch, no_launch_failure].
  cbn [prog_bind request]. apply emits_do. intros [rt|e]; cbn [map_err prog_bind conclude_start].
  - eapply emits_mono; [|apply emits_and; [apply finish_settles|apply emits_only, no_launch_finish]].
    intros t p [Hs Ht] plan' rt' [H|H]%elem_of_cons.
    + assert (rt' = rt) as ->.
      { apply (f_equal (fun e : pev => match e with existT (PLaunch _) (Ok rt) => rt | _ => 0 end)) in H. exact H. }
      destruct Hs as [(v' & g & Hin)|(ok & Hin)]; [left; exists v', g|right; exists ok]; by right.
    + rewrite Forall_forall in Ht. by apply list_elem_of_In, Ht in H.
  - eapply emits_mono; [|apply kept_no_launch, no_launch_failure]. intros t p Ht.
    intros plan' rt' [H|H]%elem_of_cons.
    + exfalso. apply (f_equal (fun e : pev => match e with existT (PLaunch _) (Ok _) => true | _ => false end)) in H. done.
    + destruct (Ht plan' rt' H) as [(v' & g & Hin)|(ok & Hin)]; [left; exists v', g|right; exists ok]; by right.
Qed.

Lemma kept_start version user pass : keeps_runtimes (start version user pass).
Proof.
  unfold start. destruct version as [v|], user as [u|], pass as [p|]; try apply kept_no_launch, no_launch_failure.
  destruct (negb _); [apply kept_no_launch, no_launch_failure|].
  destruct (material_new u p) as [m|e]; [|apply kept_no_launch, no_launch_failure].
  apply (kept_bind (plock (SStart v m))); [split; [exact I|done]|]. intros [[] q]; cbn [negb]; [|by apply kept_no_launch].
  apply kept_bind; [unfold notify; no_launch|]. intros _. exact (kept_candidate m v).
Qed.

Lemma bind_ret {A B C} (p : pprog A) (f : A -> pprog B) (g : B -> C) Q :
  emits (prog_bind p (fun a => prog_bind (f a) (fun b => Ret (g b)))) Q <->
  emits (prog_bind (prog_bind p f) (fun b => Ret (g b))) Q.
Proof.
  rewrite !emits_bind. split; apply emits_mono; intros t a; rewrite emits_bind; apply emits_mono; intros t' b;
    rewrite !emits_ret, !app_nil_r; done.
Qed.

Lemma kept_recover epoch : keeps_runtimes (recover epoch).
Proof.
  unfold recover. apply (kept_bind (plock (SRecover epoch))); [split; [exact I|done]|]. intros [[v m]|]; [|by apply kept_no_launch].
  apply (kept_bind (plock SSnapshot)); [split; [exact I|done]|]. intros p.
  apply kept_bind; [unfold notify; no_launch|]. intros _. apply (kept_bind (pask PJoined)); [split; [exact I|done]|].
  intros []; cbn [negb]; [|apply kept_no_launch, only_bind; [apply no_launch_failure|done]].
  assert (keeps_runtimes (let> candidate := start_candidate m in let> _ := conclude_start v candidate in Ret tt)) as H.
  { apply bind_ret, kept_then; [apply kept_candidate|done]. }
  rewrite emits_bind in H |- *. eapply emits_mono; [|exact H]. by intros t [rt|f].
Qed.

Lemma kept_caller c : keeps_runtimes (proxy_body c).
Proof.
  destruct c as [v u p|close|g f|e u p a| |o|c]; cbn [proxy_body].
  - apply kept_then; [apply kept_start|done].
  - apply kept_no_launch. unfold ended, stop_internal, notify. no_launch.
  - apply kept_no_launch, no_launch_terminal.
  - apply kept_no_launch. unfold ended, set_temporary_credential_if_generation. no_launch.
  - apply kept_no_launch. unfold ended, clear_temporary_credential. no_launch.
  - apply kept_no_launch. unfold set_observer. no_launch.
  - destruct c; apply kept_no_launch; try exact I; apply no_launch_readiness.
Qed.

Lemma kept_born r (y : proxy_reply r) : Forall (fun p => keeps_runtimes p) (proxy_born r y).
Proof.
  destruct r; try constructor; cbn [proxy_born].
  - apply Forall_fmap, Forall_true. intros p. apply kept_no_launch, no_launch_readiness.
  - destruct y; repeat constructor. destruct t as [old epoch delay]. cbn [proxy_task_body]. unfold recover_task.
    apply kept_bind; [no_launch|]. intros _. apply (kept_bind (pask (PSleep delay))); [split; [exact I|done]|]. intros _. apply kept_recover.
Qed.

(** ** Runs for examples *)

Definition good_proxy : proxy_input :=
  {| readiness_in := good_input; takes := true; connector_ready := true; launched := Ok 7; stopped_cleanly := true;
     already_failed := None; executor_takes := true; blocking_joined := true |}.

Inductive proxy_act := NewProxy (c : proxy_caller) | GoProxy (i steps : nat).

Definition play_proxy (acts : list proxy_act) : list (sched proxy_input proxy_caller) :=
  concat ((fun a => match a with NewProxy c => [Call c] | GoProxy i n => repeat (Advance i good_proxy) n end) <$> acts).

Definition demo_proxy_world := proxy_start demo_readiness demo_mesh.

Definition demo_start : proxy_caller := CallStart (Some 51) (Some (lit "user")) (Some (lit "secret")).

(** A start that runs to its end. *)
Definition demo_running : list (sched proxy_input proxy_caller) := play_proxy [NewProxy demo_start; GoProxy 0 60].

Definition fails_behind : list (sched proxy_input proxy_caller) :=
  play_proxy [NewProxy demo_start; GoProxy 0 7; NewProxy (CallTerminal 1 ServingUnhealthy); GoProxy 1 60; GoProxy 0 60].

(** The proxy is shut down while a recovery has its new runtime launched. *)
Definition closed_in_recovery : list (sched proxy_input proxy_caller) :=
  play_proxy [NewProxy demo_start; GoProxy 0 60; NewProxy (CallTerminal 1 ServingUnhealthy); GoProxy 1 60; GoProxy 2 8;
              NewProxy (CallStop true); GoProxy 3 60; GoProxy 2 60].

(** The end of a thread's events that follows its sleep. *)
Fixpoint after_sleep (t : list pev) : list pev :=
  match t with
  | [] => []
  | existT (PSleep _) _ :: t => t
  | _ :: t => after_sleep t
  end.

(** The first generation that is declared running. *)
Fixpoint split_running (t : list (nat * pev)) : option (list (nat * pev) * nat * Z * (bool * ProxyRuntimePublication) * list (nat * pev)) :=
  match t with
  | [] => None
  | (i, e) :: t =>
      match e with
      | existT (PLocked (SRunning g)) x => Some ([], i, g, x, t)
      | e => match split_running t with
             | Some (t1, j, g, x, t2) => Some ((i, e) :: t1, j, g, x, t2)
             | None => None
             end
      end
  end.

Lemma split_running_spec t t1 i g x t2 :
  split_running t = Some (t1, i, g, x, t2) -> t = t1 ++ (i, pdid (PLocked (SRunning g)) x) :: t2.
Proof.
  revert t1. induction t as [|[j [r y]] t IH]; intros t1 H; [done|].
  assert (match split_running t with
    | Some (t1, j', g, x, t2) => Some ((j, pdid r y) :: t1, j', g, x, t2) | None => None end
    = Some (t1, i, g, x, t2) -> (j, pdid r y) :: t = t1 ++ (i, pdid (PLocked (SRunning g)) x) :: t2) as Hn.
  { intros H'. destruct (split_running t) as [[[[[t1' i'] g'] x'] t2']|]; [|done]. injection H' as <- -> -> -> ->.
    cbn. f_equal. by apply IH. }
  destruct r as [[]| | | | | | | | |]; try (by apply Hn). cbn in H. injection H as <- -> -> -> ->. done.
Qed.

(** ** Properties *)

(** Nothing is left but the word on how it ended. *)
Definition at_rest (s : ProxyCoordinatorState) : Prop :=
  current s = None /\ credentials s = None /\ temporary s = None /\ recovery_pending s = false /\
  (state s = ServingStopped \/ failure s = Some ShutdownFailed).

(** C29: The coordinator's state is always in order.  In every interleaving of starts,
    stops, terminal failures, recovery timers, temporary credentials and the
    readiness and mesh traffic underneath: a runtime is current exactly while a
    serving generation is, and that generation is the newest one handed out; the
    running state has a current runtime and no failure; a recovery is pending only
    while nothing is current and the credentials to restart with are there.  Once
    the coordinator is closed it stays so, whatever runs afterwards: nothing is
    current, no credential, temporary credential or recovery is left, and it
    reports stopped or a failed shutdown. *)
Theorem proxy_state_in_order r m es es' :
  let w := proxy_runs (proxy_start r m) es in
  let s := proxy_state (shared w) in
  (is_Some (current s) <-> is_Some (serving_generation s)) /\
  (forall g, serving_generation s = Some g -> 1 <= g /\ g + 1 = next_serving_generation s) /\
  (state s = ServingRunning -> is_Some (current s) /\ failure s = None) /\
  (recovery_pending s = true -> current s = None /\ is_Some (credentials s)) /\
  (closed s = true -> let s' := proxy_state (shared (proxy_runs w es')) in
     closed s' = true /\ at_rest s').
Proof.
  intros w s. assert (proxy_ok s) as Hs by (apply proxy_runs_ok, proxy_new_ok).
  split_and!; try apply Hs.
  - intros Hr. split; [by apply (po_running _ Hs)|]. destruct (failure s) eqn:E; [|done].
    assert (state s = ServingFailed) by (apply (po_failed _ Hs); rewrite E; eauto). congruence.
  - intros Hc s'. assert (proxy_ok s' /\ closed s' = true) as [Hs' Hc'].
    { apply (runs_inv proxy_serve proxy_born proxy_body (fun _ => True)
        (fun w => proxy_ok (proxy_state w) /\ closed (proxy_state w) = true)); [|by apply Forall_true|done].
      intros q w1 f n x y w2 _ [H1 H2] H. injection H as H. assert (w2 = (proxy_answer q w1 x).2) as -> by by rewrite H.
      destruct q as [l| | | | | | | | |]; try done. cbn [proxy_answer snd proxy_state]. split; [by apply penter_ok|]. by apply closed_stays. }
    split; [done|]. by apply (po_closed _ Hs').
Qed.

(** C3: A generation is announced only when it is composed.  In every interleaving: a
    thread hands a runtime over for a credential version only after it launched
    that very runtime, on the loopback address, with the credentials that one
    section of its own gave it together with that version.  It declares a
    generation running only after the runtime was installed under that number, the
    mesh was given the runtime, and the readiness runtime accepted the generation,
    the version and the current credentials.  And recoveries are spawned only for
    what the state had planned just before, with a delay between one second and one
    minute. *)
Theorem proxy_discipline w es t1 i r x t2 :
  proxy_events {| shared := w; threads := [] |} es = t1 ++ (i, pdid r x) :: t2 -> proxy_safe (own i t1) r x.
Proof. apply proxy_events_safe. Qed.

Lemma proxy_discipline_witness :
  match split_running (proxy_events demo_proxy_world demo_running) with
  | Some (t1, i, g, running, _) => running.1 = true /\ g = 1 /\ composed g (own i t1)
  | None => False
  end.
Proof.
  destruct (split_running _) as [[[[[t1 i] g] running] t2]|] eqn:E; [|vm_compute in E; discriminate].
  assert (running.1 = true /\ g = 1) as (Hr & ->).
  { apply (f_equal (option_map (fun '(_, _, g, x, _) => (x.1, g)))) in E. vm_compute in E. by injection E. }
  do 2 (split; [first [exact Hr | reflexivity]|]). apply split_running_spec in E.
  exact (proxy_discipline (shared demo_proxy_world) demo_running t1 i (PLocked (SRunning 1)) running t2 E).
Defined.

(** No runtime is lost.  Whatever interleaves, a thread that has ended has, for
    every runtime it launched, either handed it to the state as a new generation or
    asked it to stop. *)
Theorem launched_runtime_kept_or_stopped w es i a :
  threads (proxy_runs {| shared := w; threads := [] |} es) !! i = Some (Ret a) ->
  kept_or_stopped (own i (proxy_events {| shared := w; threads := [] |} es)).
Proof.
  apply (finished_emits proxy_serve proxy_born proxy_body (fun t _ => kept_or_stopped t) kept_caller kept_born).
Qed.

Lemma launched_runtime_kept_or_stopped_witness :
  kept_or_stopped (own 0 (proxy_events demo_proxy_world demo_running)).
Proof. apply (launched_runtime_kept_or_stopped (shared demo_proxy_world) demo_running 0 tt). vm_compute. reflexivity. Defined.

(** A failed generation can be reported as started.  The runtime of a start fails
    while the start is about to compose it: the failure is published, the readiness
    runtime and the mesh are told that there is no proxy, and then the start tells
    both that there is one.  The start sees the failure only afterwards and returns
    without taking anything back: the coordinator has failed with no generation,
    while readiness has the dead generation as healthy and the mesh keeps its
    runtime installed. *)
Theorem failed_generation_reported_started :
  exists es, let w := shared (proxy_runs demo_proxy_world es) in
    state (proxy_state w) = ServingFailed /\ serving_generation (proxy_state w) = None /\
    is_some_and (proxy (facts (readiness (readiness_side w)))) pf_healthy = true /\
    MeshComposition.proxy (composition (mesh_side (readiness_side w))) = Some 7.
Proof. exists fails_behind. vm_compute. split_and!; reflexivity. Qed.

(** A recovery can have to stop its own new runtime.  When the proxy is shut down
    between the launch and the hand-over, the recovery finds the coordinator closed
    and stops the runtime itself, in the middle of its task: after its sleep and after
    the refused hand-over it asks for that stop and for nothing else but a snapshot. *)
Theorem recovery_stops_its_own_runtime :
  exists es launched, let t := after_sleep (own 2 (proxy_events demo_proxy_world es)) in
    t = launched ++ [pdid (PLocked (SFinish 7 51)) FinishClosed; pdid (PStopRuntime 7) true;
                     pdid (PLocked SSnapshot) (publication (proxy_state (shared (proxy_runs demo_proxy_world es))))] /\
    closed (proxy_state (shared (proxy_runs demo_proxy_world es))) = true.
Proof.
  exists closed_in_recovery, (take 6 (after_sleep (own 2 (proxy_events demo_proxy_world closed_in_recovery)))).
  vm_compute. split; reflexivity.
Qed.
