(* ===== verification/ProxyServing.v ===== *)
(** * Proxy serving runtime

    [src/crates/runtime/src/proxy_runtime.rs]: the listeners of one proxy serving
    generation, their sessions, the credentials in force and the way down.

    Acceptors, sessions and methods are state machines over the shared atomics and
    locks; one event is one access, so that every interleaving of accesses is a
    sequence of events.  What a socket, a client, the clock or a callback does is
    part of the event.  The front ends a session runs are those of [ProxySession],
    the ingress a stop takes down first is that of [MeshServing]; here both are outcomes. *)

From Stdlib Require Import String.
From S2P Require Import Prelude Net RustStr ProxyAuth Lifecycle Transport Configuration.
From S2P Require Import Pools ProxyCoordinator.

Definition CONTROL_SESSION_RESERVE : Z := 1.
Definition MAX_NATIVE_PROXY_SESSIONS : Z := EXTERNAL_TCP_SESSION_BUDGET + CONTROL_SESSION_RESERVE.

(** ** Owner state *)

Record ProxyServingOwnerState := { lifecycle : ProxyServingSnapshot; observers : list nat }.

Definition owner_state_new : ProxyServingOwnerState :=
  {| lifecycle := (serving_request_start serving_new).2; observers := [] |}.

Abbreviation notification := (nat * ProxyServingFailure)%type.

Definition owner_set_observer (o : nat) (s : ProxyServingOwnerState) : list notification * ProxyServingOwnerState :=
  match serving_failure (lifecycle s) with
  | Some f => ([(o, f)], s)
  | None => ([], {| lifecycle := lifecycle s; observers := observers s ++ [o] |})
  end.

Definition owner_mark_running (s : ProxyServingOwnerState) : bool * ProxyServingOwnerState :=
  let '(b, l) := mark_running (lifecycle s) in (b, {| lifecycle := l; observers := observers s |}).

Definition owner_mark_stopped (s : ProxyServingOwnerState) : ProxyServingOwnerState :=
  {| lifecycle := mark_stopped (lifecycle s); observers := observers s |}.

(** The section of [publish_failure]; the notifications follow it. *)
Definition owner_publish_failure (f : ProxyServingFailure) (s : ProxyServingOwnerState)
    : list notification * ProxyServingOwnerState :=
  if is_some (serving_failure (lifecycle s)) then ([], s)
  else
    let l := mark_failed (lifecycle s) f in
    let f := default f (serving_failure l) in
    ((fun o => (o, f)) <$> observers s, {| lifecycle := l; observers := observers s |}).

Definition is_failed (s : ProxyServingOwnerState) : bool := serving_state (lifecycle s) =b? ServingFailed.

(** ** Authorization *)

(** A shared verifier: the primary credentials alone, or with a temporary pair
    whose callback is asked while its gate, one of the store, is open. *)
Inductive verifier := OnlyPrimary | WithTemporary (t : ProxyCredentialMaterial) (available gate : nat).

Record LiveProxyAuthorization := { live_verifier : verifier; temporary_generation_gate : option nat }.

Inductive supplied := SuppliedBasic (s : str) | SuppliedPair (u p : str).

Section authorization.
Context (primary : ProxyCredentialMaterial).

(** What the verifier is at the moment it is asked. *)
Definition admission_now (gates : list bool) (calls : nat -> bool) (t : ProxyCredentialMaterial) (available gate : nat)
    : ProxyCredentialAdmission :=
  {| ProxyAuth.primary := primary; ProxyAuth.temporary := Some t;
     ProxyAuth.temporary_available := Some (default false (gates !! gate) && calls available) |}.

Definition classify (gates : list bool) (calls : nat -> bool) (v : verifier) (s : supplied) : option ProxyPrincipal :=
  match v, s with
  | OnlyPrimary, SuppliedBasic s => classify_http_basic primary s
  | OnlyPrimary, SuppliedPair u p => classify_username_password primary u p
  | WithTemporary t a g, SuppliedBasic s => classify_http_basic (admission_now gates calls t a g) s
  | WithTemporary t a g, SuppliedPair u p => classify_username_password (admission_now gates calls t a g) u p
  end.

Definition session_available (gates : list bool) (calls : nat -> bool) (v : verifier) : bool :=
  match v with
  | OnlyPrimary => temporary_session_available primary
  | WithTemporary t a g => temporary_session_available (admission_now gates calls t a g)
  end.

(** The gate that was in force is shut. *)
Definition shut_gate (gate : option nat) (gates : list bool) : list bool :=
  match gate with Some g => <[g := false]> gates | None => gates end.

Definition set_temporary_credential (t : ProxyCredentialMaterial) (available : nat)
    (s : LiveProxyAuthorization * list bool) : result ProxyServingRuntimeError unit * (LiveProxyAuthorization * list bool) :=
  let '(auth, gates) := s in
  match with_temporary primary t true with
  | Err _ => (Err ServingStateUnavailable, s)
  | Ok _ =>
      let gate := length gates in
      (Ok tt, ({| live_verifier := WithTemporary t available gate; temporary_generation_gate := Some gate |},
               shut_gate (temporary_generation_gate auth) gates ++ [true]))
  end.

Definition clear_temporary_credential (s : LiveProxyAuthorization * list bool) : LiveProxyAuthorization * list bool :=
  let '(auth, gates) := s in
  ({| live_verifier := OnlyPrimary; temporary_generation_gate := None |}, shut_gate (temporary_generation_gate auth) gates).
End authorization.

(** ** Tasks *)

Inductive acceptor_pc :=
| AEnter                                    (* the guard counts the acceptor *)
| ALoop                                     (* look at the shutdown flag *)
| AAccept                                   (* wait for a client *)
| AError                                    (* an accept error: look at [stopping] *)
| APermit                                   (* a client: ask for a permit *)
| ACount                                    (* count the session *)
| ASpawn                                    (* spawn it *)
| ADrain                                    (* abort and join the sessions *)
| ALeave                                    (* the guard is dropped *)
| ALeaveStopping
| ALeaveFailed
| APublish (drain : bool)                   (* [publish_failure] *)
| ASend (ns : list notification) (drain : bool)
| AEnded.

(** [lost]: the task was cancelled before its first poll, so that the count guard was
    never made and nothing takes the session off the count. *)
Inductive session_pc :=
| SessionSpawned                            (* not polled yet *)
| SessionQueued                             (* the blocking set-up is queued *)
| SessionPrepare (v : verifier)             (* it runs *)
| SessionRelay (p : ProxyPrincipal) (v : verifier)
| SessionCount                              (* the count guard is dropped *)
| SessionPermit (lost : bool)               (* then the permit *)
| SessionDone (lost : bool).

(** A blocking set-up whose session was cancelled; [spawn_blocking] is not. *)
Inductive setup := SetupQueued | SetupRunning (v : verifier) | SetupConnected (p : ProxyPrincipal) | SetupOver.

(** [ret] is what [start] answers after its own stop. *)
Inductive method_pc :=
| MPoll                                     (* the wait for health *)
| MCheck                                    (* [is_healthy] after it: not stopping, not failed *)
| MLive                                     (* and every acceptor counted *)
| MMark
| MStopping (ret : option ProxyServingRuntimeError)
| MMesh (ret : option ProxyServingRuntimeError)
| MShutdown (ret : option ProxyServingRuntimeError) (mesh_clean : bool)
| MTake (ret : option ProxyServingRuntimeError) (mesh_clean : bool)
| MJoin (ret : option ProxyServingRuntimeError) (mesh_clean mine : bool)
| MActive (ret : option ProxyServingRuntimeError) (mesh_clean joined mine : bool)
| MPublish (ret : option ProxyServingRuntimeError)
| MSend (ret : option ProxyServingRuntimeError) (ns : list notification)
| MMarkStopped (ret : option ProxyServingRuntimeError) (mine : bool)
| MReturned (r : result ProxyServingRuntimeError unit) (mine : bool).

(** A session knows its acceptor. *)
Record serving := {
  primary_credentials : ProxyCredentialMaterial;
  authorization : LiveProxyAuthorization;
  gates : list bool;
  owner_state : ProxyServingOwnerState;
  shutdown : bool;
  stopping : bool;
  live_acceptors : Z;
  active_sessions : Z;
  permits : Z;
  accept_tasks : bool;                      (* the handles are still retained *)
  acceptors : list acceptor_pc;
  sessions : list (nat * session_pc);
  methods : list method_pc;
  setups : list setup }.

Definition serving_new (primary : ProxyCredentialMaterial) : serving :=
  {| primary_credentials := primary;
     authorization := {| live_verifier := OnlyPrimary; temporary_generation_gate := None |}; gates := [];
     owner_state := owner_state_new; shutdown := false; stopping := false; live_acceptors := 0; active_sessions := 0;
     permits := MAX_NATIVE_PROXY_SESSIONS; accept_tasks := true; acceptors := []; sessions := []; methods := []; setups := [] |}.

(** *** Assignments *)

Definition with_auth (w : serving) (a : LiveProxyAuthorization * list bool) : serving :=
  {| primary_credentials := primary_credentials w; authorization := a.1; gates := a.2; owner_state := owner_state w;
     shutdown := shutdown w; stopping := stopping w; live_acceptors := live_acceptors w; active_sessions := active_sessions w;
     permits := permits w; accept_tasks := accept_tasks w; acceptors := acceptors w; sessions := sessions w; methods := methods w; setups := setups w |}.

Definition with_owner (w : serving) (o : ProxyServingOwnerState) : serving :=
  {| primary_credentials := primary_credentials w; authorization := authorization w; gates := gates w; owner_state := o;
     shutdown := shutdown w; stopping := stopping w; live_acceptors := live_acceptors w; active_sessions := active_sessions w;
     permits := permits w; accept_tasks := accept_tasks w; acceptors := acceptors w; sessions := sessions w; methods := methods w; setups := setups w |}.

Definition with_flags (w : serving) (down stop tasks : bool) : serving :=
  {| primary_credentials := primary_credentials w; authorization := authorization w; gates := gates w; owner_state := owner_state w;
     shutdown := down; stopping := stop; live_acceptors := live_acceptors w; active_sessions := active_sessions w;
     permits := permits w; accept_tasks := tasks; acceptors := acceptors w; sessions := sessions w; methods := methods w; setups := setups w |}.

Definition with_counts (w : serving) (live active free : Z) : serving :=
  {| primary_credentials := primary_credentials w; authorization := authorization w; gates := gates w; owner_state := owner_state w;
     shutdown := shutdown w; stopping := stopping w; live_acceptors := live; active_sessions := active;
     permits := free; accept_tasks := accept_tasks w; acceptors := acceptors w; sessions := sessions w; methods := methods w; setups := setups w |}.

Definition with_tasks (w : serving) (a : list acceptor_pc) (s : list (nat * session_pc)) (m : list method_pc) : serving :=
  {| primary_credentials := primary_credentials w; authorization := authorization w; gates := gates w; owner_state := owner_state w;
     shutdown := shutdown w; stopping := stopping w; live_acceptors := live_acceptors w; active_sessions := active_sessions w;
     permits := permits w; accept_tasks := accept_tasks w; acceptors := a; sessions := s; methods := m; setups := setups w |}.

Definition send_shutdown (w : serving) : serving := with_flags w true (stopping w) (accept_tasks w).

Definition is_healthy (w : serving) : bool :=
  negb (stopping w) && negb (is_failed (owner_state w)) && (live_acceptors w =? Z.of_nat (length canonical_listeners)).

(** *** Acceptors *)

Inductive accepted := AcceptTimeout | AcceptClient | AcceptInterrupted | AcceptError.

Definition session_ended (pc : session_pc) : bool := match pc with SessionDone _ => true | _ => false end.

(** Every session of acceptor [i] has ended. *)
Definition drained (w : serving) (i : nat) : bool :=
  children_over session_ended i (sessions w).

Definition accept_step (w : serving) (i : nat) (pc : acceptor_pc) (o : accepted) : list notification * (acceptor_pc * serving) :=
  match pc with
  | AEnter => ([], (ALoop, with_counts w (atomic_add (live_acceptors w) 1) (active_sessions w) (permits w)))
  | ALoop => ([], (if shutdown w then ADrain else AAccept, w))
  | AAccept =>
      ([], (match o with AcceptTimeout | AcceptInterrupted => ALoop | AcceptClient => APermit | AcceptError => AError end, w))
  | AError => ([], (if stopping w then ADrain else APublish true, w))
  | APermit =>
      if 0 <? permits w then ([], (ACount, with_counts w (live_acceptors w) (active_sessions w) (permits w - 1)))
      else ([], (ALoop, w))
  | ACount => ([], (ASpawn, with_counts w (live_acceptors w) (atomic_add (active_sessions w) 1) (permits w)))
  | ASpawn => ([], (ALoop, with_tasks w (acceptors w) (sessions w ++ [(i, SessionSpawned)]) (methods w)))
  | ADrain => ([], (if drained w i then ALeave else ADrain, w))
  | ALeave => ([], (ALeaveStopping, with_counts w (atomic_add (live_acceptors w) (-1)) (active_sessions w) (permits w)))
  | ALeaveStopping => ([], (if stopping w then AEnded else ALeaveFailed, w))
  | ALeaveFailed => ([], (if is_failed (owner_state w) then AEnded else APublish false, w))
  | APublish drain =>
      let '(ns, o) := owner_publish_failure ServingUnhealthy (owner_state w) in ([], (ASend ns drain, with_owner w o))
  | ASend ns drain => (ns, (if drain then ADrain else AEnded, send_shutdown w))
  | AEnded => ([], (AEnded, w))
  end.

(** *** Sessions *)

Inductive session_move :=
| SessionGoOn                                                   (* the next access *)
| SessionBroken                                                 (* a socket call or the setup failed *)
| SessionAuthenticated (s : supplied) (calls : nat -> bool) (connected : bool)
| SessionTick (in_time : bool) (calls : nat -> bool)            (* the recheck of a temporary relay *)
| SessionRelayEnded
| SessionAborted.

Definition draining (w : serving) (i : nat) : bool :=
  match acceptors w !! i with Some ADrain => true | _ => false end.

(** What a cancelled session leaves behind. *)
Definition left_behind (pc : session_pc) : list setup :=
  match pc with SessionQueued => [SetupQueued] | SessionPrepare v => [SetupRunning v] | _ => [] end.

Definition with_setups (w : serving) (l : list setup) : serving :=
  {| primary_credentials := primary_credentials w; authorization := authorization w; gates := gates w; owner_state := owner_state w;
     shutdown := shutdown w; stopping := stopping w; live_acceptors := live_acceptors w; active_sessions := active_sessions w;
     permits := permits w; accept_tasks := accept_tasks w; acceptors := acceptors w; sessions := sessions w; methods := methods w; setups := l |}.

Definition abort (w : serving) (pc : session_pc) : session_pc * serving :=
  (match pc with SessionSpawned => SessionPermit true | _ => SessionCount end, with_setups w (setups w ++ left_behind pc)).

Definition session_step (w : serving) (i : nat) (pc : session_pc) (m : session_move) : session_pc * serving :=
  match pc, m with
  | SessionCount, _ => (SessionPermit false, with_counts w (live_acceptors w) (atomic_add (active_sessions w) (-1)) (permits w))
  | SessionPermit lost, _ => (SessionDone lost, with_counts w (live_acceptors w) (active_sessions w) (permits w + 1))
  | SessionDone _, _ => (pc, w)
  | _, SessionAborted => if draining w i then abort w pc else (pc, w)
  | SessionSpawned, SessionGoOn => (SessionQueued, w)
  | SessionSpawned, SessionBroken => (SessionCount, w)
  | SessionQueued, SessionGoOn => (SessionPrepare (live_verifier (authorization w)), w)
  | SessionPrepare v, SessionAuthenticated s calls connected =>
      match classify (primary_credentials w) (gates w) calls v s with
      | Some p => (if connected then SessionRelay p v else SessionCount, w)
      | None => (SessionCount, w)
      end
  | SessionPrepare v, SessionBroken => (SessionCount, w)
  | SessionRelay Temporary v, SessionTick in_time calls =>
      (if in_time && session_available (primary_credentials w) (gates w) calls v then pc else SessionCount, w)
  | SessionRelay _ _, SessionRelayEnded => (SessionCount, w)
  | _, _ => (pc, w)
  end.

Definition setup_step (w : serving) (u : setup) (m : session_move) : setup :=
  match u, m with
  | SetupQueued, SessionGoOn => SetupRunning (live_verifier (authorization w))
  | SetupRunning v, SessionAuthenticated s calls connected =>
      match classify (primary_credentials w) (gates w) calls v s with
      | Some p => if connected then SetupConnected p else SetupOver
      | None => SetupOver
      end
  | SetupRunning _, SessionBroken => SetupOver
  | _, _ => u
  end.

(** *** Methods *)

Record outside := { mesh_stopped : bool; timed_out : bool; executor_gone : bool }.

Definition all_ended (w : serving) : bool := forallb (fun pc => match pc with AEnded => true | _ => false end) (acceptors w).

Definition returned (ret : option ProxyServingRuntimeError) (r : result ProxyServingRuntimeError unit) (mine : bool) : method_pc :=
  MReturned (match ret with Some e => Err e | None => r end) mine.

Definition method_step (w : serving) (pc : method_pc) (x : outside) : list notification * (method_pc * serving) :=
  match pc with
  | MPoll =>
      if is_healthy w || timed_out x || is_failed (owner_state w) then ([], (MCheck, w)) else ([], (MPoll, w))
  | MCheck =>
      ([], (if negb (stopping w) && negb (is_failed (owner_state w)) then MLive else MStopping (Some ThreadUnavailable), w))
  | MLive =>
      ([], (if live_acceptors w =? Z.of_nat (length canonical_listeners) then MMark else MStopping (Some ThreadUnavailable), w))
  | MMark =>
      let '(b, o) := owner_mark_running (owner_state w) in
      ([], (if b then MReturned (Ok tt) false else MStopping (Some ServingStateUnavailable), with_owner w o))
  | MStopping ret => ([], (MMesh ret, with_flags w (shutdown w) true (accept_tasks w)))
  | MMesh ret => ([], (MShutdown ret (mesh_stopped x), w))
  | MShutdown ret mesh_clean => ([], (MTake ret mesh_clean, send_shutdown w))
  | MTake ret mesh_clean => ([], (MJoin ret mesh_clean (accept_tasks w), with_flags w (shutdown w) (stopping w) false))
  | MJoin ret mesh_clean mine =>
      if executor_gone x then ([], (returned ret (Err ServingStateUnavailable) mine, w))
      else if negb mine || all_ended w then ([], (MActive ret mesh_clean true mine, w))
      else if timed_out x then ([], (MActive ret mesh_clean false mine, w))
      else ([], (pc, w))
  | MActive ret mesh_clean joined mine =>
      if negb mesh_clean || negb joined || negb (active_sessions w =? 0) then ([], (MPublish ret, w))
      else ([], (MMarkStopped ret mine, w))
  | MPublish ret =>
      let '(ns, o) := owner_publish_failure ShutdownFailed (owner_state w) in ([], (MSend ret ns, with_owner w o))
  | MSend ret ns => (ns, (returned ret (Err ServingShutdownTimedOut) false, send_shutdown w))
  | MMarkStopped ret mine => ([], (returned ret (Ok tt) mine, with_owner w (owner_mark_stopped (owner_state w))))
  | MReturned r mine => ([], (pc, w))
  end.

(** *** Events *)

Inductive serving_event :=
| EAcceptor (i : nat) (o : accepted)
| ESession (j : nat) (m : session_move)
| ESetup (u : nat) (m : session_move)
| EMethod (k : nat) (x : outside)
| EStop
| ESetTemporary (t : ProxyCredentialMaterial) (available : nat)
| EClearTemporary
| EObserve (o : nat).

Definition step (w : serving) (e : serving_event) : list notification * serving :=
  match e with
  | EAcceptor i o =>
      match acceptors w !! i with
      | None => ([], w)
      | Some pc =>
          let '(ns, (pc', w')) := accept_step w i pc o in
          (ns, with_tasks w' (<[i := pc']> (acceptors w')) (sessions w') (methods w'))
      end
  | ESession j m =>
      match sessions w !! j with
      | None => ([], w)
      | Some (i, pc) =>
          let '(pc', w') := session_step w i pc m in
          ([], with_tasks w' (acceptors w') (<[j := (i, pc')]> (sessions w')) (methods w'))
      end
  | ESetup u m =>
      match setups w !! u with
      | None => ([], w)
      | Some pc => ([], with_setups w (<[u := setup_step w pc m]> (setups w)))
      end
  | EMethod k x =>
      match methods w !! k with
      | None => ([], w)
      | Some pc =>
          let '(ns, (pc', w')) := method_step w pc x in
          (ns, with_tasks w' (acceptors w') (sessions w') (<[k := pc']> (methods w')))
      end
  | EStop => ([], with_tasks w (acceptors w) (sessions w) (methods w ++ [MStopping None]))
  | ESetTemporary t available =>
      ([], with_auth w (set_temporary_credential (primary_credentials w) t available (authorization w, gates w)).2)
  | EClearTemporary => ([], with_auth w (clear_temporary_credential (authorization w, gates w)))
  | EObserve o => let '(ns, s) := owner_set_observer o (owner_state w) in (ns, with_owner w s)
  end.

(** ** Start *)

Fixpoint bind_all (ls : list ProxyListener) (binds : ProxyListener -> bool) : result ProxyServingRuntimeError (list ProxyProtocol) :=
  match ls with
  | [] => Ok []
  | l :: ls =>
      if binds l then let? bound := bind_all ls binds in Ok (protocol l :: bound)
      else Err (ListenerUnavailable (protocol l))
  end.

(** One task per listener, as far as the conversion to a Tokio listener goes. *)
Fixpoint spawn_all (bound : list ProxyProtocol) (converts : ProxyProtocol -> bool) (w : serving)
    : result ProxyServingRuntimeError unit * serving :=
  match bound with
  | [] => (Ok tt, w)
  | p :: bound =>
      if converts p then spawn_all bound converts (with_tasks w (acceptors w ++ [AEnter]) (sessions w) (methods w))
      else (Err (ListenerUnavailable p), w)
  end.

Definition ip_is_loopback (a : IpAddr) : bool :=
  match a with IpV4 a => Z.shiftr a 24 =? 127 | IpV6 a => a =? 1 end.

(** The generation that is left running, with [start] waiting for it when it is
    going to be published. *)
Definition start (plan : ProxyServingPlan) (binds : ProxyListener -> bool) (executor : bool) (converts : ProxyProtocol -> bool)
    : result ProxyServingRuntimeError unit * serving :=
  let w := serving_new (plan_credentials plan) in
  if negb (ip_is_loopback (listen_address plan)) then (Err NonLoopbackListen, w)
  else
    match bind_all canonical_listeners binds with
    | Err e => (Err e, w)
    | Ok bound =>
        if negb executor then (Err ServingStateUnavailable, w)
        else
          match spawn_all bound converts w with
          | (Err e, w) => (Err e, w)
          | (Ok _, w) => (Ok tt, with_tasks w (acceptors w) (sessions w) (methods w ++ [MPoll]))
          end
    end.

(** ** Invariant *)

Definition acceptor_permit (pc : acceptor_pc) : Z := match pc with ACount | ASpawn => 1 | _ => 0 end.
Definition acceptor_counted (pc : acceptor_pc) : Z := match pc with ASpawn => 1 | _ => 0 end.
Definition acceptor_live (pc : acceptor_pc) : Z :=
  match pc with
  | ALoop | AAccept | AError | APermit | ACount | ASpawn | ADrain | ALeave | APublish true | ASend _ true => 1
  | _ => 0
  end.
Definition session_permit (s : nat * session_pc) : Z := match s.2 with SessionDone _ => 0 | _ => 1 end.
Definition session_counted (s : nat * session_pc) : Z :=
  match s.2 with SessionPermit false | SessionDone false => 0 | _ => 1 end.
Definition session_lost (s : nat * session_pc) : Z := match s.2 with SessionPermit true | SessionDone true => 1 | _ => 0 end.
(** A session of acceptor [i] that holds its permit or is lost. *)
Definition session_held (i : nat) (s : nat * session_pc) : Z :=
  if s.1 =b? i then match s.2 with SessionDone false => 0 | _ => 1 end else 0.

(** It has not begun to drain. *)
Definition open_acceptor (pc : acceptor_pc) : bool :=
  match pc with
  | AEnter | ALoop | AAccept | AError | APermit | ACount | ASpawn | APublish true | ASend _ true => true
  | _ => false
  end.

(** Its sessions are over. *)
Definition past_drain (pc : acceptor_pc) : bool :=
  match pc with
  | ALeave | ALeaveStopping | ALeaveFailed | APublish false | ASend _ false | AEnded => true
  | _ => false
  end.

Definition gate_of (v : verifier) : option nat := match v with OnlyPrimary => None | WithTemporary _ _ g => Some g end.
Definition verifier_of (pc : session_pc) : option verifier :=
  match pc with SessionPrepare v | SessionRelay _ v => Some v | _ => None end.

(** A stop that joined every acceptor. *)
Definition joined_all (pc : method_pc) : bool :=
  match pc with MActive _ _ true true | MMarkStopped _ true | MReturned (Ok _) true => true | _ => false end.

Record serving_ok (w : serving) : Prop := {
  so_permits : 0 <= permits w;
  so_budget : permits w + zsum acceptor_permit (acceptors w) + zsum session_permit (sessions w) = MAX_NATIVE_PROXY_SESSIONS;
  so_active : active_sessions w = zsum acceptor_counted (acceptors w) + zsum session_counted (sessions w);
  so_live : live_acceptors w = zsum acceptor_live (acceptors w);
  so_few : (length (acceptors w) <= 3)%nat;
  so_owner j i pc : sessions w !! j = Some (i, pc) -> (i < length (acceptors w))%nat;
  so_held i : zsum (session_held i) (sessions w) <= MAX_NATIVE_PROXY_SESSIONS;
  so_open i pc j spc : acceptors w !! i = Some pc -> open_acceptor pc = true -> sessions w !! j = Some (i, spc) ->
    session_lost (i, spc) = 0;
  so_drained i pc : acceptors w !! i = Some pc -> past_drain pc = true -> drained w i = true;
  so_joined k pc : methods w !! k = Some pc -> joined_all pc = true -> all_ended w = true }.

(** *** Counting *)

Lemma acceptor_live_range pc : 0 <= acceptor_live pc <= 1.
Proof. destruct pc as [| | | | | | | | | | |[]|? []|]; cbn; lia. Qed.

Lemma serving_live_le_length l : 0 <= zsum acceptor_live l <= Z.of_nat (length l).
Proof.
  induction l as [|pc l IH]; cbn [zsum length]; [lia|]. pose proof (acceptor_live_range pc). lia.
Qed.

Lemma permit_nonneg_a x : 0 <= acceptor_permit x. Proof. by destruct x. Qed.
Lemma permit_nonneg_s x : 0 <= session_permit x. Proof. by destruct x as [? []]. Qed.
Lemma counted_nonneg_a x : 0 <= acceptor_counted x. Proof. by destruct x. Qed.
Lemma counted_nonneg_s x : 0 <= session_counted x. Proof. by destruct x as [? [| | | | |[]|[]]]. Qed.
Lemma lost_nonneg x : 0 <= session_lost x. Proof. by destruct x as [? [| | | | |[]|[]]]. Qed.

Lemma held_range i s : 0 <= session_held i s <= 1.
Proof. unfold session_held. case_bool_decide; destruct s as [? [| | | | |[]|[]]]; cbn; lia. Qed.

Lemma lost_held i spc : session_lost (i, spc) <= session_held i (i, spc).
Proof. unfold session_held. rewrite bool_decide_true by done. destruct spc as [| | | | |[]|[]]; cbn; lia. Qed.

(** With nothing lost, what an acceptor holds is permits. *)
Lemma held_open i l :
  (forall j spc, l !! j = Some (i, spc) -> session_lost (i, spc) = 0) -> zsum (session_held i) l <= zsum session_permit l.
Proof.
  intros H. apply zsum_le. intros j [i' spc] Hj. unfold session_held. cbn. case_bool_decide as E; [subst i'|by destruct spc].
  specialize (H j spc Hj). destruct spc as [| | | | |[]|[]]; cbn in *; lia.
Qed.

Lemma lost_le_held w : serving_ok w -> zsum session_lost (sessions w) <= 3 * MAX_NATIVE_PROXY_SESSIONS.
Proof.
  intros Hw. pose proof (so_held w Hw 0%nat). pose proof (so_held w Hw 1%nat). pose proof (so_held w Hw 2%nat).
  assert (zsum session_lost (sessions w)
    <= zsum (fun s => session_held 0 s + (session_held 1 s + session_held 2 s)) (sessions w)) as Hle.
  { apply zsum_le. intros j [i spc] Hj. pose proof (so_owner w Hw j i spc Hj). pose proof (so_few w Hw).
    pose proof (held_range 0 (i, spc)). pose proof (held_range 1 (i, spc)). pose proof (held_range 2 (i, spc)).
    assert (i = 0%nat \/ i = 1%nat \/ i = 2%nat) as [ -> | [ -> | -> ] ] by lia;
      [pose proof (lost_held 0 spc)|pose proof (lost_held 1 spc)|pose proof (lost_held 2 spc)]; lia. }
  rewrite !zsum_plus in Hle. lia.
Qed.

Lemma counted_le_permit (w : serving) :
  zsum acceptor_counted (acceptors w) + zsum session_counted (sessions w)
  <= zsum acceptor_permit (acceptors w) + (zsum session_permit (sessions w) + zsum session_lost (sessions w)).
Proof.
  rewrite <- zsum_plus. apply Z.add_le_mono; apply zsum_le; intros _ [] _; cbn; try lia.
  match goal with p : session_pc |- _ => destruct p as [| | | | |[]|[]] end; cbn; lia.
Qed.

Lemma atomic_small n d : 0 <= n + d <= 5 * MAX_NATIVE_PROXY_SESSIONS -> atomic_add n d = n + d.
Proof. intros. apply atomic_exact. assert (5 * MAX_NATIVE_PROXY_SESSIONS <= usize_max) by done. lia. Qed.

(** The count never comes near the width of the atomic. *)
Lemma active_range w : serving_ok w -> 0 <= active_sessions w <= 4 * MAX_NATIVE_PROXY_SESSIONS.
Proof.
  intros Hw. rewrite (so_active w Hw). pose proof (so_budget w Hw). pose proof (so_permits w Hw).
  pose proof (counted_le_permit w). pose proof (lost_le_held w Hw).
  pose proof (zsum_nonneg _ (acceptors w) counted_nonneg_a). pose proof (zsum_nonneg _ (sessions w) counted_nonneg_s). lia.
Qed.

(** Ended acceptors stay ended. *)
Lemma serving_ended_lookup w i pc : acceptors w !! i = Some pc -> all_ended w = true -> pc = AEnded.
Proof. unfold all_ended. rewrite forallb_lookup. intros Hi H. specialize (H i pc Hi). by destruct pc. Qed.

Lemma serving_drained_spec w i :
  drained w i = true <-> forall j pc, sessions w !! j = Some (i, pc) -> session_ended pc = true.
Proof. apply children_over_spec. Qed.

(** Parts of the state that a step leaves alone. *)
Lemma frame_ok w w' :
  serving_ok w -> permits w' = permits w -> active_sessions w' = active_sessions w -> live_acceptors w' = live_acceptors w ->
  acceptors w' = acceptors w -> sessions w' = sessions w -> methods w' = methods w -> serving_ok w'.
Proof.
  intros [H1 H2 H3 H4 H5 H6 H7 H8 H9 H10] E1 E2 E3 E4 E5 E6.
  split; unfold drained, all_ended in *; rewrite ?E1, ?E2, ?E3, ?E4, ?E5, ?E6; done.
Qed.

(** *** Sessions *)

(** What a session's move may do. *)
Definition session_moves (i : nat) (pc pc' : session_pc) : Prop :=
  (session_ended pc = true -> session_ended pc' = true) /\
  session_held i (i, pc') <= session_held i (i, pc) /\
  (session_lost (i, pc) < session_lost (i, pc') -> pc = SessionSpawned).

Lemma session_moved_ok w j i pc pc' w' :
  serving_ok w -> sessions w !! j = Some (i, pc) ->
  acceptors w' = acceptors w -> sessions w' = sessions w -> methods w' = methods w -> live_acceptors w' = live_acceptors w ->
  permits w' = permits w + session_permit (i, pc) - session_permit (i, pc') ->
  active_sessions w' = active_sessions w - session_counted (i, pc) + session_counted (i, pc') ->
  0 <= permits w' -> session_moves i pc pc' ->
  (session_lost (i, pc) < session_lost (i, pc') -> draining w i = true) ->
  serving_ok (with_tasks w' (acceptors w') (<[j := (i, pc')]> (sessions w')) (methods w')).
Proof.
  intros [H1 H2 H3 H4 H5 H6 H7 H8 H9 H10] Hj E1 E2 E3 E4 E5 E6 Hp (Hd & Hheld & Hlost) Hdr.
  split; cbn -[drained all_ended]; rewrite ?E1, ?E2, ?E3, ?E4; try done.
  - rewrite (zsum_insert _ _ _ _ _ Hj). lia.
  - rewrite (zsum_insert _ _ _ _ _ Hj). lia.
  - intros j' i' p [(<- & [= <- <-] & _)|[Hne Hj']]%list_lookup_insert_Some; [by eapply H6|by eapply H6].
  - intros i'. rewrite (zsum_insert _ _ _ _ _ Hj). specialize (H7 i').
    assert (session_held i' (i, pc') <= session_held i' (i, pc)); [|lia].
    revert Hheld. unfold session_held. cbn. repeat case_bool_decide; done || lia.
  - intros i' p j' spc Hi Ho [(<- & [= <- <-] & _)|[Hne Hj']]%list_lookup_insert_Some; [|by eapply H8].
    pose proof (H8 i p j pc Hi Ho Hj). pose proof (lost_nonneg (i, pc')).
    destruct (decide (session_lost (i, pc) < session_lost (i, pc'))) as [Hl|]; [|lia].
    specialize (Hdr Hl). unfold draining in Hdr. rewrite Hi in Hdr. by destruct p.
  - intros i' p Hi Hpast. apply serving_drained_spec. cbn -[drained].
    pose proof (proj1 (serving_drained_spec _ _) (H9 i' p Hi Hpast)) as Hall.
    intros j' p' [(<- & [= <- <-] & _)|[Hne Hj']]%list_lookup_insert_Some; [by apply Hd, (Hall j)|by apply (Hall j')].
Qed.

Lemma session_event_ok w j m : serving_ok w -> serving_ok (step w (ESession j m)).2.
Proof.
  intros Hw. pose proof (so_permits w Hw). pose proof (active_range w Hw). cbn [step].
  destruct (sessions w !! j) as [[i pc]|] eqn:Hj; [|done].
  pose proof (zsum_lookup _ _ _ _ counted_nonneg_s Hj) as Hsc. pose proof (zsum_nonneg _ (acceptors w) counted_nonneg_a).
  pose proof (so_active w Hw) as Hact.
  destruct pc as [| |v|[] v| |lost|lost], m as [| |su calls conn|t calls| |]; cbn [session_step];
    try destruct (draining w i) eqn:Hdr; try (destruct (classify _ _ _ _ _); [destruct conn|]);
    try destruct (t && _); try destruct lost; cbn [abort snd];
    eapply (session_moved_ok _ _ _ _ _ _ Hw Hj); cbn in *; rewrite ?bool_decide_true; try done; try lia;
    unfold session_moves, session_held; cbn; rewrite ?bool_decide_true; repeat split; try done; try lia;
    rewrite atomic_small; lia.
Qed.

(** *** Acceptors *)

(** What an acceptor's move may do: it drains once, and is over only drained. *)
Definition acceptor_moves (drained : bool) (pc pc' : acceptor_pc) : Prop :=
  (open_acceptor pc' = true -> open_acceptor pc = true) /\
  (past_drain pc' = true -> past_drain pc = true \/ drained = true) /\ (pc = AEnded -> pc' = AEnded).

Lemma acceptor_moved_ok w i pc pc' w' new :
  serving_ok w -> acceptors w !! i = Some pc ->
  acceptors w' = acceptors w -> sessions w' = sessions w ++ new -> methods w' = methods w ->
  live_acceptors w' = live_acceptors w - acceptor_live pc + acceptor_live pc' ->
  permits w' + acceptor_permit pc' + zsum session_permit new = permits w + acceptor_permit pc ->
  active_sessions w' = active_sessions w - acceptor_counted pc + acceptor_counted pc' + zsum session_counted new ->
  0 <= permits w' -> acceptor_moves (drained w i) pc pc' ->
  new = [] \/ new = [(i, SessionSpawned)] /\ open_acceptor pc = true /\ past_drain pc' = false ->
  serving_ok (with_tasks w' (<[i := pc']> (acceptors w')) (sessions w') (methods w')).
Proof.
  intros Hw Hi E1 E2 E3 E4 E5 E6 Hp (Hopen & Hdr & Hae) Hnew. pose proof Hw as [H1 H2 H3 H4 H5 H6 H7 H8 H9 H10].
  pose proof (lookup_lt_Some _ _ _ Hi) as Hlt.
  assert (forall j spc i', (sessions w ++ new) !! j = Some (i', spc) ->
    sessions w !! j = Some (i', spc) \/ i' = i /\ spc = SessionSpawned /\ open_acceptor pc = true /\ past_drain pc' = false) as Hin.
  { intros j spc i' [Hj|[_ Hj]]%lookup_app_Some; [by left|right]. destruct Hnew as [->|(-> & Ho & Hp')]; [done|].
    apply list_elem_of_lookup_2, list_elem_of_singleton in Hj as [= -> ->]. done. }
  assert (forall j spc, (sessions w ++ new) !! j = Some (i, spc) -> open_acceptor pc = true -> session_lost (i, spc) = 0) as Hfresh.
  { intros j spc [Hj|(_ & -> & _)]%Hin Ho; [by eapply H8|done]. }
  pose proof (zsum_lookup _ _ _ _ permit_nonneg_a Hi) as Hap. pose proof (permit_nonneg_a pc').
  split; cbn -[drained all_ended]; rewrite ?E1, ?E2, ?E3, ?E4; rewrite ?length_insert; try done.
  - rewrite (zsum_insert _ _ _ _ _ Hi), zsum_app. lia.
  - rewrite (zsum_insert _ _ _ _ _ Hi), zsum_app. lia.
  - rewrite (zsum_insert _ _ _ _ _ Hi). lia.
  - intros j i' p [Hj|(-> & _)]%Hin; [by eapply H6|done].
  - intros i'. destruct Hnew as [->|(-> & Ho & _)]; [by rewrite app_nil_r|].
    destruct (decide (i' = i)) as [->|Hne].
    + pose proof (held_open i _ (fun j spc Hj => Hfresh j spc Hj Ho)) as Hle. rewrite !zsum_app in *. cbn in *. lia.
    + rewrite zsum_app. specialize (H7 i'). cbn. unfold session_held at 2. cbn. rewrite bool_decide_false by done. lia.
  - intros i' p j spc [(<- & <- & _)|[Hne Hi']]%list_lookup_insert_Some Ho Hj; [by eapply Hfresh; [|apply Hopen]|].
    destruct (Hin _ _ _ Hj) as [Hj'|(-> & _)]; [by eapply H8|done].
  - intros i' p Hi' Hpast. apply serving_drained_spec. cbn -[drained]. intros j spc Hj.
    apply list_lookup_insert_Some in Hi' as [(<- & <- & _)|[Hne Hi']]; destruct (Hin _ _ _ Hj) as [Hj'|(Ei & _ & _ & Hnp)];
      [| |eapply (proj1 (serving_drained_spec _ _) (H9 _ _ Hi' Hpast)); done|done]; [|congruence].
    destruct (Hdr Hpast) as [Hold|Hold]; [apply (H9 _ _ Hi) in Hold|]; by apply (proj1 (serving_drained_spec _ _) Hold j).
  - intros k p Hk Hjoin. pose proof (H10 k p Hk Hjoin) as He.
    unfold all_ended. cbn. pose proof (serving_ended_lookup _ _ _ Hi He) as ->. rewrite Hae by done.
    by rewrite list_insert_id.
Qed.

Ltac settle_acceptor :=
  cbn -[drained] in *; rewrite ?app_nil_r; try done; try lia; try (rewrite atomic_small; lia); try (repeat split; cbn; auto; done).

Lemma acceptor_event_ok w i o : serving_ok w -> serving_ok (step w (EAcceptor i o)).2.
Proof.
  intros Hw. pose proof (so_permits w Hw). pose proof (active_range w Hw). pose proof (so_live w Hw). pose proof (so_few w Hw).
  pose proof (serving_live_le_length (acceptors w)). cbn [step]. destruct (acceptors w !! i) as [pc|] eqn:Hi; [|done].
  pose proof (zsum_lookup _ _ _ _ (fun x => proj1 (acceptor_live_range x)) Hi) as Hl.
  assert (MAX_NATIVE_PROXY_SESSIONS = 513) as Hmax by done.
  destruct pc as [| | | | | | | | | | |dr|ns dr|]; cbn [accept_step];
    repeat case_match; cbn [snd]; simplify_eq; rewrite ?Z.ltb_lt in *.
  all: first [solve [eapply (acceptor_moved_ok _ _ _ _ _ [] Hw Hi); settle_acceptor; auto]
             |eapply (acceptor_moved_ok _ _ _ _ _ [(i, SessionSpawned)] Hw Hi); settle_acceptor; auto].
Qed.

(** *** Methods and the rest *)

Lemma serving_method_moved_ok w k pc pc' w' :
  serving_ok w -> methods w !! k = Some pc ->
  permits w' = permits w -> active_sessions w' = active_sessions w -> live_acceptors w' = live_acceptors w ->
  acceptors w' = acceptors w -> sessions w' = sessions w -> methods w' = methods w ->
  (joined_all pc' = true -> joined_all pc = true \/ all_ended w = true) ->
  serving_ok (with_tasks w' (acceptors w') (sessions w') (<[k := pc']> (methods w'))).
Proof.
  intros Hw Hk E1 E2 E3 E4 E5 E6 Hj. pose proof Hw as [H1 H2 H3 H4 H5 H6 H7 H8 H9 H10].
  split; unfold drained, all_ended in *; cbn; rewrite ?E1, ?E2, ?E3, ?E4, ?E5, ?E6; try done.
  intros k' p [(<- & <- & _)|[Hne Hk']]%list_lookup_insert_Some Hp; [|by eapply H10].
  destruct (Hj Hp) as [Hold|]; [by eapply H10|done].
Qed.

Lemma serving_method_event_ok w k x : serving_ok w -> serving_ok (step w (EMethod k x)).2.
Proof.
  intros Hw. cbn [step]. destruct (methods w !! k) as [pc|] eqn:Hk; [|done].
  destruct pc as [| | | |r|r|r mc|r mc|r mc mine|r mc jn mine|r|r ns|r mine|r mine]; cbn [method_step];
    try destruct (is_healthy w || _ || _); try destruct (negb (stopping w) && _); try destruct (live_acceptors w =? _);
    try (destruct (owner_mark_running _) as [[] ?]);
    try destruct (executor_gone x); try (destruct (negb mine || all_ended w) eqn:He); try destruct (timed_out x);
    try (destruct (negb mc || negb jn || _) eqn:Hb); try (destruct (owner_publish_failure _ _) as [ns ?]);
    eapply (serving_method_moved_ok _ _ _ _ _ Hw Hk); cbn -[all_ended]; try done;
    try (unfold returned; destruct r; cbn; done).
  all: unfold returned in *; try destruct mine; try destruct jn; try destruct r; cbn -[all_ended] in *; auto; try done.
  all: by rewrite orb_true_r in Hb.
Qed.

Lemma serving_step_ok w e : serving_ok w -> serving_ok (step w e).2.
Proof.
  intros Hw. destruct e as [i o|j m|u m|k x| |t a| |o].
  - by apply acceptor_event_ok.
  - by apply session_event_ok.
  - cbn [step]. destruct (setups w !! u); [|done]. by eapply frame_ok; [exact Hw|..].
  - by apply serving_method_event_ok.
  - destruct Hw as [H1 H2 H3 H4 H5 H6 H7 H8 H9 H10]. split; try done. cbn [step snd with_tasks methods].
    intros k p [Hk|[_ Hk]]%lookup_app_Some Hp; [by eapply H10|].
    apply list_elem_of_lookup_2, list_elem_of_singleton in Hk as ->. done.
  - by eapply frame_ok; [exact Hw|..].
  - by eapply frame_ok; [exact Hw|..].
  - cbn [step]. destruct (owner_set_observer _ _). by eapply frame_ok; [exact Hw|..].
Qed.

Definition run (w : serving) (es : list serving_event) : serving := fold_left (fun w e => (step w e).2) es w.

Lemma serving_run_ok w es : serving_ok w -> serving_ok (run w es).
Proof. revert w. induction es as [|e es IH]; intros w Hw; [done|]. by apply IH, serving_step_ok. Qed.

(** *** Start *)

Lemma spawn_all_shape bound converts w :
  exists l, (spawn_all bound converts w).2 = with_tasks w (acceptors w ++ l) (sessions w) (methods w) /\
    (length l <= length bound)%nat /\ Forall (fun pc => pc = AEnter) l.
Proof.
  revert w. induction bound as [|p bound IH]; intros w; cbn.
  - exists []. rewrite app_nil_r. by destruct w.
  - destruct (converts p); [|exists []; rewrite app_nil_r; destruct w; cbn; split; [done|split; [lia|done]]].
    destruct (IH (with_tasks w (acceptors w ++ [AEnter]) (sessions w) (methods w))) as (l & -> & Hl & Hall).
    exists (AEnter :: l). cbn. rewrite <- app_assoc. split; [done|]. split; [lia|by constructor].
Qed.

Lemma bind_all_length ls binds bound : bind_all ls binds = Ok bound -> length bound = length ls.
Proof.
  revert bound. induction ls as [|l ls IH]; intros bound; cbn; [by intros [= <-]|].
  destruct (binds l); [|done]. destruct (bind_all ls binds) as [b|]; [|done]. cbn. intros [= <-]. cbn. by rewrite (IH b).
Qed.

(** A generation with fresh acceptors and, when it is to be published, its [start]. *)
Lemma fresh_ok c l ms :
  (length l <= 3)%nat -> Forall (fun pc => pc = AEnter) l -> Forall (fun m => m = MPoll) ms ->
  serving_ok (with_tasks (serving_new c) l [] ms).
Proof.
  intros Hl Ha Hm. assert (forall i pc, l !! i = Some pc -> pc = AEnter) as Hpc.
  { intros i pc Hi. by eapply (proj1 (Forall_lookup _ _) Ha). }
  split; cbn -[drained all_ended]; try done.
  - rewrite zsum_zero; [done|]. apply Forall_lookup. intros i pc Hi. by rewrite (Hpc i pc Hi).
  - rewrite zsum_zero; [done|]. apply Forall_lookup. intros i pc Hi. by rewrite (Hpc i pc Hi).
  - rewrite zsum_zero; [done|]. apply Forall_lookup. intros i pc Hi. by rewrite (Hpc i pc Hi).
  - intros k pc Hk. by rewrite (proj1 (Forall_lookup _ _) Hm k pc Hk).
Qed.

Lemma serving_start_ok plan binds executor converts : serving_ok (start plan binds executor converts).2.
Proof.
  unfold start. set (w := serving_new _). assert (serving_ok w) as Hw by (by apply (fresh_ok _ [] []); [cbn; lia|..]).
  destruct (negb _); [done|]. destruct (bind_all _ _) as [bound|] eqn:Hb; [|done]. destruct (negb executor); [done|].
  apply bind_all_length in Hb. destruct (spawn_all_shape bound converts w) as (l & Hs & Hl & Hall).
  assert (length l <= 3)%nat as Hl3 by (rewrite Hb in Hl; exact Hl).
  destruct (spawn_all bound converts w) as [[u|e] w'] eqn:E; cbn in Hs; subst w'; cbn [snd].
  - apply (fresh_ok _ l [MPoll]); [done..|by repeat constructor].
  - by apply (fresh_ok _ l []).
Qed.

(** ** Budget *)

Definition live_sessions (w : serving) : list (nat * session_pc) := List.filter (fun s => negb (session_ended s.2)) (sessions w).

Lemma live_sessions_permits w : Z.of_nat (length (live_sessions w)) = zsum session_permit (sessions w).
Proof.
  unfold live_sessions. induction (sessions w) as [|[i pc] l IH]; [done|].
  destruct pc; cbn [List.filter session_ended negb snd length zsum]; unfold session_permit at 1; cbn [snd]; lia.
Qed.


(** ** Clean stop *)

(** What a step does to the methods. *)
Lemma step_methods w e :
  methods (step w e).2 =
  match e with
  | EMethod k x => match methods w !! k with Some pc => <[k := (method_step w pc x).2.1]> (methods w) | None => methods w end
  | EStop => methods w ++ [MStopping None]
  | _ => methods w
  end.
Proof.
  destruct e as [i o|j m|u m|k' x| |t a| |o]; cbn [step]; try done.
  - destruct (acceptors w !! i) as [a|]; [|done]. assert (methods (accept_step w i a o).2.2 = methods w) as Hm.
    { destruct a; cbn; repeat case_match; done. }
    by destruct (accept_step w i a o) as [ns [a' w']].
  - destruct (sessions w !! j) as [[i s]|]; [|done]. assert (methods (session_step w i s m).2 = methods w) as Hm.
    { destruct s, m; cbn; unfold abort; repeat case_match; done. }
    by destruct (session_step w i s m) as [s' w'].
  - by destruct (setups w !! u).
  - destruct (methods w !! k') as [a|]; [|done]. assert (methods (method_step w a x).2.2 = methods w) as Hm.
    { destruct a; cbn; repeat case_match; done. }
    destruct (method_step w a x) as [ns [a' w']]. cbn in *. by rewrite Hm.
  - by destruct (owner_set_observer _ _).
Qed.

Lemma returned_stays w k r mine es :
  methods w !! k = Some (MReturned r mine) -> methods (run w es) !! k = Some (MReturned r mine).
Proof.
  revert w. induction es as [|e es IH]; intros w Hk; [done|]. apply IH. rewrite step_methods. destruct e as [| | |k' x| | | |]; try done.
  - destruct (decide (k' = k)) as [->|Hne]; [rewrite Hk; cbn; by rewrite list_insert_id|].
    destruct (methods w !! k'); [|done]. by rewrite list_lookup_insert_ne.
  - by apply lookup_app_l_Some.
Qed.

(** Case analysis on an event: the task it belongs to, the place that task is at, and
    the branches of its code. *)
Ltac each_branch := cbn; unfold abort; repeat case_match; simplify_eq/=; try done.
Ltac each_step w e :=
  destruct e as [i o|j m|u m|k x| |t a| |o]; cbn [step]; try done;
  [destruct (acceptors w !! i) as [pc|] eqn:Hi; [|done]
  |destruct (sessions w !! j) as [[i pc]|] eqn:Hj; [|done]
  |by destruct (setups w !! u)
  |destruct (methods w !! k) as [pc|] eqn:Hk; [|done]; destruct pc; each_branch
  |by destruct (owner_set_observer _ _)].

(** Every session of a generation whose acceptors are over is over. *)
Lemma ended_sessions w j i pc : serving_ok w -> all_ended w = true -> sessions w !! j = Some (i, pc) -> session_ended pc = true.
Proof.
  intros Hw He Hj. destruct (lookup_lt_is_Some_2 _ _ (so_owner w Hw _ _ _ Hj)) as [a Hi].
  pose proof (serving_ended_lookup _ _ _ Hi He) as ->. by apply (proj1 (serving_drained_spec w i) (so_drained w Hw i _ Hi eq_refl) j).
Qed.

Lemma ended_frozen w e : serving_ok w -> all_ended w = true -> active_sessions (step w e).2 = active_sessions w.
Proof.
  intros Hw He. each_step w e.
  - by pose proof (serving_ended_lookup _ _ _ Hi He) as ->.
  - pose proof (ended_sessions w j i pc Hw He Hj). by destruct pc.
Qed.

Lemma ended_stays w e : all_ended w = true -> acceptors (step w e).2 = acceptors w.
Proof.
  intros He. each_step w e.
  - pose proof (serving_ended_lookup _ _ _ Hi He) as ->. cbn. by rewrite list_insert_id.
  - destruct pc, m; each_branch.
Qed.

(** A stop that found nothing counted after the join. *)
Definition cleared (pc : method_pc) : bool := match pc with MMarkStopped _ true | MReturned (Ok _) true => true | _ => false end.

Definition cleared_ok (w : serving) : Prop :=
  forall k pc, methods w !! k = Some pc -> cleared pc = true -> active_sessions w = 0.

Lemma cleared_joined pc : cleared pc = true -> joined_all pc = true.
Proof. by destruct pc. Qed.

Lemma method_cleared w pc x :
  cleared (method_step w pc x).2.1 = true -> cleared pc = true \/ (joined_all pc = true /\ active_sessions w = 0).
Proof.
  destruct pc as [| | | |r|r|r mc|r mc|r mc mine|r mc jn mine|r|r ns|r mine|r mine]; cbn -[is_healthy all_ended];
    repeat case_match; simplify_eq/=; try done; unfold returned; try destruct r; cbn; try done; auto.
  all: intros _; right; rewrite !orb_false_iff in *; destruct_and!; simplify_eq/=.
  all: split; [done|]; by apply Z.eqb_eq, negb_false_iff.
Qed.

Lemma method_origin w e k pc :
  methods (step w e).2 !! k = Some pc ->
  methods w !! k = Some pc \/ pc = MStopping None \/
  exists pc0 x, methods w !! k = Some pc0 /\ e = EMethod k x /\ pc = (method_step w pc0 x).2.1.
Proof.
  rewrite step_methods. destruct e as [| | |k' x| | | |]; try (by left).
  - destruct (methods w !! k') as [a|] eqn:Hk'; [|by left].
    intros [(<- & <- & _)|[_ Hk]]%list_lookup_insert_Some; [|by left]. right; right. by exists a, x.
  - intros [Hk|[_ Hk]]%lookup_app_Some; [by left|]. apply list_elem_of_lookup_2, list_elem_of_singleton in Hk. auto.
Qed.

Lemma cleared_step w e : serving_ok w -> cleared_ok w -> cleared_ok (step w e).2.
Proof.
  intros Hw Hc k pc Hk Hcl.
  assert ((joined_all pc = true /\ methods w !! k = Some pc) \/ exists pc0, methods w !! k = Some pc0 /\ joined_all pc0 = true) as Hj.
  { destruct (method_origin _ _ _ _ Hk) as [Hold|[->|(pc0 & x & Hold & -> & ->)]]; [left; by split; [apply cleared_joined|]|done|].
    right. exists pc0. split; [done|]. destruct (method_cleared _ _ _ Hcl) as [?|[? _]]; [by apply cleared_joined|done]. }
  assert (all_ended w = true) as He. { destruct Hj as [[? ?]|(? & ? & ?)]; by eapply so_joined. }
  rewrite ended_frozen by done.
  destruct (method_origin _ _ _ _ Hk) as [Hold|[->|(pc0 & x & Hold & -> & ->)]]; [by eapply Hc|done|].
  destruct (method_cleared _ _ _ Hcl) as [?|[_ ?]]; [by eapply Hc|done].
Qed.

Lemma run_cleared w es : serving_ok w -> cleared_ok w -> cleared_ok (run w es).
Proof. revert w. induction es as [|e es IH]; intros w Hw Hc; [done|]. apply IH; [by apply serving_step_ok|by apply cleared_step]. Qed.

Lemma start_cleared plan binds executor converts : cleared_ok (start plan binds executor converts).2.
Proof.
  intros k pc Hk _. revert Hk. unfold start. repeat case_match; try done.
  all: match goal with H : spawn_all ?b ?c ?w = _ |- _ => destruct (spawn_all_shape b c w) as (l & Hs & _); rewrite H in Hs end.
  all: cbn in Hs; subst; done.
Qed.

(** A stop that answers Ok after joining the acceptors has ended the generation for
    good: whatever happens afterwards, every acceptor task and every session task of
    the generation has ended, every permit is back and both counters are at rest. *)
Theorem clean_stop_is_final plan binds executor converts es k es' :
  methods (run (start plan binds executor converts).2 es) !! k = Some (MReturned (Ok tt) true) ->
  let w := run (run (start plan binds executor converts).2 es) es' in
  Forall (fun pc => pc = AEnded) (acceptors w) /\ live_sessions w = [] /\
  permits w = MAX_NATIVE_PROXY_SESSIONS /\ live_acceptors w = 0 /\ active_sessions w = 0.
Proof.
  intros Hk w. assert (serving_ok w) as Hw by (do 2 apply serving_run_ok; apply serving_start_ok).
  apply (returned_stays _ _ _ _ es') in Hk. pose proof (so_joined w Hw k _ Hk eq_refl) as He.
  assert (active_sessions w = 0) as ->.
  { refine (run_cleared _ es' _ _ k _ Hk eq_refl); [apply serving_run_ok, serving_start_ok|]. apply run_cleared; [apply serving_start_ok|apply start_cleared]. }
  assert (forall i pc, acceptors w !! i = Some pc -> pc = AEnded) as Ha.
  { intros i pc Hi. by apply (serving_ended_lookup _ _ _ Hi He). }
  assert (forall f : acceptor_pc -> Z, f AEnded = 0 -> zsum f (acceptors w) = 0) as Hz.
  { intros f Hf. apply zsum_zero, Forall_lookup. intros i pc Hi. by rewrite (Ha i pc Hi). }
  assert (zsum session_permit (sessions w) = 0) as Hp.
  { apply zsum_zero, Forall_lookup. intros j [i pc] Hj. pose proof (ended_sessions w j i pc Hw He Hj). by destruct pc. }
  split; [by apply Forall_lookup|]. split.
  { apply nil_length_inv. pose proof (live_sessions_permits w). lia. }
  pose proof (so_budget w Hw). rewrite (so_live w Hw). rewrite !Hz in * by done. lia.
Qed.

(** *** Concrete runs *)

Definition sample_material (user pass : string) : ProxyCredentialMaterial := {| username := lit user; password := lit pass |}.

Definition sample_plan : ProxyServingPlan :=
  {| listen_address := IpV4 2130706433; plan_credentials := sample_material "owner" "owner-secret" |}.

Definition served : serving := (start sample_plan (fun _ => true) true (fun _ => true)).2.

Definition calm : outside := {| mesh_stopped := true; timed_out := false; executor_gone := false |}.

(** Every acceptor counted and [start] returned. *)
Definition up : list serving_event :=
  [EAcceptor 0 AcceptTimeout; EAcceptor 1 AcceptTimeout; EAcceptor 2 AcceptTimeout; EMethod 0 calm; EMethod 0 calm; EMethod 0 calm; EMethod 0 calm].

(** A client of the first listener, as far as its task being spawned. *)
Definition client : list serving_event := [EAcceptor 0 AcceptTimeout] ++ replicate 4 (EAcceptor 0 AcceptClient).

(** A stop, method 1, as far as its wait for the acceptors. *)
Definition stop_to_join : list serving_event := EStop :: replicate 4 (EMethod 1 calm).

Definition acceptor_down (i : nat) : list serving_event := replicate 4 (EAcceptor i AcceptTimeout).

Lemma clean_stop_is_final_witness :
  let es := up ++ client ++ [ESession 0 SessionGoOn; ESession 0 SessionGoOn; ESession 0 SessionBroken; ESession 0 SessionGoOn; ESession 0 SessionGoOn]
            ++ stop_to_join ++ acceptor_down 0 ++ acceptor_down 1 ++ acceptor_down 2 ++ replicate 3 (EMethod 1 calm) in
  length (sessions (run served es)) = 1%nat /\ active_sessions (run (run served es) []) = 0.
Proof.
  intros es. split; [vm_compute; reflexivity|].
  eapply (clean_stop_is_final sample_plan (fun _ => true) true (fun _ => true) es 1 []). vm_compute. reflexivity.
Defined.

(** A stop cancels a session that was spawned but never polled: its count guard does
    not exist yet, so the count is never taken back.  The generation is completely
    drained, and yet this stop and every later one reports a timed-out shutdown. *)
Theorem unpolled_session_fails_stop :
  let w := run served (up ++ client ++ stop_to_join ++ [EAcceptor 0 AcceptTimeout; ESession 0 SessionAborted; ESession 0 SessionGoOn]
                       ++ replicate 3 (EAcceptor 0 AcceptTimeout) ++ acceptor_down 1 ++ acceptor_down 2 ++ replicate 4 (EMethod 1 calm)) in
  methods w !! 1%nat = Some (MReturned (Err ServingShutdownTimedOut) false) /\
  serving_failure (lifecycle (owner_state w)) = Some ShutdownFailed /\
  all_ended w = true /\ live_sessions w = [] /\ permits w = MAX_NATIVE_PROXY_SESSIONS /\
  forall es, active_sessions (run w es) = 1.
Proof.
  intros w. repeat (split; [vm_compute; reflexivity|]). intros es.
  assert (serving_ok w) as Hw by apply serving_run_ok, serving_start_ok. assert (all_ended w = true) as He by (vm_compute; reflexivity).
  assert (active_sessions w = 1) as <- by (vm_compute; reflexivity). clearbody w.
  revert w Hw He. induction es as [|e es IH]; intros w Hw He; [done|]. change (run w (e :: es)) with (run (step w e).2 es). rewrite IH.
  - by apply ended_frozen.
  - by apply serving_step_ok.
  - unfold all_ended. by rewrite (ended_stays w e He).
Qed.

(** The blocking set-up of a session is not cancelled with it: after a stop that
    answered Ok and found nothing left, a set-up that was under way still
    authenticates its client and opens the outbound connection. *)
Theorem setup_outlives_clean_stop :
  let w := run served (up ++ client ++ [ESession 0 SessionGoOn; ESession 0 SessionGoOn] ++ stop_to_join
                       ++ [EAcceptor 0 AcceptTimeout; ESession 0 SessionAborted; ESession 0 SessionGoOn; ESession 0 SessionGoOn]
                       ++ replicate 3 (EAcceptor 0 AcceptTimeout) ++ acceptor_down 1 ++ acceptor_down 2 ++ replicate 3 (EMethod 1 calm)) in
  methods w !! 1%nat = Some (MReturned (Ok tt) true) /\ setups w = [SetupRunning OnlyPrimary] /\
  setups (step w (ESetup 0 (SessionAuthenticated (SuppliedPair (lit "owner") (lit "owner-secret")) (fun _ => false) true))).2
  = [SetupConnected Primary].
Proof. repeat (split; [vm_compute; reflexivity|]). vm_compute. reflexivity. Qed.

(** A start that cannot convert its last listener reports the failure, but the
    acceptors it already spawned go on, unowned: they take clients and relay for
    them, and no handle is left that could stop them. *)
Theorem failed_start_leaves_acceptors :
  let s := start sample_plan (fun _ => true) true (fun p => negb (p =b? Http)) in
  let w := run s.2 ([EAcceptor 0 AcceptTimeout; EAcceptor 0 AcceptTimeout] ++ replicate 4 (EAcceptor 0 AcceptClient)
                    ++ [ESession 0 SessionGoOn; ESession 0 SessionGoOn;
                        ESession 0 (SessionAuthenticated (SuppliedPair (lit "owner") (lit "owner-secret")) (fun _ => false) true)]) in
  s.1 = Err (ListenerUnavailable Http) /\ methods w = [] /\ shutdown w = false /\
  acceptors w = [ALoop; AEnter] /\ sessions w = [(0%nat, SessionRelay Primary OnlyPrimary)].
Proof. repeat (split; [vm_compute; reflexivity|]). vm_compute. reflexivity. Qed.

(** ** Revocation *)

(** The first [n] gates are shut for good. *)
Definition shut (n : nat) (w : serving) : Prop :=
  (forall g, (g < n)%nat -> gates w !! g = Some false) /\
  (forall g, temporary_generation_gate (authorization w) = Some g -> (n <= g)%nat).

(** At most the gate in force is open, and every verifier in use has its gate in the store. *)
Record gates_ok (w : serving) : Prop := {
  go_open g : gates w !! g = Some true -> temporary_generation_gate (authorization w) = Some g;
  go_live g : gate_of (live_verifier (authorization w)) = Some g -> (g < length (gates w))%nat;
  go_session j i pc v g : sessions w !! j = Some (i, pc) -> verifier_of pc = Some v -> gate_of v = Some g -> (g < length (gates w))%nat }.

(** Steps other than the two methods leave the credentials alone. *)
Definition same_credentials (w w' : serving) : Prop :=
  authorization w' = authorization w /\ gates w' = gates w /\ primary_credentials w' = primary_credentials w.

Lemma step_credentials w e :
  match e with ESetTemporary _ _ | EClearTemporary => False | _ => True end -> same_credentials w (step w e).2.
Proof. intros He. each_step w e; [destruct pc|destruct pc, m]; each_branch. Qed.

(** Where a session's verifier comes from. *)
Lemma session_verifier w i pc m v :
  verifier_of (session_step w i pc m).1 = Some v -> verifier_of pc = Some v \/ pc = SessionQueued /\ v = live_verifier (authorization w).
Proof.
  destruct pc as [| |v'|[] v'| | |], m; cbn; unfold abort; repeat case_match; simplify_eq/=; auto; intros [= <-]; auto.
Qed.

Lemma step_sessions w e j i pc :
  sessions (step w e).2 !! j = Some (i, pc) ->
  sessions w !! j = Some (i, pc) \/ (sessions w !! j = None /\ pc = SessionSpawned) \/
  exists pc0 m, e = ESession j m /\ sessions w !! j = Some (i, pc0) /\ pc = (session_step w i pc0 m).1.
Proof.
  destruct e as [i' o|j' m|u m|k x| |t a| |o]; cbn [step]; try (by left).
  - destruct (acceptors w !! i') as [a|]; [|by left].
    assert (sessions (accept_step w i' a o).2.2 = sessions w \/ sessions (accept_step w i' a o).2.2 = sessions w ++ [(i', SessionSpawned)]) as Hs.
    { destruct a; cbn; repeat case_match; auto. }
    destruct (accept_step w i' a o) as [ns [a' w']]. cbn in *. destruct Hs as [-> | ->]; [by left|].
    intros [Hj|[Hlen Hj]]%lookup_app_Some; [by left|]. apply list_elem_of_lookup_2, list_elem_of_singleton in Hj as [= -> ->].
    right; left. split; [|done]. by apply lookup_ge_None.
  - destruct (sessions w !! j') as [[i0 s]|] eqn:Hj'; [|by left]. assert (sessions (session_step w i0 s m).2 = sessions w) as Hs.
    { destruct s, m; cbn; unfold abort; repeat case_match; done. }
    destruct (session_step w i0 s m) as [s' w'] eqn:E. cbn in *. rewrite Hs.
    intros [(<- & [= <- <-] & _)|[_ Hj]]%list_lookup_insert_Some; [|by left]. right; right. exists s, m. by rewrite E.
  - destruct (setups w !! u); by left.
  - destruct (methods w !! k) as [a|]; [|by left]. assert (sessions (method_step w a x).2.2 = sessions w) as Hs.
    { destruct a; cbn; repeat case_match; done. }
    destruct (method_step w a x) as [ns [a' w']]. cbn in *. rewrite Hs. by left.
  - destruct (owner_set_observer _ _). by left.
Qed.

Lemma sessions_grow w e : (length (sessions w) <= length (sessions (step w e).2))%nat.
Proof. each_step w e; [destruct pc|destruct pc, m]; each_branch; rewrite ?length_app, ?length_insert; lia. Qed.

Definition revokes (w : serving) (e : serving_event) : bool :=
  match e with
  | EClearTemporary => true
  | ESetTemporary t _ => is_ok (with_temporary (primary_credentials w) t true)
  | _ => false
  end.

(** The credentials after a revocation: the old gate shut, and perhaps a new one. *)
Lemma revoked_credentials w e :
  revokes w e = true ->
  exists extra, gates (step w e).2 = shut_gate (temporary_generation_gate (authorization w)) (gates w) ++ extra /\
    gate_of (live_verifier (authorization (step w e).2)) = temporary_generation_gate (authorization (step w e).2) /\
    (extra = [] /\ temporary_generation_gate (authorization (step w e).2) = None \/
     extra = [true] /\ temporary_generation_gate (authorization (step w e).2) = Some (length (gates w))).
Proof.
  destruct e as [| | | | |t a| |]; try done; cbn -[with_temporary].
  - destruct (with_temporary _ _ _); [|done]. intros _. exists [true]. auto.
  - intros _. exists []. rewrite app_nil_r. auto.
Qed.

Lemma unrevoked_credentials w e : revokes w e = false -> same_credentials w (step w e).2.
Proof.
  destruct e as [| | | | |t a| |]; intros He; [by apply step_credentials..| |done|by apply step_credentials].
  cbn -[with_temporary] in *. by destruct (with_temporary _ _ _).
Qed.

Lemma shut_gate_length o gs : length (shut_gate o gs) = length gs.
Proof. destruct o; cbn; [apply length_insert|done]. Qed.

Lemma shut_gate_false o gs g : gs !! g = Some false -> shut_gate o gs !! g = Some false.
Proof.
  destruct o as [g'|]; [|done]. cbn. intros Hg. destruct (decide (g' = g)) as [->|Hne]; [|by rewrite list_lookup_insert_ne].
  apply list_lookup_insert_eq. by eapply lookup_lt_Some.
Qed.

Lemma shut_gate_true o gs g : shut_gate o gs !! g = Some true -> gs !! g = Some true /\ o <> Some g.
Proof.
  destruct o as [g'|]; [|done]. cbn. intros [(_ & ? & _)|[Hne Hg]]%list_lookup_insert_Some; [done|]. split; [done|congruence].
Qed.

Lemma gates_step w e : gates_ok w -> gates_ok (step w e).2.
Proof.
  intros [H1 H2 H3]. destruct (revokes w e) eqn:Hr.
  - assert (sessions (step w e).2 = sessions w) as Es by (by destruct e).
    destruct (revoked_credentials w e Hr) as (extra & Hg & Hv & Hx).
    assert (length (gates (step w e).2) = (length (gates w) + length extra)%nat) as Hlen by (by rewrite Hg, length_app, shut_gate_length).
    split.
    + intros g. rewrite Hg. intros [[Ho Hn]%shut_gate_true|[Hle Ho]]%lookup_app_Some; [by apply H1 in Ho|].
      rewrite shut_gate_length in *. destruct Hx as [[-> _]|[-> ->]]; [done|]. apply lookup_lt_Some in Ho. cbn in Ho. f_equal. lia.
    + intros g. rewrite Hv. destruct Hx as [[-> ->]|[-> ->]]; [done|]. intros [= <-]. rewrite Hlen. cbn. lia.
    + intros j i pc v g. rewrite Es. intros Hj Hpc Hgv. specialize (H3 j i pc v g Hj Hpc Hgv). lia.
  - destruct (unrevoked_credentials w e Hr) as (Ea & Eg & _). split; rewrite ?Ea, ?Eg; try done.
    intros j i pc v g Hj Hpc Hgv. destruct (step_sessions _ _ _ _ _ Hj) as [Hold|[[_ ->]|(pc0 & m & -> & Hold & ->)]]; [by eapply H3|done|].
    destruct (session_verifier _ _ _ _ _ Hpc) as [Hv|[_ ->]]; [by eapply H3|by apply H2].
Qed.

Lemma gates_run w es : gates_ok w -> gates_ok (run w es).
Proof. revert w. induction es as [|e es IH]; intros w Hw; [done|]. by apply IH, gates_step. Qed.

Lemma gates_start plan binds executor converts : gates_ok (start plan binds executor converts).2.
Proof.
  assert (forall c l ms, gates_ok (with_tasks (serving_new c) l [] ms)) as Hf by (intros; by split).
  unfold start. set (w := serving_new _). assert (gates_ok w) as Hw by apply (Hf _ [] []).
  repeat case_match; try done; match goal with H : spawn_all ?b ?c w = _ |- _ =>
    destruct (spawn_all_shape b c w) as (l & Hs & _); rewrite H in Hs; cbn in Hs; subst; cbn end; by apply Hf.
Qed.

(** A revocation shuts every gate there is. *)
Lemma revocation_shuts w e : gates_ok w -> revokes w e = true -> shut (length (gates w)) (step w e).2.
Proof.
  intros [H1 H2 H3] Hr. destruct (revoked_credentials w e Hr) as (extra & Hg & _ & Hx). split.
  - intros g Hlt. rewrite Hg, lookup_app_l by (by rewrite shut_gate_length).
    destruct (lookup_lt_is_Some_2 (gates w) g Hlt) as [[] Hb]; [|by apply shut_gate_false].
    rewrite (H1 g Hb). cbn. by apply list_lookup_insert_eq.
  - intros g. destruct Hx as [[_ ->]|[_ ->]]; [done|]. by intros [= <-].
Qed.

Lemma shut_step n w e : (n <= length (gates w))%nat -> shut n w -> shut n (step w e).2 /\ (n <= length (gates (step w e).2))%nat.
Proof.
  intros Hn [H1 H2]. destruct (revokes w e) eqn:Hr.
  - destruct (revoked_credentials w e Hr) as (extra & Hg & _ & Hx). split; [split|].
    + intros g Hlt. rewrite Hg, lookup_app_l by (rewrite shut_gate_length; lia). by apply shut_gate_false, H1.
    + intros g. destruct Hx as [[_ ->]|[_ ->]]; [done|]. intros [= <-]. done.
    + rewrite Hg, length_app, shut_gate_length. lia.
  - destruct (unrevoked_credentials w e Hr) as (Ea & Eg & _). unfold shut. by rewrite Ea, Eg.
Qed.

Lemma shut_run n w es : (n <= length (gates w))%nat -> shut n w -> shut n (run w es).
Proof.
  revert w. induction es as [|e es IH]; intros w Hn Hs; [done|]. destruct (shut_step n w e Hn Hs). by apply IH.
Qed.

(** Behind a shut gate a verifier knows the primary credentials only. *)
Lemma shut_verifier n w v calls :
  shut n w -> (forall g, gate_of v = Some g -> (g < n)%nat) ->
  (forall s, classify (primary_credentials w) (gates w) calls v s <> Some Temporary) /\
  session_available (primary_credentials w) (gates w) calls v = false.
Proof.
  intros [Hs _] Hv. destruct v as [|t a g]; [split; [|done]; intros []; cbn; unfold default_classify; by case_match|].
  assert (admission_temporary_session_available (admission_now (primary_credentials w) (gates w) calls t a g) = false) as Ha.
  { unfold admission_temporary_session_available, callback, admission_now. cbn. by rewrite (Hs g (Hv g eq_refl)). }
  split; [|exact Ha]. intros []; cbn; unfold admission_classify_http_basic, admission_classify_username_password; rewrite Ha, andb_false_r;
    by case_match.
Qed.

(** A session that has its verifier keeps it to its end. *)
Lemma verifier_kept w j i pc v es pc' v' :
  sessions w !! j = Some (i, pc) -> verifier_of pc = Some v \/ (forall u, verifier_of pc <> Some u) /\ pc <> SessionQueued /\ pc <> SessionSpawned ->
  sessions (run w es) !! j = Some (i, pc') -> verifier_of pc' = Some v' -> verifier_of pc = Some v /\ v' = v.
Proof.
  revert w pc. induction es as [|e es IH]; intros w pc Hj Hpc.
  { cbn. intros Hj' Hv'. rewrite Hj in Hj'. injection Hj' as <-. destruct Hpc as [Hpc|[Hpc _]]; [|by apply Hpc in Hv'].
    rewrite Hpc in *. by injection Hv'. }
  intros Hj' Hv'. assert (exists pc1, sessions (step w e).2 !! j = Some (i, pc1) /\ (verifier_of pc1 = Some v -> verifier_of pc = Some v) /\
    (verifier_of pc1 = Some v \/ (forall u, verifier_of pc1 <> Some u) /\ pc1 <> SessionQueued /\ pc1 <> SessionSpawned)) as (pc1 & Hj1 & Hback & Hpc1).
  { destruct (sessions (step w e).2 !! j) as [[i1 pc1]|] eqn:Hj1.
    - destruct (step_sessions _ _ _ _ _ Hj1) as [Hold|[[Hnone _]|(pc0 & m & -> & Hold & ->)]]; [| by rewrite Hj in Hnone|];
        rewrite Hj in Hold; injection Hold as <- <-; (eexists; split; [reflexivity|]); [done|].
      destruct Hpc as [Hpc|(Hpc & Hq & Hsp)]; destruct pc as [| |u|[] u| | |], m; cbn in *; unfold abort; repeat case_match; simplify_eq/=; auto;
        try (by destruct (Hpc _ eq_refl)); split; try done; right; done.
    - exfalso. assert (is_Some (sessions (step w e).2 !! j)) as [? ?]; [|congruence]. apply lookup_lt_is_Some_2.
      apply lookup_lt_Some in Hj. pose proof (sessions_grow w e). lia. }
  destruct (IH _ _ Hj1 Hpc1 Hj' Hv') as [? ->]. auto.
Qed.

(** C31: Replacing or clearing the temporary credentials revokes them for good, even for
    a session that took its verifier before: whatever happens afterwards and whatever
    the callback answers, such a verifier never again classifies a client as the
    temporary principal, and a relay admitted on it ends at its next recheck. *)
Theorem revocation_is_final plan binds executor converts es e es' j i pc v :
  let w := run (start plan binds executor converts).2 es in
  revokes w e = true -> sessions w !! j = Some (i, pc) -> verifier_of pc = Some v ->
  let w' := run (step w e).2 es' in
  (forall s calls, classify (primary_credentials w') (gates w') calls v s <> Some Temporary) /\
  (forall in_time calls u, sessions w' !! j = Some (i, SessionRelay Temporary u) ->
     sessions (step w' (ESession j (SessionTick in_time calls))).2 !! j = Some (i, SessionCount)).
Proof.
  intros w Hr Hj Hv w'. assert (gates_ok w) as Hw by apply gates_run, gates_start.
  assert (shut (length (gates w)) w') as Hs.
  { apply shut_run; [|by apply revocation_shuts]. destruct (revoked_credentials w e Hr) as (? & -> & _).
    rewrite length_app, shut_gate_length. lia. }
  assert (forall g, gate_of v = Some g -> (g < length (gates w))%nat) as Hg by (intros g; by eapply go_session).
  split; [intros s calls; by apply (shut_verifier (length (gates w)))|]. intros in_time calls u Hj'.
  assert (sessions (step w e).2 !! j = Some (i, pc)) as Hj1 by (by destruct e).
  destruct (verifier_kept _ _ _ _ v _ _ u Hj1 (or_introl Hv) Hj' eq_refl) as [_ ->].
  destruct (shut_verifier _ _ v calls Hs Hg) as [_ Ha].
  cbn [step]. rewrite Hj'. cbn [session_step]. rewrite Ha, andb_false_r. cbn. apply list_lookup_insert_eq. by eapply lookup_lt_Some.
Qed.

Lemma revocation_is_final_witness :
  let guest := sample_material "guest" "guest-secret" in
  let login := SessionAuthenticated (SuppliedPair (lit "guest") (lit "guest-secret")) (fun _ => true) true in
  let w := run served (up ++ [ESetTemporary guest 7] ++ client ++ [ESession 0 SessionGoOn; ESession 0 SessionGoOn; ESession 0 login]) in
  let w' := run (step w EClearTemporary).2 [] in
  sessions w !! 0%nat = Some (0%nat, SessionRelay Temporary (WithTemporary guest 7 0)) /\
  sessions (step w (ESession 0 (SessionTick true (fun _ => true)))).2 !! 0%nat = Some (0%nat, SessionRelay Temporary (WithTemporary guest 7 0)) /\
  sessions (step w' (ESession 0 (SessionTick true (fun _ => true)))).2 !! 0%nat = Some (0%nat, SessionCount).
Proof.
  intros guest login w w'. split; [vm_compute; reflexivity|]. split; [vm_compute; reflexivity|].
  apply (revocation_is_final sample_plan (fun _ => true) true (fun _ => true)
    (up ++ [ESetTemporary guest 7] ++ client ++ [ESession 0 SessionGoOn; ESession 0 SessionGoOn; ESession 0 login])
    EClearTemporary [] 0 0 (SessionRelay Temporary (WithTemporary guest 7 0)) (WithTemporary guest 7 0))
    with (u := WithTemporary guest 7 0); vm_compute; reflexivity.
Defined.
