(* ===== verification/ServingComposition.v ===== *)
(** * The serving runtime and its mesh ingress together

    [MeshIngressExecutor for ProxyServingRuntime] of
    [src/crates/runtime/src/proxy_runtime.rs]: the proxy serving runtime executes the
    mesh ingress, [start_ingress] looks at its health first, and [stop_internal] takes
    the ingress down before the acceptors.

    [ProxyServing] and [MeshServing] run side by side here, access by access.  One
    [start_ingress] call is followed, with the generation it makes; starts are made
    under the transport coordinator's lock, while a stop of the runtime is not, so that
    any number of stops runs beside it. *)

From Stdlib Require Import String.
From S2P Require Import Prelude Net RustStr ProxyAuth Lifecycle Transport Configuration Pools ProxyCoordinator ProxyServing MeshServing.

(** ** Calls *)

Inductive start_call :=
| SHealth                                   (* [is_healthy]: not stopping, not failed *)
| SLive                                     (* and every acceptor counted *)
| SHandle                                   (* the executor's handle *)
| SBegin                                    (* bind and spawn *)
| SRunning                                  (* [MeshExecutionOwner::start] goes on *)
| SAnswered (r : result MeshIngressError unit).

Inductive stop_call :=
| PLook                                     (* [is_running] *)
| PHandle
| PStopping (m : nat)                       (* the stop of the execution owner *)
| PAnswered (r : result MeshIngressError unit).

(** A stop call of a stop of the runtime carries the number of that method. *)
Record together := {
  proxy : ProxyServing.serving;
  starting : start_call;
  mesh : option ingress;
  stops : list (option nat * stop_call) }.

Definition together_new (w : ProxyServing.serving) : together := {| proxy := w; starting := SHealth; mesh := None; stops := [] |}.

Definition with_proxy (w : together) (p : ProxyServing.serving) : together :=
  {| proxy := p; starting := starting w; mesh := mesh w; stops := stops w |}.

Definition with_start (w : together) (s : start_call) (m : option ingress) : together :=
  {| proxy := proxy w; starting := s; mesh := m; stops := stops w |}.

Definition with_stops (w : together) (m : option ingress) (l : list (option nat * stop_call)) : together :=
  {| proxy := proxy w; starting := starting w; mesh := m; stops := l |}.

(** What the platform answers. *)
Record platform := { executor_there : bool; binds : MeshPortForward -> bound; converts : MeshPortForward -> bool }.

Section calls.
Context (endpoint : Ipv4Addr) (mappings : list MeshPortForward).

Definition start_ingress (w : together) (x : platform) : together :=
  let p := proxy w in
  let refused := with_start w (SAnswered (Err ExecutorUnavailable)) (mesh w) in
  match starting w with
  | SHealth => if negb (ProxyServing.stopping p) && negb (ProxyServing.is_failed (ProxyServing.owner_state p)) then with_start w SLive (mesh w) else refused
  | SLive => if ProxyServing.live_acceptors p =? Z.of_nat (length canonical_listeners) then with_start w SHandle (mesh w) else refused
  | SHandle => if executor_there x then with_start w SBegin (mesh w) else refused
  | SBegin =>
      match MeshServing.start endpoint mappings false (binds x) (converts x) product_generation with
      | Ok g => with_start w SRunning (Some g)
      | Err e => with_start w (SAnswered (Err e)) (mesh w)
      end
  | SRunning =>
      match mesh w with
      | Some g => match MeshServing.methods g !! 0%nat with Some (OReturned r _) => with_start w (SAnswered r) (mesh w) | _ => w end
      | None => w
      end
  | SAnswered _ => w
  end.

Definition is_running (m : option ingress) : bool := match m with Some g => in_slot g | None => false end.

(** [stop_ingress]; the stop of the owner is one of its methods. *)
Definition stop_ingress (m : option ingress) (c : stop_call) (there : bool) : stop_call * option ingress :=
  match c with
  | PLook => (if is_running m then PHandle else PAnswered (Ok tt), m)
  | PHandle =>
      match m with
      | Some g => if there then (PStopping (length (MeshServing.methods g)), Some (MeshServing.step g MeshServing.EStop))
                  else (PAnswered (Err ExecutorUnavailable), m)
      | None => (c, m)
      end
  | PStopping i =>
      match m with
      | Some g => match MeshServing.methods g !! i with Some (OReturned r _) => (PAnswered r, m) | _ => (c, m) end
      | None => (c, m)
      end
  | PAnswered _ => (c, m)
  end.

Definition ingress_healthy (w : together) : bool :=
  ProxyServing.is_healthy (proxy w)
  && match mesh w with
     | Some g => in_slot g && is_accepting (owner g) && negb (expected_listeners g =? 0) && (live_listeners g =? expected_listeners g)
     | None => false
     end.

(** What method [k] of the runtime was answered. *)
Definition answer_for (k : nat) (l : list (option nat * stop_call)) : option (result MeshIngressError unit) :=
  match List.find (fun c => bool_decide (c.1 = Some k)) l with Some (_, PAnswered r) => Some r | _ => None end.

Inductive together_event :=
| EProxy (e : ProxyServing.serving_event)
| EStart (x : platform)
| EMesh (e : MeshServing.ingress_event)
| EStopIngress                              (* the transport coordinator stops the ingress *)
| EAsk (k : nat)                            (* [stop_internal] does *)
| EStopCall (j : nat) (there : bool).

(** A stop of the runtime goes past the ingress with the answer of its own call. *)
Definition together_step (w : together) (e : together_event) : unit * together :=
  (tt,
   match e with
   | EProxy (ProxyServing.EMethod k x) =>
       match ProxyServing.methods (proxy w) !! k with
       | Some (MMesh _) =>
           match answer_for k (stops w) with
           | Some r =>
               with_proxy w (ProxyServing.step (proxy w) (ProxyServing.EMethod k
                 {| mesh_stopped := is_ok r; timed_out := timed_out x; executor_gone := executor_gone x |})).2
           | None => w
           end
       | _ => with_proxy w (ProxyServing.step (proxy w) (ProxyServing.EMethod k x)).2
       end
   | EProxy e => with_proxy w (ProxyServing.step (proxy w) e).2
   | EStart x => start_ingress w x
   | EMesh MeshServing.EStop => w
   | EMesh e => with_stops w (option_map (fun g => MeshServing.step g e) (mesh w)) (stops w)
   | EStopIngress => with_stops w (mesh w) (stops w ++ [(None, PLook)])
   | EAsk k =>
       match ProxyServing.methods (proxy w) !! k with
       | Some (MMesh _) =>
           if forallb (fun c => negb (bool_decide (c.1 = Some k))) (stops w) then with_stops w (mesh w) (stops w ++ [(Some k, PLook)]) else w
       | _ => w
       end
   | EStopCall j there =>
       match stops w !! j with
       | Some (o, c) => let '(c, m) := stop_ingress (mesh w) c there in with_stops w m (<[j := (o, c)]> (stops w))
       | None => w
       end
   end).
End calls.

(** ** Who answers for the ingress *)

(** A stop that has taken the generation out of the slot, or has put it back undrained. *)
Definition taking (pc : owner_pc) : bool :=
  match pc with ORevoke _ | OSend _ | OJoin _ | OPutBack _ | OActive _ | OReturned (Err ShutdownTimedOut) true => true | _ => false end.

Definition answered (g : ingress) : Prop :=
  MeshServing.all_ended g = true \/ exists m pc, MeshServing.methods g !! m = Some pc /\ taking pc = true.

(** Not stored yet, or retained, or answered for. *)
Definition held (g : ingress) : Prop := MeshServing.methods g !! 0%nat = Some OStore \/ in_slot g = true \/ answered g.

(** A method that is not [start] before its own stop. *)
Definition stopper (pc : owner_pc) : bool := match pc with OStore | OWait | OHealthy | OLive => false | _ => true end.

Lemma mesh_listeners_step g e :
  MeshServing.all_ended g = true -> MeshServing.all_ended (MeshServing.step g e) = true.
Proof.
  intros He. destruct e as [i a s|j m|k t|]; cbn [MeshServing.step]; try done.
  - destruct (listeners g !! i) as [pc|] eqn:Hi; [|done]. pose proof (mesh_ended_lookup _ _ _ Hi He) as ->. cbn.
    unfold MeshServing.all_ended. cbn. by rewrite list_insert_id.
  - destruct (relays g !! j) as [[i pc]|]; [|done]. destruct (relay_step g i pc m) as [pc' g'] eqn:E.
    enough (listeners g' = listeners g) as El by (unfold MeshServing.all_ended; cbn; by rewrite El).
    revert E. unfold relay_step. destruct pc, m; intros [= _ <-]; done.
  - destruct (MeshServing.methods g !! k) as [pc|]; [|done]. destruct (owner_step g pc t) as [pc' g'] eqn:E.
    enough (listeners g' = listeners g) as El by (unfold MeshServing.all_ended; cbn; by rewrite El).
    revert E. unfold owner_step, finish. destruct pc as [| | | |r|r|r|r|r|r|]; repeat case_match; by intros [= _ <-].
Qed.

(** Where a method is after an event. *)
Lemma mesh_method_step g e m pc : MeshServing.methods g !! m = Some pc ->
  MeshServing.methods (MeshServing.step g e) !! m = Some pc \/
  exists t, e = MeshServing.EMethod m t /\ MeshServing.methods (MeshServing.step g e) !! m = Some (owner_step g pc t).1.
Proof.
  intros Hm. destruct e as [i a s|j mv|k t|]; cbn [MeshServing.step].
  - left. destruct (listeners g !! i) as [l|]; [|done]. destruct (listener_step g i l a s) as [l' g'] eqn:E. cbn.
    enough (MeshServing.methods g' = MeshServing.methods g) as -> by done.
    revert E. unfold listener_step, admit_step. destruct l; repeat case_match; by intros [= _ <-].
  - left. destruct (relays g !! j) as [[i r]|]; [|done]. destruct (relay_step g i r mv) as [r' g'] eqn:E. cbn.
    enough (MeshServing.methods g' = MeshServing.methods g) as -> by done.
    revert E. unfold relay_step. destruct r, mv; by intros [= _ <-].
  - destruct (MeshServing.methods g !! k) as [q|] eqn:Hk; [|by left]. destruct (owner_step g q t) as [q' g'] eqn:E.
    assert (MeshServing.methods g' = MeshServing.methods g) as El.
    { revert E. unfold owner_step, finish. destruct q as [| | | |r|r|r|r|r|r|]; repeat case_match; by intros [= _ <-]. }
    cbn. rewrite El. destruct (decide (k = m)) as [->|Hne]; [|left; by rewrite list_lookup_insert_ne].
    right. exists t. rewrite Hm in Hk. injection Hk as <-. split; [done|]. rewrite list_lookup_insert_eq by (by eapply lookup_lt_Some). by rewrite E.
  - left. cbn. by rewrite lookup_app_l by (by eapply lookup_lt_Some).
Qed.

Lemma answered_step g e : ingress_ok g -> answered g -> answered (MeshServing.step g e).
Proof.
  intros Hg [He|(m & pc & Hm & Hp)]; [left; by apply mesh_listeners_step|].
  destruct (mesh_method_step g e m pc Hm) as [Hm'|(t & -> & Hm')]; [right; eauto|].
  destruct pc as [| | | |r|r|r|r|r|r|r took]; try done; cbn [owner_step fst] in Hm'; try (right; eexists m, _; by split).
  - destruct (MeshServing.all_ended g); [right; eexists m, _; by split|]. destruct t; right; eexists m, _; by split.
  - right. eexists m, _. split; [exact Hm'|]. by destruct r.
  - left. apply mesh_listeners_step. by eapply (io_joined g Hg).
Qed.

Lemma held_step g e : ingress_ok g -> held g -> held (MeshServing.step g e).
Proof.
  intros Hg [H0|[Hs|Ha]]; [| |right; right; by apply answered_step].
  - destruct (mesh_method_step g e 0 OStore H0) as [H|(t & -> & _)]; [by left|]. right; left. cbn. by rewrite H0.
  - destruct e as [i a s|j mv|k t|]; cbn [MeshServing.step].
    + right; left. destruct (listeners g !! i) as [l|]; [|done]. destruct (listener_step g i l a s) as [l' g'] eqn:E. cbn.
      revert E. unfold listener_step, admit_step. destruct l; repeat case_match; by intros [= _ <-].
    + right; left. destruct (relays g !! j) as [[i r]|]; [|done]. destruct (relay_step g i r mv) as [r' g'] eqn:E. cbn.
      revert E. unfold relay_step. destruct r, mv; by intros [= _ <-].
    + destruct (MeshServing.methods g !! k) as [q|] eqn:Hk; [|right; by left]. pose proof (lookup_lt_Some _ _ _ Hk) as Hlt.
      destruct q as [| | | |r|r|r|r|r|r|]; cbn [owner_step]; rewrite ?Hs; cbn [andb]; unfold finish;
        try (right; left; repeat match goal with |- context [if ?b then _ else _] => destruct b end; done).
      right; right; right. exists k, (ORevoke r). split; [|done]. cbn. by apply list_lookup_insert_eq.
    + right; by left.
Qed.

(** [start] has stored its generation. *)
Definition stored (g : ingress) : Prop := exists pc, MeshServing.methods g !! 0%nat = Some pc /\ pc <> OStore.

Lemma owner_step_stored g pc t : pc <> OStore -> (owner_step g pc t).1 <> OStore.
Proof. unfold owner_step, finish. destruct pc; repeat case_match; done. Qed.

Lemma stored_step g e : stored g -> stored (MeshServing.step g e).
Proof.
  intros (pc & H0 & Hne). destruct (mesh_method_step g e 0 pc H0) as [H|(t & _ & H)]; [by exists pc|].
  eexists. split; [exact H|]. by apply owner_step_stored.
Qed.

(** A stop that answers Ok leaves somebody who answers for the generation. *)
Definition stops_well (g : ingress) (m : nat) : Prop :=
  exists pc, MeshServing.methods g !! m = Some pc /\ stopper pc = true /\ (forall t, pc = OReturned (Ok tt) t -> answered g).

Lemma stops_well_step g e m : ingress_ok g -> held g -> stored g -> stops_well g m -> stops_well (MeshServing.step g e) m.
Proof.
  intros Hg Hh (pc0 & H0 & Hne) (pc & Hm & Hs & Ha). pose proof (answered_step g e Hg) as Hkeep.
  destruct (mesh_method_step g e m pc Hm) as [Hm'|(t & -> & Hm')]; [exists pc; eauto 6|].
  eexists. split; [exact Hm'|]. destruct pc as [| | | |r|r|r|r|r|r|r took]; try done; cbn [owner_step].
  - destruct (in_slot g) eqn:Hi; [by split|]. split; [done|]. intros _ _. apply Hkeep. destruct Hh as [Hh|[Hh|Hh]]; [congruence..|done].
  - destruct (MeshServing.all_ended g); [by split|]. by destruct t.
  - split; [done|]. intros t'. cbn. by destruct r.
  - split; [done|]. intros _ _. apply Hkeep. left. by eapply (io_joined g Hg).
  - split; [done|]. cbn. eauto.
Qed.

(** ** The runtime's side *)

Lemma serving_stopping p e : ProxyServing.stopping p = true -> ProxyServing.stopping (ProxyServing.step p e).2 = true.
Proof.
  intros H. destruct e as [i a|j m|u m|k x| |t v| |o]; cbn [ProxyServing.step]; try done.
  - destruct (acceptors p !! i) as [pc|]; [|done]. destruct (accept_step p i pc a) as [ns [pc' p']] eqn:E. cbn. revert E.
    unfold accept_step. destruct pc; repeat case_match; intros E; simplify_eq/=; done.
  - destruct (ProxyServing.sessions p !! j) as [[i pc]|]; [|done]. destruct (ProxyServing.session_step p i pc m) as [pc' p'] eqn:E. cbn. revert E.
    unfold ProxyServing.session_step, abort. destruct pc as [| | |[]| | |], m; repeat case_match; intros E; simplify_eq/=; done.
  - by destruct (setups p !! u).
  - destruct (ProxyServing.methods p !! k) as [pc|]; [|done]. destruct (method_step p pc x) as [ns [pc' p']] eqn:E. cbn. revert E.
    unfold method_step. destruct pc; repeat case_match; intros E; simplify_eq/=; done.
  - by destruct (owner_set_observer o _).
Qed.

(** A stop that is at the ingress, or past it, has announced itself. *)
Definition announced (p : ProxyServing.serving) : Prop :=
  forall k ret, ProxyServing.methods p !! k = Some (MMesh ret) -> ProxyServing.stopping p = true.

Lemma announced_step p e : announced p -> announced (ProxyServing.step p e).2.
Proof.
  intros H k ret Hk. destruct (method_origin p e k _ Hk) as [Hold|[Hnew|(pc & x & Hold & -> & E)]]; [|done|].
  - by apply serving_stopping, (H k ret).
  - cbn. rewrite Hold. destruct pc; cbn [method_step] in E |- *; unfold ProxyServing.returned in *; repeat case_match; simplify_eq/=; done.
Qed.

(** Past the ingress, and clean so far. *)
Definition clean_way (pc : method_pc) : bool :=
  match pc with
  | MShutdown _ true | MTake _ true | MJoin _ true _ | MActive _ true _ _ | MMarkStopped _ _ | MReturned (Ok _) true => true
  | _ => false
  end.

Lemma method_clean p pc x : clean_way (method_step p pc x).2.1 = true ->
  clean_way pc = true \/ exists ret, pc = MMesh ret /\ mesh_stopped x = true.
Proof.
  destruct pc as [| | | |r|r|r mc|r mc|r mc mine|r mc jn mine|r|r ns|r mine|r mine]; cbn -[is_healthy ProxyServing.all_ended];
    unfold ProxyServing.returned; repeat case_match; simplify_eq/=; try done; eauto.
Qed.

(** ** Both sides *)

Definition of_method (k : nat) (c : option nat * stop_call) : bool := bool_decide (c.1 = Some k).

Lemma answer_for_app k l c : answer_for k l = Some c -> forall l', answer_for k (l ++ l') = Some c.
Proof.
  unfold answer_for. intros H l'. revert H. induction l as [|a l IH]; [done|]. cbn [List.find app]. by destruct (bool_decide _).
Qed.

Lemma answer_for_insert k l r j o c c' :
  answer_for k l = Some r -> l !! j = Some (o, c) -> (forall r, c = PAnswered r -> c' = c) -> answer_for k (<[j := (o, c')]> l) = Some r.
Proof.
  unfold answer_for. intros H Hj Hc. revert j H Hj. induction l as [|[o1 c1] l IH]; intros [|j]; cbn; try done.
  - intros H [= -> ->]. revert H. destruct (bool_decide (o = Some k)); [|done]. destruct c; try done. by rewrite (Hc _ eq_refl).
  - destruct (bool_decide (o1 = Some k)); [done|]. apply IH.
Qed.

Lemma answer_for_lookup k l r : answer_for k l = Some r -> exists j, l !! j = Some (Some k, PAnswered r).
Proof.
  unfold answer_for. induction l as [|[o c] l IH]; cbn [List.find fst]; [done|]. case_bool_decide as E; [|intros H; destruct (IH H) as [j Hj]; by exists (S j)].
  subst o. destruct c; try done. intros [= ->]. by exists 0%nat.
Qed.

Section invariant.
Context (endpoint : Ipv4Addr) (mappings : list MeshPortForward) (Hfew : Z.of_nat (length mappings) <= usize_max).

Abbreviation advance w e := (together_step endpoint mappings w e).2.

Record together_ok (w : together) : Prop := {
  to_proxy : serving_ok (proxy w) /\ announced (proxy w);
  to_mesh : forall g, mesh w = Some g -> ingress_ok g /\ held g;
  to_start : forall g, mesh w = Some g -> starting w = SRunning \/ (exists r, starting w = SAnswered r) /\ stored g;
  to_running : starting w = SRunning -> is_Some (mesh w);
  to_nonempty : forall g, mesh w = Some g -> is_Some (MeshServing.methods g !! 0%nat);
  to_once : forall j j' k c c', stops w !! j = Some (Some k, c) -> stops w !! j' = Some (Some k, c') -> j = j';
  to_announced : forall j k c, stops w !! j = Some (Some k, c) -> ProxyServing.stopping (proxy w) = true;
  to_clean : forall k pc, ProxyServing.methods (proxy w) !! k = Some pc -> clean_way pc = true -> answer_for k (stops w) = Some (Ok tt) }.

Lemma together_new_ok p : serving_ok p -> announced p -> (forall k pc, ProxyServing.methods p !! k = Some pc -> clean_way pc = false) ->
  together_ok (together_new p).
Proof. intros Hp Ha Hc. split; cbn; try done. intros k pc Hk. by rewrite (Hc k pc Hk). Qed.

Lemma proxy_event_ok w e :
  together_ok w ->
  (forall k x ret, e = ProxyServing.EMethod k x -> ProxyServing.methods (proxy w) !! k = Some (MMesh ret) -> mesh_stopped x = true ->
     answer_for k (stops w) = Some (Ok tt)) ->
  together_ok (with_proxy w (ProxyServing.step (proxy w) e).2).
Proof.
  intros [[H1 H1'] H2 H3 H4 H0 H5 H6 H7] He. split; cbn; try done.
  - split; [by apply serving_step_ok|by apply announced_step].
  - intros j k c Hj. by eapply serving_stopping, H6.
  - intros k pc Hk Hc. destruct (method_origin _ _ _ _ Hk) as [Hold|[->|(pc0 & x & Hold & -> & ->)]]; [by eapply H7|done|].
    destruct (method_clean _ _ _ Hc) as [Hc'|(ret & -> & Hm)]; [by eapply H7|by eapply He].
Qed.

Lemma mesh_event_ok w e : together_ok w -> together_ok (with_stops w (option_map (fun g => MeshServing.step g e) (mesh w)) (stops w)).
Proof.
  intros [H1 H2 H3 H4 H0 H5 H6 H7]. split; cbn; try done.
  - intros g'. destruct (mesh w) as [g|]; [|done]. intros [= <-]. destruct (H2 g eq_refl). split; [by apply mesh_step_ok|by apply held_step].
  - intros g'. destruct (mesh w) as [g|]; [|done]. intros [= <-]. destruct (H3 g eq_refl) as [?|[? ?]]; [by left|right]. split; [done|by apply stored_step].
  - intros Hs. destruct (H4 Hs) as [g ->]. by eexists.
  - intros g'. destruct (mesh w) as [g|]; [|done]. intros [= <-]. destruct (H0 g eq_refl) as [pc Hpc].
    destruct (mesh_method_step g e 0 pc Hpc) as [->|(t & _ & ->)]; by eexists.
Qed.

Lemma start_event_ok w x : together_ok w -> together_ok (start_ingress endpoint mappings w x).
Proof.
  intros Hw. pose proof Hw as [H1 H2 H3 H4 H0 H5 H6 H7]. unfold start_ingress.
  assert (forall s, mesh w = None -> s <> SRunning -> together_ok (with_start w s (mesh w))) as Hmove.
  { intros s Hn Hs. split; cbn; try done. by rewrite Hn. }
  assert (starting w = SRunning \/ (exists r, starting w = SAnswered r) \/ mesh w = None) as Hcase.
  { destruct (mesh w) as [g|] eqn:Hm; [|auto]. destruct (H3 g eq_refl) as [?|[? _]]; auto. }
  destruct (starting w) eqn:Hs; try done.
  1-4: assert (mesh w = None) as Hn by (destruct Hcase as [?|[[? ?]|?]]; done).
  - destruct (_ && _); by apply Hmove.
  - destruct (_ =? _); by apply Hmove.
  - destruct (executor_there x); by apply Hmove.
  - destruct (MeshServing.start _ _ _ _ _ _) as [g|e] eqn:Hg; [|by apply Hmove]. split; cbn; try done.
    + intros g' [= <-]. split; [by eapply mesh_start_ok|]. left. by rewrite (start_fresh _ _ _ _ _ _ _ Hg).
    + intros g' _. by left.
    + intros g' [= <-]. rewrite (start_fresh _ _ _ _ _ _ _ Hg). by eexists.
  - destruct (mesh w) as [g|] eqn:Hm; [|done]. destruct (MeshServing.methods g !! 0%nat) as [[| | | |r|r|r|r|r|r|r took]|] eqn:Hr; try done.
    split; cbn; try done. intros g' [= <-]. right. split; [by eexists|]. by exists (OReturned r took).
Qed.

(** A new stop call, at most one for each method of the runtime. *)
Lemma ask_ok w o : together_ok w ->
  (forall k, o = Some k -> ProxyServing.stopping (proxy w) = true /\ forall j c, stops w !! j = Some (Some k, c) -> False) ->
  together_ok (with_stops w (mesh w) (stops w ++ [(o, PLook)])).
Proof.
  intros [H1 H2 H3 H4 H0 H5 H6 H7] Ho. split; cbn; try done.
  - intros j j' k c c' [Hj|[Hl Hj]]%lookup_app_Some [Hj'|[Hl' Hj']]%lookup_app_Some; [by eapply H5|..].
    + apply list_elem_of_lookup_2, list_elem_of_singleton in Hj'. injection Hj' as <- _. by destruct (Ho k eq_refl) as [_ Hno]; destruct (Hno _ _ Hj).
    + apply list_elem_of_lookup_2, list_elem_of_singleton in Hj. injection Hj as <- _. by destruct (Ho k eq_refl) as [_ Hno]; destruct (Hno _ _ Hj').
    + apply lookup_lt_Some in Hj, Hj'. cbn in *. lia.
  - intros j k c [Hj|[_ Hj]]%lookup_app_Some; [by eapply H6|]. apply list_elem_of_lookup_2, list_elem_of_singleton in Hj. injection Hj as <- _.
    by apply (Ho k).
  - intros k pc Hk Hc. apply answer_for_app. by eapply H7.
Qed.

(** The calls of others do not change, and answers stay. *)
Lemma stop_call_ok w j o c there : stops w !! j = Some (o, c) -> together_ok w ->
  together_ok (with_stops w (stop_ingress (mesh w) c there).2 (<[j := (o, (stop_ingress (mesh w) c there).1)]> (stops w))).
Proof.
  intros Hj Hw. assert (exists m, (stop_ingress (mesh w) c there).2 = m /\ together_ok (with_stops w m (stops w))) as (m & -> & Hm).
  { assert (together_ok (with_stops w (mesh w) (stops w))) as Hsame by by destruct Hw; split.
    eexists. split; [done|]. unfold stop_ingress. destruct c as [| |i|r]; try done.
    - pose proof (mesh_event_ok w MeshServing.EStop Hw) as Hstop. destruct (mesh w) as [g|]; [|done]. by destruct there.
    - destruct (mesh w) as [g|]; [|done]. by destruct (MeshServing.methods g !! i) as [[]|]. }
  destruct Hm as [H1 H2 H3 H4 H0 H5 H6 H7]. split; cbn in *; try done.
  - intros j1 j2 k c1 c2 [(<- & E & _)|[_ H1']]%list_lookup_insert_Some [(<- & E' & _)|[_ H2']]%list_lookup_insert_Some; simplify_eq; try done; by eapply H5.
  - intros j1 k c1 [(<- & E & _)|[_ H1']]%list_lookup_insert_Some; simplify_eq; by eapply H6.
  - intros k pc Hk Hc. eapply answer_for_insert; [by eapply H7|done|]. intros r ->. done.
Qed.

Lemma together_step_ok w e : together_ok w -> together_ok (advance w e).
Proof.
  intros Hw. destruct e as [e|x|e| |k|j there]; cbn [together_step snd].
  - destruct e as [| | |k x| | | |]; try (by apply proxy_event_ok). destruct (ProxyServing.methods (proxy w) !! k) as [pc|] eqn:Hk.
    2:{ apply proxy_event_ok; [done|]. intros k' x' ret [= <- <-]. by rewrite Hk. }
    destruct pc as [| | | |r|r|r mc|r mc|r mc mine|r mc jn mine|r|r ns|r mine|r mine];
      try (apply proxy_event_ok; [done|]; intros k' x' ret [= <- <-]; by rewrite Hk).
    destruct (answer_for k (stops w)) as [[[]|e]|] eqn:Ha; [| |done]; (apply proxy_event_ok; [done|]); intros k' x' ret [= <- <-] _; done.
  - by apply start_event_ok.
  - pose proof (mesh_event_ok w e Hw). by destruct e.
  - by apply ask_ok.
  - destruct (ProxyServing.methods (proxy w) !! k) as [[]|] eqn:Hk; try done. destruct (forallb _ _) eqn:Hf; [|done].
    apply ask_ok; [done|]. intros k' [= <-]. split; [by eapply (proj2 (to_proxy w Hw))|]. intros j c Hj.
    rewrite forallb_lookup in Hf. specialize (Hf j _ Hj). cbn in Hf. by rewrite bool_decide_eq_true_2 in Hf.
  - destruct (stops w !! j) as [[o c]|] eqn:Hj; [|done]. pose proof (stop_call_ok w j o c there Hj Hw) as H.
    by destruct (stop_ingress (mesh w) c there).
Qed.

Lemma together_run_ok es w : together_ok w -> together_ok (Prelude.run (together_step endpoint mappings) w es).
Proof. revert w. induction es as [|e es IH]; intros w Hw; [done|]. by apply IH, together_step_ok. Qed.

(** *** After the look of a stop *)

(** The start has passed its look at the runtime's health, and has stored nothing yet. *)
Definition in_flight (w : together) : bool :=
  match starting w, mesh w with
  | SLive, _ | SHandle, _ | SBegin, _ => true
  | SRunning, Some g => match MeshServing.methods g !! 0%nat with Some OStore => true | _ => false end
  | _, _ => false
  end.

(** There is no generation and there will be none, or it was stored. *)
Definition settled (w : together) : Prop :=
  match mesh w with
  | Some g => stored g
  | None => ProxyServing.stopping (proxy w) = true /\ starting w = SHealth \/ exists r, starting w = SAnswered r
  end.

Definition answered_for (w : together) : Prop := match mesh w with Some g => answered g | None => True end.

Definition call_well (w : together) (c : stop_call) : Prop :=
  match c with
  | PLook => False
  | PHandle | PAnswered (Err _) => True
  | PStopping m => exists g, mesh w = Some g /\ stops_well g m
  | PAnswered (Ok _) => answered_for w
  end.

Definition looked (j : nat) (o : option nat) (w : together) : Prop := settled w /\ exists c, stops w !! j = Some (o, c) /\ call_well w c.

(** A change of one generation, if there is one. *)
Lemma looked_mesh w j o e : together_ok w -> looked j o w ->
  looked j o (with_stops w (option_map (fun g => MeshServing.step g e) (mesh w)) (stops w)).
Proof.
  intros Hw (Hs & c & Hj & Hc). pose proof (to_mesh w Hw) as Hm. unfold looked, settled, call_well, answered_for in *. cbn.
  destruct (mesh w) as [g|]; cbn.
  - destruct (Hm g eq_refl) as [Hg Hh]. split; [by apply stored_step|]. exists c. split; [done|].
    destruct c as [| |m|[]]; try done; [|by apply answered_step]. destruct Hc as (g' & [= <-] & Hc). eexists. split; [done|]. by apply stops_well_step.
  - split; [done|]. exists c. split; [done|]. by destruct c as [| |m|[]].
Qed.

Lemma looked_stops w j o l : looked j o w -> (forall x, stops w !! j = Some x -> l !! j = Some x) -> looked j o (with_stops w (mesh w) l).
Proof. intros (Hs & c & Hj & Hc) Hl. split; [done|]. exists c. split; [by apply Hl|done]. Qed.

Lemma looked_proxy w j o e : looked j o w -> looked j o (with_proxy w (ProxyServing.step (proxy w) e).2).
Proof.
  intros (Hs & c & Hj & Hc). split; [|by exists c]. revert Hs. unfold settled. cbn. destruct (mesh w); [done|].
  intros [[Hst ?]|?]; [left|by right]. split; [by apply serving_stopping|done].
Qed.

Lemma looked_start w j o x : together_ok w -> looked j o w -> looked j o (start_ingress endpoint mappings w x).
Proof.
  intros Hw H. pose proof H as (Hs & c & Hj & Hc). unfold start_ingress. revert Hs. unfold settled.
  destruct (mesh w) as [g|] eqn:Hm.
  - intros Hst. destruct (to_start w Hw g Hm) as [->|[[r ->] _]]; [|done].
    destruct (MeshServing.methods g !! 0%nat) as [[| | | |r|r|r|r|r|r|r took]|] eqn:H0; try done.
    split; [unfold settled; cbn; by rewrite ?Hm|]. exists c. split; [done|]. unfold call_well, answered_for in *. cbn. by rewrite ?Hm in *.
  - intros [[Hstop Hst]|[r ->]]; [|done]. rewrite Hst, Hstop. cbn [negb andb]. split; [unfold settled; cbn; right; by eexists|].
    exists c. split; [done|]. unfold call_well, answered_for in *. cbn. by rewrite ?Hm in *.
Qed.

(** The stop call itself goes on. *)
Lemma looked_call w j o c there : together_ok w -> looked j o w -> stops w !! j = Some (o, c) ->
  looked j o (with_stops w (stop_ingress (mesh w) c there).2 (<[j := (o, (stop_ingress (mesh w) c there).1)]> (stops w))).
Proof.
  intros Hw (Hs & c' & Hj' & Hc) Hj. rewrite Hj in Hj'. injection Hj' as <-. pose proof (lookup_lt_Some _ _ _ Hj) as Hlt.
  assert (forall m c, settled (with_stops w m (stops w)) -> call_well (with_stops w m (stops w)) c -> looked j o (with_stops w m (<[j := (o, c)]> (stops w)))) as Hput.
  { intros m c1 Hs1 Hc1. split; [exact Hs1|]. exists c1. split; [by apply list_lookup_insert_eq|exact Hc1]. }
  destruct c as [| |m|r]; cbn [stop_ingress]; try done.
  - unfold settled in Hs. destruct (mesh w) as [g|] eqn:Hm; cbn [fst snd]; [|apply Hput; [unfold settled; cbn; by rewrite ?Hm in *|done]].
    destruct there; cbn [fst snd]; apply Hput; try done; unfold settled; cbn.
    + by apply (stored_step g MeshServing.EStop).
    + eexists. split; [done|]. exists (OTake None). cbn. split; [|done]. by rewrite lookup_app_r, Nat.sub_diag.
  - destruct Hc as (g & Hm & pc & Hpc & Hst & Hans). rewrite Hm. unfold settled in Hs. rewrite Hm in Hs. rewrite Hpc.
    assert (looked j o (with_stops w (Some g) (<[j := (o, PStopping m)]> (stops w)))) as Hstay.
    { apply Hput; [exact Hs|]. exists g. split; [done|]. by exists pc. }
    destruct pc as [| | | |r|r|r|r|r|r|r took]; try done. cbn [fst snd]. apply Hput; [exact Hs|].
    destruct r as [[]|]; [|done]. by apply (Hans took).
  - apply Hput; [exact Hs|exact Hc].
Qed.

Lemma looked_step w j o e : together_ok w -> looked j o w -> looked j o (advance w e).
Proof.
  intros Hw H. destruct e as [e|x|e| |k|i there]; cbn [together_step snd].
  - destruct e as [| | |k x| | | |]; try (by apply looked_proxy). destruct (ProxyServing.methods (proxy w) !! k) as [[]|]; try (by apply looked_proxy).
    destruct (answer_for k (stops w)); [by apply looked_proxy|done].
  - by apply looked_start.
  - pose proof (looked_mesh w j o e Hw H). by destruct e.
  - apply looked_stops; [done|]. intros y Hy. by apply lookup_app_l_Some.
  - destruct (ProxyServing.methods (proxy w) !! k) as [[]|]; try done. destruct (forallb _ _); [|done].
    apply looked_stops; [done|]. intros y Hy. by apply lookup_app_l_Some.
  - destruct (stops w !! i) as [[o' c]|] eqn:Hi; [|done]. destruct (decide (i = j)) as [->|Hne].
    { assert (o' = o) as -> by (destruct H as (_ & c' & Hj & _); congruence). pose proof (looked_call w j o c there Hw H Hi) as Hl. by destruct (stop_ingress (mesh w) c there). }
    assert (forall m, looked j o (with_stops w m (stops w)) -> forall c, looked j o (with_stops w m (<[i := (o', c)]> (stops w)))) as Hput.
    { intros m Hm c1. apply (looked_stops _ j o (<[i := (o', c1)]> (stops w)) Hm). intros y Hy. by rewrite list_lookup_insert_ne. }
    destruct (stop_ingress (mesh w) c there) as [c' m'] eqn:E. apply Hput.
    assert (looked j o (with_stops w (mesh w) (stops w))) as Hsame by (by apply looked_stops).
    pose proof (looked_mesh w j o MeshServing.EStop Hw H) as Hstop. revert E. unfold stop_ingress. destruct c as [| |m|r]; try (by intros [= _ <-]).
    + destruct (mesh w) as [g|]; [|by intros [= _ <-]]. destruct there; by intros [= _ <-].
    + destruct (mesh w) as [g|]; [|by intros [= _ <-]]. destruct (MeshServing.methods g !! m) as [[]|]; by intros [= _ <-].
Qed.

Lemma looked_run w j o es : together_ok w -> looked j o w -> looked j o (Prelude.run (together_step endpoint mappings) w es).
Proof. revert w. induction es as [|e es IH]; intros w Hw H; [done|]. apply IH; [by apply together_step_ok|by apply looked_step]. Qed.

Lemma settled_look w : together_ok w -> in_flight w = false -> ProxyServing.stopping (proxy w) = true -> settled w.
Proof.
  intros Hw Hf Hst. unfold settled, in_flight in *. destruct (mesh w) as [g|] eqn:Hm.
  - destruct (to_start w Hw g Hm) as [E|[_ ?]]; [|done]. rewrite E in Hf. destruct (to_mesh w Hw g Hm) as [_ [H0|Hh]]; [by rewrite H0 in Hf|].
    destruct (MeshServing.methods g !! 0%nat) as [pc|] eqn:H0; [exists pc; split; [done|by intros ->]|].
    exfalso. destruct (MeshServing.methods g) eqn:El; [|done]. destruct (to_nonempty w Hw g Hm) as [pc Hpc]. by rewrite El in Hpc.
  - destruct (starting w) eqn:E; try done; [by left|destruct (to_running w Hw E); congruence|right; by eexists].
Qed.

Lemma looked_first w j o there : together_ok w -> in_flight w = false -> ProxyServing.stopping (proxy w) = true ->
  stops w !! j = Some (o, PLook) -> looked j o (advance w (EStopCall j there)).
Proof.
  intros Hw Hf Hst Hj. pose proof (settled_look w Hw Hf Hst) as Hs. cbn [together_step snd]. rewrite Hj. cbn [stop_ingress].
  split; [exact Hs|]. eexists. split; [cbn; apply list_lookup_insert_eq; by eapply lookup_lt_Some|].
  unfold settled in Hs. unfold call_well, answered_for, is_running. cbn. destruct (mesh w) as [g|] eqn:Hm; [|done].
  destruct (in_slot g) eqn:Hi; [done|]. destruct Hs as (pc & H0 & Hne). destruct (to_mesh w Hw g Hm) as [_ [H|[H|H]]]; [congruence..|done].
Qed.
End invariant.

Lemma start_methods plan bs executor cs k pc : ProxyServing.methods (ProxyServing.start plan bs executor cs).2 !! k = Some pc -> pc = MPoll.
Proof.
  unfold ProxyServing.start. repeat case_match; try done.
  all: match goal with H : spawn_all ?b ?c ?w = _ |- _ => destruct (spawn_all_shape b c w) as (l & Hs & _); rewrite H in Hs end.
  all: cbn in Hs; subst; cbn; try done. destruct k; [by intros [= <-]|done].
Qed.

Lemma together_start_ok plan bs executor cs : together_ok (together_new (ProxyServing.start plan bs executor cs).2).
Proof.
  apply together_new_ok; [apply serving_start_ok|..].
  - intros k ret Hk. by apply start_methods in Hk.
  - intros k pc Hk. by apply start_methods in Hk as ->.
Qed.

(** ** Properties *)

Abbreviation together_run endpoint mappings := (Prelude.run (together_step endpoint mappings)).

(** C32: A clean stop of the serving runtime answers for the ingress too.  In every
    interleaving of the runtime, one [start_ingress] with the generation it makes, and
    any number of stops: let a stop of the runtime look for an ingress while no start
    is between its look at the runtime's health and the store of its generation.  When
    that stop has answered Ok after joining the acceptors, then all acceptors have
    ended, and there is no generation of the ingress, or all its listeners have ended
    and no session is relayed, or a stop has taken it out of the slot and drains it, or
    such a stop has reported that it ran out of time. *)
Theorem clean_stop_answers_for_ingress endpoint mappings plan bs executor cs es j k there es' :
  Z.of_nat (length mappings) <= usize_max ->
  let w := together_run endpoint mappings (together_new (ProxyServing.start plan bs executor cs).2) es in
  stops w !! j = Some (Some k, PLook) -> in_flight w = false ->
  let w' := together_run endpoint mappings w (EStopCall j there :: es') in
  ProxyServing.methods (proxy w') !! k = Some (MReturned (Ok tt) true) ->
  ProxyServing.all_ended (proxy w') = true /\
  forall g, mesh w' = Some g ->
    (MeshServing.all_ended g = true /\ live_relays g = []) \/
    exists m pc, MeshServing.methods g !! m = Some pc /\ taking pc = true.
Proof.
  intros Hfew w Hj Hf w' Hk. assert (together_ok w) as Hw by (apply together_run_ok; [done|apply together_start_ok]).
  assert (together_ok w') as Hw' by (by apply together_run_ok). split; [by eapply (so_joined _ (proj1 (to_proxy w' Hw')))|].
  assert (looked j (Some k) w') as (_ & c & Hj' & Hc).
  { change w' with (together_run endpoint mappings (together_step endpoint mappings w (EStopCall j there)).2 es').
    apply looked_run; [done|by apply together_step_ok|]. eapply looked_first; [done|done| |exact Hj]. by eapply (to_announced w Hw). }
  destruct (answer_for_lookup _ _ _ (to_clean w' Hw' k _ Hk eq_refl)) as [j' Hans].
  assert (j' = j) as -> by (by eapply (to_once w' Hw')). rewrite Hans in Hj'. injection Hj' as <-. cbn [call_well] in Hc.
  intros g Hg. unfold answered_for in Hc. rewrite Hg in Hc. destruct Hc as [He|Ht]; [left|by right]. split; [done|].
  by eapply (ended_at_rest g (proj1 (to_mesh w' Hw' g Hg))).
Qed.

(** The runtime is up, and the sample start is on its way or through. *)
Definition here : platform := {| executor_there := true; binds := fun _ => BoundReady; converts := fun _ => true |}.

Definition runtime_up : list together_event := EProxy <$> up.

(** A stop, method 1, as far as the call that looks for an ingress. *)
Definition stop_asks : list together_event := [EProxy ProxyServing.EStop; EProxy (ProxyServing.EMethod 1 calm); EAsk 1].

(** The rest of it, with the acceptors on their way down. *)
Definition stop_ends : list together_event :=
  EProxy <$> (replicate 3 (ProxyServing.EMethod 1 calm) ++ acceptor_down 0 ++ acceptor_down 1 ++ acceptor_down 2 ++ replicate 3 (ProxyServing.EMethod 1 calm)).

(** The generation is stored, its listener runs, and the start returns. *)
Definition ingress_up : list together_event :=
  EMesh <$> (replicate 2 (EListener 0 MeshServing.AcceptTimeout false) ++ replicate 4 (MeshServing.EMethod 0 false)).

Definition ingress_down : list together_event :=
  [EStopCall 0 true] ++ (EMesh <$> (replicate 3 (MeshServing.EMethod 1 false) ++ replicate 3 (EListener 0 MeshServing.AcceptTimeout false)
    ++ replicate 2 (MeshServing.EMethod 1 false))) ++ [EStopCall 0 true].

Lemma clean_stop_answers_for_ingress_witness :
  let es := runtime_up ++ replicate 4 (EStart here) ++ ingress_up ++ [EStart here] ++ stop_asks in
  let w := together_run sample_endpoint sample_mappings (together_new served) es in
  starting w = SAnswered (Ok tt) /\
  ProxyServing.all_ended (proxy (together_run sample_endpoint sample_mappings w (EStopCall 0 true :: ingress_down ++ stop_ends))) = true.
Proof.
  intros es w. split; [vm_compute; reflexivity|].
  apply (clean_stop_answers_for_ingress sample_endpoint sample_mappings sample_plan (fun _ => true) true (fun _ => true) es 0 1 true (ingress_down ++ stop_ends));
    [vm_compute; discriminate|vm_compute; reflexivity..].
Defined.

(** A start that has found the runtime healthy is not held back by a stop that begins
    then: the stop finds no ingress, ends the acceptors and answers Ok, and the start
    goes on to bind the mesh address, spawn its listeners and answer Ok as well.  The
    ingress is retained and its listener accepts clients for a proxy that is gone. *)
Theorem ingress_outlives_clean_stop :
  let w := together_run sample_endpoint sample_mappings (together_new served)
             (runtime_up ++ replicate 3 (EStart here) ++ stop_asks ++ [EStopCall 0 true] ++ stop_ends ++ [EStart here] ++ ingress_up ++ [EStart here]) in
  ProxyServing.methods (proxy w) !! 1%nat = Some (MReturned (Ok tt) true) /\ ProxyServing.all_ended (proxy w) = true /\
  starting w = SAnswered (Ok tt) /\ ingress_healthy w = false /\
  exists g, mesh w = Some g /\ in_slot g = true /\ listeners g = [LTop] /\ accepting (owner g) = true.
Proof. intros w. do 4 (split; [vm_compute; reflexivity|]). eexists. vm_compute. done. Qed.
