(* ===== verification/ProductFacts.v ===== *)
(** * Platform facts of the product runtime

    [ProductPlatformFacts] of [src/crates/runtime/src/product_runtime.rs]: what the
    stable process handle remembers of Android's observations, so that a fresh
    generation can be brought up to date, and the replay that does so.  The admission
    owner the replay feeds is that of [Cellular]. *)

From S2P Require Import Prelude Net RustStr Transport.
From stdpp Require Import gmap sorting list.
From S2P Require Import Cellular.

#[local] Open Scope Z_scope.

Record StoredCellularObservation := {
  stored_sequence : Z;
  stored_observation : NetworkObservation;
  stored_handle : NetworkHandle;
  interface_name : option str }.

Record StoredMeshObservation := { mesh_sequence : Z; mesh_observation : MeshVpnObservation }.

Record ProductPlatformFacts := {
  cellular : gmap NetworkHandle StoredCellularObservation;
  last_cellular_sequence : option Z;
  last_cellular_loss : option (Z * NetworkHandle);
  mesh : option StoredMeshObservation }.

Definition facts_default : ProductPlatformFacts :=
  {| cellular := ∅; last_cellular_sequence := None; last_cellular_loss := None; mesh := None |}.

(** [is_some_and(|last| sequence <= last)] *)
Definition not_newer (last : option Z) (sequence : Z) : bool := is_some_and last (fun last => sequence <=? last).

Definition record_cellular_observation (sequence : Z) (o : NetworkObservation) (h : NetworkHandle) (name : option str)
    (f : ProductPlatformFacts) : ProductPlatformFacts :=
  if not_newer (last_cellular_sequence f) sequence then f
  else
    {| cellular := <[h := {| stored_sequence := sequence; stored_observation := o; stored_handle := h; interface_name := name |}]> (cellular f);
       last_cellular_sequence := Some sequence; last_cellular_loss := None; mesh := mesh f |}.

Definition record_cellular_loss (sequence : Z) (h : NetworkHandle) (f : ProductPlatformFacts) : ProductPlatformFacts :=
  if not_newer (last_cellular_sequence f) sequence then f
  else
    {| cellular := delete h (cellular f); last_cellular_sequence := Some sequence; last_cellular_loss := Some (sequence, h);
       mesh := mesh f |}.

Definition record_mesh (sequence : Z) (o : MeshVpnObservation) (f : ProductPlatformFacts) : ProductPlatformFacts :=
  if is_some_and (mesh f) (fun current => sequence <=? mesh_sequence current) then f
  else
    {| cellular := cellular f; last_cellular_sequence := last_cellular_sequence f; last_cellular_loss := last_cellular_loss f;
       mesh := Some {| mesh_sequence := sequence; mesh_observation := o |} |}.

Definition by_sequence (a b : StoredCellularObservation) : Prop := stored_sequence a <= stored_sequence b.

#[export] Instance by_sequence_dec a b : Decision (by_sequence a b).
Proof. unfold by_sequence. apply _. Defined.

(** The values of the map, in whatever order it has them, sorted. *)
Definition cellular_replay (f : ProductPlatformFacts) : list StoredCellularObservation :=
  merge_sort by_sequence (map_to_list (cellular f)).*2.

Definition clear_cellular (f : ProductPlatformFacts) : ProductPlatformFacts :=
  {| cellular := ∅; last_cellular_sequence := None; last_cellular_loss := None; mesh := mesh f |}.

Definition clear_mesh (f : ProductPlatformFacts) : ProductPlatformFacts :=
  {| cellular := cellular f; last_cellular_sequence := last_cellular_sequence f; last_cellular_loss := last_cellular_loss f; mesh := None |}.

(** What [replay_platform_facts] tells the admission owner of a fresh generation. *)
Definition replay_events (f : ProductPlatformFacts) : list event :=
  match cellular_replay f with
  | [] => match last_cellular_loss f with Some (s, h) => [ELost s h] | None => [] end
  | l => (fun s => EObserve (stored_observation s)) <$> l
  end.

Definition deliver (e : CellularEgress) (evs : list event) : CellularEgress := fold_left (fun e ev => (Cellular.step e ev).2) evs e.

(** Android's events reach the facts with the sequence and the handle they carry. *)
Definition record_event (f : ProductPlatformFacts) (ev : event * option str) : ProductPlatformFacts :=
  match ev.1 with
  | EObserve o => record_cellular_observation (obs_sequence o) o (obs_handle o) ev.2 f
  | ELost s h => record_cellular_loss s h f
  end.

Definition record_events (evs : list (event * option str)) : ProductPlatformFacts := fold_left record_event evs facts_default.

(** ** The replayed owner *)

(** The last admissible one of a list. *)
Fixpoint newest_admissible (l : list NetworkObservation) : option NetworkHandle :=
  match l with
  | [] => None
  | o :: l =>
      match newest_admissible l with
      | Some h => Some h
      | None => if is_none (rejection_reason o) then Some (obs_handle o) else None
      end
  end.

Lemma newest_snoc l o :
  newest_admissible (l ++ [o]) = if is_none (rejection_reason o) then Some (obs_handle o) else newest_admissible l.
Proof.
  induction l as [|x l IH]; cbn; [by destruct (rejection_reason o)|]. rewrite IH.
  destruct (is_none (rejection_reason o)); [done|]. by destruct (newest_admissible l).
Qed.

Lemma newest_elem l h : newest_admissible l = Some h -> exists o, o ∈ l /\ obs_handle o = h /\ rejection_reason o = None.
Proof.
  induction l as [|x l IH]; cbn; [done|]. destruct (newest_admissible l) as [h'|].
  - intros [= ->]. destruct (IH eq_refl) as (o & Ho & H). exists o. split; [by right|done].
  - destruct (rejection_reason x) eqn:Hx; cbn; [done|]. intros [= <-]. exists x. split; [left|done].
Qed.

(** Observations of distinct networks in increasing order leave the newest admissible
    one admitted. *)
Lemma deliver_ordered l :
  StronglySorted (fun a b => obs_sequence a < obs_sequence b) l -> NoDup (obs_handle <$> l) ->
  admitted_network (admission (deliver new (EObserve <$> l))) = newest_admissible l /\
  (forall q, last_sequence (admission (deliver new (EObserve <$> l))) = Some q -> exists o, o ∈ l /\ obs_sequence o = q).
Proof.
  induction l as [|o l IH] using rev_ind; intros Hs Hd; [done|].
  rewrite fmap_app in Hd. apply NoDup_app in Hd as (Hd & Hnew & _).
  assert (StronglySorted (fun a b => obs_sequence a < obs_sequence b) l /\ forall a, a ∈ l -> obs_sequence a < obs_sequence o) as [Hs' Hlt].
  { apply StronglySorted_app in Hs as (H1 & H2 & _). split; [done|]. intros a Ha. apply H1; [done|]. by apply list_elem_of_singleton. }
  destruct (IH Hs' Hd) as [Ha Hl]. rewrite fmap_app. unfold deliver. rewrite fold_left_app. cbn [fmap list_fmap fold_left].
  fold (deliver new (EObserve <$> l)). set (e := deliver new (EObserve <$> l)) in *. cbn [step].
  assert (is_stale e (obs_sequence o) = false) as Hst.
  { unfold is_stale. destruct (last_sequence (admission e)) as [q|] eqn:E; [|done]. destruct (Hl q eq_refl) as (a & Hin & <-).
    apply Z.leb_gt. by apply Hlt. }
  unfold observe. rewrite Hst, newest_snoc. cbn zeta.
  assert (o ∈ l ++ [o]) as Hin by (apply elem_of_app; right; by apply list_elem_of_singleton).
  destruct (rejection_reason o) as [r|] eqn:Hr; cbn; [|split; [done|]; intros q [= <-]; eauto].
  assert (newest_admissible l <> Some (obs_handle o)) as Hne.
  { intros (a & Ha' & He & _)%newest_elem. apply (Hnew (obs_handle o)); [|by apply list_elem_of_singleton].
    rewrite <- He. by apply list_elem_of_fmap_2. }
  rewrite Ha. destruct (newest_admissible l) as [h|]; cbn; [rewrite bool_decide_false by congruence; cbn|];
    (split; [done|]; intros q [= <-]; eauto).
Qed.

(** ** What the facts say of the history *)

(** The events that are newer than everything before them. *)
Fixpoint applied (last : option Z) (evs : list event) : list event :=
  match evs with
  | [] => []
  | ev :: evs => if not_newer last (event_sequence ev) then applied last evs else ev :: applied (Some (event_sequence ev)) evs
  end.

(** The last word on a network. *)
Definition latest (h : NetworkHandle) (before : option NetworkObservation) (evs : list event) : option NetworkObservation :=
  fold_left (fun acc ev => if event_handle ev =? h then match ev with EObserve o => Some o | ELost _ _ => None end else acc) evs before.

(** A network that is present and admissible, and no other such is newer. *)
Definition newest_present (f : ProductPlatformFacts) (h : NetworkHandle) : Prop :=
  exists s, cellular f !! h = Some s /\ rejection_reason (stored_observation s) = None /\
    forall h' s', cellular f !! h' = Some s' -> rejection_reason (stored_observation s') = None -> stored_sequence s' <= stored_sequence s.

Record facts_ok (f : ProductPlatformFacts) (e : CellularEgress) : Prop := {
  fo_last : last_cellular_sequence f = last_sequence (admission e);
  fo_stored h s : cellular f !! h = Some s ->
    obs_handle (stored_observation s) = h /\ stored_sequence s = obs_sequence (stored_observation s) /\
    exists l, last_cellular_sequence f = Some l /\ stored_sequence s <= l;
  fo_distinct h h' s s' : cellular f !! h = Some s -> cellular f !! h' = Some s' -> stored_sequence s = stored_sequence s' -> h = h';
  fo_admitted h : admitted_network (admission e) = Some h -> newest_present f h;
  fo_egress : egress_ok e }.

Lemma facts_default_ok : facts_ok facts_default new.
Proof. by split; try apply egress_new_ok. Qed.

Lemma stale_not_newer f e q : last_cellular_sequence f = last_sequence (admission e) -> is_stale e q = not_newer (last_cellular_sequence f) q.
Proof. intros ->. unfold is_stale, not_newer. by destruct (last_sequence (admission e)). Qed.

Lemma not_newer_false f q l : not_newer (last_cellular_sequence f) q = false -> last_cellular_sequence f = Some l -> l < q.
Proof. unfold not_newer. intros H E. rewrite E in H. cbn in H. by apply Z.leb_gt in H. Qed.

Lemma record_observation_ok f e o name :
  facts_ok f e -> facts_ok (record_event f (EObserve o, name)) (observe e o).2.
Proof.
  intros [H1 H2 H3 H4 H5]. cbn. unfold record_cellular_observation. pose proof (egress_observe_ok e o H5) as H5'. revert H5'.
  unfold observe. rewrite (stale_not_newer f e _ H1). destruct (not_newer _ _) eqn:Hn; [done|]. intros H5'.
  assert (forall h s, cellular f !! h = Some s -> stored_sequence s < obs_sequence o) as Hold.
  { intros h s (_ & _ & l & Hl & Hle)%H2. pose proof (not_newer_false f _ l Hn Hl). lia. }
  split; [|intros h s|intros h h' s s'|intros h|exact H5']; cbn [cellular last_cellular_sequence].
  - cbn. repeat case_match; done.
  - rewrite lookup_insert_Some. intros [[<- <-]|[Hne Hs]]; cbn; [eauto with lia|].
    destruct (H2 h s Hs) as (E1 & E2 & _). split; [done|]. split; [done|]. exists (obs_sequence o). split; [done|]. specialize (Hold h s Hs). lia.
  - rewrite !lookup_insert_Some. intros [[<- <-]|[Hne Hs]] [[<- <-]|[Hne' Hs']]; cbn; try done; [| |by apply (H3 h h' s s')].
    + pose proof (Hold _ _ Hs'). lia.
    + pose proof (Hold _ _ Hs). lia.
  - unfold newest_present. cbn. destruct (rejection_reason o) as [r|] eqn:Hr; cbn.
    + destruct (is_none _ || _) eqn:Hi; cbn; [done|]. intros Ha. cbn in Hi. apply orb_false_iff in Hi as [_ Hi].
      apply bool_decide_eq_false in Hi. rewrite Ha in Hi. destruct (H4 h Ha) as (s & Hs & Hadm & Hmax). exists s.
      split; [rewrite lookup_insert_ne by congruence; done|]. split; [done|]. intros h' s'. rewrite lookup_insert_Some.
      intros [[<- <-]|[_ Hs']]; cbn; [congruence|]. by apply Hmax with h'.
    + intros [= <-]. eexists. rewrite lookup_insert_eq. split; [done|]. split; [done|]. cbn. intros h' s'. rewrite lookup_insert_Some.
      intros [[<- <-]|[_ Hs']]; cbn; [done|]. intros _. pose proof (Hold _ _ Hs'). lia.
Qed.

Lemma record_loss_ok f e q h name : facts_ok f e -> facts_ok (record_event f (ELost q h, name)) (lost e q h).2.
Proof.
  intros [H1 H2 H3 H4 H5]. cbn. unfold record_cellular_loss. pose proof (lost_ok e q h H5) as H5'. revert H5'.
  unfold lost. rewrite (stale_not_newer f e _ H1). destruct (not_newer _ _) eqn:Hn; [done|]. intros H5'.
  split; [|intros h0 s|intros h0 h1 s s'|intros h0|exact H5']; cbn [cellular last_cellular_sequence].
  - cbn. by destruct (_ || _ || _).
  - intros [Hne Hs]%lookup_delete_Some. destruct (H2 h0 s Hs) as (E1 & E2 & l & Hl & Hle).
    split; [done|]. split; [done|]. exists q. split; [done|]. pose proof (not_newer_false f _ l Hn Hl). lia.
  - intros [_ Hs]%lookup_delete_Some [_ Hs']%lookup_delete_Some. by apply (H3 _ _ s s').
  - cbn. destruct (_ || _ || _) eqn:Hi; cbn; [done|]. intros Ha. cbn in Hi. rewrite Ha in Hi.
    apply orb_false_iff in Hi as [[Hi _]%orb_false_iff _]. apply bool_decide_eq_false in Hi.
    destruct (H4 h0 Ha) as (s & Hs & Hadm & Hmax). exists s. cbn. split; [by rewrite lookup_delete_ne by congruence|].
    split; [done|]. intros h' s' [_ Hs']%lookup_delete_Some. by apply Hmax with h'.
Qed.

Lemma record_event_ok f e ev : facts_ok f e -> facts_ok (record_event f ev) (Cellular.step e ev.1).2.
Proof. destruct ev as [[o|q h] name]; [apply record_observation_ok|apply record_loss_ok]. Qed.

Lemma record_events_from f e evs :
  facts_ok f e -> facts_ok (fold_left record_event evs f) (deliver e evs.*1).
Proof. revert f e. induction evs as [|ev evs IH]; intros f e H; [done|]. by apply IH, record_event_ok. Qed.

Lemma record_events_ok evs : facts_ok (record_events evs) (deliver new evs.*1).
Proof. apply record_events_from, facts_default_ok. Qed.

(** The facts are the last applied word on each network. *)
Lemma record_events_latest f evs h :
  stored_observation <$> cellular (fold_left record_event evs f) !! h
  = latest h (stored_observation <$> cellular f !! h) (applied (last_cellular_sequence f) evs.*1).
Proof.
  revert f. induction evs as [|[ev name] evs IH]; intros f; [done|]. cbn [fold_left fmap list_fmap fst applied]. rewrite IH.
  destruct ev as [o|q h']; cbn [record_event event_sequence fst]; unfold record_cellular_observation, record_cellular_loss;
    destruct (not_newer _ _); try done; cbn [cellular last_cellular_sequence]; unfold latest; cbn [fold_left event_handle]; f_equal.
  - destruct (Z.eqb_spec (obs_handle o) h) as [->|Hne]; [by rewrite lookup_insert_eq|by rewrite lookup_insert_ne].
  - destruct (Z.eqb_spec h' h) as [->|Hne]; [by rewrite lookup_delete_eq|by rewrite lookup_delete_ne].
Qed.

(** ** The replay *)

Lemma replay_elem f s : s ∈ cellular_replay f <-> exists h, cellular f !! h = Some s.
Proof.
  unfold cellular_replay. rewrite (merge_sort_Permutation by_sequence). rewrite list_elem_of_fmap. split.
  - intros ([h s'] & -> & Hin%elem_of_map_to_list). by exists h.
  - intros [h Hh]. exists (h, s). split; [done|]. by apply elem_of_map_to_list.
Qed.

Lemma replay_handles f e : facts_ok f e -> NoDup ((fun s => obs_handle (stored_observation s)) <$> cellular_replay f).
Proof.
  intros Hf. unfold cellular_replay. rewrite (merge_sort_Permutation by_sequence), <- list_fmap_compose.
  rewrite (list_fmap_ext _ fst); [apply NoDup_fst_map_to_list|]. intros i [h s] Hi%list_elem_of_lookup_2%elem_of_map_to_list.
  cbn. by destruct (fo_stored f e Hf h s Hi).
Qed.

Lemma sorted_strict {A} (key : A -> Z) l :
  StronglySorted (fun a b => key a <= key b) l -> (forall i j a b, l !! i = Some a -> l !! j = Some b -> key a = key b -> i = j) ->
  StronglySorted (fun a b => key a < key b) l.
Proof.
  induction 1 as [|a l Hs IH Ha]; intros Hinj; constructor.
  - apply IH. intros i j x y Hi Hj E. pose proof (Hinj (S i) (S j) x y Hi Hj E). lia.
  - rewrite Forall_lookup in *. intros i b Hi. specialize (Ha i b Hi). cbn in Ha.
    destruct (decide (key a = key b)) as [E|]; [|lia]. by pose proof (Hinj 0%nat (S i) a b eq_refl Hi E).
Qed.

#[export] Instance by_sequence_trans : Transitive by_sequence.
Proof. intros a b c. unfold by_sequence. lia. Qed.

#[export] Instance by_sequence_total : Total by_sequence.
Proof. intros a b. unfold by_sequence. lia. Qed.

Lemma replay_sorted f e :
  facts_ok f e -> StronglySorted (fun a b => obs_sequence a < obs_sequence b) (stored_observation <$> cellular_replay f).
Proof.
  intros Hf. pose proof (replay_handles f e Hf) as Hd.
  assert (forall s, s ∈ cellular_replay f -> exists h, cellular f !! h = Some s /\ obs_handle (stored_observation s) = h /\
    stored_sequence s = obs_sequence (stored_observation s)) as Hst.
  { intros s [h Hh]%replay_elem. exists h. destruct (fo_stored f e Hf h s Hh) as (? & ? & _). done. }
  assert (StronglySorted (fun a b => stored_sequence a < stored_sequence b) (cellular_replay f)) as Hs.
  { apply (sorted_strict stored_sequence); [apply (StronglySorted_merge_sort by_sequence)|]. intros i j a b Hi Hj E.
    destruct (Hst a) as (h & Hh & Eh & _); [by eapply list_elem_of_lookup_2|].
    destruct (Hst b) as (h' & Hh' & Eh' & _); [by eapply list_elem_of_lookup_2|].
    pose proof (fo_distinct f e Hf _ _ _ _ Hh Hh' E) as <-.
    apply (NoDup_lookup _ i j (obs_handle (stored_observation a)) Hd); rewrite list_lookup_fmap, ?Hi, ?Hj; cbn; congruence. }
  revert Hs Hst. generalize (cellular_replay f). clear. intros l. induction 1 as [|a l Hs IH Ha]; intros Hst; cbn; constructor.
  - apply IH. intros s Hin. apply Hst. by right.
  - rewrite Forall_fmap. rewrite Forall_forall in *. intros b Hb. cbn.
    destruct (Hst a) as (_ & _ & _ & <-); [by left|]. destruct (Hst b) as (_ & _ & _ & <-); [by right|]. by apply Ha.
Qed.

(** In a strictly ordered list the newest admissible one is the greatest. *)
Lemma newest_greatest l h :
  StronglySorted (fun a b => obs_sequence a < obs_sequence b) l ->
  newest_admissible l = Some h <->
  exists o, o ∈ l /\ obs_handle o = h /\ rejection_reason o = None /\
    forall o', o' ∈ l -> rejection_reason o' = None -> obs_sequence o' <= obs_sequence o.
Proof.
  induction 1 as [|a l Hs IH Ha]; cbn; [set_solver|]. rewrite Forall_forall in Ha.
  destruct (newest_admissible l) as [h'|] eqn:E.
  - split.
    + intros [= ->]. destruct (proj1 IH eq_refl) as (o & Ho & Eh & Hr & Hm). exists o. split; [by right|]. split; [done|]. split; [done|].
      intros o' [->|Ho']%elem_of_cons Hr'; [apply Z.lt_le_incl; by apply Ha|by apply Hm].
    + intros (o & [->|Ho]%elem_of_cons & Eh & Hr & Hm).
      * apply newest_elem in E as (o & Ho & _ & Hr'). pose proof (Ha o Ho). pose proof (Hm o ltac:(by right) Hr'). lia.
      * apply IH. exists o. split; [done|]. split; [done|]. split; [done|]. intros o' Ho'. apply Hm. by right.
  - assert (forall o, o ∈ l -> rejection_reason o <> None) as Hnone.
    { clear -E. induction l as [|x l IH]; [set_solver|]. cbn in E. destruct (newest_admissible l); [done|].
      destruct (rejection_reason x) eqn:Hx; [|done]. intros o [->|Ho]%elem_of_cons; [congruence|by apply IH]. }
    destruct (rejection_reason a) as [r|] eqn:Hr; cbn; split; try done.
    + intros (o & [->|Ho]%elem_of_cons & _ & Hr' & _); [congruence|by apply Hnone in Ho].
    + intros [= <-]. exists a. split; [by left|]. split; [done|]. split; [done|].
      intros o' [->|Ho']%elem_of_cons Hr'; [done|by apply Hnone in Ho'].
    + intros (o & [->|Ho]%elem_of_cons & <- & Hr' & _); [done|by apply Hnone in Ho].
Qed.

Lemma replay_admits f e h :
  facts_ok f e -> admitted_network (admission (deliver new (replay_events f))) = Some h <-> newest_present f h.
Proof.
  intros Hf. unfold replay_events. destruct (cellular_replay f) as [|s l] eqn:E.
  - assert (forall h s, cellular f !! h <> Some s) as Hn.
    { intros h' s Hs. assert (s ∈ cellular_replay f) as Hin by (apply replay_elem; eauto). rewrite E in Hin. set_solver. }
    split; [|intros (s & Hs & _); by apply Hn in Hs]. destruct (last_cellular_loss f) as [[q h']|]; cbn; [|done].
    unfold lost. cbn. by rewrite orb_true_r.
  - rewrite <- E. clear E s l. rewrite (list_fmap_compose stored_observation EObserve).
    destruct (deliver_ordered (stored_observation <$> cellular_replay f)) as [-> _].
    { by eapply replay_sorted. }
    { rewrite <- list_fmap_compose. by eapply replay_handles. }
    rewrite newest_greatest by (by eapply replay_sorted). unfold newest_present. setoid_rewrite list_elem_of_fmap. split.
    + intros (o & (s & -> & [h' Hs]%replay_elem) & Eh & Hr & Hm). destruct (fo_stored f e Hf h' s Hs) as (Eh' & Eq & _).
      rewrite Eh in Eh'. subst h'. exists s. split; [done|]. split; [done|]. intros h' s' Hs' Hr'.
      destruct (fo_stored f e Hf h' s' Hs') as (_ & Eq' & _). rewrite Eq, Eq'. apply Hm; [|done]. exists s'. split; [done|]. apply replay_elem. eauto.
    + intros (s & Hs & Hr & Hm). destruct (fo_stored f e Hf h s Hs) as (Eh & Eq & _). exists (stored_observation s).
      split; [exists s; split; [done|]; apply replay_elem; eauto|]. split; [done|]. split; [done|].
      intros o' (s' & -> & [h' Hs']%replay_elem) Hr'. destruct (fo_stored f e Hf h' s' Hs') as (_ & Eq' & _). rewrite <- Eq, <- Eq'. by eapply Hm.
Qed.

(** C35: Compacting Android's history loses nothing a fresh generation needs.  For every
    sequence of events, stale ones included: the facts hold, for each network, the last
    applied word on it; replaying them admits exactly the newest network that is present
    and admissible; and whenever the owner that saw the whole history has a network
    admitted, the replayed owner has the same. *)
Theorem replay_restores_admission evs :
  let f := record_events evs in let replayed := deliver new (replay_events f) in
  (forall h, stored_observation <$> cellular f !! h = latest h None (applied None evs.*1)) /\
  (forall h, admitted_network (admission replayed) = Some h <-> newest_present f h) /\
  (forall h, admitted_network (admission (deliver new evs.*1)) = Some h -> admitted_network (admission replayed) = Some h).
Proof.
  intros f replayed. pose proof (record_events_ok evs) as Hf. split_and!.
  - intros h. apply (record_events_latest facts_default).
  - intros h. by eapply replay_admits.
  - intros h Ha. eapply replay_admits; [done|]. by eapply fo_admitted.
Qed.
