(* ===== verification/ProductRuntime.v ===== *)
(** * Product runtime

    [src/crates/runtime/src/product_runtime.rs] (less the facts, which are in
    [ProductFacts]), [product_generation.rs] and [execution.rs]: the stable process
    handle, the generations it installs one after the other, their drain, and the
    executor everything runs on.

    A critical section of the handle's mutex is one [dsection]; methods and tasks are
    programs over sections, over calls of a generation's owners, whose answers come
    from outside, over the cell that makes a drain happen once, and over the executor.
    Generations are positions in a store, for the handle shares them with tasks that
    outlive their replacement. *)

From S2P Require Import CellularRuntime ControlRuntime RotationRuntime.
From S2P Require Import Prelude Net RustStr Transport Lifecycle Interaction Threads Rotation.
From stdpp Require Import gmap list.
From S2P Require Import Cellular ProductFacts.

#[local] Open Scope Z_scope.

Inductive RuntimeExecutionError := ThreadUnavailable | ExecutionStateUnavailable.

(** ** Executor *)

Record RuntimeExecutor := { runtime : bool; active_tasks : Z }.

Definition executor_new : RuntimeExecutor := {| runtime := true; active_tasks := 0 |}.

Definition handle (x : RuntimeExecutor) : result RuntimeExecutionError unit :=
  if runtime x then Ok tt else Err ExecutionStateUnavailable.

(** [false] when there is no runtime any more. *)
Definition spawn (x : RuntimeExecutor) : bool * RuntimeExecutor :=
  match handle x with
  | Err _ => (false, x)
  | Ok _ => (true, {| runtime := runtime x; active_tasks := (active_tasks x + 1) mod (u64_max + 1) |})
  end.

(** [ActiveTaskGuard] is dropped with the task. *)
Definition task_ended (x : RuntimeExecutor) : RuntimeExecutor :=
  {| runtime := runtime x; active_tasks := (active_tasks x - 1) mod (u64_max + 1) |}.

Definition executor_shutdown (x : RuntimeExecutor) : RuntimeExecutor := {| runtime := false; active_tasks := active_tasks x |}.

(** ** Generations *)

(** [OnceCell] *)
Inductive once := Unset | Initializing | Set_ (b : bool).

(** Observers are platform callbacks: numbers. *)
Inductive observed := OCellular | OReadiness | OProxy | OMesh | ORotation.

Record ProductObservers := {
  obs_cellular : option nat; obs_readiness : option nat; obs_proxy : option nat; obs_mesh : option nat; obs_rotation : option nat }.

Definition no_observers : ProductObservers :=
  {| obs_cellular := None; obs_readiness := None; obs_proxy := None; obs_mesh := None; obs_rotation := None |}.

Definition observer_of (os : ProductObservers) (k : observed) : option nat :=
  match k with
  | OCellular => obs_cellular os | OReadiness => obs_readiness os | OProxy => obs_proxy os | OMesh => obs_mesh os
  | ORotation => obs_rotation os
  end.

Definition with_observer (os : ProductObservers) (k : observed) (o : nat) : ProductObservers :=
  {| obs_cellular := match k with OCellular => Some o | _ => obs_cellular os end;
     obs_readiness := match k with OReadiness => Some o | _ => obs_readiness os end;
     obs_proxy := match k with OProxy => Some o | _ => obs_proxy os end;
     obs_mesh := match k with OMesh => Some o | _ => obs_mesh os end;
     obs_rotation := match k with ORotation => Some o | _ => obs_rotation os end |}.

(** [bound] are the observers the generation's owners call, each behind the check of
    [observer_generation] against the generation's number. *)
Record ProductGeneration := { number : Z; shutdown_result : once; bound : ProductObservers }.

Abbreviation gid := nat.

(** ** State *)

Record ProductStartInput := { input_version : option Z; input_username : option str; input_password : option str }.

Record ControlStartInput := { input_spki : list Z; input_signer : nat }.

Record ProductRuntimeState := {
  lifecycle : RuntimeLifecycle;
  generation : gid;
  pending_start : option ProductStartInput;
  control_start : option ControlStartInput;
  observers : ProductObservers;
  platform_facts : ProductPlatformFacts;
  platform_mutation_epoch : Z;
  active_platform_mutation : option Z;
  closed : bool }.

Record product_world := {
  product_uid : Z;
  state : ProductRuntimeState;
  observer_generation : Z;
  generations : list ProductGeneration;
  executor : RuntimeExecutor }.

(** Field assignments. *)
Definition set_lifecycle (s : ProductRuntimeState) (l : RuntimeLifecycle) : ProductRuntimeState :=
  {| lifecycle := l; generation := generation s; pending_start := pending_start s; control_start := control_start s;
     observers := observers s; platform_facts := platform_facts s; platform_mutation_epoch := platform_mutation_epoch s;
     active_platform_mutation := active_platform_mutation s; closed := closed s |}.

Definition set_generation (s : ProductRuntimeState) (g : gid) : ProductRuntimeState :=
  {| lifecycle := lifecycle s; generation := g; pending_start := pending_start s; control_start := control_start s;
     observers := observers s; platform_facts := platform_facts s; platform_mutation_epoch := platform_mutation_epoch s;
     active_platform_mutation := active_platform_mutation s; closed := closed s |}.

Definition set_pending (s : ProductRuntimeState) (p : option ProductStartInput) : ProductRuntimeState :=
  {| lifecycle := lifecycle s; generation := generation s; pending_start := p; control_start := control_start s;
     observers := observers s; platform_facts := platform_facts s; platform_mutation_epoch := platform_mutation_epoch s;
     active_platform_mutation := active_platform_mutation s; closed := closed s |}.

Definition set_control (s : ProductRuntimeState) (c : option ControlStartInput) : ProductRuntimeState :=
  {| lifecycle := lifecycle s; generation := generation s; pending_start := pending_start s; control_start := c;
     observers := observers s; platform_facts := platform_facts s; platform_mutation_epoch := platform_mutation_epoch s;
     active_platform_mutation := active_platform_mutation s; closed := closed s |}.

Definition set_observers (s : ProductRuntimeState) (o : ProductObservers) : ProductRuntimeState :=
  {| lifecycle := lifecycle s; generation := generation s; pending_start := pending_start s; control_start := control_start s;
     observers := o; platform_facts := platform_facts s; platform_mutation_epoch := platform_mutation_epoch s;
     active_platform_mutation := active_platform_mutation s; closed := closed s |}.

Definition set_facts (s : ProductRuntimeState) (f : ProductPlatformFacts) : ProductRuntimeState :=
  {| lifecycle := lifecycle s; generation := generation s; pending_start := pending_start s; control_start := control_start s;
     observers := observers s; platform_facts := f; platform_mutation_epoch := platform_mutation_epoch s;
     active_platform_mutation := active_platform_mutation s; closed := closed s |}.

Definition set_mutation (s : ProductRuntimeState) (epoch : Z) (active : option Z) : ProductRuntimeState :=
  {| lifecycle := lifecycle s; generation := generation s; pending_start := pending_start s; control_start := control_start s;
     observers := observers s; platform_facts := platform_facts s; platform_mutation_epoch := epoch;
     active_platform_mutation := active; closed := closed s |}.

Definition set_closed (s : ProductRuntimeState) : ProductRuntimeState :=
  {| lifecycle := lifecycle s; generation := generation s; pending_start := None; control_start := control_start s;
     observers := observers s; platform_facts := platform_facts s; platform_mutation_epoch := platform_mutation_epoch s;
     active_platform_mutation := active_platform_mutation s; closed := true |}.

Definition with_state (w : product_world) (s : ProductRuntimeState) : product_world :=
  {| product_uid := product_uid w; state := s; observer_generation := observer_generation w; generations := generations w;
     executor := executor w |}.

Definition with_executor (w : product_world) (x : RuntimeExecutor) : product_world :=
  {| product_uid := product_uid w; state := state w; observer_generation := observer_generation w; generations := generations w;
     executor := x |}.

Definition with_generations (w : product_world) (gs : list ProductGeneration) : product_world :=
  {| product_uid := product_uid w; state := state w; observer_generation := observer_generation w; generations := gs;
     executor := executor w |}.

(** [ProductGeneration::new]: [built] says whether its owners could be built. *)
Definition generation_new (uid n : Z) (built : bool) : result RuntimeExecutionError ProductGeneration :=
  if (n =? 0) || (uid =? 0) || negb built then Err ExecutionStateUnavailable
  else Ok {| number := n; shutdown_result := Unset; bound := no_observers |}.

(** Installing what was built: [state.generation] and [observer_generation]. *)
Definition install (g : ProductGeneration) (w : product_world) : product_world :=
  {| product_uid := product_uid w; state := set_generation (state w) (length (generations w)); observer_generation := number g;
     generations := generations w ++ [g]; executor := executor w |}.

Definition product_new (uid : Z) (built : bool) : result RuntimeExecutionError product_world :=
  if uid =? 0 then Err ExecutionStateUnavailable
  else
    match generation_new uid (Lifecycle.generation Lifecycle.new) built with
    | Err e => Err e
    | Ok g =>
        Ok {| product_uid := uid;
              state := {| lifecycle := Lifecycle.new; generation := 0; pending_start := None; control_start := None;
                          observers := no_observers; platform_facts := facts_default; platform_mutation_epoch := 0;
                          active_platform_mutation := None; closed := false |};
              observer_generation := Lifecycle.generation Lifecycle.new; generations := [g]; executor := executor_new |}
    end.

(** ** Critical sections *)

Definition active (s : ProductRuntimeState) : bool :=
  match Lifecycle.state (lifecycle s) with Starting | Running => true | _ => false end.

Definition is_state (s : ProductRuntimeState) (x : RuntimeLifecycleState) : bool := Lifecycle.state (lifecycle s) =b? x.

Definition active_generation (s : ProductRuntimeState) : option gid := if active s then Some (generation s) else None.

(** The generation that observes it, and whether control starts at once. *)
Definition control_section (input : ControlStartInput) (s : ProductRuntimeState)
    : result ControlRuntimeStartError (gid * option ControlStartInput * bool) * ProductRuntimeState :=
  if closed s || negb (active s) then (Err ControlStateUnavailable, s)
  else if is_some_and (control_start s) (fun existing => input_spki existing <>b? input_spki input) then (Err AlreadyStarted, s)
  else (Ok (generation s, control_start s, is_state s Running), set_control s (Some input)).

Definition facts_section (f : ProductPlatformFacts -> ProductPlatformFacts) (s : ProductRuntimeState)
    : option gid * ProductRuntimeState :=
  let s := set_facts s (f (platform_facts s)) in (active_generation s, s).

Inductive start_reply :=
| StartRefused (e : RuntimeExecutionError)
| StartReturns (a : RuntimeStartAction)
| StartGoes (expected : Z) (rebound : option (gid * ProductObservers)).

Definition request_start_section (input : ProductStartInput) (built : bool) (w : product_world) : start_reply * product_world :=
  let s := state w in
  if closed s || is_some (active_platform_mutation s) then (StartRefused ExecutionStateUnavailable, w)
  else
    let '(action, l) := Lifecycle.request_start (lifecycle s) in
    match action with
    | AlreadyActive => (StartReturns action, with_state w (set_lifecycle s l))
    | QueuedAfterStop => (StartReturns action, with_state w (set_pending (set_lifecycle s l) (Some input)))
    | StartNow =>
        if generation_requires_replacement l then
          let '(taken, l) := take_generation_replacement_for_start l in
          if negb taken then
            (StartRefused ExecutionStateUnavailable, with_state w (set_lifecycle s (start_submission_failed l)))
          else
            match generation_new (product_uid w) (Lifecycle.generation l) built with
            | Err e =>
                (StartRefused e,
                 with_state w (set_lifecycle s (mark_stopped_generation_dirty (start_submission_failed l)).2))
            | Ok g =>
                let w := install g (with_state w (set_lifecycle s l)) in
                let w := with_state w (set_pending (state w) None) in
                (StartGoes (Lifecycle.generation l) (Some (generation (state w), observers s)), w)
            end
        else (StartGoes (Lifecycle.generation l) None, with_state w (set_pending (set_lifecycle s l) None))
    end.

Definition begin_mutation_section (s : ProductRuntimeState) : option Z * ProductRuntimeState :=
  if closed s || is_some (active_platform_mutation s) || negb (can_mutate_stopped_generation (lifecycle s)) then (None, s)
  else
    match checked_add u64_max (platform_mutation_epoch s) 1 with
    | None => (None, set_lifecycle s (mark_stopped_generation_dirty (lifecycle s)).2)
    | Some next => (Some next, set_mutation s next (Some next))
    end.

(** The rebinding is left to do outside the lock. *)
Definition complete_mutation_section (lease : Z) (succeeded built : bool) (w : product_world)
    : option (gid * ProductObservers) * product_world :=
  let s := state w in
  if closed s || (active_platform_mutation s <>b? Some lease) then (None, w)
  else
    let s := set_mutation s (platform_mutation_epoch s) None in
    let dirty l := with_state w (set_lifecycle s (mark_stopped_generation_dirty l).2) in
    if negb succeeded || negb (can_mutate_stopped_generation (lifecycle s)) then (None, dirty (lifecycle s))
    else
      let '(advanced, l) := advance_stopped_generation (lifecycle s) in
      if negb advanced then (None, dirty l)
      else
        match generation_new (product_uid w) (Lifecycle.generation l) built with
        | Err _ => (None, dirty l)
        | Ok g => let w := install g (with_state w (set_lifecycle s l)) in (Some (generation (state w), observers s), w)
        end.

Definition request_stop_section (s : ProductRuntimeState) : (RuntimeStopAction * Z) * ProductRuntimeState :=
  if closed s then ((AlreadyStopped, 0), s)
  else
    let '(action, l) := Lifecycle.request_stop (lifecycle s) in
    ((action, Lifecycle.generation l), set_lifecycle s l).

Definition close_section (s : ProductRuntimeState) : bool * ProductRuntimeState :=
  if closed s then (true, s) else (false, set_closed s).

Definition number_of (w : product_world) (g : gid) : option Z := number <$> generations w !! g.

Definition run_start_section (expected : Z) (w : product_world) : option (gid * ProductPlatformFacts) :=
  let s := state w in
  if closed s || negb (is_state s Starting) || negb (Lifecycle.generation (lifecycle s) =? expected)
     || (number_of w (generation s) <>b? Some expected)
  then None
  else Some (generation s, platform_facts s).

(** [None] when somebody else has decided. *)
Definition started_section (expected : Z) (s : ProductRuntimeState) : option (option ControlStartInput) * ProductRuntimeState :=
  if negb (closed s) && (Lifecycle.generation (lifecycle s) =? expected) && is_state s Starting
  then (Some (control_start s), set_lifecycle s (complete_start (lifecycle s) true true).2)
  else (None, s).

Definition still_starting (expected : Z) (g : gid) (s : ProductRuntimeState) : bool :=
  negb (closed s) && (Lifecycle.generation (lifecycle s) =? expected) && is_state s Starting && (generation s =b? g).

(** [complete_failed_start_after_cleanup]; the first component says whether the
    lifecycle was still there to be decided. *)
Definition failed_start_section (expected : Z) (clean built : bool) (w : product_world)
    : (bool * option (gid * ProductObservers)) * product_world :=
  let s := state w in
  if closed s || negb (Lifecycle.generation (lifecycle s) =? expected) || negb (is_state s Starting) then ((false, None), w)
  else
    let '(completion, l) := complete_start (lifecycle s) false clean in
    if negb (sc_install_fresh_generation_now completion) then ((true, None), with_state w (set_lifecycle s l))
    else
      match generation_new (product_uid w) (Lifecycle.generation l) built with
      | Ok g => let w := install g (with_state w (set_lifecycle s l)) in ((true, Some (generation (state w), observers s)), w)
      | Err _ => ((true, None), with_state w (set_lifecycle s (mark_stopped_generation_dirty l).2))
      end.

Definition run_stop_section (expected : Z) (s : ProductRuntimeState) : option gid :=
  if negb (Lifecycle.generation (lifecycle s) =? expected) || negb (is_state s Stopping) then None else Some (generation s).

Record ProductStopCompletion := { rebind : option (gid * ProductObservers); restart : option ProductStartInput }.

(** [complete_stop_after_cleanup] *)
Definition stopped_section (expected : Z) (clean built : bool) (w : product_world) : option ProductStopCompletion * product_world :=
  let s := state w in
  if closed s || negb (Lifecycle.generation (lifecycle s) =? expected) || negb (is_state s Stopping) then (None, w)
  else
    let '(disposition, l) := complete_stop (lifecycle s) clean in
    let '(rebind, w) :=
      if install_fresh_generation_now disposition then
        match generation_new (product_uid w) (Lifecycle.generation l) built with
        | Ok g => let w := install g (with_state w (set_lifecycle s l)) in (Some (generation (state w), observers s), w)
        | Err _ => (None, with_state w (set_lifecycle s (mark_stopped_generation_dirty l).2))
        end
      else (None, with_state w (set_lifecycle s l)) in
    let restart := if restart_now disposition && is_some rebind then pending_start s else None in
    (Some {| rebind := rebind; restart := restart |}, with_state w (set_pending (state w) None)).

(** The restart that was queued; the generation it is for. *)
Definition restart_section (s : ProductRuntimeState) : option Z * ProductRuntimeState :=
  let '(action, l) := Lifecycle.request_start (lifecycle s) in
  (match action with StartNow => Some (Lifecycle.generation l) | _ => None end, set_lifecycle s l).

Inductive dsection :=
| SSnapshot
| SCurrent
| SActive
| SControl (input : ControlStartInput)
| SControlRestore (previous : option ControlStartInput)
| SObserve (sequence : Z) (o : NetworkObservation) (h : NetworkHandle) (name : option str)
| SLost (sequence : Z) (h : NetworkHandle)
| SMesh (sequence : Z) (o : MeshVpnObservation)
| SClearCellular
| SClearMesh
| SSetObserver (k : observed) (o : nat)
| SRequestStart (input : ProductStartInput)
| SStartSubmissionFailed
| SBeginMutation
| SCompleteMutation (lease : Z) (succeeded : bool)
| SRequestStop
| SStopSubmissionFailed
| SClose
| SRunStart (expected : Z)
| SStarted (expected : Z)
| SStillStarting (expected : Z) (g : gid)
| SFailedStart (expected : Z) (clean : bool)
| SRunStop (expected : Z)
| SStopped (expected : Z) (clean : bool)
| SRestart.

Definition dsection_reply (l : dsection) : Type :=
  match l with
  | SSnapshot => RuntimeLifecycle
  | SCurrent => gid
  | SActive => option gid
  | SControl _ => result ControlRuntimeStartError (gid * option ControlStartInput * bool)
  | SControlRestore _ | SStartSubmissionFailed | SStopSubmissionFailed => unit
  | SObserve _ _ _ _ | SLost _ _ | SMesh _ _ | SClearCellular | SClearMesh => option gid
  | SSetObserver _ _ => gid
  | SRequestStart _ => start_reply
  | SBeginMutation => option Z
  | SCompleteMutation _ _ => option (gid * ProductObservers)
  | SRequestStop => RuntimeStopAction * Z
  | SClose => bool
  | SRunStart _ => option (gid * ProductPlatformFacts)
  | SStarted _ => option (option ControlStartInput)
  | SStillStarting _ _ => bool
  | SFailedStart _ _ => bool * option (gid * ProductObservers)
  | SRunStop _ => option gid
  | SStopped _ _ => option ProductStopCompletion
  | SRestart => option Z
  end.

(** A section that only sees the state. *)
Definition on_state {A} (f : ProductRuntimeState -> A * ProductRuntimeState) (w : product_world) : A * product_world :=
  let '(a, s) := f (state w) in (a, with_state w s).

Definition denter (l : dsection) (built : bool) (w : product_world) : dsection_reply l * product_world :=
  match l return dsection_reply l * product_world with
  | SSnapshot => (lifecycle (state w), w)
  | SCurrent => (generation (state w), w)
  | SActive => (active_generation (state w), w)
  | SControl input => on_state (control_section input) w
  | SControlRestore previous => on_state (fun s => (tt, set_control s previous)) w
  | SObserve q o h name => on_state (facts_section (record_cellular_observation q o h name)) w
  | SLost q h => on_state (facts_section (record_cellular_loss q h)) w
  | SMesh q o => on_state (facts_section (record_mesh q o)) w
  | SClearCellular => on_state (facts_section clear_cellular) w
  | SClearMesh => on_state (facts_section clear_mesh) w
  | SSetObserver k o => on_state (fun s => (generation s, set_observers s (with_observer (observers s) k o))) w
  | SRequestStart input => request_start_section input built w
  | SStartSubmissionFailed => on_state (fun s => (tt, set_lifecycle s (start_submission_failed (lifecycle s)))) w
  | SBeginMutation => on_state begin_mutation_section w
  | SCompleteMutation lease succeeded => complete_mutation_section lease succeeded built w
  | SRequestStop => on_state request_stop_section w
  | SStopSubmissionFailed => on_state (fun s => (tt, set_lifecycle s (stop_submission_failed (lifecycle s)))) w
  | SClose => on_state close_section w
  | SRunStart expected => (run_start_section expected w, w)
  | SStarted expected => on_state (started_section expected) w
  | SStillStarting expected g => (still_starting expected g (state w), w)
  | SFailedStart expected clean => failed_start_section expected clean built w
  | SRunStop expected => (run_stop_section expected (state w), w)
  | SStopped expected clean => stopped_section expected clean built w
  | SRestart => on_state restart_section w
  end.

(** ** Requests *)

(** Calls of a generation's owners.  Of an answer that is only looked at for success
    the success is kept. *)
Inductive gcall :=
| GPolicyStart
| GObserveNetwork (o : NetworkObservation) (h : NetworkHandle) (name : option str)
| GNetworkLost (sequence : Z) (h : NetworkHandle)
| GRotationObserve (a : CellularAdmissionSnapshot)
| GMeshObserve (sequence : Z) (o : MeshVpnObservation)
| GReadinessMesh (s : MeshTransportSnapshot)
| GMeshSnapshot
| GProxyStart (input : ProductStartInput)
| GControlStart (input : ControlStartInput)
| GRotationStart
| GSetTemporary (username password : str) (available : nat)
| GRestoreTemporary (serving : Z) (username password : str) (available : nat)
| GClearTemporary
| GServingGeneration
| GControlShutdown
| GRotationShutdown
| GProxyShutdown
| GReadinessShutdown
| GMeshShutdown
| GPolicyShutdown.

Definition gcall_reply (c : gcall) : Type :=
  match c with
  | GPolicyStart | GReadinessMesh _ | GProxyStart _ | GSetTemporary _ _ _ | GRestoreTemporary _ _ _ _ | GClearTemporary
  | GControlShutdown | GRotationShutdown | GPolicyShutdown => bool
  | GObserveNetwork _ _ _ | GNetworkLost _ _ => result CellularRuntimeError CellularAdmissionSnapshot
  | GRotationObserve _ | GReadinessShutdown => unit
  | GMeshObserve _ _ | GMeshSnapshot => result MeshTransportError MeshTransportSnapshot
  | GControlStart _ => result ControlRuntimeStartError str
  | GRotationStart => result RotationRuntimeStartError Z
  | GServingGeneration => option Z
  | GProxyShutdown => option (option ProxyServingFailure)
  | GMeshShutdown => option bool
  end.

Inductive product_task :=
| StartTask (expected : Z) (input : ProductStartInput)
| StopTask (expected : Z)
| RestoreTask (expected : Z) (serving : option Z) (available : nat).

Inductive once_reply := Initialize | Already (b : bool).

Inductive product_request :=
| DLocked (l : dsection)
| DGen (g : gid) (c : gcall)
| DNumber (g : gid)
| DBind (g : gid) (k : observed) (o : nat)
| DOnce (g : gid)
| DOnceSet (g : gid) (b : bool)
| DSpawn (t : product_task)
| DEnded
| DHandle
| DExecutorShutdown
| DActiveTasks
| DLoadRecord
| DBound (g : gid) (k : observed)
| DFence
| DDeliver (g : gid) (k : observed) (o : nat).

Definition product_reply (r : product_request) : Type :=
  match r with
  | DLocked l => dsection_reply l
  | DGen _ c => gcall_reply c
  | DNumber _ => option Z
  | DBind _ _ _ | DOnceSet _ _ | DEnded | DExecutorShutdown | DDeliver _ _ _ => unit
  | DOnce _ => once_reply
  | DSpawn _ | DHandle => bool
  | DActiveTasks => Z
  | DLoadRecord => option (str * str)
  | DBound _ _ => option (Z * nat)
  | DFence => Z
  end.

Abbreviation dprog := (prog product_request product_reply).
Abbreviation dask r := (@request product_request product_reply r).
Abbreviation dlock l := (@request product_request product_reply (DLocked l)).
Abbreviation dcall g c := (@request product_request product_reply (DGen g c)).

(** ** Generation *)

(** [shutdown_async]: who comes first drains, the others wait for the answer. *)
Definition shutdown_async (g : gid) : dprog bool :=
  let> first := dask (DOnce g) in
  match first with
  | Already b => Ret b
  | Initialize =>
      let> control_clean := dcall g GControlShutdown in
      let> rotation_clean := dcall g GRotationShutdown in
      let> proxy := dcall g GProxyShutdown in
      let proxy_clean := match proxy with
                         | Some (Some Lifecycle.ShutdownFailed) => false
                         | Some _ => true
                         | None => false
                         end in
      let> _ := dcall g GReadinessShutdown in
      let> mesh := dcall g GMeshShutdown in
      let mesh_clean := match mesh with Some ok => ok | None => false end in
      let> policy_clean := dcall g GPolicyShutdown in
      let clean := control_clean && rotation_clean && proxy_clean && mesh_clean && policy_clean in
      let> _ := dask (DOnceSet g clean) in
      Ret clean
  end.

Definition bind_one (g : gid) (k : observed) (o : option nat) : dprog unit :=
  match o with Some o => dask (DBind g k o) | None => Ret tt end.

Definition bind_observers (g : gid) (os : ProductObservers) : dprog unit :=
  let> _ := bind_one g OCellular (obs_cellular os) in
  let> _ := bind_one g OReadiness (obs_readiness os) in
  let> _ := bind_one g OProxy (obs_proxy os) in
  let> _ := bind_one g OMesh (obs_mesh os) in
  bind_one g ORotation (obs_rotation os).

Definition bind_rebound (r : option (gid * ProductObservers)) : dprog unit :=
  match r with Some (g, os) => bind_observers g os | None => Ret tt end.

Definition apply_mesh_observation (g : gid) (sequence : Z) (o : MeshVpnObservation)
    : dprog (result MeshTransportError MeshTransportSnapshot) :=
  let> snapshot := dcall g (GMeshObserve sequence o) in
  match snapshot with
  | Err e => Ret (Err e)
  | Ok s =>
      let> observed := dcall g (GReadinessMesh s) in
      if negb observed then Ret (Err Transport.StateUnavailable) else dcall g GMeshSnapshot
  end.

(** [false] as soon as an observation is refused. *)
Fixpoint replay_observations (g : gid) (l : list StoredCellularObservation) : dprog bool :=
  match l with
  | [] => Ret true
  | s :: l =>
      let> r := dcall g (GObserveNetwork (stored_observation s) (stored_handle s) (interface_name s)) in
      if is_ok r then replay_observations g l else Ret false
  end.

Definition replay_platform_facts (g : gid) (f : ProductPlatformFacts) : dprog bool :=
  let cellular := cellular_replay f in
  let> replayed := replay_observations g cellular in
  if negb replayed then Ret false
  else
    let> lost :=
      match cellular, last_cellular_loss f with
      | [], Some (sequence, h) =>
          if sequence =? 0 then Ret false else let> r := dcall g (GNetworkLost sequence h) in Ret (is_ok r)
      | _, _ => Ret true
      end in
    if negb lost then Ret false
    else
      match mesh f with
      | Some m => let> r := apply_mesh_observation g (mesh_sequence m) (mesh_observation m) in Ret (is_ok r)
      | None => Ret true
      end.

(** ** Tasks *)

Definition finish_failed_start (expected : Z) (g : gid) : dprog unit :=
  let> still := dlock (SStillStarting expected g) in
  if negb still then Ret tt
  else
    let> clean := shutdown_async g in
    let> (_, rebound) := dlock (SFailedStart expected clean) in
    bind_rebound rebound.

Definition run_start (expected : Z) (input : ProductStartInput) : dprog unit :=
  let> go := dlock (SRunStart expected) in
  match go with
  | None => Ret tt
  | Some (g, facts) =>
      let> policy := dcall g GPolicyStart in
      let> replayed := if policy then replay_platform_facts g facts else Ret false in
      if negb replayed then finish_failed_start expected g
      else
        let> proxy_started := dcall g (GProxyStart input) in
        if negb proxy_started then finish_failed_start expected g
        else
          let> started := dlock (SStarted expected) in
          match started with
          | Some (Some control) => let> _ := dcall g (GControlStart control) in Ret tt
          | _ => Ret tt
          end
  end.

Definition run_stop (expected : Z) : dprog unit :=
  let> go := dlock (SRunStop expected) in
  match go with
  | None => Ret tt
  | Some g =>
      let> clean := shutdown_async g in
      let> completion := dlock (SStopped expected clean) in
      match completion with
      | None => Ret tt
      | Some c =>
          let> _ := bind_rebound (rebind c) in
          match restart c with
          | None => Ret tt
          | Some input =>
              let> again := dlock SRestart in
              match again with None => Ret tt | Some expected => run_start expected input end
          end
      end
  end.

Definition restore_temporary (expected : Z) (serving : option Z) (available : nat) : dprog unit :=
  let> record := dask DLoadRecord in
  match record with
  | None => Ret tt
  | Some (username, password) =>
      let> current := dlock SActive in
      match current with
      | None => Ret tt
      | Some g =>
          let> n := dask (DNumber g) in
          if n <>b? Some expected then Ret tt
          else
            let> now := dcall g GServingGeneration in
            if now <>b? serving then Ret tt
            else
              match serving with
              | Some serving => let> _ := dcall g (GRestoreTemporary serving username password available) in Ret tt
              | None => Ret tt
              end
      end
  end.

(** ** Methods *)

Record ProductRuntimeSnapshot := {
  snap_state : RuntimeLifecycleState;
  snap_generation : Z;
  snap_requires_replacement : bool;
  snap_active_tasks : Z }.

Definition snapshot : dprog ProductRuntimeSnapshot :=
  let> l := dlock SSnapshot in
  let> n := dask DActiveTasks in
  Ret {| snap_state := Lifecycle.state l; snap_generation := Lifecycle.generation l;
         snap_requires_replacement := generation_requires_replacement l; snap_active_tasks := n |}.

Definition refused {A} (ok : bool) (a : A) : result RuntimeExecutionError A := if ok then Ok a else Err ExecutionStateUnavailable.

Definition install_temporary_proxy_credential (username password : str) (available : nat) : dprog (result RuntimeExecutionError unit) :=
  let> g := dlock SActive in
  match g with
  | None => Ret (Err ExecutionStateUnavailable)
  | Some g => let> ok := dcall g (GSetTemporary username password available) in Ret (refused ok tt)
  end.

Definition clear_temporary_proxy_credential : dprog (result RuntimeExecutionError unit) :=
  let> g := dlock SActive in
  match g with
  | None => Ret (Err ExecutionStateUnavailable)
  | Some g => let> ok := dcall g GClearTemporary in Ret (refused ok tt)
  end.

Definition restore_temporary_proxy_credential_after_running (expected : Z) (serving : option Z) (available : nat)
    : dprog (result RuntimeExecutionError unit) :=
  let> ok := dask (DSpawn (RestoreTask expected serving available)) in Ret (refused ok tt).

Definition start_public_ip_rotation : dprog (result RotationRuntimeStartError Z) :=
  let> g := dlock SActive in
  match g with None => Ret (Err StartRuntimeNotRunning) | Some g => dcall g GRotationStart end.

(** [identify] is the identity of a public key. *)
Definition start_remote_control (identify : list Z -> option str) (spki : list Z) (signer : nat)
    : dprog (result ControlRuntimeStartError str) :=
  match identify spki with
  | None => Ret (Err InvalidIdentity)
  | Some device_id =>
      let input := {| input_spki := spki; input_signer := signer |} in
      let> r := dlock (SControl input) in
      match r with
      | Err e => Ret (Err e)
      | Ok (g, previous, start_now) =>
          if negb start_now then Ret (Ok device_id)
          else
            let> result := dcall g (GControlStart input) in
            let> _ := if is_ok result then Ret tt else dlock (SControlRestore previous) in
            Ret result
      end
  end.

Definition told_rotation (g : gid) (r : result CellularRuntimeError CellularAdmissionSnapshot)
    : dprog (result CellularRuntimeError CellularAdmissionSnapshot) :=
  match r with
  | Err e => Ret (Err e)
  | Ok a => let> _ := dcall g (GRotationObserve a) in Ret (Ok a)
  end.

Definition observe_network (sequence : Z) (o : NetworkObservation) (h : NetworkHandle) (name : option str)
    : dprog (result CellularRuntimeError CellularAdmissionSnapshot) :=
  let> g := dlock (SObserve sequence o h name) in
  match g with
  | None => Ret (Err CellularRuntime.StateUnavailable)
  | Some g => let> r := dcall g (GObserveNetwork o h name) in told_rotation g r
  end.

Definition network_lost (sequence : Z) (h : NetworkHandle) : dprog (result CellularRuntimeError CellularAdmissionSnapshot) :=
  if sequence =? 0 then Ret (Err CellularRuntime.StateUnavailable)
  else
    let> g := dlock (SLost sequence h) in
    match g with
    | None => Ret (Err CellularRuntime.StateUnavailable)
    | Some g => let> r := dcall g (GNetworkLost sequence h) in told_rotation g r
    end.

Definition observe_mesh_vpn (sequence : Z) (o : MeshVpnObservation) : dprog (result MeshTransportError MeshTransportSnapshot) :=
  let> g := dlock (SMesh sequence o) in
  match g with
  | None => Ret (Err Transport.StateUnavailable)
  | Some g => apply_mesh_observation g sequence o
  end.

Definition set_observer (k : observed) (o : nat) : dprog unit :=
  let> g := dlock (SSetObserver k o) in dask (DBind g k o).

Definition request_start (input : ProductStartInput) : dprog (result RuntimeExecutionError RuntimeStartAction) :=
  let> r := dlock (SRequestStart input) in
  match r with
  | StartRefused e => Ret (Err e)
  | StartReturns a => Ret (Ok a)
  | StartGoes expected rebound =>
      let> _ := bind_rebound rebound in
      let> ok := dask (DSpawn (StartTask expected input)) in
      if ok then Ret (Ok StartNow)
      else let> _ := dlock SStartSubmissionFailed in Ret (Err ThreadUnavailable)
  end.

Definition begin_stopped_platform_mutation : dprog (option Z) := dlock SBeginMutation.

Definition complete_stopped_platform_mutation (lease : Z) (succeeded : bool) : dprog bool :=
  let> rebound := dlock (SCompleteMutation lease succeeded) in
  let> _ := bind_rebound rebound in
  Ret (is_some rebound).

Definition request_stop : dprog (result RuntimeExecutionError RuntimeStopAction) :=
  let> (action, expected) := dlock SRequestStop in
  match action with
  | StopNow =>
      let> ok := dask (DSpawn (StopTask expected)) in
      if ok then Ret (Ok StopNow)
      else let> _ := dlock SStopSubmissionFailed in Ret (Err ThreadUnavailable)
  | _ => Ret (Ok action)
  end.

Definition shutdown_blocking : dprog (result RuntimeExecutionError bool) :=
  let> already_closed := dlock SClose in
  if already_closed then Ret (Ok true)
  else
    let> g := dlock SCurrent in
    let> alive := dask DHandle in
    if negb alive then Ret (Err ExecutionStateUnavailable)
    else
      let> clean := shutdown_async g in
      let> _ := dask DExecutorShutdown in
      Ret (Ok clean).

(** What an owner of a generation does when it has something to say: the closure that
    [bind_cellular_observer] and its likes have registered. *)
Definition publish (g : gid) (k : observed) : dprog unit :=
  let> b := dask (DBound g k) in
  match b with
  | None => Ret tt
  | Some (expected, o) =>
      let> fence := dask DFence in
      if fence =? expected then dask (DDeliver g k o) else Ret tt
  end.

(** ** Threads *)

Inductive product_caller :=
| CallStart (input : ProductStartInput)
| CallStop
| CallShutdown
| CallBegin
| CallComplete (lease : Z) (succeeded : bool)
| CallObserve (sequence : Z) (o : NetworkObservation) (h : NetworkHandle) (name : option str)
| CallLost (sequence : Z) (h : NetworkHandle)
| CallMesh (sequence : Z) (o : MeshVpnObservation)
| CallClear (cellular : bool)
| CallSetObserver (k : observed) (o : nat)
| CallControl (device_id : option str) (spki : list Z) (signer : nat)
| CallRotation
| CallInstallTemporary (username password : str) (available : nat)
| CallRestoreTemporary (expected : Z) (serving : option Z) (available : nat)
| CallClearTemporary
| CallSnapshot
| CallPublish (g : gid) (k : observed).

Definition ended {A} (p : dprog A) : dprog unit := let> _ := p in Ret tt.

Definition product_body (c : product_caller) : dprog unit :=
  match c with
  | CallStart input => ended (request_start input)
  | CallStop => ended request_stop
  | CallShutdown => ended shutdown_blocking
  | CallBegin => ended begin_stopped_platform_mutation
  | CallComplete lease succeeded => ended (complete_stopped_platform_mutation lease succeeded)
  | CallObserve q o h name => ended (observe_network q o h name)
  | CallLost q h => ended (network_lost q h)
  | CallMesh q o => ended (observe_mesh_vpn q o)
  | CallClear cellular => ended (if cellular then dlock SClearCellular else dlock SClearMesh)
  | CallSetObserver k o => set_observer k o
  | CallControl id spki signer => ended (start_remote_control (fun _ => id) spki signer)
  | CallRotation => ended start_public_ip_rotation
  | CallInstallTemporary u p a => ended (install_temporary_proxy_credential u p a)
  | CallRestoreTemporary e s a => ended (restore_temporary_proxy_credential_after_running e s a)
  | CallClearTemporary => ended clear_temporary_proxy_credential
  | CallSnapshot => ended snapshot
  | CallPublish g k => publish g k
  end.

Definition product_task_body (t : product_task) : dprog unit :=
  let> _ := match t with
            | StartTask expected input => run_start expected input
            | StopTask expected => run_stop expected
            | RestoreTask expected serving available => restore_temporary expected serving available
            end in
  dask DEnded.

Definition product_born (r : product_request) : product_reply r -> list (dprog unit) :=
  match r return product_reply r -> list (dprog unit) with
  | DSpawn t => fun ok => if ok then [product_task_body t] else []
  | _ => fun _ => []
  end.

(** What a step gets from outside. *)
Record product_input := { built_in : bool; answers : forall c, gcall_reply c; record_in : option (str * str) }.

Definition set_once (w : product_world) (g : gid) (o : once) : product_world :=
  match generations w !! g with
  | Some x => with_generations w (<[g := {| number := number x; shutdown_result := o; bound := bound x |}]> (generations w))
  | None => w
  end.

Definition set_bound (w : product_world) (g : gid) (k : observed) (o : nat) : product_world :=
  match generations w !! g with
  | Some x =>
      with_generations w (<[g := {| number := number x; shutdown_result := shutdown_result x;
                                    bound := with_observer (bound x) k o |}]> (generations w))
  | None => w
  end.

(** A caller of the cell waits while another one is initializing it. *)
Definition once_enter (w : product_world) (g : gid) : option (once_reply * product_world) :=
  match generations w !! g with
  | None => None
  | Some x =>
      match shutdown_result x with
      | Unset => Some (Initialize, set_once w g Initializing)
      | Initializing => None
      | Set_ b => Some (Already b, w)
      end
  end.

Definition product_serve (r : product_request) (w : product_world) (_ : nat -> bool) (_ : nat) (x : product_input)
    : option (product_reply r * product_world) :=
  match r return option (product_reply r * product_world) with
  | DLocked l => Some (denter l (built_in x) w)
  | DGen _ c => Some (answers x c, w)
  | DNumber g => Some (number_of w g, w)
  | DBind g k o => Some (tt, set_bound w g k o)
  | DOnce g => once_enter w g
  | DOnceSet g b => Some (tt, set_once w g (Set_ b))
  | DSpawn _ => let '(ok, e) := spawn (executor w) in Some (ok, with_executor w e)
  | DEnded => Some (tt, with_executor w (task_ended (executor w)))
  | DHandle => Some (is_ok (handle (executor w)), w)
  | DExecutorShutdown => Some (tt, with_executor w (executor_shutdown (executor w)))
  | DActiveTasks => Some (active_tasks (executor w), w)
  | DLoadRecord => Some (record_in x, w)
  | DBound g k => Some (x ← generations w !! g; o ← observer_of (bound x) k; Some (number x, o), w)
  | DFence => Some (observer_generation w, w)
  | DDeliver _ _ _ => Some (tt, w)
  end.

Abbreviation product_events := (events product_serve product_born product_body).
Abbreviation product_runs := (runs product_serve product_born product_body).
