(* ===== verification/ProductTasks.v ===== *)
(** * Interleavings of the product runtime

    What holds of every run of [ProductRuntime]: the invariant of the handle, that a
    generation is drained once, that no generation is started before what ran before
    it has been drained, and that nobody hears of a generation that has been replaced.
    The file ends with two races. *)

From S2P Require Import CellularRuntime ControlRuntime RotationRuntime.
From S2P Require Import Prelude Net RustStr Transport Lifecycle Interaction Threads Rotation.
From stdpp Require Import gmap list.
From S2P Require Import Cellular ProductFacts ProductRuntime.

#[local] Open Scope Z_scope.

(** ** The handle *)

Record product_ok (w : product_world) : Prop := {
  dk_lifecycle : lifecycle_ok (lifecycle (state w));
  dk_current : length (generations w) = S (generation (state w));
  dk_fence : number_of w (generation (state w)) = Some (observer_generation w);
  dk_number :
    observer_generation w = Lifecycle.generation (lifecycle (state w)) \/
    observer_generation w < Lifecycle.generation (lifecycle (state w)) /\
      generation_requires_replacement (lifecycle (state w)) = true;
  dk_sorted i j x y : generations w !! i = Some x -> generations w !! j = Some y -> (i < j)%nat -> number x < number y;
  dk_pending : is_Some (pending_start (state w)) -> is_state (state w) Stopping = true /\ closed (state w) = false;
  dk_epoch : 0 <= platform_mutation_epoch (state w) <= u64_max;
  dk_lease n : active_platform_mutation (state w) = Some n -> n = platform_mutation_epoch (state w) /\ 1 <= n }.

(** The generation a section installs. *)
Definition installs (l : dsection) : dsection_reply l -> option gid :=
  match l return dsection_reply l -> option gid with
  | SRequestStart _ => fun y => match y with StartGoes _ (Some (g, _)) => Some g | _ => None end
  | SCompleteMutation _ _ => fun y => fst <$> y
  | SFailedStart _ _ => fun y => fst <$> y.2
  | SStopped _ _ => fun y => c ← y; fst <$> rebind c
  | _ => fun _ => None
  end.

(** The sections that end a start or a stop. *)
Definition decides (l : dsection) : dsection_reply l -> bool :=
  match l return dsection_reply l -> bool with
  | SFailedStart _ _ => fun y => y.1
  | SStopped _ _ => fun y => is_some y
  | _ => fun _ => false
  end.

Definition decided_for (l : dsection) : Z := match l with SFailedStart e _ | SStopped e _ => e | _ => 0 end.

(** The number of the start that a section completes. *)
Definition starts (l : dsection) : dsection_reply l -> option Z :=
  match l return dsection_reply l -> option Z with SStarted e => fun y => (fun _ => e) <$> y | _ => fun _ => None end.

Abbreviation life w := (lifecycle (state w)).

(** What a section does to the handle. *)
Record effect (l : dsection) (y : dsection_reply l) (w w' : product_world) : Prop := {
  ef_ok : product_ok w';
  ef_generation : generation (state w') = default (generation (state w)) (installs l y);
  ef_store : generations w' = generations w \/
    exists n, generations w' = generations w ++ [{| number := n; shutdown_result := Unset; bound := no_observers |}];
  ef_grows : Lifecycle.generation (life w) <= Lifecycle.generation (life w');
  ef_new g : installs l y = Some g ->
    g = length (generations w) /\ closed (state w) = false /\ Lifecycle.generation (life w) < Lifecycle.generation (life w') /\
    (Lifecycle.state (life w) = Stopped \/ decides l y = true);
  ef_decides : decides l y = true -> Lifecycle.generation (life w) = decided_for l;
  ef_stopped : Lifecycle.state (life w') = Stopped ->
    Lifecycle.state (life w) = Stopped \/ l = SStartSubmissionFailed \/ decides l y = true;
  ef_running : Lifecycle.state (life w') = Running ->
    (Lifecycle.state (life w) = Running /\ Lifecycle.generation (life w') = Lifecycle.generation (life w)) \/
    starts l y = Some (Lifecycle.generation (life w'));
  ef_closed : closed (state w') = closed (state w) || (match l with SClose => true | _ => false end);
  ef_executor : executor w' = executor w }.

Lemma keep_ok w s' :
  product_ok w -> generation s' = generation (state w) -> lifecycle_ok (lifecycle s') ->
  Lifecycle.generation (life w) <= Lifecycle.generation (lifecycle s') ->
  (Lifecycle.generation (lifecycle s') = Lifecycle.generation (life w) /\
     (generation_requires_replacement (life w) = true -> generation_requires_replacement (lifecycle s') = true) \/
   generation_requires_replacement (lifecycle s') = true) ->
  (is_Some (pending_start s') -> is_state s' Stopping = true /\ closed s' = false) ->
  0 <= platform_mutation_epoch s' <= u64_max ->
  (forall n, active_platform_mutation s' = Some n -> n = platform_mutation_epoch s' /\ 1 <= n) ->
  product_ok (with_state w s').
Proof.
  intros [H1 H2 H3 H4 H5 H6 H7 H8] Hg Hl Hle Hr Hp He Ha. split; cbn; try done; [by rewrite Hg|by rewrite Hg|].
  destruct Hr as [[E Hr]|Hr]; [rewrite E; destruct H4 as [H4|[H4 H4']]; eauto|].
  destruct (decide (observer_generation w = Lifecycle.generation (lifecycle s'))); [by left|right; split; [lia|done]].
Qed.

Lemma install_ok w s' g :
  product_ok w -> lifecycle_ok (lifecycle s') -> number g = Lifecycle.generation (lifecycle s') ->
  Lifecycle.generation (life w) < number g ->
  (is_Some (pending_start s') -> is_state s' Stopping = true /\ closed s' = false) ->
  0 <= platform_mutation_epoch s' <= u64_max ->
  (forall n, active_platform_mutation s' = Some n -> n = platform_mutation_epoch s' /\ 1 <= n) ->
  product_ok (install g (with_state w s')).
Proof.
  intros [H1 H2 H3 H4 H5 H6 H7 H8] Hl Hn Hlt Hp He Ha. split; cbn; try done.
  - rewrite length_app. cbn. lia.
  - unfold number_of. cbn. rewrite lookup_app_r, Nat.sub_diag by lia. done.
  - by left.
  - assert (observer_generation w < number g) as Hlast by (destruct H4 as [H4|[H4 _]]; lia).
    intros i j x y [Hi|[Hli [Hi <-]%list_lookup_singleton_Some]]%lookup_app_Some [Hj|[Hle [Hj <-]%list_lookup_singleton_Some]]%lookup_app_Some Hij.
    + by eapply H5.
    + unfold number_of in H3. destruct (generations w !! generation (state w)) as [z|] eqn:Hz; [|done]. cbn in H3. injection H3 as H3.
      apply lookup_lt_Some in Hi as Hi'. destruct (decide (i = generation (state w))) as [->|Hne]; [rewrite Hi in Hz; injection Hz as ->; lia|].
      assert (number x < number z) by (eapply H5; [done|done|lia]). lia.
    + apply lookup_lt_Some in Hj. lia.
    + lia.
Qed.

Lemma generation_new_inv uid n b g : generation_new uid n b = Ok g -> g = {| number := n; shutdown_result := Unset; bound := no_observers |}.
Proof. unfold generation_new. destruct (_ || _); congruence. Qed.

(** A section that leaves the generations alone and moves the lifecycle by one of
    its calls. *)
Lemma keep_effect l y w s' :
  product_ok w -> product_ok (with_state w s') -> installs l y = None -> decides l y = false ->
  generation s' = generation (state w) ->
  Lifecycle.generation (life w) <= Lifecycle.generation (lifecycle s') ->
  (Lifecycle.state (lifecycle s') = Stopped -> Lifecycle.state (life w) = Stopped \/ l = SStartSubmissionFailed) ->
  (Lifecycle.state (lifecycle s') = Running ->
     (Lifecycle.state (life w) = Running /\ Lifecycle.generation (lifecycle s') = Lifecycle.generation (life w)) \/
     starts l y = Some (Lifecycle.generation (lifecycle s'))) ->
  closed s' = closed (state w) || (match l with SClose => true | _ => false end) ->
  effect l y w (with_state w s').
Proof.
  intros Hw Hs Hi Hd Hg Hle Hst Hrun Hc. split; cbn; try done.
  - by rewrite Hi.
  - by left.
  - congruence.
  - congruence.
  - intros H. destruct (Hst H); auto.
Qed.

Lemma same_effect l y w :
  product_ok w -> installs l y = None -> decides l y = false -> match l with SClose => closed (state w) = true | _ => True end ->
  effect l y w w.
Proof.
  intros Hw Hi Hd Hc. split; try done; try congruence.
  - by rewrite Hi.
  - by left.
  - by left.
  - intros H. by left.
  - destruct l; by rewrite ?orb_false_r, ?Hc.
Qed.

Lemma call_keeps_stopping l c :
  (forall b, c <> CCompleteStop b) -> Lifecycle.state l = Stopping -> Lifecycle.state (Lifecycle.step l c).2 = Stopping.
Proof.
  intros Hc Hs. destruct c; cbn; unfold Lifecycle.request_start, take_generation_replacement_for_start, advance_stopped_generation,
    start_submission_failed, complete_start, Lifecycle.request_stop, stop_submission_failed, mark_stopped_generation_dirty;
    rewrite ?Hs; try done. by destruct (Hc clean).
Qed.

Lemma is_state_spec s x : is_state s x = true <-> Lifecycle.state (lifecycle s) = x.
Proof. unfold is_state. apply bool_decide_eq_true. Qed.

Lemma call_ok w c :
  product_ok w -> (Lifecycle.step (life w) c).1 = false -> (forall b, c <> CCompleteStop b) ->
  product_ok (with_state w (set_lifecycle (state w) (Lifecycle.step (life w) c).2)).
Proof.
  intros Hw Hb Hc. pose proof Hw as [H1 H2 H3 H4 H5 H6 H7 H8].
  destruct (Lifecycle.step (life w) c) as [b l'] eqn:E. cbn in Hb. subst b. pose proof (step_effect _ _ _ _ E) as (Hg & _ & Hr).
  apply keep_ok; cbn; try done.
  - replace l' with (Lifecycle.step (life w) c).2 by by rewrite E. by apply lifecycle_step_ok.
  - lia.
  - left. split; [done|auto].
  - intros Hp. destruct (H6 Hp) as [Hs Hcl]. split; [|done]. apply is_state_spec. cbn. apply is_state_spec in Hs.
    replace l' with (Lifecycle.step (life w) c).2 by by rewrite E. by apply call_keeps_stopping.
Qed.

(** No start is queued but while stopping. *)
Lemma pending_none w : product_ok w -> Lifecycle.state (life w) <> Stopping -> pending_start (state w) = None.
Proof.
  intros Hw Hs. destruct (pending_start (state w)) as [p|] eqn:E; [|done]. destruct (dk_pending w Hw) as [H _]; [by rewrite E|].
  by apply is_state_spec in H.
Qed.

Lemma call_grows l c b l' : Lifecycle.step l c = (b, l') -> Lifecycle.generation l <= Lifecycle.generation l'.
Proof. intros (Hg & _)%step_effect. destruct b; lia. Qed.

Lemma call_effect l y w c :
  product_ok w -> (Lifecycle.step (life w) c).1 = false -> (forall b, c <> CCompleteStop b) -> installs l y = None -> decides l y = false ->
  (Lifecycle.state (Lifecycle.step (life w) c).2 = Stopped -> Lifecycle.state (life w) = Stopped \/ l = SStartSubmissionFailed) ->
  (Lifecycle.state (Lifecycle.step (life w) c).2 = Running ->
     Lifecycle.state (life w) = Running \/ starts l y = Some (Lifecycle.generation (life w))) ->
  l <> SClose -> effect l y w (with_state w (set_lifecycle (state w) (Lifecycle.step (life w) c).2)).
Proof.
  intros Hw Hb Hc Hi Hd Hs Hr Hl. apply keep_effect; try done; [by apply call_ok| | |].
  - destruct (Lifecycle.step _ _) as [b l'] eqn:E. by apply call_grows in E.
  - destruct (Lifecycle.step _ _) as [b l'] eqn:E. cbn in *. subst b. apply step_effect in E as (Eg & _). rewrite Eg. naive_solver.
  - cbn. destruct l; by rewrite ?orb_false_r.
Qed.

Lemma submission_undone l : Lifecycle.state l = Starting -> start_submission_failed l = set_state l Stopped.
Proof. unfold start_submission_failed. by intros ->. Qed.

Lemma marked_dirty l : Lifecycle.state l = Stopped -> mark_stopped_generation_dirty l = (true, set_replacement l true).
Proof. unfold mark_stopped_generation_dirty. by intros ->. Qed.

(** The side conditions of [keep_ok], [keep_effect] and [install_ok] that the state at
    hand decides. *)
Ltac side :=
  cbn; try done; try lia; try (by rewrite ?orb_false_r);
  try match goal with
  | |- is_Some ?p -> _ => match goal with H : p = None |- _ => rewrite H; by intros [? ?] end
  | |- is_Some None -> _ => by intros [? ?]
  | |- _ \/ _ => first [by right; congruence | by left; congruence | by left; split; [done|congruence] | by left; split; [lia|congruence]]
  | |- _ = Stopped -> _ => intros ?; first [by left | by right | congruence]
  | |- _ = Running -> _ => intros ?; first [congruence | by left; split; [congruence|lia]]
  end.

Lemma request_start_effect input built w :
  product_ok w -> effect (SRequestStart input) (request_start_section input built w).1 w (request_start_section input built w).2.
Proof.
  intros Hw. pose proof Hw as [H1 H2 H3 H4 H5 H6 H7 H8]. unfold request_start_section.
  destruct (closed _ || _) eqn:Hg; [by apply same_effect|]. apply orb_false_iff in Hg as [Hc _].
  pose proof (lifecycle_step_ok _ CRequestStart H1) as Hl. revert Hl. cbn [Lifecycle.step]. unfold Lifecycle.request_start.
  destruct (Lifecycle.state (life w)) eqn:Hs; cbn [snd]; intros Hl.
  2,3: cbn [fst snd]; apply keep_effect; side; apply keep_ok; side.
  2: { cbn [fst snd]. apply keep_effect; side. apply keep_ok; side. intros _. split; [|done]. by apply is_state_spec. }
  pose proof (pending_none w Hw ltac:(by rewrite Hs)) as Hp.
  change (generation_requires_replacement (set_state (life w) Starting)) with (generation_requires_replacement (life w)).
  destruct (generation_requires_replacement (life w)) eqn:Hr; [|cbn [fst snd]; apply keep_effect; side; apply keep_ok; side].
  pose proof (lifecycle_step_ok _ CTakeReplacement Hl) as Hl'. revert Hl'. cbn [Lifecycle.step].
  unfold take_generation_replacement_for_start. cbn [Lifecycle.state set_state generation_requires_replacement]. rewrite Hr. cbn [negb orb].
  change (Starting <>b? Starting) with false. cbn [orb].
  destruct (advance_generation _) as [a l2] eqn:Ha. apply advance_generation_spec in Ha as [(-> & Hlt & ->)|(-> & Hle & ->)];
    cbn [negb snd fst]; intros Hl'.
  2: { pose proof (lifecycle_step_ok _ CStartSubmissionFailed Hl') as Hl2. revert Hl2. cbn [Lifecycle.step snd].
       rewrite submission_undone by done. intros Hl2. apply keep_effect; side. apply keep_ok; side. }
  destruct (generation_new _ _ _) as [g|e] eqn:Hn.
  - apply generation_new_inv in Hn as ->. cbn [fst snd]. split; side.
    + apply (install_ok w (set_pending (set_lifecycle (state w) _) None)); side.
    + eauto.
    + intros g [= <-]. split_and!; [done|done|lia|by left].
  - pose proof (lifecycle_step_ok _ CMarkDirty (lifecycle_step_ok _ CStartSubmissionFailed Hl')) as Hl2. revert Hl2.
    cbn [Lifecycle.step snd fst]. rewrite submission_undone, marked_dirty by done. cbn [snd]. intros Hl2.
    apply keep_effect; side. apply keep_ok; side.
Qed.

Lemma complete_mutation_effect lease succeeded built w :
  product_ok w ->
  effect (SCompleteMutation lease succeeded) (complete_mutation_section lease succeeded built w).1 w
    (complete_mutation_section lease succeeded built w).2.
Proof.
  intros Hw. pose proof Hw as [H1 H2 H3 H4 H5 H6 H7 H8]. unfold complete_mutation_section.
  destruct (closed _ || _) eqn:Hg; [by apply same_effect|]. apply orb_false_iff in Hg as [Hc _]. cbn [lifecycle set_mutation].
  destruct (negb succeeded || _) eqn:Hm.
  - cbn [fst snd]. pose proof (call_ok w CMarkDirty Hw eq_refl ltac:(done)) as Hok. cbn [Lifecycle.step snd] in Hok.
    assert (product_ok (with_state w (set_lifecycle (set_mutation (state w) (platform_mutation_epoch (state w)) None)
      (mark_stopped_generation_dirty (life w)).2))) as Hok' by (destruct Hok as [K1 K2 K3 K4 K5 K6 K7 K8]; by split).
    clear Hok. apply keep_effect; side.
    + unfold mark_stopped_generation_dirty. destruct (_ <>b? _); side.
    + unfold mark_stopped_generation_dirty. case_bool_decide; cbn; auto.
    + unfold mark_stopped_generation_dirty. case_bool_decide; cbn; auto.
  - apply orb_false_iff in Hm as [_ Hm]. apply negb_false_iff in Hm. unfold can_mutate_stopped_generation in Hm.
    apply andb_true_iff in Hm as [Hs Hr]. apply bool_decide_eq_true in Hs. apply negb_true_iff in Hr.
    pose proof (pending_none w Hw ltac:(by rewrite Hs)) as Hp.
    pose proof (lifecycle_step_ok _ CAdvanceStopped H1) as Hl. revert Hl. cbn [Lifecycle.step].
    unfold advance_stopped_generation. rewrite Hs, Hr. change (Stopped <>b? Stopped) with false. cbn [orb].
    destruct (advance_generation _) as [a l2] eqn:Ha. apply advance_generation_spec in Ha as [(-> & Hlt & ->)|(-> & Hle & ->)];
      cbn [negb snd fst]; intros Hl; pose proof (lifecycle_step_ok _ CMarkDirty Hl) as Hl2; revert Hl2; cbn [Lifecycle.step snd];
      rewrite marked_dirty by done; intros Hl2.
    2: { apply keep_effect; side. apply keep_ok; side. }
    destruct (generation_new _ _ _) as [g|e] eqn:Hn.
    + apply generation_new_inv in Hn as ->. cbn [fst snd]. split; side.
      * apply (install_ok w (set_lifecycle (set_mutation (state w) (platform_mutation_epoch (state w)) None) _)); side.
      * eauto.
      * intros g [= <-]. split_and!; [done|done|lia|by left].
    + cbn [fst snd]. apply keep_effect; side. apply keep_ok; side.
Qed.

Lemma failed_start_effect expected clean built w :
  product_ok w ->
  effect (SFailedStart expected clean) (failed_start_section expected clean built w).1 w (failed_start_section expected clean built w).2.
Proof.
  intros Hw. pose proof Hw as [H1 H2 H3 H4 H5 H6 H7 H8]. unfold failed_start_section.
  destruct (closed _ || _ || _) eqn:Hg; [by apply same_effect|]. apply orb_false_iff in Hg as [[Hc He]%orb_false_iff Hs].
  apply negb_false_iff, Z.eqb_eq in He. apply negb_false_iff, is_state_spec in Hs.
  pose proof (pending_none w Hw ltac:(by rewrite Hs)) as Hp.
  pose proof (lifecycle_step_ok _ (CCompleteStart false clean) H1) as Hl. revert Hl. cbn [Lifecycle.step]. unfold complete_start.
  rewrite Hs. change (Starting <>b? Starting) with false. cbn iota. destruct clean.
  - destruct (advance_generation _) as [a l2] eqn:Ha. apply advance_generation_spec in Ha as [(-> & Hlt & ->)|(-> & Hle & ->)];
      cbn [negb snd fst sc_install_fresh_generation_now]; intros Hl.
    + destruct (generation_new _ _ _) as [g|e] eqn:Hn.
      * apply generation_new_inv in Hn as ->. cbn [fst snd]. split; side.
        -- apply (install_ok w (set_lifecycle (state w) _)); side.
        -- eauto.
        -- intros g [= <-]. split_and!; [done|done|lia|by right].
      * pose proof (lifecycle_step_ok _ CMarkDirty Hl) as Hl2; revert Hl2; cbn [Lifecycle.step snd].
        rewrite marked_dirty by done. intros Hl2. cbn [fst snd]. split; side. apply keep_ok; side.
    + split; side. apply keep_ok; side.
  - cbn [negb snd fst sc_install_fresh_generation_now]. intros Hl. split; side. apply keep_ok; side.
Qed.

Lemma stopped_effect expected clean built w :
  product_ok w ->
  effect (SStopped expected clean) (stopped_section expected clean built w).1 w (stopped_section expected clean built w).2.
Proof.
  intros Hw. pose proof Hw as [H1 H2 H3 H4 H5 H6 H7 H8]. unfold stopped_section.
  destruct (closed _ || _ || _) eqn:Hg; [by apply same_effect|]. apply orb_false_iff in Hg as [[Hc He]%orb_false_iff Hs].
  apply negb_false_iff, Z.eqb_eq in He. apply negb_false_iff, is_state_spec in Hs.
  pose proof (lifecycle_step_ok _ (CCompleteStop clean) H1) as Hl. revert Hl. cbn [Lifecycle.step]. unfold complete_stop. destruct clean.
  - destruct (advance_generation _) as [a l2] eqn:Ha. apply advance_generation_spec in Ha as [(-> & Hlt & ->)|(-> & Hle & ->)];
      cbn [negb snd fst install_fresh_generation_now require_fresh_generation_before_next_explicit_start]; intros Hl.
    + destruct (generation_new _ _ _) as [g|e] eqn:Hn.
      * apply generation_new_inv in Hn as ->. cbn [fst snd]. split; side.
        -- apply (install_ok w (set_pending (set_lifecycle (state w) _) None)); side.
        -- eauto.
        -- intros g [= <-]. split_and!; [done|done|lia|by right].
      * pose proof (lifecycle_step_ok _ CMarkDirty Hl) as Hl2; revert Hl2; cbn [Lifecycle.step snd].
        rewrite marked_dirty by done. intros Hl2. cbn [fst snd]. split; side.
        apply (keep_ok w (set_pending (set_lifecycle (state w) _) None)); side.
    + split; side. apply (keep_ok w (set_pending (set_lifecycle (state w) _) None)); side.
  - cbn [negb snd fst install_fresh_generation_now require_fresh_generation_before_next_explicit_start]. intros Hl.
    split; side. apply (keep_ok w (set_pending (set_lifecycle (state w) _) None)); side.
Qed.

(** Assignments that leave the lifecycle, the generation and the queue alone. *)
Lemma aside_effect l y w s' :
  product_ok w -> installs l y = None -> decides l y = false -> l <> SClose ->
  lifecycle s' = life w -> generation s' = generation (state w) -> pending_start s' = pending_start (state w) ->
  closed s' = closed (state w) -> 0 <= platform_mutation_epoch s' <= u64_max ->
  (forall n, active_platform_mutation s' = Some n -> n = platform_mutation_epoch s' /\ 1 <= n) ->
  effect l y w (with_state w s').
Proof.
  intros Hw Hi Hd Hl El Eg Ep Ec He Ha. pose proof Hw as [H1 H2 H3 H4 H5 H6 H7 H8]. apply keep_effect; try done; rewrite ?El, ?Eg, ?Ec.
  - apply keep_ok; rewrite ?El, ?Eg, ?Ec, ?Ep; try done; [left; auto|]. intros Hp. destruct (H6 Hp) as [Hs Hc]. split; [|done].
    apply is_state_spec. rewrite El. by apply is_state_spec.
  - lia.
  - by left.
  - intros H. by left.
  - destruct l; by rewrite ?orb_false_r.
Qed.

Lemma denter_effect l built w : product_ok w -> effect l (denter l built w).1 w (denter l built w).2.
Proof.
  intros Hw. pose proof Hw as [H1 H2 H3 H4 H5 H6 H7 H8].
  destruct l as [| | |i|p|q o h n|q h|q o| | |k o|i| | |e s| | | |e|e|e g|e c|e|e c|]; cbn [denter fst snd];
    try (by apply same_effect);
    try (unfold on_state, facts_section; cbn [fst snd]; by apply aside_effect).
  - unfold on_state, control_section. destruct (_ || _); [|destruct (is_some_and _ _)]; cbn [fst snd]; by apply aside_effect.
  - by apply request_start_effect.
  - unfold on_state. cbn [fst snd]. apply (call_effect _ _ w CStartSubmissionFailed); try done; [by right|].
    cbn. unfold start_submission_failed. case_bool_decide; cbn; try done; auto.
  - unfold on_state, begin_mutation_section. destruct (_ || _ || _) eqn:Hg; [cbn [fst snd]; by apply aside_effect|].
    destruct (checked_add _ _ _) as [n|] eqn:Hn; cbn [fst snd].
    + apply checked_add_Some in Hn as [-> Hle]. apply aside_effect; cbn; try done; [lia|]. intros n [= <-]. lia.
    + apply orb_false_iff in Hg as [_ Hg]. apply negb_false_iff, andb_true_iff in Hg as [Hg _]. apply bool_decide_eq_true in Hg.
      apply (call_effect _ _ w CMarkDirty); try done; cbn; rewrite (marked_dirty _ Hg); cbn; [auto|congruence].
  - by apply complete_mutation_effect.
  - unfold on_state, request_stop_section. destruct (closed _); [cbn [fst snd]; by apply aside_effect|].
    destruct (Lifecycle.request_stop (life w)) as [a l'] eqn:E. cbn [fst snd].
    replace l' with (Lifecycle.step (life w) CRequestStop).2 by (cbn; by rewrite E). apply call_effect; try done.
    all: cbn; unfold Lifecycle.request_stop; destruct (Lifecycle.state (life w)) eqn:Hs; cbn; try done; rewrite ?Hs; auto.
  - unfold on_state. cbn [fst snd]. apply (call_effect _ _ w CStopSubmissionFailed); try done.
    all: cbn; unfold stop_submission_failed; case_bool_decide as Hs; cbn; [congruence|auto].
  - unfold on_state, close_section. destruct (closed (state w)) eqn:Hc; cbn [fst snd].
    + destruct w; cbn in *. by apply same_effect.
    + apply keep_effect; cbn; try done; [|auto|auto|by rewrite orb_true_r]. apply keep_ok; side.
  - unfold on_state, started_section. destruct (_ && _ && _) eqn:Hg; [|cbn [fst snd]; by apply aside_effect].
    apply andb_true_iff in Hg as [[_ Hg]%andb_true_iff _]. apply Z.eqb_eq in Hg. cbn [fst snd].
    replace (complete_start (life w) true true).2 with (Lifecycle.step (life w) (CCompleteStart true true)).2
      by (cbn; by destruct (complete_start _ _ _)).
    apply call_effect; try done; cbn; unfold complete_start; destruct (Lifecycle.state (life w) <>b? Starting); cbn; try done; auto;
      intros; right; by rewrite Hg.
  - by apply failed_start_effect.
  - by apply stopped_effect.
  - unfold on_state, restart_section. destruct (Lifecycle.request_start (life w)) as [a l'] eqn:E. cbn [fst snd].
    replace l' with (Lifecycle.step (life w) CRequestStart).2 by (cbn; by rewrite E). apply call_effect; try done.
    all: cbn; unfold Lifecycle.request_start; destruct (Lifecycle.state (life w)) eqn:Hs; cbn; try done; rewrite ?Hs; auto.
Qed.

(** What is written in a generation leaves its number alone. *)
Lemma retouch_ok w gs :
  product_ok w -> number <$> gs = number <$> generations w -> product_ok (with_generations w gs).
Proof.
  intros [H1 H2 H3 H4 H5 H6 H7 H8] E.
  assert (forall i, number <$> gs !! i = number <$> generations w !! i) as Ei.
  { intros i. by rewrite <- !list_lookup_fmap, E. }
  split; cbn; try done.
  - rewrite <- H2. apply (f_equal length) in E. by rewrite !length_fmap in E.
  - unfold number_of in *. cbn. by rewrite Ei.
  - intros i j x y Hi Hj. pose proof (Ei i) as E1. pose proof (Ei j) as E2. rewrite Hi in E1. rewrite Hj in E2.
    destruct (generations w !! i) as [x'|] eqn:Hi'; [|done]. destruct (generations w !! j) as [y'|] eqn:Hj'; [|done].
    cbn in E1, E2. injection E1 as ->. injection E2 as ->. by eapply H5.
Qed.

Lemma retouch_number w g x x' :
  generations w !! g = Some x -> number x' = number x -> number <$> <[g := x']> (generations w) = number <$> generations w.
Proof.
  intros Hg Hn. rewrite list_fmap_insert, Hn. apply list_insert_id. by rewrite list_lookup_fmap, Hg.
Qed.

Lemma set_once_ok w g o : product_ok w -> product_ok (set_once w g o).
Proof.
  intros Hw. unfold set_once. destruct (generations w !! g) as [x|] eqn:Hg; [|done]. apply retouch_ok; [done|]. by eapply retouch_number.
Qed.

Lemma set_bound_ok w g k o : product_ok w -> product_ok (set_bound w g k o).
Proof.
  intros Hw. unfold set_bound. destruct (generations w !! g) as [x|] eqn:Hg; [|done]. apply retouch_ok; [done|]. by eapply retouch_number.
Qed.

Lemma with_executor_ok w x : product_ok w -> product_ok (with_executor w x).
Proof. by intros [H1 H2 H3 H4 H5 H6 H7 H8]. Qed.

Lemma serve_ok r w f n x y w' : product_ok w -> product_serve r w f n x = Some (y, w') -> product_ok w'.
Proof.
  intros Hw H. destruct r; cbn [product_serve] in H; try (by injection H as <- <-).
  - injection H as H. assert (w' = (denter l (built_in x) w).2) as -> by by rewrite H. by apply denter_effect.
  - injection H as <- <-. by apply set_bound_ok.
  - unfold once_enter in H. destruct (generations w !! g) as [z|]; [|done]. destruct (shutdown_result z); simplify_eq; [|done].
    by apply set_once_ok.
  - injection H as <- <-. by apply set_once_ok.
  - destruct (spawn _) as [ok e]. injection H as <- <-. by apply with_executor_ok.
  - injection H as <- <-. by apply with_executor_ok.
  - injection H as <- <-. by apply with_executor_ok.
Qed.

Lemma product_new_ok uid built w : product_new uid built = Ok w -> product_ok w.
Proof.
  unfold product_new. destruct (uid =? 0); [done|]. destruct (generation_new _ _ _) as [g|e] eqn:Hg; [|done].
  apply generation_new_inv in Hg as ->. intros [= <-].
  split; cbn; try done; try (by left); try (by intros [? ?]); try (unfold u64_max; lia).
  intros [|i] [|j] x y; cbn; try done; lia.
Qed.

Abbreviation dworld w := {| shared := w; threads := @nil (dprog unit) |}.

(** The handle is in order whatever threads do.  The installed generation is the newest
    of all, the fence that observers check has its number, and the lifecycle's number is
    that number unless the generation is marked for replacement; the numbers of the
    generations that were installed are strictly increasing; a start is queued only while
    stopping; a lease is the one issued last. *)
Theorem product_in_order uid built w es :
  product_new uid built = Ok w -> product_ok (shared (product_runs (dworld w) es)).
Proof.
  intros Hw. apply (runs_inv product_serve product_born product_body (fun _ => True) product_ok); [|by apply Forall_true|].
  - intros r s f n x y s' _. apply serve_ok.
  - by eapply product_new_ok.
Qed.

(** ** What a thread promises *)

Abbreviation dev := (@sigT product_request product_reply).
Abbreviation ddid := (@existT product_request product_reply).

(** A drain of the generation has answered. *)
Definition drain_answered (g : gid) (clean : bool) (t : list dev) : Prop :=
  ddid (DOnceSet g clean) tt ∈ t \/ ddid (DOnce g) (Already clean) ∈ t.

(** The drain: every owner, in this order, and what it adds up to. *)
Definition drained_all (g : gid) (clean : bool) (t : list dev) : Prop :=
  exists t0 control rotation proxy mesh policy,
    t = t0 ++ [ddid (DOnce g) Initialize; ddid (DGen g GControlShutdown) control; ddid (DGen g GRotationShutdown) rotation;
               ddid (DGen g GProxyShutdown) proxy; ddid (DGen g GReadinessShutdown) tt; ddid (DGen g GMeshShutdown) mesh;
               ddid (DGen g GPolicyShutdown) policy] /\
    (clean = true <-> control = true /\ rotation = true /\ (exists f, proxy = Some f /\ f <> Some Lifecycle.ShutdownFailed) /\
       mesh = Some true /\ policy = true).

(** An observation the generation took in. *)
Definition told (g : gid) (x : StoredCellularObservation * CellularAdmissionSnapshot) : dev :=
  ddid (DGen g (GObserveNetwork (stored_observation x.1) (stored_handle x.1) (interface_name x.1))) (Ok x.2).

(** The start took up the generation, its policy runs, and it knows all the facts. *)
Definition brought_up (g : gid) (t : list dev) : Prop :=
  exists expected f l t0 t1,
    ddid (DLocked (SRunStart expected)) (Some (g, f)) ∈ t /\ ddid (DGen g GPolicyStart) true ∈ t /\
    l.*1 = cellular_replay f /\
    t = t0 ++ (told g <$> l) ++ t1.

Definition product_safe (t : list dev) (r : product_request) (_ : product_reply r) : Prop :=
  match r with
  | DGen g GPolicyStart => exists expected f t0, t = t0 ++ [ddid (DLocked (SRunStart expected)) (Some (g, f))]
  | DGen g (GProxyStart _) => brought_up g t
  | DLocked (SStarted expected) =>
      exists g f input, ddid (DLocked (SRunStart expected)) (Some (g, f)) ∈ t /\ brought_up g t /\ ddid (DGen g (GProxyStart input)) true ∈ t
  | DLocked (SFailedStart expected clean) =>
      exists g, ddid (DLocked (SStillStarting expected g)) true ∈ t /\ drain_answered g clean t
  | DLocked (SStopped expected clean) => exists g, ddid (DLocked (SRunStop expected)) (Some g) ∈ t /\ drain_answered g clean t
  | DLocked SStartSubmissionFailed => exists task, ddid (DSpawn task) false ∈ t
  | DOnceSet g clean => drained_all g clean t
  | DExecutorShutdown =>
      exists g clean t0 t1,
        t = t0 ++ ddid (DLocked SClose) false :: ddid (DLocked SCurrent) g :: t1 /\ drain_answered g clean t1
  | DDeliver g k o => exists n t0, t = t0 ++ [ddid (DBound g k) (Some (n, o)); ddid DFence n]
  | DGen g (GRestoreTemporary serving _ _ _) => ddid (DLocked SActive) (Some g) ∈ t /\ ddid (DGen g GServingGeneration) (Some serving) ∈ t
  | _ => True
  end.

Abbreviation keeps p t := (always (fun _ _ => True) product_safe p t).

Definition calm_request (r : product_request) : Prop :=
  match r with
  | DGen _ GPolicyStart | DGen _ (GProxyStart _) | DGen _ (GRestoreTemporary _ _ _ _) | DOnceSet _ _ | DExecutorShutdown | DDeliver _ _ _
  | DLocked (SStarted _) | DLocked (SFailedStart _ _) | DLocked (SStopped _ _) | DLocked SStartSubmissionFailed => False
  | _ => True
  end.

Lemma calm_safe t r (x : product_reply r) : calm_request r -> product_safe t r x.
Proof. destruct r as [[]|g []| | | | | | | | | | | | |]; done. Qed.

Lemma product_keeps_calm {A} (p : dprog A) t : only calm_request p -> keeps p t.
Proof. apply only_always. intros. by apply calm_safe. Qed.

Lemma product_keeps_step {A} r (k : product_reply r -> dprog A) t :
  calm_request r -> (forall x, keeps (k x) (t ++ [ddid r x])) -> keeps (Do r k) t.
Proof. intros Hr Hk x _. split; [by apply calm_safe|by apply Hk]. Qed.

Ltac calm :=
  repeat first
    [ exact I
    | match goal with
      | |- only _ (prog_bind _ _) => apply only_bind; [|intros ?]
      | |- only _ (request _) => split; [exact I|intros ?]
      | |- only _ (Do _ _) => split; [exact I|intros ?]
      | |- only _ (match ?x with _ => _ end) => destruct x
      | |- only _ (bind_one _ _ _) => unfold bind_one
      end ].

Lemma calm_bind g os : only calm_request (bind_observers g os).
Proof. unfold bind_observers. calm. Qed.

Lemma calm_rebound r : only calm_request (bind_rebound r).
Proof. destruct r as [[g os]|]; [apply calm_bind|exact I]. Qed.

Lemma calm_mesh g q o : only calm_request (apply_mesh_observation g q o).
Proof. unfold apply_mesh_observation. calm. Qed.

Lemma calm_observations g l : only calm_request (replay_observations g l).
Proof. induction l as [|s l IH]; cbn; [done|]. split; [done|]. intros x. cbn. by destruct (is_ok x). Qed.

Lemma calm_replay g f : only calm_request (replay_platform_facts g f).
Proof.
  unfold replay_platform_facts. apply only_bind; [apply calm_observations|]. intros []; cbn [negb]; [|done].
  apply only_bind; [calm|]. intros []; cbn [negb]; [|done]. destruct (mesh f); [|done].
  apply only_bind; [apply calm_mesh|]. done.
Qed.

Lemma brought_up_grows g t t' : brought_up g t -> brought_up g (t ++ t').
Proof.
  intros (e & f & l & t0 & t1 & H1 & H2 & H3 & ->). exists e, f, l, t0, (t1 ++ t'). rewrite <- !app_assoc in *.
  split_and!; try done; rewrite !elem_of_app in *; naive_solver.
Qed.

Lemma observations_traces g l :
  emits (replay_observations g l) (fun t ok => ok = true -> exists la, la.*1 = l /\ t = told g <$> la).
Proof.
  induction l as [|s l IH]; cbn [replay_observations].
  - apply emits_ret. by exists [].
  - cbn [prog_bind request]. apply emits_do. intros [a|e]; cbn [is_ok]; [|by apply emits_ret].
    eapply emits_mono; [|apply IH]. intros t ok H Hok. destruct (H Hok) as (la & <- & ->). by exists ((s, a) :: la).
Qed.

Lemma replay_traces g f :
  emits (replay_platform_facts g f) (fun t ok => ok = true -> exists la t1, la.*1 = cellular_replay f /\ t = (told g <$> la) ++ t1).
Proof.
  unfold replay_platform_facts. apply emits_bind. eapply emits_mono; [|apply observations_traces].
  intros t [] H; cbn [negb]; [|by apply emits_ret]. destruct (H eq_refl) as (la & E & ->).
  eapply emits_mono; [|apply emits_true]. intros t1 ok _ _. by exists la, t1.
Qed.

Lemma drain_traces g : emits (shutdown_async g) (fun t b => drain_answered g b t).
Proof.
  unfold shutdown_async. cbn [prog_bind request]. apply emits_do. intros [|b]; [|apply emits_ret; right; by left].
  do 6 (cbn [prog_bind]; apply emits_do; intros ?). cbn [prog_bind]. apply emits_do. intros []. apply emits_ret. left.
  do 7 right. by left.
Qed.

Lemma product_keeps_drain g t : keeps (shutdown_async g) t.
Proof.
  unfold shutdown_async. cbn [prog_bind request]. apply product_keeps_step; [exact I|]. intros [|b]; [|exact I].
  do 6 (cbn [prog_bind]; apply product_keeps_step; [exact I|]; intros ?). cbn [prog_bind]. intros [] _. split; [|exact I].
  rewrite <- !app_assoc. cbn [app]. exists t. do 5 eexists. split; [destruct x2; reflexivity|].
  rewrite !andb_true_iff. destruct x1 as [[[]|]|], x3 as [[]|]; naive_solver.
Qed.

(** A program after a drain. *)
Lemma keeps_after_drain {A} g (k : bool -> dprog A) t :
  (forall clean t', drain_answered g clean t' -> keeps (k clean) (t ++ t')) -> keeps (prog_bind (shutdown_async g) k) t.
Proof. intros Hk. eapply always_bind_emits; [apply drain_traces|apply product_keeps_drain|]. intros clean t' Ht. by apply Hk. Qed.

Lemma keeps_rebound {A} r (k : unit -> dprog A) t : (forall t', keeps (k tt) (t ++ t')) -> keeps (prog_bind (bind_rebound r) k) t.
Proof. intros Hk. apply always_bind; [apply product_keeps_calm, calm_rebound|]. intros [] t'. apply Hk. Qed.

Lemma drain_answered_right g clean t t' : drain_answered g clean t' -> drain_answered g clean (t ++ t').
Proof. intros [H|H]; [left|right]; apply elem_of_app; by right. Qed.

Lemma keeps_failed expected g t : keeps (finish_failed_start expected g) t.
Proof.
  unfold finish_failed_start. cbn [prog_bind request]. apply product_keeps_step; [exact I|]. intros []; cbn [negb]; [|exact I].
  apply keeps_after_drain. intros clean t1 Hd. intros [decided rebound] _. split; [|apply product_keeps_calm, calm_rebound].
  exists g. split; [|by apply drain_answered_right]. apply elem_of_app. left. apply elem_of_app. right. by left.
Qed.

Lemma keeps_run_start expected input t : keeps (run_start expected input) t.
Proof.
  unfold run_start. cbn [prog_bind request]. apply product_keeps_step; [exact I|]. intros [[g f]|]; [|exact I]. cbn [prog_bind].
  set (claim := ddid (DLocked (SRunStart expected)) (Some (g, f))).
  intros policy _. split; [by exists expected, f, t|].
  eapply (always_bind_emits (fun t1 ok => ok = true -> policy = true /\ exists la t2, la.*1 = cellular_replay f /\ t1 = (told g <$> la) ++ t2)).
  - destruct policy; [|by apply emits_ret]. eapply emits_mono; [|apply replay_traces]. intros t1 ok H Hok. split; [done|]. by apply H.
  - destruct policy; [apply product_keeps_calm, calm_replay|exact I].
  - intros [] t1 Hr; cbn [negb]; [|apply keeps_failed]. destruct (Hr eq_refl) as (-> & la & t2 & E & ->).
    assert (brought_up g (((t ++ [claim]) ++ [ddid (DGen g GPolicyStart) true]) ++ (told g <$> la) ++ t2)) as Hb.
    { exists expected, f, la. eexists _, t2. split_and!; [| |done|reflexivity]; rewrite !elem_of_app, !list_elem_of_singleton; auto. }
    assert (claim ∈ ((t ++ [claim]) ++ [ddid (DGen g GPolicyStart) true]) ++ (told g <$> la) ++ t2) as Hc.
    { rewrite !elem_of_app, !list_elem_of_singleton; auto. }
    revert Hb Hc. generalize (((t ++ [claim]) ++ [ddid (DGen g GPolicyStart) true]) ++ (told g <$> la) ++ t2). clear Hr. intros t3 Hb Hc.
    cbn [prog_bind request]. intros [] _; (split; [exact Hb|]); cbn [negb]; [|apply keeps_failed].
    intros started _. split.
    + exists g, f, input. split_and!; [apply elem_of_app; by left|by apply brought_up_grows|apply elem_of_app; right; by left].
    + destruct started as [[control|]|]; apply product_keeps_calm; calm.
Qed.

Lemma keeps_run_stop expected t : keeps (run_stop expected) t.
Proof.
  unfold run_stop. cbn [prog_bind request]. apply product_keeps_step; [exact I|]. intros [g|]; [|exact I].
  apply keeps_after_drain. intros clean t1 Hd. cbn [prog_bind request]. intros completion _. split.
  - exists g. split; [|by apply drain_answered_right]. apply elem_of_app. left. apply elem_of_app. right. by left.
  - destruct completion as [c|]; [|exact I]. apply keeps_rebound. intros t2. destruct (restart c); [|exact I].
    cbn [prog_bind]. apply product_keeps_step; [exact I|]. intros [again|]; [apply keeps_run_start|exact I].
Qed.

Lemma keeps_restore expected serving available t : keeps (restore_temporary expected serving available) t.
Proof.
  unfold restore_temporary. cbn [prog_bind request]. apply product_keeps_step; [exact I|]. intros [[u p]|]; [|exact I]. cbn [prog_bind].
  apply product_keeps_step; [exact I|]. intros [g|]; [|exact I]. cbn [prog_bind]. apply product_keeps_step; [exact I|]. intros n.
  destruct (n <>b? Some expected); [exact I|]. cbn [prog_bind]. apply product_keeps_step; [exact I|]. intros now.
  case_bool_decide as Hn; cbn [negb]; [|exact I]. subst now. destruct serving as [s|]; [|exact I]. intros ok _. split; [|exact I].
  cbn [product_safe]. rewrite !elem_of_app, !list_elem_of_singleton; auto.
Qed.

Lemma keeps_request_start input t : keeps (request_start input) t.
Proof.
  unfold request_start. cbn [prog_bind request]. apply product_keeps_step; [exact I|]. intros [e|a|e r]; try exact I.
  apply keeps_rebound. intros t1. apply product_keeps_step; [exact I|]. intros []; [exact I|]. cbn [prog_bind]. intros [] _. split; [|exact I].
  exists (StartTask e input). apply elem_of_app. right. by left.
Qed.

Lemma product_keeps_shutdown t : keeps shutdown_blocking t.
Proof.
  unfold shutdown_blocking. cbn [prog_bind request]. apply product_keeps_step; [exact I|]. intros []; [exact I|]. cbn [prog_bind].
  apply product_keeps_step; [exact I|]. intros g. cbn [prog_bind]. apply product_keeps_step; [exact I|]. intros []; cbn [negb]; [|exact I].
  apply keeps_after_drain. intros clean t1 Hd. intros [] _. split; [|exact I].
  exists g, clean, t, (ddid DHandle true :: t1). split; [by rewrite <- !app_assoc|]. by apply (drain_answered_right _ _ [_]).
Qed.

Lemma product_keeps_publish g k t : keeps (publish g k) t.
Proof.
  unfold publish. cbn [prog_bind request]. apply product_keeps_step; [exact I|]. intros [[n o]|]; [|exact I]. cbn [prog_bind].
  apply product_keeps_step; [exact I|]. intros fence. destruct (Z.eqb_spec fence n) as [->|]; [|exact I]. intros [] _. split; [|exact I].
  exists n, t. by rewrite <- app_assoc.
Qed.

Lemma keeps_ended {A} (p : dprog A) t : keeps p t -> keeps (ended p) t.
Proof. intros Hp. apply always_bind; [done|]. intros; exact I. Qed.

Lemma product_keeps_caller c : keeps (product_body c) [].
Proof.
  destruct c; cbn [product_body]; try apply keeps_ended.
  - apply keeps_request_start.
  - apply product_keeps_calm. unfold request_stop. calm.
  - apply product_keeps_shutdown.
  - apply product_keeps_calm. unfold begin_stopped_platform_mutation. calm.
  - apply product_keeps_calm. unfold complete_stopped_platform_mutation. calm. apply calm_rebound.
  - apply product_keeps_calm. unfold observe_network, told_rotation. calm.
  - apply product_keeps_calm. unfold network_lost, told_rotation. calm.
  - apply product_keeps_calm. unfold observe_mesh_vpn. calm; apply calm_mesh.
  - apply product_keeps_calm. calm.
  - apply product_keeps_calm. unfold set_observer. calm.
  - apply product_keeps_calm. unfold start_remote_control. calm.
  - apply product_keeps_calm. unfold start_public_ip_rotation. calm.
  - apply product_keeps_calm. unfold install_temporary_proxy_credential. calm.
  - apply product_keeps_calm. unfold restore_temporary_proxy_credential_after_running. calm.
  - apply product_keeps_calm. unfold clear_temporary_proxy_credential. calm.
  - apply product_keeps_calm. unfold snapshot. calm.
  - apply product_keeps_publish.
Qed.

Lemma product_keeps_born r (y : product_reply r) : Forall (fun p => keeps p []) (product_born r y).
Proof.
  destruct r; try constructor. cbn [product_born]. destruct y; repeat constructor. unfold product_task_body.
  apply always_bind; [|intros [] t'; apply product_keeps_calm; calm]. destruct t as [e i|e|e s a];
    [apply keeps_run_start|apply keeps_run_stop|apply keeps_restore].
Qed.

Lemma product_events_safe w es t1 i r x t2 :
  product_events (dworld w) es = t1 ++ (i, ddid r x) :: t2 -> product_safe (own i t1) r x.
Proof.
  apply (events_safe product_serve product_born product_body (fun _ => True) (fun _ _ => True) product_safe); try done.
  - apply product_keeps_caller.
  - apply product_keeps_born.
Qed.

(** ** What has happened so far *)

Abbreviation history := (list (nat * dev)).

Lemma own_seen i e (t : history) : e ∈ own i t -> (i, e) ∈ t.
Proof.
  unfold own. rewrite list_elem_of_omap. intros ([j e'] & Hin & H). destruct (decide (j = i)) as [->|]; [|done]. by injection H as ->.
Qed.

(** What an event says. *)
Definition claims_of (e : dev) : option gid :=
  match e with
  | existT (DLocked (SRunStart _)) y => (fun y : option (gid * ProductPlatformFacts) => fst <$> y) y
  | _ => None
  end.

Definition drains_of (e : dev) : option gid := match e with existT (DOnceSet g _) _ => Some g | _ => None end.

Definition already_of (e : dev) : option gid :=
  match e with existT (DOnce g) y => (fun y : once_reply => match y with Already _ => Some g | Initialize => None end) y | _ => None end.

Definition inits_of (e : dev) : option gid :=
  match e with existT (DOnce g) y => (fun y : once_reply => match y with Already _ => None | Initialize => Some g end) y | _ => None end.

(** A start or stop of lifecycle number [e] works on generation [g]. *)
Definition works_of (e : dev) : option (Z * gid) :=
  match e with
  | existT (DLocked (SRunStart n)) y => (fun y : option (gid * ProductPlatformFacts) => (fun x => (n, x.1)) <$> y) y
  | existT (DLocked (SRunStop n)) y => (fun y : option gid => (fun g => (n, g)) <$> y) y
  | existT (DLocked (SStillStarting n g)) y => (fun y : bool => if y then Some (n, g) else None) y
  | _ => None
  end.

Definition starts_of (e : dev) : option Z :=
  match e with existT (DLocked l) y => (fun l (y : dsection_reply l) => starts l y) l y | _ => None end.

Definition refuses_of (e : dev) : bool := match e with existT (DSpawn _) y => (fun y : bool => negb y) y | _ => false end.

Definition closes_of (e : dev) : bool := match e with existT (DLocked SClose) _ => true | _ => false end.

Definition installs_of (e : dev) : option gid :=
  match e with existT (DLocked l) y => (fun l (y : dsection_reply l) => installs l y) l y | _ => None end.

(** The generation that was installed last; the handle is born with the first. *)
Definition installed (t : history) : gid := fold_left (fun g h => default g (installs_of h.2)) t 0%nat.

Definition drained (g : gid) (t : history) : Prop := exists i e, (i, e) ∈ t /\ drains_of e = Some g.

Record traced (t : history) (w : product_world) : Prop := {
  tr_ok : product_ok w;
  tr_installed : generation (state w) = installed t;
  tr_once g x b : generations w !! g = Some x -> shutdown_result x = Set_ b -> drained g t;
  tr_already i e g : (i, e) ∈ t -> already_of e = Some g -> drained g t;
  tr_init i e g : (i, e) ∈ t -> inits_of e = Some g -> exists x, generations w !! g = Some x /\ shutdown_result x <> Unset;
  tr_works i e n g : (i, e) ∈ t -> works_of e = Some (n, g) ->
    n <= Lifecycle.generation (life w) /\ (Lifecycle.generation (life w) = n -> g = generation (state w));
  tr_claim i e g : (i, e) ∈ t -> claims_of e = Some g ->
    (g <= generation (state w))%nat /\ ((g < generation (state w))%nat -> drained g t) /\
    (g = generation (state w) -> Lifecycle.state (life w) = Stopped -> drained g t \/ closed (state w) = true);
  tr_running : Lifecycle.state (life w) = Running -> exists i e, (i, e) ∈ t /\ starts_of e = Some (Lifecycle.generation (life w));
  tr_refused i e : (i, e) ∈ t -> refuses_of e = true -> closed (state w) = true;
  tr_runtime : runtime (executor w) = false -> closed (state w) = true;
  tr_closed i e : (i, e) ∈ t -> closes_of e = true -> closed (state w) = true }.

Lemma drained_grows g t h : drained g t -> drained g (t ++ [h]).
Proof. intros (i & e & Hin & H). exists i, e. split; [|done]. apply elem_of_app. by left. Qed.

Lemma installed_snoc t h : installed (t ++ [h]) = default (installed t) (installs_of h.2).
Proof. unfold installed. by rewrite fold_left_app. Qed.

Lemma seen_snoc i e (t : history) h : (i, e) ∈ t ++ [h] -> (i, e) ∈ t \/ h = (i, e).
Proof. rewrite elem_of_app, list_elem_of_singleton. naive_solver. Qed.

(** A drain that answered somebody is a drain that was done. *)
Lemma answered_drained t w i g clean : traced t w -> drain_answered g clean (own i t) -> drained g t.
Proof.
  intros Hw [H|H]; apply own_seen in H; [by eexists _, _|]. by eapply tr_already.
Qed.

(** The section that decides has drained the generation it decides about. *)
Lemma decider_drained t w i l (y : dsection_reply l) :
  traced t w -> product_safe (own i t) (DLocked l) y -> decides l y = true -> Lifecycle.generation (life w) = decided_for l ->
  drained (generation (state w)) t.
Proof.
  intros Hw Hs Hd Hn. destruct l; try done; cbn [product_safe decided_for] in *; destruct Hs as (g & Hg & Ha);
    apply own_seen in Hg; destruct (tr_works t w Hw _ _ _ _ Hg eq_refl) as [_ <-]; try done; by eapply answered_drained.
Qed.

(** A section that takes a generation up, or finds one to work on, leaves all as it is. *)
Lemma claim_event l built w d :
  claims_of (ddid (DLocked l) (denter l built w).1) = Some d ->
  d = generation (state w) /\ (denter l built w).2 = w /\ Lifecycle.state (life w) = Starting.
Proof.
  destruct l; try done. cbn. unfold run_start_section. destruct (_ || _ || _ || _) eqn:E; [done|]. intros [= <-].
  split_and!; [done..|]. apply orb_false_iff in E as [[[_ E]%orb_false_iff _]%orb_false_iff _]. by apply negb_false_iff, is_state_spec in E.
Qed.

Lemma work_event l built w n d :
  works_of (ddid (DLocked l) (denter l built w).1) = Some (n, d) ->
  d = generation (state w) /\ (denter l built w).2 = w /\ Lifecycle.generation (life w) = n.
Proof.
  destruct l; try done; cbn.
  - unfold run_start_section. destruct (_ || _ || _ || _) eqn:E; [done|]. intros [= <- <-].
    apply orb_false_iff in E as [[_ E]%orb_false_iff _]. by apply negb_false_iff, Z.eqb_eq in E.
  - unfold still_starting. destruct (_ && _ && _ && _) eqn:E; [|done]. intros [= <- <-].
    apply andb_true_iff in E as [[[_ E]%andb_true_iff _]%andb_true_iff H]. apply bool_decide_eq_true in H. by apply Z.eqb_eq in E.
  - unfold run_stop_section. destruct (_ || _) eqn:E; [done|]. intros [= <- <-]. apply orb_false_iff in E as [E _].
    by apply negb_false_iff, Z.eqb_eq in E.
Qed.

Lemma traced_section t w i l built :
  traced t w -> product_safe (own i t) (DLocked l) (denter l built w).1 ->
  traced (t ++ [(i, ddid (DLocked l) (denter l built w).1)]) (denter l built w).2.
Proof.
  intros Hw Hs. pose proof Hw as [K1 K2 K3 K4 K5 K6 K7 KR K8 K9 K10].
  pose proof (denter_effect l built w K1) as [E1 E2 E3 E4 E5 E6 E7 ER E8 E9].
  pose proof (fun d => claim_event l built w d) as Hclaim. pose proof (fun n d => work_event l built w n d) as Hwork.
  revert E1 E2 E3 E4 E5 E6 E7 ER E8 E9 Hclaim Hwork Hs. generalize (denter l built w). intros [y w'] E1 E2 E3 E4 E5 E6 E7 ER E8 E9 Hclaim Hwork Hs.
  cbn [fst snd] in *.
  assert (forall g x, generations w' !! g = Some x -> generations w !! g = Some x \/ shutdown_result x = Unset) as Hback.
  { intros g x. destruct E3 as [->|[n ->]]; [auto|]. intros [?|[_ [_ <-]%list_lookup_singleton_Some]]%lookup_app_Some; auto. }
  assert (forall g x, generations w !! g = Some x -> generations w' !! g = Some x) as Hon.
  { intros g x Hg. destruct E3 as [->|[n ->]]; [done|]. by apply lookup_app_l_Some. }
  assert (closed (state w) = true -> closed (state w') = true) as Hcl by (rewrite E8; by intros ->).
  pose proof (decider_drained t w i l y Hw Hs) as Hdec.
  split.
  - done.
  - rewrite installed_snoc, E2, K2. done.
  - intros g x b Hg Hb. apply drained_grows. destruct (Hback g x Hg) as [Hg'|Hg']; [by eapply K3|congruence].
  - intros j e g [Hin|[= <- <-]]%seen_snoc H; [|done]. apply drained_grows. by eapply K4.
  - intros j e g [Hin|[= <- <-]]%seen_snoc H; [|done]. destruct (K5 _ _ _ Hin H) as (x & Hx & Hu). eauto.
  - intros j e n g [Hin|[= <- <-]]%seen_snoc H.
    + destruct (K6 _ _ _ _ Hin H) as [H1 H2]. split; [lia|]. intros Hn. rewrite E2.
      destruct (installs l y) as [g1|] eqn:Hi; [destruct (E5 _ eq_refl) as (_ & _ & Hlt & _); lia|]. apply H2. lia.
    + destruct (Hwork _ _ H) as (-> & -> & <-). split; [lia|done].
  - intros j e g [Hin|[= <- <-]]%seen_snoc H.
    + destruct (K7 _ _ _ Hin H) as (H1 & H2 & H3). rewrite E2. destruct (installs l y) as [g1|] eqn:Hi; cbn.
      * destruct (E5 _ eq_refl) as (-> & Hc & _ & Hst). rewrite (dk_current w K1). split_and!; [lia| |intros; lia]. intros Hlt. apply drained_grows.
        destruct (decide (g = generation (state w))) as [->|Hne]; [|apply H2; lia].
        destruct Hst as [Hst|Hd]; [destruct (H3 eq_refl Hst); congruence|auto].
      * split_and!; [done|intros; apply drained_grows; auto|]. intros -> Hst.
        destruct (E7 Hst) as [Hst'|[->|Hd]].
        -- destruct (H3 eq_refl Hst'); [left; by apply drained_grows|auto].
        -- right. destruct Hs as [task Htask]. apply own_seen in Htask. apply Hcl. exact (K8 _ _ Htask eq_refl).
        -- left. apply drained_grows. auto.
    + destruct (Hclaim _ H) as (-> & -> & Hst). split_and!; [lia|intros; lia|congruence].
  - intros Hr. destruct (ER Hr) as [[Hr' ->]|Hst].
    + destruct (KR Hr') as (j & e & Hin & He). exists j, e. split; [apply elem_of_app; by left|done].
    + exists i, (ddid (DLocked l) y). split; [apply elem_of_app; right; by left|done].
  - intros j e [Hin|[= <- <-]]%seen_snoc H; [|done]. apply Hcl. by eapply K8.
  - rewrite E9. auto.
  - intros j e [Hin|[= <- <-]]%seen_snoc H; [apply Hcl; by eapply K10|]. rewrite E8. destruct l; try done. by rewrite orb_true_r.
Qed.

(** An event outside the sections. *)
Lemma traced_aside t w w' i e :
  traced t w -> product_ok w' -> state w' = state w ->
  installs_of e = None -> works_of e = None -> claims_of e = None -> closes_of e = false ->
  (forall g x b, generations w' !! g = Some x -> shutdown_result x = Set_ b -> drained g (t ++ [(i, e)])) ->
  (forall g, already_of e = Some g -> drained g t) ->
  (forall g, inits_of e = Some g \/ (exists x, generations w !! g = Some x /\ shutdown_result x <> Unset) ->
     exists x, generations w' !! g = Some x /\ shutdown_result x <> Unset) ->
  (refuses_of e = true -> closed (state w) = true) ->
  (runtime (executor w') = false -> closed (state w) = true) ->
  traced (t ++ [(i, e)]) w'.
Proof.
  intros [K1 K2 K3 K4 K5 K6 K7 KR K8 K9 K10] Hok Es N1 N2 N3 N4 Hset Hal Hin Href Hrun. split; rewrite ?Es; try done.
  - rewrite installed_snoc. cbn. by rewrite N1.
  - intros j e' g [H|[= <- <-]]%seen_snoc He; apply drained_grows; [by eapply K4|auto].
  - intros j e' g [H|[= <- <-]]%seen_snoc He; apply Hin; [right; by eapply K5|auto].
  - intros j e' n g [H|[= <- <-]]%seen_snoc He; [by eapply K6|congruence].
  - intros j e' g [H|[= <- <-]]%seen_snoc He; [|congruence]. destruct (K7 _ _ _ H He) as (H1 & H2 & H3).
    split_and!; [done|intros; apply drained_grows; auto|]. intros Hg Hs. destruct (H3 Hg Hs); auto using drained_grows.
  - intros Hr. destruct (KR Hr) as (j & e' & Hin' & He). exists j, e'. split; [apply elem_of_app; by left|done].
  - intros j e' [H|[= <- <-]]%seen_snoc He; [by eapply K8|auto].
  - intros j e' [H|[= <- <-]]%seen_snoc He; [by eapply K10|congruence].
Qed.

(** One that writes nothing. *)
Lemma traced_inert t w w' i e :
  traced t w -> product_ok w' -> state w' = state w -> generations w' = generations w ->
  installs_of e = None -> works_of e = None -> claims_of e = None -> closes_of e = false -> inits_of e = None ->
  (forall g, already_of e = Some g -> drained g t) -> (refuses_of e = true -> closed (state w) = true) ->
  (runtime (executor w') = false -> closed (state w) = true) ->
  traced (t ++ [(i, e)]) w'.
Proof.
  intros Hw Hok Es Eg N1 N2 N3 N4 N5 Hal Href Hrun. apply (traced_aside t w); try done; rewrite ?Eg.
  - intros g x b Hg Hb. apply drained_grows. by eapply tr_once.
  - intros g [H|H]; [congruence|done].
Qed.

Lemma set_once_state w g o : state (set_once w g o) = state w /\ executor (set_once w g o) = executor w.
Proof. unfold set_once. by destruct (generations w !! g). Qed.

Lemma set_once_lookup w g o g' x :
  generations (set_once w g o) !! g' = Some x ->
  (g' = g /\ shutdown_result x = o) \/ (g' <> g /\ generations w !! g' = Some x).
Proof.
  unfold set_once. destruct (generations w !! g) as [z|] eqn:Hg; cbn.
  - intros [(-> & <- & _)|[Hne H]]%list_lookup_insert_Some; auto.
  - intros H. right. split; [congruence|done].
Qed.

Lemma set_once_kept w g o g' x :
  o <> Unset -> generations w !! g' = Some x -> shutdown_result x <> Unset \/ g' = g ->
  exists x', generations (set_once w g o) !! g' = Some x' /\ shutdown_result x' <> Unset.
Proof.
  intros Ho Hx Hu. unfold set_once. destruct (generations w !! g) as [z|] eqn:Hg; cbn.
  - destruct (decide (g' = g)) as [->|Hne].
    + eexists. rewrite list_lookup_insert_eq by (by eapply lookup_lt_Some). split; [done|]. done.
    + exists x. rewrite list_lookup_insert_ne by done. destruct Hu; done.
  - exists x. destruct Hu as [? | ->]; [done|congruence].
Qed.

Lemma set_bound_lookup w g k o g' x :
  generations (set_bound w g k o) !! g' = Some x ->
  exists x', generations w !! g' = Some x' /\ shutdown_result x' = shutdown_result x.
Proof.
  unfold set_bound. destruct (generations w !! g) as [z|] eqn:Hg; cbn; [|eauto].
  intros [(-> & <- & _)|[Hne H]]%list_lookup_insert_Some; eauto.
Qed.

Lemma set_bound_kept w g k o g' x :
  generations w !! g' = Some x ->
  exists x', generations (set_bound w g k o) !! g' = Some x' /\ shutdown_result x' = shutdown_result x.
Proof.
  intros Hx. unfold set_bound. destruct (generations w !! g) as [z|] eqn:Hg; cbn; [|eauto].
  destruct (decide (g' = g)) as [->|Hne].
  - eexists. rewrite list_lookup_insert_eq by (by eapply lookup_lt_Some). split; [done|]. cbn. congruence.
  - exists x. by rewrite list_lookup_insert_ne.
Qed.

Lemma set_bound_state w g k o : state (set_bound w g k o) = state w /\ executor (set_bound w g k o) = executor w.
Proof. unfold set_bound. by destruct (generations w !! g). Qed.

(** The cell of a drain. *)
Lemma traced_once t w i g y w' :
  traced t w -> once_enter w g = Some (y, w') -> traced (t ++ [(i, ddid (DOnce g) y)]) w'.
Proof.
  intros Hw. pose proof Hw as [K1 K2 K3 K4 K5 K6 K7 KR K8 K9 K10]. unfold once_enter.
  destruct (generations w !! g) as [x|] eqn:Hg; [|done]. destruct (shutdown_result x) as [| |b] eqn:Hx; [| done|]; intros [= <- <-].
  - destruct (set_once_state w g Initializing) as [Es Ex]. apply (traced_aside t w); rewrite ?Es, ?Ex; try done.
    + by apply set_once_ok.
    + intros g' z b [[-> Hz]|[_ Hz]]%set_once_lookup Hb; [congruence|]. apply drained_grows. by eapply K3.
    + intros g' [[= <-]|(z & Hz & Hu)]; [by eapply set_once_kept; auto|]. eapply set_once_kept; eauto.
  - apply (traced_inert t w); try done. intros g' [= <-]. by eapply K3.
Qed.

Lemma traced_set t w i g b :
  traced t w -> product_safe (own i t) (DOnceSet g b) tt -> traced (t ++ [(i, ddid (DOnceSet g b) tt)]) (set_once w g (Set_ b)).
Proof.
  intros Hw Hs. pose proof Hw as [K1 K2 K3 K4 K5 K6 K7 KR K8 K9 K10].
  destruct (set_once_state w g (Set_ b)) as [Es Ex]. apply (traced_aside t w); rewrite ?Es, ?Ex; try done.
  - by apply set_once_ok.
  - intros g' z b' [[-> Hz]|[_ Hz]]%set_once_lookup Hb; [|apply drained_grows; by eapply K3].
    exists i, (ddid (DOnceSet g b) tt). split; [|done]. apply elem_of_app. right. by left.
  - intros g' [[=]|(z & Hz & Hu)]. eapply set_once_kept; eauto.
Qed.

Lemma traced_step t w i r f n x (y : product_reply r) w' :
  traced t w -> product_safe (own i t) r y -> product_serve r w f n x = Some (y, w') -> traced (t ++ [(i, ddid r y)]) w'.
Proof.
  intros Hw Hs H. pose proof (serve_ok _ _ _ _ _ _ _ (tr_ok t w Hw) H) as Hok. pose proof (tr_runtime t w Hw) as Hrun.
  destruct r; cbn [product_serve] in H;
    try (injection H as <- <-; by apply (traced_inert t w)).
  - injection H as H. assert (y = (denter l (built_in x) w).1) as -> by by rewrite H.
    assert (w' = (denter l (built_in x) w).2) as -> by by rewrite H. by apply traced_section.
  - injection H as <- <-. destruct (set_bound_state w g k o) as [Es Ex]. apply (traced_aside t w); rewrite ?Es, ?Ex; try done.
    + intros g' z b (z' & Hz & <-)%set_bound_lookup Hb. apply drained_grows. by eapply tr_once.
    + intros g' [[=]|(z & Hz & Hu)]. destruct (set_bound_kept w g k o g' z Hz) as (z' & Hz' & E). exists z'. split; [done|congruence].
  - by eapply traced_once.
  - injection H as <- <-. by apply traced_set.
  - unfold spawn, handle in H. destruct (runtime (executor w)) eqn:Hr; injection H as <- <-; apply (traced_inert t w); cbn; try done.
    all: intros _; auto.
  - injection H as <- <-. destruct Hs as (g & clean & t0 & t1 & E & _).
    assert ((i, ddid (DLocked SClose) false) ∈ t) as Hin by (apply own_seen; rewrite E; apply elem_of_app; right; by left).
    apply (traced_inert t w); try done. intros _. exact (tr_closed t w Hw _ _ Hin eq_refl).
Qed.

Lemma traced_start uid built w : product_new uid built = Ok w -> traced [] w.
Proof.
  intros Hw. pose proof (product_new_ok _ _ _ Hw) as Hok. unfold product_new in Hw. destruct (uid =? 0); [done|].
  destruct (generation_new _ _ _) as [g|e] eqn:Hg; [|done]. apply generation_new_inv in Hg as ->. injection Hw as <-.
  split; try done; try (intros; by set_solver).
  intros [|g] x b; cbn; [|done]. by intros [= <-].
Qed.

Definition bound_of (e : dev) : option (gid * Z) :=
  match e with existT (DBound g _) y => (fun y : option (Z * nat) => (fun b => (g, b.1)) <$> y) y | _ => None end.

(** What else the history fixes: the generation a closing thread has looked up, and the
    numbers that observers were given. *)
Record settled (t : history) (w : product_world) : Prop := {
  st_traced : traced t w;
  st_current i t0 g t' :
    own i t = t0 ++ ddid (DLocked SClose) false :: ddid (DLocked SCurrent) g :: t' -> g = generation (state w);
  st_bound i e g n : (i, e) ∈ t -> bound_of e = Some (g, n) -> number_of w g = Some n }.

(** The number of a generation never changes. *)
Lemma serve_number r w f n x (y : product_reply r) w' g m :
  product_ok w -> product_serve r w f n x = Some (y, w') -> number_of w g = Some m -> number_of w' g = Some m.
Proof.
  intros Hw H Hm. destruct r; cbn [product_serve] in H; try (by injection H as <- <-).
  - injection H as H. assert (w' = (denter l (built_in x) w).2) as -> by by rewrite H.
    destruct (ef_store _ _ _ _ (denter_effect l (built_in x) w Hw)) as [E|[z E]]; unfold number_of in *; rewrite E; [done|].
    destruct (generations w !! g) eqn:Hg; [|done]. by rewrite (lookup_app_l_Some _ _ _ _ Hg).
  - injection H as <- <-. unfold number_of, set_bound in *. destruct (generations w !! g0) as [z|] eqn:Hz; [|done]. cbn.
    rewrite <- list_lookup_fmap, (retouch_number _ _ z), list_lookup_fmap by done. done.
  - unfold once_enter in H. destruct (generations w !! g0) as [z|] eqn:Hz; [|done]. destruct (shutdown_result z); simplify_eq; [|done].
    unfold number_of, set_once in *. rewrite Hz. cbn. rewrite <- list_lookup_fmap, (retouch_number _ _ z), list_lookup_fmap by done. done.
  - injection H as <- <-. unfold number_of, set_once in *. destruct (generations w !! g0) as [z|] eqn:Hz; [|done]. cbn.
    rewrite <- list_lookup_fmap, (retouch_number _ _ z), list_lookup_fmap by done. done.
  - destruct (spawn _) as [ok e]. by injection H as <- <-.
Qed.

(** A closed handle keeps its generation. *)
Lemma serve_closed r w f n x (y : product_reply r) w' :
  product_ok w -> product_serve r w f n x = Some (y, w') -> closed (state w) = true -> generation (state w') = generation (state w).
Proof.
  intros Hw H Hc. destruct r; cbn [product_serve] in H; try (by injection H as <- <-).
  - injection H as H. assert (w' = (denter l (built_in x) w).2) as -> by by rewrite H.
    pose proof (denter_effect l (built_in x) w Hw) as E. rewrite (ef_generation _ _ _ _ E).
    destruct (installs l _) as [g|] eqn:Hi; [|done]. destruct (ef_new _ _ _ _ E g Hi) as (_ & Hc' & _). congruence.
  - injection H as <- <-. by rewrite (proj1 (set_bound_state _ _ _ _)).
  - unfold once_enter in H. destruct (generations w !! g) as [z|]; [|done]. destruct (shutdown_result z); simplify_eq; [|done].
    by rewrite (proj1 (set_once_state _ _ _)).
  - injection H as <- <-. by rewrite (proj1 (set_once_state _ _ _)).
  - destruct (spawn _) as [ok e]. by injection H as <- <-.
Qed.

Lemma settled_step t w i r f n x (y : product_reply r) w' :
  settled t w -> product_safe (own i t) r y -> product_serve r w f n x = Some (y, w') -> settled (t ++ [(i, ddid r y)]) w'.
Proof.
  intros [Ht Hc Hb] Hs H. pose proof (tr_ok _ _ Ht) as Hok. split; [by eapply traced_step| |].
  - intros j t0 g t' E. rewrite own_snoc in E. destruct (decide (i = j)) as [->|Hne].
    + destruct t' as [|e t' _] using rev_ind.
      * assert (ddid r y = ddid (DLocked SCurrent) g) as Ee.
        { apply (f_equal last) in E. rewrite last_snoc, cons_middle, app_assoc, last_snoc in E. by injection E. }
        assert (generation (state w) = g /\ w' = w) as [<- ->]; [|done].
        revert y H Hs E Ee. destruct r as [[]| | | | | | | | | | | | | |]; try (intros; discriminate). intros y H _ _ Ee. cbn in H. injection H as <- <-.
        split; [|done]. apply (f_equal (fun e : dev => match e with existT (DLocked SCurrent) y => (fun y : gid => y) y | _ => g end)) in Ee. done.
      * rewrite !app_comm_cons, app_assoc in E. apply app_inj_tail in E as [E _]. specialize (Hc _ _ _ _ E) as ->. symmetry.
        eapply serve_closed; [done|exact H|]. apply (tr_closed _ _ Ht j (ddid (DLocked SClose) false)); [|done].
        apply own_seen. rewrite E. apply elem_of_app. right. by left.
    + rewrite app_nil_r in E. specialize (Hc _ _ _ _ E) as ->. symmetry. eapply serve_closed; [done|exact H|].
      apply (tr_closed _ _ Ht j (ddid (DLocked SClose) false)); [|done]. apply own_seen. rewrite E. apply elem_of_app. right. by left.
  - intros j e g m [Hin|[= <- <-]]%seen_snoc He; [eapply serve_number; [done|exact H|]; by eapply Hb|].
    destruct r; try done. cbn in H. injection H as <- <-. cbn in He. unfold number_of.
    destruct (generations w !! g0) as [z|] eqn:Hz; [|done]. cbn in He. destruct (observer_of _ _); [|done]. injection He as <- <-. by rewrite Hz.
Qed.

(** Every event of a run happened in a state that fits what had happened before. *)
Lemma product_settled uid built w es t1 i r (y : product_reply r) t2 :
  product_new uid built = Ok w -> product_events (dworld w) es = t1 ++ (i, ddid r y) :: t2 ->
  exists s f n x s', settled t1 s /\ product_serve r s f n x = Some (y, s').
Proof.
  intros Hw E. apply (traced_at product_serve product_born product_body product_safe settled (dworld w) es) with (t1 := t1) (e := (i, ddid r y)) (t2 := t2);
    [intros; by eapply settled_step|apply product_events_safe| |done].
  split; [by eapply traced_start|intros j t0 g t' H; by destruct t0|set_solver].
Qed.

(** ** Generations one after the other *)

(** A drain happens once: whoever is let into a generation's drain is the first, whatever
    starts, stops and the end of the process come to it at the same time. *)
Theorem generation_drained_once uid built w es t1 i g t2 :
  product_new uid built = Ok w -> product_events (dworld w) es = t1 ++ (i, ddid (DOnce g) Initialize) :: t2 ->
  forall j, (j, ddid (DOnce g) Initialize) ∉ t1.
Proof.
  intros Hw E j Hj. destruct (product_settled _ _ _ _ _ _ _ _ _ Hw E) as (s & f & n & x & s' & [Ht _ _] & Hs).
  cbn in Hs. unfold once_enter in Hs. destruct (tr_init t1 s Ht _ _ _ Hj eq_refl) as (z & Hz & Hu). rewrite Hz in Hs.
  destruct (shutdown_result z); [done|done|]. injection Hs as Hs _. discriminate Hs.
Qed.

(** The drain of a generation, all of it, has happened. *)
Definition fully_drained (g : gid) (t : history) : Prop :=
  exists k clean ta tb, t = ta ++ (k, ddid (DOnceSet g clean) tt) :: tb /\ drained_all g clean (own k ta).

Lemma drained_fully w es t1 t2 g :
  product_events (dworld w) es = t1 ++ t2 -> drained g t1 -> fully_drained g t1.
Proof.
  intros E (k & [r y] & Hin & Hd). destruct r; try done. injection Hd as ->. destruct y. apply list_elem_of_split in Hin as (ta & tb & ->).
  exists k, b, ta, tb. split; [done|]. rewrite <- app_assoc in E. exact (product_events_safe _ _ _ _ _ _ _ E).
Qed.

(** C1: One generation at a time.  Whenever a start takes a generation up, it is the one
    installed last, and every other generation that was ever taken up is older and has
    been drained completely: control, rotation, proxy, readiness, mesh and policy, in this
    order. *)
Theorem one_generation_at_a_time uid built w es t1 i expected g f t2 :
  product_new uid built = Ok w ->
  product_events (dworld w) es = t1 ++ (i, ddid (DLocked (SRunStart expected)) (Some (g, f))) :: t2 ->
  g = installed t1 /\
  forall j expected' g' f', (j, ddid (DLocked (SRunStart expected')) (Some (g', f'))) ∈ t1 ->
    g' = g \/ (g' < g)%nat /\ fully_drained g' t1.
Proof.
  intros Hw E. destruct (product_settled _ _ _ _ _ _ _ _ _ Hw E) as (s & fin & n & x & s' & [Ht _ _] & Hs).
  cbn [product_serve denter] in Hs. injection Hs as Hs _. unfold run_start_section in Hs. destruct (_ || _ || _ || _); [done|]. injection Hs as Hg _.
  assert (g = generation (state s)) as -> by done. rewrite (tr_installed _ _ Ht). split; [done|]. intros j e' g' f' Hj.
  destruct (tr_claim t1 s Ht _ _ _ Hj eq_refl) as (Hle & Hlt & _). pose proof (tr_installed _ _ Ht) as Ei. rewrite Ei in Hle, Hlt. cbn in Hle, Hlt.
  destruct (decide (g' = installed t1)) as [|Hne]; [by left|right]. split; [lia|]. eapply drained_fully; [exact E|]. apply Hlt. lia.
Qed.

(** The end of the process.  When the executor is shut down, every generation that a start
    ever took up has been drained completely. *)
Theorem executor_outlives_generations uid built w es t1 i t2 :
  product_new uid built = Ok w -> product_events (dworld w) es = t1 ++ (i, ddid DExecutorShutdown tt) :: t2 ->
  forall j expected g f, (j, ddid (DLocked (SRunStart expected)) (Some (g, f))) ∈ t1 -> fully_drained g t1.
Proof.
  intros Hw E j e g f Hj. destruct (product_settled _ _ _ _ _ _ _ _ _ Hw E) as (s & fin & n & x & s' & [Ht Hc _] & Hs).
  pose proof (product_events_safe _ _ _ _ _ _ _ E) as (g0 & clean & t0 & t' & Eo & Hd). pose proof (Hc _ _ _ _ Eo) as ->.
  eapply drained_fully; [exact E|]. destruct (tr_claim t1 s Ht _ _ _ Hj eq_refl) as (Hle & Hlt & _). cbn in Hle, Hlt.
  destruct (decide (g = generation (state s))) as [->|Hne]; [|apply Hlt; lia].
  eapply answered_drained; [exact Ht|]. rewrite Eo. apply drain_answered_right. destruct Hd as [Hd|Hd]; [left|right]; by do 2 right.
Qed.

(** An event at the end of a thread's own history. *)
Lemma own_last i e l (t : history) : own i t = l ++ [e] -> exists ta tb, t = ta ++ (i, e) :: tb /\ own i ta = l.
Proof.
  induction t as [|[j e'] t IH] using rev_ind; intros E; [by destruct l|]. rewrite own_snoc in E. destruct (decide (j = i)) as [->|Hne].
  - apply app_inj_tail in E as [E ->]. by exists t, [].
  - rewrite app_nil_r in E. destruct (IH E) as (ta & tb & -> & Ho). exists ta, (tb ++ [(j, e')]). split; [|done]. by rewrite <- app_assoc.
Qed.

(** Nobody hears of a generation that has been replaced.  A publication reaches an
    observer of the platform only if, when its closure looked at the fence, the
    generation it comes from was the one installed. *)
Theorem publications_fenced uid built w es t1 i g k o t2 :
  product_new uid built = Ok w -> product_events (dworld w) es = t1 ++ (i, ddid (DDeliver g k o) tt) :: t2 ->
  exists ta n tb, t1 = ta ++ (i, ddid DFence n) :: tb /\ g = installed ta.
Proof.
  intros Hw E. pose proof (product_events_safe _ _ _ _ _ _ _ E) as (n & t0 & Eo).
  change (t0 ++ [ddid (DBound g k) (Some (n, o)); ddid DFence n]) with (t0 ++ [ddid (DBound g k) (Some (n, o))] ++ [ddid DFence n]) in Eo.
  rewrite app_assoc in Eo. apply own_last in Eo as (ta & tb & -> & Eo). exists ta, n, tb. split; [done|].
  rewrite <- app_assoc in E. destruct (product_settled _ _ _ _ _ _ _ _ _ Hw E) as (s & fin & m & x & s' & [Ht _ Hb] & Hs).
  cbn in Hs. injection Hs as Hs _. rewrite <- (tr_installed _ _ Ht). pose proof (tr_ok _ _ Ht) as [H1 H2 H3 H4 H5 H6 H7 H8].
  assert ((i, ddid (DBound g k) (Some (n, o))) ∈ ta) as Hin by (apply own_seen; rewrite Eo; apply elem_of_app; right; by left).
  pose proof (Hb _ _ _ _ Hin eq_refl) as Hn. cbn in Hn. rewrite Hs in H3. unfold number_of in *.
  destruct (generations s !! g) as [z|] eqn:Hg; [|done]. destruct (generations s !! generation (state s)) as [z'|] eqn:Hg'; [|done].
  cbn in *. injection Hn as Hn. injection H3 as H3.
  destruct (Nat.lt_trichotomy g (generation (state s))) as [Hl|[|Hl]]; [|done|].
  - pose proof (H5 _ _ _ _ Hg Hg' Hl). lia.
  - pose proof (H5 _ _ _ _ Hg' Hg Hl). lia.
Qed.


(** ** Runs *)

Definition product0 : product_world :=
  {| product_uid := 10123;
     state := {| lifecycle := Lifecycle.new; generation := 0; pending_start := None; control_start := None; observers := no_observers;
                 platform_facts := facts_default; platform_mutation_epoch := 0; active_platform_mutation := None; closed := false |};
     observer_generation := 1; generations := [{| number := 1; shutdown_result := Unset; bound := no_observers |}];
     executor := executor_new |}.

(** Everything succeeds. *)
Definition succeeds (c : gcall) : gcall_reply c :=
  match c return gcall_reply c with
  | GPolicyStart | GReadinessMesh _ | GProxyStart _ | GSetTemporary _ _ _ | GRestoreTemporary _ _ _ _ | GClearTemporary
  | GControlShutdown | GRotationShutdown | GPolicyShutdown => true
  | GObserveNetwork _ _ _ | GNetworkLost _ _ => Ok (admission Cellular.new)
  | GRotationObserve _ | GReadinessShutdown => tt
  | GMeshObserve _ _ | GMeshSnapshot => Err Transport.StateUnavailable
  | GControlStart _ => Err InvalidIdentity
  | GRotationStart => Err StartRuntimeNotRunning
  | GServingGeneration => None
  | GProxyShutdown => Some None
  | GMeshShutdown => Some true
  end.

Definition fine : product_input := {| built_in := true; answers := succeeds; record_in := None |}.

(** Thread [i] goes on for [n] requests. *)
Definition go (n i : nat) : list (sched product_input product_caller) := replicate n (Advance i fine).

Definition some_input : ProductStartInput := {| input_version := None; input_username := None; input_password := None |}.

(** Started; started, stopped and taken up again; and shut down then. *)
Definition starting_run : list (sched product_input product_caller) := Call (CallStart some_input) :: go 2 0 ++ go 4 1.

Definition restarting_run : list (sched product_input product_caller) :=
  starting_run ++ Call CallStop :: go 2 2 ++ go 10 3 ++ Call (CallStart some_input) :: go 2 4 ++ go 1 5.

Definition closing_run : list (sched product_input product_caller) := restarting_run ++ Call CallShutdown :: go 12 6.

Lemma product_in_order_witness : product_ok (shared (product_runs (dworld product0) closing_run)).
Proof. by apply (product_in_order 10123 true product0 closing_run). Defined.

Lemma generation_drained_once_witness :
  (6%nat, ddid (DOnce 1%nat) Initialize) ∉ take 24 (product_events (dworld product0) closing_run).
Proof.
  apply (generation_drained_once 10123 true product0 closing_run (take 24 (product_events (dworld product0) closing_run)) 6%nat 1%nat
    (drop 25 (product_events (dworld product0) closing_run))); vm_compute; reflexivity.
Defined.

Lemma one_generation_at_a_time_witness : fully_drained 0%nat (take 20 (product_events (dworld product0) restarting_run)).
Proof.
  destruct (one_generation_at_a_time 10123 true product0 restarting_run (take 20 (product_events (dworld product0) restarting_run))
    5%nat 2 1%nat facts_default []) as [_ H]; [reflexivity|vm_compute; reflexivity|].
  destruct (H 1%nat 1 0%nat facts_default) as [E|[_ E]]; [|discriminate E|exact E].
  apply (list_elem_of_lookup_2 _ 2%nat). vm_compute. reflexivity.
Defined.

Lemma executor_outlives_generations_witness :
  fully_drained 1%nat (take 32 (product_events (dworld product0) closing_run)).
Proof.
  apply (executor_outlives_generations 10123 true product0 closing_run (take 32 (product_events (dworld product0) closing_run)) 6%nat [])
    with (j := 5%nat) (expected := 2) (f := facts_default); [reflexivity|vm_compute; reflexivity|].
  apply (list_elem_of_lookup_2 _ 20%nat). vm_compute. reflexivity.
Defined.

(** An observer is registered and the first generation publishes. *)
Definition publishing_run : list (sched product_input product_caller) :=
  Call (CallSetObserver OMesh 7) :: go 2 0 ++ Call (CallPublish 0 OMesh) :: go 3 1.

Lemma publications_fenced_witness :
  exists ta n tb, take 4 (product_events (dworld product0) publishing_run) = ta ++ (1%nat, ddid DFence n) :: tb /\ 0%nat = installed ta.
Proof.
  apply (publications_fenced 10123 true product0 publishing_run (take 4 (product_events (dworld product0) publishing_run)) 1%nat 0%nat OMesh 7%nat []);
    vm_compute; reflexivity.
Defined.


(** ** Two races *)

(** Stopped with a start queued; a lease is taken before the stopping task restarts. *)
Definition overlapping_run : list (sched product_input product_caller) :=
  starting_run ++ Call CallStop :: go 2 2 ++ Call (CallStart some_input) :: go 1 4 ++ go 10 3 ++ Call CallBegin :: go 1 5 ++ go 5 3.

(** A platform mutation that was granted on a stopped product runs over a product that
    starts: the restart that was queued behind a stop looks neither at the lease nor at
    whether the handle was closed.  The mutation then fails, and the generation that was
    started meanwhile is not marked for replacement. *)
Theorem restart_overlaps_platform_mutation :
  let w := shared (product_runs (dworld product0) overlapping_run) in
  let after := shared (product_runs (dworld product0) (overlapping_run ++ Call (CallComplete 1 false) :: go 1 6)) in
  active_platform_mutation (state w) = Some 1 /\ Lifecycle.state (life w) = Running /\
  active_platform_mutation (state after) = None /\ generation_requires_replacement (life after) = false.
Proof. vm_compute. done. Qed.

(** A usable network is remembered; while the start replays it, Android reports another
    network, which is not usable. *)
Definition overtaking_run : list (sched product_input product_caller) :=
  Call (CallObserve 1 (demo_obs 1 10 true) 10 None) :: go 1 0 ++ Call (CallStart some_input) :: go 2 1 ++ go 2 2 ++
  Call (CallObserve 2 (demo_obs 2 20 false) 20 None) :: go 3 3 ++ go 3 2.

Definition observed_of (e : dev) : option Cellular.event :=
  match e with existT (DGen _ (GObserveNetwork o _ _)) _ => Some (EObserve o) | _ => None end.

(** The replay can be overtaken.  [run_start] copies the facts under the lock and replays
    them outside it, so that a newer observation of another network can reach the
    generation first; the replayed one is then stale, and the product runs without the
    network that is present and usable, which it would have had in the right order. *)
Theorem replay_overtaken :
  let w := shared (product_runs (dworld product0) overtaking_run) in
  let seen := omap (fun h => observed_of h.2) (product_events (dworld product0) overtaking_run) in
  Lifecycle.state (life w) = Running /\
  seen = [EObserve (demo_obs 2 20 false); EObserve (demo_obs 1 10 true)] /\
  admitted_network (admission (deliver Cellular.new seen)) = None /\
  admitted_network (admission (deliver Cellular.new (rev seen))) = Some 10 /\
  admitted_network (admission (deliver Cellular.new (replay_events (platform_facts (state w))))) = Some 10.
Proof. vm_compute. done. Qed.
