(* ===== verification/CredentialsBoundary.v ===== *)
(** * Credential functions of the platform boundary

    [src/crates/android-ffi/src/credentials_ffi.rs].  The boundary keeps nothing: the
    platform holds the bytes, hands them in and stores what comes back.  The file models
    the functions, and a platform that keeps to this, and shows that its life is the
    life of the owners of [Credentials] and [TemporaryCredential]. *)

From S2P Require Import Prelude Net RustStr Proto.
From S2P Require Import TemporaryCredential.
From S2P Require Import Credentials.

Record ExternalCredentialStateView := { view_version : Z; view_revoked : bool; view_credential_id : str }.

Record ExternalCredentialCanonicalStateView := { canonical_view : ExternalCredentialStateView; canonical_bytes : list Z }.

(** The action's view has the owner's variants. *)
Record ExternalCredentialPersistenceResolutionView := {
  resolved_view : ExternalCredentialStateView;
  resolved_bytes : list Z;
  resolved_action : ExternalCredentialPersistenceAction }.

Record ExternalCredentialDerivationView := {
  derived_version : Z;
  derived_credential_id : str;
  username_context : list Z;
  password_context : list Z }.

Record TemporaryCredentialObservationView := {
  observed_generation : Z;
  observed_expiry : Z;
  admitted : bool;
  observed_username : str;
  observed_password : str;
  next_state : list Z }.

Inductive ExternalCredentialBoundaryError :=
| BoundaryInvalidState | BoundaryInvalidStorage | BoundaryVersionExhausted | BoundaryRevoked | BoundaryInvalidDerivationOutput
| BoundaryInvalidProvisioningEnvelope | BoundaryInvalidTemporaryCredential.

Definition boundary_error (e : ExternalCredentialError) : ExternalCredentialBoundaryError :=
  match e with
  | InvalidVersion | MalformedState | NonCanonicalState => BoundaryInvalidState
  | MixedPersistenceSchemas | IncompleteLegacyState | InvalidLegacyVersion | MissingRootForState | RootWithoutState =>
      BoundaryInvalidStorage
  | VersionExhausted => BoundaryVersionExhausted
  | RevokedError => BoundaryRevoked
  | InvalidDerivationOutput => BoundaryInvalidDerivationOutput
  | InvalidProvisioningEnvelope => BoundaryInvalidProvisioningEnvelope
  end.

Definition map_temporary_error (_ : TemporaryCredential.TemporaryCredentialError) : ExternalCredentialBoundaryError :=
  BoundaryInvalidTemporaryCredential.

Definition owner_state (version : Z) (revoked : bool) : result ExternalCredentialBoundaryError ExternalCredentialState :=
  map_err boundary_error (state_new version (if revoked then Revoked else Active)).

Definition map_state (s : ExternalCredentialState) : ExternalCredentialStateView :=
  {| view_version := version s; view_revoked := status s =b? Revoked; view_credential_id := credential_id s |}.

Definition map_canonical (s : ExternalCredentialState) : ExternalCredentialCanonicalStateView :=
  {| canonical_view := map_state s; canonical_bytes := encode_state s |}.

Definition external_credential_resolve_persistence (canonical : option (list Z)) (legacy_version : option str)
    (legacy_revoked : option bool) (root_exists : bool)
    : result ExternalCredentialBoundaryError ExternalCredentialPersistenceResolutionView :=
  let? r := map_err boundary_error (resolve_persistence canonical legacy_version legacy_revoked root_exists) in
  Ok {| resolved_view := map_state (state r); resolved_bytes := canonical_state r; resolved_action := action r |}.

Definition external_credential_rotate (version : Z) (revoked : bool)
    : result ExternalCredentialBoundaryError ExternalCredentialCanonicalStateView :=
  let? s := owner_state version revoked in
  let? s := map_err boundary_error (rotate s) in
  Ok (map_canonical s).

Definition external_credential_revoke (version : Z) (revoked : bool)
    : result ExternalCredentialBoundaryError ExternalCredentialCanonicalStateView :=
  let? s := owner_state version revoked in Ok (map_canonical (revoke s)).

Definition external_credential_derivation (version : Z) (revoked : bool)
    : result ExternalCredentialBoundaryError ExternalCredentialDerivationView :=
  let? s := owner_state version revoked in
  let? u := map_err boundary_error (derivation_context s Username) in
  let? p := map_err boundary_error (derivation_context s Password) in
  Ok {| derived_version := Credentials.version s; derived_credential_id := credential_id s; username_context := u; password_context := p |}.

Definition external_credential_materialize (version : Z) (revoked : bool) (username_mac password_mac : list Z)
    : result ExternalCredentialBoundaryError ExternalCredentialMaterial :=
  let? s := owner_state version revoked in
  let? m := map_err boundary_error (materialize s username_mac password_mac) in
  Ok {| username := username m; password := password m |}.

Definition external_credential_encode_provisioning_envelope (credential_version : Z) (challenge : list Z) (u p : str)
    : result ExternalCredentialBoundaryError (list Z) :=
  let? s := map_err boundary_error (state_new credential_version Active) in
  map_err boundary_error (encode_provisioning_envelope s challenge u p).

Definition external_temporary_credential_issue (generation : Z) (trusted_unix_seconds : option Z) (u p : str)
    : result ExternalCredentialBoundaryError (list Z) :=
  let? r := map_err map_temporary_error (TemporaryCredential.issue generation trusted_unix_seconds u p) in
  Ok (TemporaryCredential.encode_temporary_record r).

Definition external_temporary_credential_observe (plaintext : list Z) (trusted_unix_seconds : option Z)
    : result ExternalCredentialBoundaryError TemporaryCredentialObservationView :=
  let? r := map_err map_temporary_error (TemporaryCredential.decode_temporary_record plaintext) in
  let '(r, admitted) := TemporaryCredential.record_observe r trusted_unix_seconds in
  Ok {| observed_generation := TemporaryCredential.generation (TemporaryCredential.lease r);
        observed_expiry := TemporaryCredential.expires_at_unix_seconds (TemporaryCredential.lease r);
        admitted := admitted; observed_username := TemporaryCredential.username r; observed_password := TemporaryCredential.password r;
        next_state := TemporaryCredential.encode_temporary_record r |}.

Definition external_temporary_credential_revoke (plaintext : list Z) : result ExternalCredentialBoundaryError (list Z) :=
  let? r := map_err map_temporary_error (TemporaryCredential.decode_temporary_record plaintext) in
  Ok (TemporaryCredential.encode_temporary_record (TemporaryCredential.record_revoke r)).

(** ** A platform that stores what it is given *)

(** The bytes of the primary credential and whether the root key exists. *)
Record vault := { vault_bytes : option (list Z); vault_root : bool }.

Inductive vault_op := VaultStart | VaultRotate | VaultRevoke.

(** The platform reads what it has stored and acts on the view; it stores what comes
    back, and nothing when the boundary refuses. *)
Definition vault_step (v : vault) (op : vault_op) : result ExternalCredentialBoundaryError ExternalCredentialStateView * vault :=
  match external_credential_resolve_persistence (vault_bytes v) None None (vault_root v) with
  | Err e => (Err e, v)
  | Ok r =>
      let here := resolved_view r in
      let opened := {| vault_bytes := Some (resolved_bytes r); vault_root := true |} in
      let moved := match op with
                   | VaultStart => Ok {| canonical_view := here; canonical_bytes := resolved_bytes r |}
                   | VaultRotate => external_credential_rotate (view_version here) (view_revoked here)
                   | VaultRevoke => external_credential_revoke (view_version here) (view_revoked here)
                   end in
      match moved with
      | Err e => (Err e, opened)
      | Ok c => (Ok (canonical_view c), {| vault_bytes := Some (canonical_bytes c); vault_root := true |})
      end
  end.

Definition empty_vault : vault := {| vault_bytes := None; vault_root := false |}.

(** What the owner would have done. *)
Definition vault_calls (ops : list vault_op) : list credential_op :=
  omap (fun op => match op with VaultStart => None | VaultRotate => Some Rotate | VaultRevoke => Some RevokeCurrent end) ops.

(** The vault holds this state. *)
Definition holds (v : vault) (s : ExternalCredentialState) : Prop :=
  state_ok s /\
  (v = {| vault_bytes := Some (encode_state s); vault_root := true |} \/ v = empty_vault /\ s = initial).

Lemma owner_state_view s : state_ok s -> owner_state (version s) (status s =b? Revoked) = Ok s.
Proof.
  intros Hs. unfold owner_state, state_new, state_ok in *. destruct (Z.eqb_spec (version s) 0); [lia|].
  by destruct s as [v []].
Qed.

Lemma holds_resolves v s :
  holds v s -> exists a, external_credential_resolve_persistence (vault_bytes v) None None (vault_root v) =
    Ok {| resolved_view := map_state s; resolved_bytes := encode_state s; resolved_action := a |}.
Proof.
  intros [Hs [->|[-> ->]]]; [|by exists CreateRootAndPersistCanonical]. exists UseCurrent.
  unfold external_credential_resolve_persistence, resolve_persistence. cbn [vault_bytes vault_root is_some orb negb].
  rewrite decode_encode_state by done. cbn [result_bind]. by rewrite bool_decide_eq_true_2.
Qed.

Lemma initial_ok : state_ok initial.
Proof. unfold state_ok, initial, INITIAL_VERSION, u64_max. cbn. lia. Qed.

Lemma vault_step_spec v s op :
  holds v s ->
  let s' := run credential_step s (vault_calls [op]) in
  holds (vault_step v op).2 s' /\
  ((vault_step v op).1 = Ok (map_state s') \/
   (vault_step v op).1 = Err BoundaryVersionExhausted /\ op = VaultRotate /\ version s = u64_max /\ s' = s).
Proof.
  intros Hv. pose proof Hv as [Hs _]. destruct (holds_resolves v s Hv) as [a E]. unfold vault_step. rewrite E.
  cbn [resolved_view resolved_bytes map_state view_version view_revoked]. destruct op; cbn [vault_calls omap list_omap run credential_step snd].
  - split; [split; [done|by left]|by left].
  - unfold external_credential_rotate. rewrite owner_state_view by done. cbn [result_bind]. pose proof (credential_step_ok s Rotate Hs) as Hok.
    cbn [credential_step] in Hok. unfold rotate in *. destruct (checked_add u64_max (version s) 1) as [n|] eqn:En; cbn in *.
    + split; [split; [done|by left]|by left].
    + apply checked_add_None in En. unfold state_ok in Hs. split; [split; [done|by left]|right]. split_and!; try done. lia.
  - unfold external_credential_revoke. rewrite owner_state_view by done. cbn [result_bind].
    split; [split; [done|by left]|by left].
Qed.

Lemma vault_run v s ops : holds v s -> holds (run vault_step v ops) (run credential_step s (vault_calls ops)).
Proof.
  revert v s. induction ops as [|op ops IH]; intros v s Hv; [done|]. cbn [run].
  destruct (vault_step_spec v s op Hv) as [H _]. specialize (IH _ _ H).
  replace (run credential_step s (vault_calls (op :: ops))) with
    (run credential_step (run credential_step s (vault_calls [op])) (vault_calls ops)) by by destruct op.
  done.
Qed.

(** The stored credential is the owner's.  Starting from a platform that has nothing, and
    whatever starts, rotations and revocations follow, each reading the stored bytes and
    storing what the boundary gives back: the bytes are the canonical encoding of the
    state that the owner reaches by the same rotations and revocations; the next call
    answers that owner's state, and fails only when a rotation finds the version space
    exhausted, which changes nothing; and derivation inputs are given out exactly for an
    active credential, and are those of the owner. *)
Theorem vault_refines_owner ops op :
  let v := run vault_step empty_vault ops in
  let s := run credential_step initial (vault_calls ops) in
  let s' := run credential_step s (vault_calls [op]) in
  holds v s /\ holds (vault_step v op).2 s' /\
  ((vault_step v op).1 = Ok (map_state s') \/
   (vault_step v op).1 = Err BoundaryVersionExhausted /\ op = VaultRotate /\ version s = u64_max /\ s' = s) /\
  (forall d, external_credential_derivation (view_version (map_state s)) (view_revoked (map_state s)) = Ok d <->
     status s = Active /\ derived_version d = version s /\ derived_credential_id d = credential_id s /\
     derivation_context s Username = Ok (username_context d) /\ derivation_context s Password = Ok (password_context d)).
Proof.
  intros v s s'. assert (holds v s) as Hv by (apply vault_run; split; [apply initial_ok|by right]). split; [done|].
  destruct (vault_step_spec v s op Hv) as [H1 H2]. split; [done|]. split; [done|]. destruct Hv as [Hs _].
  intros d. unfold external_credential_derivation. cbn [map_state view_version view_revoked]. rewrite owner_state_view by done.
  cbn [result_bind]. unfold derivation_context, require_active.
  generalize (context_domain Username ++ be_bytes 8 (version s)) (context_domain Password ++ be_bytes 8 (version s)). intros cu cp.
  destruct (status s); cbn [result_bind map_err]; [|naive_solver].
  split; [intros [= <-]; done|]. destruct d as [dv di du dp]. cbn. intros (_ & -> & -> & [= ->] & [= ->]). done.
Qed.

(** ** The temporary credential *)

(** A platform event on the protected bytes; the answer is whether a connection is let
    in. *)
Definition protected_step (stored : list Z) (e : TemporaryCredential.lease_event) : bool * list Z :=
  match e with
  | TemporaryCredential.Observe t =>
      match external_temporary_credential_observe stored t with
      | Ok view => (admitted view, next_state view)
      | Err _ => (false, stored)
      end
  | TemporaryCredential.Revoke =>
      match external_temporary_credential_revoke stored with Ok bytes => (false, bytes) | Err _ => (false, stored) end
  | TemporaryCredential.Restart => (false, stored)
  end.

Lemma protected_step_owner stored e :
  (protected_step stored e).1 = (TemporaryCredential.lease_step_event stored e).1 /\
  (is_ok (TemporaryCredential.decode_temporary_record stored) = true ->
   (protected_step stored e).2 = (TemporaryCredential.lease_step_event stored e).2).
Proof.
  unfold protected_step, TemporaryCredential.lease_step_event, external_temporary_credential_observe, external_temporary_credential_revoke.
  destruct (TemporaryCredential.decode_temporary_record stored) as [r|x] eqn:E; [|by destruct e]. cbn [map_err result_bind].
  destruct e as [t| |]; [by destruct (TemporaryCredential.record_observe r t)|done|]. split; [done|]. intros _. cbn.
  by apply TemporaryCredential.decode_record_ok in E as [_ ->].
Qed.

(** The platform's grant lasts exactly as long as the owner's.  For whatever the boundary
    has issued at [start], and whatever observations, revocations and restarts follow on
    the stored bytes, an observation lets a connection in if and only if it and all
    before it had trusted times that do not go back and lie less than a day after
    [start], with no revocation in between; and the bytes always yield the pair that was
    issued. *)
Theorem protected_grant_exact g start u p bytes es t :
  is_u64 g -> is_u64 start -> utf8_valid u = true -> utf8_valid p = true ->
  external_temporary_credential_issue g (Some start) u p = Ok bytes ->
  Forall TemporaryCredential.event_ok es -> TemporaryCredential.event_ok (TemporaryCredential.Observe t) ->
  exists view, external_temporary_credential_observe (run protected_step bytes es) t = Ok view /\
    observed_username view = u /\ observed_password view = p /\ observed_generation view = g /\
    observed_expiry view = start + TemporaryCredential.TEMPORARY_CREDENTIAL_TTL_SECONDS /\
    (admitted view = true <->
     is_Some t /\ is_Some (TemporaryCredential.in_order start (start + TemporaryCredential.TEMPORARY_CREDENTIAL_TTL_SECONDS) (es ++ [TemporaryCredential.Observe t]))).
Proof.
  intros Hg Hs Hu Hp Hi Hes Ht. unfold external_temporary_credential_issue in Hi.
  destruct (TemporaryCredential.issue g (Some start) u p) as [r|e] eqn:Er; [|done]. injection Hi as <-.
  pose proof (TemporaryCredential.issue_rel _ _ _ _ _ Hg Hs Hu Hp Er) as Hrel.
  assert (run protected_step (TemporaryCredential.encode_temporary_record r) es = run TemporaryCredential.lease_step_event (TemporaryCredential.encode_temporary_record r) es) as ->.
  { revert Hrel. generalize (TemporaryCredential.encode_temporary_record r) (Some start). clear -Hes.
    induction Hes as [|e es He Hes IH]; intros stored floor Hrel; [done|]. cbn [run].
    rewrite (proj2 (protected_step_owner stored e)).
    - eapply IH. by apply TemporaryCredential.lease_rel_step.
    - destruct Hrel as (r & -> & Hr & _). by rewrite TemporaryCredential.decode_encode_record. }
  pose proof (TemporaryCredential.lease_rel_run _ _ _ _ _ _ _ Hes Hrel) as Hrel'. set (stored := run _ _ _) in *.
  destruct (TemporaryCredential.lease_rel_step _ _ _ _ _ _ _ Ht Hrel') as [Hnext Hadm]. destruct Hrel' as (r' & Es & Hr & Hu' & Hp' & Hg' & Hst & Hfl).
  destruct (protected_step_owner stored (TemporaryCredential.Observe t)) as [Ha Hn]. revert Hadm Ha Hn Hnext. unfold protected_step, external_temporary_credential_observe.
  rewrite Es, TemporaryCredential.decode_encode_record by done. cbn [map_err result_bind].
  pose proof (TemporaryCredential.observe_keeps (TemporaryCredential.lease r') t) as [Hk1 Hk2].
  pose proof (TemporaryCredential.lease_observe_ok (TemporaryCredential.lease r') t) as Hlo. unfold TemporaryCredential.record_observe.
  destruct (TemporaryCredential.observe (TemporaryCredential.lease r') t) as [l' b] eqn:Eo. cbn [fst snd] in *. intros Hadm Ha Hn Hnext.
  eexists. split; [reflexivity|]. cbn [observed_username observed_password observed_generation observed_expiry admitted TemporaryCredential.lease TemporaryCredential.username TemporaryCredential.password].
  split_and!; try congruence.
  - rewrite (TemporaryCredential.ok_deadline l'), Hk2, Hst; [done|]. apply Hlo; [|by apply Hr]. intros t' ->. exact Ht.
  - rewrite <- Ha in Hadm. cbn in Hadm. rewrite Hadm. unfold TemporaryCredential.in_order. rewrite foldl_snoc. split.
    + intros [H1 [t' [= ->]]]. split; [eauto|done].
    + intros [[t' ->] H]. split; [done|eauto].
Qed.

Lemma protected_grant_exact_witness :
  exists view, external_temporary_credential_observe
      (run protected_step (TemporaryCredential.encode_temporary_record demo_record)
         [TemporaryCredential.Observe (Some 1800050000); TemporaryCredential.Restart]) (Some 1800086399) = Ok view /\
    observed_username view = TemporaryCredential.username demo_record.
Proof.
  destruct (protected_grant_exact 5 1800000000 (TemporaryCredential.username demo_record) (TemporaryCredential.password demo_record)
    (TemporaryCredential.encode_temporary_record demo_record) [TemporaryCredential.Observe (Some 1800050000); TemporaryCredential.Restart]
    (Some 1800086399)) as (view & H1 & H2 & _).
  1-2: unfold in_width, u64_max; lia.
  1-3: vm_compute; reflexivity.
  - repeat constructor; unfold in_width, u64_max; lia.
  - unfold event_ok, in_width, u64_max. lia.
  - exists view. split; [exact H1|exact H2].
Defined.
