(* ===== verification/ProductDiagnostics.v ===== *)
(** * Product diagnostics

    [src/crates/runtime/src/product_diagnostics.rs]: the snapshot that pins one
    generation, reads every fact of its owners twice and calls itself consistent when
    nothing has moved.  A read is one request; it is answered from the moment at which it
    is made, while the product of [ProductTasks] and the owners go on. *)

From S2P Require Import PolicyCoordinator RotationRuntime RootPolicyRuntime.
From S2P Require Import Prelude Net Transport Readiness ProxyCoordinator ReadinessRuntime Rotation.
From S2P Require Import Lifecycle Interaction Threads Cellular ProductFacts.
From stdpp Require Import gmap list.
From S2P Require Import ProductRuntime ProductTasks.

#[local] Open Scope Z_scope.

(** ** Data *)

Definition DIAGNOSTIC_STABILITY_ATTEMPTS : nat := 3.

Record CellularReconcileDiagnostic := {
  rec_requested : Z; rec_executed : Z; rec_coalesced : Z; rec_pending : bool; rec_drain_scheduled : bool;
  rec_last_owner_sequence : option Z;
  rec_last_dequeue_wait_ms : Z; rec_max_dequeue_wait_ms : Z; rec_last_quiesce_wait_ms : Z; rec_max_quiesce_wait_ms : Z;
  rec_stale_after_reconcile : Z; rec_superseded_during_reconcile : Z }.

Record RootRecoveryDiagnostic := { recovery_is_pending : bool; attempts_since_reset : Z; next_delay_ms : Z }.

Record CellularDnsDiagnosticSnapshot := {
  dns_slow_threshold_ms : Z; dns_started : Z; dns_completed : Z; dns_active : Z; dns_peak_active : Z; dns_slow_completions : Z;
  dns_resolver_failed : Z; dns_discarded_after_deadline : Z; dns_completed_after_owner_change : Z; dns_discarded_stale : Z;
  dns_authority_validation_failed : Z; dns_unusable_result : Z; dns_accepted_current : Z; dns_max_native_elapsed_ms : Z;
  dns_last_started_owner_sequence : option Z; dns_last_completed_start_owner_sequence : option Z;
  dns_last_completed_current_owner_sequence : option Z }.

Record ProductGenerationDiagnosticSnapshot := {
  of_generation : Z;
  cellular_admission : CellularAdmissionSnapshot;
  cellular_reconcile : CellularReconcileDiagnostic;
  dns : CellularDnsDiagnosticSnapshot;
  root_publication : option CellularPolicyPublication;
  root_session_generation : option Z;
  root_reconcile : RootPolicyReconcileDiagnostic;
  root_recovery : RootRecoveryDiagnostic;
  proxy_publication : ProxyRuntimePublication;
  proxy_active_sessions : Z;
  mesh_snapshot : option MeshTransportSnapshot;
  mesh_failure : option MeshTransportError;
  readiness_snapshot : ReadinessDiagnosticSnapshot;
  rotation_snapshot : RotationSnapshot;
  rotation_active_tasks : Z }.

Record ProductDiagnosticSnapshot := {
  consistent : bool;
  runtime_snapshot : ProductRuntimeSnapshot;
  generation_snapshot : ProductGenerationDiagnosticSnapshot }.

(** The comparisons are derived in the source as well. *)
#[export] Instance CellularReconcileDiagnostic_eq_dec : EqDecision CellularReconcileDiagnostic.
Proof. solve_decision. Defined.
#[export] Instance RootRecoveryDiagnostic_eq_dec : EqDecision RootRecoveryDiagnostic.
Proof. solve_decision. Defined.
#[export] Instance CellularDnsDiagnosticSnapshot_eq_dec : EqDecision CellularDnsDiagnosticSnapshot.
Proof. solve_decision. Defined.
#[export] Instance RootPolicyFailure_eq_dec : EqDecision RootPolicyFailure.
Proof. solve_decision. Defined.
#[export] Instance RootPolicyResult_eq_dec : EqDecision RootPolicyResult.
Proof. solve_decision. Defined.
#[export] Instance CellularPolicyPublication_eq_dec : EqDecision CellularPolicyPublication.
Proof. solve_decision. Defined.
#[export] Instance RootPolicyPhaseDiagnostic_eq_dec : EqDecision RootPolicyPhaseDiagnostic.
Proof. solve_decision. Defined.
#[export] Instance RootPolicyPhaseDiagnostics_eq_dec : EqDecision RootPolicyPhaseDiagnostics.
Proof. solve_decision. Defined.
#[export] Instance RootPolicyReconcileDiagnostic_eq_dec : EqDecision RootPolicyReconcileDiagnostic.
Proof. solve_decision. Defined.
#[export] Instance ProxyRuntimePublication_eq_dec : EqDecision ProxyRuntimePublication.
Proof. solve_decision. Defined.
#[export] Instance MeshAdmissionReason_eq_dec : EqDecision MeshAdmissionReason.
Proof. solve_decision. Defined.
#[export] Instance MeshAdmissionSnapshot_eq_dec : EqDecision MeshAdmissionSnapshot.
Proof. solve_decision. Defined.
#[export] Instance MeshTransportSnapshot_eq_dec : EqDecision MeshTransportSnapshot.
Proof. solve_decision. Defined.
#[export] Instance MeshOwnerError_eq_dec : EqDecision MeshOwnerError.
Proof. solve_decision. Defined.
#[export] Instance MeshIngressError_eq_dec : EqDecision MeshIngressError.
Proof. solve_decision. Defined.
#[export] Instance MeshTransportError_eq_dec : EqDecision MeshTransportError.
Proof. solve_decision. Defined.
#[local] Instance generation_key_eq_dec : EqDecision Readiness.generation_key := Z.eq_dec.
#[export] Instance ReadinessDiagnosticSnapshot_eq_dec : EqDecision ReadinessDiagnosticSnapshot.
Proof. solve_decision. Defined.
#[export] Instance RotationFailure_eq_dec : EqDecision RotationFailure.
Proof. solve_decision. Defined.
#[export] Instance RotationRestoreResult_eq_dec : EqDecision RotationRestoreResult.
Proof. solve_decision. Defined.
#[export] Instance RotationSnapshot_eq_dec : EqDecision RotationSnapshot.
Proof. solve_decision. Defined.
#[export] Instance ProductGenerationDiagnosticSnapshot_eq_dec : EqDecision ProductGenerationDiagnosticSnapshot.
Proof. solve_decision. Defined.
#[export] Instance ProductRuntimeSnapshot_eq_dec : EqDecision ProductRuntimeSnapshot.
Proof. solve_decision. Defined.

(** ** Requests *)

(** What the owners of a generation can be asked. *)
Inductive fact :=
| FAdmission | FReconcile | FDns | FPublication | FSessionGeneration | FRootReconcile | FRecovery | FProxy | FProxySessions
| FMesh | FMeshFailure | FReadiness | FRotation | FRotationTasks.

#[export] Instance fact_eq_dec : EqDecision fact.
Proof. solve_decision. Defined.

(** The root session and the root policy are asked on the executor, which may be gone;
    the mesh transport may refuse. *)
Definition fact_reply (f : fact) : Type :=
  match f with
  | FAdmission => result CellularRuntime.CellularRuntimeError CellularAdmissionSnapshot
  | FReconcile => CellularReconcileDiagnostic
  | FDns => CellularDnsDiagnosticSnapshot
  | FPublication => option CellularPolicyPublication
  | FSessionGeneration => result RuntimeExecutionError (option Z)
  | FRootReconcile => result RuntimeExecutionError RootPolicyReconcileDiagnostic
  | FRecovery => RootRecoveryDiagnostic
  | FProxy => ProxyRuntimePublication
  | FProxySessions | FRotationTasks => Z
  | FMesh => result MeshTransportError MeshTransportSnapshot
  | FMeshFailure => option MeshTransportError
  | FReadiness => ReadinessDiagnosticSnapshot
  | FRotation => RotationSnapshot
  end.

(** [Arc<ProductGeneration>]: which one it is, and its number, which never changes. *)
Record pinned := { arc : gid; arc_generation : Z }.

Inductive diag_request := RCurrent | RLifecycle | RActiveTasks | RFact (g : gid) (f : fact).

Definition diag_reply (r : diag_request) : Type :=
  match r with RCurrent => pinned | RLifecycle => RuntimeLifecycle | RActiveTasks => Z | RFact _ f => fact_reply f end.

Abbreviation gprog := (prog diag_request diag_reply).
Abbreviation gask r := (@request diag_request diag_reply r).
Abbreviation gfact g f := (@request diag_request diag_reply (RFact (arc g) f)).

(** ** Programs *)

Definition capture_runtime : gprog ProductRuntimeSnapshot :=
  let> l := gask RLifecycle in
  let> n := gask RActiveTasks in
  Ret {| snap_state := Lifecycle.state l; snap_generation := Lifecycle.generation l;
         snap_requires_replacement := generation_requires_replacement l; snap_active_tasks := n |}.

Definition capture_mesh (g : pinned) : gprog (option MeshTransportSnapshot * option MeshTransportError) :=
  let> m := gfact g FMesh in
  match m with
  | Ok s => let> failure := gfact g FMeshFailure in Ret (Some s, failure)
  | Err e => Ret (None, Some e)
  end.

Definition capture_generation (g : pinned) : gprog (result RuntimeExecutionError ProductGenerationDiagnosticSnapshot) :=
  let> admission := gfact g FAdmission in
  match admission with
  | Err _ => Ret (Err ExecutionStateUnavailable)
  | Ok admission =>
      let> reconcile := gfact g FReconcile in
      let> dns := gfact g FDns in
      let> publication := gfact g FPublication in
      let> session := gfact g FSessionGeneration in
      match session with
      | Err e => Ret (Err e)
      | Ok session =>
          let> root := gfact g FRootReconcile in
          match root with
          | Err e => Ret (Err e)
          | Ok root =>
              let> recovery := gfact g FRecovery in
              let> proxy := gfact g FProxy in
              let> sessions := gfact g FProxySessions in
              let> mesh := capture_mesh g in
              let> readiness := gfact g FReadiness in
              let> rotation := gfact g FRotation in
              let> tasks := gfact g FRotationTasks in
              Ret (Ok {| of_generation := arc_generation g; cellular_admission := admission; cellular_reconcile := reconcile; dns := dns;
                         root_publication := publication; root_session_generation := session; root_reconcile := root;
                         root_recovery := recovery; proxy_publication := proxy; proxy_active_sessions := sessions;
                         mesh_snapshot := mesh.1; mesh_failure := mesh.2; readiness_snapshot := readiness;
                         rotation_snapshot := rotation; rotation_active_tasks := tasks |})
          end
      end
  end.

(** The loop of [diagnostic_snapshot_with]: so many attempts are left, and this is the
    latest capture. *)
Fixpoint snapshot_attempts (capture : pinned -> gprog (result RuntimeExecutionError ProductGenerationDiagnosticSnapshot))
    (remaining : nat) (latest : option ProductDiagnosticSnapshot) : gprog (result RuntimeExecutionError ProductDiagnosticSnapshot) :=
  match remaining with
  | O => Ret (match latest with Some d => Ok d | None => Err ExecutionStateUnavailable end)
  | S remaining =>
      let> generation := gask RCurrent in
      let> before := capture_runtime in
      if negb (snap_generation before =? arc_generation generation) then snapshot_attempts capture remaining latest
      else
        let> first := capture generation in
        match first with
        | Err e => Ret (Err e)
        | Ok first =>
            let> second := capture generation in
            match second with
            | Err e => Ret (Err e)
            | Ok second =>
                let> after := capture_runtime in
                let> current := gask RCurrent in
                let same_generation :=
                  (arc generation =? arc current)%nat && (snap_generation before =? arc_generation generation)
                  && (snap_generation after =? arc_generation generation) in
                let stable := same_generation && (before =b? after) && (first =b? second) in
                let candidate := {| consistent := stable; runtime_snapshot := before; generation_snapshot := second |} in
                if stable then Ret (Ok candidate) else snapshot_attempts capture remaining (Some candidate)
            end
        end
  end.

Definition diagnostic_snapshot_with (capture : pinned -> gprog (result RuntimeExecutionError ProductGenerationDiagnosticSnapshot))
    : gprog (result RuntimeExecutionError ProductDiagnosticSnapshot) :=
  snapshot_attempts capture DIAGNOSTIC_STABILITY_ATTEMPTS None.

Definition diagnostic_snapshot : gprog (result RuntimeExecutionError ProductDiagnosticSnapshot) :=
  diagnostic_snapshot_with capture_generation.

(** ** Time *)

(** The product, and what the owners of each generation would answer. *)
Record moment := { product_at : product_world; fact_at : gid -> forall f, fact_reply f }.

Definition see (r : diag_request) (m : moment) : diag_reply r :=
  match r return diag_reply r with
  | RCurrent =>
      let g := generation (state (product_at m)) in
      {| arc := g; arc_generation := default 0 (number_of (product_at m) g) |}
  | RLifecycle => lifecycle (state (product_at m))
  | RActiveTasks => active_tasks (executor (product_at m))
  | RFact g f => fact_at m g f
  end.

(** The [n]th read is made at the time [clock n]. *)
Definition reads (timeline : nat -> moment) (clock : nat -> nat) (r : diag_request) (n : nat) : diag_reply r * nat :=
  (see r (timeline (clock n)), S n).

Definition watch {A} (p : gprog A) (timeline : nat -> moment) (clock : nat -> nat) : A :=
  (interp (reads timeline clock) p 0%nat).1.1.

(** What is made of the answer needs no more reads. *)
Lemma watch_map {A B} (p : gprog A) (f : A -> B) timeline clock :
  watch (let> x := p in Ret (f x)) timeline clock = f (watch p timeline clock).
Proof.
  unfold watch. generalize 0%nat. induction p as [a|r k IH]; intros n; cbn [prog_bind interp]; [done|].
  destruct (reads timeline clock r n) as [x n']. specialize (IH x n'). by destruct (interp _ _ n') as [[b m] t], (interp _ _ n') as [[b' m'] t'].
Qed.

(** A run of the product, event by event, with owners that change as they like. *)
Definition going_on (w : product_world) (es : list (@sched product_input product_caller))
    (facts : nat -> gid -> forall f, fact_reply f) (k : nat) : moment :=
  {| product_at := shared (product_runs (dworld w) (take k es)); fact_at := facts k |}.

(** A snapshot shows this answer to this question. *)
Definition shows (d : ProductGenerationDiagnosticSnapshot) (f : fact) : fact_reply f -> Prop :=
  match f return fact_reply f -> Prop with
  | FAdmission => fun x => x = Ok (cellular_admission d)
  | FReconcile => fun x => x = cellular_reconcile d
  | FDns => fun x => x = dns d
  | FPublication => fun x => x = root_publication d
  | FSessionGeneration => fun x => x = Ok (root_session_generation d)
  | FRootReconcile => fun x => x = Ok (root_reconcile d)
  | FRecovery => fun x => x = root_recovery d
  | FProxy => fun x => x = proxy_publication d
  | FProxySessions => fun x => x = proxy_active_sessions d
  | FMesh => fun x =>
      match x with Ok s => mesh_snapshot d = Some s | Err e => mesh_snapshot d = None /\ mesh_failure d = Some e end
  | FMeshFailure => fun x => is_Some (mesh_snapshot d) -> x = mesh_failure d
  | FReadiness => fun x => x = readiness_snapshot d
  | FRotation => fun x => x = rotation_snapshot d
  | FRotationTasks => fun x => x = rotation_active_tasks d
  end.

Abbreviation gev := (@sigT diag_request diag_reply).
Abbreviation gdid := (@existT diag_request diag_reply).

(** ** What is read *)

(** Everything in [d] was answered in [t]. *)
Definition captured (g : gid) (d : ProductGenerationDiagnosticSnapshot) (t : list gev) : Prop :=
  forall f, f = FMeshFailure /\ mesh_snapshot d = None \/ exists x, gdid (RFact g f) x ∈ t /\ shows d f x.

Lemma capture_traces g :
  emits (capture_generation g) (fun t r => forall d, r = Ok d -> of_generation d = arc_generation g /\ captured (arc g) d t).
Proof.
  unfold capture_generation. cbn [prog_bind request]. apply emits_do. intros [a|e]; [|by apply emits_ret].
  do 3 (cbn [prog_bind]; apply emits_do; intros ?). cbn [prog_bind]. apply emits_do. intros [s|e]; [|by apply emits_ret].
  cbn [prog_bind]. apply emits_do. intros [root|e]; [|by apply emits_ret].
  do 3 (cbn [prog_bind]; apply emits_do; intros ?). unfold capture_mesh. cbn [prog_bind request]. apply emits_do.
  intros [m|e]; [cbn [prog_bind]; apply emits_do; intros mf|];
    do 3 (cbn [prog_bind]; apply emits_do; intros ?); apply emits_ret; intros d [= <-]; (split; [done|]); intros f.
  - right. destruct f; eexists; (split; [repeat first [left|right]|first [reflexivity|intros _; reflexivity]]).
  - destruct (decide (f = FMeshFailure)) as [->|Hf]; [by left|right].
    destruct f; try done; eexists; (split; [repeat first [left|right]|first [reflexivity|done]]).
Qed.

Definition runtime_of (l : RuntimeLifecycle) (n : Z) : ProductRuntimeSnapshot :=
  {| snap_state := Lifecycle.state l; snap_generation := Lifecycle.generation l;
     snap_requires_replacement := generation_requires_replacement l; snap_active_tasks := n |}.

(** The attempt that gave [d]. *)
Definition looked (t : list gev) (d : ProductDiagnosticSnapshot) : Prop :=
  exists t0 g l n t1 t2 l' n' c t3,
    t = t0 ++ [gdid RCurrent g; gdid RLifecycle l; gdid RActiveTasks n] ++ t1 ++ t2 ++
        [gdid RLifecycle l'; gdid RActiveTasks n'; gdid RCurrent c] ++ t3 /\
    runtime_snapshot d = runtime_of l n /\ Lifecycle.generation l = arc_generation g /\
    of_generation (generation_snapshot d) = arc_generation g /\ captured (arc g) (generation_snapshot d) t2 /\
    (consistent d = true ->
       arc c = arc g /\ runtime_of l' n' = runtime_of l n /\ captured (arc g) (generation_snapshot d) t1).

Lemma looked_after t t' s d : s = t' ++ t -> looked t d -> looked s d.
Proof.
  intros -> (t0 & g & l & n & t1 & t2 & l' & n' & c & t3 & -> & H). exists (t' ++ t0), g, l, n, t1, t2, l', n', c, t3.
  split; [|done]. by rewrite <- !app_assoc.
Qed.

Lemma attempts_traces k latest :
  emits (snapshot_attempts capture_generation k latest) (fun t r => forall d, r = Ok d -> latest = Some d \/ looked t d).
Proof.
  revert latest. induction k as [|k IH]; intros latest; cbn [snapshot_attempts].
  { apply emits_ret. destruct latest; [|done]. intros d [= <-]. by left. }
  cbn [prog_bind request]. apply emits_do. intros g. unfold capture_runtime at 1. cbn [prog_bind request].
  apply emits_do. intros l. cbn [prog_bind]. apply emits_do. intros n. cbn [prog_bind]. cbn [snap_generation].
  destruct (Z.eqb_spec (Lifecycle.generation l) (arc_generation g)) as [Hl|]; cbn [negb].
  2: { eapply emits_mono; [|apply IH]. intros t r H d Hd. destruct (H d Hd); [by left|right].
       by apply (looked_after t [gdid RCurrent g; gdid RLifecycle l; gdid RActiveTasks n]). }
  apply emits_bind. eapply emits_mono; [|apply capture_traces]. intros t1 [first|e] H1; [|by apply emits_ret].
  apply emits_bind. eapply emits_mono; [|apply capture_traces]. intros t2 [second|e] H2; [|by apply emits_ret].
  destruct (H1 _ eq_refl) as [_ Hc1]. destruct (H2 _ eq_refl) as [Hg Hc2]. clear H1 H2.
  unfold capture_runtime. cbn [prog_bind request]. apply emits_do. intros l'. cbn [prog_bind]. apply emits_do. intros n'.
  cbn [prog_bind]. apply emits_do. intros c.
  fold (runtime_of l n) (runtime_of l' n'). set (stable := _ && (first =b? second)).
  assert (stable = true -> arc c = arc g /\ runtime_of l' n' = runtime_of l n /\ first = second) as Hs.
  { unfold stable. rewrite !andb_true_iff, !bool_decide_eq_true, Nat.eqb_eq. intros [[[[? _] _] ?] ?]. done. }
  assert (forall t, looked (gdid RCurrent g :: gdid RLifecycle l :: gdid RActiveTasks n :: t1 ++ t2 ++
    gdid RLifecycle l' :: gdid RActiveTasks n' :: gdid RCurrent c :: t)
    {| consistent := stable; runtime_snapshot := runtime_of l n; generation_snapshot := second |}) as Hlook.
  { intros t. exists [], g, l, n, t1, t2, l', n', c, t. cbn. split_and!; try done. intros Hst. destruct (Hs Hst) as (? & ? & <-). done. }
  destruct stable.
  - apply emits_ret. intros d [= <-]. right. apply Hlook.
  - eapply emits_mono; [|apply IH]. intros t r H d Hd. right. destruct (H d Hd) as [[= <-]|Hx]; [apply Hlook|].
    revert Hx. apply (looked_after _ (gdid RCurrent g :: gdid RLifecycle l :: gdid RActiveTasks n :: t1 ++ t2 ++
      [gdid RLifecycle l'; gdid RActiveTasks n'; gdid RCurrent c])). cbn. by rewrite <- !app_assoc.
Qed.

(** ** When it is read *)

Definition made_at (timeline : nat -> moment) (k : nat) (e : gev) : Prop :=
  match e with existT r x => x = see r (timeline k) end.

Lemma reads_made {A} (p : gprog A) timeline clock n i e :
  (interp (reads timeline clock) p n).2 !! i = Some e -> made_at timeline (clock (n + i)%nat) e.
Proof.
  revert n i. induction p as [a|r k IH]; intros n i; cbn; [done|].
  specialize (IH (see r (timeline (clock n))) (S n)). destruct (interp _ _ (S n)) as [[a m] t]. cbn in *.
  destruct i as [|i]; cbn; [intros [= <-]; by rewrite Nat.add_0_r|]. intros H. apply IH in H. by replace (n + S i)%nat with (S n + i)%nat by lia.
Qed.

Lemma serve_grows r w f n x y w' :
  product_ok w -> product_serve r w f n x = Some (y, w') ->
  (generation (state w) <= generation (state w'))%nat /\ Lifecycle.generation (lifecycle (state w)) <= Lifecycle.generation (lifecycle (state w')).
Proof.
  intros Hw H. destruct r; cbn [product_serve] in H; try (by injection H as <- <-).
  - injection H as H. destruct (denter_effect l (built_in x) w Hw) as [H1 H2 H3 H4 H5 H6 H7 H8 H9 H10]. rewrite H in *. cbn [fst snd] in *.
    split; [|done]. rewrite H2. destruct (installs l y) as [g|] eqn:E; cbn; [|done]. destruct (H5 g eq_refl) as [-> _].
    rewrite (dk_current w Hw). lia.
  - injection H as <- <-. unfold set_bound. by destruct (_ !! _).
  - unfold once_enter in H. destruct (generations w !! g) as [z|] eqn:Hg; [|done]. destruct (shutdown_result z); simplify_eq; [|done].
    unfold set_once. by rewrite Hg.
  - injection H as <- <-. unfold set_once. by destruct (_ !! _).
  - destruct (spawn _) as [ok e]. by injection H as <- <-.
Qed.

(** The product stays in order, and its numbers only grow. *)
Definition orderly (timeline : nat -> moment) : Prop :=
  forall i j, (i <= j)%nat ->
  let wi := product_at (timeline i) in let wj := product_at (timeline j) in
  product_ok wi /\ product_ok wj /\ (generation (state wi) <= generation (state wj))%nat /\
  Lifecycle.generation (lifecycle (state wi)) <= Lifecycle.generation (lifecycle (state wj)).

Lemma going_on_orderly w es facts : product_ok w -> orderly (going_on w es facts).
Proof.
  intros Hw i j Hij. cbn [going_on product_at]. replace (take j es) with (take i es ++ take (j - i) (drop i es)).
  2: { rewrite take_take_drop. f_equal. lia. }
  unfold runs at 2 4 6. rewrite fold_left_app. fold (runs product_serve product_born product_body (dworld w) (take i es)).
  set (u := runs _ _ _ _ (take i es)).
  assert (product_ok (shared u)) as Hu.
  { apply (runs_inv product_serve product_born product_body (fun _ => True) product_ok); [|by apply Forall_true|done].
    intros r s f n x y s' _. apply serve_ok. }
  split; [done|]. fold (product_runs u (take (j - i) (drop i es))).
  apply (runs_inv product_serve product_born product_body (fun _ => True) (fun s => product_ok s /\
    (generation (state (shared u)) <= generation (state s))%nat /\
    Lifecycle.generation (lifecycle (state (shared u))) <= Lifecycle.generation (lifecycle (state s)))); [|by apply Forall_true|done].
  intros r s f n x y s' _ (H1 & H2 & H3) Hs. split; [by eapply serve_ok|]. destruct (serve_grows _ _ _ _ _ _ _ H1 Hs). split; lia.
Qed.

(** A read in the middle of a trace. *)
Lemma read_within {A} (p : gprog A) timeline clock t0 t1 t2 e :
  (interp (reads timeline clock) p 0%nat).2 = t0 ++ t1 ++ t2 -> e ∈ t1 ->
  exists i, (length t0 <= i < length t0 + length t1)%nat /\ made_at timeline (clock i) e.
Proof.
  intros E [i Hi]%list_elem_of_lookup_1. exists (length t0 + i)%nat. apply lookup_lt_Some in Hi as Hlt. split; [lia|].
  apply (reads_made p timeline clock 0 (length t0 + i)). rewrite E, lookup_app_r by lia.
  replace (length t0 + i - length t0)%nat with i by lia. by rewrite lookup_app_l.
Qed.

Lemma captured_within {A} (p : gprog A) timeline clock t0 t1 t2 g d k0 k1 :
  (interp (reads timeline clock) p 0%nat).2 = t0 ++ t1 ++ t2 -> captured g d t1 ->
  (forall i, (length t0 <= i < length t0 + length t1)%nat -> (k0 <= clock i <= k1)%nat) -> (k0 <= k1)%nat ->
  forall f, exists k, (k0 <= k <= k1)%nat /\ shows d f (fact_at (timeline k) g f).
Proof.
  intros E Hc Hk H01 f. destruct (Hc f) as [[-> Hm]|(x & Hx & Hs)].
  - exists k0. split; [lia|]. cbn. rewrite Hm. by intros [? [=]].
  - destruct (read_within _ _ _ _ _ _ _ E Hx) as (i & Hi & Hmade). exists (clock i). split; [by apply Hk|]. cbn in Hmade. by rewrite <- Hmade.
Qed.

(** What did not change is shown in between. *)
Lemma shows_between s f (x y z : fact_reply f) : shows s f x -> shows s f y -> (x = y -> z = x) -> shows s f z.
Proof.
  destruct f; cbn; intros Hx Hy Hz; try (rewrite Hz by congruence; done).
  - rewrite Hz; [done|]. destruct x, y; naive_solver congruence.
  - intros Hm. rewrite Hz; [by apply Hx|]. by rewrite Hx, Hy.
Qed.

Lemma see_current m :
  product_ok (product_at m) -> number_of (product_at m) (arc (see RCurrent m)) = Some (arc_generation (see RCurrent m)).
Proof. intros H. cbn. by rewrite (dk_fence _ H). Qed.

(** Everything the snapshot of a run shows was read between two moments: of one
    generation, and, when it calls itself consistent, twice around a moment in the
    middle, while that generation was installed. *)
Lemma snapshot_read {A} (p : gprog A) timeline clock d :
  orderly timeline -> (forall i j, (i <= j)%nat -> (clock i <= clock j)%nat) ->
  looked (interp (reads timeline clock) p 0%nat).2 d ->
  exists g k0 m k1, (k0 <= m <= k1)%nat /\
    snap_generation (runtime_snapshot d) = of_generation (generation_snapshot d) /\
    number_of (product_at (timeline k0)) g = Some (of_generation (generation_snapshot d)) /\
    (forall f, exists k, (m <= k <= k1)%nat /\ shows (generation_snapshot d) f (fact_at (timeline k) g f)) /\
    (consistent d = true ->
      (forall k, (k0 <= k <= k1)%nat -> generation (state (product_at (timeline k))) = g /\
         Lifecycle.generation (lifecycle (state (product_at (timeline k)))) = of_generation (generation_snapshot d)) /\
      (forall f, exists k, (k0 <= k <= m)%nat /\ shows (generation_snapshot d) f (fact_at (timeline k) g f))).
Proof.
  intros Hgrow Hclock (t0 & g & l & n & t1 & t2 & l' & n' & c & t3 & E & Hr & Hl & Hg & Hc2 & Hst).
  set (a := length t0). set (b := (a + 3 + length t1)%nat). set (e := (b + length t2)%nat).
  assert (forall i x, (interp (reads timeline clock) p 0%nat).2 !! i = Some x -> made_at timeline (clock i) x) as Hmade
    by apply (reads_made p timeline clock 0).
  assert (g = see RCurrent (timeline (clock a)) /\ l = see RLifecycle (timeline (clock (a + 1)%nat)) /\
          l' = see RLifecycle (timeline (clock e)) /\ c = see RCurrent (timeline (clock (e + 2)%nat))) as (Hga & Hla & Hle & Hce).
  { split_and!; [apply (Hmade a (gdid RCurrent g))|apply (Hmade (a + 1)%nat (gdid RLifecycle l))|apply (Hmade e (gdid RLifecycle l'))
      |apply (Hmade (e + 2)%nat (gdid RCurrent c))]; rewrite E; unfold e, b, a.
    - by rewrite lookup_app_r, Nat.sub_diag by lia.
    - rewrite lookup_app_r by lia. by replace (length t0 + 1 - length t0)%nat with 1%nat by lia.
    - rewrite !app_assoc, lookup_app_l, lookup_app_r by (rewrite !length_app; cbn; lia).
      rewrite !length_app. cbn [length]. by replace (_ - _)%nat with 0%nat by lia.
    - rewrite !app_assoc, lookup_app_l, lookup_app_r by (rewrite !length_app; cbn; lia).
      rewrite !length_app. cbn [length]. by replace (_ - _)%nat with 2%nat by lia. }
  pose proof (Hclock a (a + 1)%nat ltac:(lia)) as C0. pose proof (Hclock (a + 1)%nat b ltac:(unfold b; lia)) as C1.
  pose proof (Hclock b e ltac:(unfold e; lia)) as C2. pose proof (Hclock e (e + 2)%nat ltac:(lia)) as C3.
  assert (number_of (product_at (timeline (clock a))) (arc g) = Some (arc_generation g)) as Hnum.
  { rewrite Hga. apply see_current, (Hgrow (clock a) (clock a)). lia. }
  exists (arc g), (clock a), (clock b), (clock e). split; [lia|]. split; [by rewrite Hr, Hg|]. split; [by rewrite Hg|]. split.
  - apply (captured_within p timeline clock (t0 ++ [gdid RCurrent g; gdid RLifecycle l; gdid RActiveTasks n] ++ t1) t2
      ([gdid RLifecycle l'; gdid RActiveTasks n'; gdid RCurrent c] ++ t3)); [by rewrite E, <- !app_assoc|done| |lia].
    intros i Hi. rewrite !length_app in Hi. cbn [length] in Hi. split; apply Hclock; unfold e, b, a; lia.
  - intros Hcons. destruct (Hst Hcons) as (Harc & Hrun & Hc1). split.
    + intros k Hk. assert (arc g = generation (state (product_at (timeline (clock a))))) as Eg by by rewrite Hga.
      assert (arc c = generation (state (product_at (timeline (clock (e + 2)%nat))))) as Ec by by rewrite Hce.
      destruct (Hgrow (clock a) k) as (Hok & _ & G1 & L1); [lia|]. destruct (Hgrow k (clock (e + 2)%nat)) as (_ & _ & G2 & _); [lia|].
      destruct (Hgrow k (clock e)) as (_ & _ & _ & L2); [lia|]. split; [lia|]. rewrite Hg.
      assert (Lifecycle.generation l' = Lifecycle.generation l) as El by (apply (f_equal snap_generation) in Hrun; exact Hrun).
      assert (arc_generation g <= Lifecycle.generation (lifecycle (state (product_at (timeline (clock a)))))) as La.
      { pose proof (dk_fence _ Hok) as Hf. rewrite <- Eg, Hnum in Hf. injection Hf as Hf. destruct (dk_number _ Hok); lia. }
      rewrite Hle, Hl in El. cbn [see] in El. lia.
    + apply (captured_within p timeline clock (t0 ++ [gdid RCurrent g; gdid RLifecycle l; gdid RActiveTasks n]) t1
        (t2 ++ [gdid RLifecycle l'; gdid RActiveTasks n'; gdid RCurrent c] ++ t3)); [by rewrite E, <- !app_assoc|done| |lia].
      intros i Hi. rewrite !length_app in Hi. cbn [length] in Hi. split; apply Hclock; unfold b, a; lia.
Qed.

Lemma diagnostic_read w es facts clock d :
  product_ok w -> (forall i j, (i <= j)%nat -> (clock i <= clock j)%nat) ->
  let timeline := going_on w es facts in
  watch diagnostic_snapshot timeline clock = Ok d ->
  exists g k0 m k1, (k0 <= m <= k1)%nat /\
    snap_generation (runtime_snapshot d) = of_generation (generation_snapshot d) /\
    number_of (product_at (timeline k0)) g = Some (of_generation (generation_snapshot d)) /\
    (forall f, exists k, (m <= k <= k1)%nat /\ shows (generation_snapshot d) f (facts k g f)) /\
    (consistent d = true ->
      (forall k, (k0 <= k <= k1)%nat -> generation (state (product_at (timeline k))) = g /\
         Lifecycle.generation (lifecycle (state (product_at (timeline k)))) = of_generation (generation_snapshot d)) /\
      (forall f, exists k, (k0 <= k <= m)%nat /\ shows (generation_snapshot d) f (facts k g f))).
Proof.
  intros Hw Hclock timeline Hd.
  pose proof (interp_emits (reads timeline clock) _ 0%nat _ (attempts_traces DIAGNOSTIC_STABILITY_ATTEMPTS None)) as Hl.
  destruct (Hl d Hd) as [[=]|Hl']. exact (snapshot_read _ _ _ _ (going_on_orderly w es facts Hw) Hclock Hl').
Qed.

(** C39: A diagnostic snapshot is of one generation.  However the product goes on and its
    owners change while the facts are read: every fact that the snapshot shows was the
    answer of one and the same generation's owners, whose number it carries.  When it
    calls itself consistent, that generation was the installed one, and the lifecycle had
    its number, from the first read to the last, and every fact was read before and after
    one moment in the middle with the same answer: unless some fact has changed and
    changed back, the snapshot is what held at that moment. *)
Theorem diagnostic_of_one_generation uid built w es facts clock d :
  product_new uid built = Ok w -> (forall i j, (i <= j)%nat -> (clock i <= clock j)%nat) ->
  let timeline := going_on w es facts in
  let s := generation_snapshot d in
  watch diagnostic_snapshot timeline clock = Ok d ->
  exists g k0 m k1, (k0 <= m <= k1)%nat /\
    snap_generation (runtime_snapshot d) = of_generation s /\
    number_of (product_at (timeline k0)) g = Some (of_generation s) /\
    (forall f, exists k, (k0 <= k <= k1)%nat /\ shows s f (facts k g f)) /\
    (consistent d = true ->
      (forall k, (k0 <= k <= k1)%nat -> generation (state (product_at (timeline k))) = g /\
         Lifecycle.generation (lifecycle (state (product_at (timeline k)))) = of_generation s) /\
      (forall f, (forall i j, (k0 <= i <= m)%nat -> (m <= j <= k1)%nat -> facts i g f = facts j g f -> facts m g f = facts i g f) ->
         shows s f (facts m g f))).
Proof.
  intros Hw Hclock timeline s Hd. apply product_new_ok in Hw.
  destruct (diagnostic_read _ _ _ _ _ Hw Hclock Hd) as (g & k0 & m & k1 & Hk & H1 & H2 & H3 & H4).
  exists g, k0, m, k1. split; [done|]. split; [done|]. split; [done|]. split.
  - intros f. destruct (H3 f) as (k & ? & ?). exists k. split; [lia|done].
  - intros Hc. destruct (H4 Hc) as [H5 H6]. split; [done|]. intros f Hback.
    destruct (H6 f) as (i & Hi & Si). destruct (H3 f) as (j & Hj & Sj). eapply shows_between; [exact Si|exact Sj|]. by apply Hback.
Qed.

(** ** A product at rest *)

(** What a program of reads gives when nothing moves. *)
Fixpoint answer {A} (m : moment) (p : gprog A) : A :=
  match p with Ret a => a | Do r k => answer m (k (see r m)) end.

Lemma answer_bind {A B} m (p : gprog A) (k : A -> gprog B) : answer m (let> x := p in k x) = answer m (k (answer m p)).
Proof. induction p as [a|r f IH]; cbn; [done|apply IH]. Qed.

Lemma watch_still {A} m (p : gprog A) clock : watch p (fun _ => m) clock = answer m p.
Proof.
  unfold watch. generalize 0%nat. induction p as [a|r k IH]; intros n; cbn; [done|].
  specialize (IH (see r m) (S n)). by destruct (interp _ _ (S n)) as [[a n'] t].
Qed.

Lemma attempts_still capture m k latest :
  let g := see RCurrent m in let l := lifecycle (state (product_at m)) in
  answer m (snapshot_attempts capture k latest) =
  match k with
  | O => match latest with Some d => Ok d | None => Err ExecutionStateUnavailable end
  | S _ =>
      if Lifecycle.generation l =? arc_generation g then
        let? s := answer m (capture g) in
        Ok {| consistent := true; runtime_snapshot := runtime_of l (active_tasks (executor (product_at m))); generation_snapshot := s |}
      else match latest with Some d => Ok d | None => Err ExecutionStateUnavailable end
  end.
Proof.
  intros g l. revert latest. induction k as [|k IH]; intros latest; cbn [snapshot_attempts]; [done|].
  rewrite !answer_bind. fold g. replace (answer m (request RCurrent)) with g by done.
  replace (answer m capture_runtime) with (runtime_of l (active_tasks (executor (product_at m)))) by done. cbn [snap_generation runtime_of].
  destruct (Lifecycle.generation l =? arc_generation g) eqn:El; cbn [negb]; [|rewrite IH; by destruct k].
  rewrite answer_bind. destruct (answer m (capture g)) as [s|e] eqn:Es; cbn [result_bind]; [|done].
  rewrite answer_bind, Es. rewrite !answer_bind. replace (answer m (request RCurrent)) with g by done.
  replace (answer m capture_runtime) with (runtime_of l (active_tasks (executor (product_at m)))) by done.
  cbn [snap_generation runtime_of]. rewrite El, Nat.eqb_refl. cbn [andb]. rewrite !bool_decide_eq_true_2 by done. done.
Qed.

(** The snapshot of a product at rest.  While nothing moves the first attempt decides: the
    answer is what the owners say, marked consistent, or the error of the owner that
    refuses; only when the installed generation does not have the lifecycle's number,
    which is when it awaits replacement, there is no snapshot at all. *)
Theorem quiet_diagnostic_exact m clock :
  product_ok (product_at m) ->
  let w := product_at m in
  let l := lifecycle (state w) in
  watch diagnostic_snapshot (fun _ => m) clock =
    (if Lifecycle.generation l =? observer_generation w then
       let? s := watch (capture_generation (see RCurrent m)) (fun _ => m) clock in
       Ok {| consistent := true; runtime_snapshot := runtime_of l (active_tasks (executor w)); generation_snapshot := s |}
     else Err ExecutionStateUnavailable) /\
  (Lifecycle.generation l <> observer_generation w -> generation_requires_replacement l = true).
Proof.
  intros Hok w l. rewrite !watch_still. unfold diagnostic_snapshot, diagnostic_snapshot_with. rewrite attempts_still.
  cbn [DIAGNOSTIC_STABILITY_ATTEMPTS]. split.
  - assert (arc_generation (see RCurrent m) = observer_generation w) as ->; [|done].
    cbn. by rewrite (dk_fence _ Hok).
  - intros Hne. by destruct (dk_number _ Hok) as [?|[_ ?]].
Qed.

(** ** Examples *)

Definition some_world : product_world :=
  match product_new 10123 true with
  | Ok w => w
  | Err _ => {| product_uid := 0; state := {| lifecycle := Lifecycle.new; generation := 0; pending_start := None; control_start := None;
                  observers := no_observers; platform_facts := facts_default; platform_mutation_epoch := 0;
                  active_platform_mutation := None; closed := false |};
                observer_generation := 0; generations := []; executor := executor_new |}
  end.

(** Owners that have done nothing, but for the sessions and the tasks they count. *)
Definition some_facts (sessions tasks : Z) (f : fact) : fact_reply f :=
  match f return fact_reply f with
  | FAdmission => Ok (admission Cellular.new)
  | FReconcile => {| rec_requested := 0; rec_executed := 0; rec_coalesced := 0; rec_pending := false; rec_drain_scheduled := false;
                     rec_last_owner_sequence := None; rec_last_dequeue_wait_ms := 0; rec_max_dequeue_wait_ms := 0;
                     rec_last_quiesce_wait_ms := 0; rec_max_quiesce_wait_ms := 0; rec_stale_after_reconcile := 0;
                     rec_superseded_during_reconcile := 0 |}
  | FDns => {| dns_slow_threshold_ms := 1000; dns_started := 0; dns_completed := 0; dns_active := 0; dns_peak_active := 0;
               dns_slow_completions := 0; dns_resolver_failed := 0; dns_discarded_after_deadline := 0;
               dns_completed_after_owner_change := 0; dns_discarded_stale := 0; dns_authority_validation_failed := 0;
               dns_unusable_result := 0; dns_accepted_current := 0; dns_max_native_elapsed_ms := 0;
               dns_last_started_owner_sequence := None; dns_last_completed_start_owner_sequence := None;
               dns_last_completed_current_owner_sequence := None |}
  | FPublication => None
  | FSessionGeneration => Ok None
  | FRootReconcile => Ok reconcile_diagnostic_default
  | FRecovery => {| recovery_is_pending := false; attempts_since_reset := 0; next_delay_ms := 0 |}
  | FProxy => {| pub_state := ServingStopped; pub_failure := None; pub_serving_generation := None; pub_credential_version := None;
                 pub_recovery_pending := false; pub_recovery_operation_id := 0; pub_recovery_attempts_since_success := 0;
                 pub_recovery_next_delay_ms := 0 |}
  | FProxySessions => sessions
  | FMesh => Err Transport.StateUnavailable
  | FMeshFailure => None
  | FReadiness => {| diag_state := Readiness.Unknown; diag_root_policy_verified := false; diag_proxy_healthy := false;
                     diag_credential_active := false; diag_mesh_admitted := false; diag_binding_eligible := false;
                     diag_binding := None; diag_expected_freshness := None; diag_observed_freshness := None;
                     diag_probe_in_flight := false; diag_refresh_pending := false |}
  | FRotation => snapshot_idle
  | FRotationTasks => tasks
  end.

(** The product is asked to start and to stop while it is looked at. *)
Definition some_events : list (@sched product_input product_caller) :=
  let x := {| built_in := true; answers := fun c => match c return gcall_reply c with
    | GPolicyStart | GReadinessMesh _ | GProxyStart _ | GSetTemporary _ _ _ | GRestoreTemporary _ _ _ _ | GClearTemporary
    | GControlShutdown | GRotationShutdown | GPolicyShutdown => true
    | GObserveNetwork _ _ _ | GNetworkLost _ _ => Ok (admission Cellular.new)
    | GRotationObserve _ | GReadinessShutdown => tt
    | GMeshObserve _ _ | GMeshSnapshot => Err Transport.StateUnavailable
    | GControlStart _ => Err ControlRuntime.ControlStateUnavailable
    | GRotationStart => Err StartRuntimeNotRunning
    | GServingGeneration => None
    | GProxyShutdown => Some None
    | GMeshShutdown => Some true end; record_in := None |} in
  [Call (CallStart {| input_version := None; input_username := None; input_password := None |}); Call CallStop] ++
  repeat (Advance 0 x) 3 ++ repeat (Advance 1 x) 3.

(** Each read takes one step of the run. *)
Definition some_diagnostic (es : list (@sched product_input product_caller)) (facts : nat -> gid -> forall f, fact_reply f)
    : option ProductDiagnosticSnapshot :=
  match watch diagnostic_snapshot (going_on some_world es facts) (fun n => n) with Ok d => Some d | Err _ => None end.

(** A start and a stop come in between, so the first attempt is given up; the second one
    finds the product stopping. *)
Lemma diagnostic_of_one_generation_witness :
  exists d g k, some_diagnostic some_events (fun _ _ => some_facts 2 1) = Some d /\ consistent d = true /\
    generation (state (product_at (going_on some_world some_events (fun _ _ => some_facts 2 1) k))) = g /\
    forall f, shows (generation_snapshot d) f (some_facts 2 1 f).
Proof.
  destruct (some_diagnostic some_events (fun _ _ => some_facts 2 1)) as [d|] eqn:Ed; [|by vm_compute in Ed].
  assert (watch diagnostic_snapshot (going_on some_world some_events (fun _ _ => some_facts 2 1)) (fun n => n) = Ok d) as Hd.
  { unfold some_diagnostic in Ed. destruct (watch _ _ _); congruence. }
  assert (consistent d = true) as Hc by (vm_compute in Ed; by injection Ed as <-).
  destruct (diagnostic_of_one_generation 10123 true some_world some_events (fun _ _ => some_facts 2 1) (fun n => n) d eq_refl
    ltac:(done) Hd) as (g & k0 & m & k1 & Hk & _ & _ & _ & H). destruct (H Hc) as [H1 H2].
  exists d, g, k0. split_and!; [done|done|apply H1; lia|]. intros f. by apply H2.
Defined.

(** A product that has just been made. *)
Lemma quiet_diagnostic_exact_witness :
  product_ok some_world /\
  exists s, watch diagnostic_snapshot (fun _ => {| product_at := some_world; fact_at := fun _ => some_facts 0 0 |}) (fun n => n) =
    Ok {| consistent := true; runtime_snapshot := runtime_of Lifecycle.new 0; generation_snapshot := s |}.
Proof.
  assert (product_ok some_world) as Hok by by apply (product_new_ok 10123 true). split; [done|].
  destruct (quiet_diagnostic_exact {| product_at := some_world; fact_at := fun _ => some_facts 0 0 |} (fun n => n) Hok) as [-> _].
  eexists. vm_compute. reflexivity.
Defined.

(** Sessions and rotation tasks of owners that always have exactly one of the two. *)
Definition taking_turns (k : nat) (_ : gid) : forall f, fact_reply f :=
  let sessions := if (k =? 11)%nat || (k =? 24)%nat then 0 else 1 in some_facts sessions (1 - sessions).

(** Unchanged is not what consistent means.  The module says that a snapshot is
    consistent only when every fact has remained unchanged across the capture; the double
    read does not see a fact that changes and changes back.  Here a session and a
    rotation task take turns, so that there is always exactly one of them, and a
    consistent snapshot shows none of either: what it shows held at no moment. *)
Theorem consistent_but_torn :
  exists d, some_diagnostic [] taking_turns = Some d /\ consistent d = true /\
    proxy_active_sessions (generation_snapshot d) = 0 /\ rotation_active_tasks (generation_snapshot d) = 0 /\
    (forall k g, taking_turns k g FProxySessions + taking_turns k g FRotationTasks = 1) /\
    (forall k g, ~ forall f, shows (generation_snapshot d) f (taking_turns k g f)).
Proof.
  destruct (some_diagnostic [] taking_turns) as [d|] eqn:Ed; [|by vm_compute in Ed]. exists d.
  assert (consistent d = true /\ proxy_active_sessions (generation_snapshot d) = 0 /\ rotation_active_tasks (generation_snapshot d) = 0)
    as (H1 & H2 & H3) by (vm_compute in Ed; by injection Ed as <-).
  assert (forall k g, taking_turns k g FProxySessions + taking_turns k g FRotationTasks = 1) as Hone.
  { intros k g. cbn. destruct (_ || _); lia. }
  split_and!; try done. intros k g H. specialize (Hone k g). pose proof (H FProxySessions) as E1. pose proof (H FRotationTasks) as E2.
  cbn [shows] in E1, E2. lia.
Qed.
