(* ===== verification/DnsTracker.v ===== *)
(** * The counters of name resolution, access by access

    [DnsDiagnosticsTracker] of [src/crates/runtime/src/cellular_connector.rs]:
    [CellularConnector] has each of its methods as one step.  Here a method is what it
    is, a sequence of relaxed accesses to sixteen atomic counters, and any number of
    calls run at once.  One event is one access.  A relaxed load of a counter that only
    grows may return any earlier value, and a weak exchange may fail although the value
    is the expected one: both are choices of the event. *)

From stdpp Require Import list.
From S2P Require Import Prelude Cellular CellularConnector ProductDiagnostics.

#[local] Open Scope Z_scope.

(** ** Memory *)

Inductive counter :=
| Started | Completed | Active | PeakActive | SlowCompletions | ResolverFailedCount | DiscardedAfterDeadlineCount
| CompletedAfterOwnerChange | DiscardedStaleCount | AuthorityValidationFailedCount | UnusableResultCount
| AcceptedCurrentCount | MaxNativeElapsed | LastStartedOwner | LastCompletedStartOwner | LastCompletedCurrentOwner.

#[export] Instance counter_eq_dec : EqDecision counter.
Proof. solve_decision. Defined.

Definition memory := counter -> Z.

Definition tracker_zero : memory := fun _ => 0.

Definition store (m : memory) (c : counter) (v : Z) : memory := fun c' => if decide (c' = c) then v else m c'.

Definition disposition_counter (d : DnsResultDisposition) : counter :=
  match d with
  | DnsResolverFailed => ResolverFailedCount
  | DiscardedAfterDeadline => DiscardedAfterDeadlineCount
  | DiscardedStale => DiscardedStaleCount
  | AuthorityValidationFailed => AuthorityValidationFailedCount
  | DnsUnusableResult => UnusableResultCount
  | AcceptedCurrent => AcceptedCurrentCount
  end.

Definition bump (m : memory) (c : counter) : memory := store m c (fetch_add (m c) true).

(** ** Raising a maximum *)

(** [update_max]: before the load, or with the value last seen. *)
Inductive maxing := MaxLoad (candidate : Z) | MaxTry (candidate current : Z).

(** What a relaxed load returns, and whether a weak exchange fails all the same. *)
Record access := { seen : Z; spurious : bool }.

(** A counter that only grows: a load cannot see more than the value. *)
Definition loaded (m : memory) (c : counter) (x : access) : Z := Z.max 0 (Z.min (seen x) (m c)).

(** The loop's test. *)
Definition maxing_on (candidate current : Z) : option maxing := if current <? candidate then Some (MaxTry candidate current) else None.

Definition update_max (k : maxing) (c : counter) (m : memory) (x : access) : option maxing * memory :=
  match k with
  | MaxLoad candidate => (maxing_on candidate (loaded m c x), m)
  | MaxTry candidate current =>
      if (m c =? current) && negb (spurious x) then (None, store m c candidate)
      else (maxing_on candidate (loaded m c x), m)
  end.

(** ** Calls *)

(** What a finished lookup brings: its duration, and the owner's sequence number. *)
Record finish := { elapsed : Z; owner_sequence : option Z; disposition : DnsResultDisposition }.

Inductive place :=
| AtStarted | AtLastStarted | AtActive | AtPeak (k : maxing)
| InNative
| AtInactive (f : finish) | AtCompleted (f : finish) | AtStartOwner (f : finish) | AtCurrentOwner (f : finish)
| AtOwnerChange (f : finish) | AtSlow (f : finish) | AtElapsed (f : finish) (k : maxing) | AtDisposition (f : finish)
| AtDrop
| Over (f : option finish).

Record dns_call := { call_sequence : Z; at_place : place }.

Definition move (c : dns_call) (p : place) : dns_call := {| call_sequence := call_sequence c; at_place := p |}.

Definition elapsed_ms (f : finish) : Z := Z.min (elapsed f / 1000000) u64_max.

(** What the lookup did, for the step that leaves it: it finished, or it panicked. *)
Record native := { outcome : option finish; how : access }.

Definition call_step (c : dns_call) (m : memory) (x : native) : dns_call * memory :=
  match at_place c with
  | AtStarted => (move c AtLastStarted, bump m Started)
  | AtLastStarted => (move c AtActive, store m LastStartedOwner (call_sequence c))
  | AtActive => (move c (AtPeak (MaxLoad (m Active + 1))), bump m Active)
  | AtPeak k =>
      let y := update_max k PeakActive m (how x) in
      (move c (match y.1 with Some k => AtPeak k | None => InNative end), y.2)
  | InNative => (move c (match outcome x with Some f => AtInactive f | None => AtDrop end), m)
  | AtInactive f => (move c (AtCompleted f), store m Active (fetch_sub (m Active)))
  | AtCompleted f => (move c (AtStartOwner f), bump m Completed)
  | AtStartOwner f => (move c (AtCurrentOwner f), store m LastCompletedStartOwner (call_sequence c))
  | AtCurrentOwner f => (move c (AtOwnerChange f), store m LastCompletedCurrentOwner (default 0 (owner_sequence f)))
  | AtOwnerChange f =>
      (move c (AtSlow f), if owner_sequence f <>b? Some (call_sequence c) then bump m CompletedAfterOwnerChange else m)
  | AtSlow f =>
      (move c (AtElapsed f (MaxLoad (elapsed_ms f))),
       if DNS_SLOW_OBSERVATION_THRESHOLD <=? elapsed f then bump m SlowCompletions else m)
  | AtElapsed f k =>
      let y := update_max k MaxNativeElapsed m (how x) in
      (move c (match y.1 with Some k => AtElapsed f k | None => AtDisposition f end), y.2)
  | AtDisposition f => (move c (Over (Some f)), bump m (disposition_counter (disposition f)))
  | AtDrop => (move c (Over None), store m Active (fetch_sub (m Active)))
  | Over _ => (c, m)
  end.

(** ** All of them *)

Record tracker_world := { cells : memory; calls : list dns_call }.

Definition tracker_start_world : tracker_world := {| cells := tracker_zero; calls := [] |}.

Inductive tracker_event := CallBegins (a : CellularNetworkAuthority) | CallSteps (i : nat) (x : native).

Definition tracker_step (w : tracker_world) (e : tracker_event) : unit * tracker_world :=
  (tt, match e with
       | CallBegins a =>
           {| cells := cells w; calls := calls w ++ [{| call_sequence := observation_sequence a; at_place := AtStarted |}] |}
       | CallSteps i x =>
           match calls w !! i with
           | Some c => let y := call_step c (cells w) x in {| cells := y.2; calls := <[i := y.1]> (calls w) |}
           | None => w
           end
       end).

(** [DnsDiagnosticsTracker::snapshot], of one moment. *)
Definition non_zero (v : Z) : option Z := if v =? 0 then None else Some v.

Definition tracker_snapshot (m : memory) : CellularDnsDiagnosticSnapshot :=
  {| dns_slow_threshold_ms := Z.min (DNS_SLOW_OBSERVATION_THRESHOLD / 1000000) u64_max;
     ProductDiagnostics.dns_started := m Started; ProductDiagnostics.dns_completed := m Completed;
     ProductDiagnostics.dns_active := m Active; ProductDiagnostics.dns_peak_active := m PeakActive;
     dns_slow_completions := m SlowCompletions; dns_resolver_failed := m ResolverFailedCount;
     dns_discarded_after_deadline := m DiscardedAfterDeadlineCount;
     dns_completed_after_owner_change := m CompletedAfterOwnerChange; dns_discarded_stale := m DiscardedStaleCount;
     dns_authority_validation_failed := m AuthorityValidationFailedCount; dns_unusable_result := m UnusableResultCount;
     dns_accepted_current := m AcceptedCurrentCount; dns_max_native_elapsed_ms := m MaxNativeElapsed;
     dns_last_started_owner_sequence := non_zero (m LastStartedOwner);
     dns_last_completed_start_owner_sequence := non_zero (m LastCompletedStartOwner);
     dns_last_completed_current_owner_sequence := non_zero (m LastCompletedCurrentOwner) |}.

(** ** Tallies *)

(** A lookup that was completed has passed this. *)
Definition finished_with (c : dns_call) : option finish :=
  match at_place c with
  | AtStartOwner f | AtCurrentOwner f | AtOwnerChange f | AtSlow f | AtElapsed f _ | AtDisposition f => Some f
  | Over f => f
  | _ => None
  end.

(** The calls a counter counts; [None] for the counters that do not count. *)
Definition tally (n : counter) : option (dns_call -> bool) :=
  match n with
  | Started => Some (fun c => match at_place c with AtStarted => false | _ => true end)
  | Active => Some (fun c => match at_place c with AtPeak _ | InNative | AtInactive _ | AtDrop => true | _ => false end)
  | Completed => Some (fun c => is_some (finished_with c))
  | CompletedAfterOwnerChange => Some (fun c =>
      match at_place c with
      | AtSlow f | AtElapsed f _ | AtDisposition f | Over (Some f) => owner_sequence f <>b? Some (call_sequence c)
      | _ => false
      end)
  | SlowCompletions => Some (fun c =>
      match at_place c with
      | AtElapsed f _ | AtDisposition f | Over (Some f) => DNS_SLOW_OBSERVATION_THRESHOLD <=? elapsed f
      | _ => false
      end)
  | ResolverFailedCount | DiscardedAfterDeadlineCount | DiscardedStaleCount | AuthorityValidationFailedCount
  | UnusableResultCount | AcceptedCurrentCount => Some (fun c =>
      match at_place c with Over (Some f) => bool_decide (disposition_counter (disposition f) = n) | _ => false end)
  | PeakActive | MaxNativeElapsed | LastStartedOwner | LastCompletedStartOwner | LastCompletedCurrentOwner => None
  end.

Definition count (P : dns_call -> bool) (l : list dns_call) : Z := Z.of_nat (sum_list_with (fun c => if P c then 1%nat else 0%nat) l).

Lemma count_app P l l' : count P (l ++ l') = count P l + count P l'.
Proof. unfold count. rewrite sum_list_with_app. lia. Qed.

Lemma count_le P l : 0 <= count P l <= Z.of_nat (length l).
Proof. unfold count. induction l as [|c l IH]; cbn; [lia|]. destruct (P c); lia. Qed.

Lemma count_insert P l i c c' : l !! i = Some c ->
  count P (<[i := c']> l) = count P l - (if P c then 1 else 0) + (if P c' then 1 else 0).
Proof.
  intros Hi. pose proof (take_drop_middle _ _ _ Hi) as E. rewrite <- E at 2.
  rewrite insert_take_drop by by eapply lookup_lt_Some. rewrite !count_app.
  change (c' :: drop (S i) l) with ([c'] ++ drop (S i) l). change (c :: drop (S i) l) with ([c] ++ drop (S i) l).
  rewrite !count_app. unfold count at 2 5. cbn. destruct (P c), (P c'); lia.
Qed.

Lemma store_same m n v : store m n v n = v.
Proof. unfold store. by rewrite decide_True. Qed.

Lemma store_other m n v n' : n' <> n -> store m n v n' = m n'.
Proof. intros H. unfold store. by rewrite decide_False. Qed.

(** A step counts a call, stops counting it, or leaves the counter alone. *)
Definition counted (P : dns_call -> bool) (v v' : Z) (c c' : dns_call) : Prop :=
  (v' = v /\ P c' = P c) \/ (v' = fetch_add v true /\ P c = false /\ P c' = true) \/
  (v' = fetch_sub v /\ P c = true /\ P c' = false).

Lemma update_max_other k n m x n' : n' <> n -> (update_max k n m x).2 n' = m n'.
Proof. intros H. destruct k; cbn; [done|]. destruct (_ && _); [|done]. by apply store_other. Qed.

Ltac tallies n Hn Hp :=
  destruct n; try discriminate Hn; injection Hn as <-; unfold bump; cbn [at_place move call_sequence]; unfold finished_with; rewrite ?Hp;
  cbn [at_place move is_some]; rewrite ?store_same, ?store_other by done; auto.

Lemma call_step_counted c m x n P : tally n = Some P ->
  counted P (m n) ((call_step c m x).2 n) c (call_step c m x).1.
Proof.
  intros Hn. unfold call_step, counted. destruct (at_place c) as [| | |k| |f|f|f|f|f|f|f k|f| |f] eqn:Hp; cbn [fst snd].
  - tallies n Hn Hp.
  - tallies n Hn Hp.
  - tallies n Hn Hp.
  - left. rewrite update_max_other by (destruct n; discriminate). split; [done|].
    destruct (update_max _ _ _ _).1; tallies n Hn Hp.
  - left. split; [done|]. destruct (outcome x); tallies n Hn Hp.
  - tallies n Hn Hp.
  - tallies n Hn Hp.
  - tallies n Hn Hp.
  - tallies n Hn Hp.
  - destruct (owner_sequence f <>b? Some (call_sequence c)) eqn:E; tallies n Hn Hp; rewrite E; auto.
  - destruct (DNS_SLOW_OBSERVATION_THRESHOLD <=? elapsed f) eqn:E; tallies n Hn Hp; rewrite E; auto.
  - left. rewrite update_max_other by (destruct n; discriminate). split; [done|].
    destruct (update_max _ _ _ _).1; tallies n Hn Hp.
  - destruct n; try discriminate Hn; injection Hn as <-; unfold bump; cbn [at_place move]; unfold finished_with; rewrite ?Hp; cbn [at_place move is_some];
      destruct (disposition f); cbn [disposition_counter]; rewrite ?store_same, ?store_other by done; auto.
  - tallies n Hn Hp.
  - by left.
Qed.

Definition no_wrap (w : tracker_world) : Prop := Z.of_nat (length (calls w)) <= u64_max.

Definition tallied (w : tracker_world) : Prop := forall n P, tally n = Some P -> cells w n = count P (calls w).

Lemma tracker_step_calls w e : (length (calls w) <= length (calls (tracker_step w e).2))%nat.
Proof.
  destruct e as [a|i x]; cbn; [rewrite length_app; lia|]. destruct (calls w !! i); [|done]. cbn. by rewrite length_insert.
Qed.

Lemma tally_fresh n P s : tally n = Some P -> P {| call_sequence := s; at_place := AtStarted |} = false.
Proof. destruct n; try discriminate; by intros [= <-]. Qed.

Lemma tracker_step_tallied w e : no_wrap (tracker_step w e).2 -> tallied w -> tallied (tracker_step w e).2.
Proof.
  intros Hw Ht n P Hn. pose proof (Ht n P Hn) as E. destruct e as [a|i x]; cbn [tracker_step snd] in *.
  - cbn [cells calls]. rewrite count_app, E. assert (forall c, count P [c] = if P c then 1 else 0) as -> by (intros c; unfold count; cbn; by destruct (P c)).
    rewrite (tally_fresh n P _ Hn). lia.
  - destruct (calls w !! i) as [c|] eqn:Hi; [|done]. pose proof (call_step_counted c (cells w) x n P Hn) as Hc.
    cbn [cells calls] in *. set (y := call_step c (cells w) x) in *. unfold no_wrap in Hw. cbn [calls] in Hw. rewrite length_insert in Hw.
    pose proof (count_insert P (calls w) i c y.1 Hi) as Ec. pose proof (count_le P (calls w)) as Hl.
    pose proof (count_le P (<[i:=y.1]> (calls w))) as Hl'. rewrite length_insert in Hl'. rewrite Ec, E in *. clear E Ec.
    destruct Hc as [(-> & ->)|[(-> & E1 & E2)|(-> & E1 & E2)]]; rewrite ?E1, ?E2 in *.
    + lia.
    + unfold fetch_add. rewrite Z.mod_small by lia. lia.
    + unfold fetch_sub. rewrite Z.mod_small by lia. lia.
Qed.

(** ** Maxima *)

Definition candidate (k : maxing) : Z := match k with MaxLoad v | MaxTry v _ => v end.

Definition trying (k : maxing) : Prop := match k with MaxLoad _ => True | MaxTry v current => current < v end.

Lemma maxing_on_spec v current : match maxing_on v current with Some k => candidate k = v /\ trying k | None => v <= current end.
Proof. unfold maxing_on. destruct (Z.ltb_spec current v); [done|lia]. Qed.

Lemma update_max_spec k n m x : 0 <= m n -> trying k ->
  let y := update_max k n m x in
  m n <= y.2 n /\ (y.2 n = m n \/ y.2 n = candidate k) /\
  match y.1 with Some k' => candidate k' = candidate k /\ trying k' | None => candidate k <= y.2 n end.
Proof.
  intros Hm Hk. assert (loaded m n x <= m n) as Hl by (unfold loaded; lia).
  destruct k as [v|v current]; cbn [update_max trying candidate] in *.
  - pose proof (maxing_on_spec v (loaded m n x)) as H. cbn [fst snd]. split_and!; [done|by left|]. destruct (maxing_on _ _); [done|lia].
  - destruct (Z.eqb_spec (m n) current) as [E|_]; cbn [andb]; [destruct (spurious x); cbn [negb]|].
    + pose proof (maxing_on_spec v (loaded m n x)) as H. cbn [fst snd]. split_and!; [done|by left|]. destruct (maxing_on _ _); [done|lia].
    + cbn [fst snd]. rewrite store_same. split_and!; [lia|by right|lia].
    + pose proof (maxing_on_spec v (loaded m n x)) as H. cbn [fst snd]. split_and!; [done|by left|]. destruct (maxing_on _ _); [done|lia].
Qed.

(** A call that is raising the maximum, and a step that begins to. *)
Definition raising (n : counter) (c : dns_call) : option maxing :=
  match n, at_place c with PeakActive, AtPeak k | MaxNativeElapsed, AtElapsed _ k => Some k | _, _ => None end.

Definition offer (n : counter) (c : dns_call) (m : memory) : option Z :=
  match n, at_place c with
  | PeakActive, AtActive => Some (m Active + 1)
  | MaxNativeElapsed, AtSlow f => Some (elapsed_ms f)
  | _, _ => None
  end.

Definition is_maximum (n : counter) : Prop := n = PeakActive \/ n = MaxNativeElapsed.

Lemma call_step_raising n c m x : is_maximum n ->
  match raising n c with
  | Some k => (call_step c m x).2 n = (update_max k n m (how x)).2 n /\
      raising n (call_step c m x).1 = (update_max k n m (how x)).1 /\ offer n c m = None
  | None => (call_step c m x).2 n = m n /\ raising n (call_step c m x).1 = MaxLoad <$> offer n c m
  end.
Proof.
  intros [-> | ->]; unfold raising, offer, call_step, bump;
    destruct (at_place c) as [| | |k| |f|f|f|f|f|f|f k|f| |f] eqn:Hp; cbn [fst snd at_place move fmap option_fmap option_map];
    rewrite ?Hp; try done.
  all: try (by destruct (outcome x)).
  all: try (by destruct (owner_sequence f <>b? Some (call_sequence c))).
  all: try (by destruct (DNS_SLOW_OBSERVATION_THRESHOLD <=? elapsed f)).
  all: try (by destruct (disposition f)).
  all: try (by destruct (update_max _ _ _ _).1).
  all: rewrite update_max_other by done; by destruct (update_max _ _ _ _).1.
Qed.

(** [h] is the largest value offered so far. *)
Record maximum (n : counter) (h : Z) (w : tracker_world) : Prop := {
  mx_value : 0 <= cells w n <= h;
  mx_open : cells w n = h \/ exists j c k, calls w !! j = Some c /\ raising n c = Some k /\ candidate k = h;
  mx_raising j c k : calls w !! j = Some c -> raising n c = Some k -> candidate k <= h /\ trying k }.

Definition raised (h : Z) (o : option Z) : Z := match o with Some v => Z.max h v | None => h end.

Lemma maximum_step n h w i c x : is_maximum n -> calls w !! i = Some c -> maximum n h w ->
  maximum n (raised h (offer n c (cells w)))
    {| cells := (call_step c (cells w) x).2; calls := <[i := (call_step c (cells w) x).1]> (calls w) |}.
Proof.
  intros Hn Hi [[Hv1 Hv2] Ho Hr]. pose proof (call_step_raising n c (cells w) x Hn) as Hs.
  set (y := call_step c (cells w) x) in *. clearbody y. pose proof (lookup_lt_Some _ _ _ Hi) as Hlt.
  destruct (raising n c) as [k|] eqn:Ek.
  - destruct Hs as (Em & Er & ->). destruct (Hr i c k Hi Ek) as [Hk1 Hk2].
    destruct (update_max_spec k n (cells w) (how x) Hv1 Hk2) as (U1 & U2 & U3). rewrite <- Em, <- Er in *. cbn [raised].
    split; cbn [cells calls].
    + destruct U2; lia.
    + destruct (raising n y.1) as [k'|] eqn:Ek'.
      * destruct Ho as [Ho|(j & c' & k0 & Hj & Hk0 & Hc)].
        -- left. destruct U2; lia.
        -- destruct (decide (j = i)) as [->|Hne].
           ++ simplify_eq. right. exists i, y.1, k'. rewrite list_lookup_insert_eq by done. by destruct U3 as [-> _].
           ++ right. exists j, c', k0. by rewrite list_lookup_insert_ne by done.
      * destruct Ho as [Ho|(j & c' & k0 & Hj & Hk0 & Hc)]; [left; destruct U2; lia|].
        destruct (decide (j = i)) as [->|Hne]; [simplify_eq; left; destruct U2; lia|].
        right. exists j, c', k0. by rewrite list_lookup_insert_ne by done.
    + intros j c' k' [(<- & <- & _)|[Hne Hj]]%list_lookup_insert_Some Hk'; [|by eapply Hr].
      rewrite Hk' in U3. destruct U3 as [-> ?]. done.
  - destruct Hs as (Em & Er). split; cbn [cells calls]; rewrite ?Em.
    + destruct (offer n c (cells w)); cbn; lia.
    + destruct (offer n c (cells w)) as [v|]; cbn [raised fmap option_fmap option_map] in *.
      * destruct (Z.le_gt_cases v h) as [Hle|Hgt].
        -- rewrite Z.max_l by done. destruct Ho as [Ho|(j & c' & k0 & Hj & Hk0 & Hc)]; [by left|]. right. exists j, c', k0.
           rewrite list_lookup_insert_ne; [done|]. intros <-. congruence.
        -- rewrite Z.max_r by lia. right. exists i, y.1, (MaxLoad v). by rewrite list_lookup_insert_eq by done.
      * destruct Ho as [Ho|(j & c' & k0 & Hj & Hk0 & Hc)]; [by left|]. right. exists j, c', k0.
        rewrite list_lookup_insert_ne; [done|]. intros <-. congruence.
    + intros j c' k' [(<- & <- & _)|[Hne Hj]]%list_lookup_insert_Some Hk'.
      * rewrite Er in Hk'. destruct (offer n c (cells w)) as [v|]; [|done]. injection Hk' as <-. cbn. split; [lia|done].
      * destruct (Hr j c' k' Hj Hk') as [? ?]. split; [|done]. destruct (offer n c (cells w)); cbn; lia.
Qed.

(** ** Runs *)

Abbreviation tracked_by es := (run tracker_step tracker_start_world es).

Lemma tracked_snoc es e : tracked_by (es ++ [e]) = (tracker_step (tracked_by es) e).2.
Proof. by rewrite run_app. Qed.

Lemma no_wrap_snoc es e : no_wrap (tracked_by (es ++ [e])) -> no_wrap (tracked_by es).
Proof. unfold no_wrap. rewrite tracked_snoc. pose proof (tracker_step_calls (tracked_by es) e). lia. Qed.

Lemma tracked_tallied es : no_wrap (tracked_by es) -> tallied (tracked_by es).
Proof.
  induction es as [|e es IH] using rev_ind; intros Hw.
  - intros n P Hn. done.
  - rewrite tracked_snoc in *. apply tracker_step_tallied; [done|]. apply IH. apply (no_wrap_snoc es e). by rewrite tracked_snoc.
Qed.

(** A new call raises nothing. *)
Lemma maximum_begins n h w a : maximum n h w -> maximum n h (tracker_step w (CallBegins a)).2.
Proof.
  intros [Hv Ho Hr]. assert (forall k, raising n {| call_sequence := observation_sequence a; at_place := AtStarted |} <> Some k) as Hf
    by by destruct n. split; cbn [tracker_step snd cells calls]; [done| |].
  - destruct Ho as [Ho|(j & c & k & Hj & Hk)]; [by left|]. right. exists j, c, k. split; [|done]. by apply lookup_app_l_Some.
  - intros j c k [Hj|[_ Hj]]%lookup_app_Some Hk; [by eapply Hr|]. apply list_lookup_singleton_Some in Hj as [_ <-]. by destruct (Hf k).
Qed.

(** The largest value a run has offered. *)
Definition raised_by (n : counter) (h : Z) (w : tracker_world) (e : tracker_event) : Z :=
  match e with
  | CallBegins _ => h
  | CallSteps i _ => match calls w !! i with Some c => raised h (offer n c (cells w)) | None => h end
  end.

Lemma maximum_event n h w e : is_maximum n -> maximum n h w -> maximum n (raised_by n h w e) (tracker_step w e).2.
Proof.
  intros Hn Hm. destruct e as [a|i x]; [by apply maximum_begins|]. cbn [tracker_step snd raised_by].
  destruct (calls w !! i) as [c|] eqn:Hi; [|done]. by apply maximum_step.
Qed.

(** *** The peak *)

Lemma active_step w e : tallied w -> tallied (tracker_step w e).2 ->
  (raised_by PeakActive (cells w Active) w e = cells (tracker_step w e).2 Active \/
   raised_by PeakActive (cells w Active) w e = cells w Active /\ cells (tracker_step w e).2 Active <= cells w Active) /\
  forall h, raised_by PeakActive h w e = h \/ raised_by PeakActive h w e = Z.max h (cells (tracker_step w e).2 Active).
Proof.
  intros H1 H2. pose proof (H1 Active _ eq_refl) as E1. pose proof (H2 Active _ eq_refl) as E2.
  destruct e as [a|i x]; cbn [tracker_step snd raised_by] in *; [split; [right; split; [done|done]|by left]|].
  destruct (calls w !! i) as [c|] eqn:Hi; [|split; [by left|by left]].
  cbn [cells calls] in *. rewrite (count_insert _ _ _ _ _ Hi), <- E1 in E2. rewrite E2. clear E1 E2 H1 H2. unfold offer, call_step.
  destruct (at_place c) as [| | |k| |f|f|f|f|f|f|f k|f| |f] eqn:Hp; cbn [fst at_place move raised]; rewrite ?Hp;
    try (destruct (update_max _ _ _ _).1); try (destruct (outcome x)); split; auto; try (right; split; [done|lia]).
  all: first [left; lia | intros h; right; f_equal; lia].
Qed.

Lemma peak_run es : no_wrap (tracked_by es) -> exists h,
  maximum PeakActive h (tracked_by es) /\
  (forall es1 es2, es = es1 ++ es2 -> cells (tracked_by es1) Active <= h) /\
  exists es1 es2, es = es1 ++ es2 /\ cells (tracked_by es1) Active = h.
Proof.
  induction es as [|e es IH] using rev_ind; intros Hw.
  - exists 0. split_and!; [split; [done|by left|done]| |by exists [], []]. intros es1 es2 E. symmetry in E. by apply app_nil in E as [-> _].
  - pose proof (no_wrap_snoc _ _ Hw) as Hw'. destruct (IH Hw') as (h & Hm & Hle & es1 & es2 & -> & Hat).
    pose proof (tracked_tallied _ Hw') as T1. pose proof (tracked_tallied _ Hw) as T2. rewrite tracked_snoc in T2.
    set (w := tracked_by (es1 ++ es2)) in *. destruct (active_step w e T1 T2) as [Ha Hh]. specialize (Hh h).
    assert (cells w Active <= h) as Hnow by by apply (Hle _ []); rewrite app_nil_r.
    exists (raised_by PeakActive h w e). split_and!.
    + rewrite tracked_snoc. apply maximum_event; [by left|done].
    + intros es3 es4 E. assert (cells (tracker_step w e).2 Active <= raised_by PeakActive h w e /\ h <= raised_by PeakActive h w e) as [B1 B2].
      { destruct Hh as [Hh|Hh]; rewrite Hh; [|lia]. split; [|lia]. destruct Ha as [Ha|[_ Ha]]; [|lia]. rewrite <- Ha.
        unfold raised_by in *. destruct e as [|i x]; [lia|]. destruct (calls w !! i) as [c|]; [|lia].
        unfold raised in *. destruct (offer PeakActive c (cells w)); lia. }
      destruct es4 as [|e4 es4 _] using rev_ind.
      * rewrite app_nil_r in E. subst es3. rewrite tracked_snoc. done.
      * rewrite app_assoc in E. apply app_inj_tail in E as [E ->]. specialize (Hle es3 es4 E). lia.
    + destruct Hh as [Hh|Hh]; rewrite Hh.
      * exists es1, (es2 ++ [e]). by rewrite app_assoc.
      * destruct (Z.le_gt_cases (cells (tracker_step w e).2 Active) h).
        -- rewrite Z.max_l by done. exists es1, (es2 ++ [e]). by rewrite app_assoc.
        -- rewrite Z.max_r by lia. exists ((es1 ++ es2) ++ [e]), []. rewrite app_nil_r, tracked_snoc. done.
Qed.

(** *** The slowest lookup *)

(** The duration a call has put forward. *)
Definition offered (c : dns_call) : option Z :=
  match at_place c with AtElapsed f _ | AtDisposition f | Over (Some f) => Some (elapsed_ms f) | _ => None end.

(** What a call has put forward stays, and what is put forward was offered. *)
Lemma offered_step c m x :
  (offered (call_step c m x).1 = offered c /\ offer MaxNativeElapsed c m = None) \/
  (offered c = None /\ offered (call_step c m x).1 = offer MaxNativeElapsed c m).
Proof.
  unfold offered, offer, call_step. destruct (at_place c) as [| | |k| |f|f|f|f|f|f|f k|f| |f] eqn:Hp; cbn [fst at_place move];
    rewrite ?Hp; auto; try (destruct (outcome x)); try (destruct (update_max _ _ _ _).1); auto.
Qed.

Lemma slowest_run es : exists h,
  maximum MaxNativeElapsed h (tracked_by es) /\
  (forall j c v, calls (tracked_by es) !! j = Some c -> offered c = Some v -> v <= h) /\
  (h = 0 \/ exists j c, calls (tracked_by es) !! j = Some c /\ offered c = Some h).
Proof.
  induction es as [|e es (h & Hm & Hle & Hat)] using rev_ind.
  - exists 0. split_and!; [split; [done|by left|done]|done|by left].
  - exists (raised_by MaxNativeElapsed h (tracked_by es) e). rewrite tracked_snoc. set (w := tracked_by es) in *. clearbody w.
    split; [apply maximum_event; [by right|done]|]. destruct e as [a|i x]; cbn [tracker_step snd raised_by calls] in *.
    + split.
      * intros j c v [Hj|[_ Hj]]%lookup_app_Some Hv; [by eapply Hle|]. by apply list_lookup_singleton_Some in Hj as [_ <-].
      * destruct Hat as [->|(j & c & Hj & Hc)]; [by left|]. right. exists j, c. split; [|done]. by apply lookup_app_l_Some.
    + destruct (calls w !! i) as [c|] eqn:Hi; [|done]. cbn [calls]. pose proof (lookup_lt_Some _ _ _ Hi) as Hlt.
      pose proof (offered_step c (cells w) x) as Hs. set (y := call_step c (cells w) x) in *. clearbody y.
      assert (h <= raised h (offer MaxNativeElapsed c (cells w))) as Hge by (unfold raised; destruct (offer _ _ _); lia). split.
      * intros j c' v [(<- & <- & _)|[Hne Hj]]%list_lookup_insert_Some Hv.
        -- destruct Hs as [[Hs ->]|[_ Hs]]; [cbn; rewrite Hs in Hv; by eapply Hle|]. rewrite Hs in Hv. rewrite Hv. cbn. lia.
        -- specialize (Hle j c' v Hj Hv). lia.
      * assert (h = raised h (offer MaxNativeElapsed c (cells w)) \/ offer MaxNativeElapsed c (cells w) = Some (raised h (offer MaxNativeElapsed c (cells w))))
          as [<-|Ho].
        { unfold raised. destruct (offer _ _ _) as [v|]; [|by left]. destruct (Z.max_spec h v) as [[_ ->]|[_ ->]]; auto. }
        -- destruct Hat as [->|(j & c' & Hj & Hc)]; [by left|]. right. destruct (decide (j = i)) as [->|Hne].
           ++ simplify_eq. exists i, y.1. rewrite list_lookup_insert_eq by done. destruct Hs as [[-> _]|[Hs _]]; [done|congruence].
           ++ exists j, c'. by rewrite list_lookup_insert_ne by done.
        -- right. exists i, y.1. rewrite list_lookup_insert_eq by done. destruct Hs as [[_ Hs]|[_ ->]]; [congruence|done].
Qed.

(** ** Properties *)

(** No call is under way. *)
Definition quiet (w : tracker_world) : Prop := forall j c, calls w !! j = Some c -> exists f, at_place c = Over f.

Definition quietb (w : tracker_world) : bool :=
  forallb (fun c => match at_place c with Over _ => true | _ => false end) (calls w).

Lemma quietb_ok w : quietb w = true -> quiet w.
Proof.
  unfold quietb. rewrite forallb_forall. intros Hb j c Hj%list_elem_of_lookup_2%list_elem_of_In. specialize (Hb c Hj).
  destruct (at_place c); try done. by eexists.
Qed.

Lemma maximum_quiet n h w : is_maximum n -> quiet w -> maximum n h w -> cells w n = h.
Proof.
  intros Hn Hq [_ [Ho|(j & c & k & Hj & Hk & _)] _]; [done|]. destruct (Hq j c Hj) as [f Hf]. exfalso. revert Hk.
  unfold raising. rewrite Hf. destruct Hn as [-> | ->]; done.
Qed.

(** Two lookups at once: the second completes while the first raises the peak. *)
Definition demo_finish (ms : Z) : finish :=
  {| elapsed := ms * 1000000; owner_sequence := Some 1; disposition := AcceptedCurrent |}.

Definition demo_access (f : option finish) : native := {| outcome := f; how := {| seen := 1000000; spurious := false |} |}.

Definition demo_tracking : list tracker_event :=
  let a := {| network := 42; sequence := 1 |} in
  [CallBegins a; CallBegins a] ++ repeat (CallSteps 0 (demo_access (Some (demo_finish 7000)))) 4
  ++ repeat (CallSteps 1 (demo_access (Some (demo_finish 20)))) 40 ++ repeat (CallSteps 0 (demo_access (Some (demo_finish 7000)))) 40.


