(* ===== verification/BoundaryViews.v ===== *)
(** * Views of the platform boundary

    The projections of the UniFFI layer: the records and enumerations Android gets, and
    the functions that make them from the owners' snapshots.  [src/crates/android-ffi/src]:
    [runtime_boundary.rs], [transport_ffi.rs], [runtime_lifecycle_ffi.rs],
    [readiness_ffi.rs] and the projections of [product_runtime_ffi.rs]. *)

From Stdlib Require Import String.
From S2P Require Import ProxySession PolicyCoordinator RotationRuntime RootPolicyRuntime.
From S2P Require Import Prelude Net RustStr Transport Readiness ProxyAuth ProxyCoordinator ReadinessRuntime Rotation.
From S2P Require Import Lifecycle Interaction Threads Cellular CellularRuntime ProductFacts.
From stdpp Require Import gmap list.
From S2P Require Import ControlRuntime ProductRuntime ProductDiagnostics.

#[local] Open Scope Z_scope.

(** ** [runtime_boundary.rs] *)

Inductive CellularAdmissionStateView :=
| VUnknown | VNotAdmitted | VAdmitted.

Inductive CellularAdmissionReasonView :=
| VNoObservation | VNotCellular | VMissingInternetCapability | VVpnDerivedNetwork | VNotValidated | VNetworkLost.

#[export] Instance CellularAdmissionStateView_eq_dec : EqDecision CellularAdmissionStateView.
Proof. solve_decision. Defined.

Record CellularAdmissionView := {
  cav_state : CellularAdmissionStateView; cav_reason : option CellularAdmissionReasonView;
  cav_admitted_network_handle : option Z; cav_last_sequence : option Z }.

Inductive CellularBridgeError := InvalidBridgeSequence | InvalidNetworkHandle | BridgeOwnerUnavailable.

Definition admission_state_view (s : CellularAdmissionState) : CellularAdmissionStateView :=
  match s with
  | Cellular.Unknown => VUnknown | Cellular.NotAdmitted => VNotAdmitted | Cellular.IsAdmitted => VAdmitted
  end.

Definition admission_reason_view (r : CellularAdmissionReason) : CellularAdmissionReasonView :=
  match r with
  | Cellular.NoObservation => VNoObservation | Cellular.NotCellular => VNotCellular
  | Cellular.MissingInternetCapability => VMissingInternetCapability | Cellular.VpnDerivedNetwork => VVpnDerivedNetwork
  | Cellular.NotValidated => VNotValidated | Cellular.NetworkLost => VNetworkLost
  end.

Definition map_snapshot (s : CellularAdmissionSnapshot) : CellularAdmissionView :=
  {| cav_state := admission_state_view (adm_state s); cav_reason := admission_reason_view <$> adm_reason s;
     cav_admitted_network_handle := admitted_network s; cav_last_sequence := Cellular.last_sequence s |}.

Record CellularDnsDiagnosticView := {
  dnv_slow_threshold_ms : Z; dnv_started : Z; dnv_completed : Z; dnv_active : Z; dnv_peak_active : Z;
  dnv_slow_completions : Z; dnv_resolver_failed : Z; dnv_discarded_after_deadline : Z;
  dnv_completed_after_owner_change : Z; dnv_discarded_stale : Z; dnv_authority_validation_failed : Z;
  dnv_unusable_result : Z; dnv_accepted_current : Z; dnv_max_native_elapsed_ms : Z;
  dnv_last_started_owner_sequence : option Z; dnv_last_completed_start_owner_sequence : option Z;
  dnv_last_completed_current_owner_sequence : option Z }.

Definition map_dns_diagnostic (d : CellularDnsDiagnosticSnapshot) : CellularDnsDiagnosticView :=
  {| dnv_slow_threshold_ms := dns_slow_threshold_ms d; dnv_started := dns_started d;
     dnv_completed := dns_completed d; dnv_active := dns_active d; dnv_peak_active := dns_peak_active d;
     dnv_slow_completions := dns_slow_completions d; dnv_resolver_failed := dns_resolver_failed d;
     dnv_discarded_after_deadline := dns_discarded_after_deadline d;
     dnv_completed_after_owner_change := dns_completed_after_owner_change d;
     dnv_discarded_stale := dns_discarded_stale d;
     dnv_authority_validation_failed := dns_authority_validation_failed d;
     dnv_unusable_result := dns_unusable_result d; dnv_accepted_current := dns_accepted_current d;
     dnv_max_native_elapsed_ms := dns_max_native_elapsed_ms d;
     dnv_last_started_owner_sequence := dns_last_started_owner_sequence d;
     dnv_last_completed_start_owner_sequence := dns_last_completed_start_owner_sequence d;
     dnv_last_completed_current_owner_sequence := dns_last_completed_current_owner_sequence d |}.

Inductive PublicIpProbeError :=
| ProbeNoCurrentCellular | ProbeRootPolicyUnavailable | ProbeDnsUnavailable | ProbeDeadlineExceeded
| ProbeStaleGeneration | ProbeInvalidResponse | ProbeSocketConnect | ProbeSocketTimeout | ProbeTlsHandshake
| ProbeTlsHostname | ProbeHttpStatus | ProbeResponseTooLarge | ProbeResponseMalformed | ProbeIo.

Definition map_public_ip_failure (e : PublicIpProbeFailure) : PublicIpProbeError :=
  match e with
  | CellularRuntime.NoCurrentCellular => ProbeNoCurrentCellular
  | CellularRuntime.RootPolicyUnavailable => ProbeRootPolicyUnavailable
  | CellularRuntime.DnsUnavailable => ProbeDnsUnavailable
  | CellularRuntime.ProbeDeadlineExceeded => ProbeDeadlineExceeded
  | CellularRuntime.StaleGeneration => ProbeStaleGeneration | CellularRuntime.InvalidResponse => ProbeInvalidResponse
  | CellularRuntime.SocketConnect => ProbeSocketConnect | CellularRuntime.SocketTimeout => ProbeSocketTimeout
  | CellularRuntime.TlsHandshake => ProbeTlsHandshake | CellularRuntime.TlsHostname => ProbeTlsHostname
  | CellularRuntime.HttpStatus => ProbeHttpStatus | CellularRuntime.ResponseTooLarge => ProbeResponseTooLarge
  | CellularRuntime.ResponseMalformed => ProbeResponseMalformed | CellularRuntime.ProbeIo => ProbeIo
  end.

Record PublicIpObservationView := { piv_address : str; piv_generation : Z }.

(** [AndroidNetworkError] of the network adapter. *)
Inductive AndroidNetworkError :=
| InvalidHostname | UnsupportedPlatform | NativeDnsLookupFailed | NativeDnsNoResults | NativeAddressConversionFailed.

Definition map_android_network_error (e : AndroidNetworkError) : ProxySession.ProxyOutboundConnectError :=
  match e with
  | InvalidHostname => ProxySession.Rejected
  | UnsupportedPlatform => ProxySession.Unavailable
  | NativeDnsLookupFailed | NativeDnsNoResults | NativeAddressConversionFailed => ProxySession.OutboundFailed
  end.

(** [AndroidDnsResolver::resolve] over what the adapter answered: every literal has to
    parse. *)
Definition resolve (answer : result AndroidNetworkError (list str)) : result ProxySession.ProxyOutboundConnectError (list IpAddr) :=
  let? raws := map_err map_android_network_error answer in
  ok_or (mapM parse_ip raws) ProxySession.OutboundFailed.

(** ** [transport_ffi.rs] *)

Inductive MeshAdmissionStateView := VMeshNotAdmitted | VMeshAdmitted.

Inductive MeshAdmissionReasonView := VMeshNoObservation | VNoAcceptedAddress | VMultipleAcceptedAddresses.

#[export] Instance MeshAdmissionStateView_eq_dec : EqDecision MeshAdmissionStateView.
Proof. solve_decision. Defined.

Record MeshAdmissionView := {
  mav_state : MeshAdmissionStateView; mav_reason : option MeshAdmissionReasonView; mav_endpoint : option str;
  mav_admission_epoch : option Z; mav_last_sequence : option Z; mav_ingress_running : bool; mav_active_sessions : Z;
  mav_capacity_rejects : Z }.

Inductive MeshTransportBoundaryError :=
| BInvalidAcceptedCidr | BInvalidObservationSequence | BInvalidVpnObservation | BStaleObservation
| BAdmissionEpochExhausted | BOwnerUnavailable | BIngressUnavailable | BIngressBindFailed | BIngressShutdownFailed.

Definition mesh_state_view (s : MeshAdmissionState) : MeshAdmissionStateView :=
  match s with Transport.NotAdmitted => VMeshNotAdmitted | Transport.IsAdmitted => VMeshAdmitted end.

Definition mesh_reason_view (r : MeshAdmissionReason) : MeshAdmissionReasonView :=
  match r with
  | Transport.NoObservation => VMeshNoObservation
  | Transport.NoAcceptedAddress => VNoAcceptedAddress
  | Transport.MultipleAcceptedAddresses => VMultipleAcceptedAddresses
  end.

Definition map_view (s : MeshTransportSnapshot) : MeshAdmissionView :=
  let a := ts_admission s in
  {| mav_state := mesh_state_view (Transport.state a); mav_reason := mesh_reason_view <$> Transport.reason a;
     mav_endpoint := ipv4_display <$> admitted_endpoint a; mav_admission_epoch := Transport.admission_epoch a;
     mav_last_sequence := Transport.last_sequence a; mav_ingress_running := ts_ingress_running s;
     mav_active_sessions := ts_active_sessions s; mav_capacity_rejects := ts_capacity_rejects s |}.

Definition map_ingress_error (e : MeshIngressError) : MeshTransportBoundaryError :=
  match e with
  | Transport.BindFailed => BIngressBindFailed
  | Transport.ShutdownTimedOut => BIngressShutdownFailed
  | Transport.InvalidEndpoint | Transport.InvalidPortMapping | Transport.ListenerConfigurationFailed
  | Transport.ExecutorUnavailable => BIngressUnavailable
  end.

Definition mesh_owner_error (e : MeshOwnerError) : MeshTransportBoundaryError :=
  match e with
  | Transport.InvalidAcceptedCidr => BInvalidAcceptedCidr
  | Transport.InvalidObservationSequence => BInvalidObservationSequence
  | Transport.StaleObservation => BStaleObservation
  | Transport.AdmissionEpochExhausted => BAdmissionEpochExhausted
  end.

Definition map_transport_error (e : MeshTransportError) : MeshTransportBoundaryError :=
  match e with
  | Transport.Owner e => mesh_owner_error e
  | Transport.StateUnavailable => BOwnerUnavailable
  | Transport.IngressUnavailable => BIngressUnavailable
  | Transport.Ingress e => map_ingress_error e
  | Transport.CleanupFailed => BIngressShutdownFailed
  end.

(** ** [runtime_lifecycle_ffi.rs] and [readiness_ffi.rs] *)

Inductive RuntimeLifecycleStateView :=
| VRuntimeStopped | VRuntimeStarting | VRuntimeRunning | VRuntimeStopping.

Definition map_lifecycle_state (s : RuntimeLifecycleState) : RuntimeLifecycleStateView :=
  match s with
  | Lifecycle.Stopped => VRuntimeStopped | Lifecycle.Starting => VRuntimeStarting
  | Lifecycle.Running => VRuntimeRunning | Lifecycle.Stopping => VRuntimeStopping
  end.

Inductive ProxyServingStateView := VServingStopped | VServingStarting | VServingRunning | VServingFailed.

#[export] Instance ProxyServingStateView_eq_dec : EqDecision ProxyServingStateView.
Proof. solve_decision. Defined.

Inductive ProxyServingFailureView :=
| VNativeRuntimeMissing | VExternalCredentialUnavailable | VCellularConnectorUnavailable | VProxyConfigurationRejected
| VMixedListenerUnavailable | VSocks5ListenerUnavailable | VHttpConnectListenerUnavailable | VExecutorUnavailable
| VRuntimeStateUnavailable | VServingUnhealthy | VShutdownFailed.

Definition map_proxy_failure_out (f : ProxyServingFailure) : ProxyServingFailureView :=
  match f with
  | Lifecycle.NativeRuntimeMissing => VNativeRuntimeMissing
  | Lifecycle.ExternalCredentialUnavailable => VExternalCredentialUnavailable
  | Lifecycle.CellularConnectorUnavailable => VCellularConnectorUnavailable
  | Lifecycle.ProxyConfigurationRejected => VProxyConfigurationRejected
  | Lifecycle.MixedListenerUnavailable => VMixedListenerUnavailable
  | Lifecycle.Socks5ListenerUnavailable => VSocks5ListenerUnavailable
  | Lifecycle.HttpConnectListenerUnavailable => VHttpConnectListenerUnavailable
  | Lifecycle.ExecutorUnavailable => VExecutorUnavailable
  | Lifecycle.RuntimeStateUnavailable => VRuntimeStateUnavailable | Lifecycle.ServingUnhealthy => VServingUnhealthy
  | Lifecycle.ShutdownFailed => VShutdownFailed
  end.

Inductive ProductReadinessState :=
| ProductReady | ProductNotReady | ProductDegraded | ProductUnknown.

(** ** Projections of [product_runtime_ffi.rs] *)

Definition map_readiness_state (r : Readiness) : ProductReadinessState :=
  match r with
  | Readiness.Ready => ProductReady | Readiness.NotReady => ProductNotReady | Readiness.Degraded => ProductDegraded
  | Readiness.Unknown => ProductUnknown
  end.

Definition readiness_state_code (s : ProductReadinessState) : str :=
  match s with
  | ProductReady => lit "READY" | ProductNotReady => lit "NOT_READY" | ProductDegraded => lit "DEGRADED"
  | ProductUnknown => lit "UNKNOWN"
  end.

Definition readiness_probe_state_code (s : ProductReadinessState) : str :=
  match s with
  | ProductReady => lit "SUCCEEDED" | ProductDegraded => lit "FAILED" | ProductNotReady => lit "BLOCKED"
  | ProductUnknown => lit "NOT_OBSERVED"
  end.

Definition cellular_admission_state_code (s : CellularAdmissionStateView) : str :=
  match s with
  | VUnknown => lit "UNKNOWN" | VNotAdmitted => lit "NOT_ADMITTED" | VAdmitted => lit "ADMITTED"
  end.

Definition cellular_admission_reason_code (r : CellularAdmissionReasonView) : str :=
  match r with
  | VNoObservation => lit "NO_OBSERVATION" | VNotCellular => lit "NOT_CELLULAR"
  | VMissingInternetCapability => lit "MISSING_INTERNET_CAPABILITY" | VVpnDerivedNetwork => lit "VPN_DERIVED_NETWORK"
  | VNotValidated => lit "NOT_VALIDATED" | VNetworkLost => lit "NETWORK_LOST"
  end.

Definition proxy_state_code (s : ProxyServingStateView) : str :=
  match s with
  | VServingStopped => lit "STOPPED" | VServingStarting => lit "STARTING" | VServingRunning => lit "RUNNING"
  | VServingFailed => lit "FAILED"
  end.

Definition proxy_failure_code (f : ProxyServingFailureView) : str :=
  match f with
  | VNativeRuntimeMissing => lit "NATIVE_RUNTIME_MISSING"
  | VExternalCredentialUnavailable => lit "EXTERNAL_CREDENTIAL_UNAVAILABLE"
  | VCellularConnectorUnavailable => lit "CELLULAR_CONNECTOR_UNAVAILABLE"
  | VProxyConfigurationRejected => lit "PROXY_CONFIGURATION_REJECTED"
  | VMixedListenerUnavailable => lit "MIXED_LISTENER_UNAVAILABLE"
  | VSocks5ListenerUnavailable => lit "SOCKS5_LISTENER_UNAVAILABLE"
  | VHttpConnectListenerUnavailable => lit "HTTP_CONNECT_LISTENER_UNAVAILABLE"
  | VExecutorUnavailable => lit "EXECUTOR_UNAVAILABLE" | VRuntimeStateUnavailable => lit "RUNTIME_STATE_UNAVAILABLE"
  | VServingUnhealthy => lit "SERVING_UNHEALTHY" | VShutdownFailed => lit "SHUTDOWN_FAILED"
  end.

Definition mesh_state_code (s : MeshAdmissionStateView) : str :=
  match s with
  | VMeshNotAdmitted => lit "NOT_ADMITTED" | VMeshAdmitted => lit "ADMITTED"
  end.

Definition mesh_failure_code (failure : option MeshTransportError) : str :=
  match failure with
  | None => lit "NONE"
  | Some failure =>
      match map_transport_error failure with
      | BIngressBindFailed => lit "BIND_FAILED"
      | BIngressShutdownFailed => lit "SHUTDOWN_FAILED"
      | BIngressUnavailable => lit "UNAVAILABLE"
      | BOwnerUnavailable => lit "OWNER_UNAVAILABLE"
      | _ => lit "OTHER"
      end
  end.

Inductive RotationPhaseView :=
| VPhaseIdle | VPhasePreparing | VPhaseDataDisabling | VPhaseWaitingCellularLoss | VPhaseDataEnabling
| VPhaseWaitingCellularRecovery | VPhaseWaitingRootPolicy | VPhaseProbingPublicIp | VPhaseChanged | VPhaseUnchanged
| VPhaseFailed.

Definition map_rotation_phase (p : RotationPhase) : RotationPhaseView :=
  match p with
  | Rotation.Idle => VPhaseIdle | Rotation.Preparing => VPhasePreparing | Rotation.DataDisabling => VPhaseDataDisabling
  | Rotation.WaitingCellularLoss => VPhaseWaitingCellularLoss | Rotation.DataEnabling => VPhaseDataEnabling
  | Rotation.WaitingCellularRecovery => VPhaseWaitingCellularRecovery
  | Rotation.WaitingRootPolicy => VPhaseWaitingRootPolicy | Rotation.ProbingPublicIp => VPhaseProbingPublicIp
  | Rotation.PhaseChanged => VPhaseChanged | Rotation.PhaseUnchanged => VPhaseUnchanged
  | Rotation.PhaseFailed => VPhaseFailed
  end.

Definition rotation_phase_code (p : RotationPhase) : str :=
  match p with
  | Rotation.Idle => lit "IDLE" | Rotation.Preparing => lit "PREPARING"
  | Rotation.DataDisabling => lit "DATA_DISABLING" | Rotation.WaitingCellularLoss => lit "WAITING_CELLULAR_LOSS"
  | Rotation.DataEnabling => lit "DATA_ENABLING" | Rotation.WaitingCellularRecovery => lit "WAITING_CELLULAR_RECOVERY"
  | Rotation.WaitingRootPolicy => lit "WAITING_ROOT_POLICY" | Rotation.ProbingPublicIp => lit "PROBING_PUBLIC_IP"
  | Rotation.PhaseChanged => lit "CHANGED" | Rotation.PhaseUnchanged => lit "UNCHANGED"
  | Rotation.PhaseFailed => lit "FAILED"
  end.

Inductive RotationTerminalResultView := VChanged | VUnchanged | VFailed.

Definition map_rotation_terminal (r : RotationTerminalResult) : RotationTerminalResultView :=
  match r with
  | Rotation.Changed => VChanged | Rotation.Unchanged => VUnchanged | Rotation.Failed => VFailed
  end.

Definition rotation_terminal_code (r : RotationTerminalResult) : str :=
  match r with
  | Rotation.Changed => lit "CHANGED" | Rotation.Unchanged => lit "UNCHANGED" | Rotation.Failed => lit "FAILED"
  end.

Inductive RotationFailureView :=
| VRotationRuntimeNotRunning | VRotationNoCurrentCellular | VRotationRootPolicyUnavailable | VRotationBeforeIpFailed
| VRotationDataDisableFailed | VRotationMobileDataObservationFailed | VRotationDataEnableFailed
| VRotationFreshCellularUnavailable | VRotationRootPolicyRecoveryFailed | VRotationAfterIpFailed
| VRotationCredentialChanged | VRotationDeadlineExceeded | VRotationStateUnavailable.

Definition map_rotation_failure (f : RotationFailure) : RotationFailureView :=
  match f with
  | Rotation.RuntimeNotRunning => VRotationRuntimeNotRunning | Rotation.NoCurrentCellular => VRotationNoCurrentCellular
  | Rotation.RootPolicyUnavailable => VRotationRootPolicyUnavailable
  | Rotation.BeforeIpFailed => VRotationBeforeIpFailed | Rotation.DataDisableFailed => VRotationDataDisableFailed
  | Rotation.MobileDataObservationFailed => VRotationMobileDataObservationFailed
  | Rotation.DataEnableFailed => VRotationDataEnableFailed
  | Rotation.FreshCellularUnavailable => VRotationFreshCellularUnavailable
  | Rotation.RootPolicyRecoveryFailed => VRotationRootPolicyRecoveryFailed
  | Rotation.AfterIpFailed => VRotationAfterIpFailed | Rotation.CredentialChanged => VRotationCredentialChanged
  | Rotation.DeadlineExceeded => VRotationDeadlineExceeded
  | Rotation.FailureStateUnavailable => VRotationStateUnavailable
  end.

Definition rotation_failure_code (f : RotationFailure) : str :=
  match f with
  | Rotation.RuntimeNotRunning => lit "RUNTIME_NOT_RUNNING" | Rotation.NoCurrentCellular => lit "NO_CURRENT_CELLULAR"
  | Rotation.RootPolicyUnavailable => lit "ROOT_POLICY_UNAVAILABLE" | Rotation.BeforeIpFailed => lit "BEFORE_IP_FAILED"
  | Rotation.DataDisableFailed => lit "DATA_DISABLE_FAILED"
  | Rotation.MobileDataObservationFailed => lit "MOBILE_DATA_OBSERVATION_FAILED"
  | Rotation.DataEnableFailed => lit "DATA_ENABLE_FAILED"
  | Rotation.FreshCellularUnavailable => lit "FRESH_CELLULAR_UNAVAILABLE"
  | Rotation.RootPolicyRecoveryFailed => lit "ROOT_POLICY_RECOVERY_FAILED"
  | Rotation.AfterIpFailed => lit "AFTER_IP_FAILED" | Rotation.CredentialChanged => lit "CREDENTIAL_CHANGED"
  | Rotation.DeadlineExceeded => lit "DEADLINE_EXCEEDED" | Rotation.FailureStateUnavailable => lit "STATE_UNAVAILABLE"
  end.

Inductive RotationRestoreResultView :=
| VRestoreNotRequired | VRestoreAlreadyEnabled | VRestoreRestoredEnabled | VRestoreFailed | VRestoreUncertain.

Definition map_rotation_restore (r : RotationRestoreResult) : RotationRestoreResultView :=
  match r with
  | Rotation.NotRequired => VRestoreNotRequired | Rotation.AlreadyEnabled => VRestoreAlreadyEnabled
  | Rotation.RestoredEnabled => VRestoreRestoredEnabled | Rotation.RestoreFailed => VRestoreFailed
  | Rotation.RestoreUncertain => VRestoreUncertain
  end.

Definition rotation_restore_code (r : RotationRestoreResult) : str :=
  match r with
  | Rotation.NotRequired => lit "NOT_REQUIRED" | Rotation.AlreadyEnabled => lit "ALREADY_ENABLED"
  | Rotation.RestoredEnabled => lit "RESTORED_ENABLED" | Rotation.RestoreFailed => lit "FAILED"
  | Rotation.RestoreUncertain => lit "UNCERTAIN"
  end.

Record RotationSnapshotView := {
  rsv_operation_id : option Z; rsv_phase : RotationPhaseView; rsv_before_generation : option Z;
  rsv_after_generation : option Z; rsv_before_ip : option str; rsv_after_ip : option str; rsv_restore_required : bool;
  rsv_terminal_result : option RotationTerminalResultView; rsv_failure : option RotationFailureView;
  rsv_restore_result : option RotationRestoreResultView }.

Definition map_rotation_snapshot (s : RotationSnapshot) : RotationSnapshotView :=
  {| rsv_operation_id := snap_operation_id s; rsv_phase := map_rotation_phase (snap_phase s);
     rsv_before_generation := snap_before_generation s; rsv_after_generation := snap_after_generation s;
     rsv_before_ip := ip_display <$> snap_before_ip s; rsv_after_ip := ip_display <$> snap_after_ip s;
     rsv_restore_required := snap_restore_required s; rsv_terminal_result := map_rotation_terminal <$> snap_terminal_result s;
     rsv_failure := map_rotation_failure <$> snap_failure s; rsv_restore_result := map_rotation_restore <$> snap_restore_result s |}.

Inductive RootAuthorityStatusView :=
| VRootReady | VRootInteractiveGrantRequired | VRootDenied | VRootUnavailable | VRootIncomplete.

Definition map_authority_status (s : RootAuthorityStatus) : RootAuthorityStatusView :=
  match s with
  | RootPolicyRuntime.Ready => VRootReady | RootPolicyRuntime.InteractiveGrantRequired => VRootInteractiveGrantRequired
  | RootPolicyRuntime.Denied => VRootDenied | RootPolicyRuntime.Unavailable => VRootUnavailable
  | RootPolicyRuntime.Incomplete => VRootIncomplete
  end.

Inductive RootPolicyFailureView :=
| VPolicyInvalidInterface | VPolicyReservedPolicyCollision | VPolicyObservationUnavailable
| VPolicyObservationIncomplete | VPolicyStructuralMismatch | VPolicyRouteTableDiscoveryFailed
| VPolicyMutationRejected | VPolicyMutationUncertain | VPolicyLookupRuleCreationFailed
| VPolicyRouteLookupVerificationFailed | VPolicyExactCleanupFailed.

Definition map_policy_failure (f : RootPolicyFailure) : RootPolicyFailureView :=
  match f with
  | RootPolicyRuntime.InvalidInterface => VPolicyInvalidInterface
  | RootPolicyRuntime.ReservedPolicyCollision => VPolicyReservedPolicyCollision
  | RootPolicyRuntime.ObservationUnavailable => VPolicyObservationUnavailable
  | RootPolicyRuntime.ObservationIncomplete => VPolicyObservationIncomplete
  | RootPolicyRuntime.StructuralMismatch => VPolicyStructuralMismatch
  | RootPolicyRuntime.RouteTableDiscoveryFailed => VPolicyRouteTableDiscoveryFailed
  | RootPolicyRuntime.MutationRejected => VPolicyMutationRejected
  | RootPolicyRuntime.MutationUncertain => VPolicyMutationUncertain
  | RootPolicyRuntime.LookupRuleCreationFailed => VPolicyLookupRuleCreationFailed
  | RootPolicyRuntime.RouteLookupVerificationFailed => VPolicyRouteLookupVerificationFailed
  | RootPolicyRuntime.ExactCleanupFailed => VPolicyExactCleanupFailed
  end.

Definition policy_failure_code (f : RootPolicyFailure) : str :=
  match f with
  | RootPolicyRuntime.InvalidInterface => lit "INVALID_INTERFACE"
  | RootPolicyRuntime.ReservedPolicyCollision => lit "RESERVED_POLICY_COLLISION"
  | RootPolicyRuntime.ObservationUnavailable => lit "OBSERVATION_UNAVAILABLE"
  | RootPolicyRuntime.ObservationIncomplete => lit "OBSERVATION_INCOMPLETE"
  | RootPolicyRuntime.StructuralMismatch => lit "STRUCTURAL_MISMATCH"
  | RootPolicyRuntime.RouteTableDiscoveryFailed => lit "ROUTE_TABLE_DISCOVERY_FAILED"
  | RootPolicyRuntime.MutationRejected => lit "MUTATION_REJECTED"
  | RootPolicyRuntime.MutationUncertain => lit "MUTATION_UNCERTAIN"
  | RootPolicyRuntime.LookupRuleCreationFailed => lit "LOOKUP_RULE_CREATION_FAILED"
  | RootPolicyRuntime.RouteLookupVerificationFailed => lit "ROUTE_LOOKUP_VERIFICATION_FAILED"
  | RootPolicyRuntime.ExactCleanupFailed => lit "EXACT_CLEANUP_FAILED"
  end.

Definition authority_code (s : RootAuthorityStatus) : str :=
  match s with
  | RootPolicyRuntime.Ready => lit "AUTHORITY_READY"
  | RootPolicyRuntime.InteractiveGrantRequired => lit "AUTHORITY_INTERACTIVE_GRANT_REQUIRED"
  | RootPolicyRuntime.Denied => lit "AUTHORITY_DENIED" | RootPolicyRuntime.Unavailable => lit "AUTHORITY_UNAVAILABLE"
  | RootPolicyRuntime.Incomplete => lit "AUTHORITY_INCOMPLETE"
  end.

Definition root_failure_class (r : RootPolicyResult) : option str :=
  match r with
  | Enforced | FailClosed None => None
  | AuthorityUnavailable status => Some (authority_code status)
  | FailClosed (Some failure) => Some (policy_failure_code failure)
  end.

Definition policy_boundary_code (f : RootPolicyFailure) : str :=
  match f with
  | RootPolicyRuntime.InvalidInterface => lit "ROOT_POLICY_INVALID_INTERFACE"
  | RootPolicyRuntime.ReservedPolicyCollision => lit "ROOT_POLICY_RESERVED_POLICY_COLLISION"
  | RootPolicyRuntime.ObservationUnavailable => lit "ROOT_POLICY_OBSERVATION_UNAVAILABLE"
  | RootPolicyRuntime.ObservationIncomplete => lit "ROOT_POLICY_OBSERVATION_INCOMPLETE"
  | RootPolicyRuntime.StructuralMismatch => lit "ROOT_POLICY_STRUCTURAL_MISMATCH"
  | RootPolicyRuntime.RouteTableDiscoveryFailed => lit "ROOT_POLICY_ROUTE_TABLE_DISCOVERY_FAILED"
  | RootPolicyRuntime.MutationRejected => lit "ROOT_POLICY_MUTATION_REJECTED"
  | RootPolicyRuntime.MutationUncertain => lit "ROOT_POLICY_MUTATION_UNCERTAIN"
  | RootPolicyRuntime.LookupRuleCreationFailed => lit "ROOT_POLICY_LOOKUP_RULE_CREATION_FAILED"
  | RootPolicyRuntime.RouteLookupVerificationFailed => lit "ROOT_POLICY_ROUTE_LOOKUP_VERIFICATION_FAILED"
  | RootPolicyRuntime.ExactCleanupFailed => lit "ROOT_POLICY_EXACT_CLEANUP_FAILED"
  end.

Definition cellular_boundary_failure (r : option RootPolicyResult) : option str :=
  match r with
  | Some (AuthorityUnavailable _) => Some (lit "ROOT_AUTHORITY_UNAVAILABLE")
  | Some (FailClosed (Some failure)) => Some (policy_boundary_code failure)
  | _ => None
  end.

Inductive RootPolicyStateView := VEnforced | VFailClosed | VAuthorityUnavailable.

Record CellularPolicyPublicationView := {
  cpv_admission : CellularAdmissionView; cpv_state : RootPolicyStateView; cpv_failure : option RootPolicyFailureView;
  cpv_authority_status : option RootAuthorityStatusView }.

Definition map_policy_publication (p : CellularPolicyPublication) : CellularPolicyPublicationView :=
  let '(state, failure, authority_status) :=
    match publication_result p with
    | Enforced => (VEnforced, None, None)
    | FailClosed failure => (VFailClosed, map_policy_failure <$> failure, None)
    | AuthorityUnavailable status => (VAuthorityUnavailable, None, Some (map_authority_status status))
    end in
  {| cpv_admission := map_snapshot (publication_admission p); cpv_state := state; cpv_failure := failure;
     cpv_authority_status := authority_status |}.

Record ProxyRuntimePublicationView := {
  prv_state : ProxyServingStateView; prv_failure : option ProxyServingFailureView; prv_serving_generation : option Z;
  prv_credential_version : option Z; prv_recovery_pending : bool; prv_recovery_operation_id : Z;
  prv_recovery_attempts_since_success : Z; prv_recovery_next_delay_ms : Z }.

Definition unavailable_proxy_publication : ProxyRuntimePublicationView :=
  {| prv_state := VServingFailed; prv_failure := Some VRuntimeStateUnavailable; prv_serving_generation := None;
     prv_credential_version := None; prv_recovery_pending := false; prv_recovery_operation_id := 0;
     prv_recovery_attempts_since_success := 0; prv_recovery_next_delay_ms := 0 |}.

Definition proxy_state_view (s : ProxyServingState) : ProxyServingStateView :=
  match s with
  | ServingStopped => VServingStopped | ServingStarting => VServingStarting | ServingRunning => VServingRunning
  | ServingFailed => VServingFailed
  end.

Definition map_proxy_publication (p : ProxyRuntimePublication) : ProxyRuntimePublicationView :=
  {| prv_state := proxy_state_view (pub_state p); prv_failure := map_proxy_failure_out <$> pub_failure p;
     prv_serving_generation := pub_serving_generation p; prv_credential_version := pub_credential_version p;
     prv_recovery_pending := pub_recovery_pending p; prv_recovery_operation_id := pub_recovery_operation_id p;
     prv_recovery_attempts_since_success := pub_recovery_attempts_since_success p;
     prv_recovery_next_delay_ms := pub_recovery_next_delay_ms p |}.

Record ReadinessDiagnosticView := {
  rdv_state : ProductReadinessState; rdv_root_policy_verified : bool; rdv_proxy_healthy : bool; rdv_credential_active : bool;
  rdv_mesh_admitted : bool; rdv_binding_eligible : bool; rdv_probe_in_flight : bool; rdv_refresh_pending : bool }.

Definition map_readiness_diagnostic (s : ReadinessDiagnosticSnapshot) : ReadinessDiagnosticView :=
  {| rdv_state := map_readiness_state (diag_state s); rdv_root_policy_verified := diag_root_policy_verified s;
     rdv_proxy_healthy := diag_proxy_healthy s; rdv_credential_active := diag_credential_active s;
     rdv_mesh_admitted := diag_mesh_admitted s; rdv_binding_eligible := diag_binding_eligible s;
     rdv_probe_in_flight := diag_probe_in_flight s; rdv_refresh_pending := diag_refresh_pending s |}.

Record RuntimeLifecycleSnapshotView := {
  rlv_state : RuntimeLifecycleStateView; rlv_generation : Z; rlv_generation_requires_replacement : bool }.

Definition map_runtime_snapshot (s : ProductRuntimeSnapshot) : RuntimeLifecycleSnapshotView :=
  {| rlv_state := map_lifecycle_state (snap_state s); rlv_generation := snap_generation s;
     rlv_generation_requires_replacement := snap_requires_replacement s |}.

Record CellularReconcileDiagnosticView := {
  crv_requested : Z; crv_executed : Z; crv_coalesced : Z; crv_pending : bool; crv_drain_scheduled : bool;
  crv_last_owner_sequence : option Z; crv_last_dequeue_wait_ms : Z; crv_max_dequeue_wait_ms : Z;
  crv_last_quiesce_wait_ms : Z; crv_max_quiesce_wait_ms : Z; crv_stale_after_reconcile : Z;
  crv_superseded_during_reconcile : Z }.

Definition map_reconcile_diagnostic (d : CellularReconcileDiagnostic) : CellularReconcileDiagnosticView :=
  {| crv_requested := rec_requested d; crv_executed := rec_executed d; crv_coalesced := rec_coalesced d;
     crv_pending := rec_pending d; crv_drain_scheduled := rec_drain_scheduled d;
     crv_last_owner_sequence := rec_last_owner_sequence d; crv_last_dequeue_wait_ms := rec_last_dequeue_wait_ms d;
     crv_max_dequeue_wait_ms := rec_max_dequeue_wait_ms d; crv_last_quiesce_wait_ms := rec_last_quiesce_wait_ms d;
     crv_max_quiesce_wait_ms := rec_max_quiesce_wait_ms d;
     crv_stale_after_reconcile := rec_stale_after_reconcile d;
     crv_superseded_during_reconcile := rec_superseded_during_reconcile d |}.

Record RootRecoveryDiagnosticView := { rrv_pending : bool; rrv_attempts_since_reset : Z; rrv_next_delay_ms : Z }.

Definition map_recovery_diagnostic (d : RootRecoveryDiagnostic) : RootRecoveryDiagnosticView :=
  {| rrv_pending := recovery_is_pending d; rrv_attempts_since_reset := attempts_since_reset d; rrv_next_delay_ms := next_delay_ms d |}.

Record RootPolicyPhaseDiagnosticView := {
  ppv_elapsed_ms : Z; ppv_commands : Z; ppv_observation_commands : Z; ppv_mutation_commands : Z;
  ppv_duplicate_observations : Z }.

Definition map_root_policy_phase_diagnostic (d : RootPolicyPhaseDiagnostic) : RootPolicyPhaseDiagnosticView :=
  {| ppv_elapsed_ms := ph_elapsed_ms d; ppv_commands := ph_commands d;
     ppv_observation_commands := ph_observation_commands d; ppv_mutation_commands := ph_mutation_commands d;
     ppv_duplicate_observations := ph_duplicate_observations d |}.

Record RootPolicyPhaseDiagnosticsView := {
  psv_initial_snapshot : RootPolicyPhaseDiagnosticView; psv_fail_closed_prepare : RootPolicyPhaseDiagnosticView;
  psv_fail_closed_verify : RootPolicyPhaseDiagnosticView; psv_table_discovery : RootPolicyPhaseDiagnosticView;
  psv_admitted_apply_verify : RootPolicyPhaseDiagnosticView }.

Definition map_root_policy_phases (p : RootPolicyPhaseDiagnostics) : RootPolicyPhaseDiagnosticsView :=
  {| psv_initial_snapshot := map_root_policy_phase_diagnostic (initial_snapshot p);
     psv_fail_closed_prepare := map_root_policy_phase_diagnostic (fail_closed_prepare p);
     psv_fail_closed_verify := map_root_policy_phase_diagnostic (fail_closed_verify p);
     psv_table_discovery := map_root_policy_phase_diagnostic (table_discovery p);
     psv_admitted_apply_verify := map_root_policy_phase_diagnostic (admitted_apply_verify p) |}.

Record RootPolicyReconcileDiagnosticView := {
  rpv_attempts : Z; rpv_total_executor_commands : Z; rpv_total_observation_commands : Z;
  rpv_total_mutation_commands : Z; rpv_total_duplicate_observations : Z; rpv_last_reconcile_elapsed_ms : Z;
  rpv_max_reconcile_elapsed_ms : Z; rpv_last_policy_effect_elapsed_ms : Z; rpv_max_policy_effect_elapsed_ms : Z;
  rpv_last_executor_commands : Z; rpv_last_observation_commands : Z; rpv_last_mutation_commands : Z;
  rpv_last_duplicate_observations : Z; rpv_last_incomplete_or_timed_out_commands : Z; rpv_last_mutation_failures : Z;
  rpv_last_phases : RootPolicyPhaseDiagnosticsView }.

Definition map_root_policy_diagnostic (d : RootPolicyReconcileDiagnostic) : RootPolicyReconcileDiagnosticView :=
  {| rpv_attempts := RootPolicyRuntime.attempts d;
     rpv_total_executor_commands := RootPolicyRuntime.total_executor_commands d;
     rpv_total_observation_commands := RootPolicyRuntime.total_observation_commands d;
     rpv_total_mutation_commands := RootPolicyRuntime.total_mutation_commands d;
     rpv_total_duplicate_observations := RootPolicyRuntime.total_duplicate_observations d;
     rpv_last_reconcile_elapsed_ms := RootPolicyRuntime.last_reconcile_elapsed_ms d;
     rpv_max_reconcile_elapsed_ms := RootPolicyRuntime.max_reconcile_elapsed_ms d;
     rpv_last_policy_effect_elapsed_ms := RootPolicyRuntime.last_policy_effect_elapsed_ms d;
     rpv_max_policy_effect_elapsed_ms := RootPolicyRuntime.max_policy_effect_elapsed_ms d;
     rpv_last_executor_commands := RootPolicyRuntime.last_executor_commands d;
     rpv_last_observation_commands := RootPolicyRuntime.last_observation_commands d;
     rpv_last_mutation_commands := RootPolicyRuntime.last_mutation_commands d;
     rpv_last_duplicate_observations := RootPolicyRuntime.last_duplicate_observations d;
     rpv_last_incomplete_or_timed_out_commands := RootPolicyRuntime.last_incomplete_or_timed_out_commands d;
     rpv_last_mutation_failures := RootPolicyRuntime.last_mutation_failures d;
     rpv_last_phases := map_root_policy_phases (last_phases d) |}.

(** ** Nothing is lost *)

Lemma admission_view_inj : Inj (=) (=) map_snapshot.
Proof.
  intros [s r n q] [s' r' n' q']. unfold map_snapshot. cbn. intros [= Hs Hr -> ->].
  f_equal; [by destruct s, s'|]. destruct r as [[]|], r' as [[]|]; done.
Qed.

Lemma policy_failure_inj : Inj (=) (=) map_policy_failure.
Proof. by intros [] []. Qed.

Lemma proxy_failure_inj : Inj (=) (=) map_proxy_failure_out.
Proof. by intros [] []. Qed.

Lemma ipv4_display_inj a b : in_width u32_max a -> in_width u32_max b -> ipv4_display a = ipv4_display b -> a = b.
Proof.
  unfold in_width. intros Ha Hb E. apply (f_equal parse_ip) in E. rewrite !parse_ip_display in E by done. by injection E.
Qed.

Lemma endpoint_inj x y :
  (forall a, x = Some a -> in_width u32_max a) -> (forall a, y = Some a -> in_width u32_max a) ->
  ipv4_display <$> x = ipv4_display <$> y -> x = y.
Proof.
  intros Hx Hy E. destruct x as [a|], y as [b|]; try discriminate E; [|reflexivity]. apply (f_equal (default [])) in E.
  change (ipv4_display a = ipv4_display b) in E. f_equal. by apply ipv4_display_inj; [apply Hx|apply Hy|].
Qed.

Lemma fmap_view_inj {A B} (f : A -> B) (x y : option A) : Inj (=) (=) f -> f <$> x = f <$> y -> x = y.
Proof. intros Hf. apply option_fmap_eq_inj, Hf. Qed.

(** Two codes are the same or are not. *)
Ltac apart := first [reflexivity | intros H; vm_compute in H; discriminate H | intros ? H; first [reflexivity | vm_compute in H; discriminate H]].

(** Android hears everything that the owners publish.  Publications of the root policy, of
    the proxy and of the mesh are told apart by their views whenever they differ, whatever
    the failure they carry; and no two reasons of failure share a code. *)
Theorem publications_told_apart :
  (forall p q, map_policy_publication p = map_policy_publication q -> p = q) /\
  (forall p q, map_proxy_publication p = map_proxy_publication q -> p = q) /\
  (forall s s', (forall a, admitted_endpoint (ts_admission s) = Some a -> in_width u32_max a) ->
     (forall a, admitted_endpoint (ts_admission s') = Some a -> in_width u32_max a) -> map_view s = map_view s' -> s = s') /\
  (forall r r' c, root_failure_class r = Some c -> root_failure_class r' = Some c -> r = r') /\
  (forall f f', proxy_failure_code (map_proxy_failure_out f) = proxy_failure_code (map_proxy_failure_out f') -> f = f') /\
  (forall f f', rotation_failure_code f = rotation_failure_code f' -> f = f').
Proof.
  split_and!.
  - intros [a r] [a' r'] E. unfold map_policy_publication in E. cbn in E.
    destruct r as [|f|s], r' as [|f'|s']; cbn in E; try discriminate E; apply (f_equal cpv_admission) in E as Ea; cbn in Ea;
      apply admission_view_inj in Ea as ->; [done| |].
    + apply (f_equal cpv_failure) in E. cbn in E. by apply (fmap_view_inj _ _ _ policy_failure_inj) in E as ->.
    + apply (f_equal cpv_authority_status) in E. cbn in E. by destruct s, s'.
  - intros [] []. unfold map_proxy_publication. cbn. intros [= Es Ef -> -> -> -> -> ->].
    apply (fmap_view_inj _ _ _ proxy_failure_inj) in Ef as ->. f_equal. by destruct pub_state, pub_state0.
  - intros [[st r e ep q] run act rej] [[st' r' e' ep' q'] run' act' rej'] He He'. unfold map_view. cbn in *.
    intros [= Es Er Ee -> -> -> -> ->]. apply (endpoint_inj _ _ He He') in Ee as ->.
    f_equal. f_equal; [by destruct st, st'|]. destruct r as [[]|], r' as [[]|]; done.
  - intros r r' c Hr Hr'. assert (root_failure_class r = root_failure_class r') as E by congruence. clear Hr'. revert Hr E.
    destruct r as [|[[]|]|[]], r' as [|[[]|]|[]]; apart.
  - intros [] []; apart.
  - intros [] []; apart.
Qed.
