(* ===== verification/ControlTiming.v ===== *)
(** * Timing evidence of a remote command

    [ControlRuntimeCoordinator::snapshot] of
    [src/crates/runtime/src/control_runtime.rs], which joins the evidence of a remote
    command with that of the rotation it started, and its projections in
    [src/crates/android-ffi/src/product_runtime_ffi.rs].  The marks themselves are
    written by the critical sections of [ControlRuntime]. *)

From Stdlib Require Import String.
From S2P Require Import Prelude Net RustStr ProxyAuth Cellular RootSession Interaction Threads RootPolicyRuntime Control ControlTransport.
From S2P Require Import Rotation RotationRuntime RotationTiming ControlRuntime.

(** ** The snapshot *)

(** [ControlOperationTiming::snapshot_at]. *)
Definition operation_snapshot_at (now : Z) (rotation : RotationRuntimeTimingSnapshot) (t : ControlOperationTiming)
    : ControlOperationTimingSnapshot :=
  let e := ControlRuntime.timing_snapshot t in
  let age := ControlRuntime.elapsed_ms_since now (ControlRuntime.origin t) in
  {| ct_operation_id := ct_operation_id e; ct_operation_age_ms := Some age; operation_reserved_ms := operation_reserved_ms e;
     accepted_sent_ms := accepted_sent_ms e; reconnect_started_ms := reconnect_started_ms e; reconnect_ready_ms := reconnect_ready_ms e;
     rotation_terminal_control_state := rotation_terminal_control_state e;
     post_terminal_connect_started_ms := post_terminal_connect_started_ms e;
     post_terminal_connect_attempts := post_terminal_connect_attempts e;
     post_terminal_transport_connected_ms := post_terminal_transport_connected_ms e;
     post_terminal_transport_connections := post_terminal_transport_connections e;
     rotation_terminal_ms := rotation_terminal_ms e; result_sent_ms := result_sent_ms e; result_ack_ms := result_ack_ms e;
     rotation_origin_from_command_ms :=
       if ct_operation_id e =b? rt_operation_id rotation then
         match rt_operation_age_ms rotation with Some rotation_age => if rotation_age <=? age then Some (age - rotation_age) else None | None => None end
       else rotation_origin_from_command_ms e |}.

Record ControlRuntimeSnapshot := {
  cs_state : ControlSessionState;
  cs_reconnect_attempts : Z;
  cs_reconnect_count : Z;
  cs_next_delay_ms : Z;
  cs_session_age_ms : option Z;
  cs_application_heartbeat_count : Z;
  cs_payload_tx_bytes : Z;
  cs_payload_rx_bytes : Z;
  cs_last_tx_age_ms : option Z;
  cs_last_rx_age_ms : option Z;
  cs_pending_operation : bool;
  cs_pending_operation_id : option Z;
  cs_last_terminal_result : option RemoteRotationResult;
  cs_operation_timing : ControlOperationTimingSnapshot;
  cs_rotation_timing : RotationRuntimeTimingSnapshot }.

(** The pending operation, or else the last one that was acknowledged. *)
Definition shown_operation (s : ControlState) : option PendingRemoteOperation :=
  match pending s with Some p => Some p | None => head (recent_terminal s) end.

Definition control_snapshot (s : ControlState) (now : Z) (rotation_timing : RotationRuntimeTimingSnapshot) : ControlRuntimeSnapshot :=
  let age (at_ : Z) := ControlRuntime.elapsed_ms_since now at_ in
  {| cs_state := session_state s; cs_reconnect_attempts := reconnect_attempts s; cs_reconnect_count := reconnect_count s;
     cs_next_delay_ms := next_delay_ms s; cs_session_age_ms := option_map age (session_ready_at s);
     cs_application_heartbeat_count := application_heartbeat_count s; cs_payload_tx_bytes := payload_tx_bytes s;
     cs_payload_rx_bytes := payload_rx_bytes s; cs_last_tx_age_ms := option_map age (last_tx_at s);
     cs_last_rx_age_ms := option_map age (last_rx_at s); cs_pending_operation := is_some (pending s);
     cs_pending_operation_id := match pending s with Some p => ControlRuntime.operation_id p | None => None end;
     cs_last_terminal_result := last_terminal_result s;
     cs_operation_timing :=
       match shown_operation s with
       | Some p => operation_snapshot_at now rotation_timing (ControlRuntime.timing p)
       | None => timing_default
       end;
     cs_rotation_timing := rotation_timing |}.

(** ** Views *)

Inductive ControlSessionStateView := ViewStopped | ViewConnecting | ViewAuthenticating | ViewReady | ViewBackoff.

Inductive RemoteRotationResultView := ViewChanged | ViewUnchanged | ViewFailed | ViewRejected.

Record ControlOperationTimingView := {
  cov_operation_id : option Z; cov_operation_age_ms : option Z; cov_operation_reserved_ms : option Z;
  cov_accepted_sent_ms : option Z; cov_reconnect_started_ms : option Z; cov_reconnect_ready_ms : option Z;
  cov_rotation_terminal_control_state : option ControlSessionStateView;
  cov_post_terminal_connect_started_ms : option Z; cov_post_terminal_connect_attempts : Z;
  cov_post_terminal_transport_connected_ms : option Z; cov_post_terminal_transport_connections : Z;
  cov_rotation_terminal_ms : option Z; cov_result_sent_ms : option Z; cov_result_ack_ms : option Z;
  cov_rotation_origin_from_command_ms : option Z }.

Record RotationRuntimeTimingView := {
  rov_operation_id : option Z; rov_operation_age_ms : option Z; rov_activated_ms : option Z;
  rov_pre_rotation_probe_started_ms : option Z; rov_pre_rotation_probe_completed_ms : option Z;
  rov_mobile_data_precondition_observed_ms : option Z; rov_mobile_data_precondition_enabled : option bool;
  rov_data_disable_started_ms : option Z; rov_data_disable_effect_completed_ms : option Z;
  rov_cellular_loss_observed_ms : option Z; rov_data_enable_started_ms : option Z;
  rov_data_enable_effect_completed_ms : option Z; rov_fresh_cellular_observed_ms : option Z;
  rov_fresh_cellular_generation : option Z; rov_root_authorized_ms : option Z;
  rov_root_authorized_generation : option Z; rov_post_rotation_probe_started_ms : option Z;
  rov_post_rotation_probe_completed_ms : option Z; rov_terminal_ms : option Z; rov_restore_completed_ms : option Z }.

Record ControlRuntimeSnapshotView := {
  csv_state : ControlSessionStateView; csv_reconnect_attempts : Z; csv_reconnect_count : Z; csv_next_delay_ms : Z;
  csv_session_age_ms : option Z; csv_application_heartbeat_count : Z; csv_payload_tx_bytes : Z;
  csv_payload_rx_bytes : Z; csv_last_tx_age_ms : option Z; csv_last_rx_age_ms : option Z;
  csv_pending_operation : bool; csv_pending_operation_id : option Z;
  csv_last_terminal_result : option RemoteRotationResultView; csv_operation_timing : ControlOperationTimingView;
  csv_rotation_timing : RotationRuntimeTimingView }.

(** The [match] that [map_control_snapshot] and [map_control_operation_timing] share. *)
Definition session_state_view (s : ControlSessionState) : ControlSessionStateView :=
  match s with
  | SessionStopped => ViewStopped
  | Connecting => ViewConnecting
  | Authenticating => ViewAuthenticating
  | SessionReady => ViewReady
  | Backoff => ViewBackoff
  end.

Definition remote_result_view (r : RemoteRotationResult) : RemoteRotationResultView :=
  match r with
  | Control.Changed => ViewChanged
  | Control.Unchanged => ViewUnchanged
  | FailedRotation => ViewFailed
  | RejectedRotation => ViewRejected
  end.

Definition map_control_operation_timing (t : ControlOperationTimingSnapshot) : ControlOperationTimingView :=
  {| cov_operation_id := ct_operation_id t; cov_operation_age_ms := ct_operation_age_ms t;
     cov_operation_reserved_ms := operation_reserved_ms t; cov_accepted_sent_ms := accepted_sent_ms t;
     cov_reconnect_started_ms := reconnect_started_ms t; cov_reconnect_ready_ms := reconnect_ready_ms t;
     cov_rotation_terminal_control_state := option_map session_state_view (rotation_terminal_control_state t);
     cov_post_terminal_connect_started_ms := post_terminal_connect_started_ms t;
     cov_post_terminal_connect_attempts := post_terminal_connect_attempts t;
     cov_post_terminal_transport_connected_ms := post_terminal_transport_connected_ms t;
     cov_post_terminal_transport_connections := post_terminal_transport_connections t;
     cov_rotation_terminal_ms := rotation_terminal_ms t; cov_result_sent_ms := result_sent_ms t;
     cov_result_ack_ms := result_ack_ms t; cov_rotation_origin_from_command_ms := rotation_origin_from_command_ms t |}.

Definition map_rotation_runtime_timing (t : RotationRuntimeTimingSnapshot) : RotationRuntimeTimingView :=
  {| rov_operation_id := rt_operation_id t; rov_operation_age_ms := rt_operation_age_ms t;
     rov_activated_ms := activated_ms t; rov_pre_rotation_probe_started_ms := pre_rotation_probe_started_ms t;
     rov_pre_rotation_probe_completed_ms := pre_rotation_probe_completed_ms t;
     rov_mobile_data_precondition_observed_ms := mobile_data_precondition_observed_ms t;
     rov_mobile_data_precondition_enabled := mobile_data_precondition_enabled t;
     rov_data_disable_started_ms := data_disable_started_ms t;
     rov_data_disable_effect_completed_ms := data_disable_effect_completed_ms t;
     rov_cellular_loss_observed_ms := cellular_loss_observed_ms t;
     rov_data_enable_started_ms := data_enable_started_ms t;
     rov_data_enable_effect_completed_ms := data_enable_effect_completed_ms t;
     rov_fresh_cellular_observed_ms := fresh_cellular_observed_ms t;
     rov_fresh_cellular_generation := rt_fresh_cellular_generation t; rov_root_authorized_ms := root_authorized_ms t;
     rov_root_authorized_generation := rt_root_authorized_generation t;
     rov_post_rotation_probe_started_ms := post_rotation_probe_started_ms t;
     rov_post_rotation_probe_completed_ms := post_rotation_probe_completed_ms t; rov_terminal_ms := terminal_ms t;
     rov_restore_completed_ms := restore_completed_ms t |}.

Definition map_control_snapshot (s : ControlRuntimeSnapshot) : ControlRuntimeSnapshotView :=
  {| csv_state := session_state_view (cs_state s); csv_reconnect_attempts := cs_reconnect_attempts s;
     csv_reconnect_count := cs_reconnect_count s; csv_next_delay_ms := cs_next_delay_ms s;
     csv_session_age_ms := cs_session_age_ms s; csv_application_heartbeat_count := cs_application_heartbeat_count s;
     csv_payload_tx_bytes := cs_payload_tx_bytes s; csv_payload_rx_bytes := cs_payload_rx_bytes s;
     csv_last_tx_age_ms := cs_last_tx_age_ms s; csv_last_rx_age_ms := cs_last_rx_age_ms s;
     csv_pending_operation := cs_pending_operation s; csv_pending_operation_id := cs_pending_operation_id s;
     csv_last_terminal_result := option_map remote_result_view (cs_last_terminal_result s);
     csv_operation_timing := map_control_operation_timing (cs_operation_timing s);
     csv_rotation_timing := map_rotation_runtime_timing (cs_rotation_timing s) |}.

Lemma session_state_view_inj : Inj (=) (=) session_state_view.
Proof. by intros [] []. Qed.

Lemma remote_result_view_inj : Inj (=) (=) remote_result_view.
Proof. by intros [] []. Qed.

(** Nothing is lost on the way out. *)
Lemma control_view_inj : Inj (=) (=) map_control_snapshot.
Proof.
  intros [? ? ? ? ? ? ? ? ? ? ? ? r [] []] [? ? ? ? ? ? ? ? ? ? ? ? r' [] []]. unfold map_control_snapshot, map_control_operation_timing,
    map_rotation_runtime_timing. cbn. intros E. injection E as Hs. simplify_eq. apply session_state_view_inj in Hs as ->.
  repeat match goal with
  | H : option_map session_state_view _ = option_map session_state_view _ |- _ => apply (option_fmap_eq_inj _ session_state_view_inj) in H as ->
  | H : option_map remote_result_view _ = option_map remote_result_view _ |- _ => apply (option_fmap_eq_inj _ remote_result_view_inj) in H as ->
  end. done.
Qed.

(** ** The evidence of an entry *)

Inductive cslot :=
| KReserved | KAccepted | KReconnectStarted | KReconnectReady | KPostConnect | KPostConnected | KTerminal | KResultSent | KAck.

#[export] Instance cslot_eq_dec : EqDecision cslot.
Proof. solve_decision. Defined.

Definition ctime_of (k : cslot) (e : ControlOperationTimingSnapshot) : option Z :=
  match k with
  | KReserved => operation_reserved_ms e
  | KAccepted => accepted_sent_ms e
  | KReconnectStarted => reconnect_started_ms e
  | KReconnectReady => reconnect_ready_ms e
  | KPostConnect => post_terminal_connect_started_ms e
  | KPostConnected => post_terminal_transport_connected_ms e
  | KTerminal => rotation_terminal_ms e
  | KResultSent => result_sent_ms e
  | KAck => result_ack_ms e
  end.

Definition cslot_of (m : control_mark) : cslot :=
  match m with
  | MarkReserved => KReserved
  | MarkAcceptedSent => KAccepted
  | MarkResultSent => KResultSent
  | MarkResultAck => KAck
  | MarkReconnectStarted => KReconnectStarted
  | MarkReconnectReady => KReconnectReady
  | MarkRotationTerminal _ => KTerminal
  | MarkConnectAttempt => KPostConnect
  | MarkTransportConnected => KPostConnected
  end.

Lemma cwrite_time m ms e k :
  ctime_of k (ControlRuntime.write_mark m ms e) =
    if decide (cslot_of m = k) then set_timing_once (ctime_of k e) ms else ctime_of k e.
Proof. by destruct k, m. Qed.

Lemma cwrite_cases m ms e k v : ctime_of k (ControlRuntime.write_mark m ms e) = Some v ->
  ctime_of k e = Some v \/ cslot_of m = k /\ v = ms /\ ctime_of k e = None.
Proof.
  rewrite cwrite_time. destruct (decide _) as [->|]; [|by left]. destruct (ctime_of k e); cbn [set_timing_once]; [by left|].
  intros [= <-]. by right.
Qed.

Lemma cwrite_keeps m ms e k v : ctime_of k e = Some v -> ctime_of k (ControlRuntime.write_mark m ms e) = Some v.
Proof. intros Hk. rewrite cwrite_time, Hk. by destruct (decide _). Qed.

(** Slots that a section writes only behind a result. *)
Definition behind_result (k : cslot) : bool := match k with KPostConnect | KPostConnected | KAck => true | _ => false end.

Abbreviation proof_of p := (ControlRuntime.timing_snapshot (ControlRuntime.timing p)).
Abbreviation began p := (ControlRuntime.origin (ControlRuntime.timing p)).

Record entry_ok (last : Z) (p : PendingRemoteOperation) : Prop := {
  en_operation : is_Some (ControlRuntime.operation_id p) /\ ct_operation_id (proof_of p) = ControlRuntime.operation_id p;
  en_times : forall k v, ctime_of k (proof_of p) = Some v -> v <= ControlRuntime.elapsed_ms_since last (began p);
  en_reserved : exists r, operation_reserved_ms (proof_of p) = Some r /\ forall k v, ctime_of k (proof_of p) = Some v -> r <= v;
  en_reconnect : forall v, reconnect_ready_ms (proof_of p) = Some v -> exists u, reconnect_started_ms (proof_of p) = Some u /\ u <= v;
  en_open : result_ p = None -> rotation_terminal_ms (proof_of p) = None /\
    forall k, behind_result k = true -> ctime_of k (proof_of p) = None;
  en_terminal : forall k u v, behind_result k = true -> rotation_terminal_ms (proof_of p) = Some u -> ctime_of k (proof_of p) = Some v -> u <= v;
  en_state : is_some (rotation_terminal_control_state (proof_of p)) = is_some (rotation_terminal_ms (proof_of p));
  en_attempts : 0 <= post_terminal_connect_attempts (proof_of p) /\ 0 <= post_terminal_transport_connections (proof_of p);
  en_counted : is_some (post_terminal_connect_started_ms (proof_of p)) = (0 <? post_terminal_connect_attempts (proof_of p)) /\
    is_some (post_terminal_transport_connected_ms (proof_of p)) = (0 <? post_terminal_transport_connections (proof_of p)) }.

(** What a section has checked when it marks an entry and leaves it with the result [r]. *)
Definition cguarded (m : control_mark) (p : PendingRemoteOperation) (r : option RemoteRotationResult) : Prop :=
  (r = None -> result_ p = None) /\
  match m with
  | MarkReserved => False
  | MarkRotationTerminal _ => result_ p = None /\ is_Some r
  | MarkConnectAttempt | MarkTransportConnected | MarkResultAck => is_Some r
  | MarkReconnectReady => is_Some (reconnect_started_ms (proof_of p))
  | _ => True
  end.

Lemma elapsed_mono last now origin :
  last <= now -> ControlRuntime.elapsed_ms_since last origin <= ControlRuntime.elapsed_ms_since now origin.
Proof. apply elapsed_ms_mono. Qed.

Lemma entry_later last now p : last <= now -> entry_ok last p -> entry_ok now p.
Proof. intros Hl []. split; try done. intros k v Hk. etrans; [by eapply en_times0|by apply elapsed_mono]. Qed.

(** A result without a mark. *)
Lemma entry_result last p r : entry_ok last p -> entry_ok last (set_result p r (ControlRuntime.timing p)).
Proof. intros []. by split. Qed.

Lemma entry_mark last now p i m r :
  last <= now -> ControlRuntime.operation_id p = Some i -> cguarded m p r -> entry_ok last p ->
  entry_ok now {| request_id := request_id p; ControlRuntime.operation_id := ControlRuntime.operation_id p; result_ := r;
                  ControlRuntime.timing := ControlRuntime.mark i m now (ControlRuntime.timing p) |}.
Proof.
  intros Hl Hi [Hr Hg] []. destruct en_operation0 as [Hsome Hop]. unfold ControlRuntime.mark. rewrite Hop, Hi, bool_decide_eq_true_2 by done.
  cbn [negb]. set (ms := ControlRuntime.elapsed_ms_since now (began p)). pose proof (cwrite_time m ms (proof_of p)) as Hw.
  assert (forall k v, ctime_of k (proof_of p) = Some v -> v <= ms) as Hms.
  { intros k v Hk. etrans; [by eapply en_times0|by apply elapsed_mono]. }
  pose proof (cwrite_cases m ms (proof_of p)) as Hcase. pose proof (cwrite_keeps m ms (proof_of p)) as Hkeep.
  split; cbn [ControlRuntime.timing ControlRuntime.timing_snapshot ControlRuntime.origin ControlRuntime.operation_id result_].
  - split; [done|]. cbn. by rewrite Hop, Hi.
  - intros k v Hk. destruct (Hcase k v Hk) as [H|(_ & -> & _)]; [by eapply Hms|reflexivity].
  - destruct en_reserved0 as (r0 & Hr0 & Hmin). exists r0. split; [by apply (Hkeep KReserved)|]. intros k v Hk.
    destruct (Hcase k v Hk) as [H|(_ & -> & _)]; [by eapply Hmin|by apply (Hms KReserved)].
  - intros v Hv. destruct (Hcase KReconnectReady v Hv) as [H|(E & -> & _)].
    + destruct (en_reconnect0 v H) as (u & Hu & Huv). exists u. split; [by apply (Hkeep KReconnectStarted)|done].
    + destruct m; try discriminate E. destruct Hg as [u Hu]. exists u. split; [by apply (Hkeep KReconnectStarted)|by apply (Hms KReconnectStarted)].
  - intros ->. destruct (en_open0 (Hr eq_refl)) as [Ht Hb].
    assert (forall k, k = KTerminal \/ behind_result k = true -> ctime_of k (proof_of p) = None ->
      ctime_of k (ControlRuntime.write_mark m ms (proof_of p)) = None) as Hnone.
    { intros k Hk Hold. rewrite Hw. destruct (decide _) as [<-|]; [|done]. exfalso. destruct m, Hk as [Hk|Hk]; try discriminate Hk;
        cbn in Hg; try (destruct Hg as [_ Hg]); by destruct Hg. }
    split; [apply (Hnone KTerminal); auto|intros k Hk; apply Hnone; auto].
  - intros k u v Hk Hu Hv. destruct (Hcase KTerminal u Hu) as [Hu'|(E & -> & _)].
    + destruct (Hcase k v Hv) as [Hv'|(_ & -> & _)]; [by eapply en_terminal0|by apply (Hms KTerminal)].
    + destruct m; try discriminate E. destruct Hg as [Hnone _]. destruct (en_open0 Hnone) as [_ Hb]. specialize (Hb k Hk).
      destruct (Hcase k v Hv) as [Hv'|(Ek & _ & _)]; [congruence|]. by subst k.
  - destruct m; cbn [ControlRuntime.write_mark rotation_terminal_control_state rotation_terminal_ms]; try done.
    destruct (rotation_terminal_control_state (proof_of p)), (rotation_terminal_ms (proof_of p)); done.
  - destruct m; cbn [ControlRuntime.write_mark post_terminal_connect_attempts post_terminal_transport_connections]; try done;
      unfold u32_saturating_add, u32_max; lia.
  - destruct en_attempts0, en_counted0 as [H1 H2]. destruct m; cbn [ControlRuntime.write_mark post_terminal_connect_attempts
      post_terminal_transport_connections post_terminal_connect_started_ms post_terminal_transport_connected_ms]; try done; (split; [|try done]); try done.
    + destruct (post_terminal_connect_started_ms _); cbn; symmetry; apply Z.ltb_lt; unfold u32_saturating_add, u32_max; lia.
    + destruct (post_terminal_transport_connected_ms _); cbn; symmetry; apply Z.ltb_lt; unfold u32_saturating_add, u32_max; lia.
Qed.

Lemma mark_own_ok last now p m : last <= now -> cguarded m p (result_ p) -> entry_ok last p -> entry_ok now (mark_own p m now).
Proof.
  intros Hl Hg Hp. unfold mark_own. destruct (ControlRuntime.operation_id p) as [i|] eqn:Hi; [|by eapply entry_later].
  pose proof (entry_mark last now p i m (result_ p) Hl Hi Hg Hp) as H. by rewrite Hi in H.
Qed.

Lemma entry_new id operation received now :
  entry_ok now {| request_id := id; ControlRuntime.operation_id := Some operation; result_ := None;
                  ControlRuntime.timing := ControlRuntime.timing_new operation received now |}.
Proof.
  unfold ControlRuntime.timing_new, ControlRuntime.mark.
  rewrite (bool_decide_eq_true_2 (ct_operation_id _ = Some operation)) by done. cbn [negb].
  split; cbn; try done.
  - intros [] v; cbn; try discriminate. by intros [= <-].
  - eexists. split; [done|]. intros [] v; cbn; try discriminate. by intros [= <-].
  - split; [done|]. by intros [].
Qed.

(** ** Runs of the coordinator's sections *)

(** The marks that the tasks write directly. *)
Definition csection_wf (l : csection) : Prop :=
  match l with CMark _ m => m = MarkAcceptedSent \/ m = MarkResultSent | _ => True end.

Record control_event := { entered : csection; task_running : bool; instant_ : Z }.

Definition control_step (s : ControlState) (e : control_event) : unit * ControlState :=
  (tt, (center (entered e) (task_running e) (instant_ e) s).2).

Fixpoint cticking (last : Z) (es : list control_event) : Prop :=
  match es with e :: es => last <= instant_ e /\ cticking (instant_ e) es | [] => True end.

Fixpoint cclock (last : Z) (es : list control_event) : Z := match es with e :: es => cclock (instant_ e) es | [] => last end.

Definition control_ok (last : Z) (s : ControlState) : Prop :=
  (forall p, pending s = Some p -> entry_ok last p) /\ Forall (entry_ok last) (recent_terminal s).

Lemma control_ok_ledger last now (s s' : ControlState) :
  last <= now -> control_ok last s -> (forall p, pending s' = Some p -> entry_ok now p) -> recent_terminal s' = recent_terminal s ->
  control_ok now s'.
Proof. intros Hl [_ Hr] Hp E. split; [done|]. rewrite E. eapply Forall_impl; [|exact Hr]. intros p. by apply entry_later. Qed.

(** A section that marks the pending entry, or leaves it. *)
Lemma control_ok_pending last now (s s' : ControlState) f :
  last <= now -> control_ok last s -> recent_terminal s' = recent_terminal s -> pending s' = option_map f (pending s) ->
  (forall p, entry_ok last p -> entry_ok now (f p)) -> control_ok now s'.
Proof.
  intros Hl Hs Hr Hp Hf. eapply control_ok_ledger; [done..| |done]. intros p. rewrite Hp. destruct (pending s) as [q|] eqn:E; [|done].
  intros [= <-]. apply Hf. by apply Hs.
Qed.

Lemma control_ok_same last now (s s' : ControlState) :
  last <= now -> control_ok last s -> recent_terminal s' = recent_terminal s -> pending s' = pending s -> control_ok now s'.
Proof.
  intros Hl Hs Hr Hp. eapply (control_ok_pending _ _ _ _ (fun p => p)); [done..| |]; [by rewrite Hp; destruct (pending s)|].
  intros p. by apply entry_later.
Qed.

Lemma control_step_ok last s e :
  last <= instant_ e -> csection_wf (entered e) -> control_ok last s -> control_ok (instant_ e) (control_step s e).2.
Proof.
  destruct e as [l running now]. cbn [instant_ entered]. intros Hl He Hs. pose proof (control_ok_same last now s) as Hsame.
  pose proof (fun s' f => control_ok_pending last now s s' f Hl Hs) as Hpend. pose proof (fun p => entry_later last now p Hl) as Hlater.
  assert (forall m q, cguarded m q (result_ q) -> entry_ok last q -> entry_ok now (mark_own q m now)) as Hown
    by (intros; by eapply mark_own_ok).
  unfold control_step. destruct l; cbn [center snd task_running instant_ entered]; try (by apply Hsame).
  - unfold start_section. destruct (closed s); [by apply Hsame|]. destruct (_ && _); [|by apply Hsame]. destruct (_ =b? _); by apply Hsame.
  - unfold close_section. destruct (closed s); [by apply Hsame|]. by eapply control_ok_ledger.
  - unfold publish_connection_state. destruct (closed s && _); [by apply Hsame|].
    destruct (_ && _); [|by destruct (_ <>b? _); apply Hsame].
    apply (Hpend _ (fun q => if is_some (reconnect_started_ms (proof_of q)) then mark_own q MarkReconnectReady now else q)); [done|by destruct (pending s)|].
    intros q Hq. destruct (reconnect_started_ms _) eqn:E; cbn [is_some]; [|by apply Hlater]. apply Hown; [|done]. split; [done|]. rewrite E. eauto.
  - apply (Hpend _ (fun q => if is_some (result_ q) then mark_own q MarkConnectAttempt now else q)); [done..|].
    intros q Hq. destruct (result_ q) eqn:E; cbn [is_some]; [|by apply Hlater]. apply Hown; [|done]. rewrite E. by split; [|eauto].
  - apply (Hpend _ (fun q => if is_some (result_ q) then mark_own q MarkTransportConnected now else q)); [done..|].
    intros q Hq. destruct (result_ q) eqn:E; cbn [is_some]; [|by apply Hlater]. apply Hown; [|done]. rewrite E. by split; [|eauto].
  - by apply (Hpend _ (fun q => mark_own q MarkReconnectStarted now)); [..|intros; by apply Hown].
  - unfold reserve_section. destruct (pending s) eqn:Ep; cbn [snd]; [by apply Hsame|].
    eapply control_ok_ledger; [done..| |done]. intros p [= <-]. apply entry_new.
  - unfold mark_acceptance_delivery_failed. destruct (pending s) as [p|] eqn:Ep; [|by apply Hsame]. destruct (_ || _); [by apply Hsame|].
    apply (Hpend _ (fun q => set_result q RejectedRotation (ControlRuntime.timing q))); [done|by rewrite ?Ep|]. intros q Hq. by apply entry_result, Hlater.
  - unfold activation_failed_section. destruct (pending s) as [p|] eqn:Ep; [|by apply Hsame]. destruct (_ =b? _); [|by apply Hsame].
    apply (Hpend _ (fun q => set_result q r (ControlRuntime.timing q))); [done|by rewrite ?Ep|]. intros q Hq. by apply entry_result, Hlater.
  - unfold ack_section. destruct (pending s) as [p|] eqn:Ep; [|by apply Hsame]. destruct (_ && _) eqn:E; [|by apply Hsame].
    apply andb_true_iff in E as [_ E]. split; [done|]. apply Forall_take. constructor.
    + apply Hown; [|by apply Hs]. split; [done|]. destruct (result_ p); [eauto|done].
    + destruct Hs as [_ Hr]. rewrite Stdlib.Lists.List.Forall_forall in Hr |- *. intros q Hq. apply filter_In in Hq as [Hq _]. auto.
  - unfold observe_rotation_section. destruct (snap_operation_id snap) as [i|]; [|by apply Hsame].
    destruct (snap_terminal_result snap) as [r|]; [|by apply Hsame]. destruct (pending s) as [p|] eqn:Ep; [|by apply Hsame].
    destruct (_ && _) eqn:E; [|by apply Hsame]. apply andb_true_iff in E as [Ei En]. case_bool_decide as Hi; [|done].
    eapply control_ok_ledger; [done..| |done]. intros q [= <-]. unfold set_result.
    apply (entry_mark last); [done|done| |by apply Hs]. destruct (result_ p) eqn:Er; [done|]. split; [done|]. split; [done|eauto].
  - apply (Hpend _ (fun q => if ControlRuntime.operation_id q =b? Some operation then mark_own q m now else q)); [done..|].
    intros q Hq. destruct (_ =b? _); [|by apply Hlater]. apply Hown; [|done]. by destruct He as [-> | ->].
Qed.

Lemma control_run_ok es last s :
  cticking last es -> Forall (fun e => csection_wf (entered e)) es -> control_ok last s -> control_ok (cclock last es) (run control_step s es).
Proof.
  revert last s. induction es as [|e es IH]; intros last s Ht He Hs; [done|]. cbn [cticking cclock run] in *.
  apply Forall_cons_iff in He as [He Hes]. destruct Ht as [Hl Ht]. apply IH; [done..|]. by apply (control_step_ok last).
Qed.

(** The distance of two ages is that of their origins, to the millisecond. *)
Lemma ages_apart now o1 o2 : o1 <= o2 <= now -> (now - o1) / 1000000 <= u64_max ->
  exists d, (if elapsed_ms_since now o2 <=? elapsed_ms_since now o1 then Some (elapsed_ms_since now o1 - elapsed_ms_since now o2) else None) = Some d /\
    (o2 - o1) / 1000000 <= d <= (o2 - o1) / 1000000 + 1.
Proof.
  intros Ho Hmax. unfold elapsed_ms_since, duration_ms, elapsed. rewrite !Z.max_r by lia.
  assert ((now - o2) / 1000000 <= (now - o1) / 1000000) by (apply Z.div_le_mono; lia).
  rewrite !Z.min_l by lia. rewrite (proj2 (Z.leb_le _ _)) by done. eexists. split; [done|].
  assert (forall a, 1000000 * (a / 1000000) <= a < 1000000 * (a / 1000000) + 1000000) as Hdiv.
  { intros a. pose proof (Z.div_mod a 1000000 ltac:(lia)). pose proof (Z.mod_pos_bound a 1000000 ltac:(lia)). lia. }
  pose proof (Hdiv (now - o1)). pose proof (Hdiv (now - o2)). pose proof (Hdiv (o2 - o1)). lia.
Qed.

(** ** Properties *)

(** The timing evidence of a remote command is about one operation and in order.
    In every sequence of critical sections of the control runtime, under a clock that
    does not run backwards: what a snapshot shows of a command carries the number of
    the command's own operation; every time lies between the reservation and the age;
    a session is ready again only after it was reconnected; connections after the end
    of the rotation and the acknowledgement come after that end, which is recorded with
    the state of the session; connections are counted exactly when they have a time.
    And where the rotation runtime shows the same operation, the start of the rotation
    is given from the start of the command, to the millisecond. *)
Theorem control_evidence_in_order es now rotation p :
  cticking 0 es -> Forall (fun e => csection_wf (entered e)) es -> cclock 0 es <= now ->
  let s := run control_step control_new es in
  shown_operation s = Some p ->
  let e := cs_operation_timing (control_snapshot s now rotation) in
  ct_operation_id e = ControlRuntime.operation_id p /\ is_Some (ControlRuntime.operation_id p) /\
  (exists reserved age, operation_reserved_ms e = Some reserved /\ ct_operation_age_ms e = Some age /\
     forall k v, ctime_of k e = Some v -> reserved <= v <= age) /\
  (forall v, reconnect_ready_ms e = Some v -> exists u, reconnect_started_ms e = Some u /\ u <= v) /\
  earlier (rotation_terminal_ms e) (post_terminal_connect_started_ms e) /\
  earlier (rotation_terminal_ms e) (post_terminal_transport_connected_ms e) /\ earlier (rotation_terminal_ms e) (result_ack_ms e) /\
  is_some (rotation_terminal_control_state e) = is_some (rotation_terminal_ms e) /\
  is_some (post_terminal_connect_started_ms e) = (0 <? post_terminal_connect_attempts e) /\
  is_some (post_terminal_transport_connected_ms e) = (0 <? post_terminal_transport_connections e) /\
  (forall w t, rotation = timing_snapshot_at w now -> RotationTiming.timing w = Some t ->
     rt_operation_id (evidence t) = ControlRuntime.operation_id p ->
     began p <= RotationTiming.origin t <= now -> (now - began p) / 1000000 <= u64_max ->
     exists d, rotation_origin_from_command_ms e = Some d /\
       (RotationTiming.origin t - began p) / 1000000 <= d <= (RotationTiming.origin t - began p) / 1000000 + 1).
Proof.
  intros Ht He Hn s Hp. assert (control_ok 0 control_new) as H0 by by split.
  destruct (control_run_ok es 0 control_new Ht He H0) as [Hpend Hrec].
  assert (entry_ok (cclock 0 es) p) as [].
  { revert Hp. unfold shown_operation. destruct (pending s) as [q|] eqn:Hq; [intros [= <-]; by apply Hpend|].
    fold s in Hrec. destruct (recent_terminal s) as [|q l]; [done|]. intros [= <-]. by apply Forall_inv in Hrec. }
  unfold control_snapshot. cbn [cs_operation_timing]. rewrite Hp.
  set (e := operation_snapshot_at now rotation (ControlRuntime.timing p)).
  assert (forall k, ctime_of k e = ctime_of k (proof_of p)) as Hk by by intros [].
  destruct en_operation0 as [Hs Hop]. split; [exact Hop|]. split; [exact Hs|]. split.
  { destruct en_reserved0 as (r & Hr & Hmin). exists r. eexists. split; [exact Hr|]. split; [reflexivity|]. intros k v. rewrite Hk. intros Hv.
    split; [by eapply Hmin|]. etrans; [by eapply en_times0|by apply elapsed_mono]. }
  split; [exact en_reconnect0|]. split; [intros x y; by apply (en_terminal0 KPostConnect)|].
  split; [intros x y; by apply (en_terminal0 KPostConnected)|]. split; [intros x y; by apply (en_terminal0 KAck)|].
  split; [exact en_state0|]. destruct en_counted0 as [H1 H2]. split; [exact H1|]. split; [exact H2|].
  intros w t -> Hw Hi Ho Hmax. unfold e, operation_snapshot_at, timing_snapshot_at. rewrite Hw.
  cbn [rotation_origin_from_command_ms snapshot_at rt_operation_id rt_operation_age_ms]. rewrite bool_decide_eq_true_2 by congruence.
  by apply ages_apart.
Qed.

Definition control_at (ms : Z) (l : csection) : control_event := {| entered := l; task_running := true; instant_ := ms * 1000000 |}.

(** A command that is reserved, accepted, lost and reconnected, and ended. *)
Definition demo_commanded : list control_event :=
  [control_at 95 (CPublish SessionReady 0 0); control_at 110 (CReserve (lit "r1") 1 99000000); control_at 112 (CMark 1 MarkAcceptedSent);
   control_at 200 CReconnect; control_at 260 (CPublish Connecting 1 0); control_at 290 (CPublish SessionReady 1 0);
   control_at 380 (CObserveRotation {| snap_operation_id := Some 1; snap_phase := PhaseChanged; snap_before_generation := Some 10;
      snap_after_generation := Some 13; snap_before_ip := None; snap_after_ip := None; snap_restore_required := false;
      snap_terminal_result := Some Rotation.Changed; snap_failure := None; snap_restore_result := None |})].

Lemma control_evidence_in_order_witness :
  let s := run control_step control_new demo_commanded in
  let e := cs_operation_timing (control_snapshot s 400000000 (timing_snapshot_at (run timed_step timed_new demo_timed) 400000000)) in
  ct_operation_age_ms e = Some 301 /\ reconnect_started_ms e = Some 101 /\ rotation_terminal_ms e = Some 281 /\
  exists d, rotation_origin_from_command_ms e = Some d /\ 1 <= d <= 2.
Proof.
  do 3 (split; [vm_compute; reflexivity|]).
  assert (option_map (fun p => (began p, ControlRuntime.operation_id p)) (shown_operation (run control_step control_new demo_commanded)) =
    Some (99000000, Some 1)) as Ep by (vm_compute; reflexivity).
  assert (option_map (fun t => (RotationTiming.origin t, rt_operation_id (evidence t))) (RotationTiming.timing (run timed_step timed_new demo_timed)) =
    Some (100000000, Some 1)) as Et by (vm_compute; reflexivity).
  destruct (shown_operation (run control_step control_new demo_commanded)) as [p|] eqn:Hp; [|discriminate Ep].
  destruct (RotationTiming.timing (run timed_step timed_new demo_timed)) as [t|] eqn:Ht; [|discriminate Et].
  cbn [option_map] in Ep, Et. injection Ep as Hb Hi. injection Et as Ho Hi'.
  destruct (control_evidence_in_order demo_commanded 400000000 (timing_snapshot_at (run timed_step timed_new demo_timed) 400000000) p)
    as (_ & _ & _ & _ & _ & _ & _ & _ & _ & _ & H); [cbn; lia|repeat constructor; cbn; auto|cbn; lia|exact Hp|].
  destruct (H (run timed_step timed_new demo_timed) t eq_refl Ht) as (d & Hd & Hr); rewrite ?Hb, ?Ho in *; [congruence|lia|vm_compute; discriminate|].
  exists d. split; [exact Hd|exact Hr].
Defined.
