(* ===== verification/AndroidNetwork.v ===== *)
(** * Name resolution on one Android network

    [src/crates/android-network/src/lib.rs]: the lookup of a name against the network
    an authority names.  The platform's [android_getaddrinfofornetwork] is a
    parameter: it takes the network and the name, and answers a code and a list of
    nodes, the empty list for the null pointer.  A node's socket address is the bytes
    the pointer points to.

    The adapter gives the addresses as text, sorted and without repetitions; the
    resolver of the boundary, [resolve] of [BoundaryViews], reads the text again. *)

From S2P Require Import Prelude Net RustStr IpText.
From S2P Require Import ProxySession Cellular BoundaryViews.
From stdpp Require Import sets sorting list.

#[local] Open Scope Z_scope.

Definition validate_hostname (hostname : str) : result AndroidNetworkError unit :=
  if bool_decide (hostname = []) || contains_byte 0 hostname then Err InvalidHostname else Ok tt.

(** ** The platform's answer *)

Definition AF_INET : Z := 2.
Definition AF_INET6 : Z := 10.
Definition SIZEOF_SOCKADDR_IN : Z := 16.
Definition SIZEOF_SOCKADDR_IN6 : Z := 28.

Record addrinfo := { ai_family : Z; ai_addrlen : Z; ai_addr : option (list Z) }.

(** A number in network order, at an offset of the socket address. *)
Definition be_value (bs : list Z) : Z := fold_left (fun acc b => acc * 256 + b) bs 0.
Definition be_field (offset size : nat) (sockaddr : list Z) : Z := be_value (take size (drop offset sockaddr)).

(** The address of a node; [Ok None] for another family. *)
Definition node_address (i : addrinfo) : result AndroidNetworkError (option IpAddr) :=
  match ai_addr i with
  | None => Err NativeAddressConversionFailed
  | Some sockaddr =>
      if ai_family i =? AF_INET then
        if ai_addrlen i <? SIZEOF_SOCKADDR_IN then Err NativeAddressConversionFailed
        else Ok (Some (IpV4 (be_field 4 4 sockaddr)))
      else if ai_family i =? AF_INET6 then
        if ai_addrlen i <? SIZEOF_SOCKADDR_IN6 then Err NativeAddressConversionFailed
        else Ok (Some (IpV6 (be_field 8 16 sockaddr)))
      else Ok None
  end.

(** The loop over the list. *)
Fixpoint collect_addresses (nodes : list addrinfo) : result AndroidNetworkError (list str) :=
  match nodes with
  | [] => Ok []
  | i :: nodes =>
      let? address := node_address i in
      let? rest := collect_addresses nodes in
      Ok (match address with Some a => ip_display a :: rest | None => rest end)
  end.

(** ** [Vec::sort] and [Vec::dedup] on strings *)

Fixpoint str_leb (a b : str) : bool :=
  match a, b with
  | [], _ => true
  | _ :: _, [] => false
  | x :: a, y :: b => (x <? y) || ((x =? y) && str_leb a b)
  end.

Definition str_le (a b : str) : Prop := str_leb a b = true.

#[export] Instance str_le_dec : RelDecision str_le.
Proof. intros a b. unfold str_le. apply _. Defined.

Fixpoint dedup (l : list str) : list str :=
  match l with
  | x :: l' => match l' with y :: _ => if bool_decide (x = y) then dedup l' else x :: dedup l' | [] => [x] end
  | [] => []
  end.

(** ** The lookup *)

Section lookup.
Context (native : NetworkHandle -> str -> Z * list addrinfo).

(** With the calls of the platform. *)
Definition android_resolve_host (authority : CellularNetworkAuthority) (hostname : str)
    : result AndroidNetworkError (list str) * list (NetworkHandle * str) :=
  if contains_byte 0 hostname then (Err InvalidHostname, [])
  else
    let '(code, nodes) := native (network authority) hostname in
    (if negb (code =? 0) then Err NativeDnsLookupFailed
     else if bool_decide (nodes = []) then Err NativeDnsNoResults
     else
       let? collected := collect_addresses nodes in
       let addresses := dedup (merge_sort str_le collected) in
       if bool_decide (addresses = []) then Err NativeDnsNoResults else Ok addresses,
     [(network authority, hostname)]).

Definition resolve_host_on_platform (android : bool) (authority : CellularNetworkAuthority) (hostname : str)
    : result AndroidNetworkError (list str) * list (NetworkHandle * str) :=
  if android then android_resolve_host authority hostname else (Err UnsupportedPlatform, []).

Definition resolve_host (android : bool) (authority : CellularNetworkAuthority) (hostname : str)
    : result AndroidNetworkError (list str) * list (NetworkHandle * str) :=
  match validate_hostname hostname with
  | Err e => (Err e, [])
  | Ok _ => resolve_host_on_platform android authority hostname
  end.
End lookup.

(** ** Order *)

Lemma str_leb_refl a : str_le a a.
Proof. unfold str_le. induction a as [|x a IH]; [done|]. cbn. by rewrite Z.ltb_irrefl, Z.eqb_refl. Qed.

#[export] Instance str_le_trans : Transitive str_le.
Proof.
  unfold str_le. intros a. induction a as [|x a IH]; intros [|y b] [|z c]; cbn; try done.
  rewrite !orb_true_iff, !andb_true_iff, !Z.ltb_lt, !Z.eqb_eq. intros [H1|[-> H1]] [H2|[-> H2]]; [left; lia|auto..|].
  right. split; [done|]. by eapply IH.
Qed.

#[export] Instance str_le_total : Total str_le.
Proof.
  unfold str_le. intros a. induction a as [|x a IH]; intros [|y b]; cbn; auto.
  destruct (Z.lt_trichotomy x y) as [H|[->|H]].
  - left. by rewrite (proj2 (Z.ltb_lt _ _) H).
  - rewrite Z.ltb_irrefl, Z.eqb_refl. apply IH.
  - right. by rewrite (proj2 (Z.ltb_lt _ _) H).
Qed.

Lemma str_le_antisym a b : str_le a b -> str_le b a -> a = b.
Proof.
  unfold str_le. revert b. induction a as [|x a IH]; intros [|y b]; cbn; try done.
  rewrite !orb_true_iff, !andb_true_iff, !Z.ltb_lt, !Z.eqb_eq. intros [H1|[-> H1]] [H2|[H2 H3]]; try lia. f_equal. by apply IH.
Qed.

(** ** Repetitions *)

Lemma elem_of_dedup l x : x ∈ dedup l <-> x ∈ l.
Proof.
  induction l as [|a [|b l] IH]; [done|done|]. cbn [dedup] in *.
  case_bool_decide as E; [subst a; rewrite IH; set_solver|]. rewrite elem_of_cons, IH. set_solver.
Qed.

Lemma dedup_nil l : dedup l = [] -> l = [].
Proof.
  destruct l as [|a l]; [done|]. intros E. assert (a ∈ dedup (a :: l)) as H by (apply elem_of_dedup; by left).
  rewrite E in H. by apply not_elem_of_nil in H.
Qed.

(** In order, and each one once. *)
Definition str_lt (a b : str) : Prop := str_le a b /\ a <> b.

Lemma dedup_sorted l : StronglySorted str_le l -> StronglySorted str_lt (dedup l).
Proof.
  induction 1 as [|a l Hl IH Ha]; [constructor|]. destruct l as [|b l]; [repeat constructor|].
  change (dedup (a :: b :: l)) with (if bool_decide (a = b) then dedup (b :: l) else a :: dedup (b :: l)).
  case_bool_decide as E; [done|]. constructor; [done|]. apply Forall_forall. intros x Hx. rewrite elem_of_dedup in Hx.
  rewrite Forall_forall in Ha. split; [by apply Ha|]. intros <-.
  apply elem_of_cons in Hx as [?|Hx]; [done|]. apply E.
  apply str_le_antisym; [apply Ha; by left|]. apply StronglySorted_inv in Hl as [_ Hb]. rewrite Forall_forall in Hb.
  by apply Hb.
Qed.

Lemma sorted_NoDup l : StronglySorted str_lt l -> NoDup l.
Proof.
  induction 1 as [|a l _ IH Ha]; constructor; [|done]. intros H. rewrite Forall_forall in Ha. by destruct (Ha a H).
Qed.

(** ** Addresses *)

(** A node as the platform documents it: the address is there, as long as it says, and
    long enough for its family. *)
Definition node_ok (i : addrinfo) : Prop :=
  exists sockaddr, ai_addr i = Some sockaddr /\ Forall (fun b => 0 <= b <= 255) sockaddr /\
    ai_addrlen i = Z.of_nat (length sockaddr) /\
    (ai_family i = AF_INET -> SIZEOF_SOCKADDR_IN <= ai_addrlen i) /\
    (ai_family i = AF_INET6 -> SIZEOF_SOCKADDR_IN6 <= ai_addrlen i).

Definition node_okb (i : addrinfo) : bool :=
  match ai_addr i with
  | None => false
  | Some bs =>
      forallb (fun b => (0 <=? b) && (b <=? 255)) bs && (ai_addrlen i =? Z.of_nat (length bs))
      && negb ((ai_family i =? AF_INET) && (ai_addrlen i <? SIZEOF_SOCKADDR_IN))
      && negb ((ai_family i =? AF_INET6) && (ai_addrlen i <? SIZEOF_SOCKADDR_IN6))
  end.

Lemma node_okb_ok i : node_okb i = true -> node_ok i.
Proof.
  unfold node_okb, node_ok. destruct (ai_addr i) as [bs|]; [|done].
  rewrite !andb_true_iff, !negb_true_iff, Z.eqb_eq, !andb_false_iff, !Z.eqb_neq, !Z.ltb_ge.
  intros (((H1 & H2) & H3) & H4). exists bs. split_and!; [done| |done|intros ?; by destruct H3..|intros ?; by destruct H4].
  apply Forall_forall. intros b Hb%list_elem_of_In. rewrite forallb_forall in H1. specialize (H1 b Hb). lia.
Qed.

Lemma be_value_range bs : Forall (fun b => 0 <= b <= 255) bs -> 0 <= be_value bs < 256 ^ Z.of_nat (length bs).
Proof.
  intros Hbs. unfold be_value. induction bs as [|b bs IH] using rev_ind; [done|].
  apply Forall_app in Hbs as [Hbs Hb]. rewrite Forall_singleton in Hb. specialize (IH Hbs).
  rewrite fold_left_app, length_app. cbn [fold_left length]. rewrite Nat2Z.inj_add, Z.pow_add_r by lia.
  change (256 ^ Z.of_nat 1) with 256. lia.
Qed.

Lemma be_field_range offset size sockaddr :
  Forall (fun b => 0 <= b <= 255) sockaddr -> 0 <= be_field offset size sockaddr < 256 ^ Z.of_nat size.
Proof.
  intros H. unfold be_field. pose proof (be_value_range (take size (drop offset sockaddr))) as Hr.
  destruct Hr as [H1 H2]; [by apply Forall_take, Forall_drop|]. split; [done|]. eapply Z.lt_le_trans; [exact H2|].
  apply Z.pow_le_mono_r; [lia|]. rewrite length_take. lia.
Qed.

Lemma node_address_ok i : node_ok i -> exists a, node_address i = Ok a /\ forall ip, a = Some ip -> is_ip ip.
Proof.
  intros (sockaddr & Ha & Hb & Hl & H4 & H6). unfold node_address. rewrite Ha.
  destruct (Z.eqb_spec (ai_family i) AF_INET) as [E|_].
  - rewrite (proj2 (Z.ltb_ge _ _)) by by apply H4. eexists. split; [done|]. intros ip [= <-]. cbn.
    pose proof (be_field_range 4 4 sockaddr Hb) as Hr. change (256 ^ Z.of_nat 4) with (u32_max + 1) in Hr. lia.
  - destruct (Z.eqb_spec (ai_family i) AF_INET6) as [E|_]; [|by eexists].
    rewrite (proj2 (Z.ltb_ge _ _)) by by apply H6. eexists. split; [done|]. intros ip [= <-]. cbn.
    pose proof (be_field_range 8 16 sockaddr Hb) as Hr. change (256 ^ Z.of_nat 16) with (2 ^ 128) in Hr. exact Hr.
Qed.

(** The nodes hold [ip]. *)
Definition holds (nodes : list addrinfo) (ip : IpAddr) : Prop := exists i, i ∈ nodes /\ node_address i = Ok (Some ip).

Lemma collect_ok nodes : Forall node_ok nodes -> exists texts,
  collect_addresses nodes = Ok texts /\ forall x, x ∈ texts <-> exists ip, x = ip_display ip /\ holds nodes ip.
Proof.
  induction 1 as [|i nodes Hi _ (texts & E & Hx)]; cbn [collect_addresses].
  - exists []. split; [done|]. intros x. split; [by intros ?%not_elem_of_nil|]. by intros (ip & _ & i & ?%not_elem_of_nil & _).
  - destruct (node_address_ok i Hi) as (a & Ha & _). rewrite Ha, E. eexists. split; [done|]. intros x.
    assert ((exists ip, x = ip_display ip /\ holds (i :: nodes) ip) <->
      (exists ip, a = Some ip /\ x = ip_display ip) \/ exists ip, x = ip_display ip /\ holds nodes ip) as ->.
    { split.
      - intros (ip & -> & j & [->|Hj]%elem_of_cons & Hn); [left; exists ip; split; [congruence|done]|].
        right. exists ip. split; [done|]. by exists j.
      - intros [(ip & -> & ->)|(ip & -> & j & Hj & Hn)]; exists ip; (split; [done|]); eexists; (split; [|eassumption]).
        + by left.
        + by right. }
    rewrite <- Hx. destruct a as [a|]; [rewrite elem_of_cons|]; naive_solver.
Qed.

Lemma holds_is_ip nodes ip : Forall node_ok nodes -> holds nodes ip -> is_ip ip.
Proof.
  intros Hn (i & Hi & E). rewrite Forall_forall in Hn. destruct (node_address_ok i (Hn i Hi)) as (a & Ha & Hip).
  apply Hip. congruence.
Qed.

(** Reading back a list of texts of addresses. *)
Lemma parse_texts (P : IpAddr -> Prop) texts :
  (forall ip, P ip -> is_ip ip) -> NoDup texts -> (forall x, x ∈ texts -> exists ip, x = ip_display ip /\ P ip) ->
  exists ips, mapM parse_ip texts = Some ips /\ NoDup ips /\ (forall ip, ip ∈ ips <-> is_ip ip /\ ip_display ip ∈ texts).
Proof.
  intros HP Hd Hx. induction Hd as [|x texts Hn _ IH].
  - exists []. split_and!; [done|constructor|]. intros ip. split; [by intros ?%not_elem_of_nil|by intros [_ ?%not_elem_of_nil]].
  - destruct IH as (ips & E & Hd & Hi); [intros y Hy; apply Hx; by right|].
    destruct (Hx x) as (ip & -> & Hip); [by left|]. apply HP in Hip. exists (ip :: ips). split_and!.
    + cbn. rewrite parse_ip_text by done. cbn. by rewrite E.
    + constructor; [|done]. rewrite Hi. by intros [_ ?].
    + intros ip'. rewrite !elem_of_cons, Hi. split; [naive_solver|]. intros [H [H'|H']]; [left; by apply ip_display_inj|auto].
Qed.

(** A platform that knows one name on network 42: [192.0.2.7] twice, [2001:db8::1], and a
    node of a family of its own. *)
Definition demo_sockaddr_in : list Z := [2; 0; 0; 0; 192; 0; 2; 7] ++ replicate 8 0.
Definition demo_sockaddr_in6 : list Z := [10; 0; 0; 0; 0; 0; 0; 0; 32; 1; 13; 184] ++ replicate 11 0 ++ [1; 0; 0; 0; 0].

Definition demo_nodes : list addrinfo :=
  [{| ai_family := AF_INET; ai_addrlen := 16; ai_addr := Some demo_sockaddr_in |};
   {| ai_family := 17; ai_addrlen := 2; ai_addr := Some [17; 0] |};
   {| ai_family := AF_INET6; ai_addrlen := 28; ai_addr := Some demo_sockaddr_in6 |};
   {| ai_family := AF_INET; ai_addrlen := 16; ai_addr := Some demo_sockaddr_in |}].

Definition demo_name : str := [97; 46; 98].

Definition demo_native (network : NetworkHandle) (name : str) : Z * list addrinfo :=
  if (network =? 42) && bool_decide (name = demo_name) then (0, demo_nodes) else (8, []).

Definition demo_authority : CellularNetworkAuthority := {| network := 42; sequence := 1 |}.

(** ** Properties *)


