(* ===== verification/ProductBoundary.v ===== *)
(** * The platform's handle on the product

    [src/crates/android-ffi/src/product_runtime_ffi.rs]: the methods of
    [NativeProductRuntime] and the diagnostic view.  The handle checks what Android says
    before the runtime of [ProductRuntime] hears of it, projects what comes back with the
    functions of [BoundaryViews], and asks for the temporary credential when the proxy
    reports that it runs. *)

From Stdlib Require Import String.
From S2P Require Import PolicyCoordinator RotationRuntime RootPolicyRuntime.
From S2P Require Import Prelude Net RustStr Transport Readiness ProxyAuth ProxyCoordinator ReadinessRuntime Rotation.
From S2P Require Import Lifecycle Interaction Threads Cellular CellularRuntime ProductFacts.
From stdpp Require Import gmap list.
From S2P Require Import ControlRuntime ProductRuntime ProductTasks ProductDiagnostics BoundaryViews.

#[local] Open Scope Z_scope.

(** ** Errors *)

Inductive NativeProductRuntimeError :=
| NativeInvalidProductUid | NativeThreadUnavailable | NativeStateUnavailable | NativeCleanupFailed.

Definition native_error (e : RuntimeExecutionError) : NativeProductRuntimeError :=
  match e with
  | ProductRuntime.ThreadUnavailable => NativeThreadUnavailable
  | ExecutionStateUnavailable => NativeStateUnavailable
  end.

Inductive NativeRotationStartError :=
| NativeRuntimeNotRunning | NativeAlreadyInProgress | NativeNoCurrentCellular | NativeRootPolicyUnavailable
| NativeCredentialUnavailable | NativeRotationExecutorUnavailable | NativeRotationStateUnavailable.

Definition native_rotation_error (e : RotationRuntimeStartError) : NativeRotationStartError :=
  match e with
  | StartRuntimeNotRunning => NativeRuntimeNotRunning
  | StartAlreadyInProgress => NativeAlreadyInProgress
  | StartNoCurrentCellular => NativeNoCurrentCellular
  | StartRootPolicyUnavailable => NativeRootPolicyUnavailable
  | StartCredentialUnavailable => NativeCredentialUnavailable
  | StartExecutorUnavailable => NativeRotationExecutorUnavailable
  | StartStateUnavailable => NativeRotationStateUnavailable
  end.

Inductive NativeControlStartError :=
| NativeAlreadyStarted | NativeInvalidIdentity | NativeControlExecutorUnavailable | NativeControlStateUnavailable.

Definition native_control_error (e : ControlRuntimeStartError) : NativeControlStartError :=
  match e with
  | AlreadyStarted => NativeAlreadyStarted
  | InvalidIdentity => NativeInvalidIdentity
  | ControlExecutorUnavailable => NativeControlExecutorUnavailable
  | ControlStateUnavailable => NativeControlStateUnavailable
  end.

(** ** Construction and lifecycle *)

(** [NativeProductRuntime::new]; the namespace only parameterizes the root policy. *)
Definition native_new (uid : Z) (built : bool) : result NativeProductRuntimeError product_world :=
  if uid =? 0 then Err NativeInvalidProductUid else map_err native_error (product_new uid built).

Definition runtime_lifecycle_snapshot : dprog RuntimeLifecycleSnapshotView :=
  let> s := snapshot in Ret (map_runtime_snapshot s).

Definition start_runtime (version : option Z) (username password : option str) : dprog (result NativeProductRuntimeError unit) :=
  let> r := request_start {| input_version := version; input_username := username; input_password := password |} in
  Ret (map_err native_error (let? _ := r in Ok tt)).

Definition stop_runtime : dprog (result NativeProductRuntimeError unit) :=
  let> r := request_stop in Ret (map_err native_error (let? _ := r in Ok tt)).

Definition native_shutdown : dprog (result NativeProductRuntimeError unit) :=
  let> r := shutdown_blocking in
  Ret (let? clean := map_err native_error r in if clean : bool then Ok tt else Err NativeCleanupFailed).

Definition is_running : dprog bool :=
  let> s := snapshot in
  Ret (match snap_state s with Lifecycle.Starting | Lifecycle.Running => true | _ => false end).

Definition native_begin_mutation : dprog (result NativeProductRuntimeError (option Z)) :=
  let> lease := begin_stopped_platform_mutation in Ret (Ok lease).

Definition native_complete_mutation (lease : Z) (succeeded : bool) : dprog (result NativeProductRuntimeError bool) :=
  let> r := complete_stopped_platform_mutation lease succeeded in Ret (Ok r).

(** ** Temporary credential, rotation, control *)

(** The provider is a callback of the platform: a number. *)
Definition native_install_temporary (username password : str) (check : nat) : dprog (result NativeProductRuntimeError unit) :=
  let> r := install_temporary_proxy_credential username password check in Ret (map_err native_error r).

Definition native_clear_temporary : dprog (result NativeProductRuntimeError unit) :=
  let> r := clear_temporary_proxy_credential in Ret (map_err native_error r).

Definition native_start_rotation : dprog (result NativeRotationStartError Z) :=
  let> r := start_public_ip_rotation in Ret (map_err native_rotation_error r).

(** [ForeignControlAuthSigner]: an empty signature is a refusal. *)
Definition sign_control_auth (signer : list Z -> list Z) (payload : list Z) : result ControlAuthSignError (list Z) :=
  let signature := signer payload in if signature =b? [] then Err SignFailed else Ok signature.

Definition native_start_control (identify : list Z -> option str) (spki : list Z) (signer : nat)
    : dprog (result NativeControlStartError str) :=
  let> r := start_remote_control identify spki signer in Ret (map_err native_control_error r).

(** The closure that [observe_proxy_runtime] registers, for what is in the provider slot
    when it is called: it asks for the temporary credential of a proxy that runs, then
    tells the platform. *)
Definition on_proxy_runtime (provider : option nat) (publication : ProxyRuntimePublication) : dprog ProxyRuntimePublicationView :=
  let> _ :=
    (if pub_state publication =b? ServingRunning then
       let> g := dlock SActive in
       match provider, g with
       | Some provider, Some g =>
           let> n := dask (DNumber g) in
           match n with
           | None => Ret tt
           | Some expected =>
               let> _ := restore_temporary_proxy_credential_after_running expected (pub_serving_generation publication) provider in
               Ret tt
           end
       | _, _ => Ret tt
       end
     else Ret tt) in
  Ret (map_proxy_publication publication).

(** ** Platform facts *)

Record CellularNetworkObservationInput := {
  in_sequence : Z; in_network_handle : Z; in_is_cellular : bool; in_has_internet : bool; in_is_validated : bool; in_is_not_vpn : bool;
  in_interface_name : option str }.

Definition native_observe_network (input : CellularNetworkObservationInput) : dprog (result CellularBridgeError CellularAdmissionView) :=
  match ObservationSequence_new (in_sequence input) with
  | None => Ret (Err InvalidBridgeSequence)
  | Some sequence =>
      match NetworkHandle_new (in_network_handle input) with
      | None => Ret (Err InvalidNetworkHandle)
      | Some handle =>
          let observation := {| obs_sequence := sequence; obs_handle := handle; is_cellular := in_is_cellular input;
                                has_internet := in_has_internet input; is_validated := in_is_validated input;
                                is_not_vpn := in_is_not_vpn input |} in
          let> r := observe_network sequence observation handle (in_interface_name input) in
          Ret (match r with Ok a => Ok (map_snapshot a) | Err _ => Err BridgeOwnerUnavailable end)
      end
  end.

Definition native_network_lost (sequence network_handle : Z) : dprog (result CellularBridgeError CellularAdmissionView) :=
  match ObservationSequence_new sequence with
  | None => Ret (Err InvalidBridgeSequence)
  | Some sequence =>
      match NetworkHandle_new network_handle with
      | None => Ret (Err InvalidNetworkHandle)
      | Some handle =>
          let> r := network_lost sequence handle in
          Ret (match r with Ok a => Ok (map_snapshot a) | Err _ => Err BridgeOwnerUnavailable end)
      end
  end.

Definition native_observe_mesh (sequence : Z) (o : MeshVpnObservation) : dprog (result MeshTransportBoundaryError MeshAdmissionView) :=
  let> r := observe_mesh_vpn sequence o in
  Ret (match r with Ok s => Ok (map_view s) | Err e => Err (map_transport_error e) end).

Definition observe_mesh_vpn_absent (sequence : Z) : dprog (result MeshTransportBoundaryError MeshAdmissionView) :=
  native_observe_mesh sequence Transport.Absent.

(** Every address has to parse. *)
Definition observe_mesh_unique_vpn (sequence : Z) (local_ipv4 : list str) : dprog (result MeshTransportBoundaryError MeshAdmissionView) :=
  match mapM parse_ipv4 local_ipv4 with
  | None => Ret (Err BInvalidVpnObservation)
  | Some addresses => native_observe_mesh sequence (Transport.UniqueVpn addresses)
  end.

Definition observe_mesh_vpn_ambiguous (sequence : Z) : dprog (result MeshTransportBoundaryError MeshAdmissionView) :=
  native_observe_mesh sequence Transport.AmbiguousVpn.

Inductive ProxyProtocolView := VMixed | VSocks5 | VHttpConnect.

Record ProxyListenerView := { listener_protocol : ProxyProtocolView; listener_port : Z }.

Definition proxy_listener_contract : list ProxyListenerView :=
  (fun l => {| listener_protocol := match protocol l with Mixed => VMixed | Socks5 => VSocks5 | Http => VHttpConnect end;
               listener_port := port l |}) <$> canonical_listeners.

(** ** The diagnostic view *)

Record ProductDiagnosticSnapshotView := {
  v_consistent : bool; v_runtime_running : bool; v_runtime_generation : Z; v_runtime_active_tasks : Z;
  v_cellular_state : str; v_cellular_reason : str; v_cellular_admitted : bool; v_cellular_owner_sequence : option Z;
  v_cellular_boundary_failure : option str; v_cellular_reconcile : CellularReconcileDiagnosticView;
  v_dns : CellularDnsDiagnosticView; v_root_authority_observation : str; v_root_policy_authorized : bool;
  v_root_session_generation : option Z; v_root_last_failure_class : option str;
  v_root_policy_authorized_generation : option Z; v_root_reconcile : RootPolicyReconcileDiagnosticView;
  v_root_recovery : RootRecoveryDiagnosticView; v_proxy_state : str; v_proxy_healthy : bool;
  v_proxy_failure : option str; v_proxy_serving_generation : option Z; v_proxy_active_sessions : Z;
  v_proxy_recovery_pending : bool; v_proxy_recovery_operation_id : Z; v_proxy_recovery_attempts_scheduled : Z;
  v_proxy_recovery_next_delay_ms : Z; v_credential_active : bool; v_credential_version : option Z; v_mesh_state : str;
  v_mesh_admitted : bool; v_mesh_observation_sequence : option Z; v_mesh_admission_epoch : option Z;
  v_mesh_epoch_present : bool; v_mesh_ingress_running : bool; v_mesh_serving_generation : option Z;
  v_mesh_ingress_failure : str; v_mesh_active_sessions : option Z; v_mesh_capacity_rejects : option Z;
  v_readiness_state : str; v_readiness_binding_eligible : bool;
  v_readiness_binding_cellular_owner_generation : option Z; v_readiness_binding_runtime_generation : option Z;
  v_readiness_binding_proxy_serving_generation : option Z; v_readiness_binding_mesh_admission_epoch : option Z;
  v_readiness_binding_credential_version : option Z; v_readiness_expected_freshness : option Z;
  v_readiness_observed_freshness : option Z; v_readiness_probe_in_flight : bool; v_readiness_refresh_pending : bool;
  v_readiness_probe_state : str; v_rotation_state : str; v_rotation_operation_id : option Z;
  v_rotation_before_generation : option Z; v_rotation_after_generation : option Z; v_rotation_restore_required : bool;
  v_rotation_terminal_result : option str; v_rotation_failure : option str; v_rotation_restore_result : option str;
  v_rotation_active_tasks : Z }.

Definition root_publication_current (g : ProductGenerationDiagnosticSnapshot) : bool :=
  is_some_and (root_publication g)
    (fun p => Cellular.last_sequence (publication_admission p) =b? Cellular.last_sequence (cellular_admission g)).

(** The result of the last publication, if that was for the admission there is now. *)
Definition current_root_result (g : ProductGenerationDiagnosticSnapshot) : option RootPolicyResult :=
  if root_publication_current g then publication_result <$> root_publication g else None.

Definition root_policy_authorized_generation (g : ProductGenerationDiagnosticSnapshot) : option Z :=
  p ← root_publication g;
  if publication_result p =b? Enforced then Cellular.last_sequence (publication_admission p) else None.

Definition root_policy_authorized (g : ProductGenerationDiagnosticSnapshot) : bool :=
  let admission := map_snapshot (cellular_admission g) in
  (cav_state admission =b? VAdmitted) && is_some (cav_last_sequence admission)
  && (root_policy_authorized_generation g =b? cav_last_sequence admission).

Definition root_authority_observation (r : option RootPolicyResult) : str :=
  match r with
  | Some Enforced => lit "READY_AT_POLICY_AUTHORIZATION"
  | Some (AuthorityUnavailable _) => lit "UNAVAILABLE"
  | _ => lit "NOT_OBSERVED"
  end.

Definition map_product_diagnostic_snapshot (snapshot : ProductDiagnosticSnapshot) : ProductDiagnosticSnapshotView :=
  let g := generation_snapshot snapshot in
  let r := runtime_snapshot snapshot in
  let admission := map_snapshot (cellular_admission g) in
  let root_result := publication_result <$> root_publication g in
  let proxy := map_proxy_publication (proxy_publication g) in
  let mesh := map_view <$> mesh_snapshot g in
  let epoch := mesh ≫= mav_admission_epoch in
  let running := is_some_and mesh mav_ingress_running in
  let owner := readiness_snapshot g in
  let readiness := map_readiness_diagnostic owner in
  let rotation := rotation_snapshot g in
  {| v_consistent := consistent snapshot;
     v_runtime_running := snap_state r <>b? Lifecycle.Stopped;
     v_runtime_generation := snap_generation r;
     v_runtime_active_tasks := snap_active_tasks r;
     v_cellular_state := cellular_admission_state_code (cav_state admission);
     v_cellular_reason := default (lit "NONE") (cellular_admission_reason_code <$> cav_reason admission);
     v_cellular_admitted := cav_state admission =b? VAdmitted;
     v_cellular_owner_sequence := cav_last_sequence admission;
     v_cellular_boundary_failure := cellular_boundary_failure (current_root_result g);
     v_cellular_reconcile := map_reconcile_diagnostic (cellular_reconcile g);
     v_dns := map_dns_diagnostic (dns g);
     v_root_authority_observation := root_authority_observation (current_root_result g);
     v_root_policy_authorized := root_policy_authorized g;
     v_root_session_generation := root_session_generation g;
     v_root_last_failure_class := root_result ≫= root_failure_class;
     v_root_policy_authorized_generation := root_policy_authorized_generation g;
     v_root_reconcile := map_root_policy_diagnostic (root_reconcile g);
     v_root_recovery := map_recovery_diagnostic (root_recovery g);
     v_proxy_state := proxy_state_code (prv_state proxy);
     v_proxy_healthy := (prv_state proxy =b? VServingRunning) && is_none (prv_failure proxy);
     v_proxy_failure := proxy_failure_code <$> prv_failure proxy;
     v_proxy_serving_generation := prv_serving_generation proxy;
     v_proxy_active_sessions := proxy_active_sessions g;
     v_proxy_recovery_pending := prv_recovery_pending proxy;
     v_proxy_recovery_operation_id := prv_recovery_operation_id proxy;
     v_proxy_recovery_attempts_scheduled := prv_recovery_attempts_since_success proxy;
     v_proxy_recovery_next_delay_ms := prv_recovery_next_delay_ms proxy;
     v_credential_active := diag_credential_active owner;
     v_credential_version := prv_credential_version proxy;
     v_mesh_state := default (lit "ABSENT") (mesh_state_code ∘ mav_state <$> mesh);
     v_mesh_admitted := is_some_and mesh (fun m => mav_state m =b? VMeshAdmitted);
     v_mesh_observation_sequence := mesh ≫= mav_last_sequence;
     v_mesh_admission_epoch := epoch;
     v_mesh_epoch_present := is_some epoch;
     v_mesh_ingress_running := running;
     v_mesh_serving_generation := if running then epoch else None;
     v_mesh_ingress_failure := mesh_failure_code (mesh_failure g);
     v_mesh_active_sessions := mav_active_sessions <$> mesh;
     v_mesh_capacity_rejects := mav_capacity_rejects <$> mesh;
     v_readiness_state := readiness_state_code (rdv_state readiness);
     v_readiness_binding_eligible := rdv_binding_eligible readiness;
     v_readiness_binding_cellular_owner_generation := pb_cellular_owner_generation <$> diag_binding owner;
     v_readiness_binding_runtime_generation := pb_runtime_generation <$> diag_binding owner;
     v_readiness_binding_proxy_serving_generation := pb_proxy_serving_generation <$> diag_binding owner;
     v_readiness_binding_mesh_admission_epoch := pb_mesh_admission_epoch <$> diag_binding owner;
     v_readiness_binding_credential_version := pb_credential_version <$> diag_binding owner;
     v_readiness_expected_freshness := diag_expected_freshness owner;
     v_readiness_observed_freshness := diag_observed_freshness owner;
     v_readiness_probe_in_flight := rdv_probe_in_flight readiness;
     v_readiness_refresh_pending := rdv_refresh_pending readiness;
     v_readiness_probe_state := readiness_probe_state_code (rdv_state readiness);
     v_rotation_state := rotation_phase_code (snap_phase rotation);
     v_rotation_operation_id := snap_operation_id rotation;
     v_rotation_before_generation := snap_before_generation rotation;
     v_rotation_after_generation := snap_after_generation rotation;
     v_rotation_restore_required := snap_restore_required rotation;
     v_rotation_terminal_result := rotation_terminal_code <$> snap_terminal_result rotation;
     v_rotation_failure := rotation_failure_code <$> snap_failure rotation;
     v_rotation_restore_result := rotation_restore_code <$> snap_restore_result rotation;
     v_rotation_active_tasks := rotation_active_tasks g |}.

Definition native_diagnostic_snapshot : gprog (result NativeProductRuntimeError ProductDiagnosticSnapshotView) :=
  let> r := diagnostic_snapshot in
  Ret (match r with Ok d => Ok (map_product_diagnostic_snapshot d) | Err e => Err (native_error e) end).

(** ** What the view says *)

(** The enumerations are projected one to one. *)
Lemma view_admitted s : (admission_state_view s =b? VAdmitted) = true <-> s = Cellular.IsAdmitted.
Proof. by destruct s. Qed.

Lemma view_running s : (proxy_state_view s =b? VServingRunning) = true <-> s = ServingRunning.
Proof. by destruct s. Qed.

Lemma view_ready r : readiness_state_code (map_readiness_state r) = lit "READY" <-> r = Readiness.Ready.
Proof. by destruct r. Qed.

(** A policy is called authorized exactly when it was enforced for this admission. *)
Lemma authorized_spec g :
  root_policy_authorized g = true <->
  exists p q, adm_state (cellular_admission g) = Cellular.IsAdmitted /\ Cellular.last_sequence (cellular_admission g) = Some q /\
    root_publication g = Some p /\ publication_result p = Enforced /\ Cellular.last_sequence (publication_admission p) = Some q.
Proof.
  unfold root_policy_authorized, root_policy_authorized_generation. cbn [map_snapshot cav_state cav_last_sequence].
  rewrite !andb_true_iff, view_admitted, bool_decide_eq_true. split.
  - intros [[Ha Hq] Hp]. destruct (Cellular.last_sequence (cellular_admission g)) as [q|]; [|done].
    destruct (root_publication g) as [p|]; [|done]. cbn in Hp. case_bool_decide as He; [|done]. by exists p, q.
  - intros (p & q & -> & -> & -> & He & Hq). cbn. by rewrite bool_decide_eq_true_2, Hq.
Qed.

(** Nothing that is asked about changes and changes back around [m]. *)
Definition steady (facts : nat -> gid -> forall f, fact_reply f) (g : gid) (k0 m k1 : nat) : Prop :=
  forall f i j, (k0 <= i <= m)%nat -> (m <= j <= k1)%nat -> facts i g f = facts j g f -> facts m g f = facts i g f.

(** C40: What Android is shown held.  Take a consistent view, made while the product and its
    owners went on.  One generation was installed, under the number the view carries, all
    the while; and, unless some fact changed and changed back, there was a moment at which
    the root policy was called authorized exactly if cellular was admitted and the last
    publication was an enforcement for that very admission, the product was called ready
    exactly if readiness said so, the proxy was called healthy exactly if it ran without
    failure, and a serving mesh epoch was shown exactly if ingress ran in it. *)
Theorem consistent_view_held uid built w es facts clock v :
  native_new uid built = Ok w -> (forall i j, (i <= j)%nat -> (clock i <= clock j)%nat) ->
  let timeline := going_on w es facts in
  watch native_diagnostic_snapshot timeline clock = Ok v -> v_consistent v = true ->
  exists g k0 m k1, (k0 <= m <= k1)%nat /\
    (forall k, (k0 <= k <= k1)%nat -> generation (ProductRuntime.state (product_at (timeline k))) = g /\
       Lifecycle.generation (lifecycle (ProductRuntime.state (product_at (timeline k)))) = v_runtime_generation v) /\
    (steady facts g k0 m k1 ->
      (v_root_policy_authorized v = true <->
         exists a p q, facts m g FAdmission = Ok a /\ adm_state a = Cellular.IsAdmitted /\ Cellular.last_sequence a = Some q /\
           facts m g FPublication = Some p /\ publication_result p = Enforced /\
           Cellular.last_sequence (publication_admission p) = Some q) /\
      (v_readiness_state v = lit "READY" <-> diag_state (facts m g FReadiness) = Readiness.Ready) /\
      (v_proxy_healthy v = true <-> pub_state (facts m g FProxy) = ServingRunning /\ pub_failure (facts m g FProxy) = None) /\
      (forall e, v_mesh_serving_generation v = Some e <->
         exists s, facts m g FMesh = Ok s /\ ts_ingress_running s = true /\ Transport.admission_epoch (ts_admission s) = Some e)).
Proof.
  intros Hw Hclock timeline Hv Hc.
  assert (product_ok w) as Hok.
  { unfold native_new in Hw. destruct (uid =? 0); [done|]. destruct (product_new uid built) eqn:E; [|done]. injection Hw as <-.
    by eapply product_new_ok. }
  assert (exists d, watch diagnostic_snapshot timeline clock = Ok d /\ v = map_product_diagnostic_snapshot d) as (d & Hd & ->).
  { unfold native_diagnostic_snapshot in Hv. rewrite watch_map in Hv. destruct (watch _ _ _) as [d|e]; [|done]. injection Hv as <-. by exists d. }
  destruct (diagnostic_read _ _ _ _ _ Hok Hclock Hd) as (g & k0 & m & k1 & Hk & H1 & _ & H3 & H4). destruct (H4 Hc) as [H5 H6].
  exists g, k0, m, k1. split; [done|]. split; [cbn; by rewrite H1|]. intros Hst.
  assert (forall f, shows (generation_snapshot d) f (facts m g f)) as Hs.
  { intros f. destruct (H6 f) as (i & Hi & Si). destruct (H3 f) as (j & Hj & Sj). eapply shows_between; [exact Si|exact Sj|]. by apply Hst. }
  clear H3 H4 H5 H6. set (s := generation_snapshot d) in *. pose proof (Hs FAdmission) as Sa. pose proof (Hs FPublication) as Sp.
  pose proof (Hs FReadiness) as Sr. pose proof (Hs FProxy) as Sx. pose proof (Hs FMesh) as Sm. cbn [shows] in Sa, Sp, Sr, Sx, Sm.
  rewrite Sa, Sp, Sr, Sx. split; [|split; [|split]].
  - change (v_root_policy_authorized (map_product_diagnostic_snapshot d)) with (root_policy_authorized s). rewrite authorized_spec. naive_solver.
  - apply view_ready.
  - cbn. fold s. rewrite andb_true_iff, view_running. destruct (pub_failure (proxy_publication s)); cbn; naive_solver.
  - intros e. cbn. fold s. destruct (facts m g FMesh) as [x|x].
    + rewrite Sm. cbn. clear -x. split.
      * destruct (ts_ingress_running x) eqn:Hx; [|done]. intros He. by exists x.
      * intros (x' & [= <-] & -> & He). done.
    + destruct Sm as [-> _]. cbn. split; [done|]. by intros (x' & ? & _).
Qed.

(** ** What the handle lets through *)

(** An observation of the platform reaches the product's memory, as the first thing that
    happens and word for word, exactly if it is well formed; a malformed one is refused
    and nothing happens at all. *)
Theorem observations_checked_first :
  (forall input, emits (native_observe_network input) (fun t r =>
     let q := in_sequence input in let h := in_network_handle input in
     if (q =? 0) || (h =? 0) then t = [] /\ is_ok r = false
     else exists g t', t = ddid (DLocked (SObserve q {| obs_sequence := q; obs_handle := h; is_cellular := in_is_cellular input;
                              has_internet := in_has_internet input; is_validated := in_is_validated input;
                              is_not_vpn := in_is_not_vpn input |} h (in_interface_name input))) g :: t')) /\
  (forall q h, emits (native_network_lost q h) (fun t r =>
     if (q =? 0) || (h =? 0) then t = [] /\ is_ok r = false else exists g t', t = ddid (DLocked (SLost q h)) g :: t')) /\
  (forall q raw, emits (observe_mesh_unique_vpn q raw) (fun t r =>
     (t = [] /\ r = Err BInvalidVpnObservation /\ exists s, s ∈ raw /\ parse_ipv4 s = None) \/
     (exists l g t', Forall2 (fun s a => parse_ipv4 s = Some a) raw l /\
        t = ddid (DLocked (SMesh q (Transport.UniqueVpn l))) g :: t'))).
Proof.
  split; [|split].
  - intros [q h c i v n name]. unfold native_observe_network, ObservationSequence_new, NetworkHandle_new.
    cbn [in_sequence in_network_handle in_is_cellular in_has_internet in_is_validated in_is_not_vpn in_interface_name].
    destruct (q =? 0); [by apply emits_ret|]. destruct (h =? 0); [by apply emits_ret|]. unfold observe_network. cbn [prog_bind request]. apply emits_do. intros g.
    eapply emits_mono; [|apply emits_true]. intros t r _. by exists g, t.
  - intros q h. unfold native_network_lost, ObservationSequence_new, NetworkHandle_new, network_lost.
    destruct (q =? 0) eqn:Hq; [by apply emits_ret|]. destruct (h =? 0); [by apply emits_ret|]. rewrite Hq. cbn [prog_bind request]. apply emits_do. intros g.
    eapply emits_mono; [|apply emits_true]. intros t r _. by exists g, t.
  - intros q raw. unfold observe_mesh_unique_vpn. destruct (mapM parse_ipv4 raw) as [l|] eqn:E.
    + apply mapM_Some in E. unfold native_observe_mesh, observe_mesh_vpn. cbn [prog_bind request]. apply emits_do. intros g. eapply emits_mono; [|apply emits_true]. intros t r _. right. by exists l, g, t.
    + apply emits_ret. left. split_and!; [done|done|]. apply mapM_None, Exists_exists in E. exact E.
Qed.

Lemma restores_nothing (t : list dev) g s u p a y :
  Forall (fun x => match projT1 x with DGen _ (GRestoreTemporary _ _ _ _) => False | _ => True end) t ->
  ddid (DGen g (GRestoreTemporary s u p a)) y ∈ t -> False.
Proof. intros Ht Hin. rewrite Forall_forall in Ht. by apply (Ht _ Hin). Qed.

(** A restoration that has ended without a call. *)
Ltac no_restoration := apply emits_ret; intros; exfalso; eapply restores_nothing; [|eassumption]; by repeat constructor.

(** The temporary credential comes back only where it belongs.  The platform is told of a
    publication as it is; a restoration is asked for exactly when the proxy reports that
    it runs, a provider is registered, the product is active and its executor takes the
    task, and it is for the active generation and the serving generation that were
    reported.  What that task installs is the platform's current record, with the
    registered check, into the generation of that number while it is active and serves
    what was reported. *)
Theorem restoration_belongs provider publication :
  emits (on_proxy_runtime provider publication) (fun t v =>
    v = map_proxy_publication publication /\
    (pub_state publication <> ServingRunning /\ t = [] \/
     pub_state publication = ServingRunning /\ exists active,
       match provider, active with
       | Some check, Some g =>
           t = [ddid (DLocked SActive) active; ddid (DNumber g) None] \/
           exists e ok, t = [ddid (DLocked SActive) active; ddid (DNumber g) (Some e);
                             ddid (DSpawn (RestoreTask e (pub_serving_generation publication) check)) ok]
       | _, _ => t = [ddid (DLocked SActive) active]
       end)) /\
  forall e serving check, emits (restore_temporary e serving check) (fun t _ =>
    forall g s u p a y, ddid (DGen g (GRestoreTemporary s u p a)) y ∈ t ->
      a = check /\ serving = Some s /\ ddid DLoadRecord (Some (u, p)) ∈ t /\ ddid (DLocked SActive) (Some g) ∈ t /\
      ddid (DNumber g) (Some e) ∈ t /\ ddid (DGen g GServingGeneration) (Some s) ∈ t).
Proof.
  split.
  - unfold on_proxy_runtime, restore_temporary_proxy_credential_after_running.
    case_bool_decide as Hs; [|apply emits_ret; split; [done|by left]].
    cbn [prog_bind request]. apply emits_do. intros active. cbn [diag_reply product_reply dsection_reply] in active.
    destruct provider as [check|]; [|apply emits_ret; split; [done|right; split; [done|by exists active]]].
    destruct active as [g|]; [|apply emits_ret; split; [done|right; split; [done|by exists None]]].
    cbn [prog_bind]. apply emits_do. intros [e|]; cbn [prog_bind].
    + apply emits_do. intros ok. apply emits_ret. split; [done|]. right. split; [done|]. exists (Some g). right. by exists e, ok.
    + apply emits_ret. split; [done|]. right. split; [done|]. exists (Some g). by left.
  - intros e serving check. unfold restore_temporary. cbn [prog_bind request]. apply emits_do.
    intros [[u p]|]; [|no_restoration].
    cbn [prog_bind]. apply emits_do. intros [g|]; [|no_restoration].
    cbn [prog_bind]. apply emits_do. intros n. case_bool_decide as Hn; cbn [negb];
      [|no_restoration]. subst n.
    cbn [prog_bind]. apply emits_do. intros now. case_bool_decide as Hn; cbn [negb];
      [|no_restoration]. subst now.
    destruct serving as [s|]; [|no_restoration].
    cbn [prog_bind]. apply emits_do. intros ok. apply emits_ret. intros g' s' u' p' a y Hin.
    change (?a :: ?b :: ?c :: ?d :: ?l) with ([a; b; c; d] ++ l) in Hin. apply elem_of_app in Hin as [Hin|Hin].
    + exfalso. eapply restores_nothing; [|exact Hin]. by repeat constructor.
    + apply list_elem_of_singleton, (f_equal (@projT1 _ _)) in Hin. cbn in Hin. injection Hin as -> -> -> -> ->.
      split_and!; [done|done|..]; repeat first [left|right].
Qed.

(** ** Examples *)

(** Owners of a product that carries traffic. *)
Definition ready_admission : CellularAdmissionSnapshot :=
  {| adm_state := Cellular.IsAdmitted; adm_reason := None; admitted_network := Some 100; Cellular.last_sequence := Some 7 |}.

Definition ready_facts (f : fact) : fact_reply f :=
  match f return fact_reply f with
  | FAdmission => Ok ready_admission
  | FPublication => Some {| publication_admission := ready_admission; publication_result := Enforced |}
  | f => some_facts 2 0 f
  end.

Lemma consistent_view_held_witness :
  exists v, watch native_diagnostic_snapshot (going_on some_world some_events (fun _ _ => ready_facts)) (fun n => n) = Ok v /\
    v_root_policy_authorized v = true /\ v_readiness_state v <> lit "READY" /\
    exists k, Lifecycle.generation (lifecycle (ProductRuntime.state
      (product_at (going_on some_world some_events (fun _ _ => ready_facts) k)))) = v_runtime_generation v.
Proof.
  destruct (watch native_diagnostic_snapshot (going_on some_world some_events (fun _ _ => ready_facts)) (fun n => n)) as [v|e] eqn:Ev;
    [|by vm_compute in Ev].
  assert (v_consistent v = true) as Hc by (vm_compute in Ev; by injection Ev as <-).
  destruct (consistent_view_held 10123 true some_world some_events (fun _ _ => ready_facts) (fun n => n) v eq_refl
    ltac:(done) Ev Hc) as (g & k0 & m & k1 & Hk & Hg & Hst).
  destruct (Hst (fun f i j _ _ _ => eq_refl)) as (Ha & Hr & _). exists v. split; [done|]. split_and!.
  - apply Ha. exists ready_admission, {| publication_admission := ready_admission; publication_result := Enforced |}, 7.
    split_and!; reflexivity.
  - intros Hx. apply Hr in Hx. discriminate Hx.
  - exists k0. apply Hg. lia.
Defined.
