(* ===== verification/GenerationComposition.v ===== *)
(** * A product generation, wired

    [src/crates/runtime/src/product_generation.rs]: the policy coordinator of
    [PolicyCoordinator] and the readiness runtime of [ReadinessRuntime] in one
    generation.  The readiness runtime is an observer of the policy coordinator,
    called in the thread that publishes, outside of the coordinator's lock: its
    programs run inside those of the coordinator, interleaved with everything
    else.  So what one owner promises reaches the other: READY rests on an
    enforcement that was published, and an ingress is started only behind one. *)

From Stdlib Require Import String.
From S2P Require Import RotationRuntime.
From S2P Require Import Prelude Net RustStr ProxyAuth Configuration Cellular.
From S2P Require Import Interaction Threads CellularRuntime RootPolicy RootPolicyRuntime RootPolicyTransaction PolicyCoordinator PolicyTasks.
From S2P Require Import Transport Readiness EgressProbe ReadinessProbe Interaction MeshComposition ReadinessRuntime ReadinessTasks.

(** ** Programs of both owners *)

Inductive generation_request := GPolicy (r : policy_request) | GReadiness (r : readiness_request).

Definition generation_reply (r : generation_request) : Type :=
  match r with GPolicy r => policy_reply r | GReadiness r => readiness_reply r end.

Abbreviation gprog := (prog generation_request generation_reply).
Abbreviation gev := (event generation_request generation_reply).
Abbreviation gdid := (@existT generation_request generation_reply).

(** A method of the readiness runtime. *)
Fixpoint with_readiness {A} (p : rprog A) : gprog A :=
  match p with
  | Ret a => Ret a
  | Do r k => @Do generation_request generation_reply A (GReadiness r) (fun x => with_readiness (k x))
  end.

(** The observers [ProductGeneration::new] registers with the policy coordinator:
    the readiness runtime as an admission observer and as an observer, then the
    rotation runtime as an observer. *)
Definition READINESS_OBSERVER : nat := 0.
Definition ROTATION_OBSERVER : nat := 1.

(** What a notification of the policy coordinator runs. *)
Definition callback (r : policy_request) : gprog unit :=
  match r with
  | PNotify o p =>
      if (o =? READINESS_OBSERVER)%nat then with_readiness (finish_with (observe_cellular p)) else Ret tt
  | PNotifyAdmission o a =>
      if (o =? READINESS_OBSERVER)%nat then with_readiness (finish_with (observe_cellular_admission a)) else Ret tt
  | _ => Ret tt
  end.

(** A method of the policy coordinator, its observers called where it calls them. *)
Fixpoint wired {A} (p : pprog A) : gprog A :=
  match p with
  | Ret a => Ret a
  | Do r k => @Do generation_request generation_reply A (GPolicy r) (fun x => let> _ := callback r in wired (k x))
  end.

(** ** Callers, tasks and the shared state *)

(** Cellular facts reach the readiness runtime through the coordinator only. *)
Inductive generation_caller := FromPolicy (c : policy_caller) | FromReadiness (c : readiness_caller).

Definition from_readiness (p : rprog unit) : gprog policy_returned := let> _ := with_readiness p in Ret RUnit.

Definition generation_body (c : generation_caller) : gprog policy_returned :=
  match c with
  | FromPolicy c => wired (policy_body c)
  | FromReadiness (CallCellularAdmission _) | FromReadiness (CallCellular _) => Ret RUnit
  | FromReadiness c => from_readiness (readiness_body c)
  end.

Record generation_world := { policy_side : policy_state; readiness_side : readiness_world }.

Record generation_input := { policy_in : policy_input; readiness_in : readiness_input }.

Definition generation_serve (r : generation_request) (w : generation_world) (f : nat -> bool) (n : nat) (x : generation_input)
    : option (generation_reply r * generation_world) :=
  match r return option (generation_reply r * generation_world) with
  | GPolicy r =>
      (fun y => (y.1, {| policy_side := y.2; readiness_side := readiness_side w |})) <$> policy_serve r (policy_side w) f n (policy_in x)
  | GReadiness r =>
      (fun y => (y.1, {| policy_side := policy_side w; readiness_side := y.2 |}))
        <$> readiness_serve r (readiness_side w) f n (readiness_in x)
  end.

Definition generation_born (turns fuel : nat) (r : generation_request) : generation_reply r -> list (gprog policy_returned) :=
  match r return generation_reply r -> list (gprog policy_returned) with
  | GPolicy r => fun y => wired <$> policy_born turns fuel r y
  | GReadiness r => fun y => from_readiness <$> readiness_born r y
  end.

Abbreviation generation_step turns fuel := (Threads.step generation_serve (generation_born turns fuel) generation_body).
Abbreviation generation_events turns fuel := (Threads.events generation_serve (generation_born turns fuel) generation_body).
Abbreviation generation_runs turns fuel := (Threads.runs generation_serve (generation_born turns fuel) generation_body).

(** [ProductGeneration::new]: the owners that have a state of their own here, and
    the observers.  No publication has been made when they register. *)
Definition wire (s : CoordinatorState) : CoordinatorState :=
  sections_run s ((fun l => (l, 0, admission Cellular.new))
    <$> [SAddAdmission READINESS_OBSERVER; SAddInternal READINESS_OBSERVER; SAddInternal ROTATION_OBSERVER]).

Definition composed_new (uid : Z) (namespace : RootPolicyNamespace) (generation : Z) : option generation_world :=
  if (generation =? 0) || (uid =? 0) then None
  else
    match runtime_new uid namespace, mesh_world_new, readiness_new generation with
    | Some root, Ok m, Ok r =>
        let p := policy_start root in
        Some {| policy_side := {| coordinator_state := wire (coordinator_state p); PolicyCoordinator.cellular := PolicyCoordinator.cellular p;
                                  PolicyCoordinator.root := PolicyCoordinator.root p |};
                readiness_side := {| readiness := r; mesh_side := m |} |}
    | _, _, _ => None
    end.

Definition alone (w : generation_world) : Threads.world generation_request generation_reply generation_world policy_returned :=
  {| shared := w; threads := [] |}.

(** ** Notifications follow publications *)

(** A section that published [p], or that handed out [p] as what was published. *)
Definition speaks (p : CellularPolicyPublication) (e : pev) : Prop :=
  match e with
  | existT (PLocked l) y =>
      match l return psection_reply l -> Prop with
      | SPublish p' => fun _ => p' = p
      | PolicyCoordinator.SSetObserver _ | SAddInternal _ => fun y => y = Some p
      | _ => fun _ => False
      end y
  | _ => False
  end.

Definition told_behind (t : list pev) (r : policy_request) (_ : policy_reply r) : Prop :=
  match r with PNotify _ p => Exists (speaks p) t | _ => True end.

Abbreviation behind p t := (always (fun _ _ => True) told_behind p t).

(** Requests that notify no observer. *)
Definition silent (r : policy_request) : Prop := match r with PNotify _ _ => False | _ => True end.

Ltac hush :=
  repeat first
    [ exact I
    | match goal with
      | |- only _ (prog_bind _ _) => apply only_bind; [|intros ?]
      | |- only _ (request _) => split; [exact I|intros ?]
      | |- only _ (pask _) => split; [exact I|intros ?]
      | |- only _ (plock _) => split; [exact I|intros ?]
      | |- only _ (Do _ _) => split; [exact I|intros ?]
      | |- only _ (match ?x with _ => _ end) => destruct x
      end ].

Lemma behind_silent {A} (p : pprog A) t : only silent p -> behind p t.
Proof. apply only_always. intros t' r x Hr. by destruct r. Qed.

Lemma behind_step {A} r (k : policy_reply r -> pprog A) t :
  silent r -> (forall x, behind (k x) (t ++ [pdid r x])) -> behind (Do r k) t.
Proof. intros Hr Hk x _. split; [by destruct r|apply Hk]. Qed.

Lemma silent_root {A} ic (p : prog io_request io_reply A) : only rooty ic -> only silent (with_root ic p).
Proof. intros Hic. eapply only_mono; [|by apply only_with_root]. by intros []. Qed.

Lemma silent_current r : only rooty (request_is_current r).
Proof. unfold request_is_current. hush. Qed.

Lemma silent_root_call {E A} ic (m : rio E A) : only rooty ic -> only silent (root_call ic m).
Proof. intros Hic. unfold root_call. split; [exact I|]. intros s. cbn [prog_bind]. apply only_bind; [by apply silent_root|]. intros x. hush. Qed.

Lemma silent_notify_admissions os a : only silent (notify_admissions os a).
Proof. induction os; cbn [notify_admissions]; hush. exact IHos. Qed.

Lemma silent_publish_admission a : only silent (publish_admission a).
Proof. unfold publish_admission. hush. apply silent_notify_admissions. Qed.

Lemma silent_enqueue a : only silent (enqueue_owner_generation a).
Proof. unfold enqueue_owner_generation, offer_new_owner_request. hush. Qed.

Lemma behind_notify os p t : Exists (speaks p) t -> behind (notify_each os p) t.
Proof.
  revert t. induction os as [|o os IH]; intros t Ht; [exact I|]. intros [] _. split; [exact Ht|]. apply IH, Exists_app. by left.
Qed.

Lemma behind_publish a r t : behind (publish a r) t.
Proof.
  unfold publish. cbn [prog_bind plock request]. apply behind_step; [exact I|]. intros os. apply behind_notify, Exists_app. right. by left.
Qed.

Lemma behind_conclude r result t : behind (conclude r result) t.
Proof.
  assert (forall t, behind (let> _ := plock SReset in publish (req_admission r) result) t) as Hp.
  { intros t'. apply behind_step; [exact I|]. intros []. apply behind_publish. }
  destruct result as [| |]; cbn [conclude].
  - destruct (Cellular.last_sequence _); [|exact I]. destruct (admitted_network _); [|exact I].
    apply behind_step; [exact I|]. intros [|]; [apply Hp|exact I].
  - destruct (_ && _); [apply Hp|]. destruct (retryable _); [|apply Hp].
    apply always_bind; [apply behind_publish|]. intros u t'. apply behind_silent. unfold schedule_recovery. hush.
  - destruct (_ && _); [apply Hp|]. destruct (retryable _); [|apply Hp].
    apply always_bind; [apply behind_publish|]. intros u t'. apply behind_silent. unfold schedule_recovery. hush.
Qed.

Lemma behind_process fuel r at_ t : behind (process_request fuel r at_) t.
Proof.
  unfold process_request. pose proof (silent_current r) as Hc.
  assert (only silent (request_is_current r)) as Hs by (eapply only_mono; [|exact Hc]; by intros []).
  apply always_bind; [by apply behind_silent|]. intros current t1. destruct (negb current); [exact I|].
  do 4 (apply behind_step; [exact I|]; intros ?). destruct (negb _); [exact I|].
  apply always_bind; [by apply behind_silent|]. intros current' t2. destruct (negb current'); [exact I|].
  apply behind_step; [exact I|]. intros []. apply always_bind; [apply behind_silent; by apply silent_root_call|].
  intros [[[result|]|]|] t3; try exact I; [|apply behind_silent; hush].
  apply always_bind; [by apply behind_silent|]. intros current'' t4. destruct (negb current''); [apply behind_silent; hush|].
  apply always_bind; [apply behind_conclude|]. intros; exact I.
Qed.

Lemma behind_drain turns fuel t : behind (drain turns fuel) t.
Proof.
  revert t. induction turns as [|turns IH]; intros t; cbn [drain]; [exact I|].
  apply behind_step; [exact I|]. intros [[r at_]|]; [|exact I]. cbn [prog_bind].
  apply always_bind; [apply behind_process|]. intros [u|] t'; [|exact I]. apply behind_step; [exact I|]. intros []. apply IH.
Qed.

Lemma behind_task turns fuel task : behind (policy_task_body turns fuel task) [].
Proof.
  destruct task; cbn [policy_task_body]; (apply always_bind; [|intros; exact I]); [apply behind_drain|].
  apply behind_silent. unfold recovery_task, fire_recovery. hush.
Qed.

Lemma behind_caller c : behind (policy_body c) [].
Proof.
  destruct c; cbn [policy_body]; (apply always_bind; [|intros; exact I]);
    try (apply behind_silent; unfold start, observe_network, network_lost, add_internal_admission_observer;
         repeat first [apply silent_publish_admission | apply silent_enqueue | progress hush]; done).
  1-2: apply behind_step; [exact I|]; intros [p|]; [|exact I]; intros [] _; (split; [by left|exact I]).
  apply behind_silent. unfold PolicyCoordinator.shutdown. hush; by apply silent_root_call.
Qed.

(** ** What a thread of the generation promises *)

Definition policy_part (t : list gev) : list pev :=
  omap (fun e : gev => match e with existT (GPolicy r) y => Some (pdid r y) | _ => None end) t.

Definition readiness_part (t : list gev) : list rev :=
  omap (fun e : gev => match e with existT (GReadiness r) y => Some (rdid r y) | _ => None end) t.

(** A cellular fact that claims a verified policy repeats a publication of enforcement. *)
Definition verified_by (p : CellularPolicyPublication) (f : CellularReadinessFact) : Prop :=
  publication_result p = Enforced /\ cellular_fact (publication_admission p) true = Ok (Some f).

Definition reported (t : list gev) (r : readiness_request) : Prop :=
  match r with
  | RLocked (SUpdate (UCellular (Some f))) =>
      cf_root_policy_verified f = true -> exists p, Exists (speaks p) (policy_part t) /\ verified_by p f
  | _ => True
  end.

Section wiring.
Context (c0 : RootPolicyContract).

Definition generation_safe (t : list gev) (r : generation_request) : generation_reply r -> Prop :=
  match r return generation_reply r -> Prop with
  | GPolicy r => fun y => policy_safe c0 (policy_part t) r y /\ told_behind (policy_part t) r y
  | GReadiness r => fun y => readiness_safe (readiness_part t) r y /\ reported t r
  end.

Definition generation_promised (r : generation_request) : generation_reply r -> Prop :=
  match r return generation_reply r -> Prop with
  | GPolicy r => policy_promised c0 r
  | GReadiness r => readiness_promised r
  end.

Abbreviation holds p t := (always generation_promised generation_safe p t).

Lemma reported_app t t' r : reported t r -> reported (t ++ t') r.
Proof.
  destruct r as [[[[f|]|?|? ? ? ? ?| |? ?]| | | | | | | | | | ]| | | | | |]; try done. cbn [reported]. intros H Hf.
  destruct (H Hf) as (p & Hp & Hv). exists p. split; [|done]. unfold policy_part. rewrite omap_app. apply Exists_app. by left.
Qed.

Lemma holds_readiness {A} (p : rprog A) t :
  always readiness_promised readiness_safe p (readiness_part t) -> only (reported t) p -> holds (with_readiness p) t.
Proof.
  revert t. induction p as [a|r k IH]; intros t Hp Ho; [exact I|]. destruct Ho as [Hr Ho]. intros x Hx.
  destruct (Hp x Hx) as [H1 H2]. split; [done|]. apply IH.
  - unfold readiness_part. by rewrite omap_app.
  - eapply only_mono; [|apply Ho]. intros q. apply reported_app.
Qed.

(** Of a structural update, the update itself is what is reported. *)
Definition reports (u : update) (r : readiness_request) : Prop :=
  match r with RLocked (SUpdate u') => u' = u | _ => True end.

Lemma reports_mesh {A} u (p : mprog A) : only (reports u) (with_mesh p).
Proof. induction p as [a|r k IH]; [exact I|]. by split. Qed.

Lemma reports_publish u r : only (reports u) (publish_readiness r).
Proof.
  unfold publish_readiness. apply only_bind; [apply reports_mesh|]. intros _. split; [exact I|].
  intros [o|]; cbn; [|exact I]. by split.
Qed.

Lemma reports_complete u t outcome el : only (reports u) (complete_probe t outcome el).
Proof.
  unfold complete_probe. split; [exact I|]. intros [[r [[e b]|]]|]; cbn [prog_bind]; [| |exact I];
    (apply only_bind; [apply reports_publish|]; intros _); [|exact I].
  split; [exact I|]. intros [|]; [exact I|]. by split.
Qed.

Lemma reports_update u : only (reports u) (update_structural u).
Proof.
  unfold update_structural. split; [reflexivity|]. intros [[[r [t|]]|]|e]; cbn [prog_bind]; try exact I;
    (apply only_bind; [apply reports_publish|]; intros _); [|exact I].
  apply only_bind.
  - split; [exact I|]. intros [c|e]; [|exact I]. by split.
  - intros [|e]; [exact I|]. apply only_bind; [apply reports_complete|]. by intros.
Qed.

Lemma holds_update u t : reported t (RLocked (SUpdate u)) -> holds (with_readiness (finish_with (update_structural u))) t.
Proof.
  intros Hu. apply holds_readiness; [apply readiness_keeps_finish, keeps_update|]. apply only_bind; [|done].
  eapply only_mono; [|apply reports_update]. intros r Hr. destruct r as [l| | | | | |]; try done. destruct l; try done.
  cbn in Hr. by subst.
Qed.

Lemma holds_observe p t : Exists (speaks p) (policy_part t) -> holds (with_readiness (finish_with (observe_cellular p))) t.
Proof.
  intros Hp. unfold observe_cellular. destruct (cellular_fact _ _) as [fact|e] eqn:E; [|exact I]. apply holds_update.
  destruct fact as [f|]; [|exact I]. intros Hf. exists p. split; [done|]. unfold verified_by.
  destruct (publication_result p) eqn:Hr; [done|exfalso..]; revert E Hf; unfold cellular_fact;
    (destruct (Cellular.last_sequence _) as [n|]; [|done]); (destruct (generation_key_new n); [|done]); by intros [= <-].
Qed.

Lemma holds_observe_admission a t : holds (with_readiness (finish_with (observe_cellular_admission a))) t.
Proof.
  unfold observe_cellular_admission. destruct (cellular_fact _ _) as [fact|e] eqn:E; [|exact I]. apply holds_update.
  destruct fact as [f|]; [|exact I]. intros Hf. exfalso. revert E Hf. unfold cellular_fact.
  destruct (Cellular.last_sequence _) as [n|]; [|done]. destruct (generation_key_new n); [|done]. by intros [= <-].
Qed.

Definition of_readiness (r : generation_request) : Prop := match r with GReadiness _ => True | GPolicy _ => False end.

Lemma only_of_readiness {A} (p : rprog A) : only of_readiness (with_readiness p).
Proof. induction p as [a|r k IH]; [exact I|]. by split. Qed.

Lemma callback_of_readiness r : only of_readiness (callback r).
Proof. destruct r; try exact I; cbn [callback]; (destruct (_ =? _)%nat; [apply only_of_readiness|exact I]). Qed.

Lemma policy_part_readiness t : Forall (fun e : gev => of_readiness (projT1 e)) t -> policy_part t = [].
Proof. induction 1 as [|[[r|r] y] t He _ IH]; done. Qed.

Lemma holds_callback r x t : told_behind (policy_part t) r x -> holds (callback r) (t ++ [gdid (GPolicy r) x]).
Proof.
  intros Hr. destruct r; try exact I; cbn [callback]; (destruct (_ =? _)%nat; [|exact I]).
  - apply holds_observe. unfold policy_part. rewrite omap_app. apply Exists_app. by left.
  - apply holds_observe_admission.
Qed.

Lemma holds_wired {A} (p : pprog A) t :
  always (policy_promised c0) (policy_safe c0) p (policy_part t) -> behind p (policy_part t) -> holds (wired p) t.
Proof.
  revert t. induction p as [a|r k IH]; intros t Hp Hb; [exact I|]. intros x Hx.
  destruct (Hp x Hx) as [H1 H2]. destruct (Hb x I) as [H3 H4]. split; [done|].
  apply (always_bind_only of_readiness); [apply callback_of_readiness|by apply holds_callback|].
  intros u t' Ht'. assert (policy_part ((t ++ [gdid (GPolicy r) x]) ++ t') = policy_part t ++ [pdid r x]) as E.
  { unfold policy_part. rewrite !omap_app. fold (policy_part t'). by rewrite (policy_part_readiness t' Ht'), app_nil_r. }
  apply IH; by rewrite E.
Qed.

Lemma holds_from_readiness p :
  always readiness_promised readiness_safe p [] -> only (reported []) p -> holds (from_readiness p) [].
Proof. intros Hp Ho. apply always_bind; [by apply holds_readiness|]. intros; exact I. Qed.

(** The other callers report no cellular fact. *)
Lemma reported_finish {A} u (p : rprog A) :
  (forall f, u <> UCellular f) -> only (reports u) p -> only (reported []) (finish_with p).
Proof.
  intros Hu Hp. apply only_bind; [|done]. eapply only_mono; [|exact Hp].
  intros [[[f| | | |]| | | | | | | | | |]| | | | | |] Hr; try exact I. by destruct (Hu f).
Qed.

Lemma reported_mesh {A} (p : mprog A) : only (reported []) (with_mesh p).
Proof. eapply only_mono; [|apply (reports_mesh UProxyStopped)]. intros [[[[]| | | |]| | | | | | | | | |]| | | | | |]; done. Qed.

Lemma holds_caller c : holds (generation_body c) [].
Proof.
  destruct c as [c|c]; cbn [generation_body]; [apply holds_wired; [apply keeps_caller|apply behind_caller]|].
  destruct c; try exact I; apply holds_from_readiness; try apply readiness_keeps_caller; cbn [readiness_body];
    try (apply only_bind; [apply reported_mesh|done]).
  - unfold observe_mesh. cbn [prog_bind request finish_with]. split; [exact I|]. intros g.
    destruct (optional_key _); [|exact I]. by eapply reported_finish, reports_update.
  - unfold observe_proxy_started. destruct (generation_key_new credential_version); [|exact I]. split; [exact I|]. intros n.
    cbn [prog_bind]. destruct (generation_key_new serving_generation); [|exact I]. by eapply reported_finish, reports_update.
  - by eapply reported_finish, reports_update.
  - unfold observe_credential. destruct (optional_key _); [|exact I]. by eapply reported_finish, reports_update.
  - by repeat (split || intro).
  - split; [exact I|]. intros [r|]; [|exact I]. cbn [prog_bind]. apply only_bind; [apply reported_mesh|done].
  - apply reported_mesh.
Qed.

Lemma reported_task task : only (reported []) (readiness_task_body task).
Proof.
  destruct task as [ticket c|epoch b]; cbn [readiness_task_body].
  - do 3 (split; [exact I|]; intros ?). eapply only_mono; [|apply (reports_complete UProxyStopped)].
    intros [[[[]| | | |]| | | | | | | | | |]| | | | | |]; done.
  - split; [exact I|]. intros []. split; [exact I|]. intros [t|]; [|exact I]. cbn [prog_bind]. apply only_bind; [|done].
    split; [exact I|]. intros [c|e]; [|exact I]. by split.
Qed.

Lemma holds_born turns fuel r (y : generation_reply r) : Forall (fun p => holds p []) (generation_born turns fuel r y).
Proof.
  destruct r as [r|r]; cbn [generation_born]; apply Forall_fmap, Forall_forall; intros p Hp; unfold compose.
  - destruct r; try done. change bool in y; cbn in Hp; destruct y; [|done]. destruct Hp as [<-|[]]. apply holds_wired; [apply keeps_task|apply behind_task].
  - destruct r; try done. change bool in y; cbn in Hp; destruct y; [|done]. destruct Hp as [<-|[]]. apply holds_from_readiness; [apply readiness_keeps_task|apply reported_task].
Qed.

Lemma generation_serve_policy r w f n x y w' :
  generation_serve (GPolicy r) w f n x = Some (y, w') ->
  policy_serve r (policy_side w) f n (policy_in x) = Some (y, policy_side w') /\ readiness_side w' = readiness_side w.
Proof. cbn [generation_serve]. destruct (policy_serve _ _ _ _ _) as [[y0 p]|]; [|done]. intros H. injection H as <- <-. done. Qed.

Lemma generation_serve_readiness r w f n x y w' :
  generation_serve (GReadiness r) w f n x = Some (y, w') ->
  readiness_serve r (readiness_side w) f n (readiness_in x) = Some (y, readiness_side w') /\ policy_side w' = policy_side w.
Proof. cbn [generation_serve]. destruct (readiness_serve _ _ _ _ _) as [[y0 p]|]; [|done]. intros H. injection H as <- <-. done. Qed.

Definition generation_owned (w : generation_world) : Prop := root_owned c0 (policy_side w).

Lemma generation_serve_promised r w f n x y w' :
  generation_owned w -> generation_serve r w f n x = Some (y, w') -> generation_promised r y.
Proof.
  intros Hw H. destruct r as [r|r].
  - apply generation_serve_policy in H as [H _]. by eapply policy_serve_promised.
  - apply generation_serve_readiness in H as [H _]. by eapply readiness_serve_promised.
Qed.

Lemma generation_serve_owned r w f n x y w' t :
  generation_owned w -> generation_serve r w f n x = Some (y, w') -> generation_safe t r y -> generation_owned w'.
Proof.
  unfold generation_owned. intros Hw H Hs. destruct r as [r|r].
  - apply generation_serve_policy in H as [H _]. eapply policy_serve_owned; [exact Hw|exact H|apply Hs].
  - apply generation_serve_readiness in H as [_ ->]. done.
Qed.

Lemma generation_events_safe turns fuel w es t1 i r x t2 :
  generation_owned w -> generation_events turns fuel (alone w) es = t1 ++ (i, gdid r x) :: t2 ->
  generation_safe (own i t1) r x.
Proof.
  apply (events_safe generation_serve (generation_born turns fuel) generation_body generation_owned generation_promised
    generation_safe generation_serve_promised generation_serve_owned holds_caller (holds_born turns fuel)).
Qed.
End wiring.

(** ** What has been published *)

Abbreviation ghappening := (nat * gev)%type.

Definition published (p : CellularPolicyPublication) (t : list ghappening) : Prop :=
  exists i os, (i, gdid (GPolicy (PLocked (SPublish p))) os) ∈ t.

Definition enforcement (t : list ghappening) : Prop := exists p, published p t /\ publication_result p = Enforced.

(** Events that show the product as ready. *)
Definition shows_ready (e : gev) : Prop :=
  match e with
  | existT (GReadiness (RLocked l)) y =>
      match l return rsection_reply l -> Prop with
      | SComplete _ _ _ => fun y => exists refresh, y = Some (Ready, refresh)
      | _ => fun _ => False
      end y
  | existT (GReadiness (RMesh (MLocked MRead))) y => y.2 = true
  | _ => False
  end.

Definition bit (w : generation_world) : bool := readiness_ready (composition (mesh_side (readiness_side w))).

Record evidence (t : list ghappening) (w : generation_world) : Prop := {
  ev_last p : last_publication (coordinator_state (policy_side w)) = Some p -> published p t;
  ev_spoken i p : Exists (speaks p) (policy_part (own i t)) -> published p t;
  ev_fact f : cellular (facts (readiness (readiness_side w))) = Some f -> cf_root_policy_verified f = true ->
    exists p, published p t /\ verified_by p f;
  ev_ok : until_exhausted readiness_ok (readiness (readiness_side w));
  ev_ready : exhausted (readiness (readiness_side w)) \/
    (bit w = true \/ (exists i e, (i, e) ∈ t /\ shows_ready e) -> enforcement t) }.

Lemma published_app p t t' : published p t -> published p (t ++ t').
Proof. intros (i & os & H). exists i, os. apply elem_of_app. by left. Qed.

Lemma enforcement_app t t' : enforcement t -> enforcement (t ++ t').
Proof. intros (p & Hp & He). exists p. split; [by apply published_app|done]. Qed.

Lemma elem_of_own {Req} {Rep : Req -> Type} i (e : sigT Rep) t : e ∈ own i t <-> (i, e) ∈ t.
Proof.
  unfold own. rewrite list_elem_of_omap. split.
  - intros ([j e'] & H & E). case_decide; [|done]. by simplify_eq.
  - intros H. exists (i, e). split; [done|]. by rewrite decide_True.
Qed.

Lemma elem_of_readiness_part r (y : readiness_reply r) t : rdid r y ∈ readiness_part t -> gdid (GReadiness r) y ∈ t.
Proof.
  unfold readiness_part. rewrite list_elem_of_omap. intros ([[q|q] z] & H & E); [done|].
  assert (gdid (GReadiness r) y = gdid (GReadiness q) z) as ->; [|done].
  apply (f_equal (fun o => match o with Some e => Some (gdid (GReadiness (projT1 e)) (projT2 e)) | None => None end)) in E.
  cbn in E. by injection E as ->.
Qed.

(** *** The sections *)

Lemma last_publication_section l now a s p :
  last_publication (penter l now a s).2 = Some p -> l = SPublish p \/ last_publication s = Some p.
Proof.
  destruct l; cbn [penter snd]; try (by right).
  - destruct name; by right.
  - unfold offer_section. destruct (PolicyCoordinator.closed s); by right.
  - unfold take_section. destruct (PolicyCoordinator.closed s); [by right|]. destruct (latest s); by right.
  - unfold schedule_section. destruct (_ || _); by right.
  - unfold PolicyCoordinator.fire_section. destruct (_ || _ || _); [by right|]. destruct (negb _); by right.
  - unfold publish_admission_section. destruct (_ =b? _); by right.
  - cbn. intros [= ->]. by left.
Qed.

Lemma policy_serve_last r w f n x y w' p :
  policy_serve r w f n x = Some (y, w') -> last_publication (coordinator_state w') = Some p ->
  r = PLocked (SPublish p) \/ last_publication (coordinator_state w) = Some p.
Proof.
  unfold policy_serve, policy_answer. cbn [coordinator_state PolicyCoordinator.cellular PolicyCoordinator.root]. intros H Hp.
  assert ((exists l, r = PLocked l /\ coordinator_state w' =
      (penter l (time x) (admission_snapshot (permit_run (PolicyCoordinator.cellular w) (permits x))) (coordinator_state w)).2) \/
    coordinator_state w' = coordinator_state w) as [(l & -> & E)|E].
  { destruct r; cbn in H; try (apply (f_equal (option_map snd)) in H; cbn in H; injection H as <-; eauto).
    - destruct (_ =? 0); [|destruct (waited x)]; try done;
        (apply (f_equal (option_map snd)) in H; cbn in H; injection H as <-; eauto).
    - destruct (PolicyCoordinator.root w); [|done]. apply (f_equal (option_map snd)) in H; cbn in H; injection H as <-; eauto. }
  - rewrite E in Hp. apply last_publication_section in Hp as [->|Hp]; eauto.
  - rewrite E in Hp. by right.
Qed.

Lemma speaks_served r w f n x y w' p :
  policy_serve r w f n x = Some (y, w') -> speaks p (pdid r y) ->
  r = PLocked (SPublish p) \/ last_publication (coordinator_state w) = Some p.
Proof.
  intros H. destruct r; try done. unfold policy_serve, policy_answer in H. apply (f_equal (option_map fst)) in H.
  cbn [option_map fst coordinator_state] in H. destruct l; cbn [speaks]; try done.
  - intros <-. by left.
  - intros ->. right. by injection H.
  - intros ->. right. by injection H.
Qed.

Lemma cellular_section l s :
  cellular (facts (renter l s).2) = cellular (facts s) \/
  exists c, l = SUpdate (UCellular c) /\ cellular (facts (renter l s).2) = c.
Proof.
  destruct l; cbn [renter snd]; try (by left).
  - assert (cellular (facts (update_section u s).2) = cellular (facts s) \/
      cellular (facts (update_section u s).2) = cellular (facts (apply_update u s))) as [E|E].
    { unfold update_section. destruct (closed s); [by left|]. right. cbn zeta. case_bool_decide; [done|].
      destruct (invalidate _) as [[]]; [|done]. destruct (probe_eligibility _); [|done..].
      destruct (credentials_current _ _); [|done]. by destruct (begin _ _) as [[]]. }
    + by left.
    + destruct u as [c| | | |]; try (by left). right. by exists c.
  - left. unfold complete_section. destruct (closed s); [done|]. destruct (complete_bounded _ _ _ _ _) as [[]]; [|done].
    by destruct (match probe_eligibility _ with Eligible _ => _ | _ => _ end).
  - left. unfold refresh_failed_section. by destruct (_ =? _).
  - left. unfold fire_section. destruct (_ || _ || _); [done|]. destruct (probe_eligibility _); try done.
    destruct (negb _); [done|]. by destruct (begin _ _) as [[]].
  - left. unfold shutdown_section. by destruct (closed s).
Qed.

Lemma complete_section_ready t outcome el s refresh :
  (complete_section t outcome el s).1 = Some (Ready, refresh) -> projected (complete_section t outcome el s).2 = Ready.
Proof.
  unfold complete_section. destruct (closed s); [done|]. destruct (complete_bounded _ _ _ _ _) as [[]]; [|done].
  destruct (match probe_eligibility _ with Eligible _ => _ | _ => _ end); cbn; by intros [= ->].
Qed.

(** READY rests on a fact with a verified policy. *)
Lemma ready_verified s : readiness_ok s -> projected s = Ready ->
  exists o, observation s = Some o /\ obs_outcome o = Succeeded /\ formed (facts s) (obs_binding o) /\ closed s = false.
Proof.
  intros Hs (o & Ho & Hsucc)%(ro_ready _ Hs). destruct (ro_observation _ Hs o Ho) as [Hf Hc]. by exists o.
Qed.

(** *** Steps *)

Lemma spoken_snoc t i j e p :
  Exists (speaks p) (policy_part (own j (t ++ [(i, e)]))) ->
  Exists (speaks p) (policy_part (own j t)) \/
  exists r y, e = gdid (GPolicy r) y /\ speaks p (pdid r y).
Proof.
  rewrite own_snoc. unfold policy_part. rewrite omap_app, Exists_app. intros [H|H]; [by left|]. right.
  destruct (decide _); [|by inversion H]. destruct e as [[r|r] y]; cbn in H; [|by inversion H]. exists r, y.
  split; [done|]. by inversion H as [? ? Hs|? ? Hn]; [|inversion Hn].
Qed.

Lemma shown_snoc t (i : nat) (e : gev) :
  (exists j e', (j, e') ∈ t ++ [(i, e)] /\ shows_ready e') -> (exists j e', (j, e') ∈ t /\ shows_ready e') \/ shows_ready e.
Proof.
  intros (j & e' & [H|H%list_elem_of_singleton]%elem_of_app & Hs); [left; eauto|]. right. by injection H as -> ->.
Qed.

Lemma evidence_policy t i r w f n x y w' :
  evidence t w -> generation_serve (GPolicy r) w f n x = Some (y, w') -> evidence (t ++ [(i, gdid (GPolicy r) y)]) w'.
Proof.
  intros [Hl Hsp Hf Hok Hr] [Hserve Hside]%generation_serve_policy. cbn in y.
  assert (forall p, r = PLocked (SPublish p) -> published p (t ++ [(i, gdid (GPolicy r) y)])) as Hnew.
  { intros p ->. exists i, y. apply elem_of_app. right. by left. }
  split; unfold bit; rewrite ?Hside.
  - intros p Hp. destruct (policy_serve_last _ _ _ _ _ _ _ p Hserve Hp) as [E|H]; [by apply Hnew|].
    by apply published_app, Hl.
  - intros j p [H|(q & z & E & Hz)]%spoken_snoc; [by apply published_app, (Hsp j)|].
    assert (speaks p (pdid r y)) as Hz'.
    { apply (f_equal (fun e : gev => match e with existT (GPolicy r) y => speaks p (pdid r y) | _ => False end)) in E.
      change (speaks p (pdid r y) = speaks p (pdid q z)) in E. by rewrite E. }
    destruct (speaks_served _ _ _ _ _ _ _ p Hserve Hz') as [E'|H]; [by apply Hnew|]. by apply published_app, Hl.
  - intros g Hg Hv. destruct (Hf g Hg Hv) as (p & Hp & Hv'). exists p. split; [by apply published_app|done].
  - done.
  - destruct Hr as [Hr|Hr]; [by left|]. right. intros H. apply enforcement_app, Hr.
    destruct H as [H|[H|[]]%shown_snoc]; auto.
Qed.

Lemma readiness_serve_bit r w f n x y w' :
  readiness_serve r w f n x = Some (y, w') -> readiness_ready (composition (mesh_side w')) = true ->
  readiness_ready (composition (mesh_side w)) = true \/ r = RMesh (MLocked (MSetReady true)).
Proof.
  intros H Hb. injection H as H. assert (w' = (readiness_answer r w x).2) as -> by by rewrite H. clear H.
  destruct r as [l|m| | | | |]; try (by left). destruct m as [[]| | | | | |]; cbn in Hb; try (by left).
  subst. by right.
Qed.

Lemma readiness_serve_state r w f n x y w' :
  readiness_serve r w f n x = Some (y, w') ->
  readiness w' = readiness w \/ exists l, r = RLocked l /\ readiness w' = (renter l (readiness w)).2.
Proof.
  intros H. injection H as H. assert (w' = (readiness_answer r w x).2) as -> by by rewrite H. clear H.
  destruct r as [l| | | | | |]; try (by left). right. by exists l.
Qed.

(** What an event of the readiness runtime shows was so before, or follows from
    the state it leaves. *)
Lemma readiness_serve_shows r w f n x y w' :
  readiness_serve r w f n x = Some (y, w') -> shows_ready (gdid (GReadiness r) y) ->
  readiness_ready (composition (mesh_side w)) = true \/ projected (readiness w') = Ready.
Proof.
  intros H. destruct r as [l|m| | | | |]; try done.
  - destruct l; try done. intros [refresh E]. right. unfold readiness_serve in H.
    assert (y = (complete_section t outcome elapsed (readiness w)).1) as -> by by apply (f_equal (option_map fst)) in H; injection H.
    apply (f_equal (option_map snd)) in H. injection H as <-. by eapply complete_section_ready.
  - destruct m as [[]| | | | | |]; try done. cbn [shows_ready]. intros E. left. unfold readiness_serve in H.
    apply (f_equal (option_map fst)) in H. injection H as <-. exact E.
Qed.

Lemma readiness_serve_ok r w f n x y w' :
  readiness_serve r w f n x = Some (y, w') -> until_exhausted readiness_ok (readiness w) ->
  until_exhausted readiness_ok (readiness w') /\ (exhausted (readiness w) -> exhausted (readiness w')).
Proof.
  intros [->|(l & _ & ->)]%readiness_serve_state; [done|]. intros [Hc HI].
  pose proof (renter_exhausted l _ Hc) as Hx. split; [|done]. split; [by apply renter_markers|].
  destruct HI as [HI|HI]; [left; by apply Hx|]. destruct (renter_ok l _ HI); auto.
Qed.

(** A cellular fact of the state that is left. *)
Lemma readiness_serve_fact r w f n x y w' g :
  readiness_serve r w f n x = Some (y, w') -> cellular (facts (readiness w')) = Some g ->
  cellular (facts (readiness w)) = Some g \/ r = RLocked (SUpdate (UCellular (Some g))).
Proof.
  intros [->|(l & -> & ->)]%readiness_serve_state Hg; [by left|].
  destruct (cellular_section l (readiness w)) as [E|(c & -> & E)]; rewrite E in Hg; [by left|]. subst. by right.
Qed.

Lemma probed_shown t : probed (readiness_part t) -> exists e, e ∈ t /\ shows_ready e.
Proof.
  intros (t0 & u & p & a & env & b & ticket & refresh & E & _).
  exists (gdid (GReadiness (RLocked (SComplete ticket Succeeded (elapsed a b)))) (Some (Ready, refresh))). split; [|by exists refresh].
  apply elem_of_readiness_part. rewrite E. apply elem_of_app. right. do 3 right. left.
Qed.

Lemma evidence_readiness c0 t i r w f n x y w' :
  evidence t w -> generation_safe c0 (own i t) (GReadiness r) y ->
  generation_serve (GReadiness r) w f n x = Some (y, w') -> evidence (t ++ [(i, gdid (GReadiness r) y)]) w'.
Proof.
  intros [Hl Hsp Hf Hok Hr] [Hsafe Hrep] [Hserve Hside]%generation_serve_readiness. cbn in y.
  assert (forall g, cellular (facts (readiness (readiness_side w'))) = Some g -> cf_root_policy_verified g = true ->
    exists p, published p t /\ verified_by p g) as Hfact.
  { intros g Hg Hv. destruct (readiness_serve_fact _ _ _ _ _ _ _ g Hserve Hg) as [H| ->]; [by apply Hf|].
    destruct (Hrep Hv) as (p & Hp & Hv'). exists p. split; [by eapply Hsp|done]. }
  destruct (readiness_serve_ok _ _ _ _ _ _ _ Hserve Hok) as [Hok' Hex].
  split; rewrite ?Hside.
  - intros p Hp. by apply published_app, Hl.
  - intros j p [H|(q & z & E & _)]%spoken_snoc; [by apply published_app, (Hsp j)|].
    by apply (f_equal (fun e : gev => match projT1 e with GPolicy _ => true | _ => false end)) in E.
  - intros g Hg Hv. destruct (Hfact g Hg Hv) as (p & Hp & Hv'). exists p. split; [by apply published_app|done].
  - done.
  - destruct Hr as [Hr|Hr]; [by left; auto|]. destruct Hok' as [_ [Hx|Hok']]; [by left|]. right. intros H. apply enforcement_app.
    assert (bit w = true \/ (exists i e, (i, e) ∈ t /\ shows_ready e) \/ projected (readiness (readiness_side w')) = Ready)
      as Hcases.
    { destruct H as [H|[H|H]%shown_snoc]; [|by auto|].
      - destruct (readiness_serve_bit _ _ _ _ _ _ _ Hserve H) as [Hb|E]; [by left|]. right. left. subst r.
        destruct (probed_shown _ Hsafe) as (e & He & Hs). exists i, e. split; [by apply elem_of_own|done].
      - destruct (readiness_serve_shows _ _ _ _ _ _ _ Hserve H); auto. }
    destruct Hcases as [Hb|[Hs|Hp]]; [by apply Hr; auto|by apply Hr; auto|].
    apply (ready_verified _ Hok') in Hp as (o & _ & _ & Hform & _). pose proof (coh_cellular _ _ Hform) as Hc.
    destruct (Hfact _ Hc eq_refl) as (p & Hp & He & _). by exists p.
Qed.

Lemma evidence_step c0 t i r w f n x y w' :
  evidence t w -> generation_safe c0 (own i t) r y -> generation_serve r w f n x = Some (y, w') ->
  evidence (t ++ [(i, gdid r y)]) w'.
Proof. intros Hw Hs H. destruct r; [by eapply evidence_policy|by eapply evidence_readiness]. Qed.

(** ** Runs *)

Lemma composed_new_inv uid ns g w : composed_new uid ns g = Some w ->
  exists s r m, runtime_new uid ns = Some s /\ readiness_new g = Ok r /\ mesh_world_new = Ok m /\
    w = {| policy_side := {| coordinator_state := wire policy_new; PolicyCoordinator.cellular := CellularRuntime.coordinator_new;
                             PolicyCoordinator.root := Some s |};
           readiness_side := {| readiness := r; mesh_side := m |} |}.
Proof.
  unfold composed_new. destruct (_ || _); [done|]. destruct (runtime_new uid ns) as [s|]; [|done].
  destruct mesh_world_new as [m|]; [|done]. destruct (readiness_new g) as [r|]; [|done]. intros [= <-]. eauto 10.
Qed.

Lemma evidence_start uid ns g w : composed_new uid ns g = Some w -> evidence [] w.
Proof.
  intros (s & r & m & _ & Hr & Hm & ->)%composed_new_inv. pose proof (readiness_new_ok _ _ Hr) as Hok.
  assert (readiness_ready (composition m) = false) as Hb.
  { unfold mesh_world_new in Hm. destruct cidr_deployment; [|done]. destruct (Transport.coordinator_new _ _); [|done].
    by injection Hm as <-. }
  split; cbn [policy_side readiness_side coordinator_state readiness].
  - done.
  - intros i p H. by inversion H.
  - unfold readiness_new in Hr. destruct (generation_key_new g); [|done]. by injection Hr as <-.
  - split; [apply Hok|by right].
  - right. unfold bit. cbn [readiness_side mesh_side]. rewrite Hb. by intros [?|(i & e & H%elem_of_nil & _)].
Qed.

Lemma composed_owned uid ns g w c :
  composed_new uid ns g = Some w -> contract_new uid ns = Some c -> generation_owned c w.
Proof.
  intros (s & r & m & Hs & _ & _ & ->)%composed_new_inv Hc. pose proof (rt_reachable_ok _ (reach_new _ _ _ Hs)) as Hok.
  unfold runtime_new in Hs. rewrite Hc in Hs. injection Hs as <-. intros s' [= <-]. by split.
Qed.

Section generation_runs.
Context (uid : Z) (ns : RootPolicyNamespace) (g : Z) (w : generation_world) (c : RootPolicyContract) (turns fuel : nat).
Context (Hw : composed_new uid ns g = Some w) (Hc : contract_new uid ns = Some c).

Lemma generation_safe_at es t1 i r x t2 :
  generation_events turns fuel (alone w) es = t1 ++ (i, gdid r x) :: t2 -> generation_safe c (own i t1) r x.
Proof. apply generation_events_safe. by eapply composed_owned. Qed.

Lemma generation_evidence es : evidence (generation_events turns fuel (alone w) es) (shared (generation_runs turns fuel (alone w) es)).
Proof.
  apply (traced_inv _ _ _ (generation_safe c)).
  - intros t i r s f n x y s' H1 H2 H3. by eapply evidence_step.
  - intros. by eapply generation_safe_at.
  - by eapply evidence_start.
Qed.

(** A publication of enforcement that a run has made, and what its thread did for it. *)
Lemma published_behind es p : published p (generation_events turns fuel (alone w) es) -> publication_result p = Enforced ->
  exists t1 i os t2 t0 s h,
    generation_events turns fuel (alone w) es = t1 ++ (i, gdid (GPolicy (PLocked (SPublish p))) os) :: t2 /\
    policy_part (own i t1) = t0 ++ [pdid (PAuthorize s h) true; pdid (PLocked SReset) tt] /\
    Cellular.last_sequence (publication_admission p) = Some s /\ admitted_network (publication_admission p) = Some h /\
    enforced_for c (publication_admission p) t0.
Proof.
  intros (i & os & Hin) He. apply list_elem_of_split in Hin as (t1 & t2 & E).
  destruct (generation_safe_at es t1 i _ _ t2 E) as [(t0 & s & h & Hsafe) _]; [done|].
  exists t1, i, os, t2, t0, s, h. by split.
Qed.
End generation_runs.

(** ** Runs for examples *)

Definition demo_generation : generation_world :=
  default {| policy_side := policy_start demo_rt; readiness_side := {| readiness := demo_readiness; mesh_side := demo_mesh |} |}
    (composed_new 10234 RootPolicy.Release 21).

Abbreviation demo_generation_step := (generation_step 4 8).

Definition generation_demo_input (ps : list cellular_call) (waits : bool) (k : kernel) : generation_input :=
  {| policy_in := {| permits := ps; time := 0; PolicyCoordinator.executor := true; waited := waits; device := fun r => (kernel_handle r k).1 |};
     readiness_in := good_input |}.

(** A caller, or steps of a thread against the kernel, the first after permit traffic. *)
Inductive generation_act := Begin (c : generation_caller) | Proceed (i steps : nat) (traffic : list cellular_call).

Fixpoint proceed (steps i : nat) (traffic : list cellular_call)
    (wk : Threads.world generation_request generation_reply generation_world policy_returned * kernel)
    : list (sched generation_input generation_caller) * (Threads.world generation_request generation_reply generation_world policy_returned * kernel) :=
  match steps with
  | O => ([], wk)
  | S steps =>
      match Threads.threads wk.1 !! i with
      | Some (Do r _) =>
          let e := Threads.Advance i (generation_demo_input traffic true wk.2) in
          let k := match r with GPolicy (PRoot q) => (kernel_handle q wk.2).2 | _ => wk.2 end in
          let '(es, wk) := proceed steps i [] ((demo_generation_step wk.1 e).2, k) in
          (e :: es, wk)
      | _ => ([], wk)
      end
  end.

Fixpoint perform (acts : list generation_act)
    (wk : Threads.world generation_request generation_reply generation_world policy_returned * kernel)
    : list (sched generation_input generation_caller) :=
  match acts with
  | [] => []
  | Begin c :: acts => Call c :: perform acts ((demo_generation_step wk.1 (Call c)).2, wk.2)
  | Proceed i steps traffic :: acts => let '(es, wk) := proceed steps i traffic wk in es ++ perform acts wk
  end.

(** The mesh admits an address, a proxy is installed, a network is observed and its
    policy enforced (thread 3), the proxy starts: thread 6 is the probe. *)
Definition demo_generation_setup : list generation_act :=
  [Begin (FromReadiness (CallMeshVpn 1 (UniqueVpn [demo_address]))); Proceed 0 20 [];
   Begin (FromReadiness (CallMeshInstall 7)); Proceed 1 20 [];
   Begin (FromPolicy (PolicyTasks.observation 1)); Proceed 2 40 []; Proceed 3 600 [];
   Begin (FromReadiness (CallMeshFact
     (snapshot_locked (MeshComposition.transport (run mesh_alone demo_mesh (take 1 demo_opening))) true))); Proceed 4 20 [];
   Begin (FromReadiness (CallProxyStarted 31 51 (lit "user") (lit "secret"))); Proceed 5 20 []].

Definition demo_generation_ready : list (sched generation_input generation_caller) :=
  perform (demo_generation_setup ++ [Proceed 6 4 []]) (alone demo_generation, demo_kernel).

(** The product is ready, the mesh has been told, and the starting thread has read
    what it starts on. *)
Definition demo_generation_starting : list (sched generation_input generation_caller) :=
  perform (demo_generation_setup ++ [Proceed 6 8 []]) (alone demo_generation, demo_kernel).

Definition demo_generation_start : sched generation_input generation_caller :=
  Threads.Advance 6 (generation_demo_input [] true demo_kernel).

(** ** Properties *)

(** In the events [t], [p] was published as enforced by a thread that had run the
    root policy transaction for exactly its admission, with all its evidence, and had
    been granted the authorisation right before. *)
Definition rests_on (c : RootPolicyContract) (t : list ghappening) (p : CellularPolicyPublication) : Prop :=
  publication_result p = Enforced /\
  exists t1 i os t2 t0 s h,
    t = t1 ++ (i, gdid (GPolicy (PLocked (SPublish p))) os) :: t2 /\
    policy_part (own i t1) = t0 ++ [pdid (PAuthorize s h) true; pdid (PLocked SReset) tt] /\
    Cellular.last_sequence (publication_admission p) = Some s /\ admitted_network (publication_admission p) = Some h /\
    enforced_for c (publication_admission p) t0.

(** C6: READY rests on enforcement, across the owners of a generation.  In every
    interleaving of a generation as it is wired, as long as a freshness marker is
    left: when the readiness runtime projects READY, the facts it holds bind the
    probe that succeeded, and the cellular generation of that binding is one whose
    root policy the policy coordinator has published as enforced, from a thread that
    ran the transaction for exactly that generation, collected the full evidence, and
    was granted the authorisation. *)
Theorem ready_rests_on_enforcement uid ns g w c turns fuel es :
  composed_new uid ns g = Some w -> contract_new uid ns = Some c ->
  let t := generation_events turns fuel (alone w) es in
  let s := readiness (readiness_side (shared (generation_runs turns fuel (alone w) es))) in
  last_freshness (probe s) < u64_max -> projected s = Ready ->
  exists b f p,
    binds s b /\ observation s = Some {| obs_outcome := Succeeded; obs_binding := b; obs_freshness := f |} /\
    rests_on c t p /\ Cellular.last_sequence (publication_admission p) = Some (pb_cellular_owner_generation b).
Proof.
  intros Hw Hc t s Hf Hp. destruct (generation_evidence _ _ _ _ _ turns fuel Hw Hc es) as [_ _ Hfact [_ [Hx|Hok]] _].
  { unfold exhausted in Hx. unfold s in Hf. lia. }
  destruct (ready_verified _ Hok Hp) as (o & Ho & Hsucc & Hform & _). pose proof (coh_cellular _ _ Hform) as Hcell.
  destruct (Hfact _ Hcell eq_refl) as (p & Hpub & He & Hcf).
  exists (obs_binding o), (obs_freshness o), p. split_and!.
  - by apply probe_eligibility_Eligible, formed_eligible.
  - fold s in Ho. rewrite Ho. f_equal. destruct o. cbn in *. by subst.
  - split; [done|]. by apply (published_behind _ _ _ _ _ turns fuel Hw Hc es).
  - revert Hcf. unfold cellular_fact, generation_key_new. destruct (Cellular.last_sequence _) as [n|]; [|done].
    destruct (_ =? 0); [done|]. by intros [= ->].
Qed.

Lemma ready_rests_on_enforcement_witness :
  exists b f p,
    binds (readiness (readiness_side (shared (generation_runs 4 8 (alone demo_generation) demo_generation_ready)))) b /\
    observation (readiness (readiness_side (shared (generation_runs 4 8 (alone demo_generation) demo_generation_ready)))) =
      Some {| obs_outcome := Succeeded; obs_binding := b; obs_freshness := f |} /\
    rests_on (contract demo_rt) (generation_events 4 8 (alone demo_generation) demo_generation_ready) p /\
    Cellular.last_sequence (publication_admission p) = Some (pb_cellular_owner_generation b).
Proof.
  apply (ready_rests_on_enforcement 10234 RootPolicy.Release 21 demo_generation (contract demo_rt) 4 8 demo_generation_ready);
    [reflexivity|reflexivity|vm_compute; reflexivity|vm_compute; reflexivity].
Defined.

(** C7: The chain from the mesh to the kernel.  In every interleaving of a generation
    as it is wired, when a step starts the mesh ingress while a freshness marker is
    left, then before it some thread published an enforcement behind the transaction,
    the evidence and the authorisation for the generation it published.  No ingress is
    ever started before the first enforcement of the generation. *)
Theorem ingress_rests_on_enforcement uid ns g w c turns fuel es e i epoch mappings p started w' :
  composed_new uid ns g = Some w -> contract_new uid ns = Some c ->
  generation_step turns fuel (generation_runs turns fuel (alone w) es) e =
    (Some (i, gdid (GReadiness (RMesh (MStart epoch mappings p))) started), w') ->
  last_freshness (probe (readiness (readiness_side (shared (generation_runs turns fuel (alone w) es))))) < u64_max ->
  exists q, rests_on c (generation_events turns fuel (alone w) es) q.
Proof.
  intros Hw Hc He Hf. pose proof (generation_evidence _ _ _ _ _ turns fuel Hw Hc es) as [_ _ _ _ [Hx|Hr]].
  { unfold exhausted in Hx. lia. }
  destruct (generation_safe_at _ _ _ _ _ turns fuel Hw Hc (es ++ [e]) (generation_events turns fuel (alone w) es) i
    (GReadiness (RMesh (MStart epoch mappings p))) started []) as [[(t0 & s & Ht & _) _] _].
  { rewrite events_app. cbn [Threads.events]. by rewrite He. }
  destruct Hr as (q & Hq & Hen); [|exists q; split; [done|]; by apply (published_behind _ _ _ _ _ turns fuel Hw Hc es)].
  right. eexists i, (gdid (GReadiness (RMesh (MLocked MRead))) _). split; [|shelve].
  apply elem_of_own, elem_of_readiness_part. rewrite Ht. apply elem_of_app. right. right. left. Unshelve. done.
Qed.

Lemma ingress_rests_on_enforcement_witness :
  exists q, rests_on (contract demo_rt) (generation_events 4 8 (alone demo_generation) demo_generation_starting) q.
Proof.
  refine (ingress_rests_on_enforcement 10234 RootPolicy.Release 21 demo_generation (contract demo_rt) 4 8 demo_generation_starting
    demo_generation_start 6 1 proxy_transport_mappings 7 (Ok true)
    (generation_step 4 8 (generation_runs 4 8 (alone demo_generation) demo_generation_starting) demo_generation_start).2 _ _ _ _);
    [reflexivity|reflexivity|vm_compute; reflexivity|vm_compute; reflexivity].
Defined.

(** Every thread has ended. *)
Definition generation_finished (w : Threads.world generation_request generation_reply generation_world policy_returned) : bool :=
  forallb (fun p => match p with Ret _ => true | Do _ _ => false end) (Threads.threads w).

(** The readiness runtime can be left with the enforcement of a network that is gone.
    The policy coordinator calls its observers after it has let go of its mutex: the
    loss of a network is reported between the publication of its enforcement and the
    call, and reaches the readiness runtime first.  When the request of the loss is
    then dropped, because an effect in flight outlasts the drain timeout, nothing
    corrects it: all threads have ended, nothing is queued or scheduled, the owner
    has no admitted network, and the readiness runtime holds the policy of the lost
    one as verified. *)
Theorem enforcement_of_a_lost_network :
  exists es, let w := generation_runs 4 8 (alone demo_generation) es in
    generation_finished w = true /\ idle_and_closed (policy_side (shared w)) /\
    adm_state (admission_snapshot (PolicyCoordinator.cellular (policy_side (shared w)))) = Cellular.NotAdmitted /\
    Cellular.last_sequence (admission_snapshot (PolicyCoordinator.cellular (policy_side (shared w)))) = Some 2 /\
    cellular (facts (readiness (readiness_side (shared w)))) =
      Some {| cf_owner_generation := 1; cf_admitted := true; cf_root_policy_verified := true |}.
Proof.
  exists (perform [Begin (FromPolicy (PolicyTasks.observation 1)); Proceed 0 40 []; Proceed 1 84 [];
                   Begin (FromPolicy (CallLost 2 42)); Proceed 2 40 [GAcquire]; Proceed 1 600 []]
            (alone demo_generation, demo_kernel)).
  vm_compute. split_and!; reflexivity.
Qed.
